(* ===== verification/_CoqProject ===== *)
-Q . S2P
Prelude.v
GoStrings.v
GoStrconv.v
GoEncoding.v
GoNet.v
Conf.v
TunnelName.v
AwgValidation.v
Parser.v
Writer.v
UapiParser.v
ParserFacts.v
AwgFacts.v
RoundTrip.v
Reload.v
ConfTheorems.v
ParserSafety.v
ConfFacts.v
Highlighter.v
HighlighterFacts.v
HighlighterTheorems.v
Wfp.v
Firewall.v
FirewallFacts.v
FirewallPolicy.v
PlainWindows.v
FirewallTheorems.v
GoPath.v
GoUrl.v
GoJson.v
GoSha256.v
GoTime.v
GoOs.v
JsonFacts.v
SmartRules.v
SmartCatalog.v
SmartUpdate.v
SmartSettings.v
SmartStore.v
SmartConfig.v
SmartExplain.v
SmartPolicy.v
SmartPolicyFacts.v
SmartSafety.v
SmartTheorems.v
SmartRoundTrip.v
SmartStoreFacts.v
SmartStoreTheorems.v
Supervisor.v
ManagerNet.v
ManagerTypes.v
ManagerDesired.v
Manager.v
ManagerStart.v
ManagerFacts.v
ManagerRestore.v
ManagerSwitch.v
ManagerGuard.v
ManagerTheorems.v
ManagerTypesTheorems.v
RingLogger.v
GoSort.v
WinIp.v
AddressConfig.v
RouteMonitor.v
InterfaceWatcher.v
Services.v
DeterministicGuid.v
Resolver.v
TunnelService.v
SmartImport.v
SmartBackup.v
ConfStore.v
SmartPending.v
TunnelTracker.v
Updater.v
Install.v
PowerEvents.v
Ipc.v
IpcManager.v
