(* ===== verification/Prelude.v ===== *)
(** * Pinus Smart AWG: a verification library

    Pinus Smart AWG is a Windows VPN client for AmneziaWG.  This library models
    its Go source as executable definitions with the names of the source, and
    proves what makes it correct.  Paths below are those of the repository.

    ** The program and what is modelled

    A user's profile is text in the wg-quick format.  The client reads it, keeps
    it encrypted, and asks the manager service to start it, either natively (a
    tunnel service of its own, with the AmneziaWG engine inside) or in smart
    mode (an engine process that routes by rules).  A firewall keeps traffic
    inside the tunnel; monitors follow the network; a supervisor brings a lost
    connection back.

    - [core/conf], profiles: [Conf] is config.go, [TunnelName] name.go,
      [AwgValidation] awg_validation.go, [Parser] and [UapiParser] parser.go,
      [Writer] writer.go, [ConfStore] store.go, filewriter_windows.go,
      migration_windows.go and path_windows.go, [Resolver]
      dnsresolver_windows.go.
    - [client/ui/syntax/highlighter.go]: [Highlighter], the whole file over a
      buffer in which every read through a pointer is checked.
    - [core/tunnel/firewall]: [Wfp] has the data of types_windows.go, the call
      wrappers and the interface to the system; [Firewall] is helpers.go,
      rules.go, blocker.go (the kill switch) and preview_guard.go (the guard
      that stays between runs).
    - [core/tunnel], the tunnel service: [TunnelService] is service.go (the
      whole [Execute], with its deferred clean-up) and scriptrunner.go,
      [AddressConfig] addressconfig.go, [RouteMonitor] defaultroutemonitor.go,
      mtumonitor.go and the callback registries of winipcfg,
      [InterfaceWatcher] interfacewatcher.go, [DeterministicGuid]
      deterministicguid.go, [WinIp] the methods of winipcfg's [LUID].
      [Services] is [core/services].
    - [client/smart], routing by rules: [SmartRules] and [SmartSettings]
      settings.go, regional.go and policy_snapshot.go, [SmartCatalog] and
      [SmartUpdate] catalog.go, presets.go and bounded_file.go, [SmartStore]
      the stored settings and history.go, [SmartConfig] smart.go, dns_policy.go
      and probe.go, [SmartExplain] explain.go, [SmartImport] import_link.go,
      [SmartBackup] backup.go, [SmartPending] pending_profile.go.
    - [client/manager]: [Supervisor] and [ManagerNet] smart_supervisor.go,
      [ManagerTypes] native_switch.go, fallback.go, notifications.go and the
      data of the others, [ManagerDesired] smart_desired.go, [Manager] and
      [ManagerStart] smart_process.go, the methods of ipc_server.go and the parts
      of install.go they call, [TunnelTracker] tunneltracker.go, [Install] the
      rest of install.go with the search for the engine, [PowerEvents]
      power_events.go.  [Ipc] is what goes over the pipes between manager and
      windows: the server's loop of ipc_server.go over an interface of methods
      ([Class ManagerService]), ipc_client.go with its event loop, and
      notifications.go; [IpcManager] is the manager behind them: the instance of
      that interface, with ipc_uapi.go and connection_report.go.
    - [client/ringlogger]: [RingLogger], the log ring that several processes
      share.
    - [client/updater] and [client/manager/updatestate.go]: [Updater].

    The Go library is modelled where the source uses it: [GoStrings],
    [GoStrconv], [GoEncoding] (base64, hex), [GoNet], [GoPath],
    [GoUrl], [GoJson], [GoSha256], [GoTime], [GoOs] (files, with faults and
    crashes), [GoSort]; [encoding/gob] is in [Ipc], as messages with their type
    definitions.  What the language leaves open (Unicode tables above
    U+007F, the order of map iteration) is an instance of [GoRuntime].

    ** Interfaces

    Code outside the repository is an instance of a class, and what the source
    relies on is a class of laws that state documented behaviour: [Windows] and
    [WindowsLaws] (the filtering platform, with the instance [PlainWindows]),
    [IpHelper] and [IpHelperLaws] (address, route and DNS tables; [plain_ip]),
    [Engine] (the meaning of the rules of the smart engine), [Dpapi],
    [BackupCrypto], [GuidHost], [SortSlice] and their laws, [Ed25519],
    [TunnelHost], [TrackedService], [Resolver], [DirectoryHost], [StoreHost],
    [UpdateHost], [ServiceManager] and [ServiceLaws], [InstallHost], [ProbeEnv].  Theorems of a client are about any instance; the witnesses
    run on concrete ones.

    ** Conventions

    A call that can fail or panic returns an [outcome].  State is passed
    explicitly: [prog] over a state type, [IO] over files, [M] for the firewall
    and for the manager, [run] for a service whose outside actions are recorded
    in a trace.  Any outside call can fail ([fault], [env_fault], the answers of
    the classes above).  Concurrency is a step relation where the source is
    concurrent: [sup_step], [monitor_step], [writer_step] with [copying] and [polled], [power_run],
    [conn_run], [clients_run]; the three stages of
    [Destroy] run with anything in between.  Integers are [Z] with the
    wrap-around of their width written out ([u8], [u16], [u32], [i64]).  Slices
    shared between values come back updated from the functions that write
    through them.

    Fuel.  The CPS scanner and the highlighter's loops get one step per byte
    (and one more), the JSON decoder two per byte, the log buffer one per byte
    and one more, [replace_loop] one per byte: enough, since each step consumes
    a byte.  The enumeration of filters gets its number of pages and is proved
    to end.  [smartStartLocked] gets [start_fuel] = 2, proved to be enough
    ([smartStartLocked_terminates]).  [RootDirectory] gets the number of times
    another process may delete the directory in between; its theorem is about
    any number.  The server's and the client's loops over a pipe get a turn per
    message and one more, and every turn reads a message ([serve_loop_fuel]).

    ** Theorems

    - Profiles: saved configurations read back ([ConfTheorems], over
      [RoundTrip] and [Reload]), from the store too ([ConfStore]) and as
      pending profiles ([SmartPending]); accepted configurations are
      well-formed; validation accepts exactly what a declarative definition says
      ([AwgFacts]); the readers do not panic ([ParserSafety]);
      names, masks, routes ([ConfFacts], [TunnelName]); a migration
      never loses a profile that can be read again, wherever the process is
      ended (not when the machine loses power: [GoOs] has no write-back cache).
    - Editor: memory safety and agreement with the reader
      ([HighlighterFacts], [HighlighterTheorems]).
    - Firewall: the exact traffic policy of the kill switch and of the guard,
      all-or-nothing installation, clean removal ([FirewallFacts],
      [FirewallPolicy], [FirewallTheorems]); that a tunnel gets the policy its
      configuration asks for ([AddressConfig]).
    - Tunnel service: every run of [Execute] refines an abstract service that
      holds resources in order and gives all of them back, and ends in one of
      the ways of [ending], with the error of the step that failed
      ([TunnelService]); the interface gets exactly the configured
      addresses and, unless Table is off, routes ([AddressConfig]); changes of the default
      route are acted on in time, and the best route is chosen
      ([RouteMonitor]); each appearance of the interface is set up once
      and everything is given back at the end ([InterfaceWatcher]); the
      adapter's identity tells tunnels apart ([DeterministicGuid]).
    - Smart mode: the generated configuration implements [policy], whatever way
      the engine compares the names of processes ([SmartPolicy],
      [SmartTheorems]); the explanation agrees with it but for the named
      causes of [divergence]; no traffic leaks in full-tunnel mode; settings survive their round trip and
      are replaced atomically, the catalog never rolls back
      ([SmartRoundTrip], [SmartStoreTheorems]); imported profiles run no
      commands and no error of an import shows the token ([SmartImport]); backups open ([SmartBackup]).
    - Manager: a start, of a running tunnel too, establishes engine, guard and
      state, or fails closed; between whole requests one engine at most runs
      and no key file is left; native starts are exclusive; starts
      end ([ManagerFacts], [ManagerGuard], [ManagerSwitch], [ManagerRestore],
      [ManagerTheorems], [ManagerTypesTheorems]); the supervisor's invariant and
      its progress ([Supervisor]); the state of a tunnel service is
      announced once per change, and the error of the step that ended it
      reaches the manager ([TunnelTracker]).
    - Pipes: calls over the pipes refine calls of the manager's methods, events
      arrive in order and ungarbled, every callback gets its events ([Ipc]);
      between whole requests, whatever clients send, those without
      administrator rights change no configuration and see no key, one engine runs at most, quitting happens
      once and no lock is kept ([IpcManager]).
    - Installation and power: only files with pinned hashes are installed, a
      crash leaves old or new files, removal removes the program's services and
      no others ([Install]); the last power event wins ([PowerEvents]).
    - Ring logger: writers and a reader run byte by byte at once; a reader that
      is not lapped is shown whole lines in order, each once, and waits at the
      first one in flight ([RingLogger]).  Two races the source names are
      conditions there: a writer a whole lap behind, and a used slot that is
      taken and not yet cleared when a copy begins.
    - Updater: only installers the release key vouches for are run
      ([Updater]).
    - Theorems that show a defect: [FromWgQuick_kelvin_panics],
      [unprintable_endpoint_lost], [migration_loses_unprintable],
      [IntersectsWith_masks_receiver], [FromUAPI_mutates_existing],
      [isValidScope_inverted], [isValidHostname_double_dot],
      [SetPreviewGuard_existing_provider], [Normalized_duplicate_ids],
      [leading_dot_rule], [guard_failure_never_reported],
      [global_state_depends_on_order], [desired_boundary_unreadable],
      [reset_drops_later_request], [follow_misses_full_lap],
      [NewRinglogger_closes_twice], [metric_sum_wraps], [tunnel_mtu_wraps],
      [destroy_race_leaks], [third_error_blocks], [disabled_service_missed],
      [backup_mangles_bytes], [pending_profile_mangled], [long_list_leaks],
      [failed_elevation_blocks], [event_without_name],
      [first_poll_skips_line_in_flight], [same_key_order_shows].

    ** Not modelled

    Drawing and window messages of the user interface, translations and other
    generated tables, the engine and other third-party code, bindings to Windows
    libraries: there is no logic of the program in them that the kernel could
    check against anything.  The sessions and processes of the manager's service
    (service.go, uiprocess.go), elevation, the registry helpers of
    [client/services] and the WinHTTP client are calls of Windows; where other
    parts depend on their answers, those are parameters.  Also left out: the
    30-second watchdog of the tunnel service, the watchers that only call other
    parts again (storewatcher, watchNewTunnelServices), log texts, and of
    install.go the rewriting of a service's command line.

    This file: byte strings, bytes as integers, outcomes and their
    combinators, inversion tactics, record update, facts on lists. *)

From stdpp Require Export base gmap list list_numbers numbers sorting.
From Stdlib Require Export ZArith Lia Strings.Byte.

#[export] Set Default Proof Using "Type".

(** ** Go strings: immutable byte sequences *)

Definition gostring : Set := list byte.

Declare Scope go_scope.
Delimit Scope go_scope with go.
Bind Scope go_scope with gostring.

Inductive literal := LNil | LCons (b : byte) (l : literal).

Fixpoint literal_of_bytes (l : list byte) : literal :=
  match l with [] => LNil | b :: l => LCons b (literal_of_bytes l) end.

Fixpoint bytes_of_literal (l : literal) : list byte :=
  match l with LNil => [] | LCons b l => b :: bytes_of_literal l end.

#[warnings="-via-type-remapping,-via-type-mismatch"]
String Notation gostring literal_of_bytes bytes_of_literal
  (via literal mapping [[nil] => LNil, [cons] => LCons]) : go_scope.

Open Scope go_scope.

(** ** Bytes as 8-bit integers *)

Definition bz (b : byte) : Z := Z.of_N (Byte.to_N b).

Definition zb (z : Z) : byte :=
  match Byte.of_N (Z.to_N (z mod 256)) with Some b => b | None => x00 end.

#[export] Instance byte_eq_dec : EqDecision byte := Byte.byte_eq_dec.

#[export] Program Instance byte_countable : Countable byte :=
  inj_countable Byte.to_N Byte.of_N _.
Next Obligation. intros b. apply Byte.of_to_N. Qed.

#[export] Instance gostring_eq_dec : EqDecision gostring.
Proof. unfold gostring. apply _. Defined.

#[export] Instance gostring_countable : Countable gostring.
Proof. unfold gostring. apply _. Defined.

#[export] Instance gostring_inhabited : Inhabited gostring := populate [].

(** Boolean equality on strings, as Go's [==] on strings. *)
Fixpoint str_eqb (s t : list byte) : bool :=
  match s, t with
  | [], [] => true
  | a :: s, b :: t => Byte.eqb a b && str_eqb s t
  | _, _ => false
  end.

Notation "s =?s t" := (str_eqb s t) (at level 70, no associativity) : go_scope.

Lemma byte_eqb_spec a b : reflect (a = b) (Byte.eqb a b).
Proof.
  destruct (Byte.eqb a b) eqn:E; constructor.
  - by apply Byte.byte_dec_bl.
  - intros ->. by rewrite Byte.byte_dec_lb in E.
Qed.

Lemma byte_eqb_refl a : Byte.eqb a a = true.
Proof. by destruct (byte_eqb_spec a a). Qed.

Lemma byte_eqb_neq a b : a ≠ b → Byte.eqb a b = false.
Proof. intros H. by destruct (byte_eqb_spec a b). Qed.

Lemma str_eqb_spec s t : reflect (s = t) (str_eqb s t).
Proof.
  revert t. induction s as [|a s IH]; intros [|b t]; simpl; try (constructor; congruence).
  destruct (byte_eqb_spec a b) as [->|Hab]; simpl.
  - destruct (IH t) as [->|Hst]; constructor; congruence.
  - constructor. congruence.
Qed.

Lemma str_eqb_refl s : str_eqb s s = true.
Proof. by destruct (str_eqb_spec s s). Qed.

Lemma str_eqb_true s t : str_eqb s t = true ↔ s = t.
Proof. destruct (str_eqb_spec s t); split; congruence. Qed.

Lemma str_eqb_false s t : str_eqb s t = false ↔ s ≠ t.
Proof. destruct (str_eqb_spec s t); split; congruence. Qed.

(** Decide a boolean fact about every byte by evaluating it 256 times. *)
Definition all_bytes : list byte := map (λ n, zb (Z.of_nat n)) (seq 0 256).

Lemma bz_range b : (0 ≤ bz b < 256)%Z.
Proof.
  pose proof (Byte.to_N_bounded b) as H. unfold bz. split; [lia|].
  change 256%Z with (Z.of_N 256). apply N2Z.inj_lt. lia.
Qed.

Lemma zb_bz b : zb (bz b) = b.
Proof.
  unfold zb. rewrite Z.mod_small by apply bz_range.
  unfold bz. by rewrite N2Z.id, Byte.of_to_N.
Qed.

Lemma all_bytes_complete b : In b all_bytes.
Proof.
  rewrite <- (zb_bz b). unfold all_bytes. apply in_map_iff.
  exists (Z.to_nat (bz b)). pose proof (bz_range b).
  split; [f_equal; lia|]. apply in_seq. lia.
Qed.

Lemma byte_forall (P : byte → bool) : forallb P all_bytes = true → ∀ b, P b = true.
Proof. rewrite forallb_forall. eauto using all_bytes_complete. Qed.

Lemma bz_zb z : bz (zb z) = (z mod 256)%Z.
Proof.
  unfold zb, bz. pose proof (Z.mod_pos_bound z 256 ltac:(lia)) as Hb.
  destruct (Byte.of_N (Z.to_N (z mod 256))) eqn:E.
  - apply Byte.to_of_N in E. rewrite E, Z2N.id; lia.
  - apply Byte.of_N_None_iff in E. lia.
Qed.

Lemma bz_inj a b : bz a = bz b → a = b.
Proof. intros H. by rewrite <- (zb_bz a), <- (zb_bz b), H. Qed.

(** The same for the integers below a bound. *)
Lemma below_forall n (P : Z → bool) :
  forallb P (seqZ 0 n) = true → ∀ v, (0 ≤ v < n)%Z → P v = true.
Proof.
  rewrite forallb_forall. intros H v Hv. apply H. apply list_elem_of_In, elem_of_seqZ. lia.
Qed.

Lemma implb_elim a b : implb a b = true → a = true → b = true.
Proof. by destruct a. Qed.

(** Prove a goal about one byte, or one bounded integer, by evaluation over all of them. *)
Ltac by_bytes P b :=
  let H := fresh in
  pose proof (byte_forall P ltac:(vm_compute; reflexivity) b) as H; cbv beta in H; revert H.
Ltac by_below n P v Hv :=
  let H := fresh in
  pose proof (below_forall n P ltac:(vm_compute; reflexivity) v Hv) as H; cbv beta in H; revert H.

(** ** Outcomes of Go code

    A call returns a value, returns a non-nil [error], or panics. *)

#[warnings="-register-all"]
Inductive goerror :=
| ParseError (why : gostring) (cause : option goerror) (offender : gostring)
| ErrorString (msg : gostring)
| WrapError (msg : gostring) (inner : goerror)
| NumError (fn num : gostring) (range : bool)
| CorruptInputError (offset : nat)
| InvalidByteError (b : byte)
| ErrLength
| ErrEOF
| JoinError (es : list goerror).

Inductive outcome (A : Type) :=
| Ret (a : A)
| Fail (e : goerror)
| Panic.
Arguments Ret {A} _.
Arguments Fail {A} _.
Arguments Panic {A}.

#[export] Instance outcome_ret : MRet outcome := λ _ a, Ret a.
#[export] Instance outcome_bind : MBind outcome := λ A B f m,
  match m with Ret a => f a | Fail e => Fail e | Panic => Panic end.
#[export] Instance outcome_fmap : FMap outcome := λ A B f m,
  match m with Ret a => Ret (f a) | Fail e => Fail e | Panic => Panic end.

Definition is_ret {A} (m : outcome A) : bool :=
  match m with Ret _ => true | _ => false end.

(** [m] with the error replaced, as [if err != nil { return e }]. *)
Definition map_error {A} (f : goerror → goerror) (m : outcome A) : outcome A :=
  match m with Fail e => Fail (f e) | _ => m end.

Definition or_fail {A} (o : option A) (e : goerror) : outcome A :=
  match o with Some a => Ret a | None => Fail e end.

(** Abort with [e] when [b] holds, as [if b { return e }]. *)
Definition fail_if (b : bool) (e : goerror) : outcome unit :=
  if b then Fail e else Ret tt.

(** Sequential [for _, x := range l] with early return. *)
Fixpoint fold_outcome {A S} (f : S → A → outcome S) (s : S) (l : list A) : outcome S :=
  match l with
  | [] => Ret s
  | x :: l => s' ← f s x; fold_outcome f s' l
  end.

Fixpoint mapM_outcome {A B} (f : A → outcome B) (l : list A) : outcome (list B) :=
  match l with
  | [] => Ret []
  | x :: l => y ← f x; ys ← mapM_outcome f l; Ret (y :: ys)
  end.

Lemma bind_ret {A B} (m : outcome A) (f : A → outcome B) b :
  (m ≫= f) = Ret b ↔ ∃ a, m = Ret a ∧ f a = Ret b.
Proof. destruct m; simpl; split; [eauto| |intros [=]| |intros [=]|]; intros (x & [=] & Hx); by subst. Qed.

Lemma fail_if_ret b e : fail_if b e = Ret tt ↔ b = false.
Proof. destruct b; simpl; split; congruence. Qed.

Lemma or_fail_ret {A} (o : option A) e a : or_fail o e = Ret a ↔ o = Some a.
Proof. destruct o; simpl; split; congruence. Qed.

Lemma map_error_ret {A} f (m : outcome A) a : map_error f m = Ret a ↔ m = Ret a.
Proof. destruct m; simpl; split; congruence. Qed.

Lemma fold_outcome_app {A S} (f : S → A → outcome S) s l1 l2 :
  fold_outcome f s (l1 ++ l2) = fold_outcome f s l1 ≫= λ s', fold_outcome f s' l2.
Proof. revert s. induction l1 as [|x l1 IH]; intros s; simpl; [done|]. destruct (f s x); simpl; auto. Qed.

(** Loop-invariant rule for [fold_outcome]. *)
Lemma fold_outcome_inv {A S} (P : S → Prop) (f : S → A → outcome S) s l s' :
  (∀ s x s', P s → x ∈ l → f s x = Ret s' → P s') →
  P s → fold_outcome f s l = Ret s' → P s'.
Proof.
  revert s. induction l as [|x l IH]; intros s Hf Hs Hl; simpl in Hl.
  - by injection Hl as ->.
  - apply bind_ret in Hl as (s1 & H1 & H2).
    eapply IH; [|eapply Hf; [exact Hs|apply list_elem_of_here|exact H1]|exact H2].
    intros ??? HP Hx. apply Hf; [done|]. by apply list_elem_of_further.
Qed.

Lemma mapM_outcome_ret {A B} (f : A → outcome B) l ys :
  mapM_outcome f l = Ret ys ↔ Forall2 (λ x y, f x = Ret y) l ys.
Proof.
  revert ys. induction l as [|x l IH]; intros ys; simpl.
  - split; [by intros [= <-]|by inversion 1].
  - split.
    + intros (y & Hy & (ys' & Hys & [= <-])%bind_ret)%bind_ret.
      constructor; [done|]. by apply IH.
    + inversion 1 as [|? y ? ys' Hy Hys]; subst. rewrite Hy. simpl.
      by rewrite (proj2 (IH _) Hys).
Qed.

(** Inversion of successful runs: turn [m = Ret a] hypotheses into equations
    on the calls that produced them. *)
Ltac inv_ret_step :=
  match goal with
  | H : Ret _ = Ret _ |- _ => injection H as H; subst
  | H : Fail _ = Ret _ |- _ => discriminate H
  | H : Panic = Ret _ |- _ => discriminate H
  | H : (_ ≫= _) = Ret _ |- _ =>
      let a := fresh "a" in let Ha := fresh "Ha" in
      apply bind_ret in H as (a & Ha & H)
  | H : fail_if _ _ = Ret ?u |- _ => destruct u; apply fail_if_ret in H
  | H : or_fail _ _ = Ret _ |- _ => apply or_fail_ret in H
  | H : map_error _ _ = Ret _ |- _ => apply map_error_ret in H
  end.
Ltac inv_ret := repeat (inv_ret_step; simpl in *).

(** Case analysis on the guard of an [if] in a hypothesis or in the goal. *)
Ltac case_if :=
  match goal with
  | H : context [if ?b then _ else _] |- _ => let E := fresh "E" in destruct b eqn:E
  | |- context [if ?b then _ else _] => let E := fresh "E" in destruct b eqn:E
  end.

(** Reflect boolean comparisons into propositions for [lia]. *)
Ltac breflect :=
  repeat match goal with
  | H : (_ && _) = true |- _ => apply andb_true_iff in H as [? ?]
  | H : (_ || _) = false |- _ => apply orb_false_iff in H as [? ?]
  | H : negb _ = true |- _ => apply negb_true_iff in H
  | H : negb _ = false |- _ => apply negb_false_iff in H
  | H : (_ <? _)%Z = true |- _ => apply Z.ltb_lt in H
  | H : (_ <? _)%Z = false |- _ => apply Z.ltb_ge in H
  | H : (_ <=? _)%Z = true |- _ => apply Z.leb_le in H
  | H : (_ <=? _)%Z = false |- _ => apply Z.leb_gt in H
  | H : (_ =? _)%Z = true |- _ => apply Z.eqb_eq in H
  | H : (_ =? _)%Z = false |- _ => apply Z.eqb_neq in H
  | H : (_ >? _)%Z = _ |- _ => rewrite Z.gtb_ltb in H
  | H : (_ >=? _)%Z = _ |- _ => rewrite Z.geb_leb in H
  | H : str_eqb _ _ = true |- _ => apply str_eqb_true in H
  | H : str_eqb _ _ = false |- _ => apply str_eqb_false in H
  | H : bool_decide _ = true |- _ => apply bool_decide_eq_true in H
  | H : bool_decide _ = false |- _ => apply bool_decide_eq_false in H
  end.

(** ** What the Go runtime leaves open

    The Unicode case tables (used only above U+007F) and the iteration order
    of maps are not fixed by the source; definitions that depend on them take
    an instance of this class.  [iterate l] is one order in which a [range]
    over a map with entries [l] may visit them. *)
Class GoRuntime := {
  rune_lower : Z → Z;
  simple_fold : Z → Z;
  iterate : ∀ {A : Type}, list A → list A;
  iterate_perm : ∀ {A : Type} (l : list A), iterate l ≡ₚ l;
}.

(** A runtime whose tables leave runes above U+007F alone, except that U+212A
    (the Kelvin sign) lowers to [k] and folds with it, and whose maps are
    iterated in the order of their entries. *)
Definition plain_runtime : GoRuntime := {|
  rune_lower := λ r, if (r =? 0x212A)%Z then 0x6B%Z else r;
  simple_fold := λ r, if (r =? 0x6B)%Z then 0x212A%Z else r;
  iterate := λ A l, l;
  iterate_perm := λ A l, Permutation_refl l;
|}.

(** ** Record update *)

Class Setter {R T : Type} (proj : R → T) := set_field : (T → T) → R → R.
Arguments set_field {R T} proj {_} f r.

Ltac derive_setter eta proj :=
  let e := eval unfold eta in eta in
  let b := eval pattern proj in e in
  match b with ?g _ => exact (λ f r, g (λ x, f (proj x)) r) end.

#[warnings="-postfix-notation-not-level-1"]
Notation "r <| proj := v |>" := (set_field proj (λ _, v) r)
  (at level 12, left associativity, format "r  <| proj  :=  v |>") : go_scope.

(** ** Generic list facts *)

Create HintDb go.
Create Rewrite HintDb go.

Fixpoint assoc_str {V} (key : gostring) (l : list (gostring * V)) : option V :=
  match l with
  | [] => None
  | (k, v) :: l => if key =?s k then Some v else assoc_str key l
  end.

Lemma assoc_str_In {V} key (l : list (gostring * V)) v :
  assoc_str key l = Some v → In (key, v) l.
Proof.
  induction l as [|[k w] l IH]; simpl; [done|].
  destruct (str_eqb_spec key k) as [->|]; naive_solver.
Qed.

Lemma forallb_app_iff {A} (f : A → bool) l1 l2 :
  forallb f (l1 ++ l2) = true ↔ forallb f l1 = true ∧ forallb f l2 = true.
Proof. rewrite forallb_app. apply andb_true_iff. Qed.

Lemma filter_all {A} (P : A → Prop) `{∀ x, Decision (P x)} (l : list A) : Forall P l → filter P l = l.
Proof. induction 1 as [|x l Hx _ IH]; [done|]. by rewrite filter_cons_True, IH. Qed.

Lemma filter_none {A} (P : A → Prop) `{∀ x, Decision (P x)} (l : list A) :
  Forall (λ x, ¬ P x) l → filter P l = [].
Proof. induction 1 as [|x l Hx _ IH]; [done|]. by rewrite filter_cons_False. Qed.

Lemma filter_ext_in {A} (P Q : A → Prop) `{∀ x, Decision (P x)} `{∀ x, Decision (Q x)} (l : list A) :
  (∀ x, x ∈ l → P x ↔ Q x) → filter P l = filter Q l.
Proof.
  induction l as [|x l IH]; intros HPQ; [done|]. rewrite !filter_cons, IH by set_solver.
  pose proof (HPQ x ltac:(set_solver)). by destruct (decide (P x)), (decide (Q x)); try tauto.
Qed.

Lemma length_app_ltb {A} (l k : list A) : (length l <? length (l ++ k))%nat = (0 <? length k)%nat.
Proof. rewrite length_app. destruct k; cbn; [apply Nat.ltb_ge; lia|apply Nat.ltb_lt; lia]. Qed.
