(* ===== verification/GoStrings.v ===== *)
(** * The parts of Go's [strings], [unicode] and [utf8] packages the program uses

    Strings are byte sequences; an index result of [-1] is [None].  The Unicode
    case tables above U+007F come from the [GoRuntime] instance. *)
From S2P Require Import Prelude.

(** ** Searching and splitting *)

Fixpoint IndexByte (s : gostring) (c : byte) : option nat :=
  match s with
  | [] => None
  | b :: s => if Byte.eqb b c then Some 0 else S <$> IndexByte s c
  end.

Fixpoint LastIndexByte (s : gostring) (c : byte) : option nat :=
  match s with
  | [] => None
  | b :: s =>
      match LastIndexByte s c with
      | Some i => Some (S i)
      | None => if Byte.eqb b c then Some 0 else None
      end
  end.

(** [strings.Split] with a one-byte separator. *)
Fixpoint Split (s : gostring) (sep : byte) : list gostring :=
  match s with
  | [] => [[]]
  | b :: s =>
      if Byte.eqb b sep then [] :: Split s sep
      else match Split s sep with
           | [] => [[b]]
           | w :: ws => (b :: w) :: ws
           end
  end.

Fixpoint Join (l : list gostring) (sep : gostring) : gostring :=
  match l with
  | [] => []
  | [x] => x
  | x :: l => x ++ sep ++ Join l sep
  end.

Fixpoint HasPrefix (s p : gostring) {struct p} : bool :=
  match p, s with
  | [], _ => true
  | b :: p, a :: s => Byte.eqb a b && HasPrefix s p
  | _, [] => false
  end.

Definition HasSuffix (s p : gostring) : bool := HasPrefix (rev s) (rev p).

Definition TrimPrefix (s p : gostring) : gostring :=
  if HasPrefix s p then drop (length p) s else s.

Definition TrimSuffix (s p : gostring) : gostring :=
  if HasSuffix s p then take (length s - length p) s else s.

Definition has_byte (s : list byte) (c : byte) : bool := existsb (λ b, Byte.eqb b c) s.

(** [strings.ContainsAny] for an ASCII character set. *)
Definition ContainsAny (s chars : gostring) : bool := existsb (has_byte chars) s.

Fixpoint Contains (s p : gostring) : bool :=
  HasPrefix s p || match s with [] => false | _ :: s => Contains s p end.

(** ** White space

    [unicode.IsSpace] runes and their UTF-8 encodings: six ASCII bytes, U+0085
    and U+00A0 on two bytes, the others on three. *)

Definition space1 (b : byte) : bool :=
  has_byte [x09; x0a; x0b; x0c; x0d; x20] b.

Definition space2 (b0 b1 : byte) : bool :=
  Byte.eqb b0 xc2 && has_byte [x85; xa0] b1.

Definition space3 (b0 b1 b2 : byte) : bool :=
  (Byte.eqb b0 xe1 && Byte.eqb b1 x9a && Byte.eqb b2 x80)
  || (Byte.eqb b0 xe2 && Byte.eqb b1 x80
      && ((bz b2 >=? 0x80)%Z && (bz b2 <=? 0x8a)%Z || has_byte [xa8; xa9; xaf] b2))
  || (Byte.eqb b0 xe2 && Byte.eqb b1 x81 && Byte.eqb b2 x9f)
  || (Byte.eqb b0 xe3 && Byte.eqb b1 x80 && Byte.eqb b2 x80).

(** Width of the white-space rune at the front of [s], or of the one at the
    end of [rev s] when [back] is set; 0 when there is none. *)
Definition space_width (back : bool) (s : list byte) : nat :=
  match s with
  | [] => 0
  | b0 :: s =>
      if space1 b0 then 1 else
      match s with
      | [] => 0
      | b1 :: s =>
          if (if back then space2 b1 b0 else space2 b0 b1) then 2 else
          match s with
          | [] => 0
          | b2 :: _ => if (if back then space3 b2 b1 b0 else space3 b0 b1 b2) then 3 else 0
          end
      end
  end.

Fixpoint trim (back : bool) (s : list byte) : list byte :=
  match s with
  | [] => []
  | b0 :: r0 =>
      if space1 b0 then trim back r0 else
      match r0 with
      | [] => s
      | b1 :: r1 =>
          if (if back then space2 b1 b0 else space2 b0 b1) then trim back r1 else
          match r1 with
          | [] => s
          | b2 :: r2 =>
              if (if back then space3 b2 b1 b0 else space3 b0 b1 b2) then trim back r2 else s
          end
      end
  end.

Definition TrimSpace (s : gostring) : gostring := rev (trim true (rev (trim false s))).

(** [strings.Fields]: maximal runs of non-space bytes.  No byte inside a valid
    multi-byte rune starts a white-space encoding, so scanning bytes is exact. *)
Definition flush (cur : list byte) : list gostring :=
  match cur with [] => [] | _ => [rev cur] end.

Fixpoint fields_aux (cur : list byte) (s : list byte) : list gostring :=
  match s with
  | [] => flush cur
  | b0 :: r0 =>
      if space1 b0 then flush cur ++ fields_aux [] r0 else
      match r0 with
      | [] => fields_aux (b0 :: cur) r0
      | b1 :: r1 =>
          if space2 b0 b1 then flush cur ++ fields_aux [] r1 else
          match r1 with
          | [] => fields_aux (b0 :: cur) r0
          | b2 :: r2 =>
              if space3 b0 b1 b2 then flush cur ++ fields_aux [] r2
              else fields_aux (b0 :: cur) r0
          end
      end
  end.

Definition Fields (s : gostring) : list gostring := fields_aux [] s.

(** ** UTF-8 and letter case *)

Definition RuneError : Z := 0xfffd.
Definition RuneSelf : Z := 0x80.

Definition in_range (lo hi : Z) (b : byte) : bool := (lo <=? bz b)%Z && (bz b <=? hi)%Z.
Definition is_cont (b : byte) : bool := in_range 0x80 0xbf b.

Definition rune2 (b0 b1 : byte) : Z :=
  Z.lor (Z.shiftl (Z.land (bz b0) 0x1f) 6) (Z.land (bz b1) 0x3f).
Definition rune3 (b0 b1 b2 : byte) : Z :=
  Z.lor (Z.shiftl (Z.land (bz b0) 0x0f) 12)
        (Z.lor (Z.shiftl (Z.land (bz b1) 0x3f) 6) (Z.land (bz b2) 0x3f)).
Definition rune4 (b0 b1 b2 b3 : byte) : Z :=
  Z.lor (Z.shiftl (Z.land (bz b0) 0x07) 18)
    (Z.lor (Z.shiftl (Z.land (bz b1) 0x3f) 12)
      (Z.lor (Z.shiftl (Z.land (bz b2) 0x3f) 6) (Z.land (bz b3) 0x3f))).

(** Admissible second bytes after a three- or four-byte lead. *)
Definition second3 (b0 b1 : byte) : bool :=
  if Byte.eqb b0 xe0 then in_range 0xa0 0xbf b1
  else if Byte.eqb b0 xed then in_range 0x80 0x9f b1 else is_cont b1.
Definition second4 (b0 b1 : byte) : bool :=
  if Byte.eqb b0 xf0 then in_range 0x90 0xbf b1
  else if Byte.eqb b0 xf4 then in_range 0x80 0x8f b1 else is_cont b1.

(** [for _, r := range s]: an invalid byte yields [RuneError] and is skipped alone. *)
Fixpoint runes (s : list byte) : list Z :=
  match s with
  | [] => []
  | b0 :: r0 =>
      if (bz b0 <? RuneSelf)%Z then bz b0 :: runes r0
      else match r0 with
      | b1 :: r1 =>
          if in_range 0xc2 0xdf b0 && is_cont b1 then rune2 b0 b1 :: runes r1
          else match r1 with
          | b2 :: r2 =>
              if in_range 0xe0 0xef b0 && second3 b0 b1 && is_cont b2
              then rune3 b0 b1 b2 :: runes r2
              else match r2 with
              | b3 :: r3 =>
                  if in_range 0xf0 0xf4 b0 && second4 b0 b1 && is_cont b2 && is_cont b3
                  then rune4 b0 b1 b2 b3 :: runes r3
                  else RuneError :: runes r0
              | [] => RuneError :: runes r0
              end
          | [] => RuneError :: runes r0
          end
      | [] => RuneError :: runes r0
      end
  end.

Definition cont_byte (r : Z) (shift : Z) : byte :=
  zb (Z.lor 0x80 (Z.land (Z.shiftr r shift) 0x3f)).

(** [utf8.AppendRune]. *)
Definition encode_rune (r : Z) : gostring :=
  if (r <? 0)%Z then [xef; xbf; xbd]
  else if (r <=? 0x7f)%Z then [zb r]
  else if (r <=? 0x7ff)%Z then [zb (Z.lor 0xc0 (Z.shiftr r 6)); cont_byte r 0]
  else if (r >? 0x10ffff)%Z || ((0xd800 <=? r) && (r <=? 0xdfff))%Z then [xef; xbf; xbd]
  else if (r <=? 0xffff)%Z then [zb (Z.lor 0xe0 (Z.shiftr r 12)); cont_byte r 6; cont_byte r 0]
  else [zb (Z.lor 0xf0 (Z.shiftr r 18)); cont_byte r 12; cont_byte r 6; cont_byte r 0].

Definition is_ascii (b : byte) : bool := (bz b <? RuneSelf)%Z.

Definition lower_byte (b : byte) : byte := if in_range 65 90 b then zb (bz b + 32) else b.
Definition upper_byte (b : byte) : byte := if in_range 97 122 b then zb (bz b - 32) else b.

Section Case.
Context {RT : GoRuntime}.

(** [unicode.ToLower]: the ASCII branch is built in, the rest is a table. *)
Definition unicode_ToLower (r : Z) : Z :=
  if (r <=? 0x7f)%Z then (if (65 <=? r)%Z && (r <=? 90)%Z then r + 32 else r)%Z
  else rune_lower r.

(** [strings.ToLower]: byte-wise on ASCII strings, rune-wise otherwise (and
    then every invalid byte becomes the three-byte U+FFFD). *)
Definition ToLower (s : gostring) : gostring :=
  if forallb is_ascii s then map lower_byte s
  else flat_map (λ r, encode_rune (unicode_ToLower r)) (runes s).

(** The [SimpleFold] orbit walk of [strings.EqualFold].  Orbits of the Unicode
    tables have at most four elements, so eight steps always leave the loop. *)
Fixpoint fold_walk (fuel : nat) (r sr tr : Z) : Z :=
  match fuel with
  | O => r
  | S fuel => if (negb (r =? sr) && (r <? tr))%Z then fold_walk fuel (simple_fold r) sr tr else r
  end.

Definition rune_equal_fold (a b : Z) : bool :=
  if (a =? b)%Z then true else
  let sr := Z.min a b in
  let tr := Z.max a b in
  if (tr <? RuneSelf)%Z then (65 <=? sr)%Z && (sr <=? 90)%Z && (tr =? sr + 32)%Z
  else (fold_walk 8 (simple_fold sr) sr tr =? tr)%Z.

Fixpoint equal_fold_runes (s t : list Z) : bool :=
  match s, t with
  | [], [] => true
  | a :: s, b :: t => rune_equal_fold a b && equal_fold_runes s t
  | _, _ => false
  end.

Definition EqualFold (s t : gostring) : bool := equal_fold_runes (runes s) (runes t).
End Case.

(** [strings.ToUpper] on the ASCII literals it is applied to. *)
Definition ToUpperASCII (s : gostring) : gostring := map upper_byte s.

(** [strings.Cut] at a byte. *)
Definition Cut (s : gostring) (sep : byte) : option (gostring * gostring) :=
  (λ i, (take i s, drop (S i) s)) <$> IndexByte s sep.

(** [strings.Trim] for an ASCII cutset. *)
Fixpoint TrimLeft (s cutset : list byte) : list byte :=
  match s with
  | b :: s' => if has_byte cutset b then TrimLeft s' cutset else s
  | [] => []
  end.
Definition Trim (s cutset : gostring) : gostring := rev (TrimLeft (rev (TrimLeft s cutset)) cutset).

(** ** Facts *)

Lemma has_byte_app s t c : has_byte (s ++ t) c = has_byte s c || has_byte t c.
Proof. apply existsb_app. Qed.

Lemma has_byte_spec s c : has_byte s c = true ↔ c ∈ s.
Proof.
  unfold has_byte. rewrite existsb_exists. split.
  - intros (x & Hx & E). destruct (byte_eqb_spec x c); [subst|done]. by apply list_elem_of_In.
  - intros H. exists c. rewrite byte_eqb_refl. split; [by apply list_elem_of_In|done].
Qed.

Lemma has_byte_rev s c : has_byte (rev s) c = has_byte s c.
Proof.
  apply eq_true_iff_eq. rewrite !has_byte_spec, !list_elem_of_In. symmetry. apply in_rev.
Qed.

Lemma IndexByte_app s t c :
  has_byte s c = false → IndexByte (s ++ c :: t) c = Some (length s).
Proof.
  induction s as [|b s IH]; simpl; [by rewrite byte_eqb_refl|].
  intros [-> Hs]%orb_false_iff. by rewrite IH.
Qed.

Lemma IndexByte_None s c : IndexByte s c = None ↔ has_byte s c = false.
Proof.
  induction s as [|b s IH]; simpl; [done|].
  destruct (Byte.eqb b c); simpl; [done|]. rewrite <- IH. by destruct (IndexByte s c).
Qed.

Lemma IndexByte_Some s c i :
  IndexByte s c = Some i →
  s = take i s ++ c :: drop (S i) s ∧ has_byte (take i s) c = false ∧ i < length s.
Proof.
  revert i. induction s as [|b s IH]; intros i; simpl; [done|].
  destruct (byte_eqb_spec b c) as [->|Hb].
  - intros [= <-]. simpl. split_and!; [by rewrite drop_0|done|lia].
  - destruct (IndexByte s c) as [j|]; [|done]. intros [= <-].
    destruct (IH j eq_refl) as (E & Hh & Hl). simpl. split_and!; [by f_equal| |lia].
    by rewrite (byte_eqb_neq _ _ Hb).
Qed.

Lemma LastIndexByte_None s c : LastIndexByte s c = None ↔ has_byte s c = false.
Proof.
  induction s as [|b s IH]; simpl; [done|].
  destruct (LastIndexByte s c) as [j|].
  - split; [done|]. intros [_ H]%orb_false_iff. by apply IH in H.
  - rewrite (proj1 IH eq_refl), orb_false_r. by destruct (Byte.eqb b c).
Qed.

Lemma LastIndexByte_app s t c :
  has_byte t c = false → LastIndexByte (s ++ c :: t) c = Some (length s).
Proof.
  intros Ht. induction s as [|b s IH]; simpl; [|by rewrite IH].
  by rewrite (proj2 (LastIndexByte_None _ _) Ht), byte_eqb_refl.
Qed.

Lemma LastIndexByte_Some s c i :
  LastIndexByte s c = Some i →
  s = take i s ++ c :: drop (S i) s ∧ has_byte (drop (S i) s) c = false ∧ i < length s.
Proof.
  revert i. induction s as [|b s IH]; intros i; simpl; [done|].
  destruct (LastIndexByte s c) as [j|] eqn:E.
  - intros [= <-]. destruct (IH j eq_refl) as (Es & Hh & Hl). simpl.
    split_and!; [by f_equal|done|lia].
  - destruct (byte_eqb_spec b c) as [->|Hb]; [|done]. intros [= <-]. simpl.
    rewrite drop_0. split_and!; [done|by apply LastIndexByte_None|lia].
Qed.

Lemma Split_nonempty s c : Split s c ≠ [].
Proof. destruct s as [|b s]; simpl; [done|]. destruct (Byte.eqb b c); [done|]. by destruct (Split s c). Qed.

Lemma Split_app s t c : has_byte s c = false → Split (s ++ c :: t) c = s :: Split t c.
Proof.
  induction s as [|b s IH]; simpl; [by rewrite byte_eqb_refl|].
  intros [-> Hs]%orb_false_iff. by rewrite (IH Hs).
Qed.

Lemma Split_single s c : has_byte s c = false → Split s c = [s].
Proof.
  induction s as [|b s IH]; simpl; [done|].
  intros [-> Hs]%orb_false_iff. by rewrite (IH Hs).
Qed.

Lemma Split_no_sep s c : Forall (λ w, has_byte w c = false) (Split s c).
Proof.
  induction s as [|b s IH]; simpl; [by repeat constructor|].
  destruct (Byte.eqb b c) eqn:E; [by constructor|].
  destruct IH as [|w ws Hw Hws]; constructor; simpl; rewrite ?E; auto.
Qed.

Lemma Join_Split s c : Join (Split s c) [c] = s.
Proof.
  induction s as [|b s IH]; simpl; [done|].
  pose proof (Split_nonempty s c) as Hne.
  destruct (byte_eqb_spec b c) as [->|Hb].
  - destruct (Split s c) as [|w ws]; [done|]. simpl in *. by rewrite IH.
  - destruct (Split s c) as [|w [|w' ws]]; simpl in *; congruence.
Qed.

Lemma HasPrefix_spec s p : HasPrefix s p = true ↔ ∃ t, s = p ++ t.
Proof.
  revert s. induction p as [|b p IH]; intros s; simpl; [split; [by exists s|done]|].
  destruct s as [|a s]; simpl.
  { split; [intros [=]|intros (t & [=])]. }
  destruct (byte_eqb_spec a b) as [->|Hab]; simpl.
  - rewrite IH. split; intros [t Ht]; exists t; congruence.
  - split; [done|]. intros [t Ht]. congruence.
Qed.

Lemma HasSuffix_spec s p : HasSuffix s p = true ↔ ∃ t, s = t ++ p.
Proof.
  unfold HasSuffix. rewrite HasPrefix_spec. split; intros [t Ht].
  - exists (rev t). by rewrite <- (rev_involutive s), Ht, rev_app_distr, rev_involutive.
  - exists (rev t). by rewrite Ht, rev_app_distr.
Qed.

(** *** Trimming *)

(** [trimmed s]: no white-space rune at either end of [s]. *)
Definition trimmed (s : gostring) : Prop :=
  space_width false s = 0 ∧ space_width true (rev s) = 0.

Lemma trim_id back s : space_width back s = 0 → trim back s = s.
Proof.
  destruct s as [|b0 [|b1 [|b2 s]]]; simpl; try done.
  all: destruct (space1 b0); try done.
  all: destruct (if back then _ else _); try done.
  all: destruct (if back then _ else _); done.
Qed.

Lemma trim_width back s : space_width back (trim back s) = 0.
Proof.
  remember (length s) as n eqn:Hn. revert s Hn.
  induction n as [n IH] using lt_wf_ind. intros s ->.
  destruct s as [|b0 r0]; simpl; [done|].
  destruct (space1 b0) eqn:E1; [eapply IH; [|done]; simpl; lia|].
  destruct r0 as [|b1 r1]; [simpl; by rewrite E1|].
  destruct (if back then space2 b1 b0 else space2 b0 b1) eqn:E2;
    [eapply IH; [|done]; simpl; lia|].
  destruct r1 as [|b2 r2]; [simpl; by rewrite E1, E2|].
  destruct (if back then space3 b2 b1 b0 else space3 b0 b1 b2) eqn:E3;
    [eapply IH; [|done]; simpl; lia|].
  simpl. by rewrite E1, E2, E3.
Qed.

Lemma trim_suffix back s : trim back s `suffix_of` s.
Proof.
  remember (length s) as n eqn:Hn. revert s Hn.
  induction n as [n IH] using lt_wf_ind. intros s ->.
  destruct s as [|b0 r0]; simpl; [done|].
  destruct (space1 b0); [apply suffix_cons_r; eapply IH; [|done]; simpl; lia|].
  destruct r0 as [|b1 r1]; [done|].
  destruct (if back then _ else _);
    [do 2 apply suffix_cons_r; eapply IH; [|done]; simpl; lia|].
  destruct r1 as [|b2 r2]; [done|].
  destruct (if back then _ else _); [|done].
  do 3 apply suffix_cons_r; eapply IH; [|done]; simpl; lia.
Qed.

(** A prefix of a string without leading space has none either. *)
Lemma space_width_prefix back s t :
  space_width back (s ++ t) = 0 → space_width back s = 0.
Proof.
  destruct s as [|b0 [|b1 [|b2 s]]]; simpl; try done.
  - by destruct (space1 b0).
  - destruct (space1 b0); [done|]. by destruct (if back then _ else _).
Qed.

(** An ASCII byte cannot complete a multi-byte white-space rune. *)
Lemma space2_ascii_l a b : is_ascii a = true → space2 a b = false.
Proof. unfold space2. destruct (byte_eqb_spec a xc2) as [->|]; by vm_compute. Qed.

Lemma space2_ascii_r a b : is_ascii b = true → space2 a b = false.
Proof.
  intros H. unfold space2, has_byte. simpl.
  destruct (byte_eqb_spec x85 b) as [<-|]; [by vm_compute in H|].
  destruct (byte_eqb_spec xa0 b) as [<-|]; [by vm_compute in H|]. by rewrite andb_false_r.
Qed.

Lemma space3_ascii_l a b c : is_ascii a = true → space3 a b c = false.
Proof.
  intros H. unfold space3.
  destruct (byte_eqb_spec a xe1) as [->|]; [by vm_compute in H|].
  destruct (byte_eqb_spec a xe2) as [->|]; [by vm_compute in H|].
  destruct (byte_eqb_spec a xe3) as [->|]; [by vm_compute in H|]. done.
Qed.

Lemma space3_ascii_m a b c : is_ascii b = true → space3 a b c = false.
Proof.
  intros H. unfold space3.
  destruct (byte_eqb_spec b x9a) as [->|]; [by vm_compute in H|].
  destruct (byte_eqb_spec b x80) as [->|]; [by vm_compute in H|].
  destruct (byte_eqb_spec b x81) as [->|]; [by vm_compute in H|].
  by rewrite !andb_false_r.
Qed.

Lemma space3_ascii_r a b c : is_ascii c = true → space3 a b c = false.
Proof.
  intros H. unfold space3, has_byte. simpl.
  replace (bz c >=? 128)%Z with false
    by (symmetry; unfold is_ascii, RuneSelf in H; breflect; rewrite Z.geb_leb; apply Z.leb_gt; lia).
  destruct (byte_eqb_spec c x80) as [->|]; [by vm_compute in H|].
  destruct (byte_eqb_spec c x9f) as [->|]; [by vm_compute in H|].
  destruct (byte_eqb_spec xa8 c) as [<-|]; [by vm_compute in H|].
  destruct (byte_eqb_spec xa9 c) as [<-|]; [by vm_compute in H|].
  destruct (byte_eqb_spec xaf c) as [<-|]; [by vm_compute in H|].
  by rewrite ?andb_false_r.
Qed.

(** Appending behind an ASCII byte does not create a leading space. *)
Lemma space_width_ascii back s a t :
  s ≠ [] → is_ascii a = true → space_width back s = 0 → space_width back (s ++ a :: t) = 0.
Proof.
  intros Hne Ha. destruct s as [|b0 [|b1 [|b2 s]]]; simpl; try done.
  - destruct (space1 b0); [done|]. intros _.
    replace (if back then space2 a b0 else space2 b0 a) with false
      by (destruct back; symmetry; auto using space2_ascii_l, space2_ascii_r).
    destruct t as [|c t]; [done|].
    by replace (if back then space3 c a b0 else space3 b0 a c) with false
      by (destruct back; symmetry; auto using space3_ascii_m).
  - destruct (space1 b0); [done|]. destruct (if back then space2 _ _ else _); [done|].
    intros _. by replace (if back then space3 a b1 b0 else space3 b0 b1 a) with false
      by (destruct back; symmetry; auto using space3_ascii_l, space3_ascii_r).
Qed.

Lemma space_width_nonspace back a t :
  is_ascii a = true → space1 a = false → space_width back (a :: t) = 0.
Proof.
  intros Ha Hs. destruct t as [|b t]; [simpl; by rewrite Hs|].
  simpl. rewrite Hs.
  replace (if back then space2 b a else space2 a b) with false
    by (destruct back; symmetry; auto using space2_ascii_l, space2_ascii_r).
  destruct t as [|c t]; [done|].
  by replace (if back then space3 c b a else space3 a b c) with false
    by (destruct back; symmetry; auto using space3_ascii_l, space3_ascii_r).
Qed.

Lemma TrimSpace_trimmed s : trimmed (TrimSpace s).
Proof.
  unfold TrimSpace, trimmed. rewrite rev_involutive.
  split; [|apply trim_width].
  destruct (trim_suffix true (rev (trim false s))) as [k Hk].
  eapply (space_width_prefix false _ (rev k)).
  rewrite <- rev_app_distr, <- Hk, rev_involutive. apply trim_width.
Qed.

Lemma TrimSpace_id s : trimmed s → TrimSpace s = s.
Proof.
  intros [Hl Hr]. unfold TrimSpace. rewrite (trim_id _ _ Hl), (trim_id _ _ Hr).
  apply rev_involutive.
Qed.

Lemma TrimSpace_space s b : trimmed s → space1 b = true → TrimSpace (b :: s) = s.
Proof.
  intros Hs Hb. unfold TrimSpace. simpl. rewrite Hb. by apply TrimSpace_id.
Qed.

(** The trimmed string is an infix of the input. *)
Lemma TrimSpace_infix s : ∃ l r, s = l ++ TrimSpace s ++ r.
Proof.
  unfold TrimSpace. destruct (trim_suffix false s) as [l Hl].
  destruct (trim_suffix true (rev (trim false s))) as [r Hr].
  exists l, (rev r). rewrite Hl at 1. f_equal.
  rewrite <- (rev_involutive (trim false s)), Hr at 1. by rewrite rev_app_distr.
Qed.

Lemma TrimSpace_has_byte s c : has_byte s c = false → has_byte (TrimSpace s) c = false.
Proof.
  destruct (TrimSpace_infix s) as (l & r & E). rewrite E at 1.
  rewrite !has_byte_app. by intros [_ [? _]%orb_false_iff]%orb_false_iff.
Qed.

(** Trimming a line [k ++ v] whose first byte and last part are not space. *)
Lemma trimmed_app a k v :
  is_ascii a = true → space1 a = false → v ≠ [] → trimmed v →
  (∃ k' e, a :: k = k' ++ [e] ∧ is_ascii e = true) →
  trimmed (a :: k ++ v).
Proof.
  intros Ha Hs Hv [_ Hr] (k' & e & Ek & He). split.
  - by apply space_width_nonspace.
  - change (a :: k ++ v) with ((a :: k) ++ v). rewrite Ek, !rev_app_distr. simpl.
    apply space_width_ascii; [|done..]. intros E. apply Hv.
    by rewrite <- (rev_involutive v), E.
Qed.

(** *** Letter case *)

Lemma encode_lower_ascii {RT : GoRuntime} b :
  is_ascii b = true → encode_rune (unicode_ToLower (bz b)) = [lower_byte b].
Proof.
  intros H. apply str_eqb_true.
  pose proof (byte_forall (λ b, if is_ascii b
    then encode_rune (unicode_ToLower (bz b)) =?s [lower_byte b] else true)) as Hall.
  specialize (Hall ltac:(vm_compute; reflexivity) b). cbv beta in Hall. by rewrite H in Hall.
Qed.

Lemma runes_ascii_app k v :
  forallb is_ascii k = true → runes (k ++ v) = map bz k ++ runes v.
Proof.
  induction k as [|b k IH]; simpl; [done|]. intros [Hb Hk]%andb_true_iff.
  unfold is_ascii in Hb. by rewrite Hb, IH.
Qed.

(** Lower-casing acts byte by byte on an ASCII prefix, whatever follows it. *)
Lemma ToLower_ascii_app {RT : GoRuntime} k v :
  forallb is_ascii k = true → ∃ w, ToLower (k ++ v) = map lower_byte k ++ w.
Proof.
  intros Hk. unfold ToLower. destruct (forallb is_ascii (k ++ v)).
  - exists (map lower_byte v). apply map_app.
  - rewrite runes_ascii_app, flat_map_app by done. eexists. f_equal.
    induction k as [|b k IH]; simpl in *; [done|]. apply andb_true_iff in Hk as [Hb Hk].
    by rewrite (encode_lower_ascii _ Hb), (IH Hk).
Qed.

Lemma ToLower_ascii {RT : GoRuntime} s :
  forallb is_ascii s = true → ToLower s = map lower_byte s.
Proof. intros H. unfold ToLower. by rewrite H. Qed.

Lemma Split_Join l c :
  l ≠ [] → Forall (λ w, has_byte w c = false) l → Split (Join l [c]) c = l.
Proof.
  intros Hne H. induction H as [|w l Hw Hl IH]; [done|].
  destruct l as [|w' l]; simpl; [by apply Split_single|].
  rewrite Split_app by done. f_equal. by apply IH.
Qed.

#[export] Hint Rewrite has_byte_app has_byte_rev : go.
#[export] Hint Resolve TrimSpace_trimmed TrimSpace_has_byte : go.
