(* ===== verification/GoStrconv.v ===== *)
(** * [strconv] and [fmt] for decimal integers, on a 64-bit platform *)
From S2P Require Import Prelude GoStrings.

Local Open Scope Z_scope.

Definition MaxUint16 : Z := 65535.
Definition MaxUint32 : Z := 4294967295.
Definition two64 : Z := 18446744073709551616.

(** Conversions to fixed-width unsigned integers. *)
Definition u8 (z : Z) : Z := z mod 256.
Definition u16 (z : Z) : Z := z mod 65536.
Definition u32 (z : Z) : Z := z mod 4294967296.
Definition u64 (z : Z) : Z := z mod two64.
(** Two's-complement reading of a 64-bit pattern. *)
Definition i64 (z : Z) : Z := (z + 2 ^ 63) mod two64 - 2 ^ 63.

Definition is_digit (b : byte) : bool := in_range 48 57 b.
Definition digit_val (b : byte) : Z := bz b - 48.
Definition digit_byte (d : Z) : byte := zb (48 + d).

(** ** Formatting *)

Fixpoint itoa_aux (fuel : nat) (n : Z) : gostring :=
  match fuel with
  | O => [digit_byte (n mod 10)]
  | S fuel => if n <? 10 then [digit_byte n] else itoa_aux fuel (n / 10) ++ [digit_byte (n mod 10)]
  end.

(** [strconv.Itoa] and [fmt]'s [%d].  A number below [2^(k+1)] has at most
    [k+1] digits, so [log2 n] recursive calls are enough. *)
Definition Itoa (n : Z) : gostring :=
  if n <? 0 then x2d :: itoa_aux (Z.to_nat (Z.log2 (- n))) (- n)
  else itoa_aux (Z.to_nat (Z.log2 n)) n.

(** ** Parsing *)

Inductive num_result := NumOk (n : Z) | NumSyntax | NumRange.

Definition uint_cutoff : Z := 1844674407370955162.  (* MaxUint64/10 + 1 *)

Fixpoint parse_uint_loop (maxVal : Z) (s : list byte) (n : Z) : num_result :=
  match s with
  | [] => NumOk n
  | c :: s =>
      if negb (is_digit c) then NumSyntax
      else if n >=? uint_cutoff then NumRange
      else let n := n * 10 in
           let n1 := u64 (n + digit_val c) in
           if (n1 <? n) || (n1 >? maxVal) then NumRange else parse_uint_loop maxVal s n1
  end.

Definition parse_uint10 (s : gostring) (bits : Z) : num_result :=
  match s with [] => NumSyntax | _ => parse_uint_loop (2 ^ bits - 1) s 0 end.

Definition num_outcome (fn s : gostring) (r : num_result) : outcome Z :=
  match r with
  | NumOk n => Ret n
  | NumSyntax => Fail (NumError fn s false)
  | NumRange => Fail (NumError fn s true)
  end.

(** [strconv.ParseUint(s, 10, bits)] for [bits <= 64]. *)
Definition ParseUint (s : gostring) (bits : Z) : outcome Z :=
  num_outcome "ParseUint" s (parse_uint10 s bits).

Definition strip_sign (s : gostring) : bool * gostring :=
  match s with
  | x2b :: s => (false, s)
  | x2d :: s => (true, s)
  | _ => (false, s)
  end.

(** [strconv.ParseInt(s, 10, 64)]. *)
Definition parse_int10 (s : gostring) : num_result :=
  let '(neg, d) := strip_sign s in
  match parse_uint10 d 64 with
  | NumSyntax => NumSyntax
  | NumRange => NumRange
  | NumOk un =>
      if negb neg && (un >=? 2 ^ 63) then NumRange
      else if neg && (un >? 2 ^ 63) then NumRange
      else NumOk (if neg then - un else un)
  end.

Definition ParseInt64 (s : gostring) : outcome Z := num_outcome "ParseInt" s (parse_int10 s).
Definition Atoi (s : gostring) : outcome Z := num_outcome "Atoi" s (parse_int10 s).

(** ** Facts *)

Lemma digit_byte_val d : 0 <= d < 10 → digit_val (digit_byte d) = d.
Proof.
  intros H. unfold digit_val, digit_byte. rewrite bz_zb, Z.mod_small; lia.
Qed.

Lemma digit_byte_is_digit d : 0 <= d < 10 → is_digit (digit_byte d) = true.
Proof.
  intros H. unfold is_digit, in_range, digit_byte. rewrite bz_zb, Z.mod_small by lia.
  apply andb_true_iff; split; apply Z.leb_le; lia.
Qed.

Lemma digit_val_range b : is_digit b = true → 0 <= digit_val b < 10.
Proof. unfold is_digit, in_range, digit_val. intros H. breflect. lia. Qed.

(** Value of a digit string, most significant first. *)
Definition dec_value (n : Z) (s : list byte) : Z :=
  fold_left (λ n c, n * 10 + digit_val c) s n.

Lemma dec_value_mono s n :
  forallb is_digit s = true → 0 <= n → n <= dec_value n s.
Proof.
  revert n. induction s as [|c s IH]; intros n; simpl; [lia|].
  intros [Hc Hs]%andb_true_iff Hn. apply digit_val_range in Hc.
  specialize (IH (n * 10 + digit_val c) Hs). unfold dec_value in *. simpl. lia.
Qed.

Lemma dec_value_app n s t : dec_value n (s ++ t) = dec_value (dec_value n s) t.
Proof. unfold dec_value. apply fold_left_app. Qed.

(** The accumulating loop computes the value and reports overflow exactly. *)
Lemma parse_uint_loop_spec bits s n :
  0 <= bits <= 64 → 0 <= n <= 2 ^ bits - 1 → forallb is_digit s = true →
  parse_uint_loop (2 ^ bits - 1) s n =
    if dec_value n s <=? 2 ^ bits - 1 then NumOk (dec_value n s) else NumRange.
Proof.
  intros Hb. assert (2 ^ bits <= two64) as Hp.
  { change two64 with (2 ^ 64). apply Z.pow_le_mono_r; lia. }
  revert n. induction s as [|c s IH]; intros n Hn Hs; simpl in *.
  - unfold dec_value. simpl. by rewrite (proj2 (Z.leb_le _ _)) by lia.
  - apply andb_true_iff in Hs as [Hc Hs]. rewrite Hc. simpl.
    pose proof (digit_val_range _ Hc) as Hd.
    change (dec_value n (c :: s)) with (dec_value (n * 10 + digit_val c) s).
    pose proof (dec_value_mono s (n * 10 + digit_val c) Hs ltac:(lia)) as Hm.
    destruct (n >=? uint_cutoff) eqn:E.
    + unfold uint_cutoff, two64 in *. breflect.
      by rewrite (proj2 (Z.leb_gt _ _)) by lia.
    + assert (n < uint_cutoff) as Hc' by (breflect; lia).
      unfold uint_cutoff in Hc'. unfold u64, two64 in *.
      destruct (Z.ltb_spec (n * 10 + digit_val c) 18446744073709551616) as [Hlt|Hge].
      * rewrite Z.mod_small by lia.
        rewrite (proj2 (Z.ltb_ge _ _)) by lia. simpl.
        destruct (n * 10 + digit_val c >? 2 ^ bits - 1) eqn:E2; breflect.
        -- by rewrite (proj2 (Z.leb_gt _ _)) by lia.
        -- apply IH; [lia|done].
      * replace (n * 10 + digit_val c) with
          ((n * 10 + digit_val c - 18446744073709551616) + 1 * 18446744073709551616) at 1 by lia.
        rewrite Z.mod_add, Z.mod_small by lia.
        rewrite (proj2 (Z.ltb_lt _ _)) by lia. simpl.
        by rewrite (proj2 (Z.leb_gt _ _)) by lia.
Qed.

Lemma parse_uint_loop_digits maxVal s n r :
  parse_uint_loop maxVal s n = NumOk r → forallb is_digit s = true.
Proof.
  revert n. induction s as [|c s IH]; intros n; simpl; [done|].
  destruct (is_digit c); simpl; [|done].
  destruct (_ >=? _); [done|]. destruct (_ || _); [done|]. apply IH.
Qed.

(** [ParseUint] accepts exactly the non-empty digit strings whose value fits. *)
Lemma parse_uint10_ok bits s n :
  0 <= bits <= 64 →
  parse_uint10 s bits = NumOk n ↔
    s ≠ [] ∧ forallb is_digit s = true ∧ n = dec_value 0 s ∧ n <= 2 ^ bits - 1.
Proof.
  intros Hb. assert (0 < 2 ^ bits) by (apply Z.pow_pos_nonneg; lia).
  unfold parse_uint10. destruct s as [|c s]; [split; [done|by intros [? _]]|].
  split.
  - intros E. pose proof (parse_uint_loop_digits _ _ _ _ E) as Hd.
    rewrite parse_uint_loop_spec in E by (done || lia).
    destruct (_ <=? _) eqn:El; [|done]. injection E as <-. breflect. done.
  - intros (_ & Hd & -> & Hle). rewrite parse_uint_loop_spec by (done || lia).
    by rewrite (proj2 (Z.leb_le _ _) Hle).
Qed.

Lemma dec_value_nonneg s n : forallb is_digit s = true → 0 <= n → 0 <= dec_value n s.
Proof. intros Hs Hn. pose proof (dec_value_mono s n Hs Hn). lia. Qed.

Lemma ParseUint_ret bits s n :
  0 <= bits <= 64 →
  ParseUint s bits = Ret n ↔
    s ≠ [] ∧ forallb is_digit s = true ∧ n = dec_value 0 s ∧ n <= 2 ^ bits - 1.
Proof.
  intros Hb. rewrite <- parse_uint10_ok by done. unfold ParseUint.
  destruct (parse_uint10 s bits); simpl; split; congruence.
Qed.

Lemma log2_div10 n : 10 <= n → (Z.to_nat (Z.log2 (n / 10)) < Z.to_nat (Z.log2 n))%nat.
Proof.
  intros Hn. assert (Z.log2 (n / 10) < Z.log2 n).
  { apply Z.log2_lt_pow2; [apply Z.div_str_pos; lia|].
    apply Z.div_lt_upper_bound; [lia|].
    pose proof (Z.log2_spec n ltac:(lia)) as [_ H]. rewrite Z.pow_succ_r in H by apply Z.log2_nonneg.
    pose proof (Z.pow_pos_nonneg 2 (Z.log2 n) ltac:(lia) (Z.log2_nonneg n)). lia. }
  pose proof (Z.log2_nonneg (n / 10)). lia.
Qed.

Lemma itoa_aux_spec fuel n :
  0 <= n → (Z.to_nat (Z.log2 n) <= fuel)%nat →
  forallb is_digit (itoa_aux fuel n) = true ∧ dec_value 0 (itoa_aux fuel n) = n
  ∧ itoa_aux fuel n ≠ [].
Proof.
  revert n. induction fuel as [|fuel IH]; intros n Hn Hf; cbn [itoa_aux].
  - assert (n < 10).
    { destruct (Z.ltb_spec n 10); [done|]. pose proof (log2_div10 n ltac:(lia)). lia. }
    rewrite Z.mod_small by lia. simpl. rewrite digit_byte_is_digit by lia.
    unfold dec_value. simpl. rewrite digit_byte_val by lia. done.
  - destruct (Z.ltb_spec n 10) as [Hlt|Hge].
    + simpl. rewrite digit_byte_is_digit by lia.
      unfold dec_value. simpl. rewrite digit_byte_val by lia. done.
    + pose proof (log2_div10 n Hge) as Hl.
      pose proof (Z.mod_pos_bound n 10 ltac:(lia)) as Hm.
      destruct (IH (n / 10)) as (Hd & Hv & _); [apply Z.div_pos; lia|lia|].
      split_and!.
      * rewrite forallb_app, Hd. simpl. by rewrite digit_byte_is_digit.
      * rewrite dec_value_app, Hv. unfold dec_value. simpl. rewrite digit_byte_val by lia.
        pose proof (Z.div_mod n 10 ltac:(lia)). lia.
      * by destruct (itoa_aux fuel (n / 10)).
Qed.

Lemma Itoa_spec n :
  0 <= n → forallb is_digit (Itoa n) = true ∧ dec_value 0 (Itoa n) = n ∧ Itoa n ≠ [].
Proof.
  intros Hn. unfold Itoa. rewrite (proj2 (Z.ltb_ge _ _) Hn).
  by apply itoa_aux_spec.
Qed.

Lemma Itoa_digits n : 0 <= n → forallb is_digit (Itoa n) = true.
Proof. apply Itoa_spec. Qed.

Lemma Itoa_nonempty n : 0 <= n → Itoa n ≠ [].
Proof. apply Itoa_spec. Qed.

Lemma ParseUint_Itoa bits n :
  0 <= bits <= 64 → 0 <= n <= 2 ^ bits - 1 → ParseUint (Itoa n) bits = Ret n.
Proof.
  intros Hb Hn. apply ParseUint_ret; [done|].
  destruct (Itoa_spec n) as (? & -> & ?); [lia|]. split_and!; [done..|lia].
Qed.

Lemma strip_sign_digits s : forallb is_digit s = true → strip_sign s = (false, s).
Proof.
  destruct s as [|b s]; [done|]. simpl. intros [Hb _]%andb_true_iff.
  destruct b; done.
Qed.

(** [Atoi] on an unsigned digit string. *)
Lemma parse_int10_digits s :
  s ≠ [] → forallb is_digit s = true → dec_value 0 s < 2 ^ 63 →
  parse_int10 s = NumOk (dec_value 0 s).
Proof.
  intros Hne Hd Hv. unfold parse_int10. rewrite strip_sign_digits by done.
  rewrite (proj2 (parse_uint10_ok 64 s (dec_value 0 s) ltac:(lia)))
    by (split_and!; [done..|lia]).
  replace (dec_value 0 s >=? 2 ^ 63) with false; [done|].
  symmetry. rewrite Z.geb_leb. apply Z.leb_gt. lia.
Qed.

Lemma Atoi_Itoa n : 0 <= n < 2 ^ 63 → Atoi (Itoa n) = Ret n.
Proof.
  intros Hn. destruct (Itoa_spec n) as (Hd & Hv & Hne); [lia|].
  unfold Atoi. rewrite parse_int10_digits by (rewrite ?Hv; done || lia). by rewrite Hv.
Qed.

Lemma digits_no_byte s c :
  forallb is_digit s = true → is_digit c = false → has_byte s c = false.
Proof.
  intros Hs Hc. destruct (has_byte s c) eqn:E; [|done].
  apply has_byte_spec, list_elem_of_In in E. rewrite forallb_forall in Hs.
  rewrite (Hs c E) in Hc. done.
Qed.

Lemma digit_ascii b : is_digit b = true → is_ascii b = true ∧ space1 b = false.
Proof.
  by_bytes (λ b, implb (is_digit b) (is_ascii b && negb (space1 b))) b.
  intros H Hb. rewrite Hb in H. simpl in H. by breflect.
Qed.

Lemma digits_trimmed s : forallb is_digit s = true → trimmed s.
Proof.
  intros Hs. assert (∀ t, forallb is_digit t = true → ∀ back, space_width back t = 0%nat) as H.
  { intros [|b t]; simpl forallb; [done|]. intros [Hb _]%andb_true_iff back.
    apply digit_ascii in Hb as [? ?]. by apply space_width_nonspace. }
  split; [by apply H|]. apply H. rewrite forallb_forall in *.
  intros x Hx. apply Hs. by apply in_rev.
Qed.
