(* ===== verification/GoEncoding.v ===== *)
(** * [encoding/hex] and [encoding/base64] (the padded standard alphabet) *)
From S2P Require Import Prelude GoStrings.

Local Open Scope Z_scope.

(** ** Hexadecimal *)

Definition hex_digit (v : Z) : byte := if v <? 10 then zb (48 + v) else zb (87 + v).

Definition hex_val (b : byte) : option Z :=
  if in_range 48 57 b then Some (bz b - 48)
  else if in_range 97 102 b then Some (bz b - 87)
  else if in_range 65 70 b then Some (bz b - 55)
  else None.

Definition hex_EncodeToString (k : list byte) : gostring :=
  flat_map (λ b, [hex_digit (bz b / 16); hex_digit (bz b mod 16)]) k.

Fixpoint hex_DecodeString (s : list byte) : outcome (list byte) :=
  match s with
  | [] => Ret []
  | [p] => match hex_val p with None => Fail (InvalidByteError p) | Some _ => Fail ErrLength end
  | p :: q :: s =>
      a ← or_fail (hex_val p) (InvalidByteError p);
      b ← or_fail (hex_val q) (InvalidByteError q);
      r ← hex_DecodeString s;
      Ret (zb (Z.lor (Z.shiftl a 4) b) :: r)
  end.

(** ** Base64 *)

Definition b64_char (v : Z) : byte :=
  if v <? 26 then zb (65 + v)
  else if v <? 52 then zb (71 + v)
  else if v <? 62 then zb (v - 4)
  else if v =? 62 then x2b else x2f.

Definition b64_val (b : byte) : option Z :=
  if in_range 65 90 b then Some (bz b - 65)
  else if in_range 97 122 b then Some (bz b - 71)
  else if in_range 48 57 b then Some (bz b + 4)
  else if Byte.eqb b x2b then Some 62
  else if Byte.eqb b x2f then Some 63
  else None.

(** Three bytes as a 24-bit number and back, four sextets as a 24-bit number and back. *)
Definition pack3 (a b c : byte) : Z := bz a * 65536 + bz b * 256 + bz c.
Definition pack4 (a b c d : Z) : Z := a * 262144 + b * 4096 + c * 64 + d.
Definition byte_at (val shift : Z) : byte := zb (val / 2 ^ shift).
Definition sextet (val shift : Z) : byte := b64_char (val / 2 ^ shift mod 64).

Fixpoint b64_EncodeToString (s : list byte) : gostring :=
  match s with
  | [] => []
  | [a] => let v := pack3 a x00 x00 in [sextet v 18; sextet v 12; x3d; x3d]
  | [a; b] => let v := pack3 a b x00 in [sextet v 18; sextet v 12; sextet v 6; x3d]
  | a :: b :: c :: s =>
      let v := pack3 a b c in
      sextet v 18 :: sextet v 12 :: sextet v 6 :: sextet v 0 :: b64_EncodeToString s
  end.

Definition is_newline (b : byte) : bool := Byte.eqb b x0a || Byte.eqb b x0d.

Fixpoint skip_newlines (s : list byte) (si : nat) : list byte * nat :=
  match s with
  | b :: s' => if is_newline b then skip_newlines s' (S si) else (s, si)
  | [] => ([], si)
  end.

(** What may follow the padding: newlines only. *)
Definition b64_tail (s : list byte) (si : nat) (out : list byte) : outcome (list byte) :=
  let '(s, si) := skip_newlines s si in
  match s with [] => Ret out | _ => Fail (CorruptInputError si) end.

(** The decoder, with the sextets [dbuf] of the current quantum and the input
    position [si].  Newlines are skipped everywhere; trailing bits of a padded
    quantum are ignored (the encoding is not strict). *)
Fixpoint b64_decode (s : list byte) (si : nat) (dbuf : list Z) : outcome (list byte) :=
  match s with
  | [] => match dbuf with [] => Ret [] | _ => Fail (CorruptInputError (si - length dbuf)) end
  | c :: s =>
      match b64_val c with
      | Some v =>
          match dbuf with
          | [v0; v1; v2] =>
              let val := pack4 v0 v1 v2 v in
              r ← b64_decode s (S si) [];
              Ret (byte_at val 16 :: byte_at val 8 :: byte_at val 0 :: r)
          | _ => b64_decode s (S si) (dbuf ++ [v])
          end
      | None =>
          if is_newline c then b64_decode s (S si) dbuf
          else if negb (Byte.eqb c x3d) then Fail (CorruptInputError si)
          else match dbuf with
               | [v0; v1] =>
                   let '(s', si') := skip_newlines s (S si) in
                   match s' with
                   | [] => Fail (CorruptInputError si')
                   | c' :: s'' =>
                       if Byte.eqb c' x3d
                       then b64_tail s'' (S si') [byte_at (pack4 v0 v1 0 0) 16]
                       else Fail (CorruptInputError (si' - 1))
                   end
               | [v0; v1; v2] =>
                   let val := pack4 v0 v1 v2 0 in
                   b64_tail s (S si) [byte_at val 16; byte_at val 8]
               | _ => Fail (CorruptInputError si)
               end
      end
  end.

Definition b64_DecodeString (s : gostring) : outcome (list byte) := b64_decode s 0 [].

(** ** Round trips *)

Lemma hex_val_digit v : 0 <= v < 16 → hex_val (hex_digit v) = Some v.
Proof.
  intros H. by_below 16 (λ v, bool_decide (hex_val (hex_digit v) = Some v)) v H.
  apply bool_decide_eq_true.
Qed.

Lemma lor_nibbles b : zb (Z.lor (Z.shiftl (bz b / 16) 4) (bz b mod 16)) = b.
Proof.
  by_bytes (λ b, bool_decide (zb (Z.lor (Z.shiftl (bz b / 16) 4) (bz b mod 16)) = b)) b.
  apply bool_decide_eq_true.
Qed.

Lemma hex_round_trip k : hex_DecodeString (hex_EncodeToString k) = Ret k.
Proof.
  induction k as [|b k IH]; simpl; [done|].
  pose proof (bz_range b). pose proof (Z.mod_pos_bound (bz b) 16 ltac:(lia)).
  assert (0 <= bz b / 16 < 16) by (Z.to_euclidean_division_equations; lia).
  rewrite !hex_val_digit by done.
  simpl. by rewrite IH, lor_nibbles.
Qed.

Lemma b64_val_char v : 0 <= v < 64 → b64_val (b64_char v) = Some v.
Proof.
  intros H. by_below 64 (λ v, bool_decide (b64_val (b64_char v) = Some v)) v H.
  apply bool_decide_eq_true.
Qed.

Lemma b64_val_sextet val shift : b64_val (sextet val shift) = Some (val / 2 ^ shift mod 64).
Proof. apply b64_val_char. apply Z.mod_pos_bound. lia. Qed.

Lemma pack3_range a b c : 0 <= pack3 a b c < 2 ^ 24.
Proof. unfold pack3. pose proof (bz_range a). pose proof (bz_range b). pose proof (bz_range c). lia. Qed.

Lemma pack4_sextets n :
  0 <= n < 2 ^ 24 →
  pack4 (n / 2 ^ 18 mod 64) (n / 2 ^ 12 mod 64) (n / 2 ^ 6 mod 64) (n / 2 ^ 0 mod 64) = n.
Proof.
  intros H. unfold pack4. change (2 ^ 18) with 262144. change (2 ^ 12) with 4096.
  change (2 ^ 6) with 64. change (2 ^ 0) with 1. change (2 ^ 24) with 16777216 in H.
  Z.to_euclidean_division_equations. lia.
Qed.

Lemma byte_at_pack3 a b c :
  byte_at (pack3 a b c) 16 = a ∧ byte_at (pack3 a b c) 8 = b ∧ byte_at (pack3 a b c) 0 = c.
Proof.
  unfold byte_at, pack3. pose proof (bz_range a). pose proof (bz_range b). pose proof (bz_range c).
  split_and!; apply bz_inj; rewrite bz_zb; change (2 ^ 16) with 65536;
    change (2 ^ 8) with 256; change (2 ^ 0) with 1;
    Z.to_euclidean_division_equations; lia.
Qed.

Lemma b64_decode_quantum s si w x y z v0 v1 v2 v3 :
  b64_val w = Some v0 → b64_val x = Some v1 → b64_val y = Some v2 → b64_val z = Some v3 →
  b64_decode (w :: x :: y :: z :: s) si [] =
    (r ← b64_decode s (4 + si) [];
     Ret (byte_at (pack4 v0 v1 v2 v3) 16 :: byte_at (pack4 v0 v1 v2 v3) 8
          :: byte_at (pack4 v0 v1 v2 v3) 0 :: r)).
Proof. intros H0 H1 H2 H3. cbn [b64_decode]. by rewrite H0, H1, H2, H3. Qed.

(** The unused low sextets of a short final quantum are zero. *)
Lemma pack3_low_zero a b :
  pack3 a b x00 / 2 ^ 0 mod 64 = 0 ∧ pack3 a x00 x00 / 2 ^ 6 mod 64 = 0.
Proof.
  unfold pack3. change (bz x00) with 0. change (2 ^ 0) with 1. change (2 ^ 6) with 64.
  pose proof (bz_range a). pose proof (bz_range b).
  split; Z.to_euclidean_division_equations; lia.
Qed.

Lemma b64_round_trip_at k si : b64_decode (b64_EncodeToString k) si [] = Ret k.
Proof.
  remember (length k) as n eqn:Hn. revert k si Hn.
  induction n as [n IH] using lt_wf_ind. intros k si ->.
  destruct k as [|a [|b [|c k]]]; [done| | |]; cbn [b64_EncodeToString].
  - cbn [b64_decode]. rewrite !b64_val_sextet. change (b64_val x3d) with (@None Z).
    simpl. unfold b64_tail. simpl.
    pose proof (pack4_sextets _ (pack3_range a x00 x00)) as Hp.
    rewrite (proj2 (pack3_low_zero a x00)), (proj1 (pack3_low_zero a x00)) in Hp.
    rewrite Hp. by rewrite (proj1 (byte_at_pack3 a x00 x00)).
  - cbn [b64_decode]. rewrite !b64_val_sextet. change (b64_val x3d) with (@None Z).
    simpl. unfold b64_tail. simpl.
    pose proof (pack4_sextets _ (pack3_range a b x00)) as Hp.
    rewrite (proj1 (pack3_low_zero a b)) in Hp. rewrite Hp.
    by destruct (byte_at_pack3 a b x00) as (-> & -> & _).
  - rewrite (b64_decode_quantum _ _ _ _ _ _ _ _ _ _ (b64_val_sextet _ _) (b64_val_sextet _ _)
      (b64_val_sextet _ _) (b64_val_sextet _ _)).
    rewrite pack4_sextets by apply pack3_range.
    destruct (byte_at_pack3 a b c) as (-> & -> & ->).
    erewrite IH; [done| |reflexivity]. simpl. lia.
Qed.

Lemma b64_round_trip k : b64_DecodeString (b64_EncodeToString k) = Ret k.
Proof. apply b64_round_trip_at. Qed.

Lemma b64_encode_length3 k n :
  length k = (3 * n + 2)%nat → length (b64_EncodeToString k) = (4 * n + 4)%nat.
Proof.
  revert k. induction n as [|n IH]; intros k Hk.
  - destruct k as [|? [|? [|]]]; simpl in *; try lia.
  - destruct k as [|a [|b [|c k]]]; simpl in Hk; try lia.
    cbn [b64_EncodeToString length]. rewrite IH; lia.
Qed.

Lemma sextet_alphabet val shift :
  is_ascii (sextet val shift) = true ∧ space1 (sextet val shift) = false ∧
  sextet val shift ≠ x23 ∧ sextet val shift ≠ x0a.
Proof.
  unfold sextet. pose proof (Z.mod_pos_bound (val / 2 ^ shift) 64 ltac:(lia)) as Hv.
  by_below 64 (λ v, is_ascii (b64_char v) && negb (space1 (b64_char v))
    && negb (has_byte [x23; x0a] (b64_char v))) (val / 2 ^ shift mod 64) Hv.
  generalize (b64_char (val / 2 ^ shift mod 64)). intros c H. breflect.
  split_and!; try done; intros ->; done.
Qed.
