(* ===== verification/GoNet.v ===== *)
(** * [net.IP]: parsing, printing and masking

    An address is its byte slice, of length 4 or 16; Go's [nil] is [None]. *)
From S2P Require Import Prelude GoStrings GoStrconv GoEncoding.

Local Open Scope Z_scope.

Abbreviation IP := (list byte).

Definition v4InV6Prefix : IP := replicate 10 x00 ++ [xff; xff].

(** ** Parsing *)

(** [netip.parseIPv4Fields]: [digLen] digits of the current octet read so far,
    with value [val], after the complete octets [fields]. *)
Fixpoint ipv4_loop (s : list byte) (val : Z) (digLen : nat) (fields : IP) : option IP :=
  match s with
  | [] => if (length fields <? 3)%nat then None else Some (fields ++ [zb val])
  | c :: s =>
      if is_digit c then
        if (digLen =? 1)%nat && (val =? 0) then None
        else let val := val * 10 + digit_val c in
             if val >? 255 then None else ipv4_loop s val (S digLen) fields
      else if Byte.eqb c x2e then
        if (digLen =? 0)%nat || match s with [] => true | _ => false end then None
        else if (length fields =? 3)%nat then None
        else ipv4_loop s 0 0%nat (fields ++ [zb val])
      else None
  end.

Definition parseIPv4 (s : gostring) : option IP := ipv4_loop s 0 0%nat [].

Definition is_hex (b : byte) : bool := match hex_val b with Some _ => true | None => false end.

Fixpoint span_hex (s : list byte) : list byte * list byte :=
  match s with
  | [] => ([], [])
  | b :: s' => if is_hex b then let '(d, r) := span_hex s' in (b :: d, r) else ([], s)
  end.

Definition hex_value (ds : list byte) : Z :=
  fold_left (λ a b, a * 16 + match hex_val b with Some v => v | None => 0 end) ds 0.

Definition group_bytes (g : Z) : list byte := [zb (g / 256); zb g].

(** The group loop of [netip.parseIPv6]: unread input [s], bytes [ip] so far,
    position [ell] of the ellipsis.  Each iteration fills two of the sixteen
    bytes, so [fuel = 8] is the loop's own bound [i < 16]. *)
Fixpoint ipv6_loop (fuel : nat) (s : list byte) (ip : IP) (ell : option nat)
    : option (list byte * IP * option nat) :=
  match fuel with
  | O => Some (s, ip, ell)
  | S fuel =>
      let '(ds, rest) := span_hex s in
      if (length ds =? 0)%nat || (4 <? length ds)%nat then None
      else
        let ip' := ip ++ group_bytes (hex_value ds) in
        match rest with
        | [] => Some ([], ip', ell)
        | c :: rest' =>
            if Byte.eqb c x2e then
              if (match ell with None => negb (length ip =? 12)%nat | Some _ => false end)
                 || (16 <? length ip + 4)%nat
              then None
              else match parseIPv4 s with Some f => Some ([], ip ++ f, ell) | None => None end
            else if Byte.eqb c x3a then
              match rest' with
              | [] => None
              | c2 :: rest2 =>
                  if Byte.eqb c2 x3a then
                    match ell with
                    | Some _ => None
                    | None =>
                        match rest2 with
                        | [] => Some ([], ip', Some (length ip'))
                        | _ => ipv6_loop fuel rest2 ip' (Some (length ip'))
                        end
                    end
                  else ipv6_loop fuel rest' ip' ell
              end
            else None
        end
  end.

(** Expansion of the ellipsis once the groups are read. *)
Definition ipv6_expand (r : option (list byte * IP * option nat)) : option IP :=
  match r with
  | Some ([], ip, ell) =>
      if (length ip <? 16)%nat then
        match ell with
        | None => None
        | Some e => Some (take e ip ++ replicate (16 - length ip) x00 ++ drop e ip)
        end
      else match ell with Some _ => None | None => Some ip end
  | _ => None
  end.

Definition parseIPv6 (s : gostring) : option IP :=
  match s with
  | x3a :: x3a :: s =>
      match s with
      | [] => Some (replicate 16 x00)
      | _ => ipv6_expand (ipv6_loop 8 s [] (Some 0%nat))
      end
  | _ => ipv6_expand (ipv6_loop 8 s [] None)
  end.

(** The first of ['.'], [':'], ['%'] decides the syntax. *)
Fixpoint ip_syntax (s : list byte) : option byte :=
  match s with
  | [] => None
  | b :: s => if has_byte [x2e; x3a; x25] b then Some b else ip_syntax s
  end.

(** [net.ParseIP]: always the 16-byte form; addresses with a zone are rejected. *)
Definition ParseIP (s : gostring) : option IP :=
  match ip_syntax s with
  | Some x2e => (λ f, v4InV6Prefix ++ f) <$> parseIPv4 s
  | Some x3a => if has_byte s x25 then None else parseIPv6 s
  | _ => None
  end.

(** ** Forms and printing *)

Definition To4 (ip : IP) : option IP :=
  if (length ip =? 4)%nat then Some ip
  else if (length ip =? 16)%nat && (take 12 ip =?s v4InV6Prefix) then Some (drop 12 ip)
  else None.

Definition To16 (ip : IP) : option IP :=
  if (length ip =? 4)%nat then Some (v4InV6Prefix ++ ip)
  else if (length ip =? 16)%nat then Some ip else None.

Definition ipv4_string (ip : IP) : gostring := Join (map (λ b, Itoa (bz b)) ip) ".".

(** A 16-bit group in hexadecimal without leading zeros. *)
Definition hex_group (g : Z) : gostring :=
  (if g >=? 0x1000 then [hex_digit (g / 0x1000)] else [])
  ++ (if g >=? 0x100 then [hex_digit (g / 0x100 mod 16)] else [])
  ++ (if g >=? 0x10 then [hex_digit (g / 0x10 mod 16)] else [])
  ++ [hex_digit (g mod 16)].

Fixpoint groups (ip : IP) : list Z :=
  match ip with
  | a :: b :: ip => (bz a * 256 + bz b) :: groups ip
  | _ => []
  end.

Fixpoint zero_prefix (gs : list Z) : nat :=
  match gs with g :: gs => if g =? 0 then S (zero_prefix gs) else 0%nat | [] => 0%nat end.

(** The first longest run of at least two zero groups, as [start, end). *)
Definition run_step (gs : list Z) (best : option (nat * nat)) (i : nat) : option (nat * nat) :=
  let l := zero_prefix (drop i gs) in
  let cur := match best with Some (s, e) => (e - s)%nat | None => 0%nat end in
  if (2 <=? l)%nat && (cur <? l)%nat then Some (i, (i + l)%nat) else best.

Definition best_run (gs : list Z) : option (nat * nat) := fold_left (run_step gs) (seq 0 8) None.

Definition ipv6_string (ip : IP) : gostring :=
  let gs := groups ip in
  match best_run gs with
  | None => Join (map hex_group gs) ":"
  | Some (zs, ze) =>
      Join (map hex_group (take zs gs)) ":" ++ "::" ++ Join (map hex_group (drop ze gs)) ":"
  end.

(** [IP.String] for the two valid lengths. *)
Definition IP_String (ip : IP) : gostring :=
  match To4 ip with
  | Some p4 => ipv4_string p4
  | None => ipv6_string ip
  end.

(** [net.CIDRMask(ones, bits)] for [0 <= ones <= bits]. *)
Definition mask_byte (ones : Z) : byte :=
  if ones >=? 8 then xff else if ones <=? 0 then x00 else zb (256 - 2 ^ (8 - ones)).
Definition CIDRMask (ones bits : Z) : list byte :=
  map (λ i, mask_byte (ones - 8 * Z.of_nat i)) (seq 0 (Z.to_nat (bits / 8))).

Definition and_byte (a b : byte) : byte := zb (Z.land (bz a) (bz b)).

(** ** Round trip of IPv4 *)

Lemma ipv4_octet b s fields :
  ipv4_loop (Itoa (bz b) ++ s) 0 0%nat fields =
  ipv4_loop s (bz b) (length (Itoa (bz b))) fields.
Proof. destruct b; reflexivity. Qed.

Lemma ip_syntax_digits d s :
  forallb is_digit d = true → ip_syntax (d ++ s) = ip_syntax s.
Proof.
  induction d as [|b d IH]; simpl; [done|]. intros [Hb Hd]%andb_true_iff.
  rewrite IH by done.
  revert Hb. by_bytes (λ b, implb (is_digit b) (negb (has_byte [x2e; x3a; x25] b))) b.
  intros H Hb. rewrite Hb in H. apply negb_true_iff in H. unfold has_byte in H. simpl in H.
  by rewrite H.
Qed.

Lemma parseIPv4_string a b c d : parseIPv4 (ipv4_string [a; b; c; d]) = Some [a; b; c; d].
Proof.
  unfold parseIPv4, ipv4_string. cbn [map Join].
  assert (∀ b s fields, s ≠ [] → (length fields < 3)%nat →
    ipv4_loop (x2e :: s) (bz b) (length (Itoa (bz b))) fields = ipv4_loop s 0 0%nat (fields ++ [b]))
    as Hdot.
  { clear. intros b s fields Hs Hl. cbn [ipv4_loop]. change (is_digit x2e) with false.
    change (Byte.eqb x2e x2e) with true. cbv iota.
    pose proof (bz_range b) as Hr. pose proof (Itoa_nonempty (bz b) ltac:(lia)) as Hne.
    destruct (Itoa (bz b)); [done|]. destruct s; [done|]. simpl.
    rewrite (proj2 (Nat.eqb_neq _ 3)) by lia. by rewrite zb_bz. }
  assert (∀ b s, Itoa (bz b) ++ s ≠ []) as Hne'.
  { intros e s [E _]%app_eq_nil. pose proof (bz_range e). by apply Itoa_nonempty in E; [|lia]. }
  rewrite ipv4_octet. cbn [app]. rewrite Hdot by (apply Hne' || (simpl; lia)).
  rewrite ipv4_octet. cbn [app]. rewrite Hdot by (apply Hne' || (simpl; lia)).
  rewrite ipv4_octet. cbn [app].
  rewrite Hdot by ((simpl; lia) || (rewrite <- (app_nil_r (Itoa _)); apply Hne')).
  rewrite <- (app_nil_r (Itoa (bz d))), ipv4_octet. simpl. by rewrite zb_bz.
Qed.

Lemma ParseIP_ipv4_string ip :
  length ip = 4%nat → ParseIP (ipv4_string ip) = Some (v4InV6Prefix ++ ip).
Proof.
  destruct ip as [|a [|b [|c [|d [|]]]]]; try done. intros _.
  unfold ParseIP. pose proof (parseIPv4_string a b c d) as H.
  assert (ip_syntax (ipv4_string [a; b; c; d]) = Some x2e) as ->; [|by rewrite H].
  unfold ipv4_string. cbn [map Join]. pose proof (bz_range a).
  by rewrite ip_syntax_digits by (apply Itoa_digits; lia).
Qed.

(** ** Round trip of IPv6 *)

Lemma hex_group_spec g :
  0 <= g < 65536 →
  forallb is_hex (hex_group g) = true ∧ hex_value (hex_group g) = g ∧
  (1 <= length (hex_group g) <= 4)%nat.
Proof.
  intros H.
  set (check := λ g, let h := hex_group g in
    forallb is_hex h && (hex_value h =? g) && (1 <=? length h)%nat && (length h <=? 4)%nat).
  assert (check g = true) as Hg.
  { assert (0 <= g / 256 < 256) by (Z.to_euclidean_division_equations; lia).
    pose proof (Z.mod_pos_bound g 256 ltac:(lia)).
    rewrite (Z.div_mod g 256) by lia.
    apply (below_forall 256 (λ l, check (256 * (g / 256) + l))); [|done].
    apply (below_forall 256 (λ h, forallb (λ l, check (256 * h + l)) (seqZ 0 256))); [|done].
    vm_compute. reflexivity. }
  unfold check in Hg. cbv zeta in Hg. breflect. rewrite Nat.leb_le in *. auto.
Qed.

Lemma span_hex_app ds s :
  forallb is_hex ds = true → match s with b :: _ => is_hex b = false | [] => True end →
  span_hex (ds ++ s) = (ds, s).
Proof.
  intros Hd Hs. induction ds as [|b ds IH]; simpl.
  - destruct s as [|b s]; [done|]. simpl. by rewrite Hs.
  - simpl in Hd. apply andb_true_iff in Hd as [Hb Hd]. by rewrite Hb, IH.
Qed.

Definition wf_groups (gs : list Z) : Prop := Forall (λ g, 0 <= g < 65536) gs.

Definition groups_bytes (gs : list Z) : list byte := flat_map group_bytes gs.

(** One group in front of a non-hexadecimal byte or the end of input. *)
Lemma ipv6_loop_group fuel g s ip ell :
  0 <= g < 65536 → match s with b :: _ => is_hex b = false ∧ Byte.eqb b x2e = false | [] => True end →
  ipv6_loop (S fuel) (hex_group g ++ s) ip ell =
    let ip' := ip ++ group_bytes g in
    match s with
    | [] => Some ([], ip', ell)
    | c :: rest' =>
        if Byte.eqb c x3a then
          match rest' with
          | [] => None
          | c2 :: rest2 =>
              if Byte.eqb c2 x3a then
                match ell with
                | Some _ => None
                | None => match rest2 with
                          | [] => Some ([], ip', Some (length ip'))
                          | _ => ipv6_loop fuel rest2 ip' (Some (length ip'))
                          end
                end
              else ipv6_loop fuel rest' ip' ell
          end
        else None
    end.
Proof.
  intros Hg Hs. destruct (hex_group_spec g Hg) as (Hx & Hv & Hl). cbn [ipv6_loop].
  rewrite span_hex_app by (done || (destruct s; [done|apply Hs])).
  rewrite Hv. replace ((length (hex_group g) =? 0)%nat || (4 <? length (hex_group g))%nat) with false.
  - cbv iota. destruct s as [|b s]; [done|]. destruct Hs as [_ ->]. done.
  - symmetry. apply orb_false_iff. rewrite Nat.eqb_neq, Nat.ltb_ge. lia.
Qed.

Lemma is_hex_ascii b : is_hex b = true → b ≠ x3a ∧ b ≠ x2e ∧ b ≠ x25.
Proof. intros H. split_and!; intros ->; by vm_compute in H. Qed.

Lemma hex_group_cons g : 0 <= g < 65536 → ∃ b r, hex_group g = b :: r ∧ is_hex b = true.
Proof.
  intros H. destruct (hex_group_spec g H) as (Hx & _ & Hl).
  destruct (hex_group g) as [|b r]; simpl in *; [lia|].
  apply andb_true_iff in Hx as [Hb _]. eauto.
Qed.

(** Reading colon-separated groups up to the end of input. *)
Lemma ipv6_loop_join gs fuel ip ell :
  wf_groups gs → gs ≠ [] → (length gs <= fuel)%nat →
  ipv6_loop fuel (Join (map hex_group gs) ":") ip ell = Some ([], ip ++ groups_bytes gs, ell).
Proof.
  intros Hwf. revert fuel ip. induction Hwf as [|g gs Hg Hgs IH]; intros fuel ip Hne Hf; [done|].
  destruct fuel as [|fuel]; [simpl in Hf; lia|].
  destruct gs as [|g' gs].
  - cbn [map Join]. rewrite <- (app_nil_r (hex_group g)), ipv6_loop_group by done.
    unfold groups_bytes. cbn [flat_map]. by rewrite app_nil_r.
  - change (Join (map hex_group (g :: g' :: gs)) ":")
      with (hex_group g ++ x3a :: Join (map hex_group (g' :: gs)) ":").
    rewrite ipv6_loop_group by (done || split; reflexivity).
    cbv zeta. rewrite byte_eqb_refl.
    assert (∃ b r, Join (map hex_group (g' :: gs)) ":" = b :: r ∧ is_hex b = true) as (b & r & E & Hb).
    { inversion Hgs; subst. destruct (hex_group_cons g') as (b & r & E & Hb); [done|].
      destruct gs; simpl; rewrite E; simpl; eauto. }
    rewrite E. destruct (is_hex_ascii b Hb) as (Hb1 & _ & _).
    rewrite (byte_eqb_neq _ _ Hb1), <- E. rewrite IH by (done || simpl in *; lia).
    unfold groups_bytes. cbn [flat_map]. by rewrite <- !app_assoc.
Qed.

(** Reading groups up to an ellipsis. *)
Lemma ipv6_loop_ellipsis gs fuel ip rest :
  wf_groups gs → gs ≠ [] → (length gs <= fuel)%nat →
  ipv6_loop fuel (Join (map hex_group gs) ":" ++ "::" ++ rest) ip None =
    let ip' := ip ++ groups_bytes gs in
    match rest with
    | [] => Some ([], ip', Some (length ip'))
    | _ => ipv6_loop (fuel - length gs) rest ip' (Some (length ip'))
    end.
Proof.
  intros Hwf. revert fuel ip. induction Hwf as [|g gs Hg Hgs IH]; intros fuel ip Hne Hf; [done|].
  destruct fuel as [|fuel]; [simpl in Hf; lia|].
  destruct gs as [|g' gs].
  - cbn [map Join]. change ("::" ++ rest) with (x3a :: x3a :: rest).
    rewrite ipv6_loop_group by (done || split; reflexivity).
    cbv zeta. rewrite !byte_eqb_refl. unfold groups_bytes. cbn [flat_map length].
    rewrite app_nil_r, Nat.sub_succ, Nat.sub_0_r. done.
  - change (Join (map hex_group (g :: g' :: gs)) ":")
      with (hex_group g ++ x3a :: Join (map hex_group (g' :: gs)) ":").
    rewrite <- app_assoc. cbn [app].
    rewrite ipv6_loop_group by (done || split; reflexivity).
    cbv zeta. rewrite byte_eqb_refl.
    assert (∃ b r, Join (map hex_group (g' :: gs)) ":" = b :: r ∧ is_hex b = true) as (b & r & E & Hb).
    { inversion Hgs; subst. destruct (hex_group_cons g') as (b & r & E & Hb); [done|].
      destruct gs; simpl; rewrite E; simpl; eauto. }
    rewrite E. cbn [app]. destruct (is_hex_ascii b Hb) as (Hb1 & _ & _).
    rewrite (byte_eqb_neq _ _ Hb1).
    change (b :: r ++ x3a :: x3a :: rest) with ((b :: r) ++ "::" ++ rest).
    rewrite <- E, IH by (done || simpl in *; lia).
    cbv zeta. unfold groups_bytes. cbn [flat_map length]. rewrite <- !app_assoc.
    by rewrite Nat.sub_succ.
Qed.

Lemma groups_wf ip : wf_groups (groups ip).
Proof.
  remember (length ip) as n eqn:Hn. revert ip Hn.
  induction n as [n IH] using lt_wf_ind. intros ip ->.
  destruct ip as [|a [|b ip]]; simpl; [constructor..|].
  pose proof (bz_range a). pose proof (bz_range b). constructor; [lia|].
  eapply IH; [|reflexivity]. simpl. lia.
Qed.

Lemma group_bytes_pair a b : group_bytes (bz a * 256 + bz b) = [a; b].
Proof.
  unfold group_bytes. pose proof (bz_range a). pose proof (bz_range b).
  f_equal; [|f_equal]; apply bz_inj; rewrite bz_zb; Z.to_euclidean_division_equations; lia.
Qed.

Lemma groups_bytes_groups n ip :
  length ip = (2 * n)%nat → groups_bytes (groups ip) = ip ∧ length (groups ip) = n.
Proof.
  revert ip. induction n as [|n IH]; intros ip Hl.
  - by destruct ip; [|simpl in Hl; lia].
  - destruct ip as [|a [|b ip]]; simpl in Hl; try lia.
    destruct (IH ip) as [E1 E2]; [lia|]. cbn [groups]. unfold groups_bytes in *.
    cbn [flat_map]. rewrite group_bytes_pair, E1. simpl. by rewrite E2.
Qed.

Lemma length_groups_bytes gs : length (groups_bytes gs) = (2 * length gs)%nat.
Proof. induction gs; simpl in *; lia. Qed.

Lemma zero_prefix_spec gs :
  (zero_prefix gs <= length gs)%nat ∧ take (zero_prefix gs) gs = replicate (zero_prefix gs) 0.
Proof.
  induction gs as [|g gs [IH1 IH2]]; simpl; [done|].
  destruct (Z.eqb_spec g 0) as [->|]; simpl; [|split; [lia|done]].
  split; [lia|]. by rewrite IH2.
Qed.

Definition zero_run (gs : list Z) (zs ze : nat) : Prop :=
  (zs + 2 <= ze)%nat ∧ (ze <= length gs)%nat ∧
  take (ze - zs) (drop zs gs) = replicate (ze - zs) 0.

Lemma run_step_spec gs l best zs ze :
  (∀ zs ze, best = Some (zs, ze) → zero_run gs zs ze) →
  fold_left (run_step gs) l best = Some (zs, ze) → zero_run gs zs ze.
Proof.
  revert best. induction l as [|i l IH]; intros best Hb; simpl; [apply Hb|].
  apply IH. unfold run_step. destruct (_ && _) eqn:E; [|done].
  apply andb_true_iff in E as [E1%Nat.leb_le _].
  destruct (zero_prefix_spec (drop i gs)) as [H1 H2]. rewrite length_drop in H1.
  intros ?? [= <- <-]. unfold zero_run.
  replace (i + zero_prefix (drop i gs) - i)%nat with (zero_prefix (drop i gs)) by lia.
  split_and!; [lia..|done].
Qed.

(** [best_run] returns a block of at least two zero groups. *)
Lemma best_run_spec gs zs ze : best_run gs = Some (zs, ze) → zero_run gs zs ze.
Proof. by apply run_step_spec. Qed.

Lemma groups_bytes_app a b : groups_bytes (a ++ b) = groups_bytes a ++ groups_bytes b.
Proof. apply flat_map_app. Qed.

Lemma groups_bytes_zeros n : groups_bytes (replicate n 0) = replicate (2 * n) x00.
Proof.
  induction n as [|n IH]; [done|]. unfold groups_bytes in *. cbn [replicate flat_map].
  rewrite IH. replace (2 * S n)%nat with (S (S (2 * n))) by lia. reflexivity.
Qed.

(** Splitting eight groups around a zero block. *)
Lemma split_run gs zs ze :
  length gs = 8%nat → best_run gs = Some (zs, ze) →
  groups_bytes gs = groups_bytes (take zs gs) ++ replicate (2 * (ze - zs)) x00
                    ++ groups_bytes (drop ze gs).
Proof.
  intros Hl (H1 & H2 & H3)%best_run_spec.
  rewrite <- groups_bytes_zeros, <- H3, <- !groups_bytes_app. f_equal.
  rewrite <- (take_drop zs gs) at 1. f_equal.
  rewrite <- (take_drop (ze - zs) (drop zs gs)) at 1. f_equal.
  rewrite drop_drop. f_equal. lia.
Qed.

Lemma parseIPv6_no_lead s :
  match s with x3a :: x3a :: _ => False | _ => True end →
  parseIPv6 s = ipv6_expand (ipv6_loop 8 s [] None).
Proof. destruct s as [|b [|c s]]; try done; by destruct b; try done; destruct c. Qed.

Lemma join_groups_head gs :
  wf_groups gs → gs ≠ [] → ∃ b r, Join (map hex_group gs) ":" = b :: r ∧ is_hex b = true.
Proof.
  intros Hwf Hne. destruct Hwf as [|g gs Hg Hgs]; [done|].
  destruct (hex_group_cons g Hg) as (b & r & E & Hb).
  destruct gs; simpl; rewrite E; simpl; eauto.
Qed.

Lemma parseIPv6_hex b s : is_hex b = true →
  parseIPv6 (b :: s) = ipv6_expand (ipv6_loop 8 (b :: s) [] None).
Proof. intros Hb. apply parseIPv6_no_lead. by destruct b. Qed.

Lemma ipv6_expand_full ip : length ip = 16%nat → ipv6_expand (Some ([], ip, None)) = Some ip.
Proof. intros H. simpl. by rewrite H. Qed.

Lemma ipv6_expand_run pre post n :
  (length pre + length post + n = 16)%nat → (0 < n)%nat →
  ipv6_expand (Some ([], pre ++ post, Some (length pre))) = Some (pre ++ replicate n x00 ++ post).
Proof.
  intros H Hn. cbn [ipv6_expand]. rewrite length_app.
  rewrite (proj2 (Nat.ltb_lt _ _)) by lia.
  rewrite take_app_length, drop_app_length.
  by replace (16 - (length pre + length post))%nat with n by lia.
Qed.

Lemma parseIPv6_string ip : length ip = 16%nat → parseIPv6 (ipv6_string ip) = Some ip.
Proof.
  intros Hl. destruct (groups_bytes_groups 8 ip Hl) as [Eg Lg].
  pose proof (groups_wf ip) as Hwf. unfold ipv6_string. set (gs := groups ip) in *.
  destruct (best_run gs) as [[zs ze]|] eqn:Er.
  - pose proof (split_run gs zs ze Lg Er) as Es. rewrite Eg in Es.
    destruct (best_run_spec gs zs ze Er) as (H1 & H2 & _).
    assert (wf_groups (take zs gs)) as Hwt by by apply Forall_take.
    assert (wf_groups (drop ze gs)) as Hwd by by apply Forall_drop.
    assert (length (take zs gs) = zs) as Lt by (rewrite length_take; lia).
    assert (length (drop ze gs) = (8 - ze)%nat) as Ld by (rewrite length_drop; lia).
    set (pre := take zs gs) in *. set (post := drop ze gs) in *.
    assert (ipv6_expand (Some ([], groups_bytes pre ++ groups_bytes post,
      Some (length (groups_bytes pre)))) = Some ip) as Hx.
    { rewrite Es. apply ipv6_expand_run; rewrite ?length_groups_bytes; lia. }
    clearbody pre post.
    destruct pre as [|g pre].
    + cbn [map Join app]. destruct post as [|g' post]; [cbn [map Join app]|].
      * cbn [parseIPv6]. simpl in Hx. by rewrite <- Hx.
      * destruct (join_groups_head (g' :: post)) as (b & r & E & Hb); [done..|].
        cbn [app parseIPv6]. rewrite E. cbn [app]. rewrite <- E.
        rewrite ipv6_loop_join by (done || lia). apply Hx.
    + destruct (join_groups_head (g :: pre)) as (b & r & E & Hb); [done..|].
      rewrite E. cbn [app]. rewrite parseIPv6_hex by done.
      change (b :: r ++ x3a :: x3a :: ?t) with ((b :: r) ++ "::" ++ t).
      rewrite <- E, ipv6_loop_ellipsis by (done || lia). cbn [app]. cbv zeta.
      destruct post as [|g' post]; [simpl; by rewrite app_nil_r in Hx|].
      destruct (join_groups_head (g' :: post)) as (b' & r' & E' & Hb'); [done..|].
      rewrite E'. rewrite <- E'. rewrite ipv6_loop_join by (done || lia). apply Hx.
  - assert (gs ≠ []) as Hne by (by intros E; rewrite E in Lg).
    destruct (join_groups_head gs Hwf Hne) as (b & r & E & Hb).
    rewrite E, parseIPv6_hex, <- E, ipv6_loop_join by (done || lia).
    cbn [app]. rewrite Eg. by apply ipv6_expand_full.
Qed.

(** ** The alphabet of printed addresses *)

Definition ip_char (b : byte) : bool := is_hex b || Byte.eqb b x2e || Byte.eqb b x3a.

Lemma Join_forallb (P : byte → bool) l sep :
  forallb P sep = true → forallb (forallb P) l = true → forallb P (Join l sep) = true.
Proof.
  intros Hs. induction l as [|x l IH]; simpl; [done|].
  intros [Hx Hl]%andb_true_iff. destruct l as [|y l]; [done|].
  rewrite !forallb_app, Hx, Hs. by apply IH.
Qed.

Lemma forallb_impl {A} (P Q : A → bool) l :
  (∀ x, P x = true → Q x = true) → forallb P l = true → forallb Q l = true.
Proof. rewrite !forallb_forall. eauto. Qed.

Lemma digits_ip_char s : forallb is_digit s = true → forallb ip_char s = true.
Proof.
  apply forallb_impl. intros b. by_bytes (λ b, implb (is_digit b) (ip_char b)) b.
  by destruct (is_digit b).
Qed.

Lemma join_groups_ip_char gs :
  wf_groups gs → forallb ip_char (Join (map hex_group gs) ":") = true.
Proof.
  intros H. apply Join_forallb; [done|]. apply forallb_forall.
  intros x (g & <- & Hg)%in_map_iff. unfold wf_groups in H. rewrite Forall_forall in H.
  apply list_elem_of_In in Hg. eapply forallb_impl; [|apply hex_group_spec, H, Hg].
  intros b Hb. unfold ip_char. by rewrite Hb.
Qed.

Lemma ipv6_string_chars ip : forallb ip_char (ipv6_string ip) = true.
Proof.
  pose proof (groups_wf ip) as H. unfold ipv6_string.
  destruct (best_run (groups ip)) as [[zs ze]|]; [|by apply join_groups_ip_char].
  rewrite !forallb_app. simpl.
  rewrite !join_groups_ip_char; [done|by apply Forall_drop|by apply Forall_take].
Qed.

Lemma ipv4_string_chars ip : forallb ip_char (ipv4_string ip) = true.
Proof.
  apply Join_forallb; [done|]. apply forallb_forall.
  intros x (b & <- & _)%in_map_iff. pose proof (bz_range b).
  apply digits_ip_char, Itoa_digits. lia.
Qed.

Lemma IP_String_chars ip : forallb ip_char (IP_String ip) = true.
Proof.
  unfold IP_String. destruct (To4 ip); auto using ipv4_string_chars, ipv6_string_chars.
Qed.

Lemma ip_syntax_hex s c t :
  forallb is_hex s = true → has_byte [x2e; x3a; x25] c = true → ip_syntax (s ++ c :: t) = Some c.
Proof.
  intros Hs Hc. induction s as [|b s IH]; cbn [app ip_syntax]; [by rewrite Hc|].
  simpl in Hs. apply andb_true_iff in Hs as [Hb Hs]. rewrite IH by done.
  revert Hb. by_bytes (λ b, implb (is_hex b) (negb (has_byte [x2e; x3a; x25] b))) b.
  intros H Hb. rewrite Hb in H. simpl in H. apply negb_true_iff in H.
  unfold has_byte in *. simpl in *. by rewrite H.
Qed.

Lemma ipv6_string_syntax ip : length ip = 16%nat → ip_syntax (ipv6_string ip) = Some x3a.
Proof.
  intros Hl. destruct (groups_bytes_groups 8 ip Hl) as [_ Lg].
  pose proof (groups_wf ip) as Hwf. unfold ipv6_string. set (gs := groups ip) in *.
  assert (∀ g l, 0 <= g < 65536 → ∀ t, ip_syntax (Join (map hex_group (g :: l)) ":" ++ x3a :: t) = Some x3a)
    as Hj.
  { intros g l Hg t. destruct (hex_group_spec g Hg) as [Hx _].
    destruct l as [|g' l]; [by apply ip_syntax_hex|].
    change (Join (map hex_group (g :: g' :: l)) ":")
      with (hex_group g ++ x3a :: Join (map hex_group (g' :: l)) ":").
    rewrite <- app_assoc. by apply ip_syntax_hex. }
  destruct (best_run gs) as [[zs ze]|].
  - assert (wf_groups (take zs gs)) as Hwt by by apply Forall_take.
    destruct (take zs gs) as [|g l]; [done|]. inversion Hwt; subst. by apply Hj.
  - destruct gs as [|g [|g' l]]; try done. inversion Hwf; subst.
    change (Join (map hex_group (g :: g' :: l)) ":")
      with (hex_group g ++ x3a :: Join (map hex_group (g' :: l)) ":").
    apply ip_syntax_hex; [by apply hex_group_spec|done].
Qed.

Lemma ip_chars_no_byte s c : forallb ip_char s = true → ip_char c = false → has_byte s c = false.
Proof.
  intros Hs Hc. destruct (has_byte s c) eqn:E; [|done].
  apply has_byte_spec, list_elem_of_In in E. rewrite forallb_forall in Hs.
  rewrite (Hs c E) in Hc. done.
Qed.

(** Printing then parsing an address gives its 16-byte form back. *)
Lemma ParseIP_String16 ip : length ip = 16%nat → ParseIP (IP_String ip) = Some ip.
Proof.
  intros Hl. unfold IP_String, To4. rewrite Hl. simpl.
  destruct (str_eqb_spec (take 12 ip) v4InV6Prefix) as [E|_].
  - rewrite ParseIP_ipv4_string by (rewrite length_drop; lia).
    by rewrite <- E, take_drop.
  - unfold ParseIP. rewrite ipv6_string_syntax by done.
    rewrite (ip_chars_no_byte _ x25 (ipv6_string_chars ip)) by done.
    by apply parseIPv6_string.
Qed.

Lemma ParseIP_String4 ip : length ip = 4%nat → ParseIP (IP_String ip) = Some (v4InV6Prefix ++ ip).
Proof. intros Hl. unfold IP_String, To4. rewrite Hl. by apply ParseIP_ipv4_string. Qed.

Lemma To4_mapped ip : length ip = 4%nat → To4 (v4InV6Prefix ++ ip) = Some ip.
Proof.
  intros Hl. unfold To4. rewrite length_app, Hl. simpl. by rewrite drop_0.
Qed.

Lemma To4_length ip p : To4 ip = Some p → length p = 4%nat.
Proof.
  unfold To4. destruct (Nat.eqb_spec (length ip) 4) as [E|_]; [by intros [= <-]|].
  destruct (Nat.eqb_spec (length ip) 16) as [E|_]; simpl; [|done].
  destruct (_ =?s _); [|done]. intros [= <-]. rewrite length_drop. lia.
Qed.

(** *** Parsed addresses have 16 bytes *)

Lemma ipv4_loop_length s val n fields ip :
  (length fields <= 3)%nat → ipv4_loop s val n fields = Some ip → length ip = 4%nat.
Proof.
  revert val n fields. induction s as [|c s IH]; intros val n fields Hl; cbn [ipv4_loop].
  - destruct (Nat.ltb_spec (length fields) 3); [done|]. intros [= <-].
    rewrite length_app. simpl. lia.
  - destruct (is_digit c).
    + destruct (_ && _); [done|]. destruct (_ >? _); [done|]. by apply IH.
    + destruct (Byte.eqb c x2e); [|done]. destruct (_ || _); [done|].
      destruct (Nat.eqb_spec (length fields) 3); [done|].
      apply IH. rewrite length_app. simpl. lia.
Qed.

Lemma ipv6_loop_length fuel s ip ell rest ip' ell' :
  ipv6_loop fuel s ip ell = Some (rest, ip', ell') →
  (length ip + 2 * fuel <= 16)%nat → (∀ e, ell = Some e → (e <= length ip)%nat) →
  (length ip' <= 16)%nat ∧ (∀ e, ell' = Some e → (e <= length ip')%nat).
Proof.
  revert s ip ell. induction fuel as [|fuel IH]; intros s ip ell; cbn [ipv6_loop].
  - intros [= <- <- <-]. split; [lia|done].
  - destruct (span_hex s) as [ds r]. destruct (_ || _); [done|]. intros H Hl He.
    assert (length (ip ++ group_bytes (hex_value ds)) = 2 + length ip)%nat as Hn
      by (rewrite length_app; simpl; lia).
    set (ip2 := ip ++ group_bytes (hex_value ds)) in *. clearbody ip2.
    assert (∀ e, ell = Some e → (e <= length ip2)%nat) as He2
      by (intros e Ee; specialize (He e Ee); lia).
    destruct r as [|c r]; [injection H as <- <- <-; split; [lia|done]|].
    destruct (Byte.eqb c x2e).
    + destruct (_ || _) eqn:Eb in H; [done|]. apply orb_false_iff in Eb as [_ Eb%Nat.ltb_ge].
      destruct (parseIPv4 s) as [f|] eqn:Ef; [|done]. injection H as <- <- <-.
      apply ipv4_loop_length in Ef; [|simpl; lia]. rewrite length_app, Ef.
      split; [lia|]. intros e Ee. specialize (He e Ee). lia.
    + destruct (Byte.eqb c x3a); [|done]. destruct r as [|c2 r2]; [done|].
      destruct (Byte.eqb c2 x3a).
      * destruct ell; [done|].
        destruct r2; [injection H as <- <- <-|eapply IH; [exact H|lia|]];
          [split; [lia|]|]; intros e [= <-]; lia.
      * eapply IH; [exact H|lia|done].
Qed.

Lemma ipv6_expand_length s ell ip :
  (∀ e, ell = Some e → (e <= 0)%nat) →
  ipv6_expand (ipv6_loop 8 s [] ell) = Some ip → length ip = 16%nat.
Proof.
  intros He. destruct (ipv6_loop 8 s [] ell) as [[[rest ip'] ell']|] eqn:E; [|done].
  apply ipv6_loop_length in E as [Hl He']; [|simpl; lia|done].
  simpl. destruct rest; [|done].
  destruct (Nat.ltb_spec (length ip') 16).
  - destruct ell' as [e|]; [|done]. intros [= <-]. specialize (He' e eq_refl).
    rewrite !length_app, length_take, length_drop, length_replicate. lia.
  - destruct ell'; [done|]. intros [= <-]. lia.
Qed.

Lemma parseIPv6_length s ip : parseIPv6 s = Some ip → length ip = 16%nat.
Proof.
  assert (match s with x3a :: x3a :: _ => False | _ => True end → parseIPv6 s = Some ip →
    length ip = 16%nat) as Hno.
  { intros Hs. rewrite parseIPv6_no_lead by done. by apply ipv6_expand_length. }
  destruct s as [|b [|c s]]; [by apply Hno|apply Hno; by destruct b|].
  destruct (decide (b = x3a ∧ c = x3a)) as [[-> ->]|Hn].
  - cbn [parseIPv6]. destruct s; [by intros [= <-]|]. apply ipv6_expand_length. by intros e [= <-].
  - apply Hno. destruct b; try done. destruct c; try done. by apply Hn.
Qed.

Lemma ParseIP_length s ip : ParseIP s = Some ip → length ip = 16%nat.
Proof.
  unfold ParseIP. destruct (ip_syntax s) as [[]|]; try done.
  - destruct (parseIPv4 s) as [f|] eqn:E; simpl; [|done]. intros [= <-].
    apply ipv4_loop_length in E; [|simpl; lia]. simpl. lia.
  - destruct (has_byte s x25); [done|]. apply parseIPv6_length.
Qed.

#[export] Hint Resolve IP_String_chars ParseIP_length : go.

(** ** [net.IPNet]: prefixes and classes of addresses

    [net.ParseCIDR], masking, [IPNet.Contains] and [IPNet.String], and the
    predicates of [net.IP] that classify addresses. *)

Local Open Scope Z_scope.

(** [net.dtoi] on a whole string: decimal digits only, below [0xFFFFFF]. *)
Fixpoint dtoi_loop (s : list byte) (n : Z) : option Z :=
  match s with
  | [] => Some n
  | c :: s =>
      if is_digit c then
        let n := n * 10 + digit_val c in
        if n >=? 0xFFFFFF then None else dtoi_loop s n
      else None
  end.
Definition dtoi (s : gostring) : option Z :=
  match s with [] => None | _ => dtoi_loop s 0 end.

Definition zip_and (ip mask : list byte) : list byte := zip_with and_byte ip mask.

(** [IP.Mask]; [None] is Go's nil. *)
Definition IP_Mask (ip : IP) (mask : list byte) : option IP :=
  let mask := if (length mask =? 16)%nat && (length ip =? 4)%nat
                 && forallb (λ b, Byte.eqb b xff) (take 12 mask) then drop 12 mask else mask in
  let ip := if (length mask =? 4)%nat && (length ip =? 16)%nat && (take 12 ip =?s v4InV6Prefix)
            then drop 12 ip else ip in
  if (length ip =? length mask)%nat then Some (zip_and ip mask) else None.

Record IPNetwork := mkIPNetwork { net_IP : IP; net_Mask : list byte }.

Definition ParseCIDR (s : gostring) : option (IP * IPNetwork) :=
  '(addr, mask) ← Cut s x2f;
  ip ← ParseIP addr;
  n ← dtoi mask;
  let bitlen := if match ip_syntax addr with Some x2e => true | _ => false end then 32 else 128 in
  if n >? bitlen then None
  else
    let m := CIDRMask n bitlen in
    net ← IP_Mask ip m;
    Some (ip, mkIPNetwork net m).

Definition networkNumberAndMask (n : IPNetwork) : option (IP * list byte) :=
  ip ← match To4 (net_IP n) with
       | Some ip => Some ip
       | None => if (length (net_IP n) =? 16)%nat then Some (net_IP n) else None
       end;
  let m := net_Mask n in
  if (length m =? 4)%nat then if (length ip =? 4)%nat then Some (ip, m) else None
  else if (length m =? 16)%nat then Some (ip, if (length ip =? 4)%nat then drop 12 m else m)
  else None.

Definition IPNet_Contains (n : IPNetwork) (ip : IP) : bool :=
  let ip := default ip (To4 ip) in
  match networkNumberAndMask n with
  | None => (length ip =? 0)%nat
  | Some (nn, m) => (length ip =? length nn)%nat && (zip_and nn m =?s zip_and ip m)
  end.

(** Leading one bits of a mask whose other bits are zero. *)
Fixpoint byte_ones (fuel : nat) (v : Z) : option Z :=
  match fuel with
  | O => if v =? 0 then Some 0 else None
  | S fuel => if Z.testbit v 7 then (λ n, n + 1) <$> byte_ones fuel (Z.shiftl v 1 mod 256)
              else if v =? 0 then Some 0 else None
  end.

Fixpoint simpleMaskLength (m : list byte) : option Z :=
  match m with
  | [] => Some 0
  | b :: m =>
      if Byte.eqb b xff then (λ n, n + 8) <$> simpleMaskLength m
      else n ← byte_ones 8 (bz b); if forallb (λ c, Byte.eqb c x00) m then Some n else None
  end.

(** [IPNet.String] for a canonical mask; other masks are printed in hexadecimal. *)
Definition IPNet_String (n : IPNetwork) : gostring :=
  match networkNumberAndMask n with
  | None => "<nil>"
  | Some (nn, m) =>
      match simpleMaskLength m with
      | Some l => IP_String nn ++ "/" ++ Itoa l
      | None => IP_String nn ++ "/" ++ GoEncoding.hex_EncodeToString m
      end
  end.

(** ** Classes of addresses *)

Definition IP_Equal (ip x : IP) : bool := default ip (To16 ip) =?s default x (To16 x).

Definition IsUnspecified (ip : IP) : bool :=
  IP_Equal ip (v4InV6Prefix ++ [x00; x00; x00; x00]) || IP_Equal ip (replicate 16 x00).

Definition IsLoopback (ip : IP) : bool :=
  match To4 ip with
  | Some (b :: _) => Byte.eqb b x7f
  | _ => IP_Equal ip (replicate 15 x00 ++ [x01])
  end.

Definition IsMulticast (ip : IP) : bool :=
  match To4 ip with
  | Some (b :: _) => Z.land (bz b) 0xf0 =? 0xe0
  | _ => (length ip =? 16)%nat && match ip with b :: _ => Byte.eqb b xff | [] => false end
  end.

Definition IsLinkLocalUnicast (ip : IP) : bool :=
  match To4 ip with
  | Some (a :: b :: _) => Byte.eqb a xa9 && Byte.eqb b xfe
  | _ => (length ip =? 16)%nat
         && match ip with a :: b :: _ => Byte.eqb a xfe && (Z.land (bz b) 0xc0 =? 0x80) | _ => false end
  end.

Example ParseCIDR_examples :
  map (λ s, IPNet_String ∘ snd <$> ParseCIDR s)
    ["10.1.2.3/8"; "fe80::1/10"; "1.2.3.4/33"; "::ffff:1.2.3.4/120"; "1.2.3.4"; "0.0.0.0/0"]
  = [Some "10.0.0.0/8"; Some "fe80::/10"; None; Some "1.2.3.0/24"; None; Some "0.0.0.0/0"].
Proof. vm_compute. reflexivity. Qed.
