(* ===== verification/Conf.v ===== *)
(** * Tunnel configurations ([core/conf/config.go])

    The data types of a tunnel configuration and their methods.  [net.IP]
    values are byte slices shared between copies of the structs that hold
    them; methods that write through such a slice ([MaskSelf], and through it
    [IntersectsWith]) return the updated owner. *)
From S2P Require Import Prelude GoStrings GoStrconv GoEncoding GoNet.

Local Open Scope Z_scope.

Definition KeyLength : nat := 32.

Record IPCidr := mkIPCidr { IPof : IP; Cidr : Z }.

Record Endpoint := mkEndpoint { Host : gostring; Port : Z }.

Definition Key : Set := list byte.
Definition zeroKey : Key := replicate KeyLength x00.

Record Interface := mkInterface {
  PrivateKey : Key;
  Addresses : list IPCidr;
  ListenPort : Z;
  MTU : Z;
  DNS : list IP;
  DNSSearch : list gostring;
  PreUp : gostring;
  PostUp : gostring;
  PreDown : gostring;
  PostDown : gostring;
  TableOff : bool;
  JunkPacketCount : Z;
  JunkPacketMinSize : Z;
  JunkPacketMaxSize : Z;
  InitPacketJunkSize : Z;
  ResponsePacketJunkSize : Z;
  CookieReplyPacketJunkSize : Z;
  TransportPacketJunkSize : Z;
  InitPacketMagicHeader : gostring;
  ResponsePacketMagicHeader : gostring;
  UnderloadPacketMagicHeader : gostring;
  TransportPacketMagicHeader : gostring;
  HeaderProtectionKey : Key;
  ContentPaddingAddition : gostring;
  RekeyAfterTime : gostring;
  RekeyTimeout : gostring;
  RejectAfterTime : gostring;
  KeepaliveTimeout : gostring;
  MaxHandshakeAttempts : gostring;
  RandomTrailers : gostring;
  DisableCookies : gostring;
  IPackets : option (gmap gostring gostring);
}.

Record Peer := mkPeer {
  PublicKey : Key;
  PresharedKey : Key;
  AllowedIPs : list IPCidr;
  PeerEndpoint : Endpoint;
  PersistentKeepalive : gostring;
  RxBytes : Z;
  TxBytes : Z;
  LastHandshakeTime : Z;
}.

Record Config := mkConfig { Name : gostring; Iface : Interface; Peers : list Peer }.

(** Go's zero values. *)
Definition zeroEndpoint : Endpoint := mkEndpoint [] 0.
Definition zeroInterface : Interface :=
  mkInterface zeroKey [] 0 0 [] [] [] [] [] [] false 0 0 0 0 0 0 0 [] [] [] []
    zeroKey [] [] [] [] [] [] [] [] None.
Definition zeroPeer : Peer := mkPeer zeroKey zeroKey [] zeroEndpoint [] 0 0 0.

(** ** Field assignment *)

Definition eta_Interface (i : Interface) : Interface :=
  mkInterface (PrivateKey i) (Addresses i) (ListenPort i) (MTU i) (DNS i) (DNSSearch i)
    (PreUp i) (PostUp i) (PreDown i) (PostDown i) (TableOff i) (JunkPacketCount i)
    (JunkPacketMinSize i) (JunkPacketMaxSize i) (InitPacketJunkSize i)
    (ResponsePacketJunkSize i) (CookieReplyPacketJunkSize i) (TransportPacketJunkSize i)
    (InitPacketMagicHeader i) (ResponsePacketMagicHeader i) (UnderloadPacketMagicHeader i)
    (TransportPacketMagicHeader i) (HeaderProtectionKey i) (ContentPaddingAddition i)
    (RekeyAfterTime i) (RekeyTimeout i) (RejectAfterTime i) (KeepaliveTimeout i)
    (MaxHandshakeAttempts i) (RandomTrailers i) (DisableCookies i) (IPackets i).

Definition eta_Peer (p : Peer) : Peer :=
  mkPeer (PublicKey p) (PresharedKey p) (AllowedIPs p) (PeerEndpoint p)
    (PersistentKeepalive p) (RxBytes p) (TxBytes p) (LastHandshakeTime p).

Definition eta_Config (c : Config) : Config := mkConfig (Name c) (Iface c) (Peers c).

#[export] Instance set_PrivateKey : Setter PrivateKey := ltac:(derive_setter eta_Interface PrivateKey).
#[export] Instance set_Addresses : Setter Addresses := ltac:(derive_setter eta_Interface Addresses).
#[export] Instance set_ListenPort : Setter ListenPort := ltac:(derive_setter eta_Interface ListenPort).
#[export] Instance set_MTU : Setter MTU := ltac:(derive_setter eta_Interface MTU).
#[export] Instance set_DNS : Setter DNS := ltac:(derive_setter eta_Interface DNS).
#[export] Instance set_DNSSearch : Setter DNSSearch := ltac:(derive_setter eta_Interface DNSSearch).
#[export] Instance set_PreUp : Setter PreUp := ltac:(derive_setter eta_Interface PreUp).
#[export] Instance set_PostUp : Setter PostUp := ltac:(derive_setter eta_Interface PostUp).
#[export] Instance set_PreDown : Setter PreDown := ltac:(derive_setter eta_Interface PreDown).
#[export] Instance set_PostDown : Setter PostDown := ltac:(derive_setter eta_Interface PostDown).
#[export] Instance set_TableOff : Setter TableOff := ltac:(derive_setter eta_Interface TableOff).
#[export] Instance set_JunkPacketCount : Setter JunkPacketCount := ltac:(derive_setter eta_Interface JunkPacketCount).
#[export] Instance set_JunkPacketMinSize : Setter JunkPacketMinSize := ltac:(derive_setter eta_Interface JunkPacketMinSize).
#[export] Instance set_JunkPacketMaxSize : Setter JunkPacketMaxSize := ltac:(derive_setter eta_Interface JunkPacketMaxSize).
#[export] Instance set_InitPacketJunkSize : Setter InitPacketJunkSize := ltac:(derive_setter eta_Interface InitPacketJunkSize).
#[export] Instance set_ResponsePacketJunkSize : Setter ResponsePacketJunkSize := ltac:(derive_setter eta_Interface ResponsePacketJunkSize).
#[export] Instance set_CookieReplyPacketJunkSize : Setter CookieReplyPacketJunkSize := ltac:(derive_setter eta_Interface CookieReplyPacketJunkSize).
#[export] Instance set_TransportPacketJunkSize : Setter TransportPacketJunkSize := ltac:(derive_setter eta_Interface TransportPacketJunkSize).
#[export] Instance set_InitPacketMagicHeader : Setter InitPacketMagicHeader := ltac:(derive_setter eta_Interface InitPacketMagicHeader).
#[export] Instance set_ResponsePacketMagicHeader : Setter ResponsePacketMagicHeader := ltac:(derive_setter eta_Interface ResponsePacketMagicHeader).
#[export] Instance set_UnderloadPacketMagicHeader : Setter UnderloadPacketMagicHeader := ltac:(derive_setter eta_Interface UnderloadPacketMagicHeader).
#[export] Instance set_TransportPacketMagicHeader : Setter TransportPacketMagicHeader := ltac:(derive_setter eta_Interface TransportPacketMagicHeader).
#[export] Instance set_HeaderProtectionKey : Setter HeaderProtectionKey := ltac:(derive_setter eta_Interface HeaderProtectionKey).
#[export] Instance set_ContentPaddingAddition : Setter ContentPaddingAddition := ltac:(derive_setter eta_Interface ContentPaddingAddition).
#[export] Instance set_RekeyAfterTime : Setter RekeyAfterTime := ltac:(derive_setter eta_Interface RekeyAfterTime).
#[export] Instance set_RekeyTimeout : Setter RekeyTimeout := ltac:(derive_setter eta_Interface RekeyTimeout).
#[export] Instance set_RejectAfterTime : Setter RejectAfterTime := ltac:(derive_setter eta_Interface RejectAfterTime).
#[export] Instance set_KeepaliveTimeout : Setter KeepaliveTimeout := ltac:(derive_setter eta_Interface KeepaliveTimeout).
#[export] Instance set_MaxHandshakeAttempts : Setter MaxHandshakeAttempts := ltac:(derive_setter eta_Interface MaxHandshakeAttempts).
#[export] Instance set_RandomTrailers : Setter RandomTrailers := ltac:(derive_setter eta_Interface RandomTrailers).
#[export] Instance set_DisableCookies : Setter DisableCookies := ltac:(derive_setter eta_Interface DisableCookies).
#[export] Instance set_IPackets : Setter IPackets := ltac:(derive_setter eta_Interface IPackets).

#[export] Instance set_PublicKey : Setter PublicKey := ltac:(derive_setter eta_Peer PublicKey).
#[export] Instance set_PresharedKey : Setter PresharedKey := ltac:(derive_setter eta_Peer PresharedKey).
#[export] Instance set_AllowedIPs : Setter AllowedIPs := ltac:(derive_setter eta_Peer AllowedIPs).
#[export] Instance set_PeerEndpoint : Setter PeerEndpoint := ltac:(derive_setter eta_Peer PeerEndpoint).
#[export] Instance set_PersistentKeepalive : Setter PersistentKeepalive := ltac:(derive_setter eta_Peer PersistentKeepalive).
#[export] Instance set_RxBytes : Setter RxBytes := ltac:(derive_setter eta_Peer RxBytes).
#[export] Instance set_TxBytes : Setter TxBytes := ltac:(derive_setter eta_Peer TxBytes).
#[export] Instance set_LastHandshakeTime : Setter LastHandshakeTime := ltac:(derive_setter eta_Peer LastHandshakeTime).

#[export] Instance set_Iface : Setter Iface := ltac:(derive_setter eta_Config Iface).
#[export] Instance set_Peers : Setter Peers := ltac:(derive_setter eta_Config Peers).

(** ** Methods *)

Definition IPCidr_String (r : IPCidr) : gostring := IP_String (IPof r) ++ "/" ++ Itoa (Cidr r).

Definition Bits (r : IPCidr) : Z := match To4 (IPof r) with Some _ => 32 | None => 128 end.

(** [net.IPNet] as address and mask; [net.CIDRMask] is nil outside [0..bits]. *)
Definition IPNet (r : IPCidr) : IP * option (list byte) :=
  (IPof r, if (0 <=? Cidr r) && (Cidr r <=? Bits r) then Some (CIDRMask (Cidr r) (Bits r)) else None).

(** [r.IP[i] &= mask[i]] for [i < bits/8]; an index out of range panics. *)
Definition MaskSelf (r : IPCidr) : outcome IPCidr :=
  match IPNet r with
  | (ip, Some mask) =>
      let n := Z.to_nat (Bits r / 8) in
      if (length ip <? n)%nat then Panic
      else Ret (mkIPCidr (zip_with and_byte (take n ip) (take n mask) ++ drop n ip) (Cidr r))
  | (_, None) => Panic
  end.

(** Keys of the route table: address bytes and prefix length. *)
Definition hashableIPCidr : Set := gostring * Z.

Definition host_route (a : IPCidr) : hashableIPCidr :=
  (IPof a, u8 (Z.of_nat (length (IPof a)) * 8)).
Definition net_route (a : IPCidr) : hashableIPCidr := (IPof a, Cidr a).

(** First pass of [IntersectsWith]: collect the routes of [conf].  [MaskSelf]
    writes into the address slices of [conf], so the entries come back masked. *)
Fixpoint collect_addresses (l : list IPCidr) (routes : gset hashableIPCidr)
    : outcome (gset hashableIPCidr * list IPCidr) :=
  match l with
  | [] => Ret (routes, [])
  | a :: l =>
      let routes := {[host_route a]} ∪ routes in
      a' ← MaskSelf a;
      '(routes, l') ← collect_addresses l ({[net_route a']} ∪ routes);
      Ret (routes, a' :: l')
  end.

Fixpoint collect_allowed (l : list IPCidr) (routes : gset hashableIPCidr)
    : outcome (gset hashableIPCidr * list IPCidr) :=
  match l with
  | [] => Ret (routes, [])
  | a :: l =>
      a' ← MaskSelf a;
      '(routes, l') ← collect_allowed l ({[net_route a']} ∪ routes);
      Ret (routes, a' :: l')
  end.

Fixpoint collect_peers (l : list Peer) (routes : gset hashableIPCidr)
    : outcome (gset hashableIPCidr * list Peer) :=
  match l with
  | [] => Ret (routes, [])
  | p :: l =>
      '(routes, ips) ← collect_allowed (AllowedIPs p) routes;
      '(routes, l') ← collect_peers l routes;
      Ret (routes, p <| AllowedIPs := ips |> :: l')
  end.

(** Second pass: look the routes of [other] up, stopping at the first hit;
    entries visited before the hit come back masked. *)
Fixpoint check_addresses (l : list IPCidr) (routes : gset hashableIPCidr)
    : outcome (bool * list IPCidr) :=
  match l with
  | [] => Ret (false, [])
  | a :: l =>
      if bool_decide (host_route a ∈ routes) then Ret (true, a :: l)
      else
        a' ← MaskSelf a;
        if bool_decide (net_route a' ∈ routes) then Ret (true, a' :: l)
        else '(found, l') ← check_addresses l routes; Ret (found, a' :: l')
  end.

Fixpoint check_allowed (l : list IPCidr) (routes : gset hashableIPCidr)
    : outcome (bool * list IPCidr) :=
  match l with
  | [] => Ret (false, [])
  | a :: l =>
      a' ← MaskSelf a;
      if bool_decide (net_route a' ∈ routes) then Ret (true, a' :: l)
      else '(found, l') ← check_allowed l routes; Ret (found, a' :: l')
  end.

Fixpoint check_peers (l : list Peer) (routes : gset hashableIPCidr) : outcome (bool * list Peer) :=
  match l with
  | [] => Ret (false, [])
  | p :: l =>
      '(found, ips) ← check_allowed (AllowedIPs p) routes;
      let p' := p <| AllowedIPs := ips |> in
      if (found : bool) then Ret (true, p' :: l)
      else '(found, l') ← check_peers l routes; Ret (found, p' :: l')
  end.

(** The answer, and both configurations as the calls to [MaskSelf] leave them. *)
Definition IntersectsWith (conf other : Config) : outcome (bool * Config * Config) :=
  '(routes, addrs) ← collect_addresses (Addresses (Iface conf)) ∅;
  '(routes, peers) ← collect_peers (Peers conf) routes;
  let conf' := conf <| Iface := Iface conf <| Addresses := addrs |> |> <| Peers := peers |> in
  '(found, oaddrs) ← check_addresses (Addresses (Iface other)) routes;
  let other' := other <| Iface := Iface other <| Addresses := oaddrs |> |> in
  if (found : bool) then Ret (true, conf', other')
  else
    '(found, opeers) ← check_peers (Peers other) routes;
    Ret (found, conf', other' <| Peers := opeers |>).

Definition Endpoint_String (e : Endpoint) : gostring :=
  match IndexByte (Host e) ":"%byte with
  | Some _ => "[" ++ Host e ++ "]:" ++ Itoa (Port e)
  | None => Host e ++ ":" ++ Itoa (Port e)
  end.

Definition Endpoint_IsEmpty (e : Endpoint) : bool :=
  match Host e with [] => true | _ => false end.

Definition Key_String (k : Key) : gostring := b64_EncodeToString k.
Definition HexString (k : Key) : gostring := hex_EncodeToString k.
Definition Key_IsZero (k : Key) : bool := zeroKey =?s k.

(** [rand.Read] fills a 32-byte array or reports an error; its result is [r]. *)
Definition NewPresharedKey (r : outcome Key) : outcome Key := r.

Definition clamp (k : Key) : Key :=
  match k with
  | b0 :: rest =>
      let k := zb (Z.land (bz b0) 248) :: rest in
      match k !! 31%nat with
      | Some b31 => <[31%nat := zb (Z.lor (Z.land (bz b31) 127) 64)]> k
      | None => k
      end
  | [] => []
  end.

Definition NewPrivateKey (r : outcome Key) : outcome Key :=
  k ← NewPresharedKey r; Ret (clamp k).

(** [HandshakeTime.String] up to the localised wording: [now] is the current
    Unix time in seconds. *)
Inductive TimeUnit := Years | Days | Hours | Minutes | Seconds.
Inductive TimeAgo := Now | ClockWoundBackward | Ago (parts : list (TimeUnit * Z)).

Definition time_part (u : TimeUnit) (n : Z) : list (TimeUnit * Z) :=
  if n >? 0 then [(u, n)] else [].

Definition HandshakeTime_String (t now : Z) : TimeAgo :=
  let u := t / 1000000000 in
  if u =? now then Now else if u >? now then ClockWoundBackward
  else
    let left := now - u in
    let years := left / (365 * 24 * 60 * 60) in
    let left := left mod (365 * 24 * 60 * 60) in
    let days := left / (24 * 60 * 60) in
    let left := left mod (24 * 60 * 60) in
    let hours := left / (60 * 60) in
    let left := left mod (60 * 60) in
    let minutes := left / 60 in
    let seconds := left mod 60 in
    Ago (time_part Years years ++ time_part Days days ++ time_part Hours hours
         ++ time_part Minutes minutes ++ time_part Seconds seconds).

Definition HandshakeTime_IsEmpty (t : Z) : bool := t =? 0.

(** In-place compaction of a slice, keeping the first entry of each printed form. *)
Fixpoint dedup_by {A} (key : A → gostring) (seen : gset gostring) (l : list A) : list A :=
  match l with
  | [] => []
  | a :: l =>
      if bool_decide (key a ∈ seen) then dedup_by key seen l
      else a :: dedup_by key ({[key a]} ∪ seen) l
  end.

Definition DeduplicateNetworkEntries (conf : Config) : Config :=
  let i := Iface conf in
  let i := i <| Addresses := dedup_by IPCidr_String ∅ (Addresses i) |> in
  let i := i <| DNS := dedup_by IP_String ∅ (DNS i) |> in
  conf <| Iface := i |>
       <| Peers := map (λ p, p <| AllowedIPs := dedup_by IPCidr_String ∅ (AllowedIPs p) |>) (Peers conf) |>.

Definition Redact (conf : Config) : Config :=
  conf <| Iface := Iface conf <| PrivateKey := zeroKey |> <| HeaderProtectionKey := zeroKey |> |>
       <| Peers := map (λ p, p <| PublicKey := zeroKey |> <| PresharedKey := zeroKey |>) (Peers conf) |>.
