(* ===== verification/TunnelName.v ===== *)
(** * Tunnel names ([core/conf/name.go])

    Which names are accepted, and the natural order tunnels are listed in. *)
From S2P Require Import Prelude GoStrings GoStrconv.

Local Open Scope Z_scope.

Definition reservedNames : list gostring :=
  ["CON"; "PRN"; "AUX"; "NUL";
   "COM1"; "COM2"; "COM3"; "COM4"; "COM5"; "COM6"; "COM7"; "COM8"; "COM9";
   "LPT1"; "LPT2"; "LPT3"; "LPT4"; "LPT5"; "LPT6"; "LPT7"; "LPT8"; "LPT9"].

Definition serviceNameForbidden : gostring := "$".
Definition netshellDllForbidden : gostring := "\/:*?" ++ [x22] ++ "<>|" ++ [x09].
Definition specialChars : gostring :=
  "/\<>:" ++ [x22] ++ "|?*" ++ map (λ n, zb (Z.of_nat n)) (seq 1 31) ++ [x00].

(** [[a-zA-Z0-9_=+.-]]. *)
Definition name_char (b : byte) : bool :=
  in_range 97 122 b || in_range 65 90 b || is_digit b || has_byte "_=+.-" b.

Definition allowedNameFormat (name : gostring) : bool :=
  forallb name_char name && (1 <=? length name)%nat && (length name <=? 32)%nat.

Section Names.
Context {RT : GoRuntime}.

Definition isReserved (name : gostring) : bool :=
  match name with [] => false | _ => existsb (EqualFold name) reservedNames end.

Definition hasSpecialChars (name : gostring) : bool :=
  ContainsAny name specialChars || ContainsAny name netshellDllForbidden
  || ContainsAny name serviceNameForbidden.

Definition TunnelNameIsValid (name : gostring) : bool :=
  if isReserved name || hasSpecialChars name then false else allowedNameFormat name.

(** ** Natural sort *)

Record naturalSortToken := mkToken { maybeString : gostring; maybeNumber : Z }.

(** Maximal runs of digits and of non-digits, as [FindAllString] of [\d+|\D+]. *)
Fixpoint digit_runs (s : list byte) : list gostring :=
  match s with
  | [] => []
  | b :: s =>
      match digit_runs s with
      | [] => [[b]]
      | [] :: ws => [b] :: ws
      | (c :: w) :: ws =>
          if Bool.eqb (is_digit b) (is_digit c) then (b :: c :: w) :: ws
          else [b] :: (c :: w) :: ws
      end
  end.

Definition token_of (s : gostring) : naturalSortToken :=
  match Atoi s with Ret n => mkToken [] n | _ => mkToken s 0 end.

Definition newNaturalSortString (s : gostring) : list naturalSortToken :=
  map token_of (digit_runs (ToLower (Join (Fields s) " "))).

(** Byte-wise lexicographic order, Go's [<] on strings. *)
Fixpoint str_compare (s t : list byte) : comparison :=
  match s, t with
  | [], [] => Eq
  | [], _ => Lt
  | _, [] => Gt
  | a :: s, b :: t => match Z.compare (bz a) (bz b) with Eq => str_compare s t | c => c end
  end.

(** [-1], [0], [1] as [Lt], [Eq], [Gt]. *)
Definition Cmp (f1 f2 : naturalSortToken) : comparison :=
  if maybeString f1 =?s [] then
    if negb (maybeString f2 =?s []) || (maybeNumber f1 <? maybeNumber f2) then Lt
    else if maybeNumber f1 >? maybeNumber f2 then Gt else Eq
  else if (maybeString f2 =?s []) || bool_decide (str_compare (maybeString f1) (maybeString f2) = Gt)
  then Gt
  else if bool_decide (str_compare (maybeString f1) (maybeString f2) = Lt) then Lt
  else Eq.

(** The comparison loop over [nb.tokens]. *)
Fixpoint tokens_less (na nb : list naturalSortToken) : bool :=
  match nb with
  | [] => false
  | t :: nb =>
      match na with
      | [] => true
      | f :: na =>
          match Cmp f t with
          | Lt => true
          | Gt => false
          | Eq => tokens_less na nb
          end
      end
  end.

Definition TunnelNameIsLess (a b : gostring) : bool :=
  if a =?s b then false else tokens_less (newNaturalSortString a) (newNaturalSortString b).
End Names.

(** ** Tunnel names: what is valid, and that the list order is a strict weak order *)
From S2P Require Import GoNet.

Local Open Scope Z_scope.

(** ** Validity *)

Section Validity.
Context {RT : GoRuntime}.

Lemma name_char_ascii b : name_char b = true → is_ascii b = true ∧
  has_byte specialChars b = false ∧ has_byte netshellDllForbidden b = false ∧ has_byte serviceNameForbidden b = false.
Proof.
  by_bytes (λ b, implb (name_char b) (is_ascii b && negb (has_byte specialChars b)
    && negb (has_byte netshellDllForbidden b) && negb (has_byte serviceNameForbidden b))) b.
  intros H Hb. apply (implb_elim _ _ H) in Hb. breflect. by split_and!.
Qed.

(** ASCII letters fold to the same lower-case letter, other ASCII bytes only to themselves. *)
Lemma rune_equal_fold_ascii a b :
  is_ascii a = true → is_ascii b = true →
  rune_equal_fold (bz a) (bz b) = Byte.eqb (lower_byte a) (lower_byte b).
Proof.
  intros Ha Hb. unfold rune_equal_fold, is_ascii, RuneSelf in *. breflect.
  assert ((Z.max (bz a) (bz b) <? 128) = true) as -> by (apply Z.ltb_lt; lia).
  pose proof (byte_forall (λ a, forallb (λ b, implb ((bz a <? 128) && (bz b <? 128))
    (Bool.eqb (if bz a =? bz b then true else
       (65 <=? Z.min (bz a) (bz b)) && (Z.min (bz a) (bz b) <=? 90) && (Z.max (bz a) (bz b) =? Z.min (bz a) (bz b) + 32))
      (Byte.eqb (lower_byte a) (lower_byte b)))) all_bytes) ltac:(vm_compute; reflexivity) a) as H.
  cbv beta in H. rewrite forallb_forall in H. specialize (H b (all_bytes_complete b)).
  assert ((bz a <? 128) && (bz b <? 128) = true) as Hg by (apply andb_true_iff; split; by apply Z.ltb_lt).
  apply (implb_elim _ _ H) in Hg. by apply Bool.eqb_prop in Hg.
Qed.

Lemma EqualFold_ascii s t :
  forallb is_ascii s = true → forallb is_ascii t = true →
  EqualFold s t = true ↔ map lower_byte s = map lower_byte t.
Proof.
  assert (∀ u, forallb is_ascii u = true → runes u = map bz u) as Hr.
  { intros u Hu. pose proof (runes_ascii_app u [] Hu) as H. by rewrite !app_nil_r in H. }
  intros Hs Ht. unfold EqualFold. rewrite !Hr by done. clear Hr.
  revert t Ht. induction s as [|a s IH]; intros [|b t] Ht; cbn [map equal_fold_runes]; try by split.
  cbn in Hs, Ht. apply andb_true_iff in Hs as [Ha Hs], Ht as [Hb Ht].
  rewrite andb_true_iff, rune_equal_fold_ascii, (IH Hs t Ht) by done.
  destruct (byte_eqb_spec (lower_byte a) (lower_byte b)) as [E|E].
  - rewrite E. split; [by intros [_ ->]|]. by intros [= ->].
  - split; [by intros [? _]|]. by intros [= ? _].
Qed.

(** A tunnel name is valid exactly when it has 1 to 32 characters from
    [A-Za-z0-9_=+.-] and is not, in any letter case, a reserved Windows device
    name. *)
Theorem TunnelNameIsValid_exact name :
  TunnelNameIsValid name = true ↔
  forallb name_char name = true ∧ (1 <= length name <= 32)%nat ∧
  ∀ r, r ∈ reservedNames → map lower_byte name ≠ map lower_byte r.
Proof.
  unfold TunnelNameIsValid, allowedNameFormat.
  destruct (forallb name_char name) eqn:Hc; cycle 1.
  { cbn [andb]. split; [by destruct (_ || _)|]. by intros [? _]. }
  assert (forallb is_ascii name = true) as Ha.
  { eapply forallb_impl; [|exact Hc]. intros b Hb. by apply name_char_ascii in Hb as [? _]. }
  assert (hasSpecialChars name = false) as ->.
  { unfold hasSpecialChars, ContainsAny. rewrite forallb_forall in Hc.
    assert (∀ chars, (∀ b, name_char b = true → has_byte chars b = false) → existsb (has_byte chars) name = false) as H.
    { intros chars H. destruct (existsb _ name) eqn:E; [|done].
      apply existsb_exists in E as (b & Hin & Hb). rewrite H in Hb by auto. done. }
    rewrite !H; [done|..]; intros b Hb; by apply name_char_ascii in Hb as (? & ? & ? & ?). }
  rewrite orb_false_r. cbn [andb].
  assert (isReserved name = true ↔ ∃ r, r ∈ reservedNames ∧ map lower_byte name = map lower_byte r) as Hr.
  { assert (Forall (λ r, forallb is_ascii r = true ∧ r ≠ []) reservedNames) as Hrn
      by (apply List.Forall_forall; intros r Hin; revert r Hin; apply List.Forall_forall; repeat constructor; done).
    rewrite Forall_forall in Hrn. unfold isReserved. destruct name as [|b n]; [|].
    - split; [done|]. intros (r & Hin & E). destruct r; [by apply Hrn in Hin as [_ ?]|done].
    - rewrite existsb_exists. split.
      + intros (r & Hin & E). apply list_elem_of_In in Hin. exists r. split; [done|].
        apply EqualFold_ascii in E; [done..|by apply Hrn in Hin as [? _]].
      + intros (r & Hin & E). exists r. split; [by apply list_elem_of_In|].
        apply EqualFold_ascii; [done|by apply Hrn in Hin as [? _]|done]. }
  destruct (isReserved name).
  - split; [done|]. intros (_ & _ & H). destruct (proj1 Hr eq_refl) as (r & Hin & E). by destruct (H r Hin).
  - rewrite andb_true_iff, !Nat.leb_le. split.
    + intros ?. split_and!; [done|lia|lia|]. intros r Hin E.
      assert (false = true) by (apply Hr; eauto). done.
    + by intros (_ & ? & _).
Qed.
End Validity.

(** ** Order *)

(** Bytewise comparison is a total order. *)
Lemma str_compare_eq s t : str_compare s t = Eq ↔ s = t.
Proof.
  revert t. induction s as [|a s IH]; intros [|b t]; cbn; try done.
  destruct (Z.compare_spec (bz a) (bz b)) as [E|E|E].
  - apply bz_inj in E as ->. rewrite IH. split; [by intros ->|by intros [= ->]].
  - split; [done|]. intros [= -> _]. lia.
  - split; [done|]. intros [= -> _]. lia.
Qed.

Lemma str_compare_antisym s t : str_compare t s = CompOpp (str_compare s t).
Proof.
  revert t. induction s as [|a s IH]; intros [|b t]; cbn; try done.
  rewrite (Z.compare_antisym (bz a) (bz b)). destruct (bz a ?= bz b); cbn; auto.
Qed.

Lemma str_compare_lt_trans s t u : str_compare s t = Lt → str_compare t u = Lt → str_compare s u = Lt.
Proof.
  revert t u. induction s as [|a s IH]; intros [|b t] [|c u]; cbn; try done.
  destruct (Z.compare_spec (bz a) (bz b)) as [E|E|E]; [|intros _|done].
  - rewrite E. destruct (bz b ?= bz c); eauto.
  - destruct (Z.compare_spec (bz b) (bz c)) as [E'|E'|E']; intros H; try done;
      rewrite (proj2 (Z.compare_lt_iff _ _)); done || lia.
Qed.

(** What [Cmp] compares: numbers before strings. *)
Inductive token_key := KNum (n : Z) | KStr (s : gostring).
Definition key_of (t : naturalSortToken) : token_key :=
  if maybeString t =?s [] then KNum (maybeNumber t) else KStr (maybeString t).
Definition key_compare (a b : token_key) : comparison :=
  match a, b with
  | KNum m, KNum n => m ?= n
  | KNum _, KStr _ => Lt
  | KStr _, KNum _ => Gt
  | KStr s, KStr t => str_compare s t
  end.

Lemma Cmp_key a b : Cmp a b = key_compare (key_of a) (key_of b).
Proof.
  unfold Cmp, key_of. destruct (maybeString a =?s []), (maybeString b =?s []); cbn; [|done..|].
  - rewrite Z.gtb_ltb. destruct (Z.compare_spec (maybeNumber a) (maybeNumber b)) as [E|E|E].
    + by rewrite E, Z.ltb_irrefl.
    + by rewrite (proj2 (Z.ltb_lt _ _)).
    + by rewrite (proj2 (Z.ltb_ge _ _)), (proj2 (Z.ltb_lt (maybeNumber b) _)) by lia.
  - by destruct (str_compare (maybeString a) (maybeString b)).
Qed.

Lemma key_compare_eq a b : key_compare a b = Eq ↔ a = b.
Proof.
  destruct a, b; cbn; try done.
  - rewrite Z.compare_eq_iff. split; [by intros ->|by intros [= ->]].
  - rewrite str_compare_eq. split; [by intros ->|by intros [= ->]].
Qed.

Lemma key_compare_lt_trans a b c : key_compare a b = Lt → key_compare b c = Lt → key_compare a c = Lt.
Proof.
  destruct a, b, c; cbn; try done.
  - rewrite !Z.compare_lt_iff. lia.
  - apply str_compare_lt_trans.
Qed.

Lemma key_compare_antisym a b : key_compare b a = CompOpp (key_compare a b).
Proof. destruct a, b; cbn; try done; [apply Z.compare_antisym|apply str_compare_antisym]. Qed.

(** Lexicographic order on keys. *)
Fixpoint keys_less (na nb : list token_key) : bool :=
  match nb, na with
  | [], _ => false
  | _ :: _, [] => true
  | t :: nb, f :: na =>
      match key_compare f t with Lt => true | Gt => false | Eq => keys_less na nb end
  end.

Lemma tokens_less_keys na nb : tokens_less na nb = keys_less (map key_of na) (map key_of nb).
Proof.
  revert na. induction nb as [|t nb IH]; intros [|f na]; cbn; try done.
  rewrite Cmp_key. destruct (key_compare _ _); auto.
Qed.

Lemma keys_less_irrefl l : keys_less l l = false.
Proof. induction l as [|x l IH]; cbn; [done|]. by rewrite (proj2 (key_compare_eq x x) eq_refl). Qed.

Lemma keys_less_trans a b c : keys_less a b = true → keys_less b c = true → keys_less a c = true.
Proof.
  revert b c. induction a as [|x a IH]; intros [|y b] [|z c]; cbn; try done.
  destruct (key_compare x y) eqn:E1; try done.
  - apply key_compare_eq in E1 as ->. destruct (key_compare y z); eauto.
  - intros _. destruct (key_compare y z) eqn:E2; try done; intros _.
    + apply key_compare_eq in E2 as ->. by rewrite E1.
    + by rewrite (key_compare_lt_trans _ _ _ E1 E2).
Qed.

Lemma keys_less_total a b : keys_less a b = false → keys_less b a = false → a = b.
Proof.
  revert b. induction a as [|x a IH]; intros [|y b]; cbn; try done.
  rewrite (key_compare_antisym x y). destruct (key_compare x y) eqn:E; cbn; try done.
  apply key_compare_eq in E as ->. intros. f_equal. by apply IH.
Qed.

Section Order.
Context {RT : GoRuntime}.

Definition name_keys (s : gostring) : list token_key := map key_of (newNaturalSortString s).

Lemma TunnelNameIsLess_keys a b : TunnelNameIsLess a b = keys_less (name_keys a) (name_keys b).
Proof.
  unfold TunnelNameIsLess. rewrite tokens_less_keys. destruct (str_eqb_spec a b) as [->|]; [|done].
  by rewrite keys_less_irrefl.
Qed.

(** [TunnelNameIsLess] is a strict weak order, so sorting tunnels by it is
    well defined: irreflexive, transitive, and names that are not ordered
    either way are interchangeable in every comparison. *)
Theorem TunnelNameIsLess_strict_weak_order :
  (∀ a, TunnelNameIsLess a a = false) ∧
  (∀ a b c, TunnelNameIsLess a b = true → TunnelNameIsLess b c = true → TunnelNameIsLess a c = true) ∧
  (∀ a b c, TunnelNameIsLess a b = false → TunnelNameIsLess b a = false →
            TunnelNameIsLess a c = TunnelNameIsLess b c ∧ TunnelNameIsLess c a = TunnelNameIsLess c b).
Proof.
  split_and!.
  - intros a. rewrite TunnelNameIsLess_keys. apply keys_less_irrefl.
  - intros a b c. rewrite !TunnelNameIsLess_keys. apply keys_less_trans.
  - intros a b c. rewrite !TunnelNameIsLess_keys. intros H1 H2.
    by rewrite (keys_less_total _ _ H1 H2).
Qed.
End Order.
