(* ===== verification/AwgValidation.v ===== *)
(** * AmneziaWG parameter validation ([core/conf/awg_validation.go])

    Ranges, booleans, the CPS packet grammar and the checks a configuration
    must pass before any device, socket or adapter is created. *)
From S2P Require Import Prelude GoStrings GoStrconv GoEncoding GoNet Conf.

Local Open Scope Z_scope.

Definition err (s : gostring) : goerror := ErrorString s.

(** ** Ranges and booleans *)

Definition range_part (bits : Z) (part : gostring) : outcome Z :=
  _ ← fail_if (part =?s "") (err "empty range boundary");
  _ ← fail_if (negb (forallb is_digit part)) (err "range must contain unsigned decimal integers");
  map_error (λ _, err "range boundary is too large") (ParseUint part bits).

Definition ParseAWGRange (value : gostring) (bits : Z) : outcome (Z * Z) :=
  match Split value "-"%byte with
  | [p] => lo ← range_part bits p; Ret (lo, lo)
  | [p; q] =>
      lo ← range_part bits p;
      hi ← range_part bits q;
      _ ← fail_if (lo >? hi) (err "range minimum exceeds maximum");
      Ret (lo, hi)
  | _ => Fail (err "expected an integer or min-max range")
  end.

Section Validation.
Context {RT : GoRuntime}.

Definition ParseAWGBool (value : gostring) : outcome bool :=
  let v := ToLower value in
  if existsb (str_eqb v) ["on"; "true"; "1"; "yes"; "t"] then Ret true
  else if existsb (str_eqb v) ["off"; "false"; "0"; "no"; "f"] then Ret false
  else Fail (err "expected on or off").

(** [parsePersistentKeepalive] of [parser.go]. *)
Definition parsePersistentKeepalive (s : gostring) : outcome gostring :=
  if EqualFold s "off" then Ret "0"
  else
    _ ← map_error (WrapError "invalid persistent keepalive") (ParseAWGRange s 16);
    Ret s.

(** ** The CPS grammar *)

(** One tag: the packet size and the timestamp count after it. *)
Definition cps_tag (tag arg : gostring) (size timestamps : Z) : outcome (Z * Z) :=
  if existsb (str_eqb tag) ["r"; "rc"; "rd"; "dz"] then
    match ParseAWGRange arg 16 with
    | Ret (low, high) =>
        if negb (low =? high) || Contains arg "-"
        then Fail (err "CPS length must be a non-negative integer up to 65535")
        else Ret (size + low, timestamps)
    | _ => Fail (err "CPS length must be a non-negative integer up to 65535")
    end
  else if tag =?s "b" then
    let data := TrimPrefix arg "0x" in
    _ ← fail_if ((data =?s "") || Nat.odd (length data)) (err "invalid CPS hexadecimal bytes");
    _ ← map_error (λ _, err "invalid CPS hexadecimal bytes") (hex_DecodeString data);
    Ret (size + Z.of_nat (length data) / 2, timestamps)
  else if tag =?s "t" then
    _ ← fail_if (negb (arg =?s "")) (err "CPS timestamp takes no argument");
    _ ← fail_if (timestamps + 1 >? 1) (err "CPS allows one timestamp per packet");
    Ret (size + 4, timestamps + 1)
  else if existsb (str_eqb tag) ["d"; "ds"] then
    _ ← fail_if (negb (arg =?s "")) (err "CPS data tag takes no argument");
    Ret (size, timestamps)
  else Fail (WrapError "unsupported CPS tag" (err tag)).

(** The tag and its optional argument. *)
Definition tag_arg (parts : list gostring) : outcome (gostring * gostring) :=
  match parts with
  | [t] => Ret (t, [])
  | [t; a] => Ret (t, a)
  | _ => Fail (err "invalid CPS tag")
  end.

(** The [for rest != ""] loop.  Every iteration removes at least the two bytes
    of a tag, so [S (length rest)] steps reach the end; running out of fuel
    would show as [Panic]. *)
Fixpoint cps_loop (fuel : nat) (rest : gostring) (size count timestamps : Z) : outcome Z :=
  match fuel with
  | O => Panic
  | S fuel =>
      match rest with
      | [] => Ret count
      | b :: _ =>
          if negb (Byte.eqb b "<"%byte) then Fail (err "CPS must consist of <tag> elements")
          else match IndexByte rest ">"%byte with
          | None => Fail (err "CPS has an unclosed tag")
          | Some e =>
              '(tag, arg) ← tag_arg (Fields (take (e - 1) (drop 1 rest)));
              '(size, timestamps) ← cps_tag tag arg size timestamps;
              _ ← fail_if (size >? 65507) (err "CPS packet exceeds UDP payload limit");
              let count := count + 1 in
              _ ← fail_if (count >? 4096) (err "too many CPS tags");
              cps_loop fuel (TrimSpace (drop (S e) rest)) size count timestamps
          end
      end
  end.

Definition ValidateCPS (spec : gostring) : outcome unit :=
  _ ← fail_if (Z.of_nat (length spec) >? 256 * 1024) (err "CPS description is too large");
  let rest := TrimSpace spec in
  count ← cps_loop (S (length rest)) rest 0 0 0;
  fail_if (count =? 0) (err "empty CPS packet").

(** ** The whole configuration *)

Definition udp_limit : Z := 65507.

Definition padding_check (protect : bool) (u : unit) (x : Z * Z * Z) : outcome unit :=
  let '(n, p, payload) := x in
  _ ← fail_if (p + payload >? udp_limit) (err ("S" ++ Itoa n ++ " and packet/MTU exceed UDP payload limit"));
  fail_if (protect && (p <? 12)) (err ("S" ++ Itoa n ++ " must be at least 12 with HeaderProtectionKey")).

Fixpoint overlap_check (m : Z) (ranges : list (Z * Z)) (n lo hi : Z) : outcome unit :=
  match ranges with
  | [] => Ret tt
  | (plo, phi) :: ranges =>
      _ ← fail_if ((lo <=? phi) && (hi >=? plo)) (err ("H" ++ Itoa m ++ " and H" ++ Itoa n ++ " overlap"));
      overlap_check (m + 1) ranges n lo hi
  end.

(** Header [n] (counted from 1), after the ranges of the previous ones. *)
Fixpoint header_check (n : Z) (headers : list gostring) (ranges : list (Z * Z)) : outcome unit :=
  match headers with
  | [] => Ret tt
  | h :: headers =>
      let h := if h =?s "" then Itoa n else h in
      '(lo, hi) ← map_error (WrapError ("H" ++ Itoa n)) (ParseAWGRange h 32);
      _ ← overlap_check 1 ranges n lo hi;
      header_check (n + 1) headers (ranges ++ [(lo, hi)])
  end.

Definition range_field_check (u : unit) (x : gostring * gostring) : outcome unit :=
  let '(name, value) := x in
  if value =?s "" then Ret tt
  else _ ← map_error (WrapError name) (ParseAWGRange value 16); Ret tt.

Definition bool_field_check (u : unit) (x : gostring * gostring) : outcome unit :=
  let '(name, value) := x in
  if value =?s "" then Ret tt
  else _ ← map_error (WrapError name) (ParseAWGBool value); Ret tt.

Definition peer_check (u : unit) (p : Peer) : outcome unit :=
  if PersistentKeepalive p =?s "" then Ret tt
  else _ ← parsePersistentKeepalive (PersistentKeepalive p); Ret tt.

Definition ipacket_keys : list gostring := ["i1"; "i2"; "i3"; "i4"; "i5"].

Definition ipacket_check (u : unit) (x : gostring * gostring) : outcome unit :=
  let '(key, spec) := x in
  _ ← fail_if (negb (existsb (str_eqb key) ipacket_keys)) (err "unknown CPS packet field");
  map_error (WrapError (ToUpperASCII key)) (ValidateCPS spec).

(** Entries of a possibly nil map, in no particular order. *)
Definition ipacket_entries (i : Interface) : list (gostring * gostring) :=
  match IPackets i with None => [] | Some m => map_to_list m end.

Definition range_fields (i : Interface) : list (gostring * gostring) :=
  [("ContentPaddingAddition" : gostring, ContentPaddingAddition i);
   ("RekeyAfterTime" : gostring, RekeyAfterTime i);
   ("RekeyTimeout" : gostring, RekeyTimeout i);
   ("RejectAfterTime" : gostring, RejectAfterTime i);
   ("KeepaliveTimeout" : gostring, KeepaliveTimeout i);
   ("MaxHandshakeAttempts" : gostring, MaxHandshakeAttempts i)].

Definition bool_fields (i : Interface) : list (gostring * gostring) :=
  [("RandomTrailers" : gostring, RandomTrailers i); ("DisableCookies" : gostring, DisableCookies i)].

Definition paddings (i : Interface) : list Z :=
  [InitPacketJunkSize i; ResponsePacketJunkSize i; CookieReplyPacketJunkSize i; TransportPacketJunkSize i].

Definition payloads (i : Interface) : list Z :=
  [148; 92; 64; (if MTU i =? 0 then 1420 else MTU i) + 32 + 15].

Definition headers_of (i : Interface) : list gostring :=
  [InitPacketMagicHeader i; ResponsePacketMagicHeader i; UnderloadPacketMagicHeader i;
   TransportPacketMagicHeader i].

Definition ValidateAWG (c : Config) : outcome unit :=
  let i := Iface c in
  _ ← fail_if (JunkPacketMinSize i >? JunkPacketMaxSize i) (err "Jmin must not exceed Jmax");
  _ ← fail_if (JunkPacketMaxSize i >? udp_limit) (err "Jmax exceeds UDP payload limit");
  _ ← fold_outcome (padding_check (negb (Key_IsZero (HeaderProtectionKey i)))) tt
        (zip (zip [1; 2; 3; 4] (paddings i)) (payloads i));
  _ ← header_check 1 (headers_of i) [];
  _ ← fold_outcome range_field_check tt (iterate (range_fields i));
  _ ← fold_outcome bool_field_check tt (iterate (bool_fields i));
  _ ← fold_outcome peer_check tt (Peers c);
  fold_outcome ipacket_check tt (iterate (ipacket_entries i)).

Definition ProtocolDescription (c : Config) : gostring :=
  let i := Iface c in
  if negb (Key_IsZero (HeaderProtectionKey i))
     || negb (ContentPaddingAddition i =?s "") || negb (RekeyAfterTime i =?s "")
     || negb (RekeyTimeout i =?s "") || negb (RejectAfterTime i =?s "")
     || negb (KeepaliveTimeout i =?s "") || negb (MaxHandshakeAttempts i =?s "")
     || negb (RandomTrailers i =?s "") || negb (DisableCookies i =?s "")
  then "AWG 3.1"
  else if existsb (λ p, Contains (PersistentKeepalive p) "-") (Peers c) then "AWG 3.1"
  else "WireGuard / AWG 1.x–2.x (совместимый профиль)".
End Validation.
