(* ===== verification/Parser.v ===== *)
(** * Configuration parsers ([core/conf/parser.go])

    [FromWgQuick] reads the ini-like [wg-quick] text, [FromUAPI] the line
    protocol of the device.  Both are state machines over the lines of the
    input; a slice expression out of range is [Panic]. *)
From S2P Require Import Prelude GoStrings GoStrconv GoEncoding GoNet Conf TunnelName AwgValidation.

Local Open Scope Z_scope.

(** ** Field parsers *)

Definition perr (why offender : gostring) : goerror := ParseError why None offender.

Definition parseIPCidr (s : gostring) : outcome IPCidr :=
  let '(addrStr, cidrStr) :=
    match IndexByte s "/"%byte with
    | None => (s, None)
    | Some i => (take i s, Some (drop (S i) s))
    end in
  addr ← or_fail (ParseIP addrStr) (perr "Invalid IP address" s);
  let maybeV4 := To4 addr in
  let addr := match maybeV4 with Some a => a | None => addr end in
  let is4 := match maybeV4 with Some _ => true | None => false end in
  match cidrStr with
  | Some cs =>
      cidr ← map_error (λ _, perr "Invalid network prefix length" s) (Atoi cs);
      _ ← fail_if ((cidr <? 0) || (cidr >? 128)) (perr "Invalid network prefix length" s);
      _ ← fail_if ((cidr >? 32) && is4) (perr "Invalid network prefix length" s);
      Ret (mkIPCidr addr (u8 cidr))
  | None => Ret (mkIPCidr addr (if is4 then 32 else 128))
  end.

Definition parseMTU (s : gostring) : outcome Z :=
  m ← Atoi s;
  _ ← fail_if ((m <? 576) || (m >? 65535)) (perr "Invalid MTU" s);
  Ret (u16 m).

Definition parsePort (s : gostring) : outcome Z :=
  m ← Atoi s;
  _ ← fail_if ((m <? 0) || (m >? 65535)) (perr "Invalid port" s);
  Ret (u16 m).

Definition parseUint16 (value name : gostring) : outcome Z :=
  m ← Atoi value;
  _ ← fail_if ((m <? 0) || (m >? MaxUint16)) (perr ("Invalid " ++ name) value);
  Ret (u16 m).

Definition parseUint32 (value name : gostring) : outcome Z :=
  m ← ParseInt64 value;
  _ ← fail_if ((m <? 0) || (m >? MaxUint32)) (perr ("Invalid " ++ name) value);
  Ret (u32 m).

(** [i > k] for an index that may be [-1]. *)
Definition index_gt (i : option nat) (k : nat) : bool :=
  match i with Some n => (k <? n)%nat | None => false end.

Definition first_is (s : gostring) (c : byte) : bool :=
  match s with b :: _ => Byte.eqb b c | [] => false end.
Definition last_is (s : gostring) (c : byte) : bool := first_is (rev s) c.

Definition parseEndpoint (s : gostring) : outcome Endpoint :=
  match LastIndexByte s ":"%byte with
  | None => Fail (perr "Missing port from endpoint" s)
  | Some i =>
      let host := take i s in
      let portStr := drop (S i) s in
      _ ← fail_if (length host <? 1)%nat (perr "Invalid endpoint host" host);
      port ← parsePort portStr;
      let hostColon := IndexByte host ":"%byte in
      if first_is host "["%byte || last_is host "]"%byte || index_gt hostColon 0 then
        let e := perr "Brackets must contain an IPv6 address" host in
        if (3 <? length host)%nat && first_is host "["%byte && last_is host "]"%byte
           && index_gt hostColon 0
        then
          let pct := LastIndexByte host "%"%byte in
          let stop := match pct with
                      | Some n => if (1 <? n)%nat then n else (length host - 1)%nat
                      | None => (length host - 1)%nat
                      end in
          maybeV6 ← or_fail (ParseIP (take (stop - 1) (drop 1 host))) e;
          _ ← fail_if (negb (length maybeV6 =? 16)%nat) e;
          Ret (mkEndpoint (take (length host - 2) (drop 1 host)) (u16 port))
        else Fail e
      else Ret (mkEndpoint host (u16 port))
  end.

Definition parseTableOff (s : gostring) : outcome bool :=
  if s =?s "off" then Ret true
  else if (s =?s "auto") || (s =?s "main") then Ret false
  else _ ← ParseUint s 32; Ret false.

Definition key_of_bytes (s : gostring) (k : list byte) : outcome Key :=
  _ ← fail_if (negb (length k =? KeyLength)%nat) (perr "Keys must decode to exactly 32 bytes" s);
  Ret k.

Definition parseKeyBase64 (s : gostring) : outcome Key :=
  k ← map_error (λ e, ParseError "Invalid key" (Some e) s) (b64_DecodeString s);
  key_of_bytes s k.

Definition parseKeyHex (s : gostring) : outcome Key :=
  k ← map_error (λ e, ParseError "Invalid key" (Some e) s) (hex_DecodeString s);
  key_of_bytes s k.

Definition parseBytesOrStamp (s : gostring) : outcome Z :=
  map_error (λ e, ParseError "Number must be a number between 0 and 2^64-1" (Some e) s) (ParseUint s 64).

Definition split_elem (s w : gostring) : outcome gostring :=
  let t := TrimSpace w in
  _ ← fail_if (length t =? 0)%nat (perr "Two commas in a row" s);
  Ret t.

Definition splitList (s : gostring) : outcome (list gostring) :=
  mapM_outcome (split_elem s) (Split s ","%byte).

(** ** Section keys *)

Inductive IfaceKey :=
| KPrivateKey | KListenPort | KJc | KJmin | KJmax | KS1 | KS2 | KS3 | KS4
| KH1 | KH2 | KH3 | KH4 | KI (key : gostring) | KHeaderProtectionKey
| KContentPaddingAddition | KRekeyAfterTime | KRekeyTimeout | KRejectAfterTime
| KKeepaliveTimeout | KMaxHandshakeAttempts | KRandomTrailers | KDisableCookies
| KMTU | KAddress | KDNS | KPreUp | KPostUp | KPreDown | KPostDown | KTable.

Inductive PeerKey := KPublicKey | KPresharedKey | KAllowedIPs | KPersistentKeepalive | KEndpoint.

(** The [case] labels of the two switches of [FromWgQuick]. *)
Definition iface_keys : list (gostring * IfaceKey) :=
  [("privatekey" : gostring, KPrivateKey); ("listenport" : gostring, KListenPort);
   ("jc" : gostring, KJc); ("jmin" : gostring, KJmin); ("jmax" : gostring, KJmax);
   ("s1" : gostring, KS1); ("s2" : gostring, KS2); ("s3" : gostring, KS3); ("s4" : gostring, KS4);
   ("h1" : gostring, KH1); ("h2" : gostring, KH2); ("h3" : gostring, KH3); ("h4" : gostring, KH4);
   ("i1" : gostring, KI "i1"); ("i2" : gostring, KI "i2"); ("i3" : gostring, KI "i3");
   ("i4" : gostring, KI "i4"); ("i5" : gostring, KI "i5");
   ("headerprotectionkey" : gostring, KHeaderProtectionKey);
   ("contentpaddingaddition" : gostring, KContentPaddingAddition);
   ("rekeyaftertime" : gostring, KRekeyAfterTime); ("rekeytimeout" : gostring, KRekeyTimeout);
   ("rejectaftertime" : gostring, KRejectAfterTime);
   ("keepalivetimeout" : gostring, KKeepaliveTimeout);
   ("maxhandshakeattempts" : gostring, KMaxHandshakeAttempts);
   ("randomtrailers" : gostring, KRandomTrailers); ("disablecookies" : gostring, KDisableCookies);
   ("mtu" : gostring, KMTU); ("address" : gostring, KAddress); ("dns" : gostring, KDNS);
   ("preup" : gostring, KPreUp); ("postup" : gostring, KPostUp);
   ("predown" : gostring, KPreDown); ("postdown" : gostring, KPostDown);
   ("table" : gostring, KTable)].

Definition peer_keys : list (gostring * PeerKey) :=
  [("publickey" : gostring, KPublicKey); ("presharedkey" : gostring, KPresharedKey);
   ("allowedips" : gostring, KAllowedIPs); ("persistentkeepalive" : gostring, KPersistentKeepalive);
   ("endpoint" : gostring, KEndpoint)].

Definition set_ipacket (key val : gostring) (i : Interface) : Interface :=
  i <| IPackets := Some (<[key := val]> (match IPackets i with Some m => m | None => ∅ end)) |>.

(** [DNS] entries that are not addresses are search domains. *)
Definition add_dns (i : Interface) (address : gostring) : Interface :=
  match ParseIP address with
  | None => i <| DNSSearch := DNSSearch i ++ [address] |>
  | Some a => i <| DNS := DNS i ++ [a] |>
  end.

Section Parsers.
Context {RT : GoRuntime}.

(** The switch of the [[Interface]] section. *)
Definition iface_assign (k : IfaceKey) (val : gostring) (i : Interface) : outcome Interface :=
  match k with
  | KPrivateKey => v ← parseKeyBase64 val; Ret (i <| PrivateKey := v |>)
  | KListenPort => v ← parsePort val; Ret (i <| ListenPort := v |>)
  | KJc => v ← parseUint16 val "junkPacketCount"; Ret (i <| JunkPacketCount := v |>)
  | KJmin => v ← parseUint16 val "junkPacketMinSize"; Ret (i <| JunkPacketMinSize := v |>)
  | KJmax => v ← parseUint16 val "junkPacketMaxSize"; Ret (i <| JunkPacketMaxSize := v |>)
  | KS1 => v ← parseUint16 val "initPacketJunkSize"; Ret (i <| InitPacketJunkSize := v |>)
  | KS2 => v ← parseUint16 val "responsePacketJunkSize"; Ret (i <| ResponsePacketJunkSize := v |>)
  | KS3 => v ← parseUint16 val "cookieReplyPacketJunkSize"; Ret (i <| CookieReplyPacketJunkSize := v |>)
  | KS4 => v ← parseUint16 val "transportPacketJunkSize"; Ret (i <| TransportPacketJunkSize := v |>)
  | KH1 => Ret (i <| InitPacketMagicHeader := val |>)
  | KH2 => Ret (i <| ResponsePacketMagicHeader := val |>)
  | KH3 => Ret (i <| UnderloadPacketMagicHeader := val |>)
  | KH4 => Ret (i <| TransportPacketMagicHeader := val |>)
  | KI key => if val =?s "" then Ret i else Ret (set_ipacket key val i)
  | KHeaderProtectionKey =>
      v ← map_error (λ _, ErrorString "invalid HeaderProtectionKey (expected a 32-byte base64 key)")
            (parseKeyBase64 val);
      Ret (i <| HeaderProtectionKey := v |>)
  | KContentPaddingAddition => Ret (i <| ContentPaddingAddition := val |>)
  | KRekeyAfterTime => Ret (i <| RekeyAfterTime := val |>)
  | KRekeyTimeout => Ret (i <| RekeyTimeout := val |>)
  | KRejectAfterTime => Ret (i <| RejectAfterTime := val |>)
  | KKeepaliveTimeout => Ret (i <| KeepaliveTimeout := val |>)
  | KMaxHandshakeAttempts => Ret (i <| MaxHandshakeAttempts := val |>)
  | KRandomTrailers => Ret (i <| RandomTrailers := val |>)
  | KDisableCookies => Ret (i <| DisableCookies := val |>)
  | KMTU => v ← parseMTU val; Ret (i <| MTU := v |>)
  | KAddress =>
      l ← splitList val;
      fold_outcome (λ i s, a ← parseIPCidr s; Ret (i <| Addresses := Addresses i ++ [a] |>)) i l
  | KDNS => l ← splitList val; Ret (fold_left add_dns l i)
  | KPreUp => Ret (i <| PreUp := val |>)
  | KPostUp => Ret (i <| PostUp := val |>)
  | KPreDown => Ret (i <| PreDown := val |>)
  | KPostDown => Ret (i <| PostDown := val |>)
  | KTable => v ← parseTableOff val; Ret (i <| TableOff := v |>)
  end.

(** The switch of the [[Peer]] section. *)
Definition peer_assign (k : PeerKey) (val : gostring) (p : Peer) : outcome Peer :=
  match k with
  | KPublicKey => v ← parseKeyBase64 val; Ret (p <| PublicKey := v |>)
  | KPresharedKey => v ← parseKeyBase64 val; Ret (p <| PresharedKey := v |>)
  | KAllowedIPs =>
      l ← splitList val;
      fold_outcome (λ p s, a ← parseIPCidr s; Ret (p <| AllowedIPs := AllowedIPs p ++ [a] |>)) p l
  | KPersistentKeepalive => v ← parsePersistentKeepalive val; Ret (p <| PersistentKeepalive := v |>)
  | KEndpoint => v ← parseEndpoint val; Ret (p <| PeerEndpoint := v |>)
  end.

(** ** [FromWgQuick] *)

Inductive parserState := inInterfaceSection | inPeerSection | notInASection.

Record pstate := mkPstate {
  ps_section : parserState;
  ps_conf : Config;
  ps_peer : option Peer;
  ps_sawPrivateKey : bool;
}.

Definition maybeAddPeer (c : Config) (p : option Peer) : Config :=
  match p with Some p => c <| Peers := Peers c ++ [p] |> | None => c end.

Definition specialHandshakeTags : list gostring :=
  ["i1"; "i2"; "i3"; "i4"; "i5"; "j1"; "j2"; "j3"; "itime"].

Definition strip_comment (line : gostring) : gostring :=
  match IndexByte line "#"%byte with Some n => take n line | None => line end.

(** A key/value line in a section.  [lineLower[:equals]] uses the position of
    ['='] in [line], although lower-casing may have changed lengths. *)
Definition assign_line (st : pstate) (line lineLower : gostring) : outcome pstate :=
  match IndexByte line "="%byte with
  | None => Fail (perr "Config key is missing an equals separator" line)
  | Some equals =>
      if (length lineLower <? equals)%nat then Panic else
      let key := TrimSpace (take equals lineLower) in
      let val := TrimSpace (drop (S equals) line) in
      _ ← fail_if (negb (existsb (str_eqb key) specialHandshakeTags) && (length val =? 0)%nat)
            (perr "Key must have a value" line);
      match ps_section st with
      | inInterfaceSection =>
          k ← or_fail (assoc_str key iface_keys) (perr "Invalid key for [Interface] section" key);
          i ← iface_assign k val (Iface (ps_conf st));
          Ret (mkPstate (ps_section st) (ps_conf st <| Iface := i |>) (ps_peer st)
                 (match k with KPrivateKey => true | _ => ps_sawPrivateKey st end))
      | inPeerSection =>
          k ← or_fail (assoc_str key peer_keys) (perr "Invalid key for [Peer] section" key);
          match ps_peer st with
          | None => Panic
          | Some p =>
              p ← peer_assign k val p;
              Ret (mkPstate (ps_section st) (ps_conf st) (Some p) (ps_sawPrivateKey st))
          end
      | notInASection => Ret st
      end
  end.

(** One iteration of the loop over the lines. *)
Definition parse_line (st : pstate) (line : gostring) : outcome pstate :=
  let line := TrimSpace (strip_comment line) in
  let lineLower := ToLower line in
  if (length line =? 0)%nat then Ret st
  else if lineLower =?s "[interface]" then
    Ret (mkPstate inInterfaceSection (maybeAddPeer (ps_conf st) (ps_peer st)) None (ps_sawPrivateKey st))
  else if lineLower =?s "[peer]" then
    Ret (mkPstate inPeerSection (maybeAddPeer (ps_conf st) (ps_peer st)) (Some zeroPeer)
           (ps_sawPrivateKey st))
  else match ps_section st with
       | notInASection => Fail (perr "Line must occur in a section" line)
       | _ => assign_line st line lineLower
       end.

Definition initial_pstate (name : gostring) : pstate :=
  mkPstate notInASection (mkConfig name (zeroInterface <| MTU := 1420 |>) []) None false.

(** The checks after the last line. *)
Definition finish_pstate (st : pstate) : outcome Config :=
  let conf := maybeAddPeer (ps_conf st) (ps_peer st) in
  _ ← fail_if (negb (ps_sawPrivateKey st))
        (perr "An interface must have a private key" "[none specified]");
  _ ← fail_if (existsb (λ p, Key_IsZero (PublicKey p)) (Peers conf))
        (perr "All peers must have public keys" "[none specified]");
  _ ← ValidateAWG conf;
  Ret conf.

Definition FromWgQuick (s name : gostring) : outcome Config :=
  _ ← fail_if (negb (TunnelNameIsValid name)) (perr "Tunnel name is not valid" name);
  st ← fold_outcome parse_line (initial_pstate name) (Split s x0a);
  finish_pstate st.

(** The decoders of [unicode.All] are a parameter: each maps the raw text to a
    string or fails.  A panic in the parser escapes. *)
Fixpoint try_decoders (decoders : list (gostring → option gostring)) (s name : gostring)
    (firstErr : goerror) : outcome Config :=
  match decoders with
  | [] => Fail firstErr
  | d :: decoders =>
      match d s with
      | None => try_decoders decoders s name firstErr
      | Some decoded =>
          match FromWgQuick decoded name with
          | Fail _ => try_decoders decoders s name firstErr
          | r => r
          end
      end
  end.

Definition FromWgQuickWithUnknownEncoding (decoders : list (gostring → option gostring))
    (s name : gostring) : outcome Config :=
  match FromWgQuick s name with
  | Fail firstErr => try_decoders decoders s name firstErr
  | r => r
  end.
End Parsers.
