(* ===== verification/Writer.v ===== *)
(** * Configuration writers ([core/conf/writer.go]) *)
From S2P Require Import Prelude GoStrings GoStrconv GoEncoding GoNet Conf TunnelName AwgValidation.

Local Open Scope Z_scope.

(** [fmt.Sprintf("Key = %s\n", ...)] and [fmt.Sprintf("key=%s\n", ...)]. *)
Definition wline (key val : gostring) : gostring := key ++ " = " ++ val ++ [x0a].
Definition uline (key val : gostring) : gostring := key ++ "=" ++ val ++ [x0a].

Definition on (b : bool) (s : gostring) : gostring := if b then s else [].

Definition nonempty (s : gostring) : bool := match s with [] => false | _ => true end.

(** [IPackets[key]] on a possibly nil map; a missing key reads as the empty string. *)
Definition ipacket (i : Interface) (key : gostring) : gostring :=
  match IPackets i with
  | Some m => match m !! key with Some v => v | None => [] end
  | None => []
  end.

Section Writers.
Context {RT : GoRuntime}.

Definition boolToUAPI (v : gostring) : gostring :=
  if existsb (str_eqb (ToLower (TrimSpace v))) ["on"; "1"; "true"; "t"; "yes"] then "1" else "0".

Definition boolFromUAPI (v : gostring) : gostring :=
  if existsb (str_eqb (ToLower (TrimSpace v))) ["1"; "true"; "t"; "on"; "yes"] then "on" else "off".

(** ** wg-quick text *)

Definition w_int (key : gostring) (n : Z) : gostring := on (n >? 0) (wline key (Itoa n)).
Definition w_str (key val : gostring) : gostring := on (nonempty val) (wline key val).

(** [ListenPort] to [H4]. *)
Definition w_junk (i : Interface) : gostring :=
  w_int "ListenPort" (ListenPort i)
  ++ w_int "Jc" (JunkPacketCount i)
  ++ w_int "Jmin" (JunkPacketMinSize i)
  ++ w_int "Jmax" (JunkPacketMaxSize i)
  ++ w_int "S1" (InitPacketJunkSize i)
  ++ w_int "S2" (ResponsePacketJunkSize i)
  ++ w_int "S3" (CookieReplyPacketJunkSize i)
  ++ w_int "S4" (TransportPacketJunkSize i)
  ++ w_str "H1" (InitPacketMagicHeader i)
  ++ w_str "H2" (ResponsePacketMagicHeader i)
  ++ w_str "H3" (UnderloadPacketMagicHeader i)
  ++ w_str "H4" (TransportPacketMagicHeader i).

Definition w_ipackets (i : Interface) : gostring :=
  flat_map (λ key, w_str (ToUpperASCII key) (ipacket i key)) ipacket_keys.

(** [HeaderProtectionKey] to [DisableCookies]. *)
Definition w_awg3 (i : Interface) : gostring :=
  on (negb (Key_IsZero (HeaderProtectionKey i)))
     (wline "HeaderProtectionKey" (Key_String (HeaderProtectionKey i)))
  ++ w_str "ContentPaddingAddition" (ContentPaddingAddition i)
  ++ w_str "RekeyAfterTime" (RekeyAfterTime i)
  ++ w_str "RekeyTimeout" (RekeyTimeout i)
  ++ w_str "RejectAfterTime" (RejectAfterTime i)
  ++ w_str "KeepaliveTimeout" (KeepaliveTimeout i)
  ++ w_str "MaxHandshakeAttempts" (MaxHandshakeAttempts i)
  ++ w_str "RandomTrailers" (RandomTrailers i)
  ++ w_str "DisableCookies" (DisableCookies i).

Definition dns_strings (i : Interface) : list gostring := map IP_String (DNS i) ++ DNSSearch i.

(** [Address] to [Table]. *)
Definition w_net (i : Interface) : gostring :=
  on (0 <? length (Addresses i))%nat
     (wline "Address" (Join (map IPCidr_String (Addresses i)) ", "))
  ++ on (0 <? length (DNS i) + length (DNSSearch i))%nat
     (wline "DNS" (Join (dns_strings i) ", "))
  ++ w_int "MTU" (MTU i)
  ++ w_str "PreUp" (PreUp i)
  ++ w_str "PostUp" (PostUp i)
  ++ w_str "PreDown" (PreDown i)
  ++ w_str "PostDown" (PostDown i)
  ++ on (TableOff i) ("Table = off" ++ [x0a]).

Definition w_peer (p : Peer) : gostring :=
  [x0a] ++ "[Peer]" ++ [x0a]
  ++ wline "PublicKey" (Key_String (PublicKey p))
  ++ on (negb (Key_IsZero (PresharedKey p))) (wline "PresharedKey" (Key_String (PresharedKey p)))
  ++ on (0 <? length (AllowedIPs p))%nat
        (wline "AllowedIPs" (Join (map IPCidr_String (AllowedIPs p)) ", "))
  ++ on (negb (Endpoint_IsEmpty (PeerEndpoint p))) (wline "Endpoint" (Endpoint_String (PeerEndpoint p)))
  ++ on (nonempty (PersistentKeepalive p) && negb (PersistentKeepalive p =?s "0")
         && negb (PersistentKeepalive p =?s "off"))
        (wline "PersistentKeepalive" (PersistentKeepalive p)).

Definition ToWgQuick (conf : Config) : gostring :=
  let i := Iface conf in
  "[Interface]" ++ [x0a]
  ++ wline "PrivateKey" (Key_String (PrivateKey i))
  ++ w_junk i ++ w_ipackets i ++ w_awg3 i ++ w_net i
  ++ flat_map w_peer (Peers conf).

(** ** UAPI text *)

Definition u_int (key : gostring) (n : Z) : gostring := on (n >? 0) (uline key (Itoa n)).
Definition u_str (key val : gostring) : gostring := on (nonempty val) (uline key val).

Definition u_interface (i : Interface) : gostring :=
  uline "private_key" (HexString (PrivateKey i))
  ++ u_int "listen_port" (ListenPort i)
  ++ u_int "jc" (JunkPacketCount i)
  ++ u_int "jmin" (JunkPacketMinSize i)
  ++ u_int "jmax" (JunkPacketMaxSize i)
  ++ u_int "s1" (InitPacketJunkSize i)
  ++ u_int "s2" (ResponsePacketJunkSize i)
  ++ u_int "s3" (CookieReplyPacketJunkSize i)
  ++ u_int "s4" (TransportPacketJunkSize i)
  ++ u_str "h1" (InitPacketMagicHeader i)
  ++ u_str "h2" (ResponsePacketMagicHeader i)
  ++ u_str "h3" (UnderloadPacketMagicHeader i)
  ++ u_str "h4" (TransportPacketMagicHeader i)
  ++ flat_map (λ key, u_str key (ipacket i key)) ipacket_keys
  ++ on (negb (Key_IsZero (HeaderProtectionKey i)))
        (uline "header_protection_key" (HexString (HeaderProtectionKey i)))
  ++ u_str "content_padding_addition" (ContentPaddingAddition i)
  ++ u_str "rekey_after_time" (RekeyAfterTime i)
  ++ u_str "rekey_timeout" (RekeyTimeout i)
  ++ u_str "reject_after_time" (RejectAfterTime i)
  ++ u_str "keepalive_timeout" (KeepaliveTimeout i)
  ++ u_str "max_handshake_attempts" (MaxHandshakeAttempts i)
  ++ on (nonempty (RandomTrailers i)) (uline "random_trailers" (boolToUAPI (RandomTrailers i)))
  ++ on (nonempty (DisableCookies i)) (uline "disable_cookies" (boolToUAPI (DisableCookies i))).

(** One peer; [resolve] stands for [resolveHostname]. *)
Definition u_peer (resolve : gostring → outcome gostring) (p : Peer) : outcome gostring :=
  ep ← (if negb (Endpoint_IsEmpty (PeerEndpoint p)) then
          ip ← resolve (Host (PeerEndpoint p));
          Ret (uline "endpoint" (Endpoint_String (mkEndpoint ip (Port (PeerEndpoint p)))))
        else Ret []);
  let keepalive := if (PersistentKeepalive p =?s "") || (PersistentKeepalive p =?s "off")
                   then "0" else PersistentKeepalive p in
  Ret (uline "public_key" (HexString (PublicKey p))
       ++ on (negb (Key_IsZero (PresharedKey p))) (uline "preshared_key" (HexString (PresharedKey p)))
       ++ ep
       ++ uline "persistent_keepalive_interval" keepalive
       ++ on (0 <? length (AllowedIPs p))%nat
             (uline "replace_allowed_ips" "true"
              ++ flat_map (λ a, uline "allowed_ip" (IPCidr_String a)) (AllowedIPs p))).

Definition ToUAPI (resolve : gostring → outcome gostring) (conf : Config) : outcome gostring :=
  _ ← ValidateAWG conf;
  ps ← mapM_outcome (u_peer resolve) (Peers conf);
  Ret (u_interface (Iface conf)
       ++ on (0 <? length (Peers conf))%nat (uline "replace_peers" "true")
       ++ concat ps).
End Writers.
