(* ===== verification/UapiParser.v ===== *)
(** * The UAPI reader ([FromUAPI] of [core/conf/parser.go]) *)
From S2P Require Import Prelude GoStrings GoStrconv GoEncoding GoNet Conf TunnelName AwgValidation Parser.

Local Open Scope Z_scope.

Inductive UapiIfaceKey :=
| UKey (k : IfaceKey)          (** same assignment as in [FromWgQuick] *)
| UPrivateKey | UHeaderProtectionKey | UFwmark.

Inductive UapiPeerKey :=
| UPublicKey | UPresharedKey | UProtocolVersion | UAllowedIP | UKeepalive | UEndpoint
| UTxBytes | URxBytes | UHandshakeSec | UHandshakeNsec.

Definition uapi_iface_keys : list (gostring * UapiIfaceKey) :=
  [("private_key" : gostring, UPrivateKey); ("listen_port" : gostring, UKey KListenPort);
   ("jc" : gostring, UKey KJc); ("jmin" : gostring, UKey KJmin); ("jmax" : gostring, UKey KJmax);
   ("s1" : gostring, UKey KS1); ("s2" : gostring, UKey KS2);
   ("s3" : gostring, UKey KS3); ("s4" : gostring, UKey KS4);
   ("h1" : gostring, UKey KH1); ("h2" : gostring, UKey KH2);
   ("h3" : gostring, UKey KH3); ("h4" : gostring, UKey KH4);
   ("i1" : gostring, UKey (KI "i1")); ("i2" : gostring, UKey (KI "i2"));
   ("i3" : gostring, UKey (KI "i3")); ("i4" : gostring, UKey (KI "i4"));
   ("i5" : gostring, UKey (KI "i5"));
   ("header_protection_key" : gostring, UHeaderProtectionKey);
   ("content_padding_addition" : gostring, UKey KContentPaddingAddition);
   ("rekey_after_time" : gostring, UKey KRekeyAfterTime);
   ("rekey_timeout" : gostring, UKey KRekeyTimeout);
   ("reject_after_time" : gostring, UKey KRejectAfterTime);
   ("keepalive_timeout" : gostring, UKey KKeepaliveTimeout);
   ("max_handshake_attempts" : gostring, UKey KMaxHandshakeAttempts);
   ("random_trailers" : gostring, UKey KRandomTrailers);
   ("disable_cookies" : gostring, UKey KDisableCookies);
   ("fwmark" : gostring, UFwmark)].

Definition uapi_peer_keys : list (gostring * UapiPeerKey) :=
  [("public_key" : gostring, UPublicKey); ("preshared_key" : gostring, UPresharedKey);
   ("protocol_version" : gostring, UProtocolVersion); ("allowed_ip" : gostring, UAllowedIP);
   ("persistent_keepalive_interval" : gostring, UKeepalive); ("endpoint" : gostring, UEndpoint);
   ("tx_bytes" : gostring, UTxBytes); ("rx_bytes" : gostring, URxBytes);
   ("last_handshake_time_sec" : gostring, UHandshakeSec);
   ("last_handshake_time_nsec" : gostring, UHandshakeNsec)].

(** The fields [FromUAPI] starts from: everything the device does not report. *)
Definition uapi_base (existing : Interface) : Interface :=
  existing <| PrivateKey := zeroKey |> <| ListenPort := 0 |>.

(** [peer.LastHandshakeTime += HandshakeTime(time.Duration(t) * unit)] on 64-bit
    signed integers. *)
Definition add_duration (old t unit : Z) : Z := i64 (old + i64 (i64 t * unit)).

Section Uapi.
Context {RT : GoRuntime}.

Definition uapi_iface_assign (k : UapiIfaceKey) (val : gostring) (i : Interface) : outcome Interface :=
  match k with
  | UKey k => iface_assign k val i
  | UPrivateKey => v ← parseKeyHex val; Ret (i <| PrivateKey := v |>)
  | UHeaderProtectionKey =>
      v ← map_error (λ _, ErrorString "invalid HeaderProtectionKey") (parseKeyHex val);
      Ret (i <| HeaderProtectionKey := v |>)
  | UFwmark => Ret i
  end.

Definition uapi_peer_assign (k : UapiPeerKey) (val : gostring) (p : Peer) : outcome Peer :=
  match k with
  | UPublicKey => v ← parseKeyHex val; Ret (p <| PublicKey := v |>)
  | UPresharedKey => v ← parseKeyHex val; Ret (p <| PresharedKey := v |>)
  | UProtocolVersion =>
      _ ← fail_if (negb (val =?s "1")) (perr "Protocol version must be 1" val); Ret p
  | UAllowedIP => a ← parseIPCidr val; Ret (p <| AllowedIPs := AllowedIPs p ++ [a] |>)
  | UKeepalive => v ← parsePersistentKeepalive val; Ret (p <| PersistentKeepalive := v |>)
  | UEndpoint => v ← parseEndpoint val; Ret (p <| PeerEndpoint := v |>)
  | UTxBytes => b ← parseBytesOrStamp val; Ret (p <| TxBytes := b |>)
  | URxBytes => b ← parseBytesOrStamp val; Ret (p <| RxBytes := b |>)
  | UHandshakeSec =>
      t ← parseBytesOrStamp val;
      Ret (p <| LastHandshakeTime := add_duration (LastHandshakeTime p) t 1000000000 |>)
  | UHandshakeNsec =>
      t ← parseBytesOrStamp val;
      Ret (p <| LastHandshakeTime := add_duration (LastHandshakeTime p) t 1 |>)
  end.

(** The configuration under construction and the peer being read; [None]
    while in the interface section. *)
Definition uapi_state : Type := Config * option Peer.

Definition uapi_line (st : uapi_state) (line : gostring) : outcome uapi_state :=
  match IndexByte line "="%byte with
  | None => Fail (perr "Config key is missing an equals separator" line)
  | Some equals =>
      let key := take equals line in
      let val := drop (S equals) line in
      _ ← fail_if (length val =? 0)%nat (perr "Key must have a value" line);
      if key =?s "errno" then
        _ ← fail_if (negb (val =?s "0")) (perr "Error in getting configuration" val); Ret st
      else
        let st := if key =?s "public_key"
                  then (maybeAddPeer (fst st) (snd st), Some zeroPeer) else st in
        match st with
        | (conf, None) =>
            k ← or_fail (assoc_str key uapi_iface_keys) (perr "Invalid key for interface section" key);
            i ← uapi_iface_assign k val (Iface conf);
            Ret (conf <| Iface := i |>, None)
        | (conf, Some p) =>
            k ← or_fail (assoc_str key uapi_peer_keys) (perr "Invalid key for peer section" key);
            p ← uapi_peer_assign k val p;
            Ret (conf, Some p)
        end
  end.

(** [ReadString('\n')] until an empty line; a line without terminator is [io.EOF]. *)
Fixpoint uapi_loop (st : uapi_state) (pieces : list gostring) : outcome uapi_state :=
  match pieces with
  | [] | [_] => Fail ErrEOF
  | line :: pieces =>
      match line with
      | [] => Ret st
      | _ => st' ← uapi_line st line; uapi_loop st' pieces
      end
  end.

(** The new configuration, and [existingConfig] after the call: its [IPackets]
    map, when not nil, is the very map the assignments of [i1]..[i5] write to. *)
Definition FromUAPI (input : gostring) (existing : Config) : outcome (Config * Config) :=
  '(conf, peer) ← uapi_loop (mkConfig (Name existing) (uapi_base (Iface existing)) [], None)
                            (Split input x0a);
  let existing' := match IPackets (Iface existing) with
                   | None => existing
                   | Some _ => existing <| Iface := Iface existing <| IPackets := IPackets (Iface conf) |> |>
                   end in
  Ret (maybeAddPeer conf peer, existing').
End Uapi.
