(* ===== verification/ParserFacts.v ===== *)
(** * Field parsers against field printers

    For every field of a configuration: the set of values its parser returns
    (a well-formedness predicate), and that parsing the printed form of such a
    value gives it back. *)
From S2P Require Import Prelude GoStrings GoStrconv GoEncoding GoNet Conf TunnelName AwgValidation Parser.

Local Open Scope Z_scope.

(** ** Values that survive as the right-hand side of a line *)

(** No comment sign, no line break, no white space at either end. *)
Definition clean (v : gostring) : Prop :=
  has_byte v "#"%byte = false ∧ has_byte v x0a = false ∧ trimmed v.

Definition clean_elem (v : gostring) : Prop := clean v ∧ v ≠ [] ∧ has_byte v ","%byte = false.

Lemma clean_nil : clean [].
Proof. by repeat split. Qed.

Lemma trimmed_nonspace (P : byte → bool) s :
  (∀ b, P b = true → is_ascii b = true ∧ space1 b = false) → forallb P s = true → trimmed s.
Proof.
  intros HP. assert (∀ t, forallb P t = true → ∀ back, space_width back t = 0%nat) as H.
  { intros [|b t]; simpl forallb; [done|]. intros [Hb _]%andb_true_iff back.
    apply HP in Hb as [? ?]. by apply space_width_nonspace. }
  intros Hs. split; [by apply H|]. apply H. rewrite forallb_forall in *.
  intros x Hx. apply Hs. by apply in_rev.
Qed.

Lemma forallb_no_byte (P : byte → bool) s c :
  P c = false → forallb P s = true → has_byte s c = false.
Proof.
  intros Hc Hs. destruct (has_byte s c) eqn:E; [|done].
  apply has_byte_spec, list_elem_of_In in E. rewrite forallb_forall in Hs.
  rewrite (Hs c E) in Hc. done.
Qed.

(** The bytes of printed numbers, keys and networks. *)
Definition token_char (b : byte) : bool :=
  is_hex b || is_digit b || in_range 65 90 b || in_range 97 122 b || has_byte "+/=.:" b.

Lemma token_char_spec b : token_char b = true → is_ascii b = true ∧ space1 b = false.
Proof.
  by_bytes (λ b, implb (token_char b) (is_ascii b && negb (space1 b))) b.
  intros H Hb. rewrite Hb in H. simpl in H. by breflect.
Qed.

Lemma token_clean s : forallb token_char s = true → clean s.
Proof.
  intros H. split_and!; [by apply (forallb_no_byte token_char)..|].
  eapply trimmed_nonspace; [apply token_char_spec|done].
Qed.

Lemma token_elem s : forallb token_char s = true → s ≠ [] → clean_elem s.
Proof. intros H Hne. split_and!; [by apply token_clean|done|by apply (forallb_no_byte token_char)]. Qed.

Lemma digits_token s : forallb is_digit s = true → forallb token_char s = true.
Proof. apply forallb_impl. intros b Hb. unfold token_char. rewrite Hb. by rewrite orb_true_r. Qed.

Lemma Itoa_token n : 0 <= n → forallb token_char (Itoa n) = true.
Proof. intros H. by apply digits_token, Itoa_digits. Qed.

Lemma ip_token s : forallb ip_char s = true → forallb token_char s = true.
Proof.
  apply forallb_impl. intros b. by_bytes (λ b, implb (ip_char b) (token_char b)) b.
  by destruct (ip_char b).
Qed.

Lemma b64_token k : forallb token_char (b64_EncodeToString k) = true.
Proof.
  assert (∀ v sh, token_char (sextet v sh) = true) as Hs.
  { intros v sh. unfold sextet. pose proof (Z.mod_pos_bound (v / 2 ^ sh) 64 ltac:(lia)) as Hv.
    by_below 64 (λ v, token_char (b64_char v)) (v / 2 ^ sh mod 64) Hv. done. }
  remember (length k) as n eqn:Hn. revert k Hn.
  induction n as [n IH] using lt_wf_ind. intros k ->.
  destruct k as [|a [|b [|c k]]]; [done| | |]; cbn [b64_EncodeToString forallb]; rewrite !Hs; [done..|].
  simpl. eapply IH; [|done]. simpl. lia.
Qed.

Lemma b64_nonempty k : k ≠ [] → b64_EncodeToString k ≠ [].
Proof. destruct k as [|a [|b [|c k]]]; done. Qed.

(** ** Numbers *)

Lemma parseUint16_Itoa n name : 0 <= n <= 65535 → parseUint16 (Itoa n) name = Ret n.
Proof.
  intros H. unfold parseUint16, MaxUint16. rewrite Atoi_Itoa by lia. simpl.
  rewrite (proj2 (Z.ltb_ge n 0)) by lia.
  replace (n >? 65535) with false by (symmetry; rewrite Z.gtb_ltb; apply Z.ltb_ge; lia).
  simpl. unfold u16. by rewrite Z.mod_small by lia.
Qed.

Lemma parsePort_Itoa n : 0 <= n <= 65535 → parsePort (Itoa n) = Ret n.
Proof.
  intros H. unfold parsePort. rewrite Atoi_Itoa by lia. simpl.
  rewrite (proj2 (Z.ltb_ge n 0)) by lia.
  replace (n >? 65535) with false by (symmetry; rewrite Z.gtb_ltb; apply Z.ltb_ge; lia).
  simpl. unfold u16. by rewrite Z.mod_small by lia.
Qed.

Lemma parseMTU_Itoa n : 576 <= n <= 65535 → parseMTU (Itoa n) = Ret n.
Proof.
  intros H. unfold parseMTU. rewrite Atoi_Itoa by lia. simpl.
  rewrite (proj2 (Z.ltb_ge n 576)) by lia.
  replace (n >? 65535) with false by (symmetry; rewrite Z.gtb_ltb; apply Z.ltb_ge; lia).
  simpl. unfold u16. by rewrite Z.mod_small by lia.
Qed.

Lemma parseUint16_range s name n : parseUint16 s name = Ret n → 0 <= n <= 65535.
Proof.
  unfold parseUint16, MaxUint16, u16. intros H. inv_ret. breflect.
  rewrite Z.mod_small by lia. lia.
Qed.

Lemma parsePort_range s n : parsePort s = Ret n → 0 <= n <= 65535.
Proof. unfold parsePort, u16. intros H. inv_ret. breflect. rewrite Z.mod_small by lia. lia. Qed.

Lemma parseMTU_range s n : parseMTU s = Ret n → 576 <= n <= 65535.
Proof. unfold parseMTU, u16. intros H. inv_ret. breflect. rewrite Z.mod_small by lia. lia. Qed.

(** ** Keys *)

Lemma parseKeyBase64_String k : length k = KeyLength → parseKeyBase64 (Key_String k) = Ret k.
Proof.
  intros H. unfold parseKeyBase64, Key_String. rewrite b64_round_trip. simpl.
  unfold key_of_bytes. by rewrite H.
Qed.

Lemma parseKeyHex_String k : length k = KeyLength → parseKeyHex (HexString k) = Ret k.
Proof.
  intros H. unfold parseKeyHex, HexString. rewrite hex_round_trip. simpl.
  unfold key_of_bytes. by rewrite H.
Qed.

Lemma key_of_bytes_length s k k' : key_of_bytes s k = Ret k' → length k' = KeyLength.
Proof. unfold key_of_bytes. intros H. inv_ret. breflect. by apply Nat.eqb_eq. Qed.

Lemma parseKeyBase64_length s k : parseKeyBase64 s = Ret k → length k = KeyLength.
Proof. unfold parseKeyBase64. intros H. inv_ret. by eapply key_of_bytes_length. Qed.

Lemma parseKeyHex_length s k : parseKeyHex s = Ret k → length k = KeyLength.
Proof. unfold parseKeyHex. intros H. inv_ret. by eapply key_of_bytes_length. Qed.

(** ** Networks *)

Definition wf_cidr (a : IPCidr) : Prop :=
  (length (IPof a) = 4%nat ∧ 0 <= Cidr a <= 32)
  ∨ (length (IPof a) = 16%nat ∧ To4 (IPof a) = None ∧ 0 <= Cidr a <= 128).

Lemma IPCidr_String_token a : 0 <= Cidr a → forallb token_char (IPCidr_String a) = true.
Proof.
  intros H. unfold IPCidr_String. rewrite !forallb_app.
  rewrite (ip_token _ (IP_String_chars _)), Itoa_token by done. done.
Qed.

Lemma IPCidr_String_elem a : wf_cidr a → clean_elem (IPCidr_String a).
Proof.
  intros H. apply token_elem; [apply IPCidr_String_token; destruct H as [[_ ?]|(_ & _ & ?)]; lia|].
  unfold IPCidr_String. by destruct (IP_String (IPof a)).
Qed.

Lemma To4_short ip : length ip = 4%nat → To4 ip = Some ip.
Proof. intros H. unfold To4. by rewrite H. Qed.

Lemma drop_S_app {A} (l t : list A) x : drop (S (length l)) (l ++ x :: t) = t.
Proof. induction l; simpl; [by rewrite drop_0|done]. Qed.

(** Cutting [s ++ c :: t] at the position of [c]. *)
Lemma cut_app (s t : gostring) c :
  take (length s) (s ++ c :: t) = s ∧ drop (S (length s)) (s ++ c :: t) = t.
Proof. split; [by rewrite take_app_length|apply drop_S_app]. Qed.

(** Parsing the printed form of a network gives it back. *)
Lemma parseIPCidr_String a : wf_cidr a → parseIPCidr (IPCidr_String a) = Ret a.
Proof.
  destruct a as [ip cidr]. unfold wf_cidr, parseIPCidr, IPCidr_String. cbn [IPof Cidr].
  intros Hwf. change ("/" ++ Itoa cidr) with ("/"%byte :: Itoa cidr).
  rewrite IndexByte_app by (by apply ip_chars_no_byte; [apply IP_String_chars|]).
  destruct (cut_app (IP_String ip) (Itoa cidr) "/"%byte) as [-> ->].
  assert (0 <= cidr < 2 ^ 63) as Hc by (destruct Hwf as [[_ ?]|(_ & _ & ?)]; lia).
  rewrite (Atoi_Itoa _ Hc).
  destruct Hwf as [[Hl Hr]|(Hl & H4 & Hr)].
  - rewrite ParseIP_String4 by done. cbn [or_fail mbind outcome_bind].
    rewrite To4_mapped by done. cbn.
    rewrite !Z.gtb_ltb, !(proj2 (Z.ltb_ge _ _)) by lia. cbn. unfold u8.
    by rewrite Z.mod_small by lia.
  - rewrite ParseIP_String16 by done. cbn [or_fail mbind outcome_bind].
    rewrite H4. cbn.
    rewrite andb_false_r, !Z.gtb_ltb, !(proj2 (Z.ltb_ge _ _)) by lia. cbn. unfold u8.
    by rewrite Z.mod_small by lia.
Qed.

(** What [parseIPCidr] returns has a 4-byte or a proper 16-byte address, and a
    prefix length that fits it. *)
Lemma parseIPCidr_wf s a : parseIPCidr s = Ret a → wf_cidr a.
Proof.
  unfold parseIPCidr, wf_cidr.
  destruct (match IndexByte s "/"%byte with None => _ | Some _ => _ end) as [addrStr cidrStr].
  intros H. apply bind_ret in H as (ip & Hip & H). apply or_fail_ret in Hip.
  apply ParseIP_length in Hip. destruct (To4 ip) as [p|] eqn:E4.
  - left. apply To4_length in E4. destruct cidrStr as [cs|].
    + inv_ret. breflect. rewrite andb_true_r in *. breflect. unfold u8.
      rewrite Z.mod_small; lia.
    + inv_ret. lia.
  - right. destruct cidrStr as [cs|].
    + inv_ret. breflect. unfold u8. rewrite Z.mod_small; [done|lia].
    + inv_ret. split_and!; [done..|lia|lia].
Qed.

(** ** Comma-separated lists *)

Lemma split_elem_ret s w t : split_elem s w = Ret t ↔ t = TrimSpace w ∧ t ≠ [].
Proof.
  unfold split_elem. destruct (TrimSpace w) as [|b r] eqn:E; simpl.
  - split; [intros [=]|]. by intros [-> ?].
  - split; [intros [= <-]; by split|]. by intros [-> _].
Qed.

Lemma clean_elem_TrimSpace w : clean_elem w → TrimSpace w = w.
Proof. intros [[_ [_ Ht]] _]. by apply TrimSpace_id. Qed.

(** A list of clean elements printed with [", "] reads back. *)
Lemma splitList_Join l :
  l ≠ [] → Forall clean_elem l → splitList (Join l ", ") = Ret l.
Proof.
  intros Hne Hl. unfold splitList. apply mapM_outcome_ret.
  assert (Split (Join l ", ") ","%byte = match l with [] => [] | w :: l => w :: map (cons " "%byte) l end) as ->.
  { assert (∀ l w, Forall clean_elem (w :: l) → ∀ p, has_byte p ","%byte = false →
      Split (p ++ Join (w :: l) ", ") ","%byte = (p ++ w) :: map (cons " "%byte) l) as H.
    { clear. induction l as [|w' l IH]; intros w Hf p Hp; inversion Hf as [|?? (_ & _ & Hw) Hf']; subst.
      - simpl. apply Split_single. by rewrite has_byte_app, Hp, Hw.
      - change (Join (w :: w' :: l) ", ") with (w ++ ","%byte :: " "%byte :: Join (w' :: l) ", ").
        rewrite app_assoc, Split_app by (by rewrite has_byte_app, Hp, Hw).
        f_equal. by apply (IH w' Hf' [" "%byte]). }
    destruct l as [|w l]; [done|]. by apply (H l w Hl []). }
  destruct l as [|w l]; [done|]. inversion Hl as [|?? Hw Hl']; subst.
  constructor; [apply split_elem_ret; split; [by rewrite clean_elem_TrimSpace|apply Hw]|].
  clear Hne Hl Hw. generalize (Join (w :: l) ", ") as s. intros s.
  induction Hl' as [|w' l' Hw' Hl IH]; simpl; constructor; [|done].
  apply split_elem_ret. split; [|apply Hw'].
  symmetry. apply TrimSpace_space; [apply Hw'|done].
Qed.

Lemma Split_has_byte s c d : has_byte s d = false → Forall (λ w, has_byte w d = false) (Split s c).
Proof.
  induction s as [|b s IH]; simpl; [by repeat constructor|].
  intros [Hb Hs]%orb_false_iff. specialize (IH Hs).
  destruct (Byte.eqb b c); [by constructor|].
  destruct (Split s c) as [|w ws]; [repeat constructor; simpl; by rewrite Hb|].
  inversion IH; subst. constructor; [|done]. simpl. by rewrite Hb.
Qed.

(** The elements of a parsed list are clean. *)
Lemma splitList_clean s l : clean s → splitList s = Ret l → Forall clean_elem l.
Proof.
  intros (Hh & Hn & _) H. unfold splitList in H. apply mapM_outcome_ret in H.
  assert (Forall (λ w, (has_byte w "#"%byte = false ∧ has_byte w x0a = false) ∧
                       has_byte w ","%byte = false) (Split s ","%byte)) as HF.
  { apply Forall_and; split; [apply Forall_and; split; by apply Split_has_byte|apply Split_no_sep]. }
  revert HF. induction H as [|w t ws ts Hw _ IH]; [constructor|].
  inversion 1 as [|?? [[Hw1 Hw2] Hw3] Hws]; subst. constructor; [|by apply IH].
  apply split_elem_ret in Hw as [-> Hne].
  split_and!; [split_and!; auto with go|done|auto with go].
Qed.

Lemma splitList_nonempty s l : splitList s = Ret l → l ≠ [].
Proof.
  unfold splitList. intros H%mapM_outcome_ret ->. inversion H.
  by apply (Split_nonempty s ","%byte).
Qed.

(** ** Endpoints *)

(** The address inside the brackets, without its zone. *)
Definition strip_zone (host : gostring) : gostring :=
  match LastIndexByte host "%"%byte with
  | Some n => if (0 <? n)%nat then take n host else host
  | None => host
  end.

(** Hosts that [Endpoint_String] prints in a form [parseEndpoint] accepts. *)
Definition plain_host (h : gostring) : Prop :=
  has_byte h ":"%byte = false ∧ first_is h "["%byte = false ∧ last_is h "]"%byte = false ∧ h ≠ [].
Definition v6_host (h : gostring) : Prop :=
  has_byte h ":"%byte = true ∧ is_Some (ParseIP (strip_zone h)).

Definition wf_endpoint (e : Endpoint) : Prop :=
  (plain_host (Host e) ∨ v6_host (Host e)) ∧ 0 <= Port e <= 65535.

Lemma LastIndexByte_snoc s c d : c ≠ d → LastIndexByte (s ++ [d]) c = LastIndexByte s c.
Proof.
  intros Hne. induction s as [|b s IH]; simpl; [by rewrite byte_eqb_neq by congruence|by rewrite IH].
Qed.

Lemma last_is_snoc s c : last_is (s ++ [c]) c = true.
Proof. unfold last_is. rewrite rev_app_distr. simpl. apply byte_eqb_refl. Qed.

Lemma last_is_true s c : last_is s c = true → ∃ t, s = t ++ [c].
Proof.
  unfold last_is. destruct (rev s) as [|b r] eqn:E; [done|]. simpl.
  intros H. destruct (byte_eqb_spec b c) as [->|]; [|done].
  exists (rev r). by rewrite <- (rev_involutive s), E.
Qed.

(** The slice of a bracketed host that [parseEndpoint] hands to [ParseIP]. *)
Lemma bracket_slice h :
  take ((match LastIndexByte ("["%byte :: h ++ ["]"%byte]) "%"%byte with
         | Some n => if (1 <? n)%nat then n else (length ("["%byte :: h ++ ["]"%byte]) - 1)%nat
         | None => (length ("["%byte :: h ++ ["]"%byte]) - 1)%nat end) - 1)
       (drop 1 ("["%byte :: h ++ ["]"%byte])) = strip_zone h.
Proof.
  unfold strip_zone. cbn [LastIndexByte]. rewrite LastIndexByte_snoc by done.
  cbn [length drop]. rewrite length_app. cbn [length].
  assert (take (S (length h + 1) - 1 - 1) (h ++ ["]"%byte]) = h) as Hfull.
  { replace (S (length h + 1) - 1 - 1)%nat with (length h) by lia. apply take_app_length. }
  destruct (LastIndexByte h "%"%byte) as [n|] eqn:E; [|exact Hfull].
  apply LastIndexByte_Some in E as (_ & _ & Hn). change (1 <? S n)%nat with (0 <? n)%nat.
  destruct (0 <? n)%nat; [|exact Hfull].
  replace (S n - 1)%nat with n by lia. rewrite drop_0. by rewrite take_app_le by lia.
Qed.

Lemma ParseIP_strip_long h : is_Some (ParseIP (strip_zone h)) → (2 <= length h)%nat.
Proof.
  intros [ip H]. assert (length (strip_zone h) <= length h)%nat.
  { unfold strip_zone. destruct (LastIndexByte h _) as [n|]; [|lia].
    destruct (0 <? n)%nat; [rewrite length_take; lia|lia]. }
  destruct (strip_zone h) as [|a [|b t]]; [done| |simpl in *; lia].
  exfalso. revert H. by_bytes (λ a, match ParseIP [a] with None => true | _ => false end) a.
  by destruct (ParseIP [a]).
Qed.

(** Parsing the printed form of an endpoint gives it back. *)
Lemma parseEndpoint_String e : wf_endpoint e → parseEndpoint (Endpoint_String e) = Ret e.
Proof.
  destruct e as [h port]. intros [Hh Hp]. cbn [Host Port] in *.
  assert (has_byte (Itoa port) ":"%byte = false) as Hd
    by (apply digits_no_byte; [apply Itoa_digits; lia|done]).
  assert (∀ s, s ++ ":" ++ Itoa port = s ++ ":"%byte :: Itoa port) as Ecut by done.
  unfold Endpoint_String. cbn [Host Port].
  destruct Hh as [(Hc & Hf & Hl & Hne)|(Hc & Hv6)].
  - rewrite (proj2 (IndexByte_None _ _) Hc), Ecut. unfold parseEndpoint.
    rewrite (LastIndexByte_app _ _ _ Hd). destruct (cut_app h (Itoa port) ":"%byte) as [-> ->].
    destruct h as [|b h]; [done|]. cbn [length Nat.ltb Nat.leb fail_if mbind outcome_bind].
    rewrite parsePort_Itoa by lia. cbn [mbind outcome_bind].
    rewrite (proj2 (IndexByte_None _ _) Hc), Hf, Hl. cbn. unfold u16.
    by rewrite Z.mod_small by lia.
  - destruct (IndexByte h ":"%byte) as [j|] eqn:Ej; [|by apply IndexByte_None in Ej; congruence].
    assert ("[" ++ h ++ "]:" ++ Itoa port = ("["%byte :: h ++ ["]"%byte]) ++ ":"%byte :: Itoa port) as ->
      by (simpl; by rewrite <- app_assoc).
    unfold parseEndpoint. rewrite (LastIndexByte_app _ _ _ Hd).
    destruct (cut_app ("["%byte :: h ++ ["]"%byte]) (Itoa port) ":"%byte) as [-> ->].
    pose proof (ParseIP_strip_long _ Hv6) as Hlen. destruct Hv6 as [ip Hip].
    rewrite bracket_slice. cbn [length]. cbn [Nat.ltb Nat.leb fail_if mbind outcome_bind].
    rewrite parsePort_Itoa by lia. cbn [mbind outcome_bind].
    assert (IndexByte ("["%byte :: h ++ ["]"%byte]) ":"%byte = Some (S j)) as ->.
    { apply IndexByte_Some in Ej as (E & Hnb & Hj). cbn [IndexByte].
      change (Byte.eqb "["%byte ":"%byte) with false. cbv iota. rewrite E, <- app_assoc.
      simpl. rewrite IndexByte_app by done. rewrite length_take. simpl. do 2 f_equal. lia. }
    change ("["%byte :: h ++ ["]"%byte]) with (("["%byte :: h) ++ ["]"%byte]).
    rewrite last_is_snoc. cbn [app first_is index_gt]. rewrite byte_eqb_refl.
    rewrite length_app. cbn [length].
    assert (∃ k, length h + 1 = S (S (S k)))%nat as [k Hk] by (exists (length h - 2)%nat; lia).
    rewrite Hk. cbn. rewrite Hip. cbn. rewrite (ParseIP_length _ _ Hip). cbn. unfold u16.
    rewrite Z.mod_small by lia. rewrite drop_0.
    change (S (S k)) with (S (S (S k)) - 1)%nat. rewrite <- Hk.
    replace (length h + 1 - 1)%nat with (length h) by lia. by rewrite take_app_length.
Qed.

(** The guard of the bracketed form, and the host it yields. *)
Lemma bracketed_inv h :
  (3 <? length h)%nat && first_is h "["%byte && last_is h "]"%byte
    && index_gt (IndexByte h ":"%byte) 0 = true →
  ∃ t, h = "["%byte :: t ++ ["]"%byte] ∧ has_byte t ":"%byte = true ∧
       take (length h - 2) (drop 1 h) = t.
Proof.
  intros [[[Hlen%Nat.ltb_lt Hf]%andb_true_iff Hl]%andb_true_iff Hc]%andb_true_iff.
  destruct (last_is_true h _ Hl) as [t Ht]. destruct t as [|b t]; [rewrite Ht in Hlen; simpl in Hlen; lia|].
  rewrite Ht in *. simpl in Hf. destruct (byte_eqb_spec b "["%byte) as [->|]; [|done].
  exists t. split_and!; [done| |].
  - destruct (has_byte t ":"%byte) eqn:E; [done|].
    rewrite (proj2 (IndexByte_None _ _)) in Hc; [done|]. simpl. by rewrite has_byte_app, E.
  - simpl. rewrite length_app, drop_0. simpl. replace (length t + 1 - 1)%nat with (length t) by lia.
    apply take_app_length.
Qed.

Lemma parseEndpoint_host s e :
  parseEndpoint s = Ret e →
  0 <= Port e <= 65535 ∧ Host e ≠ [] ∧
  (plain_host (Host e) ∨ v6_host (Host e) ∨ first_is (Host e) ":"%byte = true).
Proof.
  unfold parseEndpoint. destruct (LastIndexByte s ":"%byte) as [i|]; [|done].
  generalize (take i s) as h. intros h H. apply bind_ret in H as ([] & Hne%fail_if_ret & H).
  apply bind_ret in H as (port & Hp%parsePort_range & H).
  assert (h ≠ []) as Hnil by (intros E; rewrite E in Hne; done).
  assert (u16 port = port) as Eu by (unfold u16; rewrite Z.mod_small; lia).
  destruct (first_is h _ || last_is h _ || index_gt _ 0) eqn:Eg.
  - destruct ((3 <? length h)%nat && _ && _ && _) eqn:Eb; [|done].
    apply bracketed_inv in Eb as (t & Eh & Hc & Et).
    apply bind_ret in H as (ip & Hip%or_fail_ret & H).
    rewrite Eh, bracket_slice in Hip.
    apply bind_ret in H as ([] & _ & H). injection H as <-.
    cbn [Host Port]. rewrite Eu, Et.
    split_and!; [lia|lia|by destruct t|]. right. left. split; [done|]. by eexists.
  - injection H as <-. cbn [Host Port]. rewrite Eu. split_and!; [lia|lia|done|].
    apply orb_false_iff in Eg as [[Hf Hl]%orb_false_iff Hc].
    destruct (IndexByte h ":"%byte) as [j|] eqn:Ej.
    + right. right. destruct j; [|done]. destruct h as [|b h']; [done|]. simpl in *.
      destruct (Byte.eqb b ":"%byte); [done|]. by destruct (IndexByte h' _).
    + left. split_and!; [by apply IndexByte_None|done..].
Qed.

(** Hosts of parsed endpoints inherit from the line what printing needs. *)
Definition clean_host (h : gostring) : Prop :=
  has_byte h "#"%byte = false ∧ has_byte h x0a = false ∧
  (has_byte h ":"%byte = false → space_width false h = 0%nat).

Lemma has_byte_take s n c : has_byte s c = false → has_byte (take n s) c = false.
Proof. rewrite <- (take_drop n s) at 1. rewrite has_byte_app. by intros [? _]%orb_false_iff. Qed.

Lemma has_byte_drop s n c : has_byte s c = false → has_byte (drop n s) c = false.
Proof. rewrite <- (take_drop n s) at 1. rewrite has_byte_app. by intros [_ ?]%orb_false_iff. Qed.

Lemma parseEndpoint_clean s e : clean s → parseEndpoint s = Ret e → clean_host (Host e).
Proof.
  intros (Hh & Hn & [Hl _]). unfold parseEndpoint.
  destruct (LastIndexByte s ":"%byte) as [i|]; [|done].
  assert (space_width false (take i s) = 0%nat) as Hw
    by (eapply space_width_prefix; rewrite take_drop; done).
  set (h := take i s) in *. intros H. apply bind_ret in H as ([] & Hne & H).
  apply bind_ret in H as (port & _ & H).
  assert (has_byte h "#"%byte = false ∧ has_byte h x0a = false) as [Hh' Hn']
    by (split; by apply has_byte_take).
  destruct (first_is h _ || last_is h _ || index_gt _ 0).
  - destruct ((3 <? length h)%nat && first_is h _ && last_is h _ && _) eqn:Eb; [|done].
    apply bracketed_inv in Eb as (t & Eh & Hc & Et). apply bind_ret in H as (ip & _ & H).
    apply bind_ret in H as ([] & _ & H). injection H as <-. cbn [Host].
    split_and!; [by apply has_byte_take, has_byte_drop..|]. by rewrite Et, Hc.
  - injection H as <-. by split_and!.
Qed.

Lemma port_tail_trimmed s port :
  0 <= port → space_width true (rev (s ++ ":"%byte :: Itoa port)) = 0%nat.
Proof.
  intros Hp. pose proof (Itoa_digits port Hp) as Hd. pose proof (Itoa_nonempty port Hp) as Hne.
  destruct (exists_last Hne) as (ds & d & E). rewrite E in *.
  change (s ++ ":"%byte :: ds ++ [d]) with (s ++ (":"%byte :: ds) ++ [d]).
  rewrite !rev_app_distr. simpl rev. simpl app.
  apply forallb_app_iff in Hd as [_ Hd]. simpl in Hd. rewrite andb_true_r in Hd.
  apply digit_ascii in Hd as [? ?]. by apply space_width_nonspace.
Qed.

Lemma Endpoint_String_clean e : wf_endpoint e → clean_host (Host e) → clean (Endpoint_String e).
Proof.
  intros [Hw Hp] (Hh & Hn & Hs). unfold Endpoint_String, clean.
  assert (0 <= Port e) as Hp0 by lia.
  pose proof (Itoa_digits _ Hp0) as Hd.
  assert (has_byte (Itoa (Port e)) "#"%byte = false ∧ has_byte (Itoa (Port e)) x0a = false) as [Hd1 Hd2]
    by (split; by apply digits_no_byte).
  destruct (IndexByte (Host e) ":"%byte) as [j|] eqn:Ej.
  - split_and!; [autorewrite with go; by rewrite ?Hh, ?Hn, ?Hd1, ?Hd2..|].
    assert ("[" ++ Host e ++ "]:" ++ Itoa (Port e) =
            ("["%byte :: Host e ++ ["]"%byte]) ++ ":"%byte :: Itoa (Port e)) as ->
      by (simpl; by rewrite <- app_assoc).
    split; [by apply space_width_nonspace|by apply port_tail_trimmed].
  - apply IndexByte_None in Ej.
    split_and!; [autorewrite with go; by rewrite ?Hh, ?Hn, ?Hd1, ?Hd2..|].
    split; [|by apply port_tail_trimmed].
    apply space_width_ascii; [|done|by apply Hs].
    destruct Hw as [(_ & _ & _ & ?)|(? & _)]; [done|congruence].
Qed.

Lemma Endpoint_String_nonempty e : Endpoint_String e ≠ [].
Proof. unfold Endpoint_String. destruct (IndexByte _ _); [done|]. by destruct (Host e). Qed.
