(* ===== verification/AwgFacts.v ===== *)
(** * What AmneziaWG validation accepts

    Order-independent characterisations of the checks of [awg_validation.go]:
    ranges, the configuration-wide constraints, and the CPS packet grammar. *)
From S2P Require Import Prelude GoStrings GoStrconv GoEncoding GoNet Conf AwgValidation ParserFacts.

Local Open Scope Z_scope.

(** ** Ranges *)

(** A non-empty digit string with its value. *)
Definition numeral (s : gostring) (n : Z) : Prop :=
  s ≠ [] ∧ forallb is_digit s = true ∧ n = dec_value 0 s.

Lemma numeral_no_dash s n : numeral s n → has_byte s "-"%byte = false.
Proof. intros (_ & H & _). by apply digits_no_byte. Qed.

Lemma range_part_ret bits p n :
  0 <= bits <= 64 → range_part bits p = Ret n ↔ numeral p n ∧ n < 2 ^ bits.
Proof.
  intros Hb. unfold range_part, numeral. destruct (str_eqb_spec p "") as [->|Hne]; cbn [fail_if mbind outcome_bind].
  { split; [done|]. by intros [[? _] _]. }
  destruct (forallb is_digit p) eqn:Hd; cbn [negb fail_if mbind outcome_bind];
    [|split; [done|]; by intros [(_ & ? & _) _]].
  rewrite map_error_ret, ParseUint_ret by done. rewrite Hd. split.
  - intros (_ & _ & -> & H). split; [done|]. lia.
  - intros [(_ & _ & ->) H]. split_and!; [done..|lia].
Qed.

Lemma Split_one s c p : Split s c = [p] → s = p ∧ has_byte p c = false.
Proof.
  intros H. pose proof (Join_Split s c) as HJ. pose proof (Split_no_sep s c) as HN.
  rewrite H in *. cbn in HJ. apply Forall_cons in HN as [? _]. done.
Qed.

Lemma Split_two s c p q :
  Split s c = [p; q] → s = p ++ c :: q ∧ has_byte p c = false ∧ has_byte q c = false.
Proof.
  intros H. pose proof (Join_Split s c) as HJ. pose proof (Split_no_sep s c) as HN.
  rewrite H in *. cbn in HJ. apply Forall_cons in HN as [? [? _]%Forall_cons]. done.
Qed.

(** Accepted ranges: [n], or [n-m] with [n <= m], both below [2^bits]. *)
Lemma ParseAWGRange_ret value bits lo hi :
  0 <= bits <= 64 →
  ParseAWGRange value bits = Ret (lo, hi) ↔
    (numeral value lo ∧ hi = lo ∧ lo < 2 ^ bits) ∨
    (∃ p q, value = p ++ "-" ++ q ∧ numeral p lo ∧ numeral q hi ∧ lo <= hi < 2 ^ bits).
Proof.
  intros Hb. unfold ParseAWGRange. split.
  - destruct (Split value "-"%byte) as [|p [|q [|r l]]] eqn:E; [done| | |done].
    + apply Split_one in E as [-> _]. intros H. inv_ret. left.
      apply range_part_ret in Ha as [? ?]; done.
    + apply Split_two in E as (-> & _ & _). intros H. inv_ret. right.
      apply range_part_ret in Ha as [Hp Hlp]; [|done]. apply range_part_ret in Ha0 as [Hq Hlq]; [|done].
      breflect. exists p, q. split_and!; [done..|lia|lia].
  - intros [(Hn & -> & Hlt)|(p & q & -> & Hp & Hq & Hle & Hlt)].
    + rewrite Split_single by (by eapply numeral_no_dash).
      by rewrite (proj2 (range_part_ret bits value lo Hb)).
    + change (p ++ "-" ++ q) with (p ++ "-"%byte :: q).
      rewrite Split_app by (by eapply numeral_no_dash).
      rewrite Split_single by (by eapply numeral_no_dash).
      rewrite (proj2 (range_part_ret bits p lo Hb)) by (split; [done|lia]).
      rewrite (proj2 (range_part_ret bits q hi Hb)) by done. cbn.
      by rewrite Z.gtb_ltb, (proj2 (Z.ltb_ge _ _)).
Qed.

Lemma numeral_nonneg s n : numeral s n → 0 <= n.
Proof. intros (_ & Hd & ->). by apply dec_value_nonneg. Qed.

Lemma ParseAWGRange_bounds value bits lo hi :
  0 <= bits <= 64 → ParseAWGRange value bits = Ret (lo, hi) → 0 <= lo <= hi ∧ hi < 2 ^ bits.
Proof.
  intros Hb [(Hn & -> & ?)|(p & q & _ & Hp & _ & ? & ?)]%ParseAWGRange_ret; [| |done].
  - apply numeral_nonneg in Hn. lia.
  - apply numeral_nonneg in Hp. lia.
Qed.

Lemma ParseAWGRange_nonempty bits : ParseAWGRange [] bits = Fail (err "empty range boundary").
Proof. done. Qed.

(** ** Loops that only check *)

Lemma fold_unit_ret {A} (f : unit → A → outcome unit) l u :
  fold_outcome f tt l = Ret u ↔ Forall (λ x, f tt x = Ret tt) l.
Proof.
  destruct u. induction l as [|x l IH]; cbn; [by split|]. rewrite Forall_cons, <- IH.
  destruct (f tt x) as [[]| |]; cbn; split; try done; by intros [? ?].
Qed.

(** ** Header ranges *)

Definition ranges_disjoint (a b : Z * Z) : Prop := a.2 < b.1 ∨ b.2 < a.1.

Lemma overlap_check_ret m rs n lo hi :
  overlap_check m rs n lo hi = Ret tt ↔ Forall (λ r, ranges_disjoint r (lo, hi)) rs.
Proof.
  revert m. induction rs as [|[plo phi] rs IH]; intros m; cbn [overlap_check]; [by split|].
  rewrite Forall_cons. unfold ranges_disjoint at 1. cbn [fst snd].
  destruct ((lo <=? phi) && (hi >=? plo)) eqn:E; cbn [fail_if mbind outcome_bind].
  - breflect. split; [done|]. intros [? _]. lia.
  - rewrite IH. apply andb_false_iff in E. split; [|by intros [_ ?]].
    intros H. split; [|done]. destruct E; breflect; lia.
Qed.

(** The text of header [n] with its default. *)
Definition header_text (n : Z) (h : gostring) : gostring := if h =?s "" then Itoa n else h.

Lemma header_check_ret n hs rs :
  header_check n hs rs = Ret tt ↔
  ∃ rs', Forall2 (λ nh r, ParseAWGRange (header_text nh.1 nh.2) 32 = Ret r)
           (zip (seqZ n (Z.of_nat (length hs))) hs) rs' ∧
         (∀ i r, rs' !! i = Some r → Forall (λ r0, ranges_disjoint r0 r) (rs ++ take i rs')).
Proof.
  revert n rs. induction hs as [|h hs IH]; intros n rs.
  - cbn. split; [|done]. intros _. exists []. by split.
  - cbn [header_check length]. fold (header_text n h).
    replace (Z.of_nat (S (length hs))) with (Z.succ (Z.of_nat (length hs))) by lia.
    rewrite seqZ_cons by lia. cbn [zip zip_with]. rewrite Z.pred_succ.
    destruct (ParseAWGRange (header_text n h) 32) as [[lo hi]| |] eqn:EP; cbn [map_error mbind outcome_bind];
      [|split; [done|]; intros (rs' & H & _); inversion H; subst; cbn in *; congruence..].
    destruct (overlap_check 1 rs n lo hi) as [[]| |] eqn:EO; cbn [mbind outcome_bind];
      [|split; [done|]; intros (rs' & H2 & Hd); inversion H2 as [|? r ? rs'' Hr Hrs]; subst;
        cbn in Hr; rewrite EP in Hr; injection Hr as <-; specialize (Hd 0%nat _ eq_refl);
        cbn in Hd; rewrite app_nil_r in Hd;
        by rewrite (proj2 (overlap_check_ret 1 rs n lo hi) Hd) in EO..].
    apply overlap_check_ret in EO. unfold Z.succ in *. rewrite IH. split.
    + intros (rs' & H2 & Hd). exists ((lo, hi) :: rs'). split; [by constructor|].
      intros [|i] r; cbn; [intros [= <-]; by rewrite app_nil_r|].
      intros Hi. apply Hd in Hi. by rewrite <- app_assoc in Hi.
    + intros (rs' & H2 & Hd). inversion H2 as [|? r ? rs'' Hr Hrs]; subst. cbn in Hr.
      rewrite EP in Hr. injection Hr as <-. exists rs''. split; [done|].
      intros i r Hi. specialize (Hd (S i) r Hi). cbn in Hd. by rewrite <- app_assoc.
Qed.

(** ** The whole configuration *)

Section Valid.
Context {RT : GoRuntime}.

(** Every padding fits one UDP datagram with its packet, and leaves room for
    the protected header when a header-protection key is set. *)
Definition padding_valid (protect : bool) (padding payload : Z) : Prop :=
  padding + payload <= udp_limit ∧ (protect = true → 12 <= padding).

(** What a valid configuration promises, without the order of the checks. *)
Record awg_valid (c : Config) : Prop := mk_awg_valid {
  av_junk : JunkPacketMinSize (Iface c) <= JunkPacketMaxSize (Iface c) <= udp_limit;
  av_padding : Forall2 (padding_valid (negb (Key_IsZero (HeaderProtectionKey (Iface c)))))
                 (paddings (Iface c)) (payloads (Iface c));
  av_headers : ∃ rs, Forall2 (λ nh r, ParseAWGRange (header_text nh.1 nh.2) 32 = Ret r)
                       (zip [1; 2; 3; 4] (headers_of (Iface c))) rs ∧
                     ∀ i j a b, (i < j)%nat → rs !! i = Some a → rs !! j = Some b → ranges_disjoint a b;
  av_ranges : ∀ name v, (name, v) ∈ range_fields (Iface c) → v = [] ∨ is_ret (ParseAWGRange v 16) = true;
  av_bools : ∀ name v, (name, v) ∈ bool_fields (Iface c) → v = [] ∨ is_ret (ParseAWGBool v) = true;
  av_peers : Forall (λ p, PersistentKeepalive p = [] ∨
                          is_ret (parsePersistentKeepalive (PersistentKeepalive p)) = true) (Peers c);
  av_ipackets : ∀ m, IPackets (Iface c) = Some m →
                  map_Forall (λ k spec, k ∈ ipacket_keys ∧ ValidateCPS spec = Ret tt) m;
}.

Lemma padding_check_ret protect n p payload :
  padding_check protect tt (n, p, payload) = Ret tt ↔ padding_valid protect p payload.
Proof.
  unfold padding_check, padding_valid. rewrite Z.gtb_ltb.
  destruct (Z.ltb_spec udp_limit (p + payload)); cbn [fail_if mbind outcome_bind].
  - split; [done|]. lia.
  - rewrite fail_if_ret, andb_false_iff, Z.ltb_ge. destruct protect; naive_solver lia.
Qed.

Lemma optional_check {A} (v : gostring) (f : goerror → goerror) (m : outcome A) :
  (if v =?s "" then Ret tt else _ ← map_error f m; Ret tt) = Ret tt ↔ v = [] ∨ is_ret m = true.
Proof.
  destruct (str_eqb_spec v ""); [by split; auto|]. destruct m; cbn; split; auto; try done; by intros [?|?].
Qed.

Lemma peer_check_ret p :
  peer_check tt p = Ret tt ↔
  PersistentKeepalive p = [] ∨ is_ret (parsePersistentKeepalive (PersistentKeepalive p)) = true.
Proof.
  unfold peer_check. destruct (str_eqb_spec (PersistentKeepalive p) ""); [by split; auto|].
  destruct (parsePersistentKeepalive _); cbn; split; auto; try done; by intros [?|?].
Qed.

Lemma ipacket_check_ret k spec :
  ipacket_check tt (k, spec) = Ret tt ↔ k ∈ ipacket_keys ∧ ValidateCPS spec = Ret tt.
Proof.
  unfold ipacket_check. assert (existsb (str_eqb k) ipacket_keys = true ↔ k ∈ ipacket_keys) as Hk.
  { rewrite existsb_exists, list_elem_of_In. split.
    - intros (x & Hx & ->%str_eqb_true). done.
    - intros Hx. exists k. by rewrite str_eqb_refl. }
  destruct (existsb (str_eqb k) ipacket_keys); cbn [negb fail_if mbind outcome_bind].
  - rewrite map_error_ret. naive_solver.
  - split; [done|]. intros [?%Hk _]. done.
Qed.

Lemma seq_ret (m : outcome unit) (k : outcome unit) :
  (_ ← m; k) = Ret tt ↔ m = Ret tt ∧ k = Ret tt.
Proof. destruct m as [[]| |]; cbn; split; intros; destruct_and?; done. Qed.

Lemma iterate_Forall {A} (P : A → Prop) l : Forall P (iterate l) ↔ Forall P l.
Proof. by rewrite iterate_perm. Qed.

Lemma paddings_check_ret protect i :
  Forall (λ x, padding_check protect tt x = Ret tt) (zip (zip [1; 2; 3; 4] (paddings i)) (payloads i))
  ↔ Forall2 (padding_valid protect) (paddings i) (payloads i).
Proof.
  unfold paddings, payloads. cbn [zip zip_with]. rewrite !Forall_cons, !padding_check_ret, !Forall2_cons.
  naive_solver.
Qed.

Lemma ValidateAWG_ret c : ValidateAWG c = Ret tt ↔ awg_valid c.
Proof.
  unfold ValidateAWG. rewrite !seq_ret, !fail_if_ret, !Z.gtb_ltb, !Z.ltb_ge, !fold_unit_ret, !iterate_Forall.
  rewrite header_check_ret, paddings_check_ret. split.
  - intros (H1 & H2 & H3 & (rs & Hrs & Hd) & H5 & H6 & H7 & H8). split.
    + done.
    + done.
    + exists rs. split; [exact Hrs|]. intros i j a b Hij Ha Hb. specialize (Hd j b Hb).
      eapply Forall_forall in Hd; [exact Hd|]. cbn. eapply list_elem_of_lookup_2.
      rewrite lookup_take_lt; [exact Ha|done].
    + intros name v Hin. eapply Forall_forall in Hin; [|exact H5]. by apply optional_check in Hin.
    + intros name v Hin. eapply Forall_forall in Hin; [|exact H6]. by apply optional_check in Hin.
    + eapply Forall_impl; [exact H7|]. intros p. by apply peer_check_ret.
    + intros m Hm k spec Hk. unfold ipacket_entries in H8. rewrite Hm in H8.
      apply elem_of_map_to_list in Hk. eapply Forall_forall in Hk; [|exact H8].
      by apply ipacket_check_ret.
  - intros [H1 H2 (rs & Hrs & Hd) H5 H6 H7 H8]. split_and!; [lia|lia|done| | | | |].
    + exists rs. split; [exact Hrs|]. intros j b Hb. apply Forall_forall. intros a Ha. cbn in Ha.
      apply list_elem_of_lookup_1 in Ha as [i Hi]. apply lookup_take_Some in Hi as [Hi Hij].
      by eapply Hd.
    + apply Forall_forall. intros [name v] Hin. apply optional_check. by eapply H5.
    + apply Forall_forall. intros [name v] Hin. apply optional_check. by eapply H6.
    + eapply Forall_impl; [exact H7|]. intros p. by apply peer_check_ret.
    + unfold ipacket_entries. destruct (IPackets (Iface c)) as [m|]; [|constructor].
      apply Forall_forall. intros [k spec] Hk%elem_of_map_to_list. apply ipacket_check_ret.
      by apply (H8 m eq_refl).
Qed.
End Valid.

(** ** The CPS packet grammar

    [ValidateCPS] scans its input with a loop and counters; here is the
    language it accepts, as an inductive grammar with sizes, and the proof that
    the loop always ends and accepts exactly that language. *)

Local Open Scope Z_scope.

(** ** Grammar *)

(** One tag with its argument, the bytes it adds to the packet and the
    timestamps it contains. *)
Inductive cps_item : gostring → gostring → Z → Z → Prop :=
| item_length tag arg n :
    tag ∈ ["r" : gostring; "rc" : gostring; "rd" : gostring; "dz" : gostring] → numeral arg n → n <= 65535 → cps_item tag arg n 0
| item_bytes arg data :
    hex_DecodeString (TrimPrefix arg "0x") = Ret data → data ≠ [] →
    cps_item "b" arg (Z.of_nat (length data)) 0
| item_timestamp : cps_item "t" [] 4 1
| item_data tag : tag ∈ ["d" : gostring; "ds" : gostring] → cps_item tag [] 0 0.

(** The words between the angle brackets: a tag, or a tag and an argument. *)
Inductive cps_words : list gostring → gostring → gostring → Prop :=
| words_tag tag : cps_words [tag] tag []
| words_arg tag arg : cps_words [tag; arg] tag arg.

(** A packet description with the number of tags, the packet size and the
    number of timestamps. *)
Inductive cps_packet : gostring → Z → Z → Z → Prop :=
| packet_end : cps_packet [] 0 0 0
| packet_tag body rest tag arg n t count size stamps :
    has_byte body ">"%byte = false → cps_words (Fields body) tag arg → cps_item tag arg n t →
    cps_packet (TrimSpace rest) count size stamps →
    cps_packet ("<" ++ body ++ ">" ++ rest) (1 + count) (n + size) (t + stamps).

(** ** One tag *)

Lemma hex_DecodeString_length s k : hex_DecodeString s = Ret k → length s = (2 * length k)%nat.
Proof.
  remember (length s) as n eqn:Hn. revert s k Hn.
  induction n as [n IH] using lt_wf_ind. intros s k ->.
  destruct s as [|a [|b s]]; cbn [hex_DecodeString].
  - by intros [= <-].
  - by destruct (hex_val a).
  - destruct (hex_val a); [|done]. destruct (hex_val b); [|done]. cbn.
    destruct (hex_DecodeString s) as [r| |] eqn:E; [|done..]. intros [= <-]. cbn.
    specialize (IH (length s) ltac:(simpl; lia) s r eq_refl E). lia.
Qed.

Lemma hex_DecodeString_no_panic s : hex_DecodeString s ≠ Panic.
Proof.
  remember (length s) as n eqn:Hn. revert s Hn.
  induction n as [n IH] using lt_wf_ind. intros s ->.
  destruct s as [|a [|b s]]; cbn [hex_DecodeString]; [done|by destruct (hex_val a)|].
  destruct (hex_val a); [|done]. destruct (hex_val b); [|done]. cbn.
  specialize (IH (length s) ltac:(simpl; lia) s eq_refl). by destruct (hex_DecodeString s).
Qed.

Lemma Contains_dash s : Contains s "-" = has_byte s "-"%byte.
Proof.
  induction s as [|b s IH]; [done|].
  change (Contains (b :: s) "-") with (Byte.eqb b "-"%byte && true || Contains s "-").
  by rewrite IH, andb_true_r.
Qed.

Section Cps.
Context {RT : GoRuntime}.

Lemma existsb_str_elem s l : existsb (str_eqb s) l = true ↔ s ∈ l.
Proof.
  rewrite existsb_exists, list_elem_of_In. split.
  - by intros (x & Hx & ->%str_eqb_true).
  - intros Hx. exists s. by rewrite str_eqb_refl.
Qed.

Lemma tag_not_in s l x : existsb (str_eqb s) l = false → x ∈ l → s ≠ x.
Proof. intros H Hx ->. apply existsb_str_elem in Hx. congruence. Qed.

Lemma length_tag_ret (arg : gostring) (size stamps size' stamps' : Z) :
  match ParseAWGRange arg 16 with
  | Ret (low, high) =>
      if negb (low =? high) || Contains arg "-"
      then Fail (err "CPS length must be a non-negative integer up to 65535")
      else Ret (size + low, stamps)
  | _ => Fail (err "CPS length must be a non-negative integer up to 65535")
  end = Ret (size', stamps') ↔
  ∃ n, numeral arg n ∧ n <= 65535 ∧ size' = size + n ∧ stamps' = stamps.
Proof.
  rewrite Contains_dash. split.
  - destruct (ParseAWGRange arg 16) as [[lo hi]| |] eqn:E; [|done..].
    destruct (has_byte arg "-"%byte) eqn:Hd; [by rewrite orb_true_r|]. rewrite orb_false_r.
    destruct (lo =? hi); [|done]. cbn. intros [= <- <-].
    apply ParseAWGRange_ret in E as [(Hn & -> & Hlt)|(p & q & -> & _)]; [| |lia].
    + exists lo. split_and!; [done|lia|done..].
    + rewrite has_byte_app in Hd. cbn in Hd. by rewrite orb_true_r in Hd.
  - intros (n & Hn & Hle & -> & ->).
    rewrite (proj2 (ParseAWGRange_ret arg 16 n n ltac:(lia))) by (left; split_and!; [done|done|lia]).
    by rewrite Z.eqb_refl, (numeral_no_dash _ _ Hn).
Qed.

Lemma bytes_tag_ret (arg : gostring) (size stamps size' stamps' : Z) :
  (_ ← fail_if ((TrimPrefix arg "0x" =?s "") || Nat.odd (length (TrimPrefix arg "0x")))
         (err "invalid CPS hexadecimal bytes");
   _ ← map_error (λ _, err "invalid CPS hexadecimal bytes") (hex_DecodeString (TrimPrefix arg "0x"));
   Ret (size + Z.of_nat (length (TrimPrefix arg "0x")) / 2, stamps)) = Ret (size', stamps') ↔
  ∃ data, hex_DecodeString (TrimPrefix arg "0x") = Ret data ∧ data ≠ [] ∧
          size' = size + Z.of_nat (length data) ∧ stamps' = stamps.
Proof.
  generalize (TrimPrefix arg "0x"). intros d. split.
  - intros H. apply bind_ret in H as ([] & Hg%fail_if_ret & H). apply orb_false_iff in Hg as [Hne _].
    apply bind_ret in H as (data & Hd%map_error_ret & H). injection H as <- <-.
    pose proof (hex_DecodeString_length _ _ Hd) as Hl. exists data. split_and!; [done| | |done].
    + intros ->. by destruct d.
    + rewrite Hl. f_equal. rewrite Nat2Z.inj_mul, Z.mul_comm. by apply Z.div_mul.
  - intros (data & Hd & Hne & -> & ->). pose proof (hex_DecodeString_length _ _ Hd) as Hl.
    assert (Nat.odd (length d) = false) as ->.
    { rewrite Hl. apply Nat.odd_even. }
    destruct (str_eqb_spec d "") as [->|_]; [by injection Hd as <-|].
    rewrite Hd. cbn [fail_if orb mbind outcome_bind map_error]. repeat f_equal.
    rewrite Hl. rewrite Nat2Z.inj_mul, Z.mul_comm. by apply Z.div_mul.
Qed.

(** [cps_tag] accepts exactly the items of the grammar, and at most one timestamp. *)
Lemma cps_tag_ret (tag arg : gostring) (size stamps size' stamps' : Z) :
  0 <= stamps →
  cps_tag tag arg size stamps = Ret (size', stamps') ↔
  ∃ n t, cps_item tag arg n t ∧ size' = size + n ∧ stamps' = stamps + t ∧ (t = 0 ∨ stamps' <= 1).
Proof.
  intros Hs. unfold cps_tag. destruct (existsb (str_eqb tag) ["r"; "rc"; "rd"; "dz"]) eqn:E1.
  { rewrite length_tag_ret. apply existsb_str_elem in E1. split.
    - intros (n & Hn & Hle & -> & ->). exists n, 0. split_and!; [by constructor|lia|lia|lia].
    - intros (n & t & Hi & -> & -> & _). inversion Hi; subst; try (exfalso; set_solver).
      exists n. split_and!; [done|lia|lia|lia]. }
  destruct (str_eqb_spec tag "b") as [->|E2].
  { cbn zeta. rewrite bytes_tag_ret. split.
    - intros (data & Hd & Hne & -> & ->). exists (Z.of_nat (length data)), 0.
      split_and!; [by constructor|lia|lia|lia].
    - intros (n & t & Hi & -> & -> & _). inversion Hi; subst; try (exfalso; set_solver).
      exists data. split_and!; [done|done|lia|lia]. }
  destruct (str_eqb_spec tag "t") as [->|E3].
  { destruct (str_eqb_spec arg "") as [->|Hne]; cbn [negb fail_if mbind outcome_bind].
    - rewrite Z.gtb_ltb. destruct (Z.ltb_spec 1 (stamps + 1)); cbn [fail_if mbind outcome_bind]; split.
      + done.
      + intros (n & t & Hi & -> & -> & Hle). inversion Hi; subst; try (exfalso; set_solver). lia.
      + intros [= <- <-]. exists 4, 1. split_and!; [constructor|lia|lia|lia].
      + intros (n & t & Hi & -> & -> & Hle). inversion Hi; subst; try (exfalso; set_solver). done.
    - split; [done|]. intros (n & t & Hi & _). inversion Hi; subst; try (exfalso; set_solver). }
  destruct (existsb (str_eqb tag) ["d"; "ds"]) eqn:E4.
  { apply existsb_str_elem in E4. destruct (str_eqb_spec arg "") as [->|Hne]; cbn [negb fail_if mbind outcome_bind].
    - split.
      + intros [= <- <-]. exists 0, 0. split_and!; [by constructor|lia|lia|lia].
      + intros (n & t & Hi & -> & -> & _). inversion Hi; subst; try (exfalso; set_solver). f_equal. f_equal; lia.
    - split; [done|]. intros (n & t & Hi & _). inversion Hi; subst; try (exfalso; set_solver). }
  split; [done|]. intros (n & t & Hi & _).
  inversion Hi as [? ? ? Hin| | |? Hin]; subst; try done.
  - by destruct (tag_not_in _ _ _ E1 Hin).
  - by destruct (tag_not_in _ _ _ E4 Hin).
Qed.

(** ** The loop *)

Lemma TrimSpace_length s : (length (TrimSpace s) <= length s)%nat.
Proof.
  destruct (TrimSpace_infix s) as (l & r & E). rewrite E at 2. rewrite !length_app. lia.
Qed.

(** Where the loop cuts: the text of the first tag and what follows it. *)
Lemma cut_tag rest e :
  IndexByte ("<"%byte :: rest) ">"%byte = Some e →
  ∃ body tail, rest = body ++ ">"%byte :: tail ∧ has_byte body ">"%byte = false ∧
    take (e - 1) (drop 1 ("<"%byte :: rest)) = body ∧ drop (S e) ("<"%byte :: rest) = tail.
Proof.
  cbn [IndexByte]. change (Byte.eqb "<"%byte ">"%byte) with false. cbv iota.
  destruct (IndexByte rest ">"%byte) as [j|] eqn:E; [|done]. cbn. intros [= <-].
  apply IndexByte_Some in E as (Er & Hn & _). exists (take j rest), (drop (S j) rest).
  replace (S j - 1)%nat with j by lia. cbn [drop]. by rewrite drop_0.
Qed.

Lemma cut_tag_app body tail :
  has_byte body ">"%byte = false →
  IndexByte ("<"%byte :: body ++ ">"%byte :: tail) ">"%byte = Some (S (length body)) ∧
  take (S (length body) - 1) (drop 1 ("<"%byte :: body ++ ">"%byte :: tail)) = body ∧
  drop (S (S (length body))) ("<"%byte :: body ++ ">"%byte :: tail) = tail.
Proof.
  intros Hb. split_and!.
  - cbn [IndexByte]. change (Byte.eqb "<"%byte ">"%byte) with false. cbv iota.
    by rewrite IndexByte_app.
  - replace (S (length body) - 1)%nat with (length body) by lia. cbn [drop]. rewrite drop_0.
    apply take_app_length.
  - cbn [drop]. apply drop_S_app.
Qed.

Lemma words_ret (ws : list gostring) (r : gostring * gostring) :
  tag_arg ws = Ret r ↔ cps_words ws (fst r) (snd r).
Proof.
  destruct r as [tag arg]. cbn. destruct ws as [|t [|a [|x ws]]]; split; try done.
  - inversion 1.
  - intros [= <- <-]. constructor.
  - by inversion 1.
  - intros [= <- <-]. constructor.
  - by inversion 1.
  - inversion 1.
Qed.

Lemma cps_item_nonneg tag arg n t : cps_item tag arg n t → 0 <= n ∧ 0 <= t.
Proof. destruct 1; split; try lia. by eapply numeral_nonneg. Qed.

Lemma cps_packet_nonneg s count size stamps :
  cps_packet s count size stamps → 0 <= count ∧ 0 <= size ∧ 0 <= stamps.
Proof.
  induction 1 as [|body rest tag arg n t count size stamps _ _ Hi _ IH]; [lia|].
  apply cps_item_nonneg in Hi. lia.
Qed.

(** Soundness: what the loop accepts is a packet within the limits. *)
Lemma cps_loop_sound fuel rest size count stamps c :
  0 <= size → 0 <= stamps <= 1 → cps_loop fuel rest size count stamps = Ret c →
  ∃ k n t, cps_packet rest k n t ∧ c = count + k ∧
           (rest ≠ [] → size + n <= 65507 ∧ c <= 4096) ∧ stamps + t <= 1.
Proof.
  revert rest size count stamps. induction fuel as [|fuel IH]; [done|].
  intros rest size count stamps Hsz Hst. cbn [cps_loop]. destruct rest as [|b rest].
  { intros [= <-]. exists 0, 0, 0. split_and!; [constructor|lia|done|lia]. }
  destruct (byte_eqb_spec b "<"%byte) as [->|]; cbn [negb]; [|done].
  destruct (IndexByte ("<"%byte :: rest) ">"%byte) as [e|] eqn:EI; [|done].
  destruct (cut_tag _ _ EI) as (body & tail & Er & Hb & -> & ->). intros H.
  apply bind_ret in H as ([tag arg] & Hw%words_ret & H). cbn [fst snd] in Hw.
  apply bind_ret in H as ([size1 stamps1] & Ht & H).
  apply cps_tag_ret in Ht as (n & t & Hi & -> & -> & Hone); [|lia].
  apply bind_ret in H as ([] & Hs1%fail_if_ret & H). apply bind_ret in H as ([] & Hs2%fail_if_ret & H).
  breflect. destruct (cps_item_nonneg _ _ _ _ Hi) as [Hn0 Ht0].
  apply IH in H as (k & n' & t' & Hp & -> & Hlim & Hts); [|lia|lia].
  pose proof (cps_packet_nonneg _ _ _ _ Hp) as (? & ? & ?).
  exists (1 + k), (n + n'), (t + t'). split_and!.
  - rewrite Er. by apply (packet_tag body tail tag arg).
  - lia.
  - intros _. destruct (decide (TrimSpace tail = [])) as [E|E]; [|destruct (Hlim E); lia].
    rewrite E in Hp. inversion Hp; subst; lia.
  - lia.
Qed.

(** Completeness: a packet within the limits is accepted, with fuel to spare. *)
Lemma cps_loop_complete rest k n t :
  cps_packet rest k n t → ∀ fuel size count stamps,
  (length rest < fuel)%nat → 0 <= size → 0 <= count → 0 <= stamps →
  size + n <= 65507 → count + k <= 4096 → stamps + t <= 1 →
  cps_loop fuel rest size count stamps = Ret (count + k).
Proof.
  induction 1 as [|body rest tag arg n t k m u Hb Hw Hi Hp IH];
    intros fuel size count stamps Hf Hs Hc Hst Hsz Hct Hts; (destruct fuel as [|fuel]; [lia|]).
  - cbn. f_equal. lia.
  - destruct (cps_packet_nonneg _ _ _ _ Hp) as (? & ? & ?). destruct (cps_item_nonneg _ _ _ _ Hi).
    change ("<" ++ body ++ ">" ++ rest) with ("<"%byte :: body ++ ">"%byte :: rest) in *.
    destruct (cut_tag_app body rest Hb) as (E1 & E2 & E3).
    cbn [cps_loop]. rewrite byte_eqb_refl, E1. cbn [negb]. rewrite E2, E3.
    rewrite (proj2 (words_ret _ (tag, arg)) Hw). cbn [mbind outcome_bind].
    rewrite (proj2 (cps_tag_ret tag arg size stamps (size + n) (stamps + t) Hst)); cycle 1.
    { exists n, t. split_and!; [done..|lia]. }
    cbn [mbind outcome_bind]. rewrite Z.gtb_ltb, (proj2 (Z.ltb_ge _ _)) by lia.
    cbn [fail_if mbind outcome_bind]. rewrite Z.gtb_ltb, (proj2 (Z.ltb_ge _ _)) by lia.
    cbn [fail_if mbind outcome_bind]. rewrite IH; [f_equal; lia| |lia..].
    pose proof (TrimSpace_length rest). cbn in Hf. rewrite length_app in Hf. cbn in Hf. lia.
Qed.

(** Termination: enough fuel for every input. *)
Lemma cps_loop_no_panic fuel rest size count stamps :
  (length rest < fuel)%nat → cps_loop fuel rest size count stamps ≠ Panic.
Proof.
  revert rest size count stamps. induction fuel as [|fuel IH]; [lia|].
  intros rest size count stamps Hf. cbn [cps_loop]. destruct rest as [|b rest]; [done|].
  destruct (byte_eqb_spec b "<"%byte) as [->|]; cbn [negb]; [|done].
  destruct (IndexByte ("<"%byte :: rest) ">"%byte) as [e|] eqn:EI; [|done].
  destruct (cut_tag _ _ EI) as (body & tail & Er & _ & -> & ->).
  destruct (tag_arg (Fields body)) as [[tag arg]| |] eqn:EW; cbn [mbind outcome_bind];
    [|done|by destruct (Fields body) as [|? [|? [|? ?]]]].
  destruct (cps_tag tag arg size stamps) as [[size1 stamps1]| |] eqn:ET; cbn [mbind outcome_bind]; [|done|].
  - destruct (size1 >? 65507); cbn [fail_if mbind outcome_bind]; [done|].
    destruct (count + 1 >? 4096); cbn [fail_if mbind outcome_bind]; [done|].
    apply IH. pose proof (TrimSpace_length tail). rewrite Er in Hf. cbn in Hf.
    rewrite length_app in Hf. cbn in Hf. lia.
  - exfalso. revert ET. unfold cps_tag.
    destruct (existsb _ _); [destruct (ParseAWGRange arg 16) as [[lo hi]| |]; try done; by destruct (_ || _)|].
    destruct (tag =?s "b").
    { destruct (_ || _); cbn; [done|]. pose proof (hex_DecodeString_no_panic (TrimPrefix arg "0x")).
      by destruct (hex_DecodeString _). }
    destruct (tag =?s "t"); [destruct (negb _); cbn; [done|]; by destruct (_ >? _)|].
    destruct (existsb _ _); [by destruct (negb _)|done].
Qed.
End Cps.
