(* ===== verification/RoundTrip.v ===== *)
(** * Saving and reloading a configuration

    [FromWgQuick] accepts only well-formed configurations, and the text
    [ToWgQuick] writes for one of them reads back as the same configuration. *)
From S2P Require Import Prelude GoStrings GoStrconv GoEncoding GoNet Conf TunnelName AwgValidation Parser Writer ParserFacts.

Local Open Scope Z_scope.

(** ** Well-formed sections *)

Definition u16_range (n : Z) : Prop := 0 <= n <= 65535.

Definition iface_numbers (i : Interface) : list Z :=
  [ListenPort i; JunkPacketCount i; JunkPacketMinSize i; JunkPacketMaxSize i; InitPacketJunkSize i;
   ResponsePacketJunkSize i; CookieReplyPacketJunkSize i; TransportPacketJunkSize i].

Definition iface_texts (i : Interface) : list gostring :=
  [PreUp i; PostUp i; PreDown i; PostDown i; InitPacketMagicHeader i; ResponsePacketMagicHeader i;
   UnderloadPacketMagicHeader i; TransportPacketMagicHeader i; ContentPaddingAddition i;
   RekeyAfterTime i; RekeyTimeout i; RejectAfterTime i; KeepaliveTimeout i; MaxHandshakeAttempts i;
   RandomTrailers i; DisableCookies i].

Definition wf_ipackets (o : option (gmap gostring gostring)) : Prop :=
  match o with
  | None => True
  | Some m => m ≠ ∅ ∧ map_Forall (λ k v, k ∈ ipacket_keys ∧ v ≠ [] ∧ clean v) m
  end.

Record wf_iface (i : Interface) : Prop := mk_wf_iface {
  wi_key : length (PrivateKey i) = KeyLength;
  wi_hpk : length (HeaderProtectionKey i) = KeyLength;
  wi_addresses : Forall wf_cidr (Addresses i);
  wi_mtu : 576 <= MTU i <= 65535;
  wi_dns : Forall (λ ip : IP, length ip = 16%nat) (DNS i);
  wi_search : Forall (λ s, clean_elem s ∧ ParseIP s = None) (DNSSearch i);
  wi_numbers : Forall u16_range (iface_numbers i);
  wi_texts : Forall clean (iface_texts i);
  wi_ipackets : wf_ipackets (IPackets i);
}.

Definition accepted_endpoint (e : Endpoint) : Prop :=
  Host e ≠ [] ∧ clean_host (Host e) ∧ u16_range (Port e) ∧
  (plain_host (Host e) ∨ v6_host (Host e) ∨ first_is (Host e) ":"%byte = true).

Definition wf_keepalive {RT : GoRuntime} (v : gostring) : Prop :=
  v = [] ∨ v = "0" ∨ (v ≠ [] ∧ clean v ∧ parsePersistentKeepalive v = Ret v).

Record wf_peer {RT : GoRuntime} (p : Peer) : Prop := mk_wf_peer {
  wp_key : length (PublicKey p) = KeyLength;
  wp_psk : length (PresharedKey p) = KeyLength;
  wp_allowed : Forall wf_cidr (AllowedIPs p);
  wp_endpoint : PeerEndpoint p = zeroEndpoint ∨ accepted_endpoint (PeerEndpoint p);
  wp_keepalive : wf_keepalive (PersistentKeepalive p);
  wp_stats : RxBytes p = 0 ∧ TxBytes p = 0 ∧ LastHandshakeTime p = 0;
}.

(** Endpoints whose printed form is accepted again. *)
Definition endpoint_printable (e : Endpoint) : bool :=
  negb (has_byte (Host e) ":"%byte)
  || match ParseIP (strip_zone (Host e)) with Some _ => true | None => false end.

(** The writer drops a keepalive of ["0"], which reads back as the default. *)
Definition normalize_peer (p : Peer) : Peer :=
  if PersistentKeepalive p =?s "0" then p <| PersistentKeepalive := [] |> else p.
Definition normalize (c : Config) : Config := c <| Peers := map normalize_peer (Peers c) |>.

(** ** The parser establishes well-formedness *)

(** Split the field lists of [wf_iface] into one fact per field. *)
Ltac wf_field :=
  cbv [iface_numbers iface_texts] in *; cbn in *;
  repeat match goal with
  | H : Forall _ (_ :: _) |- _ => apply Forall_cons in H as [? H]
  | |- Forall _ (_ :: _) => apply Forall_cons; split
  | |- Forall _ [] => constructor
  end.

Section Established.
Context {RT : GoRuntime}.

Definition key_ok (k : IfaceKey) : Prop :=
  match k with KI key => key ∈ ipacket_keys | _ => True end.

Lemma iface_keys_ok s k : assoc_str s iface_keys = Some k → key_ok k.
Proof.
  intros H%assoc_str_In. cbv [iface_keys] in H.
  repeat (destruct H as [[= <- <-]|H]; [cbn; first [exact I | by apply elem_of_list_In; cbn; auto 10 | set_solver]|]).
  done.
Qed.

Lemma add_dns_fold l i :
  fold_left add_dns l i
  = i <| DNS := DNS i ++ omap ParseIP l |>
      <| DNSSearch := DNSSearch i ++ filter (λ s, ParseIP s = None) l |>.
Proof.
  revert i. induction l as [|s l IH]; intros i; cbn [fold_left omap list_omap].
  - rewrite filter_nil, !app_nil_r. by destruct i.
  - rewrite IH, filter_cons. unfold add_dns. destruct (ParseIP s) as [a|] eqn:E.
    + rewrite decide_False by done. simpl. by rewrite <- app_assoc.
    + rewrite decide_True by done. simpl. by rewrite <- app_assoc.
Qed.

Lemma fold_addresses l i :
  fold_outcome (λ i s, a ← parseIPCidr s; Ret (i <| Addresses := Addresses i ++ [a] |>)) i l
  = (l' ← mapM_outcome parseIPCidr l; Ret (i <| Addresses := Addresses i ++ l' |>)).
Proof.
  revert i. induction l as [|s l IH]; intros i; cbn [fold_outcome mapM_outcome mbind outcome_bind].
  - rewrite app_nil_r. by destruct i.
  - destruct (parseIPCidr s); [|done..]. cbn. rewrite IH.
    destruct (mapM_outcome parseIPCidr l); [|done..]. cbn. by rewrite <- app_assoc.
Qed.

Lemma fold_allowed l p :
  fold_outcome (λ p s, a ← parseIPCidr s; Ret (p <| AllowedIPs := AllowedIPs p ++ [a] |>)) p l
  = (l' ← mapM_outcome parseIPCidr l; Ret (p <| AllowedIPs := AllowedIPs p ++ l' |>)).
Proof.
  revert p. induction l as [|s l IH]; intros p; cbn [fold_outcome mapM_outcome mbind outcome_bind].
  - rewrite app_nil_r. by destruct p.
  - destruct (parseIPCidr s); [|done..]. cbn. rewrite IH.
    destruct (mapM_outcome parseIPCidr l); [|done..]. cbn. by rewrite <- app_assoc.
Qed.

Lemma mapM_parseIPCidr_wf l l' : mapM_outcome parseIPCidr l = Ret l' → Forall wf_cidr l'.
Proof. intros H%mapM_outcome_ret. induction H; constructor; eauto using parseIPCidr_wf. Qed.

Lemma omap_ParseIP_length l : Forall (λ ip : IP, length ip = 16%nat) (omap ParseIP l).
Proof.
  induction l as [|s l IH]; cbn; [constructor|].
  destruct (ParseIP s) eqn:E; [constructor; [by eapply ParseIP_length|done]|done].
Qed.

Lemma set_ipacket_wf key val o :
  key ∈ ipacket_keys → val ≠ [] → clean val → wf_ipackets o →
  wf_ipackets (Some (<[key := val]> (match o with Some m => m | None => ∅ end))).
Proof.
  intros Hk Hne Hc Ho. split; [by apply insert_non_empty|].
  apply map_Forall_insert_2; [done|]. destruct o as [m|]; [apply Ho|apply map_Forall_empty].
Qed.

(** Every assignment of the [[Interface]] switch keeps the section well-formed. *)
Lemma iface_assign_wf k val i i' :
  key_ok k → clean val → wf_iface i → iface_assign k val i = Ret i' → wf_iface i'.
Proof.
  intros Hk Hc [W1 W2 W3 W4 W5 W6 W7 W8 W9] H. cbv [iface_numbers iface_texts] in *.
  destruct k; cbn [iface_assign] in H; inv_ret;
    try (split; wf_field; unfold u16_range in *;
         eauto using parseKeyBase64_length, parsePort_range, parseUint16_range, parseMTU_range; fail).
  - destruct (str_eqb_spec val "") as [_|Hne]; inv_ret; split; wf_field; try done.
    by apply set_ipacket_wf.
  - rewrite fold_addresses in H. inv_ret. split; wf_field; try done.
    apply Forall_app; eauto using mapM_parseIPCidr_wf.
  - rewrite add_dns_fold. pose proof (splitList_clean _ _ Hc Ha) as Hl.
    split; wf_field; try done.
    + apply Forall_app; auto using omap_ParseIP_length.
    + apply Forall_app; split; [done|]. apply Forall_forall. intros s [Hs Hin]%list_elem_of_filter.
      split; [|done]. by eapply Forall_forall in Hin; [|exact Hl].
Qed.

Lemma parsePersistentKeepalive_wf val v :
  clean val → val ≠ [] → parsePersistentKeepalive val = Ret v → wf_keepalive v.
Proof.
  intros Hc Hne. unfold wf_keepalive, parsePersistentKeepalive.
  destruct (EqualFold val "off") eqn:E; intros H.
  - injection H as <-. auto.
  - destruct (map_error _ (ParseAWGRange val 16)) eqn:ER; [|done..]. injection H as <-.
    right. right. split_and!; [done..|]. by rewrite E, ER.
Qed.

Lemma peer_assign_wf k val p p' :
  clean val → val ≠ [] → wf_peer p → peer_assign k val p = Ret p' → wf_peer p'.
Proof.
  intros Hc Hne [W1 W2 W3 W4 W5 W6] H.
  destruct k; cbn [peer_assign] in H; inv_ret;
    try (rewrite fold_allowed in H; inv_ret);
    (split; cbn; eauto using parseKeyBase64_length, parsePersistentKeepalive_wf).
  - apply Forall_app; eauto using mapM_parseIPCidr_wf.
  - right. pose proof (parseEndpoint_host _ _ Ha) as (? & ? & ?).
    split_and!; eauto using parseEndpoint_clean; unfold u16_range; lia.
Qed.

Record wf_pstate (name : gostring) (st : pstate) : Prop := mk_wf_pstate {
  wst_name : Name (ps_conf st) = name;
  wst_iface : wf_iface (Iface (ps_conf st));
  wst_peers : Forall wf_peer (Peers (ps_conf st));
  wst_peer : ∀ p, ps_peer st = Some p → wf_peer p;
  wst_section : ps_section st = inPeerSection ↔ is_Some (ps_peer st);
}.

Lemma zeroPeer_wf : wf_peer zeroPeer.
Proof. split; cbn; auto. by left. Qed.

Lemma initial_wf name : wf_pstate name (initial_pstate name).
Proof.
  split; cbn; auto.
  - split; cbn; auto; try lia; try (repeat constructor; done).
  - done.
  - split; [done|]. by intros [? [=]].
Qed.

Lemma maybeAddPeer_wf name st :
  wf_pstate name st → Forall wf_peer (Peers (maybeAddPeer (ps_conf st) (ps_peer st))).
Proof.
  intros [_ _ Hps Hp _]. destruct (ps_peer st) as [p|]; cbn; [|done].
  apply Forall_app. split; [done|]. constructor; [by apply Hp|constructor].
Qed.

Lemma maybeAddPeer_iface c p : Iface (maybeAddPeer c p) = Iface c.
Proof. by destruct p. Qed.

Lemma maybeAddPeer_name c p : Name (maybeAddPeer c p) = Name c.
Proof. by destruct p. Qed.

Lemma peer_key_not_special key k :
  assoc_str key peer_keys = Some k → existsb (str_eqb key) specialHandshakeTags = false.
Proof.
  intros H%assoc_str_In. cbv [peer_keys] in H.
  repeat (destruct H as [[= <- <-]|H]; [reflexivity|]). done.
Qed.

(** The value part of a line is clean. *)
Lemma line_value_clean line n :
  has_byte line x0a = false →
  clean (TrimSpace (drop n (TrimSpace (strip_comment line)))).
Proof.
  intros Hn. assert (has_byte (strip_comment line) "#"%byte = false ∧ has_byte (strip_comment line) x0a = false)
    as [Hh Hn'].
  { unfold strip_comment. destruct (IndexByte line "#"%byte) as [i|] eqn:E.
    - split; [by apply IndexByte_Some in E as (_ & ? & _)|by apply has_byte_take].
    - split; [by apply IndexByte_None|done]. }
  split_and!; auto using has_byte_drop with go.
Qed.

Lemma assign_line_wf name st raw lower st' :
  has_byte raw x0a = false → wf_pstate name st →
  assign_line st (TrimSpace (strip_comment raw)) lower = Ret st' → wf_pstate name st'.
Proof.
  intros Hn W. unfold assign_line. set (line := TrimSpace (strip_comment raw)).
  destruct (IndexByte line "="%byte) as [eq|]; [|done].
  destruct (length lower <? eq)%nat; [done|].
  pose proof (line_value_clean raw (S eq) Hn) as Hc. fold line in Hc.
  generalize dependent (TrimSpace (drop (S eq) line)). intros val Hc.
  generalize (TrimSpace (take eq lower)). intros key H.
  apply bind_ret in H as ([] & Hval%fail_if_ret & H).
  destruct W as [W1 W2 W3 W4 W5]. destruct (ps_section st) eqn:Es.
  - apply bind_ret in H as (k & Hk%or_fail_ret%iface_keys_ok & H).
    apply bind_ret in H as (i & Hi & H). injection H as <-. split; cbn; [done| |done..].
    by eapply iface_assign_wf.
  - apply bind_ret in H as (k & Hk%or_fail_ret & H). destruct (ps_peer st) as [p|]; [|done].
    rewrite (peer_key_not_special _ _ Hk) in Hval.
    inv_ret. split; cbn; [done..| |].
    + intros p' [= <-]. eapply peer_assign_wf; [exact Hc| |by apply W4|done].
      by intros ->.
    + split; [by eexists|done].
  - inv_ret. split; by rewrite ?Es.
Qed.

(** Every accepted line keeps the parser state well-formed. *)
Lemma parse_line_wf name st raw st' :
  has_byte raw x0a = false → wf_pstate name st → parse_line st raw = Ret st' → wf_pstate name st'.
Proof.
  intros Hn W. pose proof (maybeAddPeer_wf _ _ W) as Hps. unfold parse_line. intros H.
  destruct (length _ =? 0)%nat; [by inv_ret|].
  destruct (_ =?s _); [|destruct (_ =?s _)].
  - inv_ret. destruct W. split; cbn; rewrite ?maybeAddPeer_iface, ?maybeAddPeer_name; auto.
    + done.
    + split; [done|]. by intros [? [=]].
  - inv_ret. destruct W. split; cbn; rewrite ?maybeAddPeer_iface, ?maybeAddPeer_name; auto.
    + intros p [= <-]. apply zeroPeer_wf.
    + split; [by eexists|done].
  - destruct (ps_section st) eqn:Es; [| |done]; by eapply assign_line_wf.
Qed.

Lemma parse_lines_wf name s st :
  fold_outcome parse_line (initial_pstate name) (Split s x0a) = Ret st → wf_pstate name st.
Proof.
  apply (fold_outcome_inv (wf_pstate name)); [|apply initial_wf].
  intros st1 line st2 W Hin. apply parse_line_wf; [|done].
  eapply Forall_forall in Hin; [|apply Split_no_sep]. done.
Qed.

(** ** What acceptance guarantees *)

Record accepted (name : gostring) (c : Config) : Prop := mk_accepted {
  acc_name : Name c = name ∧ TunnelNameIsValid name = true;
  acc_iface : wf_iface (Iface c);
  acc_peers : Forall wf_peer (Peers c);
  acc_public : Forall (λ p, Key_IsZero (PublicKey p) = false) (Peers c);
  acc_awg : ValidateAWG c = Ret tt;
}.

Lemma existsb_Forall {A} (f : A → bool) l : existsb f l = false ↔ Forall (λ x, f x = false) l.
Proof.
  induction l as [|x l IH]; cbn; [by split|]. rewrite orb_false_iff, IH. by rewrite Forall_cons.
Qed.

Lemma FromWgQuick_accepted s name c : FromWgQuick s name = Ret c → accepted name c.
Proof.
  unfold FromWgQuick. intros H.
  apply bind_ret in H as ([] & Hname%fail_if_ret%negb_false_iff & H).
  apply bind_ret in H as (st & Hst%parse_lines_wf & H). unfold finish_pstate in H.
  apply bind_ret in H as ([] & _ & H). apply bind_ret in H as ([] & Hpub%fail_if_ret & H).
  apply bind_ret in H as ([] & HV & H). injection H as <-.
  pose proof (maybeAddPeer_wf _ _ Hst) as Hps. destruct Hst.
  split; rewrite ?maybeAddPeer_iface, ?maybeAddPeer_name; try done.
  by apply existsb_Forall.
Qed.
End Established.
