(* ===== verification/Reload.v ===== *)
(** * Reading back what the writer wrote

    [runs text st st']: the parser, in state [st], reads the complete lines of
    [text] and ends in [st'].  Each piece of [ToWgQuick] is one such run, and
    runs compose like the pieces of the text. *)
From S2P Require Import Prelude GoStrings GoStrconv GoEncoding GoNet Conf TunnelName AwgValidation Parser Writer ParserFacts RoundTrip.

Local Open Scope Z_scope.

Section Reload.
Context {RT : GoRuntime}.

Definition lines_text (ls : list gostring) : gostring := flat_map (λ l, l ++ [x0a]) ls.

Definition runs (text : gostring) (st st' : pstate) : Prop :=
  ∃ ls, text = lines_text ls ∧ Forall (λ l, has_byte l x0a = false) ls ∧
        fold_outcome parse_line st ls = Ret st'.

Lemma Split_lines_text ls :
  Forall (λ l, has_byte l x0a = false) ls → Split (lines_text ls) x0a = ls ++ [[]].
Proof.
  induction 1 as [|l ls Hl _ IH]; [done|]. cbn [lines_text flat_map]. rewrite <- app_assoc.
  change ([x0a] ++ flat_map (λ l, l ++ [x0a]) ls) with (x0a :: lines_text ls).
  rewrite Split_app by done. cbn. by rewrite IH.
Qed.

Lemma runs_nil st : runs [] st st.
Proof. by exists []. Qed.

Lemma runs_app t1 t2 st1 st2 st3 : runs t1 st1 st2 → runs t2 st2 st3 → runs (t1 ++ t2) st1 st3.
Proof.
  intros (l1 & -> & H1 & R1) (l2 & -> & H2 & R2). exists (l1 ++ l2).
  split_and!; [unfold lines_text; by rewrite flat_map_app|by apply Forall_app|].
  by rewrite fold_outcome_app, R1.
Qed.

Lemma runs_line l st st' : has_byte l x0a = false → parse_line st l = Ret st' → runs (l ++ [x0a]) st st'.
Proof.
  intros Hl H. exists [l]. split_and!; [cbn; by rewrite app_nil_r|by repeat constructor|].
  cbn. by rewrite H.
Qed.

Lemma runs_from text st st' : runs text st st' → fold_outcome parse_line st (Split text x0a) = Ret st'.
Proof.
  intros (ls & -> & Hl & R). rewrite Split_lines_text by done.
  by rewrite fold_outcome_app, R.
Qed.

(** ** One [Key = value] line *)

Definition label_char (b : byte) : bool := in_range 65 90 b || in_range 97 122 b || is_digit b.

Lemma label_char_spec b :
  label_char b = true →
  is_ascii b = true ∧ space1 b = false ∧ Byte.eqb b "#"%byte = false ∧ Byte.eqb b x0a = false
  ∧ Byte.eqb b "="%byte = false ∧ Byte.eqb (lower_byte b) "["%byte = false.
Proof.
  by_bytes (λ b, implb (label_char b) (is_ascii b && negb (space1 b) && negb (Byte.eqb b "#"%byte)
    && negb (Byte.eqb b x0a) && negb (Byte.eqb b "="%byte) && negb (Byte.eqb (lower_byte b) "["%byte))) b.
  intros H Hb. apply (implb_elim _ _ H) in Hb. breflect. by split_and!.
Qed.

Lemma label_has_byte l c : forallb label_char l = true → label_char c = false → has_byte l c = false.
Proof. intros ? ?. by apply (forallb_no_byte label_char). Qed.

Definition written (label val : gostring) : gostring := label ++ " = " ++ val.

Lemma written_cut label val : written label val = (label ++ " ") ++ "="%byte :: " "%byte :: val.
Proof. unfold written. by rewrite <- app_assoc. Qed.

(** How the loop sees a written line: its key lower-cased, its value intact. *)
Definition assign_effect (st : pstate) (lk val : gostring) : outcome pstate :=
  match ps_section st with
  | inInterfaceSection =>
      k ← or_fail (assoc_str lk iface_keys) (perr "Invalid key for [Interface] section" lk);
      i ← iface_assign k val (Iface (ps_conf st));
      Ret (mkPstate (ps_section st) (ps_conf st <| Iface := i |>) (ps_peer st)
             (match k with KPrivateKey => true | _ => ps_sawPrivateKey st end))
  | inPeerSection =>
      k ← or_fail (assoc_str lk peer_keys) (perr "Invalid key for [Peer] section" lk);
      match ps_peer st with
      | None => Panic
      | Some p =>
          p ← peer_assign k val p;
          Ret (mkPstate (ps_section st) (ps_conf st) (Some p) (ps_sawPrivateKey st))
      end
  | notInASection => Ret st
  end.

Section WrittenLine.
Context (label val : gostring) (Hl : forallb label_char label = true) (Hne : label ≠ [])
  (Hc : clean val) (Hv : val ≠ []).

Lemma label_ascii : forallb is_ascii label = true.
Proof using Hl. eapply forallb_impl; [|exact Hl]. intros x Hx. by apply label_char_spec in Hx as [? _]. Qed.

(** The line has no comment and no white space to trim. *)
Lemma written_trim : TrimSpace (strip_comment (written label val)) = written label val.
Proof using Hl Hne Hc Hv.
  destruct Hc as (Hh & Hn & Ht).
  assert (strip_comment (written label val) = written label val) as ->.
  { unfold strip_comment. rewrite (proj2 (IndexByte_None _ _)); [done|].
    unfold written. by rewrite !has_byte_app, Hh, label_has_byte. }
  apply TrimSpace_id. unfold written. destruct label as [|b l]; [done|].
  apply andb_true_iff in Hl as [(Ha & Hs & _)%label_char_spec Hl'].
  rewrite app_assoc. cbn [app]. apply trimmed_app; try done.
  exists (b :: l ++ " ="), " "%byte. split; [|done]. cbn. by rewrite <- app_assoc.
Qed.

Lemma written_index : IndexByte (written label val) "="%byte = Some (S (length label)).
Proof using Hl.
  rewrite written_cut, IndexByte_app; [rewrite length_app; cbn; f_equal; lia|].
  by rewrite has_byte_app, label_has_byte.
Qed.

Lemma written_value : drop (S (S (length label))) (written label val) = " "%byte :: val.
Proof using.
  rewrite written_cut. rewrite <- (drop_S_app (label ++ " ") (" "%byte :: val) "="%byte) at 2.
  rewrite length_app. cbn [length]. by rewrite Nat.add_1_r.
Qed.

(** Lower-casing leaves the position of the separator where it was. *)
Lemma written_lower :
  take (S (length label)) (ToLower (written label val)) = map lower_byte label ++ " " ∧
  (length (ToLower (written label val)) <? S (length label))%nat = false ∧
  ∀ t, (ToLower (written label val) =?s ("["%byte :: t)) = false.
Proof using Hl Hne.
  assert (forallb is_ascii (label ++ " = ") = true) as Hascii
    by (rewrite forallb_app, label_ascii; done).
  unfold written. rewrite app_assoc. destruct (ToLower_ascii_app _ val Hascii) as [w ->].
  rewrite map_app. split_and!.
  - change ((map lower_byte label ++ map lower_byte " = ") ++ w)
      with ((map lower_byte label ++ ([" "%byte] ++ "= ")) ++ w).
    rewrite app_assoc, <- (app_assoc _ "= " w).
    rewrite <- (take_app_length (map lower_byte label ++ " ") ("= " ++ w)) at 2.
    by rewrite length_app, length_map, Nat.add_1_r.
  - apply Nat.ltb_ge. rewrite !length_app, length_map. cbn. lia.
  - intros t. destruct label as [|b l]; [done|].
    apply andb_true_iff in Hl as [(_ & _ & _ & _ & _ & Hb)%label_char_spec _].
    cbn [map app str_eqb]. by rewrite Hb.
Qed.

Lemma parse_written st :
  ps_section st ≠ notInASection →
  parse_line st (written label val) = assign_effect st (TrimSpace (map lower_byte label ++ " ")) val.
Proof using Hl Hne Hc Hv.
  intros Hsec. unfold parse_line. rewrite written_trim.
  destruct written_lower as (Htake & Hlen & Hhd). rewrite !Hhd.
  assert ((length (written label val) =? 0)%nat = false) as ->
    by (apply Nat.eqb_neq; unfold written; rewrite !length_app; cbn; lia).
  assert (assign_line st (written label val) (ToLower (written label val))
          = assign_effect st (TrimSpace (map lower_byte label ++ " ")) val) as Hassign.
  { unfold assign_line. rewrite written_index, Hlen, Htake, written_value.
    rewrite TrimSpace_space by (done || apply Hc).
    assert ((length val =? 0)%nat = false) as -> by (by destruct val).
    rewrite andb_false_r. reflexivity. }
  destruct (ps_section st); [exact Hassign..|done].
Qed.
End WrittenLine.

(** ** The [[Interface]] section *)

Definition st_iface (name : gostring) (i : Interface) : pstate :=
  mkPstate inInterfaceSection (mkConfig name i []) None true.

Definition iface_label (label : gostring) (k : IfaceKey) : Prop :=
  forallb label_char label = true ∧ label ≠ [] ∧
  assoc_str (TrimSpace (map lower_byte label ++ " ")) iface_keys = Some k.

Lemma wline_written label val : wline label val = written label val ++ [x0a].
Proof. unfold wline, written. by rewrite <- !app_assoc. Qed.

Lemma written_no_newline label val :
  forallb label_char label = true → clean val → has_byte (written label val) x0a = false.
Proof.
  intros Hl (_ & Hn & _). unfold written. by rewrite !has_byte_app, Hn, label_has_byte.
Qed.

Lemma runs_iface_line name label k val i i' :
  iface_label label k → clean val → val ≠ [] → iface_assign k val i = Ret i' →
  runs (wline label val) (st_iface name i) (st_iface name i').
Proof.
  intros (Hl & Hne & Hk) Hc Hv Ha. rewrite wline_written. apply runs_line; [by apply written_no_newline|].
  rewrite parse_written by done. unfold assign_effect, st_iface. cbn [ps_section].
  rewrite Hk. cbn [or_fail mbind outcome_bind ps_conf Iface]. rewrite Ha.
  cbn. by destruct k.
Qed.

(** An optional line: when it is not printed the field has its zero value already. *)
Lemma runs_optional name b label k val i i' :
  iface_label label k → (b = true → clean val ∧ val ≠ []) → (b = true → iface_assign k val i = Ret i') →
  (b = false → i' = i) →
  runs (on b (wline label val)) (st_iface name i) (st_iface name i').
Proof.
  intros Hl Hc Ha Hz. destruct b; cbn.
  - destruct (Hc eq_refl). by eapply runs_iface_line; eauto.
  - rewrite Hz by done. apply runs_nil.
Qed.

Lemma runs_w_str name label k val i i' :
  iface_label label k → clean val → iface_assign k val i = Ret i' → (val = [] → i' = i) →
  runs (w_str label val) (st_iface name i) (st_iface name i').
Proof.
  intros Hl Hc Ha Hz. unfold w_str. apply (runs_optional _ _ _ k); [done|..].
  - intros Hb. split; [done|]. by intros ->.
  - done.
  - intros Hb. apply Hz. by destruct val.
Qed.

Lemma Itoa_clean n : 0 <= n → clean (Itoa n) ∧ Itoa n ≠ [].
Proof. split; [by apply token_clean, Itoa_token|by apply Itoa_nonempty]. Qed.

Lemma runs_w_int name label k n i i' :
  iface_label label k → 0 <= n → iface_assign k (Itoa n) i = Ret i' → (n = 0 → i' = i) →
  runs (w_int label n) (st_iface name i) (st_iface name i').
Proof.
  intros Hl Hn Ha Hz. unfold w_int. apply (runs_optional _ _ _ k); [done|..].
  - intros _. by apply Itoa_clean.
  - done.
  - intros Hb. apply Hz. breflect. lia.
Qed.

Lemma runs_conv t st st1 st2 : runs t st st1 → st1 = st2 → runs t st st2.
Proof. by intros ? <-. Qed.

(** Compute the fields of an interface built by assignments. *)
Ltac norm_iface :=
  lazy beta iota zeta delta [set_field zeroInterface
    PrivateKey Addresses ListenPort MTU DNS DNSSearch PreUp PostUp PreDown PostDown TableOff
    JunkPacketCount JunkPacketMinSize JunkPacketMaxSize InitPacketJunkSize
    ResponsePacketJunkSize CookieReplyPacketJunkSize TransportPacketJunkSize
    InitPacketMagicHeader ResponsePacketMagicHeader UnderloadPacketMagicHeader
    TransportPacketMagicHeader HeaderProtectionKey ContentPaddingAddition RekeyAfterTime
    RekeyTimeout RejectAfterTime KeepaliveTimeout MaxHandshakeAttempts RandomTrailers
    DisableCookies IPackets set_PrivateKey set_Addresses set_ListenPort set_MTU set_DNS
    set_DNSSearch set_PreUp set_PostUp set_PreDown set_PostDown set_TableOff
    set_JunkPacketCount set_JunkPacketMinSize set_JunkPacketMaxSize set_InitPacketJunkSize
    set_ResponsePacketJunkSize set_CookieReplyPacketJunkSize set_TransportPacketJunkSize
    set_InitPacketMagicHeader set_ResponsePacketMagicHeader set_UnderloadPacketMagicHeader
    set_TransportPacketMagicHeader set_HeaderProtectionKey set_ContentPaddingAddition
    set_RekeyAfterTime set_RekeyTimeout set_RejectAfterTime set_KeepaliveTimeout
    set_MaxHandshakeAttempts set_RandomTrailers set_DisableCookies set_IPackets].

Ltac label_ok := split; [reflexivity|split; [discriminate|reflexivity]].
Ltac run_str := eapply runs_w_str;
  [label_ok | assumption | cbn [iface_assign]; norm_iface; reflexivity | intros ->; reflexivity].
Ltac run_int := eapply runs_w_int;
  [label_ok | unfold u16_range in *; lia
  | cbn [iface_assign]; unfold u16_range in *;
    first [rewrite parseUint16_Itoa by lia | rewrite parsePort_Itoa by lia
          | rewrite parseMTU_Itoa by lia]; cbn [mbind outcome_bind]; norm_iface; reflexivity
  | intros ->; first [reflexivity | exfalso; lia]].

(** The interface after each part of the written section. *)
Definition stage_key (i : Interface) : Interface :=
  zeroInterface <| MTU := 1420 |> <| PrivateKey := PrivateKey i |>.

Definition stage_junk (i : Interface) : Interface :=
  mkInterface (PrivateKey i) [] (ListenPort i) 1420 [] [] [] [] [] [] false
    (JunkPacketCount i) (JunkPacketMinSize i) (JunkPacketMaxSize i) (InitPacketJunkSize i)
    (ResponsePacketJunkSize i) (CookieReplyPacketJunkSize i) (TransportPacketJunkSize i)
    (InitPacketMagicHeader i) (ResponsePacketMagicHeader i) (UnderloadPacketMagicHeader i)
    (TransportPacketMagicHeader i) zeroKey [] [] [] [] [] [] [] [] None.

Definition stage_awg3 (i : Interface) : Interface :=
  mkInterface (PrivateKey i) [] (ListenPort i) 1420 [] [] [] [] [] [] false
    (JunkPacketCount i) (JunkPacketMinSize i) (JunkPacketMaxSize i) (InitPacketJunkSize i)
    (ResponsePacketJunkSize i) (CookieReplyPacketJunkSize i) (TransportPacketJunkSize i)
    (InitPacketMagicHeader i) (ResponsePacketMagicHeader i) (UnderloadPacketMagicHeader i)
    (TransportPacketMagicHeader i) (HeaderProtectionKey i) (ContentPaddingAddition i)
    (RekeyAfterTime i) (RekeyTimeout i) (RejectAfterTime i) (KeepaliveTimeout i)
    (MaxHandshakeAttempts i) (RandomTrailers i) (DisableCookies i) (IPackets i).

Lemma runs_junk name i :
  wf_iface i → runs (w_junk i) (st_iface name (stage_key i)) (st_iface name (stage_junk i)).
Proof.
  intros [_ _ _ _ _ _ Hn Ht _]. wf_field. destruct i. cbn in *. unfold w_junk, stage_key, stage_junk.
  norm_iface.
  do 8 (eapply runs_app; [run_int|]). do 3 (eapply runs_app; [run_str|]). run_str.
Qed.

(** The map the lines [I1]..[I5] build up. *)
Definition read_ipackets (i : Interface) (ks : list gostring) (acc : option (gmap gostring gostring))
    : option (gmap gostring gostring) :=
  fold_left (λ acc k, if nonempty (ipacket i k)
                      then Some (<[k := ipacket i k]> (match acc with Some m => m | None => ∅ end))
                      else acc) ks acc.

Lemma read_ipackets_lookup i ks acc k :
  match read_ipackets i ks acc with Some m => m !! k | None => None end
  = if bool_decide (k ∈ ks) && nonempty (ipacket i k) then Some (ipacket i k)
    else match acc with Some m => m !! k | None => None end.
Proof.
  revert acc. induction ks as [|k' ks IH]; intros acc; [done|].
  cbn [read_ipackets fold_left]. unfold read_ipackets in IH. rewrite IH. clear IH.
  destruct (decide (k ∈ ks)) as [Hin|Hin].
  - rewrite !bool_decide_true by set_solver. cbn. destruct (nonempty (ipacket i k)) eqn:E; [done|].
    destruct (nonempty (ipacket i k')) eqn:E'; [|done].
    rewrite lookup_insert_ne by congruence. by destruct acc.
  - rewrite (bool_decide_false (k ∈ ks)) by done. cbn [andb].
    destruct (decide (k = k')) as [->|Hne].
    + rewrite bool_decide_true by set_solver. cbn. destruct (nonempty (ipacket i k')); [|done].
      by rewrite lookup_insert_eq.
    + rewrite bool_decide_false by (rewrite elem_of_cons; by intros [?|?]). cbn. destruct (nonempty (ipacket i k')); [|done].
      rewrite lookup_insert_ne by congruence. by destruct acc.
Qed.

Lemma read_ipackets_all i : wf_ipackets (IPackets i) → read_ipackets i ipacket_keys None = IPackets i.
Proof.
  intros Hw. destruct (IPackets i) as [m|] eqn:Em.
  - destruct Hw as [Hne Hw].
    assert (∀ k, match read_ipackets i ipacket_keys None with Some m => m !! k | None => None end = m !! k) as Hl.
    { intros k. rewrite read_ipackets_lookup. unfold ipacket. rewrite Em.
      destruct (m !! k) as [v|] eqn:Ek.
      - apply Hw in Ek as (Hin & Hv & _). rewrite bool_decide_true by done. by destruct v.
      - by rewrite andb_false_r. }
    destruct (read_ipackets i ipacket_keys None) as [m'|].
    + f_equal. by apply map_eq.
    + exfalso. apply Hne. apply map_empty. intros k. by rewrite <- Hl.
  - unfold read_ipackets, ipacket. by rewrite Em.
Qed.

Lemma ipacket_clean i key : wf_ipackets (IPackets i) → clean (ipacket i key).
Proof.
  unfold ipacket. destruct (IPackets i) as [m|]; [|intros _; apply clean_nil].
  intros [_ Hw]. destruct (m !! key) eqn:E; [by apply Hw in E as (_ & _ & ?)|apply clean_nil].
Qed.

Lemma runs_ipacket name i key j :
  iface_label (ToUpperASCII key) (KI key) → wf_ipackets (IPackets i) →
  runs (w_str (ToUpperASCII key) (ipacket i key)) (st_iface name j)
    (st_iface name (if nonempty (ipacket i key) then set_ipacket key (ipacket i key) j else j)).
Proof.
  intros Hl Hw. eapply runs_w_str; [exact Hl|by apply ipacket_clean| |].
  - cbn [iface_assign]. by destruct (ipacket i key).
  - by intros ->.
Qed.

Lemma set_IPackets_id j : j <| IPackets := IPackets j |> = j.
Proof. by destruct j. Qed.

Lemma runs_ipackets name i j :
  wf_ipackets (IPackets i) → IPackets j = None →
  runs (w_ipackets i) (st_iface name j) (st_iface name (j <| IPackets := IPackets i |>)).
Proof.
  intros Hw Hj. rewrite <- (read_ipackets_all i Hw), <- Hj. unfold w_ipackets, read_ipackets.
  assert (∀ ks j, Forall (λ k, iface_label (ToUpperASCII k) (KI k)) ks →
    runs (flat_map (λ key, w_str (ToUpperASCII key) (ipacket i key)) ks) (st_iface name j)
      (st_iface name (j <| IPackets := read_ipackets i ks (IPackets j) |>))) as H.
  { clear j Hj. intros ks j Hks. revert j. induction Hks as [|k ks Hk _ IH]; intros j.
    - cbn. rewrite set_IPackets_id. apply runs_nil.
    - cbn [flat_map]. eapply runs_app; [by apply runs_ipacket|]. eapply runs_conv; [apply IH|].
      cbn [read_ipackets fold_left]. f_equal. by destruct (nonempty (ipacket i k)). }
  apply H. repeat constructor; discriminate.
Qed.

Lemma Key_IsZero_spec k : Key_IsZero k = true ↔ k = zeroKey.
Proof. unfold Key_IsZero. rewrite str_eqb_true. split; congruence. Qed.

Lemma Key_String_clean k : length k = KeyLength → clean (Key_String k) ∧ Key_String k ≠ [].
Proof.
  intros Hl. split; [apply token_clean, b64_token|]. apply b64_nonempty. by intros ->.
Qed.

Lemma runs_awg3 name i :
  wf_iface i →
  runs (w_awg3 i) (st_iface name (stage_junk i <| IPackets := IPackets i |>)) (st_iface name (stage_awg3 i)).
Proof.
  intros [_ Hk _ _ _ _ _ Ht _]. wf_field. destruct i. cbn in *. unfold w_awg3, stage_awg3, stage_junk.
  norm_iface. eapply runs_app.
  - eapply runs_optional; [label_ok|intros _; by apply Key_String_clean| |].
    + intros _. cbn [iface_assign]. rewrite parseKeyBase64_String by done.
      cbn [map_error mbind outcome_bind]. norm_iface. reflexivity.
    + intros Hz%negb_false_iff%Key_IsZero_spec. by rewrite Hz.
  - do 7 (eapply runs_app; [run_str|]). run_str.
Qed.

Lemma IPCidr_strings_elem l : Forall wf_cidr l → Forall clean_elem (map IPCidr_String l).
Proof. intros H. apply Forall_map. by eapply Forall_impl; [exact H|apply IPCidr_String_elem]. Qed.

Lemma mapM_parseIPCidr_String l :
  Forall wf_cidr l → mapM_outcome parseIPCidr (map IPCidr_String l) = Ret l.
Proof.
  intros H. apply mapM_outcome_ret. induction H; cbn; constructor; auto using parseIPCidr_String.
Qed.

Lemma Join_clean l : l ≠ [] → Forall clean_elem l → clean (Join l ", ") ∧ Join l ", " ≠ [].
Proof.
  intros Hne H.
  assert (∀ w l, Forall clean_elem (w :: l) →
    has_byte (Join (w :: l) ", ") "#"%byte = false ∧ has_byte (Join (w :: l) ", ") x0a = false ∧
    space_width false (Join (w :: l) ", ") = 0%nat ∧ space_width true (rev (Join (w :: l) ", ")) = 0%nat ∧
    Join (w :: l) ", " ≠ []) as HJ.
  { clear. intros w l. revert w. induction l as [|w' l IH]; intros w Hf;
      apply Forall_cons in Hf as [((Hh & Hn & [Hl Hr]) & Hne & _) Hf]; [by cbn|].
    destruct (IH w' Hf) as (Ih & In & Il & Ir & Ine).
    change (Join (w :: w' :: l) ", ") with (w ++ ","%byte :: " "%byte :: Join (w' :: l) ", ").
    split_and!.
    - rewrite has_byte_app, Hh. exact Ih.
    - rewrite has_byte_app, Hn. exact In.
    - by apply space_width_ascii.
    - change (w ++ ","%byte :: " "%byte :: Join (w' :: l) ", ")
        with (w ++ ([","%byte; " "%byte] ++ Join (w' :: l) ", ")).
      rewrite !rev_app_distr. rewrite <- app_assoc. apply space_width_ascii; [|done..].
      intros E. apply Ine. by rewrite <- (rev_involutive (Join _ _)), E.
    - by destruct w. }
  destruct l as [|w l]; [done|]. destruct (HJ w l H) as (? & ? & ? & ? & ?). by repeat split.
Qed.

Lemma runs_address name l i :
  Forall wf_cidr l → Addresses i = [] →
  runs (on (0 <? length l)%nat (wline "Address" (Join (map IPCidr_String l) ", ")))
    (st_iface name i) (st_iface name (i <| Addresses := l |>)).
Proof.
  intros Hl Hi. destruct (decide (l = [])) as [->|Hne].
  { eapply runs_conv; [apply runs_nil|]. f_equal. destruct i. cbn in *. by rewrite Hi. }
  assert (map IPCidr_String l ≠ []) as Hm by (by destruct l).
  eapply runs_optional; [label_ok|intros _; by apply Join_clean; [|apply IPCidr_strings_elem]| |].
  - intros _. cbn [iface_assign]. rewrite splitList_Join by (done || by apply IPCidr_strings_elem).
    cbn [mbind outcome_bind]. rewrite fold_addresses, mapM_parseIPCidr_String by done.
    cbn [mbind outcome_bind]. by rewrite Hi.
  - by destruct l.
Qed.

Lemma dns_elems i : wf_iface i → Forall clean_elem (dns_strings i).
Proof.
  intros [_ _ _ _ Hd Hs _ _ _]. apply Forall_app. split.
  - apply Forall_map. eapply Forall_impl; [exact Hd|]. intros ip Hl.
    apply token_elem; [apply ip_token, IP_String_chars|].
    intros E. pose proof (ParseIP_String16 ip Hl) as H. by rewrite E in H.
  - eapply Forall_impl; [exact Hs|]. by intros s [? _].
Qed.

(** Printed addresses read as addresses, printed domains as domains. *)
Lemma dns_split i :
  wf_iface i →
  omap ParseIP (dns_strings i) = DNS i ∧
  filter (λ s, ParseIP s = None) (dns_strings i) = DNSSearch i.
Proof.
  intros [_ _ _ _ Hd Hs _ _ _]. unfold dns_strings. rewrite omap_app, filter_app. split.
  - rewrite <- (app_nil_r (DNS i)) at 2. f_equal.
    + induction Hd as [|ip l Hip _ IH]; [done|]. cbn. rewrite ParseIP_String16 by done. by f_equal.
    + induction Hs as [|s l [_ H] _ IH]; [done|]. cbn. by rewrite H.
  - rewrite <- (app_nil_l (DNSSearch i)). f_equal.
    + clear Hs. induction Hd as [|ip l Hip _ IH]; [done|]. cbn [map]. rewrite filter_cons_False; [done|].
      by rewrite ParseIP_String16.
    + clear Hd. induction Hs as [|s l [_ H] _ IH]; [done|]. cbn [app] in *. rewrite filter_cons_True by done. by f_equal.
Qed.

Lemma runs_dns name i j :
  wf_iface i → DNS j = [] → DNSSearch j = [] →
  runs (on (0 <? length (DNS i) + length (DNSSearch i))%nat (wline "DNS" (Join (dns_strings i) ", ")))
    (st_iface name j) (st_iface name (j <| DNS := DNS i |> <| DNSSearch := DNSSearch i |>)).
Proof.
  intros Hw H1 H2. pose proof (dns_elems i Hw) as He. destruct (dns_split i Hw) as [E1 E2].
  assert (dns_strings i = [] ∨ dns_strings i ≠ []) as [Hn|Hn] by (destruct (dns_strings i); auto).
  - rewrite Hn in E1, E2. cbn in E1, E2. rewrite <- E1, <- E2. cbn.
    eapply runs_conv; [apply runs_nil|]. f_equal. destruct j. cbn in *. by rewrite H1, H2.
  - eapply runs_optional; [label_ok|intros _; by apply Join_clean| |].
    + intros _. cbn [iface_assign]. rewrite splitList_Join by done. cbn [mbind outcome_bind].
      by rewrite add_dns_fold, E1, E2, H1, H2.
    + intros H%Nat.ltb_ge. exfalso. apply Hn. unfold dns_strings.
      destruct (DNS i); [|cbn in H; lia]. destruct (DNSSearch i); [done|cbn in H; lia].
Qed.

Lemma runs_net name i :
  wf_iface i → runs (w_net i) (st_iface name (stage_awg3 i)) (st_iface name i).
Proof.
  intros W. unfold w_net. eapply runs_app; [by apply runs_address; [apply W|]|].
  eapply runs_app; [by apply runs_dns|].
  destruct W as [_ _ _ Hm _ _ _ Ht _]. wf_field. destruct i. cbn in *. unfold stage_awg3. norm_iface.
  eapply runs_app; [run_int|].
  do 4 (eapply runs_app; [run_str|]).
  apply (runs_optional _ _ "Table" KTable "off"); [label_ok|intros _; split; [by apply token_clean|done]| |]; by destruct TableOff.
Qed.

(** The whole section, from the start of the text. *)
Lemma runs_interface name i :
  wf_iface i →
  runs ("[Interface]" ++ [x0a] ++ wline "PrivateKey" (Key_String (PrivateKey i))
        ++ w_junk i ++ w_ipackets i ++ w_awg3 i ++ w_net i)
    (initial_pstate name) (st_iface name i).
Proof.
  intros W. rewrite app_assoc. eapply runs_app; [by apply runs_line|].
  eapply runs_app; [|eapply runs_app; [by apply runs_junk|]].
  - rewrite wline_written. destruct (Key_String_clean _ (wi_key i W)).
    apply runs_line; [by apply written_no_newline|]. rewrite parse_written by done.
    unfold assign_effect. cbn [ps_section ps_conf Iface].
    change (assoc_str _ iface_keys) with (Some KPrivateKey). cbn [or_fail mbind outcome_bind iface_assign].
    by rewrite parseKeyBase64_String by apply W.
  - eapply runs_app; [by apply runs_ipackets; [apply W|]|].
    eapply runs_app; [by apply runs_awg3|by apply runs_net].
Qed.

(** ** The [[Peer]] sections *)

Definition st_peer (name : gostring) (i : Interface) (ps : list Peer) (p : Peer) : pstate :=
  mkPstate inPeerSection (mkConfig name i ps) (Some p) true.

Definition peer_label (label : gostring) (k : PeerKey) : Prop :=
  forallb label_char label = true ∧ label ≠ [] ∧
  assoc_str (TrimSpace (map lower_byte label ++ " ")) peer_keys = Some k.

Lemma runs_peer_line name i ps b label k val p p' :
  peer_label label k → (b = true → clean val ∧ val ≠ []) →
  (b = true → peer_assign k val p = Ret p') → (b = false → p' = p) →
  runs (on b (wline label val)) (st_peer name i ps p) (st_peer name i ps p').
Proof.
  intros (Hl & Hne & Hk) Hc Ha Hz. destruct b; cbn [on]; [|rewrite Hz by done; apply runs_nil].
  destruct (Hc eq_refl) as [Hcl Hv]. rewrite wline_written.
  apply runs_line; [by apply written_no_newline|].
  rewrite parse_written by done. unfold assign_effect, st_peer. cbn [ps_section ps_peer].
  rewrite Hk. cbn [or_fail mbind outcome_bind]. by rewrite Ha.
Qed.

Lemma wf_printable_endpoint e :
  accepted_endpoint e → endpoint_printable e = true → wf_endpoint e.
Proof.
  intros (Hne & _ & Hp & Hh) Hpr. split; [|done]. unfold endpoint_printable in Hpr.
  destruct (has_byte (Host e) ":"%byte) eqn:Hc.
  - right. split; [done|]. destruct (ParseIP (strip_zone (Host e))); [by eexists|done].
  - destruct Hh as [?|[[? _]|Hf]]; [by left|congruence|].
    exfalso. destruct (Host e) as [|b h]; [done|]. cbn in *. by rewrite Hf in Hc.
Qed.

Lemma wf_keepalive_read v :
  wf_keepalive v →
  nonempty v && negb (v =?s "0") && negb (v =?s "off") = true →
  clean v ∧ v ≠ [] ∧ parsePersistentKeepalive v = Ret v.
Proof. intros [->|[->|(? & ? & ?)]]; done. Qed.

Lemma wf_keepalive_dropped v :
  wf_keepalive v →
  nonempty v && negb (v =?s "0") && negb (v =?s "off") = false → v = [] ∨ v = "0".
Proof.
  intros [->|[->|(Hne & Hc & Hp)]]; auto. intros H.
  destruct (str_eqb_spec v "0"); [auto|]. destruct (str_eqb_spec v "off") as [->|]; [done|].
  by destruct v.
Qed.

Lemma Key_line_printed k b : length k = KeyLength → b = true → clean (Key_String k) ∧ Key_String k ≠ [].
Proof. intros H _. by apply Key_String_clean. Qed.

Ltac run_peer := eapply runs_peer_line; [label_ok|..].

Lemma runs_endpoint name i ps ep p :
  ep = zeroEndpoint ∨ accepted_endpoint ep → endpoint_printable ep = true →
  PeerEndpoint p = zeroEndpoint →
  runs (on (negb (Endpoint_IsEmpty ep)) (wline "Endpoint" (Endpoint_String ep)))
    (st_peer name i ps p) (st_peer name i ps (p <| PeerEndpoint := ep |>)).
Proof.
  intros [->|Hacc] Hpr Hz.
  - run_peer; [discriminate..|]. intros _. destruct p. cbn in *. by rewrite Hz.
  - pose proof (wf_printable_endpoint _ Hacc Hpr) as Hw. run_peer.
    + intros _. split; [apply Endpoint_String_clean; [done|apply Hacc]|apply Endpoint_String_nonempty].
    + intros _. cbn [peer_assign]. by rewrite parseEndpoint_String by done.
    + destruct ep as [[|h0 h] port]; [by destruct Hacc|done].
Qed.

(** The state to which the lines of a peer lead, from the fresh peer. *)
Lemma runs_peer_body name i ps p :
  wf_peer p → endpoint_printable (PeerEndpoint p) = true →
  runs (wline "PublicKey" (Key_String (PublicKey p))
    ++ on (negb (Key_IsZero (PresharedKey p))) (wline "PresharedKey" (Key_String (PresharedKey p)))
    ++ on (0 <? length (AllowedIPs p))%nat
          (wline "AllowedIPs" (Join (map IPCidr_String (AllowedIPs p)) ", "))
    ++ on (negb (Endpoint_IsEmpty (PeerEndpoint p))) (wline "Endpoint" (Endpoint_String (PeerEndpoint p)))
    ++ on (nonempty (PersistentKeepalive p) && negb (PersistentKeepalive p =?s "0")
           && negb (PersistentKeepalive p =?s "off"))
          (wline "PersistentKeepalive" (PersistentKeepalive p)))
    (st_peer name i ps zeroPeer) (st_peer name i ps (normalize_peer p)).
Proof.
  intros [Wk Wp Wa We Wl Ws] Hpr. destruct p as [pk psk ips ep ka rx tx lh].
  cbn [PublicKey PresharedKey AllowedIPs PeerEndpoint PersistentKeepalive RxBytes TxBytes
       LastHandshakeTime] in *.
  eapply runs_app; [|eapply runs_app; [|eapply runs_app; [|eapply runs_app]]].
  - change (wline "PublicKey" (Key_String pk)) with (on true (wline "PublicKey" (Key_String pk))).
    run_peer; [by apply Key_line_printed| |discriminate].
    intros _. cbn. rewrite parseKeyBase64_String by done. reflexivity.
  - run_peer; [by apply Key_line_printed| |].
    + intros _. cbn. rewrite parseKeyBase64_String by done. reflexivity.
    + intros Hz%negb_false_iff%Key_IsZero_spec. by rewrite Hz.
  - run_peer.
    + intros Hb. apply Join_clean; [by destruct ips|by apply IPCidr_strings_elem].
    + intros Hb. cbn [peer_assign]. rewrite splitList_Join;
        [|by destruct ips|by apply IPCidr_strings_elem].
      cbn [mbind outcome_bind]. rewrite fold_allowed, mapM_parseIPCidr_String by done.
      cbn. reflexivity.
    + by destruct ips.
  - by apply runs_endpoint.
  - run_peer.
    + intros Hb. by destruct (wf_keepalive_read _ Wl Hb) as (? & ? & ?).
    + intros Hb. destruct (wf_keepalive_read _ Wl Hb) as (_ & _ & Hp). cbn [peer_assign].
      rewrite Hp. cbn [mbind outcome_bind]. unfold normalize_peer. cbn [PersistentKeepalive].
      destruct (str_eqb_spec ka "0") as [->|_]; [done|]. destruct Ws as (-> & -> & ->). reflexivity.
    + intros Hb. unfold normalize_peer. cbn [PersistentKeepalive]. destruct Ws as (-> & -> & ->).
      by destruct (wf_keepalive_dropped _ Wl Hb) as [->| ->].
Qed.

(** The configuration a state stands for once the open peer is added. *)
Definition finished (st : pstate) : Config := maybeAddPeer (ps_conf st) (ps_peer st).

Lemma runs_peer st p :
  wf_peer p → endpoint_printable (PeerEndpoint p) = true → ps_sawPrivateKey st = true →
  ∃ st', runs (w_peer p) st st' ∧ ps_sawPrivateKey st' = true ∧
         finished st' = finished st <| Peers := Peers (finished st) ++ [normalize_peer p] |>.
Proof.
  intros Hw Hpr Hs. destruct (finished st) as [name i ps] eqn:Ef.
  exists (st_peer name i ps (normalize_peer p)). split_and!; [|done..].
  unfold w_peer. rewrite app_assoc, app_assoc. eapply runs_app; [|by apply runs_peer_body].
  rewrite <- app_assoc. eapply runs_app; [apply (runs_line []); [done|reflexivity]|].
  apply runs_line; [done|]. unfold parse_line. cbn. unfold finished in Ef. by rewrite Ef, Hs.
Qed.

Lemma runs_peers ps st :
  Forall wf_peer ps → Forall (λ p, endpoint_printable (PeerEndpoint p) = true) ps →
  ps_sawPrivateKey st = true →
  ∃ st', runs (flat_map w_peer ps) st st' ∧ ps_sawPrivateKey st' = true ∧
         finished st' = finished st <| Peers := Peers (finished st) ++ map normalize_peer ps |>.
Proof.
  intros Hw. revert st. induction Hw as [|p ps Hp _ IH]; intros st Hpr Hs.
  - exists st. split_and!; [apply runs_nil|done|]. cbn. rewrite app_nil_r. by destruct (finished st).
  - apply Forall_cons in Hpr as [Hpr1 Hpr2].
    destruct (runs_peer st p Hp Hpr1 Hs) as (st1 & R1 & S1 & F1).
    destruct (IH st1 Hpr2 S1) as (st2 & R2 & S2 & F2).
    exists st2. split_and!; [cbn [flat_map]; by eapply runs_app|done|].
    rewrite F2, F1. cbn. by rewrite <- app_assoc.
Qed.

(** ** The whole text *)

Lemma ToWgQuick_runs name c :
  wf_iface (Iface c) → Forall wf_peer (Peers c) →
  Forall (λ p, endpoint_printable (PeerEndpoint p) = true) (Peers c) → Name c = name →
  ∃ st, runs (ToWgQuick c) (initial_pstate name) st ∧ ps_sawPrivateKey st = true ∧
        finished st = normalize c.
Proof.
  intros Hi Hp Hpr Hn. destruct c as [n i ps]. cbn in *. subst n.
  destruct (runs_peers ps (st_iface name i) Hp Hpr eq_refl) as (st & R & S & F).
  exists st. split_and!; [|done|by rewrite F].
  unfold ToWgQuick. cbn [Iface Peers].
  pose proof (runs_app _ _ _ _ _ (runs_interface name i Hi) R) as RR.
  by rewrite <- !app_assoc in RR.
Qed.
End Reload.
