(* ===== verification/ConfTheorems.v ===== *)
(** * Properties of the configuration reader, writer and validator *)
From S2P Require Import Prelude GoStrings GoStrconv GoEncoding GoNet Conf TunnelName AwgValidation Parser Writer ParserFacts AwgFacts RoundTrip Reload.

Local Open Scope Z_scope.

Section ConfTheorems.
Context {RT : GoRuntime}.

(** ** Saving and reloading *)

Lemma normalize_peer_keepalive p :
  wf_peer p → peer_check tt p = Ret tt → peer_check tt (normalize_peer p) = Ret tt.
Proof.
  intros _ H. unfold normalize_peer. destruct (str_eqb_spec (PersistentKeepalive p) "0"); [|done].
  by apply peer_check_ret; left.
Qed.

Lemma normalize_public p : PublicKey (normalize_peer p) = PublicKey p.
Proof. unfold normalize_peer. by destruct (_ =?s _). Qed.

Lemma normalize_valid c : awg_valid c → awg_valid (normalize c).
Proof.
  intros [H1 H2 H3 H4 H5 H6 H7]. split; [done..| |done]. cbn. apply Forall_map.
  eapply Forall_impl; [exact H6|]. intros p Hp. unfold normalize_peer, compose.
  destruct (PersistentKeepalive p =?s "0"); [by left|done].
Qed.

Lemma w_peer_normalize p : w_peer (normalize_peer p) = w_peer p.
Proof.
  unfold normalize_peer. destruct (str_eqb_spec (PersistentKeepalive p) "0") as [E|]; [|done].
  unfold w_peer. cbn [set_field set_PersistentKeepalive PublicKey PresharedKey AllowedIPs PeerEndpoint
    PersistentKeepalive]. by rewrite E.
Qed.

Lemma ToWgQuick_normalize c : ToWgQuick (normalize c) = ToWgQuick c.
Proof.
  unfold ToWgQuick. cbn [normalize set_field set_Peers Iface Peers]. do 7 f_equal.
  induction (Peers c) as [|p ps IH]; [done|]. cbn [map flat_map]. by rewrite w_peer_normalize, IH.
Qed.

Lemma written_config_reads s name c :
  FromWgQuick s name = Ret c → Forall (λ p, endpoint_printable (PeerEndpoint p) = true) (Peers c) →
  FromWgQuick (ToWgQuick c) name = Ret (normalize c).
Proof.
  intros Hc Hpr.
  destruct (FromWgQuick_accepted _ _ _ Hc) as [[Hn Hv] Hi Hp Hk Ha].
  destruct (ToWgQuick_runs name c Hi Hp Hpr Hn) as (st & R & S & F).
  unfold FromWgQuick. rewrite Hv. cbn [negb fail_if mbind outcome_bind].
  rewrite (runs_from _ _ _ R). cbn [mbind outcome_bind]. unfold finish_pstate.
  rewrite S. fold (finished st). rewrite F. cbn [negb fail_if mbind outcome_bind].
  rewrite (proj2 (existsb_Forall _ _)); cycle 1.
  { cbn. apply Forall_map. eapply Forall_impl; [exact Hk|]. intros p. unfold compose.
    by rewrite normalize_public. }
  cbn [fail_if mbind outcome_bind].
  by rewrite (proj2 (ValidateAWG_ret (normalize c)) (normalize_valid _ (proj1 (ValidateAWG_ret c) Ha))).
Qed.

(** C1: A configuration accepted by [FromWgQuick], none of whose endpoints has
    a host that cannot be printed, is written by [ToWgQuick] as a text that
    reads back as the same configuration (up to a keepalive of "0", which is
    the default), and writing that one again gives the same text. *)
Theorem saved_config_reloads s name c :
  FromWgQuick s name = Ret c →
  Forall (λ p, endpoint_printable (PeerEndpoint p) = true) (Peers c) →
  FromWgQuick (ToWgQuick c) name = Ret (normalize c) ∧ ToWgQuick (normalize c) = ToWgQuick c.
Proof. intros Hc Hpr. split; [by eapply written_config_reads|apply ToWgQuick_normalize]. Qed.

(** C33: Every configuration [FromWgQuick] returns is well-formed: a valid
    tunnel name, 32-byte keys, prefix lengths that fit their addresses, ports
    and packet sizes in 16 bits, an MTU of at least 576, values without line
    breaks or comment signs, a non-zero public key for every peer, and all the
    AmneziaWG constraints. *)
Theorem parsed_config_well_formed s name c :
  FromWgQuick s name = Ret c → accepted name c ∧ awg_valid c.
Proof. intros H%FromWgQuick_accepted. split; [done|]. by apply ValidateAWG_ret, H. Qed.

(** ** Validation *)

(** C28: [ValidateAWG] succeeds exactly on the configurations that satisfy the
    declarative constraints (junk sizes ordered and within a UDP datagram,
    paddings with their packets within a datagram and at least 12 under header
    protection, four pairwise disjoint 32-bit header ranges, well-formed 16-bit
    ranges and booleans, well-formed CPS packets), whatever order the runtime
    iterates its maps in. *)
Theorem ValidateAWG_exact c : ValidateAWG c = Ret tt ↔ awg_valid c.
Proof. apply ValidateAWG_ret. Qed.

(** [ParseAWGRange] accepts exactly a decimal number, or two decimal
    numbers in order joined by a dash, with no boundary of [2^bits] or more. *)
Theorem ParseAWGRange_exact value bits lo hi :
  0 <= bits <= 64 →
  ParseAWGRange value bits = Ret (lo, hi) ↔
    (numeral value lo ∧ hi = lo ∧ lo < 2 ^ bits) ∨
    (∃ p q, value = p ++ "-" ++ q ∧ numeral p lo ∧ numeral q hi ∧ lo <= hi < 2 ^ bits).
Proof. apply ParseAWGRange_ret. Qed.

(** C29: [ValidateCPS] accepts exactly the descriptions of at most 256 KiB that
    the tag grammar derives with between 1 and 4096 tags, at most one timestamp
    and a packet of at most 65507 bytes. *)
Theorem ValidateCPS_exact spec :
  ValidateCPS spec = Ret tt ↔
  Z.of_nat (length spec) <= 262144 ∧
  ∃ count size stamps, cps_packet (TrimSpace spec) count size stamps ∧
    1 <= count <= 4096 ∧ size <= 65507 ∧ stamps <= 1.
Proof.
  unfold ValidateCPS. rewrite seq_ret, fail_if_ret, Z.gtb_ltb, Z.ltb_ge.
  change (256 * 1024) with 262144. apply and_iff_compat_l. cbn zeta. split.
  - intros H. apply bind_ret in H as (k & H & Hk%fail_if_ret). breflect.
    apply cps_loop_sound in H as (k' & n & t & Hp & -> & Hlim & Ht); [|lia|lia].
    pose proof (cps_packet_nonneg _ _ _ _ Hp) as (? & ? & ?).
    assert (TrimSpace spec ≠ []) as Hne by (intros E; rewrite E in Hp; inversion Hp; subst; lia).
    destruct (Hlim Hne). exists k', n, t. split_and!; [done|lia..].
  - intros (k & n & t & Hp & Hk & Hn & Ht).
    rewrite (cps_loop_complete _ _ _ _ Hp) by lia. cbn [mbind outcome_bind].
    apply fail_if_ret, Z.eqb_neq. lia.
Qed.

(** The CPS scanner always terminates with an answer: its loop never runs
    longer than the input. *)
Theorem ValidateCPS_terminates spec : ValidateCPS spec ≠ Panic.
Proof.
  unfold ValidateCPS. destruct (_ >? _); cbn [fail_if mbind outcome_bind]; [done|].
  pose proof (cps_loop_no_panic (S (length (TrimSpace spec))) (TrimSpace spec) 0 0 0 ltac:(lia)) as H.
  cbn zeta. destruct (cps_loop _ _ _ _ _) as [k| |]; [|done..]. cbn. by destruct (k =? 0).
Qed.
End ConfTheorems.

(** ** A sample configuration *)

Definition sample_key : gostring := "yAnz5TF+lXXJte14tji3zlMNq+hd2rYUIgJBgB3fBmk=".

Definition sample_lines (endpoint : gostring) : list gostring :=
  ["[Interface]"; "PrivateKey = " ++ sample_key; "Address = 10.0.0.2/24, fd00::2/64 # home";
   "DNS=1.1.1.1, corp.example"; "Jc = 4"; "I1 = <b 0x00ff><r 10>"; "[Peer]"; "PublicKey=" ++ sample_key;
   "Endpoint=" ++ endpoint; "AllowedIPs=0.0.0.0/0,::/0"; "PersistentKeepalive=off"].

Definition sample_text (endpoint : gostring) : gostring := Join (sample_lines endpoint) [x0a].

Definition sample_conf (endpoint : gostring) : Config :=
  match @FromWgQuick plain_runtime (sample_text endpoint) "home" with
  | Ret c => c
  | _ => mkConfig [] zeroInterface []
  end.

Lemma saved_config_reloads_witness :
  @FromWgQuick plain_runtime (ToWgQuick (sample_conf "[2001:db8::1]:51820")) "home"
  = Ret (normalize (sample_conf "[2001:db8::1]:51820")).
Proof.
  apply (@saved_config_reloads plain_runtime (sample_text "[2001:db8::1]:51820") "home").
  - vm_compute. reflexivity.
  - apply List.Forall_forall, forallb_forall. vm_compute. reflexivity.
Defined.

Lemma parsed_config_well_formed_witness :
  @accepted plain_runtime "home" (sample_conf "example.org:51820").
Proof.
  apply (@parsed_config_well_formed plain_runtime (sample_text "example.org:51820") "home").
  vm_compute. reflexivity.
Defined.

Lemma ParseAWGRange_exact_witness : ParseAWGRange "1-5" 16 = Ret (1, 5).
Proof.
  apply (ParseAWGRange_exact "1-5" 16 1 5); [lia|]. right. exists "1", "5".
  split_and!; [reflexivity|by split_and!|by split_and!|lia|reflexivity].
Defined.

(** A configuration that [FromWgQuick] accepts can be saved as a text it
    rejects: the host of an endpoint such as "::80" passes the reader without
    brackets, while the writer adds them. *)
Theorem unprintable_endpoint_lost :
  ∃ s c, @FromWgQuick plain_runtime s "home" = Ret c ∧
         is_ret (@FromWgQuick plain_runtime (ToWgQuick c) "home") = false.
Proof. exists (sample_text "::80"), (sample_conf "::80"). split; vm_compute; reflexivity. Qed.

(** Two Kelvin signs, an equals sign. *)
Definition kelvin_line : gostring := [xe2; x84; xaa; xe2; x84; xaa; "="%byte].

Lemma ToLower_kelvin {RT : GoRuntime} : rune_lower 0x212A = 0x6B → ToLower kelvin_line = "kk=".
Proof.
  intros H. unfold ToLower. change (forallb is_ascii kelvin_line) with false. cbv iota.
  change (runes kelvin_line) with [0x212A; 0x212A; 0x3D]. cbn [flat_map map].
  change (unicode_ToLower 0x212A) with (rune_lower 0x212A). rewrite H. reflexivity.
Qed.

(** Lower-casing can shorten a line (U+212A lowers to "k"), and then the
    slice [lineLower[:equals]] is out of range: with the Unicode case table the
    reader panics on a file of two lines. *)
Theorem FromWgQuick_kelvin_panics (RT : GoRuntime) :
  rune_lower 0x212A = 0x6B →
  FromWgQuick ("[Interface]" ++ [x0a] ++ kelvin_line) "home" = Panic.
Proof.
  intros H. unfold FromWgQuick.
  change (TunnelNameIsValid "home") with true. cbn [negb fail_if mbind outcome_bind].
  change (Split ("[Interface]" ++ [x0a] ++ kelvin_line) x0a) with ["[Interface]" : gostring; kelvin_line].
  cbn [fold_outcome]. change (parse_line (initial_pstate "home") "[Interface]")
    with (Ret (mkPstate inInterfaceSection (ps_conf (initial_pstate "home")) None false)).
  cbn [mbind outcome_bind]. unfold parse_line.
  change (TrimSpace (strip_comment kelvin_line)) with kelvin_line.
  rewrite (ToLower_kelvin H). reflexivity.
Qed.

Lemma FromWgQuick_kelvin_panics_witness :
  @FromWgQuick plain_runtime ("[Interface]" ++ [x0a] ++ kelvin_line) "home" = Panic.
Proof. apply (FromWgQuick_kelvin_panics plain_runtime). reflexivity. Defined.
