(* ===== verification/ParserSafety.v ===== *)
(** * When the readers cannot panic

    A Go slice expression out of range panics.  The only one the readers can
    reach is the key of a line, cut out of the lower-cased line at a position
    computed on the original one; on ASCII text the two have the same length. *)
From S2P Require Import Prelude GoStrings GoStrconv GoEncoding GoNet Conf TunnelName AwgValidation Parser UapiParser ParserFacts AwgFacts RoundTrip.

Local Open Scope Z_scope.

Definition no_panic {A} (m : outcome A) : Prop := m ≠ Panic.

Lemma np_ret {A} (a : A) : no_panic (Ret a).
Proof. done. Qed.
Lemma np_fail {A} e : no_panic (@Fail A e).
Proof. done. Qed.
Lemma np_fail_if b e : no_panic (fail_if b e).
Proof. by destruct b. Qed.
Lemma np_or_fail {A} (o : option A) e : no_panic (or_fail o e).
Proof. by destruct o. Qed.
Lemma np_map_error {A} f (m : outcome A) : no_panic m → no_panic (map_error f m).
Proof. by destruct m. Qed.
Lemma np_bind {A B} (m : outcome A) (f : A → outcome B) :
  no_panic m → (∀ a, m = Ret a → no_panic (f a)) → no_panic (m ≫= f).
Proof. destruct m; cbn; auto; by intros H. Qed.
Lemma np_mapM {A B} (f : A → outcome B) l : (∀ x, no_panic (f x)) → no_panic (mapM_outcome f l).
Proof.
  intros Hf. induction l as [|x l IH]; cbn [mapM_outcome]; [done|].
  apply np_bind; [done|]. intros y _. apply np_bind; [done|]. done.
Qed.
Lemma np_num fn s r : no_panic (num_outcome fn s r).
Proof. by destruct r. Qed.
#[export] Hint Resolve np_ret np_fail np_fail_if np_or_fail np_map_error np_num : go.

(** Walk through a monadic body. *)
Ltac np_step :=
  match goal with
  | |- no_panic (let _ := _ in _) => cbv zeta
  | |- no_panic (_ ≫= _) => apply np_bind; [|intros ? ?]
  | |- no_panic (if ?b then _ else _) => destruct b
  | |- no_panic (match ?x with _ => _ end) => destruct x
  | |- no_panic _ => solve [auto with go]
  end.
Ltac np := repeat np_step; auto with go.

Lemma b64_decode_np s si dbuf : no_panic (b64_decode s si dbuf).
Proof.
  assert (∀ s si out, no_panic (b64_tail s si out)) as Ht.
  { intros s' si' out. unfold b64_tail. destruct (skip_newlines s' si') as [[|] ?]; done. }
  revert si dbuf. induction s as [|c s IH]; intros si dbuf; cbn [b64_decode]; [by destruct dbuf|].
  destruct (b64_val c) as [v|].
  - destruct dbuf as [|v0 [|v1 [|v2 [|]]]]; auto. apply np_bind; [auto|done].
  - destruct (is_newline c); [auto|]. destruct (negb _); [done|].
    destruct dbuf as [|v0 [|v1 [|v2 [|]]]]; auto with go.
    destruct (skip_newlines s (S si)) as [[|c' s''] si']; [done|]. by destruct (Byte.eqb c' x3d).
Qed.

Lemma ParseAWGRange_np v bits : no_panic (ParseAWGRange v bits).
Proof.
  unfold ParseAWGRange, range_part. destruct (Split v _) as [|p [|q [|]]]; np; unfold ParseUint; np.
Qed.

Lemma parseKeyBase64_np s : no_panic (parseKeyBase64 s).
Proof. unfold parseKeyBase64, b64_DecodeString, key_of_bytes. np. apply np_map_error, b64_decode_np. Qed.
Lemma parseKeyHex_np s : no_panic (parseKeyHex s).
Proof. unfold parseKeyHex, key_of_bytes. np. apply np_map_error, hex_DecodeString_no_panic. Qed.
Lemma parsePort_np s : no_panic (parsePort s).
Proof. unfold parsePort, Atoi. np. Qed.
Lemma parseUint16_np s n : no_panic (parseUint16 s n).
Proof. unfold parseUint16, Atoi. np. Qed.
Lemma parseMTU_np s : no_panic (parseMTU s).
Proof. unfold parseMTU, Atoi. np. Qed.
Lemma parseIPCidr_np s : no_panic (parseIPCidr s).
Proof. unfold parseIPCidr, Atoi. np. Qed.
Lemma splitList_np s : no_panic (splitList s).
Proof. apply np_mapM. intros x. unfold split_elem. np. Qed.
Lemma parseTableOff_np s : no_panic (parseTableOff s).
Proof. unfold parseTableOff, ParseUint. np. Qed.
Lemma parseBytesOrStamp_np s : no_panic (parseBytesOrStamp s).
Proof. unfold parseBytesOrStamp, ParseUint. np. Qed.
Lemma parseEndpoint_np s : no_panic (parseEndpoint s).
Proof. unfold parseEndpoint. np. apply parsePort_np. Qed.
#[export] Hint Resolve ParseAWGRange_np parseKeyBase64_np parseKeyHex_np parsePort_np parseUint16_np
  parseMTU_np parseIPCidr_np splitList_np parseTableOff_np parseBytesOrStamp_np parseEndpoint_np : go.

Section Safety.
Context {RT : GoRuntime}.

Lemma parsePersistentKeepalive_np s : no_panic (parsePersistentKeepalive s).
Proof. unfold parsePersistentKeepalive. np. Qed.
#[local] Hint Resolve parsePersistentKeepalive_np : go.

Lemma iface_assign_np k val i : no_panic (iface_assign k val i).
Proof.
  destruct k; cbn [iface_assign]; np. rewrite fold_addresses. np. apply np_mapM. auto with go.
Qed.

Lemma peer_assign_np k val p : no_panic (peer_assign k val p).
Proof.
  destruct k; cbn [peer_assign]; np. rewrite fold_allowed. np. apply np_mapM. auto with go.
Qed.

Lemma ValidateAWG_np c : no_panic (ValidateAWG c).
Proof.
  assert (∀ A (f : unit → A → outcome unit) l, (∀ x, no_panic (f tt x)) → no_panic (fold_outcome f tt l)) as Hf.
  { intros A f l H. induction l as [|x l IH]; cbn; [done|]. apply np_bind; [done|]. by intros []. }
  assert (∀ m rs n lo hi, no_panic (overlap_check m rs n lo hi)) as Ho.
  { intros m rs. revert m. induction rs as [|[] rs IH]; intros; cbn; [done|]. np. }
  assert (∀ n hs rs, no_panic (header_check n hs rs)) as Hh.
  { intros n hs. revert n. induction hs as [|h hs IH]; intros n rs; cbn [header_check]; [done|].
    apply np_bind; [auto with go|]. intros [lo hi] _. apply np_bind; [done|]. done. }
  assert (∀ s, no_panic (ValidateCPS s)) as Hc.
  { intros s. unfold ValidateCPS. np. by apply cps_loop_no_panic; lia. }
  unfold ValidateAWG. np; try (apply Hf; intros x).
  - destruct x as [[n p] payload]. unfold padding_check. np.
  - destruct x as [name v]. unfold range_field_check. np.
  - destruct x as [name v]. unfold bool_field_check, ParseAWGBool. np. apply np_map_error. np.
  - unfold peer_check. np.
  - destruct x as [key spec]. unfold ipacket_check. np.
Qed.

Lemma infix_ascii (l m r : gostring) : forallb is_ascii (l ++ m ++ r) = true → forallb is_ascii m = true.
Proof. rewrite !forallb_app_iff. tauto. Qed.

Lemma trim_line_ascii line :
  forallb is_ascii line = true → forallb is_ascii (TrimSpace (strip_comment line)) = true.
Proof.
  intros H. assert (forallb is_ascii (strip_comment line) = true) as H'.
  { unfold strip_comment. destruct (IndexByte line _) as [n|]; [|done].
    rewrite <- (take_drop n line) in H. by apply forallb_app_iff in H as [? _]. }
  destruct (TrimSpace_infix (strip_comment line)) as (l & r & E). rewrite E in H'.
  by eapply infix_ascii.
Qed.

Lemma parse_line_np name st line :
  forallb is_ascii line = true → wf_pstate name st → no_panic (parse_line st line).
Proof.
  intros Ha W. unfold parse_line. apply trim_line_ascii in Ha.
  generalize dependent (TrimSpace (strip_comment line)). intros l Ha.
  destruct (length l =? 0)%nat; [done|]. destruct (_ =?s _); [done|]. destruct (_ =?s _); [done|].
  assert (no_panic (assign_line st l (ToLower l))) as H.
  { unfold assign_line. destruct (IndexByte l "="%byte) as [eq|] eqn:E; [|done].
    rewrite (ToLower_ascii l Ha), length_map.
    apply IndexByte_Some in E as (_ & _ & Hlt). rewrite (proj2 (Nat.ltb_ge _ _)) by lia.
    apply np_bind; [auto with go|]. intros [] _. destruct (ps_section st) eqn:Es.
    - np. apply iface_assign_np.
    - apply np_bind; [auto with go|]. intros k _.
      destruct (proj1 (wst_section _ _ W) Es) as [p ->]. np. apply peer_assign_np.
    - done. }
  by destruct (ps_section st).
Qed.

Lemma Split_ascii s c : forallb is_ascii s = true → Forall (λ w, forallb is_ascii w = true) (Split s c).
Proof.
  induction s as [|b s IH]; cbn [Split forallb]; [by repeat constructor|].
  intros [Hb Hs]%andb_true_iff. specialize (IH Hs).
  destruct (Byte.eqb b c); [by constructor|].
  destruct (Split s c) as [|w ws]; [repeat constructor; cbn; by rewrite Hb|].
  apply Forall_cons in IH as [Hw Hws]. constructor; [|done]. cbn. by rewrite Hb.
Qed.

Lemma parse_lines_np name ls st :
  Forall (λ l, forallb is_ascii l = true ∧ has_byte l x0a = false) ls → wf_pstate name st →
  no_panic (fold_outcome parse_line st ls).
Proof.
  intros H. revert st. induction H as [|l ls [Ha Hn] _ IH]; intros st W; cbn [fold_outcome]; [done|].
  apply np_bind; [by eapply parse_line_np|]. intros st' Hst'. apply IH. by eapply parse_line_wf.
Qed.

(** On ASCII text [FromWgQuick] never panics: it returns a configuration
    or an error. *)
Theorem FromWgQuick_ascii_safe s name :
  forallb is_ascii s = true → no_panic (FromWgQuick s name).
Proof.
  intros Ha. unfold FromWgQuick. np.
  - eapply parse_lines_np; [|apply initial_wf]. apply Forall_and. split; [by apply Split_ascii|apply Split_no_sep].
  - unfold finish_pstate. np. apply ValidateAWG_np.
Qed.
End Safety.

Lemma FromWgQuick_ascii_safe_witness : no_panic (@FromWgQuick plain_runtime "[Interface]" "home").
Proof. apply (@FromWgQuick_ascii_safe plain_runtime "[Interface]" "home"). reflexivity. Defined.

(** ** The device protocol: reading the device's answer, writing its configuration *)
From S2P Require Import Writer.

Local Open Scope Z_scope.

Lemma i64_small z : 0 <= z < 2 ^ 63 → i64 z = z.
Proof. intros H. unfold i64, two64. rewrite Z.mod_small; lia. Qed.

Section UapiFacts.
Context {RT : GoRuntime}.

(** ** Safety of the reader *)

Lemma uapi_line_np st line : no_panic (uapi_line st line).
Proof.
  unfold uapi_line. destruct (IndexByte line _); [|done]. apply np_bind; [auto with go|]. intros [] _.
  destruct (_ =?s "errno"); [by np|].
  match goal with |- no_panic (match ?x with _ => _ end) => destruct x as [conf [p|]] end; np.
  - unfold uapi_peer_assign. np. apply parsePersistentKeepalive_np.
  - unfold uapi_iface_assign. np. apply iface_assign_np.
Qed.

Lemma uapi_loop_np st pieces : no_panic (uapi_loop st pieces).
Proof.
  revert st. induction pieces as [|line [|l2 rest] IH]; intros st; [done..|].
  change (no_panic (match line with [] => Ret st | _ => st' ← uapi_line st line; uapi_loop st' (l2 :: rest) end)).
  destruct line; [done|]. apply np_bind; [apply uapi_line_np|]. intros. apply IH.
Qed.

(** [FromUAPI] never panics, whatever the device sends and whatever the
    configuration it is merged into. *)
Theorem FromUAPI_safe input existing : no_panic (FromUAPI input existing).
Proof. unfold FromUAPI. apply np_bind; [apply uapi_loop_np|]. by intros [conf peer] _. Qed.

(** ** Values across the protocol *)

(** The [on]/[off] fields reach the device with the meaning validation gave
    them: an ASCII value that [ParseAWGBool] accepts is sent as 1 or 0
    accordingly, and reading the device's digit back gives [on] or [off]. *)
Theorem boolToUAPI_agrees v b :
  forallb is_ascii v = true → ParseAWGBool v = Ret b →
  boolToUAPI v = (if b then "1" else "0") ∧ boolFromUAPI (boolToUAPI v) = (if b then "on" else "off").
Proof.
  intros Ha H. unfold ParseAWGBool in H. rewrite ToLower_ascii in H by done.
  assert (TrimSpace v = v) as Et.
  { apply TrimSpace_id. apply (trimmed_nonspace (λ b, is_ascii b && negb (space1 b))).
    - intros x [? ?%negb_true_iff]%andb_true_iff. done.
    - assert (∀ x, is_ascii x = true → space1 x = space1 (lower_byte x)) as Hl.
      { intros x. by_bytes (λ x, implb (is_ascii x) (Bool.eqb (space1 x) (space1 (lower_byte x)))) x.
        intros E Hx. apply (implb_elim _ _ E) in Hx. by apply Bool.eqb_prop in Hx. }
      assert (forallb (λ x, negb (space1 x)) (map lower_byte v) = true) as Hns.
      { destruct (existsb _ _) eqn:E1 in H; [|destruct (existsb _ _) eqn:E2 in H; [|done]].
        - apply existsb_exists in E1 as (w & Hin & ->%str_eqb_true). clear -Hin.
          repeat (destruct Hin as [<-|Hin]; [reflexivity|]). done.
        - apply existsb_exists in E2 as (w & Hin & ->%str_eqb_true). clear -Hin.
          repeat (destruct Hin as [<-|Hin]; [reflexivity|]). done. }
      rewrite forallb_forall in *. intros x Hx. rewrite (Ha x Hx), (Hl x (Ha x Hx)). cbn [andb].
      apply (Hns (lower_byte x)). by apply in_map. }
  assert (boolToUAPI v = if b then "1" else "0") as ->; [|by destruct b].
  unfold boolToUAPI. rewrite Et, ToLower_ascii by done.
  set (w := map lower_byte v) in *. clearbody w. destruct (existsb _ _) eqn:E1 in H.
  - injection H as <-. apply existsb_exists in E1 as (x & Hin & ->%str_eqb_true). clear -Hin.
    repeat (destruct Hin as [<-|Hin]; [reflexivity|]). done.
  - destruct (existsb _ _) eqn:E2 in H; [|done]. injection H as <-.
    apply existsb_exists in E2 as (x & Hin & ->%str_eqb_true). clear -Hin.
    repeat (destruct Hin as [<-|Hin]; [reflexivity|]). done.
Qed.

(** C40: The handshake time of a peer is exact as long as it fits 64-bit
    nanoseconds: after the device's seconds and nanoseconds lines it is their
    sum. *)
Theorem handshake_time_exact sec nsec :
  0 <= sec → 0 <= nsec → sec * 1000000000 + nsec < 2 ^ 63 →
  ∃ p p', uapi_peer_assign UHandshakeSec (Itoa sec) zeroPeer = Ret p ∧
          uapi_peer_assign UHandshakeNsec (Itoa nsec) p = Ret p' ∧
          LastHandshakeTime p' = sec * 1000000000 + nsec.
Proof.
  intros Hs Hn Hlt. unfold uapi_peer_assign, parseBytesOrStamp.
  rewrite !ParseUint_Itoa by lia. cbn [map_error mbind outcome_bind].
  eexists _, _. split_and!; [done|done|]. cbn [LastHandshakeTime set_field set_LastHandshakeTime zeroPeer].
  unfold add_duration. rewrite (i64_small sec), (i64_small nsec) by lia.
  rewrite Z.mul_1_r, Z.add_0_l, !(i64_small (sec * _)), (i64_small nsec) by lia. apply i64_small. lia.
Qed.

End UapiFacts.

(** ** Aliasing *)

(** Reading the device writes into the configuration passed as existing:
    its [IPackets] map is shared with the result, so after a call that reads
    [i1] the caller's configuration has the device's packet as well. *)
Theorem FromUAPI_mutates_existing (RT : GoRuntime) (m : gmap gostring gostring) :
  let existing := mkConfig "home" (zeroInterface <| IPackets := Some m |>) [] in
  ∃ conf existing', FromUAPI ("i1=<t>" ++ [x0a; x0a]) existing = Ret (conf, existing') ∧
    IPackets (Iface existing') = Some (<["i1" : gostring := "<t>" : gostring]> m).
Proof. eexists _, _. split; reflexivity. Qed.

Lemma boolToUAPI_agrees_witness : @boolToUAPI plain_runtime "Yes" = "1".
Proof. apply (@boolToUAPI_agrees plain_runtime "Yes" true); reflexivity. Defined.

Lemma handshake_time_exact_witness :
  ∃ p p', @uapi_peer_assign plain_runtime UHandshakeSec (Itoa 1700000000) zeroPeer = Ret p ∧
          @uapi_peer_assign plain_runtime UHandshakeNsec (Itoa 5) p = Ret p' ∧
          LastHandshakeTime p' = 1700000000 * 1000000000 + 5.
Proof. apply (@handshake_time_exact plain_runtime 1700000000 5); lia. Defined.
