(* ===== verification/ConfFacts.v ===== *)
(** * Properties of configuration values ([core/conf/config.go]) *)
From S2P Require Import Prelude GoStrings GoStrconv GoEncoding GoNet Conf AwgValidation Parser ParserFacts.

Local Open Scope Z_scope.

(** ** Network masks *)

(** An address as a big-endian integer. *)
Fixpoint ip_value (ip : list byte) : Z :=
  match ip with [] => 0 | b :: ip => bz b * 256 ^ Z.of_nat (length ip) + ip_value ip end.

(** The mask bytes from position [k] on. *)
Definition mask_from (ones : Z) (k n : nat) : list byte :=
  map (λ i, mask_byte (ones - 8 * Z.of_nat i)) (seq k n).

Lemma ip_value_range ip : 0 <= ip_value ip < 256 ^ Z.of_nat (length ip).
Proof.
  induction ip as [|b ip IH]; cbn [ip_value length]; [lia|].
  pose proof (bz_range b). rewrite Nat2Z.inj_succ, Z.pow_succ_r by lia. nia.
Qed.

Lemma length_zip_and ip m : length m = length ip → length (zip_with and_byte ip m) = length ip.
Proof. intros H. rewrite length_zip_with. lia. Qed.

Lemma length_mask_from ones k n : length (mask_from ones k n) = n.
Proof. unfold mask_from. by rewrite length_map, length_seq. Qed.

Lemma and_mask_byte b k :
  bz (and_byte b (mask_byte k))
  = if k >=? 8 then bz b else if k <=? 0 then 0 else bz b - bz b mod 2 ^ (8 - k).
Proof.
  destruct (k >=? 8) eqn:E1; [|destruct (k <=? 0) eqn:E2]; unfold mask_byte; rewrite E1, ?E2.
  - by_bytes (λ b, bz (and_byte b xff) =? bz b) b. by intros ?%Z.eqb_eq.
  - by_bytes (λ b, bz (and_byte b x00) =? 0) b. by intros ?%Z.eqb_eq.
  - breflect. assert (0 <= k < 8) as Hk by lia.
    by_below 8 (λ k, forallb (λ b, bz (and_byte b (zb (256 - 2 ^ (8 - k)))) =? bz b - bz b mod 2 ^ (8 - k)) all_bytes
      || (k =? 0)) k Hk.
    intros [H|H]%orb_true_iff; [|breflect; lia].
    rewrite forallb_forall in H. specialize (H b (all_bytes_complete b)). breflect. done.
Qed.

(** Masking clears the host bits and nothing else. *)
Lemma ip_value_mask ip ones k :
  ip_value (zip_with and_byte ip (mask_from ones k (length ip)))
  = let r := ones - 8 * Z.of_nat k in
    let w := 8 * Z.of_nat (length ip) in
    if r >=? w then ip_value ip
    else if r <=? 0 then 0 else ip_value ip - ip_value ip mod 2 ^ (w - r).
Proof.
  revert k. induction ip as [|b ip IH]; intros k; cbn zeta.
  { cbn. case_if; [done|]. case_if; [done|]. by rewrite Zmod_0_l. }
  unfold mask_from. cbn [length seq map zip_with ip_value].
  fold (mask_from ones (S k) (length ip)). rewrite IH. cbn zeta.
  rewrite length_zip_and by apply length_mask_from.
  set (n := Z.of_nat (length ip)). assert (0 <= n) as Hn by lia.
  rewrite !Nat2Z.inj_succ. fold n. set (r := ones - 8 * Z.of_nat k).
  replace (ones - 8 * Z.succ (Z.of_nat k)) with (r - 8) by (unfold r; lia).
  rewrite and_mask_byte. fold r. pose proof (bz_range b) as Hb. pose proof (ip_value_range ip) as Hv. fold n in Hv.
  assert (256 ^ n = 2 ^ (8 * n)) as E256 by (change 256 with (2 ^ 8); by rewrite <- Z.pow_mul_r by lia).
  rewrite E256 in *. rewrite !Z.geb_leb.
  destruct (Z.leb_spec (8 * Z.succ n) r) as [H1|H1].
  { rewrite (proj2 (Z.leb_le 8 r)), (proj2 (Z.leb_le (8 * n) (r - 8))) by lia. done. }
  destruct (Z.leb_spec r 0) as [H2|H2].
  { rewrite (proj2 (Z.leb_gt 8 r)), (proj2 (Z.leb_gt (8 * n) (r - 8))) by lia.
    by rewrite (proj2 (Z.leb_le (r - 8) 0)) by lia. }
  destruct (Z.leb_spec 8 r) as [H3|H3].
  - rewrite (proj2 (Z.leb_gt (8 * n) (r - 8))) by lia.
    replace (8 * Z.succ n - r) with (8 * n - (r - 8)) by lia.
    set (q := 8 * n - (r - 8)). assert (0 <= q <= 8 * n) as Hq by lia.
    assert (2 ^ (8 * n) = 2 ^ (8 * n - q) * 2 ^ q) as Ep by (rewrite <- Z.pow_add_r by lia; f_equal; lia).
    assert ((bz b * 2 ^ (8 * n) + ip_value ip) mod 2 ^ q = ip_value ip mod 2 ^ q) as Em.
    { rewrite Ep, Z.mul_assoc, Z.add_comm. apply Z_mod_plus_full. }
    rewrite Em. destruct (Z.leb_spec (r - 8) 0); [|lia].
    assert (q = 8 * n) as -> by lia. rewrite (Z.mod_small (ip_value ip)) by lia. lia.
  - rewrite (proj2 (Z.leb_le (r - 8) 0)) by lia.
    destruct (Z.leb_spec (8 * n) (r - 8)); [lia|].
    replace (8 * Z.succ n - r) with ((8 - r) + 8 * n) by lia.
    rewrite Z.pow_add_r by lia.
    assert (0 < 2 ^ (8 * n)) by (apply Z.pow_pos_nonneg; lia).
    assert (0 < 2 ^ (8 - r)) by (apply Z.pow_pos_nonneg; lia).
    rewrite (Z.mul_comm (2 ^ (8 - r))), Z.rem_mul_r by lia.
    rewrite (Z.add_comm (bz b * _)), Z_mod_plus_full, Z_div_plus_full by lia.
    rewrite (Z.mod_small (ip_value ip)), (Z.div_small (ip_value ip)) by lia.
    rewrite ?Z.add_0_l. ring.
Qed.

(** The masked network of a well-formed entry. *)
Definition masked (a : IPCidr) : IPCidr :=
  mkIPCidr (zip_with and_byte (IPof a) (mask_from (Cidr a) 0 (length (IPof a)))) (Cidr a).

Lemma MaskSelf_wf a : wf_cidr a → MaskSelf a = Ret (masked a).
Proof.
  destruct a as [ip n]. unfold wf_cidr, MaskSelf, IPNet, Bits, masked. cbn [IPof Cidr].
  assert (∀ w, CIDRMask n (8 * Z.of_nat w) = mask_from n 0 w) as Hm.
  { intros w. unfold CIDRMask, mask_from. rewrite Z.mul_comm, Z.div_mul, Nat2Z.id by lia. done. }
  intros [[Hl Hn]|(Hl & H4 & Hn)].
  - rewrite To4_short by done. cbn zeta. rewrite (proj2 (Z.leb_le 0 n)), (proj2 (Z.leb_le n 32)) by lia.
    change 32 with (8 * Z.of_nat 4). rewrite Hm, Hl. change (Z.to_nat (8 * Z.of_nat 4 / 8)) with 4%nat. cbn [andb].
    change (4 <? 4)%nat with false. cbv iota.
    rewrite !take_ge, drop_ge, app_nil_r by (rewrite ?length_mask_from; lia). done.
  - rewrite H4. cbn zeta. rewrite (proj2 (Z.leb_le 0 n)), (proj2 (Z.leb_le n 128)) by lia.
    change 128 with (8 * Z.of_nat 16). rewrite Hm, Hl. change (Z.to_nat (8 * Z.of_nat 16 / 8)) with 16%nat. cbn [andb].
    change (16 <? 16)%nat with false. cbv iota.
    rewrite !take_ge, drop_ge, app_nil_r by (rewrite ?length_mask_from; lia). done.
Qed.

Lemma masked_length a : length (IPof (masked a)) = length (IPof a).
Proof. apply length_zip_and, length_mask_from. Qed.

(** [MaskSelf] on a well-formed entry clears exactly the host bits: the
    address, as a big-endian integer, is rounded down to a multiple of
    [2^(bits - cidr)], and the prefix length is kept. *)
Theorem MaskSelf_clears_host_bits a :
  wf_cidr a →
  ∃ a', MaskSelf a = Ret a' ∧ Cidr a' = Cidr a ∧ length (IPof a') = length (IPof a) ∧
        ip_value (IPof a') = ip_value (IPof a) - ip_value (IPof a) mod 2 ^ (Bits a - Cidr a).
Proof.
  intros H. exists (masked a). split_and!; [by apply MaskSelf_wf|done|apply masked_length|].
  pose proof (ip_value_range (IPof a)) as Hv.
  unfold masked. cbn [IPof]. rewrite ip_value_mask. cbn zeta. rewrite Z.mul_0_r, Z.sub_0_r.
  assert (Bits a = 8 * Z.of_nat (length (IPof a)) ∧ 0 <= Cidr a <= Bits a) as [EB Hc].
  { unfold Bits. destruct H as [[Hl Hn]|(Hl & H4 & Hn)].
    - rewrite To4_short, Hl by done. lia.
    - rewrite H4, Hl. lia. }
  rewrite <- EB. rewrite Z.geb_leb. destruct (Z.leb_spec (Bits a) (Cidr a)).
  - replace (Bits a - Cidr a) with 0 by lia. change (2 ^ 0) with 1. rewrite Z.mod_1_r. lia.
  - destruct (Z.leb_spec (Cidr a) 0); [|done].
    replace (Bits a - Cidr a) with (Bits a) by lia.
    rewrite Z.mod_small; [lia|]. rewrite EB, Z.pow_mul_r by lia. exact Hv.
Qed.

Lemma MaskSelf_clears_host_bits_witness :
  ∃ a', MaskSelf (mkIPCidr [x0a; x01; x02; x03] 24) = Ret a' ∧ ip_value (IPof a') = 167838208.
Proof.
  destruct (MaskSelf_clears_host_bits (mkIPCidr [x0a; x01; x02; x03] 24)) as (a' & H & _ & _ & E).
  - left. cbn. lia.
  - exists a'. split; [exact H|]. rewrite E. reflexivity.
Defined.

(** ** [IntersectsWith] *)

(** The routes of a configuration: for each interface address the host route
    and the masked network, for each allowed network the masked network. *)
Definition address_routes (a : IPCidr) : list hashableIPCidr := [host_route a; net_route (masked a)].
Definition allowed_routes (a : IPCidr) : list hashableIPCidr := [net_route (masked a)].
Definition routes_of (c : Config) : list hashableIPCidr :=
  flat_map address_routes (Addresses (Iface c)) ++ flat_map (λ p, flat_map allowed_routes (AllowedIPs p)) (Peers c).

Definition wf_networks (c : Config) : Prop :=
  Forall wf_cidr (Addresses (Iface c)) ∧ Forall (λ p, Forall wf_cidr (AllowedIPs p)) (Peers c).

Definition mask_config (c : Config) : Config :=
  c <| Iface := Iface c <| Addresses := map masked (Addresses (Iface c)) |> |>
    <| Peers := map (λ p, p <| AllowedIPs := map masked (AllowedIPs p) |>) (Peers c) |>.

Lemma collect_addresses_wf l R :
  Forall wf_cidr l →
  collect_addresses l R = Ret (list_to_set (flat_map address_routes l) ∪ R, map masked l).
Proof.
  intros H. revert R. induction H as [|a l Ha _ IH]; intros R; cbn [collect_addresses].
  - cbn. do 2 f_equal. set_solver.
  - rewrite MaskSelf_wf by done. cbn [mbind outcome_bind]. rewrite IH. cbn. do 2 f_equal. set_solver.
Qed.

Lemma collect_allowed_wf l R :
  Forall wf_cidr l →
  collect_allowed l R = Ret (list_to_set (flat_map allowed_routes l) ∪ R, map masked l).
Proof.
  intros H. revert R. induction H as [|a l Ha _ IH]; intros R; cbn [collect_allowed].
  - cbn. do 2 f_equal. set_solver.
  - rewrite MaskSelf_wf by done. cbn [mbind outcome_bind]. rewrite IH. cbn. do 2 f_equal. set_solver.
Qed.

Lemma collect_peers_wf ps R :
  Forall (λ p, Forall wf_cidr (AllowedIPs p)) ps →
  collect_peers ps R
  = Ret (list_to_set (flat_map (λ p, flat_map allowed_routes (AllowedIPs p)) ps) ∪ R,
         map (λ p, p <| AllowedIPs := map masked (AllowedIPs p) |>) ps).
Proof.
  intros H. revert R. induction H as [|p ps Hp _ IH]; intros R; cbn [collect_peers].
  - cbn. do 2 f_equal. set_solver.
  - rewrite collect_allowed_wf by done. cbn [mbind outcome_bind]. rewrite IH.
    cbn [mbind outcome_bind flat_map map]. do 2 f_equal. rewrite list_to_set_app_L. set_solver.
Qed.

Definition meets (l : list hashableIPCidr) (R : gset hashableIPCidr) : Prop := ∃ r, r ∈ l ∧ r ∈ R.

Lemma meets_cons r l R : meets (r :: l) R ↔ r ∈ R ∨ meets l R.
Proof. unfold meets. set_solver. Qed.

Lemma meets_app l1 l2 R : meets (l1 ++ l2) R ↔ meets l1 R ∨ meets l2 R.
Proof. unfold meets. set_solver. Qed.

Lemma meets_nil R : ¬ meets [] R.
Proof. unfold meets. set_solver. Qed.

(** Both scans of the second pass answer whether a route is known, and when
    none is they have masked every entry. *)
Lemma check_addresses_wf l R :
  Forall wf_cidr l →
  ∃ b l', check_addresses l R = Ret (b, l') ∧ (b = true ↔ meets (flat_map address_routes l) R) ∧
          (b = false → l' = map masked l).
Proof.
  induction 1 as [|a l Ha _ (b & l' & E & Hb & Hl)]; cbn [check_addresses].
  { exists false, []. split_and!; [done|split; [done|intros []%meets_nil]|done]. }
  assert (meets (flat_map address_routes (a :: l)) R ↔
          host_route a ∈ R ∨ net_route (masked a) ∈ R ∨ meets (flat_map address_routes l) R) as HM
    by (cbn [flat_map address_routes app]; by rewrite !meets_cons).
  case_bool_decide as H1.
  { exists true, (a :: l). split_and!; [done|rewrite HM; by split; auto|done]. }
  rewrite MaskSelf_wf by done. cbn [mbind outcome_bind]. case_bool_decide as H2.
  { exists true, (masked a :: l). split_and!; [done|rewrite HM; by split; auto|done]. }
  rewrite E. cbn [mbind outcome_bind]. exists b, (masked a :: l'). split_and!; [done| |].
  - rewrite HM, Hb. split; [by auto|]. by intros [?|[?|?]].
  - intros Hf. cbn. by rewrite Hl.
Qed.

Lemma check_allowed_wf l R :
  Forall wf_cidr l →
  ∃ b l', check_allowed l R = Ret (b, l') ∧ (b = true ↔ meets (flat_map allowed_routes l) R) ∧
          (b = false → l' = map masked l).
Proof.
  induction 1 as [|a l Ha _ (b & l' & E & Hb & Hl)]; cbn [check_allowed].
  { exists false, []. split_and!; [done|split; [done|intros []%meets_nil]|done]. }
  assert (meets (flat_map allowed_routes (a :: l)) R ↔
          net_route (masked a) ∈ R ∨ meets (flat_map allowed_routes l) R) as HM
    by (cbn [flat_map allowed_routes app]; by rewrite !meets_cons).
  rewrite MaskSelf_wf by done. cbn [mbind outcome_bind]. case_bool_decide as H2.
  { exists true, (masked a :: l). split_and!; [done|rewrite HM; by split; auto|done]. }
  rewrite E. cbn [mbind outcome_bind]. exists b, (masked a :: l'). split_and!; [done| |].
  - rewrite HM, Hb. split; [by auto|]. by intros [?|?].
  - intros Hf. cbn. by rewrite Hl.
Qed.

Lemma check_peers_wf ps R :
  Forall (λ p, Forall wf_cidr (AllowedIPs p)) ps →
  ∃ b ps', check_peers ps R = Ret (b, ps') ∧
    (b = true ↔ meets (flat_map (λ p, flat_map allowed_routes (AllowedIPs p)) ps) R) ∧
    (b = false → ps' = map (λ p, p <| AllowedIPs := map masked (AllowedIPs p) |>) ps).
Proof.
  induction 1 as [|p ps Hp _ (b & ps' & E & Hb & Hl)]; cbn [check_peers].
  { exists false, []. split_and!; [done|split; [done|intros []%meets_nil]|done]. }
  destruct (check_allowed_wf (AllowedIPs p) R Hp) as (b1 & ips & -> & Hb1 & Hl1).
  cbn [mbind outcome_bind]. destruct b1.
  - eexists true, _. split_and!; [done| |done]. split; [|done]. intros _.
    cbn [flat_map]. rewrite meets_app. left. by apply Hb1.
  - rewrite E. cbn [mbind outcome_bind]. eexists b, _. split_and!; [done| |].
    + cbn [flat_map]. rewrite meets_app, Hb. split; [by auto|]. intros [H|?]; [by apply Hb1 in H|done].
    + intros Hf. cbn. by rewrite Hl, Hl1.
Qed.

Lemma IntersectsWith_wf conf other :
  wf_networks conf → wf_networks other →
  ∃ b other', IntersectsWith conf other = Ret (b, mask_config conf, other') ∧
    (b = true ↔ ∃ r, r ∈ routes_of other ∧ r ∈ routes_of conf) ∧
    (b = false → other' = mask_config other).
Proof.
  intros [Ha Hp] [Hoa Hop]. unfold IntersectsWith.
  rewrite collect_addresses_wf by done. cbn [mbind outcome_bind].
  rewrite collect_peers_wf by done. cbn [mbind outcome_bind].
  set (R := list_to_set _ ∪ _).
  assert ((∃ r, r ∈ routes_of other ∧ r ∈ routes_of conf) ↔ meets (routes_of other) R) as HM.
  { assert (∀ r, r ∈ R ↔ r ∈ routes_of conf) as HR.
    { intros r. unfold R, routes_of. rewrite !elem_of_union, !elem_of_list_to_set, elem_of_app. set_solver. }
    unfold meets. by setoid_rewrite HR. }
  change (routes_of other) with (flat_map address_routes (Addresses (Iface other))
    ++ flat_map (λ p, flat_map allowed_routes (AllowedIPs p)) (Peers other)) in HM at 2.
  rewrite meets_app in HM.
  destruct (check_addresses_wf _ R Hoa) as (b1 & l1 & -> & Hb1 & Hl1). cbn [mbind outcome_bind].
  destruct b1.
  - eexists true, _. split_and!; [done| |done]. split; [|done]. intros _. apply HM. left. by apply Hb1.
  - destruct (check_peers_wf _ R Hop) as (b2 & l2 & -> & Hb2 & Hl2). cbn [mbind outcome_bind].
    eexists b2, _. split_and!; [done| |].
    + rewrite Hb2. split; [by intros ?; apply HM; auto|]. intros [H|?]%HM; [by apply Hb1 in H|done].
    + intros Hf. by rewrite Hl1, Hl2.
Qed.

(** [IntersectsWith] answers whether the two configurations have a route in
    common (the host route or the network of an interface address, the network
    of an allowed entry); the answer does not depend on which one is asked. *)
Theorem IntersectsWith_exact conf other :
  wf_networks conf → wf_networks other →
  ∃ b c1 o1 o2 c2, IntersectsWith conf other = Ret (b, c1, o1) ∧
    IntersectsWith other conf = Ret (b, o2, c2) ∧
    (b = true ↔ ∃ r, r ∈ routes_of conf ∧ r ∈ routes_of other).
Proof.
  intros Hc Ho. destruct (IntersectsWith_wf conf other Hc Ho) as (b & o1 & E1 & H1 & _).
  destruct (IntersectsWith_wf other conf Ho Hc) as (b' & c2 & E2 & H2 & _).
  assert (b = b') as <- by (destruct b, b'; naive_solver).
  by exists b, (mask_config conf), o1, (mask_config other), c2.
Qed.

Definition net_conf (ip : IP) (n : Z) : Config :=
  mkConfig [] (zeroInterface <| Addresses := [mkIPCidr ip n] |>) [].

Lemma IntersectsWith_exact_witness :
  ∃ c1 o1, IntersectsWith (net_conf [x0a; x00; x00; x02] 24) (net_conf [x0a; x00; x00; x03] 24)
           = Ret (true, c1, o1).
Proof.
  destruct (IntersectsWith_exact (net_conf [x0a; x00; x00; x02] 24) (net_conf [x0a; x00; x00; x03] 24))
    as (b & c1 & o1 & o2 & c2 & E & _ & H).
  - split; [|constructor]. constructor; [left; cbn; lia|constructor].
  - split; [|constructor]. constructor; [left; cbn; lia|constructor].
  - exists c1, o1. rewrite E. do 3 f_equal. apply H.
    exists ([x0a; x00; x00; x00], 24). split; cbn; set_solver.
Defined.

(** Asking changes the configuration that is asked: [MaskSelf] writes
    through the shared address slices, so every address and allowed network of
    the receiver loses its host bits. *)
Theorem IntersectsWith_masks_receiver conf other b conf' other' :
  wf_networks conf → wf_networks other → IntersectsWith conf other = Ret (b, conf', other') →
  Addresses (Iface conf') = map masked (Addresses (Iface conf)) ∧
  map AllowedIPs (Peers conf') = map (λ p, map masked (AllowedIPs p)) (Peers conf).
Proof.
  intros Hc Ho E. destruct (IntersectsWith_wf conf other Hc Ho) as (b' & o & E' & _).
  rewrite E in E'. injection E' as -> -> ->. split; [done|].
  unfold mask_config. cbn. rewrite map_map. by apply map_ext.
Qed.

Lemma IntersectsWith_masks_receiver_witness :
  map masked [mkIPCidr [x0a; x00; x00; x02] 24] = [mkIPCidr [x0a; x00; x00; x00] 24].
Proof.
  destruct (IntersectsWith_masks_receiver (net_conf [x0a; x00; x00; x02] 24) (net_conf [x0b; x00; x00; x03] 24)
    false (net_conf [x0a; x00; x00; x00] 24) (net_conf [x0b; x00; x00; x00] 24)) as [H _].
  - split; [|constructor]. constructor; [left; cbn; lia|constructor].
  - split; [|constructor]. constructor; [left; cbn; lia|constructor].
  - vm_compute. reflexivity.
  - symmetry. exact H.
Defined.

(** ** Duplicate entries *)

Lemma dedup_by_elem {A} (key : A → gostring) seen l a :
  a ∈ dedup_by key seen l → a ∈ l ∧ key a ∉ seen.
Proof.
  revert seen. induction l as [|x l IH]; intros seen; cbn; [set_solver|].
  case_bool_decide as Hx; [intros [? ?]%IH; set_solver|].
  rewrite elem_of_cons. intros [->|[? ?]%IH]; set_solver.
Qed.

Lemma dedup_by_sublist {A} (key : A → gostring) seen l : sublist (dedup_by key seen l) l.
Proof.
  revert seen. induction l as [|x l IH]; intros seen; cbn; [constructor|].
  case_bool_decide; [by apply sublist_cons|by apply sublist_skip].
Qed.

Lemma dedup_by_NoDup {A} (key : A → gostring) seen l : NoDup (map key (dedup_by key seen l)).
Proof.
  revert seen. induction l as [|x l IH]; intros seen; cbn; [constructor|].
  case_bool_decide as Hx; [done|]. cbn. constructor; [|done].
  intros (y & Ey & Hy)%list_elem_of_fmap. apply dedup_by_elem in Hy as [_ Hy]. set_solver.
Qed.

Lemma dedup_by_complete {A} (key : A → gostring) seen l a :
  a ∈ l → key a ∈ seen ∨ ∃ a', a' ∈ dedup_by key seen l ∧ key a' = key a.
Proof.
  revert seen. induction l as [|x l IH]; intros seen; [set_solver|].
  rewrite elem_of_cons. intros [->|Ha]; cbn; case_bool_decide as Hx; [by left| |by apply IH|].
  - right. exists x. set_solver.
  - destruct (IH ({[key x]} ∪ seen) Ha) as [[?%elem_of_singleton|?]%elem_of_union|(a' & ? & ?)]; [|by left|].
    + right. exists x. set_solver.
    + right. exists a'. set_solver.
Qed.

(** Without duplicates, with the same printed forms, in the same order. *)
Definition deduplicated {A} (key : A → gostring) (l l' : list A) : Prop :=
  sublist l' l ∧ NoDup (map key l') ∧ ∀ a, a ∈ l → ∃ a', a' ∈ l' ∧ key a' = key a.

Lemma dedup_by_spec {A} (key : A → gostring) l : deduplicated key l (dedup_by key ∅ l).
Proof.
  split_and!; [apply dedup_by_sublist|apply dedup_by_NoDup|].
  intros a Ha. destruct (dedup_by_complete key ∅ l a Ha) as [?|?]; [set_solver|done].
Qed.

(** [DeduplicateNetworkEntries] leaves, in each of the address, DNS and
    allowed-network lists, a subsequence in which no printed form repeats and
    none is lost; everything else is unchanged. *)
Theorem DeduplicateNetworkEntries_spec c :
  deduplicated IPCidr_String (Addresses (Iface c)) (Addresses (Iface (DeduplicateNetworkEntries c))) ∧
  deduplicated IP_String (DNS (Iface c)) (DNS (Iface (DeduplicateNetworkEntries c))) ∧
  Forall2 (λ p p', deduplicated IPCidr_String (AllowedIPs p) (AllowedIPs p') ∧
                   p' <| AllowedIPs := AllowedIPs p |> = p)
    (Peers c) (Peers (DeduplicateNetworkEntries c)) ∧
  Iface (DeduplicateNetworkEntries c) <| Addresses := Addresses (Iface c) |> <| DNS := DNS (Iface c) |> = Iface c.
Proof.
  split_and!; [apply dedup_by_spec..| |].
  - unfold DeduplicateNetworkEntries. cbn. induction (Peers c) as [|p ps IH]; cbn; constructor; [|done].
    split; [apply dedup_by_spec|by destruct p].
  - by destruct c as [? [] ?].
Qed.

(** ** Keys and redaction *)

(** After [Redact] no key material is left: the private, header-protection,
    public and preshared keys are all zero, for every peer. *)
Theorem Redact_no_keys c :
  Key_IsZero (PrivateKey (Iface (Redact c))) = true ∧
  Key_IsZero (HeaderProtectionKey (Iface (Redact c))) = true ∧
  length (Peers (Redact c)) = length (Peers c) ∧
  Forall (λ p, Key_IsZero (PublicKey p) = true ∧ Key_IsZero (PresharedKey p) = true) (Peers (Redact c)).
Proof.
  split_and!; [done..|cbn; by rewrite length_map|]. cbn. apply Forall_map.
  apply Forall_forall. intros p _. by split.
Qed.

(** A private key made from random bytes is a clamped Curve25519 scalar:
    a multiple of 8 with bit 254 set and bit 255 clear, all other bits random. *)
Theorem NewPrivateKey_clamped r k :
  length r = KeyLength → NewPrivateKey (Ret r) = Ret k →
  length k = KeyLength ∧
  (∃ b0, k !! 0%nat = Some b0 ∧ bz b0 mod 8 = 0) ∧
  (∃ b31, k !! 31%nat = Some b31 ∧ 64 <= bz b31 < 128) ∧
  (∀ i, (0 < i < 31)%nat → k !! i = r !! i).
Proof.
  intros Hl [= <-]. unfold clamp. destruct r as [|b0 rest]; [done|].
  cbn in Hl. injection Hl as Hl. destruct ((zb (Z.land (bz b0) 248) :: rest) !! 31%nat) as [b31|] eqn:E;
    [|apply lookup_ge_None in E; cbn in E; lia].
  split_and!.
  - rewrite length_insert. cbn. by rewrite Hl.
  - exists (zb (Z.land (bz b0) 248)). split; [done|].
    by_bytes (λ b, bz (zb (Z.land (bz b) 248)) mod 8 =? 0) b0. by intros ?%Z.eqb_eq.
  - eexists. split; [apply list_lookup_insert_eq; cbn; lia|].
    by_bytes (λ b, (64 <=? bz (zb (Z.lor (Z.land (bz b) 127) 64))) &&
                   (bz (zb (Z.lor (Z.land (bz b) 127) 64)) <? 128)) b31. intros H. breflect. lia.
  - intros i Hi. etrans; [apply list_lookup_insert_ne; lia|]. by destruct i; [lia|].
Qed.

Lemma NewPrivateKey_clamped_witness : length (clamp (replicate 32 xff)) = KeyLength.
Proof. apply (NewPrivateKey_clamped (replicate 32 xff) (clamp (replicate 32 xff))); reflexivity. Defined.

(** ** Handshake times *)

Definition unit_seconds (u : TimeUnit) : Z :=
  match u with
  | Years => 31536000 | Days => 86400 | Hours => 3600 | Minutes => 60 | Seconds => 1
  end.

Definition total_seconds (parts : list (TimeUnit * Z)) : Z :=
  foldr (λ p acc, unit_seconds (fst p) * snd p + acc) 0 parts.

Lemma total_seconds_app a b : total_seconds (a ++ b) = total_seconds a + total_seconds b.
Proof. unfold total_seconds. induction a as [|x a IH]; cbn; [done|]. rewrite IH. lia. Qed.

Lemma total_time_part u n : 0 <= n → total_seconds (time_part u n) = unit_seconds u * n.
Proof.
  intros Hn. unfold time_part. rewrite Z.gtb_ltb. destruct (Z.ltb_spec 0 n); unfold total_seconds.
  - cbn [foldr fst snd]. lia.
  - replace n with 0 by lia. by rewrite Z.mul_0_r.
Qed.

Lemma time_part_Forall (P : TimeUnit * Z → Prop) u n : (0 < n → P (u, n)) → Forall P (time_part u n).
Proof.
  intros H. unfold time_part. rewrite Z.gtb_ltb. destruct (Z.ltb_spec 0 n); constructor; auto.
Qed.

(** A past handshake is shown as years, days, hours, minutes and seconds
    that add up to the elapsed time, each component positive and below the next
    larger unit. *)
Theorem HandshakeTime_parts t now parts :
  HandshakeTime_String t now = Ago parts →
  total_seconds parts = now - t / 1000000000 ∧ parts ≠ [] ∧
  Forall (λ p, 0 < snd p ∧
    match fst p with Years => True | Days => snd p < 365 | Hours => snd p < 24
                | Minutes | Seconds => snd p < 60 end) parts.
Proof.
  unfold HandshakeTime_String. set (u := t / 1000000000).
  destruct (Z.eqb_spec u now); [done|]. rewrite Z.gtb_ltb. destruct (Z.ltb_spec now u); [done|].
  intros [= <-]. set (left := now - u). assert (0 < left) as Hl by (unfold left; lia).
  change (365 * 24 * 60 * 60) with 31536000. change (24 * 60 * 60) with 86400. change (60 * 60) with 3600.
  set (l1 := left mod 31536000). set (l2 := l1 mod 86400). set (l3 := l2 mod 3600).
  assert (0 <= l1 < 31536000) by (apply Z.mod_pos_bound; lia).
  assert (0 <= l2 < 86400) by (apply Z.mod_pos_bound; lia).
  assert (0 <= l3 < 3600) by (apply Z.mod_pos_bound; lia).
  pose proof (Z.div_mod left 31536000 ltac:(lia)). pose proof (Z.div_mod l1 86400 ltac:(lia)).
  pose proof (Z.div_mod l2 3600 ltac:(lia)). pose proof (Z.div_mod l3 60 ltac:(lia)).
  pose proof (Z.mod_pos_bound l3 60 ltac:(lia)).
  assert (0 <= left / 31536000) by (apply Z.div_pos; lia).
  assert (0 <= l1 / 86400 < 365) by (split; [apply Z.div_pos; lia|apply Z.div_lt_upper_bound; lia]).
  assert (0 <= l2 / 3600 < 24) by (split; [apply Z.div_pos; lia|apply Z.div_lt_upper_bound; lia]).
  assert (0 <= l3 / 60 < 60) by (split; [apply Z.div_pos; lia|apply Z.div_lt_upper_bound; lia]).
  assert (total_seconds (time_part Years (left / 31536000) ++ time_part Days (l1 / 86400)
     ++ time_part Hours (l2 / 3600) ++ time_part Minutes (l3 / 60) ++ time_part Seconds (l3 mod 60)) = left) as Ht.
  { rewrite !total_seconds_app, !total_time_part by lia. cbn [unit_seconds]. lia. }
  split_and!; [exact Ht|intros E; rewrite E in Ht; cbn in Ht; lia|].
  rewrite !Forall_app. split_and!; apply time_part_Forall; cbn; lia.
Qed.

Lemma HandshakeTime_parts_witness : total_seconds [(Days, 1); (Seconds, 5)] = 86405 - 0.
Proof. apply (HandshakeTime_parts 0 86405 [(Days, 1); (Seconds, 5)]). reflexivity. Defined.
