(* ===== verification/Highlighter.v ===== *)
(** * Syntax highlighter of the configuration editor ([client/ui/syntax/highlighter.go])

    The code walks over the text with raw pointers ([unsafe.Add]) into a buffer
    that ends with a NUL byte.  A span is an offset into that buffer and a
    length; a read outside the buffer, which Go does not check, is [Panic]
    here, so that "never [Panic]" is memory safety. *)
From S2P Require Import Prelude GoStrings GoStrconv GoNet Conf AwgValidation.

Local Open Scope Z_scope.

Inductive highlight :=
| highlightSection | highlightField | highlightPrivateKey | highlightPublicKey | highlightPresharedKey
| highlightIP | highlightCidr | highlightHost | highlightPort | highlightMTU | highlightKeepalive
| highlightComment | highlightDelimiter | highlightTable | highlightCmd
| highlightJc | highlightJmin | highlightJmax | highlightS1 | highlightS2 | highlightS3 | highlightS4
| highlightH1 | highlightH2 | highlightH3 | highlightH4
| highlightI1 | highlightI2 | highlightI3 | highlightI4 | highlightI5
| highlightWarning | highlightError.

#[export] Instance highlight_eq_dec : EqDecision highlight.
Proof. solve_decision. Defined.

Definition validateHighlight (isValid : bool) (t : highlight) : highlight :=
  if isValid then t else highlightError.

Record highlightSpan := mkSpan { hs_t : highlight; hs_s : nat; hs_len : nat }.

(** ** Character classes, on 8-bit unsigned bytes *)

Definition u8_sub (c : byte) (k : Z) : Z := u8 (bz c - k).
Definition or32 (c : byte) : Z := Z.lor (bz c) 32.

Definition isDecimal (c : byte) : bool := (48 <=? bz c) && (bz c <=? 57).
Definition isHexadecimal (c : byte) : bool := isDecimal c || ((97 <=? or32 c) && (or32 c <=? 102)).
Definition isAlphabet (c : byte) : bool := (97 <=? or32 c) && (or32 c <=? 122).

(** ** Spans *)

Record stringSpan := mkStr { ss_s : nat; ss_len : nat }.

Section Spans.
Context {RT : GoRuntime}.
Context (buf : list byte).

(** [*s.at(i)]. *)
Definition at_ (s : stringSpan) (i : nat) : outcome byte :=
  match buf !! (ss_s s + i)%nat with Some c => Ret c | None => Panic end.

(** [for i := from; i < from + n; i++ { if !ok(i) { return false } }; return true] *)
Fixpoint loop_all (n : nat) (from : nat) (ok : nat → outcome bool) : outcome bool :=
  match n with
  | O => Ret true
  | S n => b ← ok from; if (b : bool) then loop_all n (S from) ok else Ret false
  end.

Definition isSame (s : stringSpan) (c : gostring) : outcome bool :=
  if negb (ss_len s =? length c)%nat then Ret false
  else loop_all (ss_len s) 0 (λ i, a ← at_ s i;
    match c !! i with Some b => Ret (Byte.eqb a b) | None => Panic end).

(** [if a-'a' < 26 { a &= 95 }]. *)
Definition upcase95 (a : byte) : byte := if u8_sub a 97 <? 26 then zb (Z.land (bz a) 95) else a.

Definition isCaselessSame (s : stringSpan) (c : gostring) : outcome bool :=
  if negb (ss_len s =? length c)%nat then Ret false
  else loop_all (ss_len s) 0 (λ i, a ← at_ s i;
    match c !! i with Some b => Ret (Byte.eqb (upcase95 a) (upcase95 b)) | None => Panic end).

Definition key_char (c : byte) : bool :=
  isDecimal c || isAlphabet c || Byte.eqb c "/"%byte || Byte.eqb c "+"%byte.

Definition isValidKey (s : stringSpan) : outcome bool :=
  if negb (ss_len s =? 44)%nat then Ret false else
  c43 ← at_ s 43;
  if negb (Byte.eqb c43 "="%byte) then Ret false else
  ok ← loop_all 42 0 (λ i, c ← at_ s i; Ret (key_char c));
  if negb ok then Ret false else
  c42 ← at_ s 42;
  Ret (has_byte "AEIMQUYcgkosw480" c42).

Fixpoint hostname_loop (n i : nat) (s : stringSpan) (numDigit numEntity : Z) : outcome bool :=
  match n with
  | O => Ret (negb (numDigit =? numEntity))
  | S n =>
      c ← at_ s i;
      if isDecimal c then hostname_loop n (S i) s (numDigit + 1) numEntity
      else if Byte.eqb c "."%byte then hostname_loop n (S i) s numDigit (numEntity - 1)
      else if negb (isAlphabet c) && negb (Byte.eqb c "-"%byte) then Ret false
      else
        bad ← (if negb (i =? 0)%nat && Byte.eqb c "."%byte then
                 p ← at_ s (i - 1); Ret (Byte.eqb p "."%byte)
               else Ret false);
        if (bad : bool) then Ret false else hostname_loop n (S i) s numDigit numEntity
  end.

Definition isValidHostname (s : stringSpan) : outcome bool :=
  if (63 <? ss_len s)%nat || (ss_len s =? 0)%nat then Ret false else
  c0 ← at_ s 0;
  cl ← at_ s (ss_len s - 1);
  if Byte.eqb c0 "-"%byte || Byte.eqb cl "-"%byte then Ret false
  else if Byte.eqb c0 "."%byte || Byte.eqb cl "."%byte then Ret false
  else hostname_loop (ss_len s) 0 s 0 (Z.of_nat (ss_len s)).

(** The inner loop of [isValidIPv4]: at most [n] digits from [pos + j]. *)
Fixpoint ipv4_digits (n : nat) (s : stringSpan) (pos j : nat) (val : Z) : outcome (nat * Z) :=
  match n with
  | O => Ret (j, val)
  | S n =>
      if (pos + j <? ss_len s)%nat then
        c ← at_ s (pos + j);
        if isDecimal c then ipv4_digits n s pos (S j) (10 * val + (bz c - 48)) else Ret (j, val)
      else Ret (j, val)
  end.

(** [n] rounds of the outer loop are left; [i = 4 - n]. *)
Fixpoint ipv4_groups (n : nat) (s : stringSpan) (pos : nat) : outcome bool :=
  match n with
  | O => Ret false
  | S n =>
      if negb (pos <? ss_len s)%nat then Ret false else
      '(j, val) ← ipv4_digits 3 s pos 0 0;
      if (j =? 0)%nat then Ret false else
      c ← at_ s pos;
      if ((1 <? j)%nat && Byte.eqb c "0"%byte) || (val >? 255) then Ret false
      else if (pos + j =? ss_len s)%nat && (n =? 0)%nat then Ret true
      else
        d ← at_ s (pos + j);
        if negb (Byte.eqb d "."%byte) then Ret false else ipv4_groups n s (pos + j + 1)
  end.

Definition isValidIPv4 (s : stringSpan) : outcome bool := ipv4_groups 4 s 0.

(** The inner loop of [isValidIPv6]: at most [n] hexadecimal digits. *)
Fixpoint hex_run (n : nat) (s : stringSpan) (pos j : nat) : outcome nat :=
  match n with
  | O => Ret j
  | S n =>
      if (pos + j <? ss_len s)%nat then
        c ← at_ s (pos + j);
        if isHexadecimal c then hex_run n s pos (S j) else Ret j
      else Ret j
  end.

(** The outer loop; every round but the last advances [pos], so [ss_len s + 1]
    rounds suffice, and running out of fuel would show as [Panic]. *)
Fixpoint ipv6_rounds (fuel : nat) (s : stringSpan) (i pos : nat) (seenColon : bool) : outcome bool :=
  match fuel with
  | O => Panic
  | S fuel =>
      if negb (pos <? ss_len s)%nat then Ret true else
      c ← at_ s pos;
      if Byte.eqb c ":"%byte && negb seenColon then
        if (S pos =? ss_len s)%nat then Ret true
        else if (i =? 7)%nat then Ret false
        else ipv6_rounds fuel s (S i) (S pos) true
      else
        j ← hex_run 4 s pos 0;
        if (j =? 0)%nat then Ret false
        else if (pos + j =? ss_len s)%nat && (seenColon || (i =? 7)%nat) then Ret true
        else if (i =? 7)%nat then Ret false
        else
          d ← at_ s (pos + j);
          if negb (Byte.eqb d ":"%byte) then
            if negb (Byte.eqb d "."%byte) || ((i <? 6)%nat && negb seenColon) then Ret false
            else isValidIPv4 (mkStr (ss_s s + pos) (ss_len s - pos))
          else ipv6_rounds fuel s (S i) (pos + j + 1) seenColon
  end.

Definition isValidIPv6 (s : stringSpan) : outcome bool :=
  if (ss_len s <? 2)%nat then Ret false else
  c0 ← at_ s 0;
  start ← (if Byte.eqb c0 ":"%byte then
             c1 ← at_ s 1; if negb (Byte.eqb c1 ":"%byte) then Ret None else Ret (Some 1%nat)
           else Ret (Some 0%nat));
  match start with
  | None => Ret false
  | Some pos =>
      cl ← at_ s (ss_len s - 1);
      cl2 ← (if Byte.eqb cl ":"%byte then at_ s (ss_len s - 2) else Ret ":"%byte);
      if Byte.eqb cl ":"%byte && negb (Byte.eqb cl2 ":"%byte) then Ret false
      else ipv6_rounds (S (ss_len s)) s 0 pos false
  end.

(** 64-bit accumulation in the two bases of [isValidUint]. *)
Fixpoint uint_hex (n i : nat) (s : stringSpan) (val : Z) : outcome (option Z) :=
  match n with
  | O => Ret (Some val)
  | S n =>
      c ← at_ s i;
      if u8_sub c 48 <? 10 then uint_hex n (S i) s (u64 (16 * val + u8_sub c 48))
      else if u8 (or32 c - 97) <? 6 then uint_hex n (S i) s (u64 (16 * val + u8 (or32 c - 97 + 10)))
      else Ret None
  end.

Fixpoint uint_dec (n i : nat) (s : stringSpan) (val : Z) : outcome (option Z) :=
  match n with
  | O => Ret (Some val)
  | S n =>
      c ← at_ s i;
      if negb (isDecimal c) then Ret None
      else uint_dec n (S i) s (u64 (10 * val + u8_sub c 48))
  end.

Definition isValidUint (supportHex : bool) (min max : Z) (s : stringSpan) : outcome bool :=
  if (10 <? ss_len s)%nat || (ss_len s =? 0)%nat then Ret false else
  c0 ← at_ s 0;
  hex ← (if supportHex && (2 <? ss_len s)%nat && Byte.eqb c0 "0"%byte
         then c1 ← at_ s 1; Ret (Byte.eqb c1 "x"%byte) else Ret false);
  v ← (if (hex : bool) then uint_hex (ss_len s - 2) 2 s 0 else uint_dec (ss_len s) 0 s 0);
  match v with
  | Some val => Ret ((val <=? max) && (val >=? min))
  | None => Ret false
  end.

Definition isValidPort : stringSpan → outcome bool := isValidUint false 0 65535.
Definition isValidMTU : stringSpan → outcome bool := isValidUint false 576 65535.

(** [a || b] on checks that read memory. *)
Definition or_else (a b : outcome bool) : outcome bool := x ← a; if (x : bool) then Ret true else b.

Definition isValidTable (s : stringSpan) : outcome bool :=
  or_else (isSame s "off") (or_else (isSame s "auto") (or_else (isSame s "main")
    (isValidUint false 0 4294967295 s))).

Definition isValidPersistentKeepAlive (s : stringSpan) : outcome bool :=
  or_else (isSame s "off") (isValidUint false 0 65535 s).

Definition isValidPrePostUpDown (s : stringSpan) : outcome bool := Ret (negb (ss_len s =? 0)%nat).

(** The condition of [isValidScope] as it is written: a letter that is none of
    the other permitted characters is what is refused. *)
Definition scope_refused (c : byte) : bool :=
  isAlphabet c && negb (isDecimal c) && negb (has_byte "_=+.-" c).

Definition isValidScope (s : stringSpan) : outcome bool :=
  if (64 <? ss_len s)%nat || (ss_len s =? 0)%nat then Ret false
  else loop_all (ss_len s) 0 (λ i, c ← at_ s i; Ret (negb (scope_refused c))).

(** The bracketed branch of [isValidEndpoint]. *)
Fixpoint endpoint_bracket (n i : nat) (s : stringSpan) (seenScope : bool) (host : stringSpan) : outcome bool :=
  match n with
  | O => Ret false
  | S n =>
      c ← at_ s i;
      if Byte.eqb c "%"%byte then
        if seenScope then Ret false else
        ok ← isValidIPv6 host;
        if negb ok then Ret false
        else endpoint_bracket n (S i) s true (mkStr (ss_s s + (i + 1)) 0)
      else if Byte.eqb c "]"%byte then
        ok ← (if seenScope then isValidScope host else isValidIPv6 host);
        if negb ok then Ret false else
        if (i =? ss_len s - 1)%nat then Ret false else
        d ← at_ s (i + 1);
        if negb (Byte.eqb d ":"%byte) then Ret false
        else isValidPort (mkStr (ss_s s + (i + 2)) (ss_len s - i - 2))
      else endpoint_bracket n (S i) s seenScope (mkStr (ss_s host) (S (ss_len host)))
  end.

Fixpoint endpoint_plain (n i : nat) (s : stringSpan) : outcome bool :=
  match n with
  | O => Ret false
  | S n =>
      c ← at_ s i;
      if Byte.eqb c ":"%byte then
        p ← isValidPort (mkStr (ss_s s + (i + 1)) (ss_len s - i - 1));
        if negb p then Ret false
        else or_else (isValidIPv4 (mkStr (ss_s s) i)) (isValidHostname (mkStr (ss_s s) i))
      else endpoint_plain n (S i) s
  end.

Definition isValidEndpoint (s : stringSpan) : outcome bool :=
  if (ss_len s =? 0)%nat then Ret false else
  c0 ← at_ s 0;
  if Byte.eqb c0 "["%byte then endpoint_bracket (ss_len s - 1) 1 s false (mkStr (ss_s s + 1) 0)
  else endpoint_plain (ss_len s) 0 s.

(** The prefix length: at most three digits, accumulated in 16 bits. *)
Fixpoint cidr_value (n j : nat) (cidr : stringSpan) (val : Z) : outcome (option Z) :=
  match n with
  | O => Ret (Some val)
  | S n =>
      c ← at_ cidr j;
      if negb (isDecimal c) then Ret None else cidr_value n (S j) cidr (u16 (10 * val + (bz c - 48)))
  end.

(** First position of [c] in [s], or its length. *)
Fixpoint scan (n i : nat) (s : stringSpan) (c : byte) : outcome nat :=
  match n with
  | O => Ret i
  | S n => d ← at_ s i; if Byte.eqb d c then Ret i else scan n (S i) s c
  end.

Definition isValidNetwork (s : stringSpan) : outcome bool :=
  i ← scan (ss_len s) 0 s "/"%byte;
  if (i <? ss_len s)%nat then
    let ip := mkStr (ss_s s) i in
    let cidr := mkStr (ss_s s + (i + 1)) (ss_len s - i - 1) in
    if (3 <? ss_len cidr)%nat || (ss_len cidr =? 0)%nat then Ret false else
    v ← cidr_value (ss_len cidr) 0 cidr 0;
    match v with
    | None => Ret false
    | Some cidrval =>
        v4 ← isValidIPv4 ip;
        if (v4 : bool) then Ret (cidrval <=? 32) else
        v6 ← isValidIPv6 ip;
        if (v6 : bool) then Ret (cidrval <=? 128) else Ret false
    end
  else or_else (isValidIPv4 s) (isValidIPv6 s).

(** [string(unsafe.Slice(s.s, s.len))]. *)
Definition text (s : stringSpan) : outcome gostring :=
  if (ss_s s + ss_len s <=? length buf)%nat then Ret (take (ss_len s) (drop (ss_s s) buf)) else Panic.

Definition isValidRange (bits : Z) (s : stringSpan) : outcome bool :=
  t ← text s; Ret (is_ret (ParseAWGRange t bits)).
Definition isValidHField : stringSpan → outcome bool := isValidRange 32.
Definition isValidIField (s : stringSpan) : outcome bool := t ← text s; Ret (is_ret (ValidateCPS t)).
Definition isValidAWGBool (s : stringSpan) : outcome bool := t ← text s; Ret (is_ret (ParseAWGBool t)).
End Spans.

(** ** Fields *)

Inductive field :=
| fieldInterfaceSection | fieldPrivateKey | fieldListenPort | fieldAddress | fieldDNS | fieldMTU | fieldTable
| fieldPreUp | fieldPostUp | fieldPreDown | fieldPostDown | fieldJc | fieldJmin | fieldJmax
| fieldS1 | fieldS2 | fieldS3 | fieldS4 | fieldH1 | fieldH2 | fieldH3 | fieldH4
| fieldI1 | fieldI2 | fieldI3 | fieldI4 | fieldI5 | fieldHeaderProtectionKey | fieldContentPaddingAddition
| fieldRekeyAfterTime | fieldRekeyTimeout | fieldRejectAfterTime | fieldKeepaliveTimeout
| fieldMaxHandshakeAttempts | fieldRandomTrailers | fieldDisableCookies
| fieldPeerSection | fieldPublicKey | fieldPresharedKey | fieldAllowedIPs | fieldEndpoint
| fieldPersistentKeepalive | fieldInvalid.

#[export] Instance field_eq_dec : EqDecision field.
Proof. solve_decision. Defined.

(** The [iota] numbering. *)
Definition all_fields : list field :=
  [fieldInterfaceSection; fieldPrivateKey; fieldListenPort; fieldAddress; fieldDNS; fieldMTU; fieldTable;
   fieldPreUp; fieldPostUp; fieldPreDown; fieldPostDown; fieldJc; fieldJmin; fieldJmax;
   fieldS1; fieldS2; fieldS3; fieldS4; fieldH1; fieldH2; fieldH3; fieldH4;
   fieldI1; fieldI2; fieldI3; fieldI4; fieldI5; fieldHeaderProtectionKey; fieldContentPaddingAddition;
   fieldRekeyAfterTime; fieldRekeyTimeout; fieldRejectAfterTime; fieldKeepaliveTimeout;
   fieldMaxHandshakeAttempts; fieldRandomTrailers; fieldDisableCookies;
   fieldPeerSection; fieldPublicKey; fieldPresharedKey; fieldAllowedIPs; fieldEndpoint;
   fieldPersistentKeepalive; fieldInvalid].

Fixpoint index_of (t : field) (l : list field) : nat :=
  match l with [] => 0%nat | x :: l => if decide (t = x) then 0%nat else S (index_of t l) end.
Definition field_num (t : field) : nat := index_of t all_fields.
Definition field_lt (a b : field) : bool := (field_num a <? field_num b)%nat.

Definition sectionForField (t : field) : field :=
  if field_lt fieldInterfaceSection t && field_lt t fieldPeerSection then fieldInterfaceSection
  else if field_lt fieldPeerSection t && field_lt t fieldInvalid then fieldPeerSection
  else fieldInvalid.

(** The cases of the [switch] of [field], in order. *)
Definition field_names : list (gostring * field) :=
  [("HeaderProtectionKey" : gostring, fieldHeaderProtectionKey);
   ("ContentPaddingAddition" : gostring, fieldContentPaddingAddition);
   ("RekeyAfterTime" : gostring, fieldRekeyAfterTime); ("RekeyTimeout" : gostring, fieldRekeyTimeout);
   ("RejectAfterTime" : gostring, fieldRejectAfterTime); ("KeepaliveTimeout" : gostring, fieldKeepaliveTimeout);
   ("MaxHandshakeAttempts" : gostring, fieldMaxHandshakeAttempts);
   ("RandomTrailers" : gostring, fieldRandomTrailers); ("DisableCookies" : gostring, fieldDisableCookies);
   ("PrivateKey" : gostring, fieldPrivateKey); ("ListenPort" : gostring, fieldListenPort);
   ("Address" : gostring, fieldAddress); ("DNS" : gostring, fieldDNS); ("MTU" : gostring, fieldMTU);
   ("Table" : gostring, fieldTable); ("PublicKey" : gostring, fieldPublicKey);
   ("PresharedKey" : gostring, fieldPresharedKey); ("AllowedIPs" : gostring, fieldAllowedIPs);
   ("Endpoint" : gostring, fieldEndpoint); ("PersistentKeepalive" : gostring, fieldPersistentKeepalive);
   ("PreUp" : gostring, fieldPreUp); ("PostUp" : gostring, fieldPostUp);
   ("PreDown" : gostring, fieldPreDown); ("PostDown" : gostring, fieldPostDown);
   ("Jc" : gostring, fieldJc); ("Jmin" : gostring, fieldJmin); ("Jmax" : gostring, fieldJmax);
   ("S1" : gostring, fieldS1); ("S2" : gostring, fieldS2); ("S3" : gostring, fieldS3); ("S4" : gostring, fieldS4);
   ("H1" : gostring, fieldH1); ("H2" : gostring, fieldH2); ("H3" : gostring, fieldH3); ("H4" : gostring, fieldH4);
   ("I1" : gostring, fieldI1); ("I2" : gostring, fieldI2); ("I3" : gostring, fieldI3); ("I4" : gostring, fieldI4);
   ("I5" : gostring, fieldI5)].

Definition section_names : list (gostring * field) :=
  [("[Peer]" : gostring, fieldPeerSection); ("[Interface]" : gostring, fieldInterfaceSection)].

Section Highlight.
Context {RT : GoRuntime}.
Context (buf : list byte).

Fixpoint first_name (names : list (gostring * field)) (s : stringSpan) : outcome field :=
  match names with
  | [] => Ret fieldInvalid
  | (n, f) :: names => b ← isCaselessSame buf s n; if (b : bool) then Ret f else first_name names s
  end.

Definition field_of (s : stringSpan) : outcome field := first_name field_names s.
Definition sectionType (s : stringSpan) : outcome field := first_name section_names s.

(** [hsa.append(o, s, t)]: empty spans are dropped. *)
Definition append (hsa : list highlightSpan) (o : nat) (s : stringSpan) (t : highlight) : list highlightSpan :=
  if (ss_len s =? 0)%nat then hsa else hsa ++ [mkSpan t (ss_s s - o) (ss_len s)].

(** [validateHighlight(s.check(), t)] appended. *)
Definition append_checked (hsa : list highlightSpan) (o : nat) (s : stringSpan) (check : outcome bool)
    (t : highlight) : outcome (list highlightSpan) :=
  b ← check; Ret (append hsa o s (validateHighlight b t)).

Definition highlightMultivalueValue (hsa : list highlightSpan) (o : nat) (s : stringSpan) (section : field)
    : outcome (list highlightSpan) :=
  match section with
  | fieldDNS =>
      v4 ← isValidIPv4 buf s;
      ip ← (if (v4 : bool) then Ret true else isValidIPv6 buf s);
      if (ip : bool) then Ret (append hsa o s highlightIP)
      else h ← isValidHostname buf s;
           if (h : bool) then Ret (append hsa o s highlightHost) else Ret (append hsa o s highlightError)
  | fieldAddress | fieldAllowedIPs =>
      ok ← isValidNetwork buf s;
      if negb ok then Ret (append hsa o s highlightError) else
      slash ← scan buf (ss_len s) 0 s "/"%byte;
      if (slash =? ss_len s)%nat then Ret (append hsa o s highlightIP)
      else
        let hsa := append hsa o (mkStr (ss_s s) slash) highlightIP in
        let hsa := append hsa o (mkStr (ss_s s + slash) 1) highlightDelimiter in
        Ret (append hsa o (mkStr (ss_s s + (slash + 1)) (ss_len s - slash - 1)) highlightCidr)
  | _ => Ret (append hsa o s highlightError)
  end.

(** The test on the last element of the array: an index of -1 panics. *)
Definition fix_last (hsa : list highlightSpan) : outcome (list highlightSpan) :=
  match last hsa with
  | None => Panic
  | Some h => if decide (hs_t h = highlightDelimiter)
              then Ret (take (length hsa - 1) hsa ++ [mkSpan highlightError (hs_s h) (hs_len h)])
              else Ret hsa
  end.

Fixpoint multivalue_loop (n i : nat) (s : stringSpan) (o : nat) (section : field)
    (hsa : list highlightSpan) (cur : stringSpan) (lenAtLastSpace : nat) : outcome (list highlightSpan) :=
  match n with
  | O =>
      let cur := mkStr (ss_s cur) lenAtLastSpace in
      if negb (ss_len cur =? 0)%nat then highlightMultivalueValue hsa o cur section else fix_last hsa
  | S n =>
      c ← at_ buf s i;
      if Byte.eqb c ","%byte then
        hsa ← highlightMultivalueValue hsa o (mkStr (ss_s cur) lenAtLastSpace) section;
        let hsa := append hsa o (mkStr (ss_s s + i) 1) highlightDelimiter in
        multivalue_loop n (S i) s o section hsa (mkStr (ss_s s + (i + 1)) 0) 0
      else if Byte.eqb c " "%byte || Byte.eqb c x09 then
        if (ss_s s + i =? ss_s cur)%nat && (ss_len cur =? 0)%nat
        then multivalue_loop n (S i) s o section hsa (mkStr (ss_s cur + 1) (ss_len cur)) lenAtLastSpace
        else multivalue_loop n (S i) s o section hsa (mkStr (ss_s cur) (S (ss_len cur))) lenAtLastSpace
      else multivalue_loop n (S i) s o section hsa (mkStr (ss_s cur) (S (ss_len cur))) (S (ss_len cur))
  end.

Definition highlightMultivalue (hsa : list highlightSpan) (o : nat) (s : stringSpan) (section : field)
    : outcome (list highlightSpan) :=
  multivalue_loop (ss_len s) 0 s o section hsa (mkStr (ss_s s) 0) 0.

(** [colon := s.len; for colon > 0 { colon--; if *s.at(colon) == ':' { break } }] *)
Fixpoint last_colon (colon : nat) (s : stringSpan) : outcome nat :=
  match colon with
  | O => Ret 0%nat
  | S colon => c ← at_ buf s colon; if Byte.eqb c ":"%byte then Ret colon else last_colon colon s
  end.

Definition highlightEndpoint (hsa : list highlightSpan) (o : nat) (s : stringSpan) : outcome (list highlightSpan) :=
  ok ← isValidEndpoint buf s;
  if negb ok then Ret (append hsa o s highlightError) else
  colon ← last_colon (ss_len s) s;
  let hsa := append hsa o (mkStr (ss_s s) colon) highlightHost in
  let hsa := append hsa o (mkStr (ss_s s + colon) 1) highlightDelimiter in
  Ret (append hsa o (mkStr (ss_s s + (colon + 1)) (ss_len s - colon - 1)) highlightPort).

Definition highlightValue (hsa : list highlightSpan) (o : nat) (s : stringSpan) (section : field)
    : outcome (list highlightSpan) :=
  let checked := append_checked hsa o s in
  let u16 := isValidUint buf false 0 65535 s in
  match section with
  | fieldHeaderProtectionKey => checked (isValidKey buf s) highlightPrivateKey
  | fieldContentPaddingAddition | fieldRekeyAfterTime | fieldRekeyTimeout | fieldRejectAfterTime
  | fieldKeepaliveTimeout | fieldMaxHandshakeAttempts => checked (isValidRange buf 16 s) highlightKeepalive
  | fieldRandomTrailers | fieldDisableCookies => checked (isValidAWGBool buf s) highlightKeepalive
  | fieldPrivateKey => checked (isValidKey buf s) highlightPrivateKey
  | fieldPublicKey => checked (isValidKey buf s) highlightPublicKey
  | fieldPresharedKey => checked (isValidKey buf s) highlightPresharedKey
  | fieldMTU => checked (isValidMTU buf s) highlightMTU
  | fieldTable => checked (isValidTable buf s) highlightTable
  | fieldPreUp | fieldPostUp | fieldPreDown | fieldPostDown => checked (isValidPrePostUpDown s) highlightCmd
  | fieldListenPort => checked (isValidPort buf s) highlightPort
  | fieldPersistentKeepalive =>
      checked (or_else (isCaselessSame buf s "off") (isValidRange buf 16 s)) highlightKeepalive
  | fieldEndpoint => highlightEndpoint hsa o s
  | fieldAddress | fieldDNS | fieldAllowedIPs => highlightMultivalue hsa o s section
  | fieldJc => checked u16 highlightJc
  | fieldJmin => checked u16 highlightJmin
  | fieldJmax => checked u16 highlightJmax
  | fieldS1 => checked u16 highlightS1
  | fieldS2 => checked u16 highlightS2
  | fieldS3 => checked u16 highlightS3
  | fieldS4 => checked u16 highlightS4
  | fieldH1 => checked (isValidHField buf s) highlightH1
  | fieldH2 => checked (isValidHField buf s) highlightH2
  | fieldH3 => checked (isValidHField buf s) highlightH3
  | fieldH4 => checked (isValidHField buf s) highlightH4
  | fieldI1 => checked (isValidIField buf s) highlightI1
  | fieldI2 => checked (isValidIField buf s) highlightI2
  | fieldI3 => checked (isValidIField buf s) highlightI3
  | fieldI4 => checked (isValidIField buf s) highlightI4
  | fieldI5 => checked (isValidIField buf s) highlightI5
  | _ => Ret (append hsa o s highlightError)
  end.

(** ** The line state machine *)

Inductive onState := onNone | onKey | onValue | onComment | onSection.

#[export] Instance onState_eq_dec : EqDecision onState.
Proof. solve_decision. Defined.

Record hstate := mkH {
  h_ret : list highlightSpan;
  h_cur : stringSpan;
  h_section : field;
  h_field : field;
  h_state : onState;
  h_space : nat;      (** lenAtLastSpace *)
  h_equals : nat;     (** equalsLocation *)
}.

Definition is_onComment (st : onState) : bool := match st with onComment => true | _ => false end.
Definition is_onKey (st : onState) : bool := match st with onKey => true | _ => false end.
Definition is_onNone (st : onState) : bool := match st with onNone => true | _ => false end.

(** What happens at the end of a line, of the text, or where a comment begins. *)
Definition end_token (h : hstate) : outcome (list highlightSpan * field) :=
  let cur := mkStr (ss_s (h_cur h)) (h_space h) in
  match h_state h with
  | onKey => Ret (append (h_ret h) 0 cur highlightError, h_section h)
  | onValue =>
      if negb (ss_len (h_cur h) =? 0)%nat then
        hsa ← highlightValue (append (h_ret h) 0 (mkStr (h_equals h) 1) highlightDelimiter) 0 cur (h_field h);
        Ret (hsa, h_section h)
      else Ret (append (h_ret h) 0 (mkStr (h_equals h) 1) highlightError, h_section h)
  | onSection =>
      sec ← sectionType cur;
      Ret (append (h_ret h) 0 cur (validateHighlight (negb (bool_decide (sec = fieldInvalid))) highlightSection), sec)
  | onComment => Ret (append (h_ret h) 0 (h_cur h) highlightComment, h_section h)
  | onNone => Ret (h_ret h, h_section h)
  end.

(** One iteration of the loop at a position [i < s.len] that holds [c]. *)
Definition step (h : hstate) (i : nat) (c : byte) : outcome hstate :=
  if Byte.eqb c x0a || (negb (is_onComment (h_state h)) && Byte.eqb c "#"%byte) then
    '(hsa, sec) ← end_token h;
    if Byte.eqb c "#"%byte
    then Ret (mkH hsa (mkStr i 1) sec fieldInvalid onComment 0 (h_equals h))
    else Ret (mkH hsa (mkStr (i + 1) 0) sec fieldInvalid onNone 0 (h_equals h))
  else if is_onComment (h_state h) then
    Ret (mkH (h_ret h) (mkStr (ss_s (h_cur h)) (S (ss_len (h_cur h)))) (h_section h) (h_field h) (h_state h)
           (h_space h) (h_equals h))
  else if Byte.eqb c " "%byte || Byte.eqb c x09 then
    let cur := if (i =? ss_s (h_cur h))%nat && (ss_len (h_cur h) =? 0)%nat
               then mkStr (ss_s (h_cur h) + 1) (ss_len (h_cur h))
               else mkStr (ss_s (h_cur h)) (S (ss_len (h_cur h))) in
    Ret (mkH (h_ret h) cur (h_section h) (h_field h) (h_state h) (h_space h) (h_equals h))
  else if Byte.eqb c "="%byte && is_onKey (h_state h) then
    let cur := mkStr (ss_s (h_cur h)) (h_space h) in
    f ← field_of cur;
    let section := sectionForField f in
    let bad := bool_decide (section = fieldInvalid) || bool_decide (f = fieldInvalid)
               || negb (bool_decide (section = h_section h)) in
    Ret (mkH (append (h_ret h) 0 cur (if bad then highlightError else highlightField))
           (mkStr (i + 1) 0) (h_section h) f onValue (h_space h) i)
  else
    let state := if is_onNone (h_state h)
                 then (if Byte.eqb c "["%byte then onSection else onKey) else h_state h in
    let len := S (ss_len (h_cur h)) in
    Ret (mkH (h_ret h) (mkStr (ss_s (h_cur h)) len) (h_section h) (h_field h) state len (h_equals h)).

Fixpoint run (n i : nat) (h : hstate) : outcome hstate :=
  match n with
  | O => Ret h
  | S n =>
      c ← at_ buf (mkStr 0 0) i;
      h' ← step h i c;
      run n (S i) h'
  end.
End Highlight.

Definition initial_hstate : hstate := mkH [] (mkStr 0 0) fieldInvalid fieldInvalid onNone 0 0.

(** [highlightConfig] on the bytes of [config] followed by a NUL. *)
Definition highlightConfig {RT : GoRuntime} (config : gostring) : outcome (list highlightSpan) :=
  let buf := config ++ [x00] in
  h ← run buf (length config) 0 initial_hstate;
  '(hsa, _) ← end_token buf h;
  Ret hsa.

(** ** Warnings on the junk-packet parameters *)

Record asec := mkAsec { a_mtu : Z; a_jc : Z; a_jmin : Z; a_jmax : Z }.

(** [cfg[span.s : span.s+span.len]]. *)
Definition slice (cfg : gostring) (h : highlightSpan) : outcome gostring :=
  if (hs_s h + hs_len h <=? length cfg)%nat then Ret (take (hs_len h) (drop (hs_s h) cfg)) else Panic.

(** The first loop; [None] is an early [return]. *)
Fixpoint asec_scan (cfg : gostring) (spans : list highlightSpan) (a : asec) : outcome (option asec) :=
  match spans with
  | [] => Ret (Some a)
  | h :: spans =>
      let read (set : Z → asec) :=
        t ← slice cfg h;
        match Atoi t with Ret n => asec_scan cfg spans (set n) | _ => Ret None end in
      match hs_t h with
      | highlightError => Ret None
      | highlightMTU => read (λ n, mkAsec n (a_jc a) (a_jmin a) (a_jmax a))
      | highlightJc => read (λ n, mkAsec (a_mtu a) n (a_jmin a) (a_jmax a))
      | highlightJmin => read (λ n, mkAsec (a_mtu a) (a_jc a) n (a_jmax a))
      | highlightJmax => read (λ n, mkAsec (a_mtu a) (a_jc a) (a_jmin a) n)
      | _ => asec_scan cfg spans a
      end
  end.

(** [device.DefaultMTU]. *)
Definition DefaultMTU : Z := 1420.

Definition asec_warn (a : asec) (h : highlightSpan) : highlightSpan :=
  let mtu := if a_mtu a =? 0 then DefaultMTU else a_mtu a in
  let '(jc, jmin, jmax) := (a_jc a, a_jmin a, a_jmax a) in
  let any := negb (jc =? 0) || negb (jmin =? 0) || negb (jmax =? 0) in
  let warn (b : bool) := if b then mkSpan highlightWarning (hs_s h) (hs_len h) else h in
  match hs_t h with
  | highlightJc => warn (jc >? 128)
  | highlightJmin => warn (any && ((jmin >=? jmax) || (jmin >=? mtu + 80) || (jmin >=? 1500)))
  | highlightJmax => warn (any && ((jmax <=? jmin) || (jmax >? mtu + 80) || (jmax >? 1500)))
  | _ => h
  end.

Definition highlightASecConfig (cfg : gostring) (spans : list highlightSpan)
    : outcome (list highlightSpan) :=
  r ← asec_scan cfg spans (mkAsec 0 0 0 0);
  match r with
  | None => Ret spans
  | Some a => Ret (map (asec_warn a) spans)
  end.
