(* ===== verification/HighlighterFacts.v ===== *)
(** * The highlighter stays inside its buffer and produces ordered spans *)
From S2P Require Import Prelude GoStrings GoStrconv GoNet Conf AwgValidation Highlighter.

Local Open Scope Z_scope.

(** The computation reads only inside the buffer and returns. *)
Definition defined {A} (m : outcome A) : Prop := ∃ a, m = Ret a.

Lemma def_ret {A} (a : A) : defined (Ret a).
Proof. by eexists. Qed.
Lemma def_bind {A B} (m : outcome A) (f : A → outcome B) :
  defined m → (∀ a, m = Ret a → defined (f a)) → defined (m ≫= f).
Proof. intros [a ->] H. by apply H. Qed.
#[export] Hint Resolve def_ret : go.

Ltac def_step :=
  match goal with
  | |- defined (_ ≫= _) => apply def_bind; [|intros ? ?]
  | |- defined (if ?b then _ else _) => let E := fresh "E" in destruct b eqn:E
  | |- defined (match ?x with Some _ => _ | None => _ end) => let E := fresh "E" in destruct x eqn:E
  | |- defined (let '(_, _) := ?x in _) => destruct x
  | |- defined (Ret _) => apply def_ret
  end.

(** Turn the boolean guards on naturals into facts for [lia]. *)
Ltac nat_guards :=
  repeat match goal with
  | H : (_ || _) = false |- _ => apply orb_false_iff in H as [? ?]
  | H : (_ && _) = true |- _ => apply andb_true_iff in H as [? ?]
  | H : negb _ = true |- _ => apply negb_true_iff in H
  | H : negb _ = false |- _ => apply negb_false_iff in H
  | H : (_ <? _)%nat = true |- _ => apply Nat.ltb_lt in H
  | H : (_ <? _)%nat = false |- _ => apply Nat.ltb_ge in H
  | H : (_ =? _)%nat = true |- _ => apply Nat.eqb_eq in H
  | H : (_ =? _)%nat = false |- _ => apply Nat.eqb_neq in H
  end.

Section Reads.
Context {RT : GoRuntime}.
Context (buf : list byte).

(** The span, and the byte behind it, lie inside the buffer. *)
Definition inside (s : stringSpan) : Prop := (ss_s s + ss_len s < length buf)%nat.

Lemma at_def s i : inside s → (i <= ss_len s)%nat → defined (at_ buf s i).
Proof.
  unfold inside, at_. intros Hs Hi. destruct (lookup_lt_is_Some_2 buf (ss_s s + i)) as [c ->]; [lia|].
  apply def_ret.
Qed.

Lemma loop_all_def n from ok :
  (∀ i, (from <= i < from + n)%nat → defined (ok i)) → defined (loop_all n from ok).
Proof.
  revert from. induction n as [|n IH]; intros from H; cbn [loop_all]; [apply def_ret|].
  apply def_bind; [apply H; lia|]. intros [] _; [|apply def_ret]. apply IH. intros i Hi. apply H. lia.
Qed.

Lemma isSame_def s c : inside s → defined (isSame buf s c).
Proof.
  intros Hs. unfold isSame. def_step; [apply def_ret|]. nat_guards.
  apply loop_all_def. intros i Hi. apply def_bind; [apply at_def; [done|lia]|]. intros a _.
  destruct (c !! i) eqn:Ec; [apply def_ret|]. apply lookup_ge_None in Ec. lia.
Qed.

Lemma isCaselessSame_def s c : inside s → defined (isCaselessSame buf s c).
Proof.
  intros Hs. unfold isCaselessSame. def_step; [apply def_ret|]. nat_guards.
  apply loop_all_def. intros i Hi. apply def_bind; [apply at_def; [done|lia]|]. intros a _.
  destruct (c !! i) eqn:Ec; [apply def_ret|]. apply lookup_ge_None in Ec. lia.
Qed.

Lemma isValidKey_def s : inside s → defined (isValidKey buf s).
Proof.
  intros Hs. unfold isValidKey. repeat def_step; nat_guards; try (apply at_def; [done|lia]).
  apply loop_all_def. intros i Hi. repeat def_step. apply at_def; [done|lia].
Qed.

Lemma hostname_loop_def n i s nd ne : inside s → (i + n = ss_len s)%nat → defined (hostname_loop buf n i s nd ne).
Proof.
  intros Hs. revert i nd ne. induction n as [|n IH]; intros i nd ne Hi; cbn [hostname_loop]; [apply def_ret|].
  repeat def_step; try (apply at_def; [done|lia]); try (apply IH; lia).
Qed.

Lemma isValidHostname_def s : inside s → defined (isValidHostname buf s).
Proof.
  intros Hs. unfold isValidHostname. repeat def_step; nat_guards; try (apply at_def; [done|lia]).
  by apply hostname_loop_def.
Qed.

(** The digit loops stop inside the span. *)
Lemma ipv4_digits_def n s pos j val :
  inside s → (pos + j <= ss_len s)%nat →
  ∃ j' v, ipv4_digits buf n s pos j val = Ret (j', v) ∧ (pos + j' <= ss_len s)%nat ∧ (j <= j')%nat.
Proof.
  intros Hs. revert j val. induction n as [|n IH]; intros j val Hj; cbn [ipv4_digits]; [by exists j, val|].
  destruct (pos + j <? ss_len s)%nat eqn:E; [|by exists j, val]. nat_guards.
  destruct (at_def s (pos + j) Hs) as [c ->]; [lia|]. cbn [mbind outcome_bind].
  destruct (isDecimal c); [|by exists j, val].
  destruct (IH (S j) (10 * val + (bz c - 48))) as (j' & v & -> & H1 & H2); [lia|].
  exists j', v. split_and!; [done|done|lia].
Qed.

Lemma ipv4_groups_def n s pos : inside s → defined (ipv4_groups buf n s pos).
Proof.
  intros Hs. revert pos. induction n as [|n IH]; intros pos; cbn [ipv4_groups]; [apply def_ret|].
  def_step; [apply def_ret|]. nat_guards.
  destruct (ipv4_digits_def 3 s pos 0 0 Hs) as (j & v & -> & Hj & _); [lia|]. cbn [mbind outcome_bind].
  repeat def_step; try (apply at_def; [done|lia]). apply IH.
Qed.

Lemma isValidIPv4_def s : inside s → defined (isValidIPv4 buf s).
Proof. apply ipv4_groups_def. Qed.

Lemma hex_run_def n s pos j :
  inside s → (pos + j <= ss_len s)%nat →
  ∃ j', hex_run buf n s pos j = Ret j' ∧ (pos + j' <= ss_len s)%nat.
Proof.
  intros Hs. revert j. induction n as [|n IH]; intros j Hj; cbn [hex_run]; [by exists j|].
  destruct (pos + j <? ss_len s)%nat eqn:E; [|by exists j]. nat_guards.
  destruct (at_def s (pos + j) Hs) as [c ->]; [lia|]. cbn [mbind outcome_bind].
  destruct (isHexadecimal c); [|by exists j]. apply IH. lia.
Qed.

(** Every round but the last one moves forward, so the fuel is enough. *)
Lemma ipv6_rounds_def fuel s i pos seen :
  inside s → (0 < fuel)%nat → (ss_len s < fuel + pos)%nat → defined (ipv6_rounds buf fuel s i pos seen).
Proof.
  intros Hs. revert i pos seen. induction fuel as [|fuel IH]; intros i pos seen H0 Hf; [lia|].
  cbn [ipv6_rounds]. def_step; [apply def_ret|]. nat_guards.
  def_step; [apply at_def; [done|lia]|]. def_step.
  { repeat def_step. apply IH; lia. }
  destruct (hex_run_def 4 s pos 0 Hs) as (j & -> & Hj); [lia|]. cbn [mbind outcome_bind].
  repeat def_step; try (apply at_def; [done|lia]).
  - apply isValidIPv4_def. unfold inside in *. cbn. lia.
  - apply IH; lia.
Qed.

Lemma isValidIPv6_def s : inside s → defined (isValidIPv6 buf s).
Proof.
  intros Hs. unfold isValidIPv6. repeat def_step; nat_guards; try (apply at_def; [done|lia]).
  apply ipv6_rounds_def; [done|lia|lia].
Qed.

Lemma uint_dec_def n i s v : inside s → (i + n <= ss_len s)%nat → defined (uint_dec buf n i s v).
Proof.
  intros Hs. revert i v. induction n as [|n IH]; intros i v Hi; cbn [uint_dec]; [apply def_ret|].
  repeat def_step; [apply at_def; [done|lia]|apply IH; lia].
Qed.

Lemma uint_hex_def n i s v : inside s → (i + n <= ss_len s)%nat → defined (uint_hex buf n i s v).
Proof.
  intros Hs. revert i v. induction n as [|n IH]; intros i v Hi; cbn [uint_hex]; [apply def_ret|].
  repeat def_step; [apply at_def; [done|lia]|apply IH; lia..].
Qed.

Lemma isValidUint_def h mn mx s : inside s → defined (isValidUint buf h mn mx s).
Proof.
  intros Hs. unfold isValidUint. repeat def_step; nat_guards; try (apply at_def; [done|lia]).
  - destruct (le_lt_dec (ss_len s) 2) as [Hle|Hlt].
    + replace (ss_len s - 2)%nat with 0%nat by lia. apply def_ret.
    + apply uint_hex_def; [done|lia].
  - apply uint_dec_def; [done|lia].
Qed.

Lemma or_else_def a b : defined a → defined b → defined (or_else a b).
Proof. intros. unfold or_else. by repeat def_step. Qed.

Lemma isValidScope_def s : inside s → defined (isValidScope buf s).
Proof.
  intros Hs. unfold isValidScope. repeat def_step. nat_guards. apply loop_all_def.
  intros i Hi. repeat def_step. apply at_def; [done|lia].
Qed.

Lemma endpoint_bracket_def n i s seen host :
  inside s → (0 < i)%nat → (i + n = ss_len s)%nat → (ss_s host + ss_len host <= ss_s s + i)%nat →
  defined (endpoint_bracket buf n i s seen host).
Proof.
  intros Hs. revert i seen host. induction n as [|n IH]; intros i seen host H0 Hi Hh;
    cbn [endpoint_bracket]; [apply def_ret|].
  assert (inside host) as Hih by (unfold inside in *; lia).
  repeat def_step; nat_guards; try (apply at_def; [done|lia]); auto using isValidIPv6_def, isValidScope_def.
  - apply IH; cbn; lia.
  - apply isValidUint_def. unfold inside in *. cbn. lia.
  - apply IH; cbn; lia.
Qed.

Lemma endpoint_plain_def n i s : inside s → (i + n = ss_len s)%nat → defined (endpoint_plain buf n i s).
Proof.
  intros Hs. revert i. induction n as [|n IH]; intros i Hi; cbn [endpoint_plain]; [apply def_ret|].
  repeat def_step; [apply at_def; [done|lia]| | |apply IH; lia].
  - apply isValidUint_def. unfold inside in *. cbn. lia.
  - apply or_else_def; [apply isValidIPv4_def|apply isValidHostname_def]; unfold inside in *; cbn; lia.
Qed.

Lemma isValidEndpoint_def s : inside s → defined (isValidEndpoint buf s).
Proof.
  intros Hs. unfold isValidEndpoint. repeat def_step; nat_guards; [apply at_def; [done|lia]|..].
  - apply endpoint_bracket_def; cbn; auto; lia.
  - apply endpoint_plain_def; [done|lia].
Qed.

Lemma cidr_value_def n j s v : inside s → (j + n <= ss_len s)%nat → defined (cidr_value buf n j s v).
Proof.
  intros Hs. revert j v. induction n as [|n IH]; intros j v Hj; cbn [cidr_value]; [apply def_ret|].
  repeat def_step; [apply at_def; [done|lia]|apply IH; lia].
Qed.

Lemma scan_def n i s c :
  inside s → (i + n = ss_len s)%nat →
  ∃ k, scan buf n i s c = Ret k ∧ (i <= k <= ss_len s)%nat.
Proof.
  intros Hs. revert i. induction n as [|n IH]; intros i Hi; cbn [scan]; [exists i; split; [done|lia]|].
  destruct (at_def s i Hs) as [d ->]; [lia|]. cbn [mbind outcome_bind].
  destruct (Byte.eqb d c); [exists i; split; [done|lia]|].
  destruct (IH (S i)) as (k & -> & Hk); [lia|]. exists k. split; [done|lia].
Qed.

Lemma isValidNetwork_def s : inside s → defined (isValidNetwork buf s).
Proof.
  intros Hs. unfold isValidNetwork. destruct (scan_def (ss_len s) 0 s "/"%byte Hs eq_refl) as (i & -> & Hi).
  cbn [mbind outcome_bind]. repeat def_step; nat_guards.
  - apply cidr_value_def; [unfold inside in *; cbn in *; lia|cbn; lia].
  - apply isValidIPv4_def. unfold inside in *. cbn. lia.
  - apply isValidIPv6_def. unfold inside in *. cbn. lia.
  - by apply or_else_def; [apply isValidIPv4_def|apply isValidIPv6_def].
Qed.

Lemma text_def s : inside s → defined (text buf s).
Proof.
  intros Hs. unfold text. rewrite (proj2 (Nat.leb_le _ _)); [apply def_ret|unfold inside in Hs; lia].
Qed.

Lemma first_name_def names s : inside s → defined (first_name buf names s).
Proof.
  intros Hs. induction names as [|[n f] names IH]; cbn [first_name]; [apply def_ret|].
  repeat def_step; [by apply isCaselessSame_def|done].
Qed.

(** ** Ordered, non-empty spans that end at or before a position *)

Inductive layout : list highlightSpan → nat → Prop :=
| layout_nil p : layout [] p
| layout_snoc l p t s len q :
    layout l p → (p <= s)%nat → (0 < len)%nat → (s + len <= q)%nat → layout (l ++ [mkSpan t s len]) q.

Lemma layout_weaken l p q : layout l p → (p <= q)%nat → layout l q.
Proof. destruct 1; intros; [constructor|econstructor; [done..|lia]]. Qed.

Lemma layout_append l p s t q :
  layout l p → (p <= ss_s s)%nat → (ss_s s + ss_len s <= q)%nat → layout (append l 0 s t) q.
Proof.
  intros Hl Hp Hq. unfold append. destruct (Nat.eqb_spec (ss_len s) 0).
  - eapply layout_weaken; [done|lia].
  - rewrite Nat.sub_0_r. econstructor; [done|lia|lia|lia].
Qed.

Lemma fix_last_layout l p : l ≠ [] → layout l p → ∃ l', fix_last l = Ret l' ∧ layout l' p.
Proof.
  intros Hne Hl. inversion Hl as [|l0 p0 t s len q Hl0 H1 H2 H3]; subst; [done|].
  unfold fix_last. rewrite last_snoc. case_decide; [|by eexists].
  eexists. split; [done|]. rewrite length_app. cbn. rewrite Nat.add_sub, take_app_length. by econstructor.
Qed.

(** A span cut at position [k] into a part, a delimiter and the rest. *)
Lemma layout_three l p s k t1 t2 t3 q :
  layout l p → (p <= ss_s s)%nat → (k < ss_len s)%nat → (ss_s s + ss_len s <= q)%nat →
  layout (append (append (append l 0 (mkStr (ss_s s) k) t1) 0 (mkStr (ss_s s + k) 1) t2)
            0 (mkStr (ss_s s + (k + 1)) (ss_len s - k - 1)) t3) q.
Proof.
  intros Hl Hp Hk Hq.
  eapply (layout_append _ (ss_s s + k + 1)); cbn [ss_s ss_len]; [|lia|lia].
  eapply (layout_append _ (ss_s s + k)); cbn [ss_s ss_len]; [|lia|lia].
  eapply layout_append; cbn [ss_s ss_len]; [done|lia|lia].
Qed.

(** A value writer keeps the layout: it appends spans inside [s] only. *)
Definition writes (m : outcome (list highlightSpan)) (q : nat) : Prop :=
  ∃ l, m = Ret l ∧ layout l q.

Lemma writes_ret l q : layout l q → writes (Ret l) q.
Proof. by eexists. Qed.

Lemma writes_bind {A} (m : outcome A) (f : A → outcome (list highlightSpan)) q :
  defined m → (∀ a, m = Ret a → writes (f a) q) → writes (m ≫= f) q.
Proof. intros [a ->] H. by apply H. Qed.

Lemma writes_checked l p s check t q :
  layout l p → (p <= ss_s s)%nat → (ss_s s + ss_len s <= q)%nat → defined check →
  writes (append_checked l 0 s check t) q.
Proof. intros. apply writes_bind; [done|]. intros b _. apply writes_ret. by eapply layout_append. Qed.

Lemma multivalueValue_writes l p s section q :
  inside s → layout l p → (p <= ss_s s)%nat → (ss_s s + ss_len s <= q)%nat →
  writes (highlightMultivalueValue buf l 0 s section) q.
Proof.
  intros Hs Hl Hp Hq. assert (∀ t, writes (Ret (append l 0 s t)) q) as Happ
    by (intros t; apply writes_ret; by eapply layout_append).
  assert (writes (ok ← isValidNetwork buf s;
      if negb ok then Ret (append l 0 s highlightError) else
      slash ← scan buf (ss_len s) 0 s "/"%byte;
      if (slash =? ss_len s)%nat then Ret (append l 0 s highlightIP)
      else
        let hsa := append l 0 (mkStr (ss_s s) slash) highlightIP in
        let hsa := append hsa 0 (mkStr (ss_s s + slash) 1) highlightDelimiter in
        Ret (append hsa 0 (mkStr (ss_s s + (slash + 1)) (ss_len s - slash - 1)) highlightCidr)) q) as Hnet.
  { apply writes_bind; [by apply isValidNetwork_def|]. intros ok _. destruct (negb ok); [done|].
    destruct (scan_def (ss_len s) 0 s "/"%byte Hs eq_refl) as (k & -> & Hk). cbn [mbind outcome_bind].
    destruct (Nat.eqb_spec k (ss_len s)); [done|]. apply writes_ret. cbn zeta.
    apply (layout_three _ p); [done|done|lia|done]. }
  destruct section; try exact (Happ _); try exact Hnet.
  apply writes_bind; [by apply isValidIPv4_def|]. intros v4 _.
  apply writes_bind; [destruct v4; [apply def_ret|by apply isValidIPv6_def]|]. intros ip _.
  destruct ip; [done|]. apply writes_bind; [by apply isValidHostname_def|]. by intros [] _.
Qed.

Lemma append_nonempty l s t : l ≠ [] → append l 0 s t ≠ [].
Proof. intros H. unfold append. destruct (_ =? 0)%nat; [done|]. by destruct l. Qed.

Lemma multivalueValue_nonempty l s section l' :
  l ≠ [] → highlightMultivalueValue buf l 0 s section = Ret l' → l' ≠ [].
Proof.
  intros Hne H. destruct section; cbn [highlightMultivalueValue] in H; inv_ret;
    repeat (case_if; inv_ret); auto using append_nonempty.
Qed.

Lemma multivalue_loop_writes n i s section l p cur space q :
  inside s → l ≠ [] → layout l p → (p <= ss_s cur)%nat → (i + n = ss_len s)%nat →
  (ss_s cur + ss_len cur = ss_s s + i)%nat → (space <= ss_len cur)%nat → (ss_s s + ss_len s <= q)%nat →
  writes (multivalue_loop buf n i s 0 section l cur space) q.
Proof.
  intros Hs. revert i l p cur space.
  induction n as [|n IH]; intros i l p cur space Hne Hl Hp Hi Hc Hsp Hq; cbn [multivalue_loop].
  - cbn [ss_len]. destruct (Nat.eqb_spec space 0); cbn [negb].
    + destruct (fix_last_layout l p Hne Hl) as (l' & -> & Hl').
      apply writes_ret. eapply layout_weaken; [done|lia].
    + eapply multivalueValue_writes; [unfold inside in *; cbn; lia|done|done|cbn; lia].
  - apply writes_bind; [apply at_def; [done|lia]|]. intros c _. destruct (Byte.eqb c ","%byte).
    + destruct (multivalueValue_writes l p (mkStr (ss_s cur) space) section (ss_s s + i)) as (l' & E & Hl');
        [unfold inside in *; cbn; lia|done|done|cbn; lia|].
      rewrite E. cbn [mbind outcome_bind]. apply multivalueValue_nonempty in E; [|done].
      eapply (IH (S i) _ (ss_s s + i + 1)%nat); [by apply append_nonempty| |cbn; lia..].
      eapply layout_append; [done|cbn; lia|cbn; lia].
    + destruct (Byte.eqb c " "%byte || Byte.eqb c x09).
      * destruct ((ss_s s + i =? ss_s cur)%nat && (ss_len cur =? 0)%nat) eqn:E; nat_guards;
          (eapply (IH (S i) l p); [done|done|cbn; lia..]).
      * eapply (IH (S i) l p); [done|done|cbn; lia..].
Qed.

Lemma last_colon_def k s :
  inside s → (k <= ss_len s)%nat → ∃ c, last_colon buf k s = Ret c ∧ ((c < k)%nat ∨ c = 0%nat).
Proof.
  intros Hs. induction k as [|k IH]; intros Hk; cbn [last_colon]; [by exists 0%nat; auto|].
  destruct (at_def s k Hs) as [d ->]; [lia|]. cbn [mbind outcome_bind].
  destruct (Byte.eqb d ":"%byte); [exists k; split; [done|lia]|].
  destruct IH as (c & -> & Hc); [lia|]. exists c. split; [done|lia].
Qed.

Lemma highlightEndpoint_writes l p s q :
  inside s → layout l p → (p <= ss_s s)%nat → (ss_s s + ss_len s <= q)%nat →
  writes (highlightEndpoint buf l 0 s) q.
Proof.
  intros Hs Hl Hp Hq. unfold highlightEndpoint.
  apply writes_bind; [by apply isValidEndpoint_def|]. intros ok Hok.
  destruct ok; cbn [negb]; [|apply writes_ret; by eapply layout_append].
  destruct (last_colon_def (ss_len s) s Hs) as (k & -> & Hk); [lia|]. cbn [mbind outcome_bind].
  apply writes_ret. cbn zeta. apply (layout_three _ p); [done..| |done].
  assert (ss_len s ≠ 0%nat); [|lia]. intros E. unfold isValidEndpoint in Hok. by rewrite E in Hok.
Qed.

Lemma highlightValue_writes l p s section q :
  inside s → l ≠ [] → layout l p → (p <= ss_s s)%nat → (ss_s s + ss_len s <= q)%nat →
  writes (highlightValue buf l 0 s section) q.
Proof.
  intros Hs Hne Hl Hp Hq.
  assert (∀ check t, defined check → writes (append_checked l 0 s check t) q) as Hck
    by (intros; by eapply writes_checked).
  assert (∀ f, defined (b ← text buf s; Ret (f b : bool))) as Htext
    by (intros f; apply def_bind; [by apply text_def|]; intros; apply def_ret).
  assert (writes (highlightMultivalue buf l 0 s section) q) as Hmv.
  { unfold highlightMultivalue. eapply multivalue_loop_writes; cbn; [done|done|exact Hl|lia..]. }
  destruct section; cbn [highlightValue];
    try (apply Hck; first [by apply isValidKey_def | by apply isValidUint_def | apply Htext | apply def_ret]; fail);
    try exact Hmv; try (apply writes_ret; by eapply layout_append).
  - apply Hck. repeat apply or_else_def; auto using isSame_def, isValidUint_def.
  - by eapply highlightEndpoint_writes.
  - apply Hck. apply or_else_def; [by apply isCaselessSame_def|apply Htext].
Qed.

(** ** The state machine *)

(** What holds before position [i] is read. *)
Record inv (i : nat) (h : hstate) : Prop := mk_inv {
  inv_pos : (ss_s (h_cur h) + ss_len (h_cur h) = i)%nat;
  inv_space : (h_state h = onValue ∧ ss_len (h_cur h) = 0%nat) ∨ (h_space h <= ss_len (h_cur h))%nat;
  inv_layout : layout (h_ret h) (if decide (h_state h = onValue) then h_equals h else ss_s (h_cur h));
  inv_equals : h_state h = onValue → (h_equals h < ss_s (h_cur h))%nat;
}.

Lemma end_token_writes i h :
  inv i h → (i < length buf)%nat → ∃ l sec, end_token buf h = Ret (l, sec) ∧ layout l i.
Proof.
  intros [Hpos Hsp Hl He] Hi. unfold end_token.
  destruct (h_state h) eqn:Es; (try rewrite decide_False in Hl by done).
  - eexists _, _. split; [done|]. eapply layout_weaken; [done|lia].
  - destruct Hsp as [[? _]|Hsp]; [done|]. eexists _, _. split; [done|].
    eapply layout_append; [done|cbn; lia|cbn; lia].
  - rewrite decide_True in Hl by done. specialize (He eq_refl).
    destruct (Nat.eqb_spec (ss_len (h_cur h)) 0); cbn [negb].
    + eexists _, _. split; [done|]. eapply layout_append; [done|cbn; lia|cbn; lia].
    + destruct Hsp as [[_ ?]|Hsp]; [done|].
      destruct (highlightValue_writes (append (h_ret h) 0 (mkStr (h_equals h) 1) highlightDelimiter)
        (h_equals h + 1) (mkStr (ss_s (h_cur h)) (h_space h)) (h_field h) i) as (l & -> & Hl').
      * unfold inside. cbn. lia.
      * unfold append. cbn. by destruct (h_ret h).
      * eapply layout_append; [done|cbn; lia|cbn; lia].
      * cbn. lia.
      * cbn. lia.
      * by eexists _, _.
  - eexists _, _. split; [done|]. eapply layout_append; [done|lia|lia].
  - destruct Hsp as [[? _]|Hsp]; [done|].
    destruct (first_name_def section_names (mkStr (ss_s (h_cur h)) (h_space h))) as [sec E];
      [unfold inside; cbn; lia|].
    unfold sectionType. rewrite E. cbn [mbind outcome_bind]. eexists _, _. split; [done|].
    eapply layout_append; [done|cbn; lia|cbn; lia].
Qed.

Lemma step_inv i h c :
  inv i h → (i < length buf)%nat → ∃ h', step buf h i c = Ret h' ∧ inv (S i) h'.
Proof.
  intros W Hi. unfold step.
  destruct (Byte.eqb c x0a || _) eqn:E1.
  { destruct (end_token_writes i h W Hi) as (l & sec & -> & Hl). cbn [mbind outcome_bind].
    destruct (Byte.eqb c "#"%byte); eexists; (split; [done|]);
      (split; cbn; [lia|right; lia|rewrite decide_False by done; eapply layout_weaken; [done|lia]|done]). }
  destruct W as [Hpos Hsp Hl He].
  destruct (is_onComment (h_state h)) eqn:E2.
  { destruct (h_state h) eqn:Es; try done. eexists. split; [done|].
    split; cbn; [lia|destruct Hsp as [[? _]|?]; [done|lia]|done|done]. }
  destruct (Byte.eqb c " "%byte || Byte.eqb c x09) eqn:E3.
  { eexists. split; [done|].
    destruct ((i =? ss_s (h_cur h))%nat && (ss_len (h_cur h) =? 0)%nat) eqn:E; nat_guards.
    - split; cbn; [lia| | |].
      + destruct Hsp as [[? ?]|?]; [by left|right; lia].
      + case_decide; [done|]. eapply layout_weaken; [done|lia].
      + intros Hv. specialize (He Hv). lia.
    - assert (ss_len (h_cur h) ≠ 0%nat) by (apply andb_false_iff in E as [E|E]; nat_guards; lia).
      destruct Hsp as [[_ ?]|?]; [done|]. split; cbn; [lia|right; lia|done|done]. }
  destruct (Byte.eqb c "="%byte && is_onKey (h_state h)) eqn:E4.
  { nat_guards. destruct (h_state h) eqn:Es; try done. rewrite decide_False in Hl by done.
    destruct Hsp as [[? _]|Hsp]; [done|].
    destruct (first_name_def field_names (mkStr (ss_s (h_cur h)) (h_space h))) as [f E];
      [unfold inside; cbn; lia|].
    unfold field_of. rewrite E. cbn [mbind outcome_bind]. eexists. split; [done|].
    split; cbn; [lia|by left| |lia]. rewrite decide_True by done. eapply layout_append; [done|cbn; lia|cbn; lia]. }
  eexists. split; [done|]. split; cbn; [lia|by right| |].
  - destruct (h_state h); cbn in *; try done. by destruct (Byte.eqb c "["%byte).
  - destruct (h_state h); cbn in *; try done. by destruct (Byte.eqb c "["%byte).
Qed.

Lemma run_inv n i h :
  inv i h → (i + n < length buf)%nat → ∃ h', run buf n i h = Ret h' ∧ inv (i + n) h'.
Proof.
  revert i h. induction n as [|n IH]; intros i h W Hn; cbn [run].
  - exists h. by rewrite Nat.add_0_r.
  - destruct (lookup_lt_is_Some_2 buf i) as [c Hc]; [lia|].
    unfold at_. cbn [ss_s]. rewrite Nat.add_0_l, Hc. cbn [mbind outcome_bind].
    destruct (step_inv i h c W) as (h' & -> & W'); [lia|]. cbn [mbind outcome_bind].
    rewrite <- Nat.add_succ_comm. apply IH; [done|lia].
Qed.
End Reads.

Lemma initial_inv : inv 0 initial_hstate.
Proof. split; cbn; [done|by right|constructor|done]. Qed.

Lemma highlightConfig_layout {RT : GoRuntime} config :
  ∃ spans, highlightConfig config = Ret spans ∧ layout spans (length config).
Proof.
  unfold highlightConfig. set (buf := config ++ [x00]).
  assert (length buf = S (length config)) as Hb by (unfold buf; rewrite length_app; cbn; lia).
  destruct (run_inv buf (length config) 0 initial_hstate initial_inv) as (h & -> & W); [lia|].
  cbn [mbind outcome_bind].
  destruct (end_token_writes buf (length config) h W) as (l & sec & -> & Hl); [lia|].
  by exists l.
Qed.

(** Spans in order, pairwise disjoint, none empty, all inside a text of length [n]. *)
Definition well_placed (spans : list highlightSpan) (n : nat) : Prop :=
  Forall (λ h, (0 < hs_len h)%nat ∧ (hs_s h + hs_len h <= n)%nat) spans ∧
  ∀ i j a b, (i < j)%nat → spans !! i = Some a → spans !! j = Some b → (hs_s a + hs_len a <= hs_s b)%nat.

Lemma layout_well_placed l n : layout l n → well_placed l n.
Proof.
  induction 1 as [|l p t s len q _ [IH1 IH2] H1 H2 H3]; [split; [constructor|done]|]. split.
  - apply Forall_app. split; [|by repeat constructor].
    eapply Forall_impl; [exact IH1|]. cbn. intros h ?. lia.
  - intros i j a b Hij Ha Hb. apply lookup_app_Some in Hb as [Hb|[Hj Hb]].
    + eapply IH2; [exact Hij| |exact Hb]. apply lookup_lt_Some in Hb. by rewrite lookup_app_l in Ha by lia.
    + destruct (j - length l)%nat as [|k] eqn:Ej; [|by destruct k]. injection Hb as <-. cbn.
      assert (i < length l)%nat as Hi by lia. rewrite lookup_app_l in Ha by done.
      eapply Forall_lookup_1 in Ha; [|exact IH1]. cbn in Ha. lia.
Qed.
