(* ===== verification/HighlighterTheorems.v ===== *)
(** * The highlighter agrees with the reader on what is valid *)
From S2P Require Import Prelude GoStrings GoStrconv GoEncoding GoNet Conf TunnelName AwgValidation Parser ParserFacts AwgFacts Highlighter HighlighterFacts.

Local Open Scope Z_scope.

(** ** Placement *)

(** C39: For every text the highlighter returns (its loops end, and every raw
    pointer it reads through stays inside the NUL-terminated buffer), and its
    spans are non-empty, in order, pairwise disjoint and inside the text. *)
Theorem highlightConfig_safe {RT : GoRuntime} config :
  ∃ spans, highlightConfig config = Ret spans ∧ well_placed spans (length config).
Proof.
  destruct (highlightConfig_layout config) as (spans & E & Hl). exists spans.
  split; [done|]. by apply layout_well_placed.
Qed.

Lemma asec_scan_def cfg spans a :
  Forall (λ h, (0 < hs_len h)%nat ∧ (hs_s h + hs_len h <= length cfg)%nat) spans →
  defined (asec_scan cfg spans a).
Proof.
  intros H. revert a. induction H as [|h spans [_ Hh] _ IH]; intros a; cbn [asec_scan]; [apply def_ret|].
  assert (slice cfg h = Ret (take (hs_len h) (drop (hs_s h) cfg))) as ->
    by (unfold slice; by rewrite (proj2 (Nat.leb_le _ _))).
  cbn [mbind outcome_bind].
  destruct (hs_t h); auto with go; destruct (Atoi _); auto with go.
Qed.

(** On the highlighter's own spans the second pass slices only inside the
    text, and at most turns a junk-packet span into a warning: positions,
    number and all other kinds of spans stay. *)
Theorem highlightASecConfig_safe {RT : GoRuntime} config spans :
  highlightConfig config = Ret spans →
  ∃ spans', highlightASecConfig config spans = Ret spans' ∧
    Forall2 (λ h h', hs_s h' = hs_s h ∧ hs_len h' = hs_len h ∧
               (hs_t h' = hs_t h ∨
                hs_t h' = highlightWarning ∧ hs_t h ∈ [highlightJc; highlightJmin; highlightJmax]))
      spans spans'.
Proof.
  intros E. destruct (highlightConfig_layout config) as (l & E' & Hl). rewrite E in E'. injection E' as <-.
  apply layout_well_placed in Hl as [Hl _].
  unfold highlightASecConfig. destruct (asec_scan_def config spans (mkAsec 0 0 0 0) Hl) as [r ->].
  cbn [mbind outcome_bind].
  assert (∀ f, (∀ h, hs_s (f h) = hs_s h ∧ hs_len (f h) = hs_len h ∧
      (hs_t (f h) = hs_t h ∨ hs_t (f h) = highlightWarning ∧ hs_t h ∈ [highlightJc; highlightJmin; highlightJmax])) →
    Forall2 (λ h h', hs_s h' = hs_s h ∧ hs_len h' = hs_len h ∧
               (hs_t h' = hs_t h ∨
                hs_t h' = highlightWarning ∧ hs_t h ∈ [highlightJc; highlightJmin; highlightJmax]))
      spans (map f spans)) as HF.
  { intros f Hf. clear -Hf. induction spans; cbn; constructor; auto. }
  destruct r as [a|].
  - eexists. split; [done|]. apply HF. intros h. unfold asec_warn.
    destruct (hs_t h) eqn:Et; auto; case_if; cbn; split_and!; auto; right; (split; [done|set_solver]).
  - exists spans. split; [done|]. rewrite <- (map_id spans) at 2. by apply (HF id); auto.
Qed.

(** "[Interface]", "Jc = 200" *)
Definition asec_example : gostring := "[Interface]" ++ [x0a] ++ "Jc = 200".

Lemma highlightASecConfig_safe_witness : ∃ spans spans',
  @highlightConfig plain_runtime asec_example = Ret spans
  ∧ highlightASecConfig asec_example spans = Ret spans'
  ∧ Forall2 (λ h h', hs_s h' = hs_s h ∧ hs_len h' = hs_len h ∧
               (hs_t h' = hs_t h ∨
                hs_t h' = highlightWarning ∧ hs_t h ∈ [highlightJc; highlightJmin; highlightJmax]))
      spans spans'.
Proof.
  assert (H : @highlightConfig plain_runtime asec_example
    = Ret [mkSpan highlightSection 0 11; mkSpan highlightField 12 2;
           mkSpan highlightDelimiter 15 1; mkSpan highlightJc 17 3]) by (vm_compute; reflexivity).
  destruct (@highlightASecConfig_safe plain_runtime asec_example _ H) as (spans' & H' & HF).
  eexists. exists spans'. split; [exact H|]. split; [exact H'|exact HF].
Defined.

(** ** Reading a span as text *)

Section Text.
Context {RT : GoRuntime}.
Context (buf : list byte) (s : stringSpan) (Hs : inside buf s).

Definition span_text : list byte := take (ss_len s) (drop (ss_s s) buf).

Lemma span_text_length : length span_text = ss_len s.
Proof using Hs. unfold span_text, inside in *. rewrite length_take, length_drop. lia. Qed.

Lemma text_span : text buf s = Ret span_text.
Proof using Hs. unfold text, inside in *. by rewrite (proj2 (Nat.leb_le _ _)) by lia. Qed.

Lemma at_text i : (i < ss_len s)%nat → ∃ c, at_ buf s i = Ret c ∧ span_text !! i = Some c.
Proof using Hs.
  intros Hi. unfold at_, span_text, inside in *. rewrite lookup_take_lt by done. rewrite lookup_drop.
  destruct (lookup_lt_is_Some_2 buf (ss_s s + i)) as [c ->]; [lia|]. by exists c.
Qed.

Lemma loop_all_text P n from :
  (from + n <= ss_len s)%nat →
  loop_all n from (λ i, c ← at_ buf s i; Ret (P c)) = Ret (forallb P (take n (drop from span_text))).
Proof using Hs.
  revert from. induction n as [|n IH]; intros from Hn; cbn [loop_all]; [by rewrite take_0|].
  destruct (at_text from) as (c & -> & Hc); [lia|]. cbn [mbind outcome_bind].
  rewrite (drop_S _ _ _ Hc). cbn [take firstn forallb].
  destruct (P c); cbn [andb]; [|done]. apply IH. lia.
Qed.

(** *** Keys *)

Definition key_text (t : gostring) : bool :=
  (length t =? 44)%nat && forallb key_char (take 42 t)
  && match drop 42 t with [c; d] => has_byte "AEIMQUYcgkosw480" c && Byte.eqb d "="%byte | _ => false end.

Lemma isValidKey_text : isValidKey buf s = Ret (key_text span_text).
Proof using Hs.
  unfold isValidKey, key_text. rewrite span_text_length.
  destruct (Nat.eqb_spec (ss_len s) 44) as [El|]; cbn [negb andb]; [|done].
  destruct (at_text 43) as (d & -> & Hd); [lia|]. cbn [mbind outcome_bind].
  destruct (at_text 42) as (c & Ec & Hc); [lia|].
  assert (drop 42 span_text = [c; d]) as ->.
  { rewrite (drop_S _ _ _ Hc), (drop_S _ _ _ Hd), drop_ge; [done|]. rewrite span_text_length. lia. }
  rewrite loop_all_text, drop_0 by lia. cbn [mbind outcome_bind].
  destruct (Byte.eqb d "="%byte); cbn [negb]; [|by rewrite !andb_false_r].
  destruct (forallb key_char _); cbn [negb andb]; [|done].
  rewrite Ec. cbn [mbind outcome_bind]. by rewrite andb_true_r.
Qed.
End Text.

(** The base64 alphabet, and the last character of a 256-bit key. *)
Lemma key_char_val c : key_char c = true → ∃ v, 0 <= v < 64 ∧ c = b64_char v.
Proof.
  by_bytes (λ c, implb (key_char c) (match b64_val c with
     | Some v => (0 <=? v) && (v <? 64) && Byte.eqb c (b64_char v) | None => false end)) c.
  intros H Hc. apply (implb_elim _ _ H) in Hc. destruct (b64_val c) as [v|]; [|done].
  breflect. exists v. split; [lia|]. by destruct (byte_eqb_spec c (b64_char v)).
Qed.

Lemma b64_char_key v : 0 <= v < 64 → key_char (b64_char v) = true.
Proof. intros Hv. by by_below 64 (λ v, key_char (b64_char v)) v Hv. Qed.

Lemma last_char_val c : has_byte "AEIMQUYcgkosw480" c = true → ∃ v, 0 <= v < 16 ∧ c = b64_char (4 * v).
Proof.
  by_bytes (λ c, implb (has_byte "AEIMQUYcgkosw480" c) (match b64_val c with
     | Some v => (0 <=? v) && (v <? 64) && (v mod 4 =? 0) && Byte.eqb c (b64_char v) | None => false end)) c.
  intros H Hc. apply (implb_elim _ _ H) in Hc. destruct (b64_val c) as [v|]; [|done].
  breflect. exists (v / 4). assert (v = 4 * (v / 4)) as E by (apply Z_div_exact_full_2; lia).
  split; [split; [apply Z.div_pos; lia|apply Z.div_lt_upper_bound; lia]|].
  rewrite <- E. by destruct (byte_eqb_spec c (b64_char v)).
Qed.

Lemma last_char_key v : 0 <= v < 16 → has_byte "AEIMQUYcgkosw480" (b64_char (4 * v)) = true.
Proof. intros Hv. by by_below 16 (λ v, has_byte "AEIMQUYcgkosw480" (b64_char (4 * v))) v Hv. Qed.

(** Four sextets are the encoding of three bytes. *)
Lemma sextets_of_pack4 v0 v1 v2 v3 :
  0 <= v0 < 64 → 0 <= v1 < 64 → 0 <= v2 < 64 → 0 <= v3 < 64 →
  let n := pack4 v0 v1 v2 v3 in
  let m := pack3 (byte_at n 16) (byte_at n 8) (byte_at n 0) in
  m / 2 ^ 18 mod 64 = v0 ∧ m / 2 ^ 12 mod 64 = v1 ∧ m / 2 ^ 6 mod 64 = v2 ∧ m / 2 ^ 0 mod 64 = v3.
Proof.
  intros H0 H1 H2 H3 n m. assert (m = n) as ->.
  { unfold m, pack3, byte_at. rewrite !bz_zb. assert (0 <= n < 16777216) by (unfold n, pack4; lia).
    change (2 ^ 16) with 65536. change (2 ^ 8) with 256. change (2 ^ 0) with 1.
    Z.to_euclidean_division_equations. lia. }
  unfold n, pack4. change (2 ^ 18) with 262144. change (2 ^ 12) with 4096. change (2 ^ 6) with 64.
  change (2 ^ 0) with 1. split_and!; Z.to_euclidean_division_equations; lia.
Qed.

Lemma encode_quantum v0 v1 v2 v3 k :
  0 <= v0 < 64 → 0 <= v1 < 64 → 0 <= v2 < 64 → 0 <= v3 < 64 →
  let n := pack4 v0 v1 v2 v3 in
  b64_EncodeToString (byte_at n 16 :: byte_at n 8 :: byte_at n 0 :: k)
  = b64_char v0 :: b64_char v1 :: b64_char v2 :: b64_char v3 :: b64_EncodeToString k.
Proof.
  intros H0 H1 H2 H3. cbn zeta. cbn [b64_EncodeToString]. unfold sextet.
  destruct (sextets_of_pack4 v0 v1 v2 v3 H0 H1 H2 H3) as (-> & -> & -> & ->). done.
Qed.

Lemma quanta_encode n t :
  length t = (4 * n)%nat → forallb key_char t = true →
  ∃ k, length k = (3 * n)%nat ∧ ∀ k', t ++ b64_EncodeToString k' = b64_EncodeToString (k ++ k').
Proof.
  revert t. induction n as [|n IH]; intros t Hl Hc.
  { destruct t; [|done]. by exists []. }
  destruct t as [|a [|b [|c [|d t]]]]; cbn in Hl; try lia. cbn [forallb] in Hc.
  apply andb_true_iff in Hc as [Ha [Hb [Hcc [Hd Ht]%andb_true_iff]%andb_true_iff]%andb_true_iff].
  apply key_char_val in Ha as (v0 & H0 & ->), Hb as (v1 & H1 & ->), Hcc as (v2 & H2 & ->), Hd as (v3 & H3 & ->).
  destruct (IH t ltac:(lia) Ht) as (k & Hk & E). eexists (_ :: _ :: _ :: k). split; [cbn; lia|].
  intros k'. cbn [app]. rewrite (encode_quantum v0 v1 v2 v3) by done. by rewrite <- E.
Qed.

(** The final quantum of a key: two bytes. *)
Lemma tail_encode v0 v1 v2 :
  0 <= v0 < 64 → 0 <= v1 < 64 → 0 <= v2 < 16 →
  ∃ a b, [b64_char v0; b64_char v1; b64_char (4 * v2); x3d] = b64_EncodeToString [a; b].
Proof.
  intros H0 H1 H2. set (n := pack4 v0 v1 (4 * v2) 0). exists (byte_at n 16), (byte_at n 8).
  cbn [b64_EncodeToString]. unfold sextet.
  assert (x00 = byte_at n 0) as ->.
  { apply bz_inj. unfold byte_at. rewrite bz_zb. change (bz x00) with 0. change (2 ^ 0) with 1. unfold n, pack4.
    Z.to_euclidean_division_equations. lia. }
  pose proof (sextets_of_pack4 v0 v1 (4 * v2) 0 H0 H1 ltac:(lia) ltac:(lia)) as HH. cbn zeta in HH. fold n in HH.
  by destruct HH as (-> & -> & -> & _).
Qed.

Lemma encode_tail a b :
  ∃ v0 v1 v2, 0 <= v0 < 64 ∧ 0 <= v1 < 64 ∧ 0 <= v2 < 16 ∧
    b64_EncodeToString [a; b] = [b64_char v0; b64_char v1; b64_char (4 * v2); x3d].
Proof.
  cbn [b64_EncodeToString]. unfold sextet.
  exists (pack3 a b x00 / 2 ^ 18 mod 64), (pack3 a b x00 / 2 ^ 12 mod 64), (pack3 a b x00 / 2 ^ 6 mod 64 / 4).
  pose proof (Z.mod_pos_bound (pack3 a b x00 / 2 ^ 18) 64 ltac:(lia)).
  pose proof (Z.mod_pos_bound (pack3 a b x00 / 2 ^ 12) 64 ltac:(lia)).
  pose proof (Z.mod_pos_bound (pack3 a b x00 / 2 ^ 6) 64 ltac:(lia)).
  split_and!; [lia..|apply Z.div_pos; lia|apply Z.div_lt_upper_bound; lia|].
  do 3 f_equal. f_equal. unfold pack3. change (bz x00) with 0. change (2 ^ 6) with 64.
  pose proof (bz_range a). pose proof (bz_range b). Z.to_euclidean_division_equations. lia.
Qed.

Lemma encode_quanta n k :
  length k = (3 * n)%nat → ∀ k',
  ∃ t, b64_EncodeToString (k ++ k') = t ++ b64_EncodeToString k' ∧ length t = (4 * n)%nat ∧ forallb key_char t = true.
Proof.
  revert k. induction n as [|n IH]; intros k Hl k'.
  { destruct k; [|done]. by exists []. }
  destruct k as [|a [|b [|c k]]]; cbn in Hl; try lia.
  destruct (IH k ltac:(lia) k') as (t & E & Ht & Hc). cbn [app b64_EncodeToString]. rewrite E.
  eexists (_ :: _ :: _ :: _ :: t). split_and!; [done|cbn; lia|]. cbn [forallb]. rewrite Hc.
  unfold sextet. rewrite !b64_char_key by (apply Z.mod_pos_bound; lia). done.
Qed.

Lemma key_text_spec t : key_text t = true ↔ ∃ k, length k = KeyLength ∧ t = Key_String k.
Proof.
  unfold key_text, Key_String. split.
  - intros [[Hl Hc]%andb_true_iff Ht]%andb_true_iff. apply Nat.eqb_eq in Hl.
    destruct (drop 42 t) as [|c [|d [|]]] eqn:Ed; try done.
    apply andb_true_iff in Ht as [Hlast Hd]. destruct (byte_eqb_spec d "="%byte) as [->|]; [|done].
    assert (t = take 40 t ++ drop 40 (take 42 t) ++ [c; "="%byte]) as Et.
    { rewrite <- Ed. replace (take 40 t) with (take 40 (take 42 t)) by (by rewrite take_take).
      by rewrite app_assoc, take_drop, take_drop. }
    assert (length (drop 40 (take 42 t)) = 2%nat) as H2 by (rewrite length_drop, length_take; lia).
    rewrite <- (take_drop 40 (take 42 t)), forallb_app, take_take in Hc.
    apply andb_true_iff in Hc as [Hc1 Hc2]. change (40 `min` 42)%nat with 40%nat in Hc1.
    destruct (drop 40 (take 42 t)) as [|x [|y [|]]]; try done. cbn [forallb] in Hc2.
    apply andb_true_iff in Hc2 as [Hx [Hy _]%andb_true_iff].
    apply key_char_val in Hx as (v0 & H0 & ->), Hy as (v1 & H1 & ->).
    apply last_char_val in Hlast as (v2 & Hv2 & ->).
    destruct (quanta_encode 10 (take 40 t)) as (k & Hk & E); [rewrite length_take; lia|done|].
    destruct (tail_encode v0 v1 v2 H0 H1 Hv2) as (a & b & Eab).
    exists (k ++ [a; b]). split; [rewrite length_app, Hk; done|].
    rewrite <- E, <- Eab. rewrite Et at 1. done.
  - intros (k & Hk & ->). unfold KeyLength in Hk.
    assert (∃ k1 a b, k = k1 ++ [a; b] ∧ length k1 = 30%nat) as (k1 & a & b & -> & Hk1).
    { exists (take 30 k). assert (length (drop 30 k) = 2%nat) by (rewrite length_drop; lia).
      destruct (drop 30 k) as [|a [|b [|]]] eqn:E; try done. exists a, b.
      split; [by rewrite <- E, take_drop|rewrite length_take; lia]. }
    destruct (encode_quanta 10 k1 Hk1 [a; b]) as (t & -> & Ht & Hc).
    destruct (encode_tail a b) as (v0 & v1 & v2 & H0 & H1 & H2 & ->).
    change (t ++ [b64_char v0; b64_char v1; b64_char (4 * v2); x3d])
      with (t ++ ([b64_char v0; b64_char v1] ++ [b64_char (4 * v2); x3d])). rewrite app_assoc.
    assert (length (t ++ [b64_char v0; b64_char v1]) = 42%nat) as H42 by (rewrite length_app; cbn; lia).
    rewrite length_app, H42. change (42 + length [b64_char (4 * v2); x3d] =? 44)%nat with true.
    rewrite <- H42, take_app_length, drop_app_length.
    rewrite forallb_app, Hc. cbn [forallb andb]. rewrite !b64_char_key by done.
    by rewrite last_char_key by done.
Qed.

(** The editor marks a key as valid exactly when its text is the base64
    form of some 32-byte key. *)
Theorem isValidKey_exact buf s :
  inside buf s →
  isValidKey buf s = Ret true ↔ ∃ k, length k = KeyLength ∧ text buf s = Ret (Key_String k).
Proof.
  intros Hs. rewrite isValidKey_text, text_span by done. split.
  - intros [= (k & Hk & E)%key_text_spec]. exists k. by rewrite E.
  - intros (k & Hk & [= E]). f_equal. apply key_text_spec. by exists k.
Qed.

Definition demo_key : gostring := "yAnz5TF+lXXJte14tji3zlMNq+hd2rYUIgJBgB3fBmk=".

Lemma isValidKey_exact_witness :
  ∃ k, length k = KeyLength ∧ text (demo_key ++ [x00]) (mkStr 0 44) = Ret (Key_String k).
Proof.
  apply (isValidKey_exact (demo_key ++ [x00]) (mkStr 0 44)); [unfold inside; cbn; lia|].
  vm_compute. reflexivity.
Defined.

(** ** Numbers *)

Lemma isDecimal_digit c : isDecimal c = is_digit c.
Proof. done. Qed.

Lemma dec_value_bound t v : forallb is_digit t = true → 0 <= v → dec_value v t < (v + 1) * 10 ^ Z.of_nat (length t).
Proof.
  revert v. induction t as [|c t IH]; intros v Hd Hv; cbn [length]; [unfold dec_value; cbn; lia|].
  cbn [forallb] in Hd. apply andb_true_iff in Hd as [Hc Hd]. apply digit_val_range in Hc.
  change (dec_value v (c :: t)) with (dec_value (v * 10 + digit_val c) t).
  rewrite Nat2Z.inj_succ, Z.pow_succ_r by lia.
  specialize (IH (v * 10 + digit_val c) Hd ltac:(lia)). nia.
Qed.

Definition uint_text (mn mx : Z) (t : gostring) : bool :=
  negb (10 <? length t)%nat && negb (length t =? 0)%nat && forallb is_digit t
  && (dec_value 0 t <=? mx) && (dec_value 0 t >=? mn).

Section Numbers.
Context (buf : list byte) (s : stringSpan) (Hs : inside buf s).

Lemma uint_dec_text n i v :
  (i + n = ss_len s)%nat → 0 <= v → (v + 1) * 10 ^ Z.of_nat n <= 2 ^ 64 →
  uint_dec buf n i s v
  = Ret (if forallb is_digit (drop i (span_text buf s)) then Some (dec_value v (drop i (span_text buf s))) else None).
Proof using Hs.
  revert i v. induction n as [|n IH]; intros i v Hi Hv Hb; cbn [uint_dec].
  - rewrite drop_ge; [done|]. rewrite span_text_length by done. lia.
  - destruct (at_text buf s Hs i) as (c & -> & Hc); [lia|]. cbn [mbind outcome_bind].
    rewrite (drop_S _ _ _ Hc), isDecimal_digit. cbn [forallb].
    destruct (is_digit c) eqn:Ed; cbn [negb andb]; [|done].
    pose proof (digit_val_range c Ed) as Hdv.
    assert (u8_sub c 48 = digit_val c) as -> by (unfold u8_sub, u8, digit_val in *; rewrite Z.mod_small; lia).
    rewrite Nat2Z.inj_succ, Z.pow_succ_r in Hb by lia.
    assert (0 < 10 ^ Z.of_nat n) by (apply Z.pow_pos_nonneg; lia).
    assert ((10 * v + digit_val c + 1) * 10 ^ Z.of_nat n <= 2 ^ 64) as Hb' by nia.
    assert (u64 (10 * v + digit_val c) = 10 * v + digit_val c) as ->.
    { unfold u64. apply Z.mod_small. change two64 with (2 ^ 64). nia. }
    rewrite IH by (lia || exact Hb').
    change (dec_value v (c :: drop (S i) (span_text buf s)))
      with (dec_value (v * 10 + digit_val c) (drop (S i) (span_text buf s))).
    by rewrite (Z.mul_comm v 10).
Qed.

Lemma isValidUint_text mn mx : isValidUint buf false mn mx s = Ret (uint_text mn mx (span_text buf s)).
Proof using Hs.
  unfold isValidUint, uint_text. rewrite span_text_length by done.
  destruct (10 <? ss_len s)%nat eqn:E1; cbn [orb negb andb]; [done|].
  destruct (ss_len s =? 0)%nat eqn:E2; cbn [orb negb andb]; [done|]. nat_guards.
  destruct (at_text buf s Hs 0) as (c & -> & _); [lia|]. cbn [mbind outcome_bind andb].
  rewrite uint_dec_text, drop_0; [|lia|lia|].
  - cbn [mbind outcome_bind]. by destruct (forallb is_digit _).
  - rewrite Z.mul_1_l. etrans; [apply (Z.pow_le_mono_r 10 _ 10); lia|]. done.
Qed.
End Numbers.

Lemma uint_text_Atoi mn mx t : uint_text mn mx t = true → Atoi t = Ret (dec_value 0 t) ∧ mn <= dec_value 0 t <= mx.
Proof.
  unfold uint_text. rewrite !andb_true_iff. intros [[[[H1 H2] Hd] Hx] Hn]. nat_guards. breflect.
  split; [|lia]. unfold Atoi.
  pose proof (dec_value_bound t 0 Hd ltac:(lia)) as Hb. pose proof (dec_value_nonneg t 0 Hd ltac:(lia)).
  assert (10 ^ Z.of_nat (length t) <= 10 ^ 10) by (apply Z.pow_le_mono_r; lia).
  rewrite parse_int10_digits; [done|by destruct t|done|]. lia.
Qed.

(** A number the editor marks as valid is one the reader accepts with the
    same value, for ports, the 16-bit packet parameters and the MTU. *)
Theorem valid_numbers_accepted buf s :
  inside buf s →
  (isValidPort buf s = Ret true → ∃ n, parsePort (span_text buf s) = Ret n ∧ n = dec_value 0 (span_text buf s)) ∧
  (isValidUint buf false 0 65535 s = Ret true → ∀ name,
     parseUint16 (span_text buf s) name = Ret (dec_value 0 (span_text buf s))) ∧
  (isValidMTU buf s = Ret true → parseMTU (span_text buf s) = Ret (dec_value 0 (span_text buf s))).
Proof.
  intros Hs. unfold isValidPort, isValidMTU. rewrite !isValidUint_text by done. split_and!.
  - intros [= [Ha Hr]%uint_text_Atoi]. eexists. split; [|done]. unfold parsePort. rewrite Ha. cbn.
    rewrite Z.gtb_ltb, !(proj2 (Z.ltb_ge _ _)) by lia. cbn. unfold u16. by rewrite Z.mod_small by lia.
  - intros [= [Ha Hr]%uint_text_Atoi] name. unfold parseUint16, MaxUint16. rewrite Ha. cbn.
    rewrite Z.gtb_ltb, !(proj2 (Z.ltb_ge _ _)) by lia. cbn. unfold u16. by rewrite Z.mod_small by lia.
  - intros [= [Ha Hr]%uint_text_Atoi]. unfold parseMTU. rewrite Ha. cbn.
    rewrite Z.gtb_ltb, !(proj2 (Z.ltb_ge _ _)) by lia. cbn. unfold u16. by rewrite Z.mod_small by lia.
Qed.

Lemma valid_numbers_accepted_witness : parseMTU "1280" = Ret 1280.
Proof.
  apply (valid_numbers_accepted ("1280" ++ [x00]) (mkStr 0 4)); [unfold inside; cbn; lia|].
  vm_compute. reflexivity.
Defined.

(** ** IPv4 addresses *)

(** The check of [isValidIPv4] as a function of the text: [n] octets to go. *)
Fixpoint digits_upto (k : nat) (u : list byte) : list byte * list byte :=
  match k, u with
  | S k, c :: u' => if is_digit c then let '(ds, r) := digits_upto k u' in (c :: ds, r) else ([], u)
  | _, _ => ([], u)
  end.

Lemma digits_upto_head k c u d ds rest : digits_upto (S k) (c :: u) = (d :: ds, rest) → c = d.
Proof.
  cbn [digits_upto]. destruct (is_digit c); [|done]. destruct (digits_upto k u). by intros [= -> _ _].
Qed.

Fixpoint octets_ok (n : nat) (u : list byte) : bool :=
  match n with
  | O => false
  | S n =>
      let '(ds, rest) := digits_upto 3 u in
      match ds with
      | [] => false
      | c :: ds' =>
          if ((0 <? length ds')%nat && Byte.eqb c "0"%byte) || (dec_value 0 ds >? 255) then false
          else match rest with
               | [] => (n =? 0)%nat
               | d :: rest => Byte.eqb d "."%byte && octets_ok n rest
               end
      end
  end.

Section IPv4.
Context (buf : list byte) (s : stringSpan) (Hs : inside buf s).

Lemma ipv4_digits_text n pos j v :
  (pos + j <= ss_len s)%nat →
  let '(ds, rest) := digits_upto n (drop (pos + j) (span_text buf s)) in
  ipv4_digits buf n s pos j v = Ret ((j + length ds)%nat, dec_value v ds) ∧
  drop (pos + j + length ds) (span_text buf s) = rest ∧ (pos + j + length ds <= ss_len s)%nat.
Proof using Hs.
  revert j v. induction n as [|n IH]; intros j v Hj; cbn [digits_upto ipv4_digits].
  { rewrite !Nat.add_0_r. done. }
  destruct (pos + j <? ss_len s)%nat eqn:E; nat_guards.
  - destruct (at_text buf s Hs (pos + j)) as (c & -> & Hc); [lia|]. cbn [mbind outcome_bind].
    rewrite (drop_S _ _ _ Hc). change (isDecimal c) with (is_digit c). destruct (is_digit c) eqn:Ed.
    + specialize (IH (S j) (10 * v + (bz c - 48)) ltac:(lia)).
      replace (pos + S j)%nat with (S (pos + j)) in IH by lia.
      destruct (digits_upto n (drop (S (pos + j)) (span_text buf s))) as [ds rest].
      destruct IH as (-> & Hd & Hl). cbn [length]. split_and!.
      * f_equal. f_equal; [lia|]. unfold dec_value. cbn. f_equal. unfold digit_val. lia.
      * rewrite <- Hd. f_equal. lia.
      * lia.
    + cbn [length]. rewrite !Nat.add_0_r. split_and!; [done|by rewrite (drop_S _ _ _ Hc)|lia].
  - rewrite drop_ge by (rewrite span_text_length by done; lia). cbn [length]. rewrite !Nat.add_0_r.
    split_and!; [done| |lia]. apply drop_ge. rewrite span_text_length by done. lia.
Qed.

Lemma ipv4_groups_text n pos : ipv4_groups buf n s pos = Ret (octets_ok n (drop pos (span_text buf s))).
Proof using Hs.
  revert pos. induction n as [|n IH]; intros pos; cbn [ipv4_groups octets_ok]; [done|].
  destruct (pos <? ss_len s)%nat eqn:E; cbn [negb]; nat_guards; cycle 1.
  { rewrite drop_ge by (rewrite span_text_length by done; lia). done. }
  pose proof (ipv4_digits_text 3 pos 0 0 ltac:(lia)) as HD. rewrite Nat.add_0_r in HD.
  destruct (digits_upto 3 (drop pos (span_text buf s))) as [ds rest] eqn:Eds.
  destruct HD as (-> & Hrest & Hlen). cbn [mbind outcome_bind]. rewrite Nat.add_0_l.
  destruct ds as [|c ds']; [done|]. cbn [length]. change (S (length ds') =? 0)%nat with false. cbv iota.
  destruct (at_text buf s Hs pos) as (c' & -> & Hc'); [lia|]. cbn [mbind outcome_bind].
  assert (c' = c) as ->.
  { rewrite (drop_S _ _ _ Hc') in Eds. by apply digits_upto_head in Eds. }
  change (1 <? S (length ds'))%nat with (0 <? length ds')%nat.
  destruct (((0 <? length ds')%nat && Byte.eqb c "0"%byte) || (dec_value 0 (c :: ds') >? 255)); [done|].
  cbn [length] in *. destruct rest as [|d rest].
  - assert (pos + S (length ds') = ss_len s)%nat as El.
    { apply (f_equal length) in Hrest. rewrite length_drop, span_text_length in Hrest by done. cbn in Hrest. lia. }
    rewrite El, Nat.eqb_refl. destruct (n =? 0)%nat eqn:En; cbn [andb]; [done|].
    destruct (at_def buf s (ss_len s) Hs) as [d ->]; [lia|]. cbn [mbind outcome_bind].
    destruct (Byte.eqb d "."%byte); cbn [negb]; [|done]. rewrite IH. nat_guards.
    destruct n as [|n]; [done|]. rewrite drop_ge; [done|]. rewrite span_text_length by done. lia.
  - assert (pos + S (length ds') < ss_len s)%nat as El.
    { apply (f_equal length) in Hrest. rewrite length_drop, span_text_length in Hrest by done. cbn in Hrest. lia. }
    rewrite (proj2 (Nat.eqb_neq (pos + S (length ds')) (ss_len s))) by lia. cbn [andb].
    destruct (at_text buf s Hs (pos + S (length ds'))) as (d' & -> & Hd'); [lia|]. cbn [mbind outcome_bind].
    rewrite (drop_S _ _ _ Hd') in Hrest. injection Hrest as -> Hrest.
    destruct (Byte.eqb d "."%byte); cbn [negb andb]; [|done].
    rewrite IH. do 2 f_equal. rewrite <- Hrest. f_equal. lia.
Qed.
End IPv4.

(** What [ipv4_loop] does at the end of an octet. *)
Lemma ipv4_loop_tail n rest v j f :
  (length f + S n = 4)%nat → match rest with c :: _ => is_digit c = false | [] => True end →
  (∀ f' u, (length f' + n = 4)%nat → u ≠ [] → (0 < n)%nat → is_Some (ipv4_loop u 0 0 f') ↔ octets_ok n u = true) →
  is_Some (ipv4_loop rest v (S j) f) ↔
  match rest with [] => (n =? 0)%nat | d :: rest => Byte.eqb d "."%byte && octets_ok n rest end = true.
Proof.
  intros Hf Hr IH. destruct rest as [|d rest]; cbn [ipv4_loop].
  - destruct (Nat.ltb_spec (length f) 3); destruct (Nat.eqb_spec n 0); try lia; (split; [by intros [? ?]|done]) || done.
  - rewrite Hr. change x2e with "."%byte. destruct (Byte.eqb d "."%byte); cbn [andb]; [|split; [by intros [? ?]|done]].
    change (S j =? 0)%nat with false. cbn [orb]. destruct rest as [|e rest].
    + split; [by intros [? ?]|]. by destruct n.
    + destruct (Nat.eqb_spec (length f) 3).
      * assert (n = 0%nat) as -> by lia. split; [by intros [? ?]|done].
      * apply IH; [rewrite length_app; cbn; lia|done|lia].
Qed.

Lemma is_digit_zero c : is_digit c = true → (digit_val c =? 0) = Byte.eqb c "0"%byte.
Proof.
  by_bytes (λ c, implb (is_digit c) (Bool.eqb (digit_val c =? 0) (Byte.eqb c "0"%byte))) c.
  intros H Hc. apply (implb_elim _ _ H) in Hc. by apply Bool.eqb_prop in Hc.
Qed.

Lemma octets_ipv4 n f u :
  (length f + n = 4)%nat → u ≠ [] → (0 < n)%nat → is_Some (ipv4_loop u 0 0 f) ↔ octets_ok n u = true.
Proof.
  revert f u. induction n as [|n IH]; intros f u Hf Hu H0; [lia|]. cbn [octets_ok].
  assert (∀ rest v j, match rest with c :: _ => is_digit c = false | [] => True end →
    is_Some (ipv4_loop rest v (S j) f) ↔
    match rest with [] => (n =? 0)%nat | d :: rest => Byte.eqb d "."%byte && octets_ok n rest end = true) as HT.
  { intros rest v j Hr. apply ipv4_loop_tail; [done|done|]. intros f' u' Hf' Hu' Hn'. by apply IH. }
  destruct u as [|c1 u]; [done|]. cbn [digits_upto ipv4_loop].
  destruct (is_digit c1) eqn:D1; cycle 1.
  { destruct (Byte.eqb c1 x2e); cbn [Nat.eqb orb]; (split; [by intros [? ?]|cbn; intros [=]]). }
  pose proof (digit_val_range c1 D1) as R1. cbn [Nat.eqb andb].
  rewrite Z.mul_0_l, Z.add_0_l, Z.gtb_ltb, (proj2 (Z.ltb_ge 255 (digit_val c1))) by lia.
  assert (dec_value 0 [c1] = digit_val c1) as V1 by done.
  destruct u as [|c2 u].
  { cbn [length Nat.ltb Nat.leb andb orb]. rewrite V1, Z.gtb_ltb, (proj2 (Z.ltb_ge _ _)) by lia. by apply (HT [] _ 0%nat). }
  destruct (is_digit c2) eqn:D2; cycle 1.
  { cbn [length Nat.ltb Nat.leb andb orb]. rewrite V1, Z.gtb_ltb, (proj2 (Z.ltb_ge _ _)) by lia.
    apply (HT (c2 :: u) _ 0%nat). done. }
  pose proof (digit_val_range c2 D2) as R2. cbn [ipv4_loop Nat.eqb andb]. rewrite D2, is_digit_zero by done.
  destruct (Byte.eqb c1 "0"%byte) eqn:Z1.
  { destruct u as [|c3 u]; [|destruct (is_digit c3)]; (split; [by intros [? ?]|rewrite Z1; intros [=]]). }
  assert (1 <= digit_val c1) as R1'. { rewrite <- is_digit_zero in Z1 by done. breflect. lia. }
  rewrite Z.gtb_ltb, (proj2 (Z.ltb_ge 255 (digit_val c1 * 10 + digit_val c2))) by lia.
  assert (dec_value 0 [c1; c2] = digit_val c1 * 10 + digit_val c2) as V2 by (unfold dec_value; cbn; lia).
  destruct u as [|c3 u].
  { cbn [length Nat.ltb Nat.leb andb]. rewrite Z1. cbn [orb]. rewrite V2, Z.gtb_ltb, (proj2 (Z.ltb_ge _ _)) by lia. by apply (HT [] _ 1%nat). }
  destruct (is_digit c3) eqn:D3; cycle 1.
  { cbn [length Nat.ltb Nat.leb andb]. rewrite Z1. cbn [orb]. rewrite V2, Z.gtb_ltb, (proj2 (Z.ltb_ge _ _)) by lia.
    apply (HT (c3 :: u) _ 1%nat). done. }
  pose proof (digit_val_range c3 D3) as R3. cbn [ipv4_loop Nat.eqb andb]. rewrite D3.
  assert (dec_value 0 [c1; c2; c3] = (digit_val c1 * 10 + digit_val c2) * 10 + digit_val c3) as V3
    by (unfold dec_value; cbn; lia).
  cbn [length Nat.ltb Nat.leb andb]. rewrite Z1. cbn [orb]. rewrite V3, Z.gtb_ltb.
  destruct (Z.ltb_spec 255 ((digit_val c1 * 10 + digit_val c2) * 10 + digit_val c3)) as [Hbig|Hsmall].
  { split; [by intros [? ?]|done]. }
  destruct u as [|c4 u]; [by apply (HT [] _ 2%nat)|].
  destruct (is_digit c4) eqn:D4; [|by apply (HT (c4 :: u) _ 2%nat)].
  pose proof (digit_val_range c4 D4) as R4. cbn [ipv4_loop Nat.eqb andb]. rewrite D4, Z.gtb_ltb.
  rewrite (proj2 (Z.ltb_lt 255 _)) by lia.
  assert (Byte.eqb c4 "."%byte = false) as -> by (apply byte_eqb_neq; intros ->; done).
  split; [by intros [? ?]|done].
Qed.

(** The editor's IPv4 check accepts exactly the texts the reader's address
    parser accepts, although it may look at the byte behind the span. *)
Theorem isValidIPv4_exact buf s :
  inside buf s → isValidIPv4 buf s = Ret true ↔ is_Some (parseIPv4 (span_text buf s)).
Proof.
  intros Hs. unfold isValidIPv4, parseIPv4. rewrite ipv4_groups_text, drop_0 by done.
  destruct (span_text buf s) as [|c u] eqn:E; [split; [done|by intros [? ?]]|].
  rewrite (octets_ipv4 4 []) by (done || lia). generalize (octets_ok 4 (c :: u)). intros b.
  split; [by intros [= ->]|by intros ->].
Qed.

Lemma isValidIPv4_exact_witness : is_Some (parseIPv4 "10.0.0.2").
Proof.
  apply (isValidIPv4_exact ("10.0.0.2" ++ [x00]) (mkStr 0 8)); [unfold inside; cbn; lia|].
  vm_compute. reflexivity.
Defined.

(** ** Names *)

Lemma upcase95_lower a b : Byte.eqb (upcase95 a) (upcase95 b) = Byte.eqb (lower_byte a) (lower_byte b).
Proof.
  pose proof (byte_forall (λ a, forallb (λ b, Bool.eqb (Byte.eqb (upcase95 a) (upcase95 b))
    (Byte.eqb (lower_byte a) (lower_byte b))) all_bytes) ltac:(vm_compute; reflexivity) a) as H.
  cbv beta in H. rewrite forallb_forall in H. by apply Bool.eqb_prop, (H b (all_bytes_complete b)).
Qed.

Section Names.
Context (buf : list byte) (s : stringSpan) (Hs : inside buf s).

Lemma caseless_loop (c : gostring) n i :
  (i + n = ss_len s)%nat → length c = ss_len s →
  loop_all n i (λ i, a ← at_ buf s i;
    match c !! i with Some b => Ret (Byte.eqb (upcase95 a) (upcase95 b)) | None => Panic end)
  = Ret (map lower_byte (drop i (span_text buf s)) =?s map lower_byte (drop i c)).
Proof using Hs.
  revert i. induction n as [|n IH]; intros i Hi Hc; cbn [loop_all].
  - rewrite !drop_ge; [done|lia|]. rewrite span_text_length by done. lia.
  - destruct (at_text buf s Hs i) as (a & -> & Ha); [lia|]. cbn [mbind outcome_bind].
    destruct (lookup_lt_is_Some_2 (c : list byte) i) as [b Hb]; [lia|].
    assert ((c : gostring) !! i = Some b) as -> by exact Hb.
    rewrite (drop_S _ _ _ Ha), (drop_S (c : list byte) _ _ Hb). cbn [map str_eqb mbind outcome_bind].
    rewrite upcase95_lower. destruct (Byte.eqb (lower_byte a) (lower_byte b)); cbn [andb]; [|done].
    apply IH; [lia|done].
Qed.

Lemma isCaselessSame_text c :
  isCaselessSame buf s c = Ret (map lower_byte (span_text buf s) =?s map lower_byte c).
Proof using Hs.
  unfold isCaselessSame. destruct (Nat.eqb_spec (ss_len s) (length c)) as [E|E]; cbn [negb].
  - rewrite caseless_loop, !drop_0 by done. done.
  - f_equal. symmetry. apply str_eqb_false. intros H. apply E.
    apply (f_equal length) in H. rewrite !length_map, span_text_length in H by done. done.
Qed.

Definition lower_names (names : list (gostring * field)) : list (gostring * field) :=
  map (λ nf, (map lower_byte (fst nf), snd nf)) names.

Lemma first_name_text names :
  first_name buf names s
  = Ret (match assoc_str (map lower_byte (span_text buf s)) (lower_names names) with
         | Some f => f | None => fieldInvalid end).
Proof using Hs.
  induction names as [|[n f] names IH]; cbn [first_name lower_names map assoc_str fst snd]; [done|].
  rewrite isCaselessSame_text. cbn [mbind outcome_bind]. destruct (_ =?s _); [done|exact IH].
Qed.
End Names.

(** The keys the reader knows, as names of highlighter fields. *)
Lemma assoc_str_None {V} key (l : list (gostring * V)) :
  assoc_str key l = None ↔ key ∉ map fst l.
Proof.
  induction l as [|[k v] l IH]; cbn; [set_solver|]. destruct (str_eqb_spec key k) as [->|]; set_solver.
Qed.

Definition in_section (w : gostring) (sec : field) : bool :=
  match assoc_str w (lower_names field_names) with
  | Some f => bool_decide (sectionForField f = sec)
  | None => false
  end.

Definition known {V} (w : gostring) (l : list (gostring * V)) : bool :=
  match assoc_str w l with Some _ => true | None => false end.

Lemma known_names w :
  known w iface_keys = in_section w fieldInterfaceSection ∧ known w peer_keys = in_section w fieldPeerSection.
Proof.
  set (ks := map fst (lower_names field_names) ++ map fst iface_keys ++ map fst peer_keys).
  destruct (decide (w ∈ ks)) as [Hin|Hout].
  - assert (forallb (λ w, Bool.eqb (known w iface_keys) (in_section w fieldInterfaceSection)
              && Bool.eqb (known w peer_keys) (in_section w fieldPeerSection)) ks = true) as H
      by (vm_compute; reflexivity).
    rewrite forallb_forall in H. apply list_elem_of_In in Hin. apply H in Hin.
    apply andb_true_iff in Hin as [H1 H2]. split; by apply Bool.eqb_prop.
  - unfold ks in Hout. rewrite !elem_of_app in Hout.
    unfold known, in_section. rewrite !(proj2 (assoc_str_None _ _)) by tauto. done.
Qed.

(** The editor colours a key as a field of the current section exactly when
    the reader accepts that key in that section (letter case aside). *)
Theorem field_names_agree buf s f :
  inside buf s → field_of buf s = Ret f →
  (sectionForField f = fieldInterfaceSection ↔
   is_Some (assoc_str (map lower_byte (span_text buf s)) iface_keys)) ∧
  (sectionForField f = fieldPeerSection ↔
   is_Some (assoc_str (map lower_byte (span_text buf s)) peer_keys)).
Proof.
  intros Hs. unfold field_of. rewrite first_name_text by done. generalize (map lower_byte (span_text buf s)).
  intros w Hf. assert (f = match assoc_str w (lower_names field_names) with
                            | Some f => f | None => fieldInvalid end) as -> by congruence.
  clear Hf. destruct (known_names w) as [H1 H2]. unfold known, in_section in *.
  destruct (assoc_str w (lower_names field_names)) as [f|].
  - assert (∀ {V} (o : option V), (match o with Some _ => true | None => false end) = true ↔ is_Some o) as Hk.
    { intros V [v|]; split; try done; by intros [? [=]]. }
    rewrite <- (bool_decide_eq_true (sectionForField f = fieldInterfaceSection)).
    rewrite <- (bool_decide_eq_true (sectionForField f = fieldPeerSection)).
    by rewrite <- H1, <- H2, !Hk.
  - destruct (assoc_str w iface_keys); [done|]. destruct (assoc_str w peer_keys); [done|].
    split; (split; [done|by intros [? ?]]).
Qed.

Lemma field_names_agree_witness : is_Some (assoc_str (map lower_byte "PrivateKey") iface_keys).
Proof.
  apply (field_names_agree ("PrivateKey" ++ [x00]) (mkStr 0 10) fieldPrivateKey); [unfold inside; cbn; lia|..];
    vm_compute; reflexivity.
Defined.

(** ** Two checks that do not do what they are for *)

(** The scope check refuses the letters it is meant to allow: an endpoint
    with an interface scope such as [eth0], which the reader accepts, is shown
    as an error, while a scope of exclamation marks is shown as valid. *)
Theorem isValidScope_inverted {RT : GoRuntime} :
  isValidEndpoint ("[fe80::1%eth0]:80" ++ [x00]) (mkStr 0 17) = Ret false ∧
  is_ret (parseEndpoint "[fe80::1%eth0]:80") = true ∧
  isValidEndpoint ("[fe80::1%!!!!]:80" ++ [x00]) (mkStr 0 17) = Ret true.
Proof. vm_compute. split_and!; reflexivity. Qed.

(** The test for two dots in a row in a host name is never reached: the
    branch for a dot comes first, so such a name is shown as valid. *)
Theorem isValidHostname_double_dot :
  isValidHostname ("a..b" ++ [x00]) (mkStr 0 4) = Ret true.
Proof. vm_compute. reflexivity. Qed.
