(* ===== verification/Wfp.v ===== *)
(** * The Windows Filtering Platform as the firewall package sees it

    - the data: the structures and GUID constants of
      [core/tunnel/firewall/types_windows.go] and [types_windows_64.go];
    - [Class Windows]: the system calls the package makes, as parameters; what
      they return is a status, the thread's last error and an output value;
    - the call wrappers of [zsyscall_windows.go] and [guardCall];
    - [Class WindowsLaws]: the documented effect of those calls on the set of
      installed filters ([wfp_view]);
    - the documented arbitration inside a sublayer ([sublayer_decision]). *)
From S2P Require Import Prelude GoStrings GoNet.

Open Scope Z_scope.

(** ** Data *)

Record GUID := { Data1 : Z; Data2 : Z; Data3 : Z; Data4 : list Z }.

#[export] Instance GUID_eq_dec : EqDecision GUID.
Proof. solve_decision. Defined.

Fixpoint zs_eqb (l k : list Z) : bool :=
  match l, k with
  | [], [] => true
  | a :: l, b :: k => (a =? b) && zs_eqb l k
  | _, _ => false
  end.

Definition guid_eqb (a b : GUID) : bool :=
  (Data1 a =? Data1 b) && (Data2 a =? Data2 b) && (Data3 a =? Data3 b) && zs_eqb (Data4 a) (Data4 b).

Definition zero_GUID : GUID :=
  {| Data1 := 0; Data2 := 0; Data3 := 0; Data4 := [0; 0; 0; 0; 0; 0; 0; 0] |}.

Definition cFWPM_CONDITION_IP_LOCAL_INTERFACE : GUID :=
  {| Data1 := 0x4cd62a49; Data2 := 0x59c3; Data3 := 0x4969;
     Data4 := [0xb7; 0xf3; 0xbd; 0xa5; 0xd3; 0x28; 0x90; 0xa4] |}.
Definition cFWPM_CONDITION_IP_REMOTE_ADDRESS : GUID :=
  {| Data1 := 0xb235ae9a; Data2 := 0x1d64; Data3 := 0x49b8;
     Data4 := [0xa4; 0x4c; 0x5f; 0xf3; 0xd9; 0x09; 0x50; 0x45] |}.
Definition cFWPM_CONDITION_IP_PROTOCOL : GUID :=
  {| Data1 := 0x3971ef2b; Data2 := 0x623e; Data3 := 0x4f9a;
     Data4 := [0x8c; 0xb1; 0x6e; 0x79; 0xb8; 0x06; 0xb9; 0xa7] |}.
Definition cFWPM_CONDITION_IP_LOCAL_PORT : GUID :=
  {| Data1 := 0x0c1ba1af; Data2 := 0x5765; Data3 := 0x453f;
     Data4 := [0xaf; 0x22; 0xa8; 0xf7; 0x91; 0xac; 0x77; 0x5b] |}.
Definition cFWPM_CONDITION_IP_REMOTE_PORT : GUID :=
  {| Data1 := 0xc35a604d; Data2 := 0xd22b; Data3 := 0x4e1a;
     Data4 := [0x91; 0xb4; 0x68; 0xf6; 0x74; 0xee; 0x67; 0x4b] |}.
Definition cFWPM_CONDITION_ALE_APP_ID : GUID :=
  {| Data1 := 0xd78e1e87; Data2 := 0x8644; Data3 := 0x4ea5;
     Data4 := [0x94; 0x37; 0xd8; 0x09; 0xec; 0xef; 0xc9; 0x71] |}.
Definition cFWPM_CONDITION_ALE_USER_ID : GUID :=
  {| Data1 := 0xaf043a0a; Data2 := 0xb34d; Data3 := 0x4f86;
     Data4 := [0x97; 0x9c; 0xc9; 0x03; 0x71; 0xaf; 0x6e; 0x66] |}.
Definition cFWPM_CONDITION_IP_LOCAL_ADDRESS : GUID :=
  {| Data1 := 0xd9ee00de; Data2 := 0xc1ef; Data3 := 0x4617;
     Data4 := [0xbf; 0xe3; 0xff; 0xd8; 0xf5; 0xa0; 0x89; 0x57] |}.
Definition cFWPM_CONDITION_ICMP_TYPE : GUID := cFWPM_CONDITION_IP_LOCAL_PORT.
Definition cFWPM_CONDITION_ICMP_CODE : GUID := cFWPM_CONDITION_IP_REMOTE_PORT.
Definition cFWPM_CONDITION_L2_FLAGS : GUID :=
  {| Data1 := 0x7bc43cbf; Data2 := 0x37ba; Data3 := 0x45f1;
     Data4 := [0xb7; 0x4a; 0x82; 0xff; 0x51; 0x8e; 0xeb; 0x10] |}.
Definition cFWP_CONDITION_L2_IS_VM2VM : Z := 0x00000010.
Definition cFWPM_CONDITION_FLAGS : GUID :=
  {| Data1 := 0x632ce23b; Data2 := 0x5167; Data3 := 0x435c;
     Data4 := [0x86; 0xd7; 0xe9; 0x03; 0x68; 0x4a; 0xa8; 0x0c] |}.
Definition cFWP_CONDITION_FLAG_IS_LOOPBACK : Z := 0x00000001.

Definition cFWPM_FILTER_FLAG_PERSISTENT : Z := 0x00000001.
Definition cFWPM_FILTER_FLAG_CLEAR_ACTION_RIGHT : Z := 0x00000008.

Definition cFWPM_LAYER_ALE_AUTH_CONNECT_V4 : GUID :=
  {| Data1 := 0xc38d57d1; Data2 := 0x05a7; Data3 := 0x4c33;
     Data4 := [0x90; 0x4f; 0x7f; 0xbc; 0xee; 0xe6; 0x0e; 0x82] |}.
Definition cFWPM_LAYER_ALE_AUTH_RECV_ACCEPT_V4 : GUID :=
  {| Data1 := 0xe1cd9fe7; Data2 := 0xf4b5; Data3 := 0x4273;
     Data4 := [0x96; 0xc0; 0x59; 0x2e; 0x48; 0x7b; 0x86; 0x50] |}.
Definition cFWPM_LAYER_ALE_AUTH_CONNECT_V6 : GUID :=
  {| Data1 := 0x4a72393b; Data2 := 0x319f; Data3 := 0x44bc;
     Data4 := [0x84; 0xc3; 0xba; 0x54; 0xdc; 0xb3; 0xb6; 0xb4] |}.
Definition cFWPM_LAYER_ALE_AUTH_RECV_ACCEPT_V6 : GUID :=
  {| Data1 := 0xa3b42c97; Data2 := 0x9f04; Data3 := 0x4672;
     Data4 := [0xb8; 0x7e; 0xce; 0xe9; 0xc4; 0x83; 0x25; 0x7f] |}.
Definition cFWPM_LAYER_OUTBOUND_MAC_FRAME_NATIVE : GUID :=
  {| Data1 := 0x94c44912; Data2 := 0x9d6f; Data3 := 0x4ebf;
     Data4 := [0xb9; 0x95; 0x05; 0xab; 0x8a; 0x08; 0x8d; 0x1b] |}.
Definition cFWPM_LAYER_INBOUND_MAC_FRAME_NATIVE : GUID :=
  {| Data1 := 0xd4220bd3; Data2 := 0x62ce; Data3 := 0x4f08;
     Data4 := [0xae; 0x88; 0xb5; 0x6e; 0x85; 0x26; 0xdf; 0x50] |}.

Definition cIPPROTO_ICMPV6 : Z := 58.
Definition cIPPROTO_TCP : Z := 6.
Definition cIPPROTO_UDP : Z := 17.
Definition cFWP_ACTRL_MATCH_FILTER : Z := 1.
Definition cFWPM_SESSION_FLAG_DYNAMIC : Z := 0x00000001.
Definition cFWPM_SUBLAYER_FLAG_PERSISTENT : Z := 0x00000001.
(** [windows.INFINITE] *)
Definition INFINITE : Z := 0xffffffff.

(** The two actions and the two match types the package uses. *)
Inductive wtFwpActionType := cFWP_ACTION_BLOCK | cFWP_ACTION_PERMIT.
Inductive wtFwpMatchType := cFWP_MATCH_EQUAL | cFWP_MATCH_FLAGS_ALL_SET.

(** A [wtFwpConditionValue0]: the type tag and what its word is or points to. *)
Inductive wtFwpConditionValue0 :=
| cFWP_UINT8 (v : Z)
| cFWP_UINT16 (v : Z)
| cFWP_UINT32 (v : Z)
| cFWP_UINT64 (v : Z)
| cFWP_BYTE_ARRAY16_TYPE (a : list byte)
| cFWP_BYTE_BLOB_TYPE (b : list byte)
| cFWP_SECURITY_DESCRIPTOR_TYPE (sd : list byte)
| cFWP_V6_ADDR_MASK (addr : list byte) (prefixLength : Z).

Record wtFwpmFilterCondition0 := {
  fieldKey : GUID;
  matchType : wtFwpMatchType;
  conditionValue : wtFwpConditionValue0;
}.

(** [name], [description]: NUL-terminated UTF-16. *)
Record wtFwpmDisplayData0 := { name : list Z; description : list Z }.

Definition zero_display : wtFwpmDisplayData0 := {| name := []; description := [] |}.

(** [wtFwpmFilter0], less the fields the package never sets. [filterCondition]
    is the array behind the pointer, of which the engine reads the first
    [numFilterConditions] elements. *)
Record wtFwpmFilter0 := {
  filterKey : GUID;
  displayData : wtFwpmDisplayData0;
  flags : Z;
  providerKey : option GUID;
  layerKey : GUID;
  subLayerKey : GUID;
  weight : wtFwpConditionValue0;
  numFilterConditions : Z;
  filterCondition : list wtFwpmFilterCondition0;
  action : wtFwpActionType;
}.

Definition eta_filter (f : wtFwpmFilter0) : wtFwpmFilter0 :=
  Build_wtFwpmFilter0 (filterKey f) (displayData f) (flags f) (providerKey f) (layerKey f)
    (subLayerKey f) (weight f) (numFilterConditions f) (filterCondition f) (action f).
#[export] Instance set_filterKey : Setter filterKey := ltac:(derive_setter eta_filter filterKey).
#[export] Instance set_displayData : Setter displayData := ltac:(derive_setter eta_filter displayData).
#[export] Instance set_flags : Setter flags := ltac:(derive_setter eta_filter flags).
#[export] Instance set_layerKey : Setter layerKey := ltac:(derive_setter eta_filter layerKey).
#[export] Instance set_numFilterConditions : Setter numFilterConditions := ltac:(derive_setter eta_filter numFilterConditions).
#[export] Instance set_filterCondition : Setter filterCondition := ltac:(derive_setter eta_filter filterCondition).

Record wtFwpmSession0 := {
  session_displayData : wtFwpmDisplayData0;
  session_flags : Z;
  txnWaitTimeoutInMSec : Z;
}.

Record wtFwpmProvider0 := {
  provider_providerKey : GUID;
  provider_displayData : wtFwpmDisplayData0;
  provider_flags : Z;
}.

Record wtFwpmSublayer0 := {
  sublayer_subLayerKey : GUID;
  sublayer_displayData : wtFwpmDisplayData0;
  sublayer_flags : Z;
  sublayer_providerKey : option GUID;
  sublayer_weight : Z;
}.

(** What the [golang.org/x/sys/windows] accessors report of a SID and of a token group. *)
Record SID := {
  sid_bytes : list byte;
  IsValid : bool;
  IdentifierAuthority : list Z;
  SubAuthorities : list Z;
}.

Record SIDAndAttributes := { group_Sid : SID; group_Attributes : Z }.

Record EXPLICIT_ACCESS := { AccessPermissions : Z; GrantAccess : bool; TrusteeValue : SID }.

(** ** System calls *)

(** A raw call returns its result register, [GetLastError()] and an output. *)
Record sysret (A : Type) := { r1 : Z; e1 : Z; out : A }.
Arguments r1 {A} _.
Arguments e1 {A} _.
Arguments out {A} _.

(** [error] values of the package: an errno, an errno wrapped with the position
    it was seen at, and the other errors. *)
Inductive fwerror :=
| Errno (n : Z)
| FirewallError (n : Z)
| OtherError (msg : gostring).

(** One page of an enumeration: the entries (absent for a nil pointer) and the count. *)
Definition page : Type := option (list (option wtFwpmFilter0)) * Z.

Class Windows (W : Type) := {
  (* fwpuclnt.dll *)
  FwpmEngineOpen0 : wtFwpmSession0 → W → W * sysret Z;
  FwpmEngineClose0 : Z → W → W * sysret unit;
  FwpmProviderAdd0 : Z → wtFwpmProvider0 → W → W * sysret unit;
  FwpmSubLayerAdd0 : Z → wtFwpmSublayer0 → W → W * sysret unit;
  FwpmFilterAdd0 : Z → wtFwpmFilter0 → W → W * sysret unit;
  FwpmTransactionBegin0 : Z → W → W * sysret unit;
  FwpmTransactionCommit0 : Z → W → W * sysret unit;
  FwpmTransactionAbort0 : Z → W → W * sysret unit;
  FwpmFilterCreateEnumHandle0 : Z → W → W * sysret Z;
  FwpmFilterEnum0 : Z → Z → Z → W → W * sysret page;
  FwpmFilterDestroyEnumHandle0 : Z → Z → W → W * sysret unit;
  FwpmFilterDeleteByKey0 : Z → GUID → W → W * sysret unit;
  FwpmGetAppIdFromFileName0 : list Z → sysret (list byte);
  (* golang.org/x/sys/windows *)
  GenerateGUID : W → W * (fwerror + GUID);
  UTF16PtrFromString : gostring → fwerror + list Z;
  SecurityDescriptorFromString : gostring → fwerror + list byte;
  OpenProcessToken : fwerror + Z;
  GetTokenGroups : Z → fwerror + list SIDAndAttributes;
  ACLFromEntries : list EXPLICIT_ACCESS → fwerror + list byte;
  NewSecurityDescriptor : fwerror + list byte;
  SetDACL : list byte → list byte → bool → bool → fwerror + list byte;
  ToSelfRelative : list byte → fwerror + list byte;
  RtlGetNtVersionNumbers : Z * Z * Z;
  (* os, syscall *)
  EINVAL : Z;
  os_Executable : fwerror + gostring;
}.

(** ** Effects

    A call changes the world and returns, fails, or (for the one loop whose
    length the system decides) has used up its fuel. *)
Inductive result (A : Type) := Done (a : A) | Failed (e : fwerror) | Diverged.
Arguments Done {A} _.
Arguments Failed {A} _.
Arguments Diverged {A}.

Definition M (W A : Type) : Type := W → W * result A.

Definition ret {W A} (a : A) : M W A := λ w, (w, Done a).
Definition throw {W A} (e : fwerror) : M W A := λ w, (w, Failed e).
Definition bind {W A B} (m : M W A) (k : A → M W B) : M W B := λ w,
  match m w with
  | (w, Done a) => k a w
  | (w, Failed e) => (w, Failed e)
  | (w, Diverged) => (w, Diverged)
  end.
Definition lift {W A} (r : fwerror + A) : M W A :=
  match r with inl e => throw e | inr a => ret a end.

Declare Scope fw_scope.
Delimit Scope fw_scope with fw.
Notation "'let!' x := m 'in' k" := (bind m (λ x, k))
  (at level 10, x binder, m at level 100, k at level 200) : fw_scope.
Notation "m ;; k" := (bind m (λ _, k)) (at level 100, right associativity) : fw_scope.
Open Scope fw_scope.

(** [catch m h]: [h] sees the error of [m]. *)
Definition catch {W A} (m : M W A) (h : fwerror → M W A) : M W A := λ w,
  match m w with
  | (w, Failed e) => h e w
  | r => r
  end.

(** A call whose error is dropped, and a deferred call. *)
Definition ignore {W A} (m : M W A) : M W unit := λ w, ((m w).1, Done tt).
Definition defer {W A B} (d : M W B) (m : M W A) : M W A := λ w,
  let (w, r) := m w in ((d w).1, r).

(** ** Call wrappers *)

Definition errnoErr {W} `{Windows W} (e : Z) : fwerror :=
  if e =? 0 then Errno EINVAL else Errno e.

(** The wrappers of zsyscall_windows.go: a nonzero result is an error, and the
    error is the thread's last error. *)
Definition zsyscall {W A} `{Windows W} (call : W → W * sysret A) : M W A := λ w,
  let (w, r) := call w in
  (w, if r1 r =? 0 then Done (out r) else Failed (errnoErr (e1 r))).

(** [guardCall]: a nonzero result is the error. *)
Definition guardCall {W A} (call : W → W * sysret A) : M W A := λ w,
  let (w, r) := call w in
  (w, if r1 r =? 0 then Done (out r) else Failed (Errno (r1 r))).

(** ** Documented effect of the calls

    [wfp_view]: the installed filters, oldest first; the open transaction, with
    the filters it started from; the dynamic sessions; the enumerations in
    progress, with what each has still to deliver. *)
Record installed := {
  owner : option Z;       (* the dynamic session that added it *)
  item : wtFwpmFilter0;   (* with the key the engine gave it *)
}.

Record wfp_view := {
  filters : list installed;
  transaction : option (Z * list installed);
  dynamic : list Z;
  enumerations : gmap Z (list wtFwpmFilter0);
}.

Definition eta_view (v : wfp_view) : wfp_view :=
  Build_wfp_view (filters v) (transaction v) (dynamic v) (enumerations v).
#[export] Instance set_filters : Setter filters := ltac:(derive_setter eta_view filters).
#[export] Instance set_transaction : Setter transaction := ltac:(derive_setter eta_view transaction).
#[export] Instance set_dynamic : Setter dynamic := ltac:(derive_setter eta_view dynamic).
#[export] Instance set_enumerations : Setter enumerations := ltac:(derive_setter eta_view enumerations).

Definition owner_of (v : wfp_view) (session : Z) : option Z :=
  if bool_decide (session ∈ dynamic v) then Some session else None.

(** The end of a session: its transaction is aborted and, if it is dynamic,
    what it added is deleted. *)
Definition close_session (h : Z) (v : wfp_view) : wfp_view :=
  let v := match transaction v with
           | Some (h', fs) => if h' =? h then v <| filters := fs |> <| transaction := None |> else v
           | None => v
           end in
  v <| filters := filter (λ i, owner i ≠ Some h) (filters v) |>
    <| dynamic := filter (λ h', h' ≠ h) (dynamic v) |>.

Definition FWP_E_ALREADY_EXISTS : Z := 0x80320009.

Class WindowsLaws (W : Type) `{Windows W} (view : W → wfp_view) : Prop := {
  EINVAL_application : 0x20000000 <= EINVAL < 0x30000000;
  (* a call that fails has no effect *)
  open_fails s w w' r : FwpmEngineOpen0 s w = (w', r) → r1 r ≠ 0 → view w' = view w;
  provider_view h p w w' r : FwpmProviderAdd0 h p w = (w', r) → view w' = view w;
  sublayer_view h s w w' r : FwpmSubLayerAdd0 h s w = (w', r) → view w' = view w;
  add_fails h f w w' r : FwpmFilterAdd0 h f w = (w', r) → r1 r ≠ 0 → view w' = view w;
  begin_fails h w w' r : FwpmTransactionBegin0 h w = (w', r) → r1 r ≠ 0 → view w' = view w;
  commit_fails h w w' r : FwpmTransactionCommit0 h w = (w', r) → r1 r ≠ 0 → view w' = view w;
  delete_fails h k w w' r : FwpmFilterDeleteByKey0 h k w = (w', r) → r1 r ≠ 0 → view w' = view w;
  guid_view w w' r : GenerateGUID w = (w', r) → view w' = view w;
  (* a new session has a nonzero handle that no session uses *)
  open_ok s w w' r : FwpmEngineOpen0 s w = (w', r) → r1 r = 0 →
    out r ≠ 0 ∧ ¬ (out r ∈ dynamic (view w))
    ∧ Forall (λ i, owner i ≠ Some (out r)) (filters (view w))
    ∧ (∀ fs, transaction (view w) ≠ Some (out r, fs))
    ∧ view w' = view w <| dynamic :=
        (if Z.testbit (session_flags s) 0 then [out r] else []) ++ dynamic (view w) |>;
  close_ok h w w' r : FwpmEngineClose0 h w = (w', r) →
    r1 r = 0 ∧ view w' = close_session h (view w);
  (* a sublayer that can be added has no filters yet *)
  sublayer_ok h s w w' r : FwpmSubLayerAdd0 h s w = (w', r) → r1 r = 0 →
    Forall (λ i, subLayerKey (item i) ≠ sublayer_subLayerKey s) (filters (view w));
  add_ok h f w w' r : FwpmFilterAdd0 h f w = (w', r) → r1 r = 0 →
    ∃ key, Forall (λ i, filterKey (item i) ≠ key) (filters (view w))
      ∧ view w' = view w <| filters := filters (view w) ++
          [{| owner := owner_of (view w) h; item := f <| filterKey := key |> |}] |>;
  (* one transaction at a time; abort goes back to its start *)
  begin_ok h w w' r : FwpmTransactionBegin0 h w = (w', r) → r1 r = 0 →
    view w' = view w <| transaction := Some (h, filters (view w)) |>;
  commit_ok h w w' r : FwpmTransactionCommit0 h w = (w', r) → r1 r = 0 →
    view w' = view w <| transaction := None |>;
  abort_ok h w w' r fs : FwpmTransactionAbort0 h w = (w', r) → transaction (view w) = Some (h, fs) →
    r1 r = 0 ∧ view w' = view w <| filters := fs |> <| transaction := None |>;
  (* an enumeration delivers the filters of its start, page by page *)
  create_enum_view h w w' r : FwpmFilterCreateEnumHandle0 h w = (w', r) →
    view w' = if r1 r =? 0
              then view w <| enumerations := <[out r := map item (filters (view w))]> (enumerations (view w)) |>
              else view w;
  enum_fails h e n w w' r : FwpmFilterEnum0 h e n w = (w', r) → r1 r ≠ 0 → view w' = view w;
  enum_ok h e n w w' r l : FwpmFilterEnum0 h e n w = (w', r) → r1 r = 0 →
    enumerations (view w) !! e = Some l → 0 <= n →
    let entries := take (Z.to_nat n) l in
    (out r).2 = Z.of_nat (length entries)
    ∧ (out r).1 = (if (length entries =? 0)%nat then None else Some (map Some entries))
    ∧ view w' = view w <| enumerations := <[e := drop (Z.to_nat n) l]> (enumerations (view w)) |>;
  destroy_enum_view h e w w' r : FwpmFilterDestroyEnumHandle0 h e w = (w', r) →
    filters (view w') = filters (view w) ∧ transaction (view w') = transaction (view w)
    ∧ dynamic (view w') = dynamic (view w);
  delete_ok h k w w' r : FwpmFilterDeleteByKey0 h k w = (w', r) → r1 r = 0 →
    view w' = view w <| filters := filter (λ i, filterKey (item i) ≠ k) (filters (view w)) |>;
}.

(** ** Arbitration inside a sublayer

    What a connection request or accepted connection shows at a layer. For
    ICMP the local port is the type and the remote port the code.
    [pk_access sd]: the access check of its token against [sd] succeeds. *)
Record packet := {
  pk_protocol : Z;
  pk_local_port : Z;
  pk_remote_port : Z;
  pk_local_address : list byte;
  pk_remote_address : list byte;
  pk_interface : Z;
  pk_app_id : list byte;
  pk_access : list byte → bool;
  pk_flags : Z;
  pk_l2_flags : Z;
}.

(** A byte array as a big-endian number; an IPv4 address is compared as a UINT32. *)
Definition be (l : list byte) : Z := foldl (λ acc b, acc * 256 + bz b) 0 l.

Definition addr_value_matches (v : wtFwpConditionValue0) (addr : list byte) : bool :=
  match v with
  | cFWP_UINT32 n => (length addr =? 4)%nat && (be addr =? n)
  | cFWP_BYTE_ARRAY16_TYPE a => addr =?s a
  | cFWP_V6_ADDR_MASK a n =>
      (length addr =? 16)%nat && (Z.shiftr (be addr) (128 - n) =? Z.shiftr (be a) (128 - n))
  | _ => false
  end.

Definition condition_holds (c : wtFwpmFilterCondition0) (p : packet) : bool :=
  let k := fieldKey c in
  match matchType c, conditionValue c with
  | cFWP_MATCH_FLAGS_ALL_SET, cFWP_UINT32 v =>
      guid_eqb k cFWPM_CONDITION_FLAGS && (Z.land (pk_flags p) v =? v)
  | cFWP_MATCH_FLAGS_ALL_SET, _ => false
  | cFWP_MATCH_EQUAL, v =>
      if guid_eqb k cFWPM_CONDITION_IP_REMOTE_ADDRESS then addr_value_matches v (pk_remote_address p)
      else if guid_eqb k cFWPM_CONDITION_IP_LOCAL_ADDRESS then addr_value_matches v (pk_local_address p)
      else match v with
      | cFWP_UINT8 n => guid_eqb k cFWPM_CONDITION_IP_PROTOCOL && (pk_protocol p =? n)
      | cFWP_UINT16 n =>
          (guid_eqb k cFWPM_CONDITION_IP_LOCAL_PORT && (pk_local_port p =? n))
          || (guid_eqb k cFWPM_CONDITION_IP_REMOTE_PORT && (pk_remote_port p =? n))
      | cFWP_UINT32 n => guid_eqb k cFWPM_CONDITION_L2_FLAGS && (pk_l2_flags p =? n)
      | cFWP_UINT64 n => guid_eqb k cFWPM_CONDITION_IP_LOCAL_INTERFACE && (pk_interface p =? n)
      | cFWP_BYTE_BLOB_TYPE b => guid_eqb k cFWPM_CONDITION_ALE_APP_ID && (pk_app_id p =?s b)
      | cFWP_SECURITY_DESCRIPTOR_TYPE sd => guid_eqb k cFWPM_CONDITION_ALE_USER_ID && pk_access p sd
      | _ => false
      end
  end.

(** Conditions on one field are alternatives; every field must be satisfied. *)
Definition conditions_hold (cs : list wtFwpmFilterCondition0) (p : packet) : bool :=
  forallb (λ c, existsb (λ c', guid_eqb (fieldKey c') (fieldKey c) && condition_holds c' p) cs) cs.

Definition conditions_of (f : wtFwpmFilter0) : list wtFwpmFilterCondition0 :=
  take (Z.to_nat (numFilterConditions f)) (filterCondition f).

Definition matches (layer : GUID) (p : packet) (f : wtFwpmFilter0) : bool :=
  guid_eqb (layerKey f) layer && conditions_hold (conditions_of f) p.

Definition weight_of (f : wtFwpmFilter0) : Z := match weight f with cFWP_UINT8 n => n | _ => 0 end.

(** The sublayer decides [a] when a matching filter of greatest weight says so. *)
Definition sublayer_decision (fs : list wtFwpmFilter0) (sub layer : GUID) (p : packet)
    (a : wtFwpActionType) : Prop :=
  ∃ f, f ∈ fs ∧ subLayerKey f = sub ∧ matches layer p f = true ∧ action f = a
    ∧ ∀ g, g ∈ fs → subLayerKey g = sub → matches layer p g = true → weight_of g <= weight_of f.
