(* ===== verification/Firewall.v ===== *)
(** * The firewall package: kill switch and preview guard

    [core/tunnel/firewall]: helpers.go, rules.go, blocker.go, preview_guard.go.
    Every function is a computation of the monad [M] of [Wfp] over a world [W]
    with the system calls of [Class Windows]. A filter that the code reuses for
    several layers is threaded through the calls, because [guardFilterAdd]
    updates its flags. Buffers handed out by the system are freed by the code;
    freeing has no counterpart here. *)
From S2P Require Import Prelude GoStrings GoNet Wfp.

Open Scope Z_scope.

Section Firewall.
Context {W : Type} `{Windows W}.

(** ** helpers.go *)

(** Errnos get the position they were seen at (the position itself is left out). *)
Definition wrapErr (e : fwerror) : fwerror :=
  match e with Errno n => FirewallError n | e => e end.

(** [if err != nil { return wrapErr(err) }] *)
Definition wrapped {A} (m : M W A) : M W A := catch m (λ e, throw (wrapErr e)).

Definition runTransaction (session : Z) (operation : Z → M W unit) : M W unit :=
  wrapped (zsyscall (FwpmTransactionBegin0 session)) ;;
  catch (operation session)
    (λ e, ignore (zsyscall (FwpmTransactionAbort0 session)) ;; throw (wrapErr e)) ;;
  catch (zsyscall (FwpmTransactionCommit0 session))
    (λ e, ignore (zsyscall (FwpmTransactionAbort0 session)) ;; throw (wrapErr e)).

Definition createWtFwpmDisplayData0 (nm desc : gostring) : M W wtFwpmDisplayData0 :=
  let! namePtr := wrapped (lift (UTF16PtrFromString nm)) in
  let! descriptionPtr := wrapped (lift (UTF16PtrFromString desc)) in
  ret {| name := namePtr; description := descriptionPtr |}.

Definition filterWeight (w : Z) : wtFwpConditionValue0 := cFWP_UINT8 w.

(** [windows.SE_GROUP_ENABLED|SE_GROUP_ENABLED_BY_DEFAULT|SE_GROUP_OWNER] *)
Definition service_group_attributes : Z := Z.lor (Z.lor 4 2) 8.

(** The service SID among the groups of a token. *)
Fixpoint service_sid (gs : list SIDAndAttributes) : option SID :=
  match gs with
  | [] => None
  | g :: gs =>
      let sid := group_Sid g in
      if negb (group_Attributes g =? service_group_attributes) then service_sid gs
      else if negb (IsValid sid) || negb (zs_eqb (IdentifierAuthority sid) [0; 0; 0; 0; 0; 5])
              || (length (SubAuthorities sid) <? 6)%nat
              || negb (nth 0 (SubAuthorities sid) 0 =? 80) then service_sid gs
      else Some sid
  end.

(** [windows.ERROR_NO_SUCH_GROUP] *)
Definition ERROR_NO_SUCH_GROUP : Z := 1319.

Definition getCurrentProcessSecurityDescriptor : M W (list byte) :=
  let! processToken := wrapped (lift OpenProcessToken) in
  let! gs := wrapped (lift (GetTokenGroups processToken)) in
  match service_sid gs with
  | None => throw (wrapErr (Errno ERROR_NO_SUCH_GROUP))
  | Some sid =>
      let access := [{| AccessPermissions := cFWP_ACTRL_MATCH_FILTER; GrantAccess := true;
                        TrusteeValue := sid |}] in
      let! dacl := wrapped (lift (ACLFromEntries access)) in
      let! sd := wrapped (lift NewSecurityDescriptor) in
      let! sd := wrapped (lift (SetDACL sd dacl true false)) in
      wrapped (lift (ToSelfRelative sd))
  end.

Definition getAppId (file : list Z) : M W (list byte) :=
  zsyscall (λ w, (w, FwpmGetAppIdFromFileName0 file)).

Definition getCurrentProcessAppID : M W (list byte) :=
  let! currentFile := wrapped (lift os_Executable) in
  let! curFilePtr := wrapped (lift (UTF16PtrFromString currentFile)) in
  wrapped (getAppId curFilePtr).

(** ** preview_guard.go, ownership *)

Definition previewGuardProvider : GUID :=
  {| Data1 := 0x358f11b2; Data2 := 0x2c6e; Data3 := 0x4dad;
     Data4 := [0x98; 0x63; 0xd4; 0xd9; 0x2e; 0x59; 0xca; 0x40] |}.
Definition previewGuardSublayer : GUID :=
  {| Data1 := 0x9b3a2aa9; Data2 := 0x058b; Data3 := 0x46bd;
     Data4 := [0x88; 0x03; 0x0b; 0x92; 0x64; 0x0b; 0x75; 0x36] |}.

Definition guardOwned (f : option wtFwpmFilter0) : bool :=
  match f with
  | None => false
  | Some f =>
      match providerKey f with
      | None => false
      | Some k => guid_eqb k previewGuardProvider && guid_eqb (subLayerKey f) previewGuardSublayer
      end
  end.

(** The flags [guardFilterAdd] leaves in its argument. *)
Definition guarded (f : wtFwpmFilter0) : wtFwpmFilter0 :=
  if guardOwned (Some f) then
    let persistent :=
      fold_left (λ persistent c,
        if guid_eqb (fieldKey c) cFWPM_CONDITION_IP_LOCAL_INTERFACE then false else persistent)
        (conditions_of f) true in
    if persistent then f <| flags := Z.lor (flags f) cFWPM_FILTER_FLAG_PERSISTENT |> else f
  else f.

Definition guardFilterAdd (session : Z) (f : wtFwpmFilter0) : M W wtFwpmFilter0 :=
  let f := guarded f in
  zsyscall (FwpmFilterAdd0 session f) ;; ret f.

(** ** rules.go *)

(** The block the rules repeat for each layer: display data, layer, add. *)
Definition add_on (session : Z) (f : wtFwpmFilter0) (title : gostring) (layer : GUID)
    : M W wtFwpmFilter0 :=
  let! dd := wrapped (createWtFwpmDisplayData0 title "") in
  wrapped (guardFilterAdd session (f <| displayData := dd |> <| layerKey := layer |>)).

Record baseObjects := { provider : GUID; sublayer : GUID }.

(** The fields every filter literal of rules.go sets; the rest are zero. *)
Definition filter_literal (bo : baseObjects) (fl : Z) (layer : GUID) (w : Z)
    (cs : list wtFwpmFilterCondition0) (a : wtFwpActionType) : wtFwpmFilter0 := {|
  filterKey := zero_GUID; displayData := zero_display; flags := fl;
  providerKey := Some (provider bo); layerKey := layer; subLayerKey := sublayer bo;
  weight := filterWeight w; numFilterConditions := Z.of_nat (length cs);
  filterCondition := cs; action := a |}.

Definition equal (key : GUID) (v : wtFwpConditionValue0) : wtFwpmFilterCondition0 :=
  {| fieldKey := key; matchType := cFWP_MATCH_EQUAL; conditionValue := v |}.

Definition zeros (n : nat) : list byte := replicate n x00.
Definition linkLocal : wtFwpConditionValue0 := cFWP_V6_ADDR_MASK (xfe :: x80 :: zeros 14) 10.
Definition linkLocalDHCPMulticast : wtFwpConditionValue0 :=
  cFWP_BYTE_ARRAY16_TYPE ([xff; x02] ++ zeros 11 ++ [x01; x00; x02]).
Definition siteLocalDHCPMulticast : wtFwpConditionValue0 :=
  cFWP_BYTE_ARRAY16_TYPE ([xff; x05] ++ zeros 11 ++ [x01; x00; x03]).
Definition linkLocalRouterMulticast : wtFwpConditionValue0 :=
  cFWP_BYTE_ARRAY16_TYPE ([xff; x02] ++ zeros 11 ++ [x00; x00; x02]).

Definition permitTunInterface (session : Z) (bo : baseObjects) (w : Z) (ifLUID : Z) : M W unit :=
  let ifaceCondition := equal cFWPM_CONDITION_IP_LOCAL_INTERFACE (cFWP_UINT64 ifLUID) in
  let f := filter_literal bo 0 zero_GUID w [ifaceCondition] cFWP_ACTION_PERMIT in
  let! f := add_on session f "Permit outbound IPv4 traffic on TUN" cFWPM_LAYER_ALE_AUTH_CONNECT_V4 in
  let! f := add_on session f "Permit inbound IPv4 traffic on TUN" cFWPM_LAYER_ALE_AUTH_RECV_ACCEPT_V4 in
  let! f := add_on session f "Permit outbound IPv6 traffic on TUN" cFWPM_LAYER_ALE_AUTH_CONNECT_V6 in
  let! f := add_on session f "Permit inbound IPv6 traffic on TUN" cFWPM_LAYER_ALE_AUTH_RECV_ACCEPT_V6 in
  ret tt.

Definition executable_app_id (path : gostring) : M W (list byte) :=
  wrapped
    (if path =?s "" then getCurrentProcessAppID
     else let! pathPtr := lift (UTF16PtrFromString path) in getAppId pathPtr).

Definition executable_sd (bo : baseObjects) : M W (list byte) :=
  wrapped
    (if guid_eqb (provider bo) previewGuardProvider
     then lift (SecurityDescriptorFromString "D:(A;;CC;;;SY)")
     else getCurrentProcessSecurityDescriptor).

Definition permitExecutable (session : Z) (bo : baseObjects) (w : Z) (path : gostring) : M W unit :=
  let! appID := executable_app_id path in
  let! sd := executable_sd bo in
  let conditions :=
    [equal cFWPM_CONDITION_ALE_APP_ID (cFWP_BYTE_BLOB_TYPE appID);
     equal cFWPM_CONDITION_ALE_USER_ID (cFWP_SECURITY_DESCRIPTOR_TYPE sd)] in
  let f := filter_literal bo cFWPM_FILTER_FLAG_CLEAR_ACTION_RIGHT zero_GUID w conditions
             cFWP_ACTION_PERMIT in
  let! f := add_on session f "Permit unrestricted outbound traffic for WireGuard service (IPv4)"
    cFWPM_LAYER_ALE_AUTH_CONNECT_V4 in
  let! f := add_on session f "Permit unrestricted inbound traffic for WireGuard service (IPv4)"
    cFWPM_LAYER_ALE_AUTH_RECV_ACCEPT_V4 in
  let! f := add_on session f "Permit unrestricted outbound traffic for WireGuard service (IPv6)"
    cFWPM_LAYER_ALE_AUTH_CONNECT_V6 in
  let! f := add_on session f "Permit unrestricted inbound traffic for WireGuard service (IPv6)"
    cFWPM_LAYER_ALE_AUTH_RECV_ACCEPT_V6 in
  ret tt.

Definition permitWireGuardService (session : Z) (bo : baseObjects) (w : Z) : M W unit :=
  permitExecutable session bo w "".

Definition permitLoopback (session : Z) (bo : baseObjects) (w : Z) : M W unit :=
  let condition := {| fieldKey := cFWPM_CONDITION_FLAGS; matchType := cFWP_MATCH_FLAGS_ALL_SET;
                      conditionValue := cFWP_UINT32 cFWP_CONDITION_FLAG_IS_LOOPBACK |} in
  let f := filter_literal bo 0 zero_GUID w [condition] cFWP_ACTION_PERMIT in
  let! f := add_on session f "Permit outbound on loopback (IPv4)" cFWPM_LAYER_ALE_AUTH_CONNECT_V4 in
  let! f := add_on session f "Permit inbound on loopback (IPv4)" cFWPM_LAYER_ALE_AUTH_RECV_ACCEPT_V4 in
  let! f := add_on session f "Permit outbound on loopback (IPv6)" cFWPM_LAYER_ALE_AUTH_CONNECT_V6 in
  let! f := add_on session f "Permit inbound on loopback (IPv6)" cFWPM_LAYER_ALE_AUTH_RECV_ACCEPT_V6 in
  ret tt.

Definition permitDHCPIPv4_request : list wtFwpmFilterCondition0 :=
  [equal cFWPM_CONDITION_IP_PROTOCOL (cFWP_UINT8 cIPPROTO_UDP);
   equal cFWPM_CONDITION_IP_LOCAL_PORT (cFWP_UINT16 68);
   equal cFWPM_CONDITION_IP_REMOTE_PORT (cFWP_UINT16 67);
   equal cFWPM_CONDITION_IP_REMOTE_ADDRESS (cFWP_UINT32 0xffffffff)].

Definition permitDHCPIPv4_response : list wtFwpmFilterCondition0 :=
  [equal cFWPM_CONDITION_IP_PROTOCOL (cFWP_UINT8 cIPPROTO_UDP);
   equal cFWPM_CONDITION_IP_LOCAL_PORT (cFWP_UINT16 68);
   equal cFWPM_CONDITION_IP_REMOTE_PORT (cFWP_UINT16 67)].

(** A block with a filter of its own. *)
Definition add_new (session : Z) (bo : baseObjects) (w : Z) (title : gostring) (layer : GUID)
    (conditions : list wtFwpmFilterCondition0) : M W wtFwpmFilter0 :=
  let! dd := wrapped (createWtFwpmDisplayData0 title "") in
  let f := filter_literal bo 0 layer w conditions cFWP_ACTION_PERMIT <| displayData := dd |> in
  wrapped (guardFilterAdd session f).

Definition permitDHCPIPv4 (session : Z) (bo : baseObjects) (w : Z) : M W unit :=
  add_new session bo w "Permit outbound DHCP request (IPv4)" cFWPM_LAYER_ALE_AUTH_CONNECT_V4
    permitDHCPIPv4_request ;;
  add_new session bo w "Permit inbound DHCP response (IPv4)" cFWPM_LAYER_ALE_AUTH_RECV_ACCEPT_V4
    permitDHCPIPv4_response ;;
  ret tt.

Definition permitDHCPIPv6_request : list wtFwpmFilterCondition0 :=
  [equal cFWPM_CONDITION_IP_PROTOCOL (cFWP_UINT8 cIPPROTO_UDP);
   equal cFWPM_CONDITION_IP_REMOTE_ADDRESS linkLocalDHCPMulticast;
   equal cFWPM_CONDITION_IP_REMOTE_ADDRESS siteLocalDHCPMulticast;
   equal cFWPM_CONDITION_IP_REMOTE_PORT (cFWP_UINT16 547);
   equal cFWPM_CONDITION_IP_LOCAL_ADDRESS linkLocal;
   equal cFWPM_CONDITION_IP_LOCAL_PORT (cFWP_UINT16 546)].

Definition permitDHCPIPv6_response : list wtFwpmFilterCondition0 :=
  [equal cFWPM_CONDITION_IP_PROTOCOL (cFWP_UINT8 cIPPROTO_UDP);
   equal cFWPM_CONDITION_IP_REMOTE_ADDRESS linkLocal;
   equal cFWPM_CONDITION_IP_REMOTE_PORT (cFWP_UINT16 547);
   equal cFWPM_CONDITION_IP_LOCAL_ADDRESS linkLocal;
   equal cFWPM_CONDITION_IP_LOCAL_PORT (cFWP_UINT16 546)].

Definition permitDHCPIPv6 (session : Z) (bo : baseObjects) (w : Z) : M W unit :=
  add_new session bo w "Permit outbound DHCP request (IPv6)" cFWPM_LAYER_ALE_AUTH_CONNECT_V6
    permitDHCPIPv6_request ;;
  add_new session bo w "Permit inbound DHCP response (IPv6)" cFWPM_LAYER_ALE_AUTH_RECV_ACCEPT_V6
    permitDHCPIPv6_response ;;
  ret tt.

Record filterDefinition := {
  def_displayData : wtFwpmDisplayData0;
  def_conditions : list wtFwpmFilterCondition0;
  def_layer : GUID;
}.

Definition ndp_conditions (icmp_type : Z) (remote : list wtFwpmFilterCondition0)
    : list wtFwpmFilterCondition0 :=
  [equal cFWPM_CONDITION_IP_PROTOCOL (cFWP_UINT8 cIPPROTO_ICMPV6);
   equal cFWPM_CONDITION_ICMP_TYPE (cFWP_UINT16 icmp_type);
   equal cFWPM_CONDITION_ICMP_CODE (cFWP_UINT16 0)] ++ remote.

(** The five messages; solicitation and advertisement of neighbours go both ways. *)
Definition ndp_defs : M W (list filterDefinition) :=
  let to_routers := [equal cFWPM_CONDITION_IP_REMOTE_ADDRESS linkLocalRouterMulticast] in
  let from_link := [equal cFWPM_CONDITION_IP_REMOTE_ADDRESS linkLocal] in
  let! d133 := wrapped (createWtFwpmDisplayData0 "Permit NDP type 133" "") in
  let! d134 := wrapped (createWtFwpmDisplayData0 "Permit NDP type 134" "") in
  let! d135 := wrapped (createWtFwpmDisplayData0 "Permit NDP type 135" "") in
  let! d136 := wrapped (createWtFwpmDisplayData0 "Permit NDP type 136" "") in
  let! d137 := wrapped (createWtFwpmDisplayData0 "Permit NDP type 137" "") in
  let def d cs l := {| def_displayData := d; def_conditions := cs; def_layer := l |} in
  ret [def d133 (ndp_conditions 133 to_routers) cFWPM_LAYER_ALE_AUTH_CONNECT_V6;
       def d134 (ndp_conditions 134 from_link) cFWPM_LAYER_ALE_AUTH_RECV_ACCEPT_V6;
       def d135 (ndp_conditions 135 []) cFWPM_LAYER_ALE_AUTH_CONNECT_V6;
       def d135 (ndp_conditions 135 []) cFWPM_LAYER_ALE_AUTH_RECV_ACCEPT_V6;
       def d136 (ndp_conditions 136 []) cFWPM_LAYER_ALE_AUTH_CONNECT_V6;
       def d136 (ndp_conditions 136 []) cFWPM_LAYER_ALE_AUTH_RECV_ACCEPT_V6;
       def d137 (ndp_conditions 137 from_link) cFWPM_LAYER_ALE_AUTH_RECV_ACCEPT_V6].

(** [for _, definition := range defs] over the one [filter] variable. *)
Fixpoint add_definitions (session : Z) (f : wtFwpmFilter0) (defs : list filterDefinition)
    : M W unit :=
  match defs with
  | [] => ret tt
  | d :: defs =>
      let f := f <| displayData := def_displayData d |> <| layerKey := def_layer d |>
                 <| numFilterConditions := Z.of_nat (length (def_conditions d)) |>
                 <| filterCondition := def_conditions d |> in
      let! f := wrapped (guardFilterAdd session f) in
      add_definitions session f defs
  end.

Definition permitNdp (session : Z) (bo : baseObjects) (w : Z) : M W unit :=
  let! defs := ndp_defs in
  add_definitions session (filter_literal bo 0 zero_GUID w [] cFWP_ACTION_PERMIT) defs.

Definition permitHyperV (session : Z) (bo : baseObjects) (w : Z) : M W unit :=
  let '(major, minor, _) := RtlGetNtVersionNumbers in
  let win8plus := (major >? 6) || ((major =? 6) && (minor >=? 3)) in
  if negb win8plus then ret tt
  else
    let condition := equal cFWPM_CONDITION_L2_FLAGS (cFWP_UINT32 cFWP_CONDITION_L2_IS_VM2VM) in
    let f := filter_literal bo 0 zero_GUID w [condition] cFWP_ACTION_PERMIT in
    let! f := add_on session f "Permit Hyper-V => Hyper-V outbound"
      cFWPM_LAYER_OUTBOUND_MAC_FRAME_NATIVE in
    let! f := add_on session f "Permit Hyper-V => Hyper-V inbound"
      cFWPM_LAYER_INBOUND_MAC_FRAME_NATIVE in
    ret tt.

Definition blockAll (session : Z) (bo : baseObjects) (w : Z) : M W unit :=
  let f := filter_literal bo 0 zero_GUID w [] cFWP_ACTION_BLOCK in
  let! f := add_on session f "Block all outbound (IPv4)" cFWPM_LAYER_ALE_AUTH_CONNECT_V4 in
  let! f := add_on session f "Block all inbound (IPv4)" cFWPM_LAYER_ALE_AUTH_RECV_ACCEPT_V4 in
  let! f := add_on session f "Block all outbound (IPv6)" cFWPM_LAYER_ALE_AUTH_CONNECT_V6 in
  let! f := add_on session f "Block all inbound (IPv6)" cFWPM_LAYER_ALE_AUTH_RECV_ACCEPT_V6 in
  ret tt.

(** *** DNS *)

Definition denyConditions : list wtFwpmFilterCondition0 :=
  [equal cFWPM_CONDITION_IP_REMOTE_PORT (cFWP_UINT16 53);
   equal cFWPM_CONDITION_IP_PROTOCOL (cFWP_UINT8 cIPPROTO_UDP);
   equal cFWPM_CONDITION_IP_PROTOCOL (cFWP_UINT8 cIPPROTO_TCP)].

(** The servers of one family as conditions; [copy] pads to 16 bytes. *)
Fixpoint except_v4 (except : list IP) : list wtFwpmFilterCondition0 :=
  match except with
  | [] => []
  | ip :: except =>
      match To4 ip with
      | None => except_v4 except
      | Some ip4 =>
          equal cFWPM_CONDITION_IP_REMOTE_ADDRESS (cFWP_UINT32 (be ip4)) :: except_v4 except
      end
  end.

Fixpoint except_v6 (except : list IP) : list wtFwpmFilterCondition0 :=
  match except with
  | [] => []
  | ip :: except =>
      match To4 ip with
      | Some _ => except_v6 except
      | None =>
          equal cFWPM_CONDITION_IP_REMOTE_ADDRESS
            (cFWP_BYTE_ARRAY16_TYPE (take 16 (ip ++ zeros 16))) :: except_v6 except
      end
  end.

Definition allowConditionsV4 (except : list IP) := denyConditions ++ except_v4 except.
Definition allowConditionsV6 (except : list IP) := denyConditions ++ except_v6 except.

(** Blocks #1 to #4. *)
Definition blockDNS_deny (session : Z) (bo : baseObjects) (weightDeny : Z) : M W unit :=
  let f := filter_literal bo 0 zero_GUID weightDeny denyConditions cFWP_ACTION_BLOCK in
  let! f := add_on session f "Block DNS outbound (IPv4)" cFWPM_LAYER_ALE_AUTH_CONNECT_V4 in
  let! f := add_on session f "Block DNS inbound (IPv4)" cFWPM_LAYER_ALE_AUTH_RECV_ACCEPT_V4 in
  let! f := add_on session f "Block DNS outbound (IPv6)" cFWPM_LAYER_ALE_AUTH_CONNECT_V6 in
  let! f := add_on session f "Block DNS inbound (IPv6)" cFWPM_LAYER_ALE_AUTH_RECV_ACCEPT_V6 in
  ret tt.

(** A block guarded by [len(allowConditions) > len(denyConditions)]. *)
Definition add_if (allow : bool) (session : Z) (f : wtFwpmFilter0) (title : gostring) (layer : GUID)
    : M W wtFwpmFilter0 :=
  if allow then add_on session f title layer else ret f.

(** Blocks #5 to #8. *)
Definition blockDNS_allow (except : list IP) (session : Z) (bo : baseObjects) (weightAllow : Z)
    : M W unit :=
  let v4 := allowConditionsV4 except in
  let v6 := allowConditionsV6 except in
  let allow4 := (length denyConditions <? length v4)%nat in
  let allow6 := (length denyConditions <? length v6)%nat in
  let f := filter_literal bo 0 zero_GUID weightAllow v4 cFWP_ACTION_PERMIT in
  let! f := add_if allow4 session f "Allow DNS outbound (IPv4)" cFWPM_LAYER_ALE_AUTH_CONNECT_V4 in
  let! f := add_if allow4 session f "Allow DNS inbound (IPv4)" cFWPM_LAYER_ALE_AUTH_RECV_ACCEPT_V4 in
  let f := f <| filterCondition := v6 |> <| numFilterConditions := Z.of_nat (length v6) |> in
  let! f := add_if allow6 session f "Allow DNS outbound (IPv6)" cFWPM_LAYER_ALE_AUTH_CONNECT_V6 in
  let! f := add_if allow6 session f "Allow DNS inbound (IPv6)" cFWPM_LAYER_ALE_AUTH_RECV_ACCEPT_V6 in
  ret tt.

Definition blockDNS (except : list IP) (session : Z) (bo : baseObjects)
    (weightAllow weightDeny : Z) : M W unit :=
  if weightDeny >=? weightAllow
  then throw (OtherError "The allow weight must be greater than the deny weight")
  else blockDNS_deny session bo weightDeny ;; blockDNS_allow except session bo weightAllow.

(** ** blocker.go *)

Definition createWfpSession : M W Z :=
  let! dd := wrapped (createWtFwpmDisplayData0 "WireGuard" "WireGuard dynamic session") in
  let session := {| session_displayData := dd; session_flags := cFWPM_SESSION_FLAG_DYNAMIC;
                    txnWaitTimeoutInMSec := INFINITE |} in
  wrapped (zsyscall (FwpmEngineOpen0 session)).

Definition newGUID : M W GUID := λ w,
  let (w, r) := GenerateGUID w in (w, match r with inl e => Failed e | inr g => Done g end).

Definition registerBaseObjects (session : Z) : M W baseObjects :=
  let! p := wrapped newGUID in
  let! s := wrapped newGUID in
  let! dd := wrapped (createWtFwpmDisplayData0 "WireGuard" "WireGuard provider") in
  wrapped (zsyscall (FwpmProviderAdd0 session
    {| provider_providerKey := p; provider_displayData := dd; provider_flags := 0 |})) ;;
  let! dd := wrapped (createWtFwpmDisplayData0 "WireGuard filters" "Permissive and blocking filters") in
  wrapped (zsyscall (FwpmSubLayerAdd0 session
    {| sublayer_subLayerKey := s; sublayer_displayData := dd; sublayer_flags := 0;
       sublayer_providerKey := Some p; sublayer_weight := 65535 |})) ;;
  ret {| provider := p; sublayer := s |}.

(** The [objectInstaller] of [EnableFirewall]. *)
Definition objectInstaller (luid : Z) (doNotRestrict : bool) (restrictToDNSServers : list IP)
    (session : Z) : M W unit :=
  let! bo := wrapped (registerBaseObjects session) in
  wrapped (permitWireGuardService session bo 15) ;;
  if negb doNotRestrict then
    (if (0 <? length restrictToDNSServers)%nat
     then wrapped (blockDNS restrictToDNSServers session bo 15 14) else ret tt) ;;
    wrapped (permitLoopback session bo 13) ;;
    wrapped (permitTunInterface session bo 12 luid) ;;
    wrapped (permitDHCPIPv4 session bo 12) ;;
    wrapped (permitDHCPIPv6 session bo 12) ;;
    wrapped (permitNdp session bo 12) ;;
    wrapped (blockAll session bo 0)
  else ret tt.

End Firewall.

(** The package variable [wfpSession] with the world around it. *)
Record firewall (W : Type) := { wfpSession : Z; world : W }.
Arguments wfpSession {W} _.
Arguments world {W} _.

Section Session.
Context {W : Type} `{Windows W}.

Definition EnableFirewall (luid : Z) (doNotRestrict : bool) (restrictToDNSServers : list IP)
    : M (firewall W) unit := λ s,
  if negb (wfpSession s =? 0)
  then (s, Failed (OtherError "The firewall has already been enabled"))
  else
    let (w, r) :=
      (let! session := wrapped createWfpSession in
       catch (runTransaction session (objectInstaller luid doNotRestrict restrictToDNSServers))
         (λ e, ignore (zsyscall (FwpmEngineClose0 session)) ;; throw (wrapErr e)) ;;
       ret session) (world s) in
    match r with
    | Done session => ({| wfpSession := session; world := w |}, Done tt)
    | Failed e => ({| wfpSession := wfpSession s; world := w |}, Failed e)
    | Diverged => ({| wfpSession := wfpSession s; world := w |}, Diverged)
    end.

Definition DisableFirewall (s : firewall W) : firewall W :=
  if negb (wfpSession s =? 0)
  then {| wfpSession := 0; world := (zsyscall (FwpmEngineClose0 (wfpSession s)) (world s)).1 |}
  else s.

(** ** preview_guard.go *)

Definition guardOpen : M W Z :=
  zsyscall (FwpmEngineOpen0
    {| session_displayData := zero_display; session_flags := 0; txnWaitTimeoutInMSec := 5000 |}).

(** The keys of the owned filters of one page. *)
Fixpoint owned_keys (entries : list (option wtFwpmFilter0)) : list GUID :=
  match entries with
  | [] => []
  | e :: entries =>
      match e with
      | Some f => if guardOwned e then filterKey f :: owned_keys entries else owned_keys entries
      | None => owned_keys entries
      end
  end.

Fixpoint enumerate_keys (fuel : nat) (session enumerator : Z) (keys : list GUID)
    : M W (list GUID) :=
  match fuel with
  | O => λ w, (w, Diverged)
  | S fuel =>
      let! pg := guardCall (FwpmFilterEnum0 session enumerator 128) in
      let (entries, count) := (pg : page) in
      if (count >? 128) || ((count >? 0) && bool_decide (entries = None))
      then throw (OtherError "invalid WFP enumeration")
      else
        let keys := keys ++ owned_keys (take (Z.to_nat count) (default [] entries)) in
        if count <? 128 then ret keys else enumerate_keys fuel session enumerator keys
  end.

Fixpoint delete_keys (session : Z) (keys : list GUID) : M W unit :=
  match keys with
  | [] => ret tt
  | k :: keys => guardCall (FwpmFilterDeleteByKey0 session k) ;; delete_keys session keys
  end.

Definition clearGuardFilters (fuel : nat) (session : Z) : M W unit :=
  let! enumerator := guardCall (FwpmFilterCreateEnumHandle0 session) in
  defer (guardCall (FwpmFilterDestroyEnumHandle0 session enumerator))
    (let! keys := enumerate_keys fuel session enumerator [] in
     delete_keys session keys).

(** [errors.Is(err, syscall.Errno(0x80320009))]; a wrapped errno is unwrapped. *)
Definition is_already_exists (e : fwerror) : bool :=
  match e with
  | Errno n => n =? 0x80320009
  | FirewallError n => n =? 0x80320009
  | OtherError _ => false
  end.

Definition tolerate_existing (m : M W unit) : M W unit :=
  catch m (λ e, if negb (is_already_exists e) then throw e else ret tt).

(** The operation of the transaction of [SetPreviewGuard]. *)
Definition guardInstaller (fuel : nat) (enginePath : gostring) (luid : Z) (session : Z) : M W unit :=
  let! display := createWtFwpmDisplayData0 "Pinus Preview protection"
    "Explicit persistent connection protection" in
  tolerate_existing (zsyscall (FwpmProviderAdd0 session
    {| provider_providerKey := previewGuardProvider; provider_displayData := display;
       provider_flags := 1 |})) ;;
  tolerate_existing (zsyscall (FwpmSubLayerAdd0 session
    {| sublayer_subLayerKey := previewGuardSublayer; sublayer_displayData := display;
       sublayer_flags := cFWPM_SUBLAYER_FLAG_PERSISTENT;
       sublayer_providerKey := Some previewGuardProvider; sublayer_weight := 65535 |})) ;;
  clearGuardFilters fuel session ;;
  let bo := {| provider := previewGuardProvider; sublayer := previewGuardSublayer |} in
  permitExecutable session bo 15 enginePath ;;
  permitWireGuardService session bo 15 ;;
  permitLoopback session bo 13 ;;
  (if negb (luid =? 0) then permitTunInterface session bo 12 luid else ret tt) ;;
  permitDHCPIPv4 session bo 12 ;;
  permitDHCPIPv6 session bo 12 ;;
  permitNdp session bo 12 ;;
  blockAll session bo 0.

Definition SetPreviewGuard (fuel : nat) (enginePath : gostring) (luid : Z) : M W unit :=
  let! session := guardOpen in
  defer (zsyscall (FwpmEngineClose0 session))
    (runTransaction session (guardInstaller fuel enginePath luid)).

Definition ClearPreviewGuard (fuel : nat) : M W unit :=
  let! session := guardOpen in
  defer (zsyscall (FwpmEngineClose0 session))
    (runTransaction session (clearGuardFilters fuel)).

End Session.
