(* ===== verification/FirewallFacts.v ===== *)
(** * The firewall package: what the rules install

    [adds h m Q]: whatever the system calls return, [m] run in session [h] only
    appends filters, and when it succeeds its result and the appended filters
    (up to key and display text) satisfy [Q]. One rule per combinator of the
    monad, then one lemma per function of rules.go. *)
From S2P Require Import Prelude GoStrings GoNet Wfp Firewall.

Open Scope Z_scope.

(** ** GUIDs *)

Lemma zs_eqb_spec l k : reflect (l = k) (zs_eqb l k).
Proof.
  revert k. induction l as [|a l IH]; intros [|b k]; simpl; try (constructor; congruence).
  destruct (Z.eqb_spec a b) as [->|]; simpl; [|constructor; congruence].
  destruct (IH k) as [->|]; constructor; congruence.
Qed.

Lemma guid_eqb_spec a b : reflect (a = b) (guid_eqb a b).
Proof.
  destruct a as [a1 a2 a3 a4], b as [b1 b2 b3 b4]. unfold guid_eqb. cbn.
  destruct (Z.eqb_spec a1 b1), (Z.eqb_spec a2 b2), (Z.eqb_spec a3 b3), (zs_eqb_spec a4 b4);
    cbn; constructor; congruence.
Qed.

Lemma guid_eqb_refl a : guid_eqb a a = true.
Proof. by destruct (guid_eqb_spec a a). Qed.

(** Evaluate comparisons of GUID constants. *)
Ltac eval_guids :=
  repeat match goal with
  | |- context [guid_eqb ?a ?b] =>
      let v := eval vm_compute in (guid_eqb a b) in
      match v with true => idtac | false => idtac end;
      change (guid_eqb a b) with v
  end.

(** ** A filter up to its key and display text *)

Definition essence (f : wtFwpmFilter0) : wtFwpmFilter0 :=
  f <| filterKey := zero_GUID |> <| displayData := zero_display |>.

(** Whether [guardFilterAdd] marks the filter persistent. *)
Definition persists (f : wtFwpmFilter0) : bool :=
  guardOwned (Some f)
  && negb (existsb (λ c, guid_eqb (fieldKey c) cFWPM_CONDITION_IP_LOCAL_INTERFACE) (conditions_of f)).

Lemma fold_clears {A} (b : A → bool) l acc :
  fold_left (λ p c, if b c then false else p) l acc = acc && negb (existsb b l).
Proof.
  revert acc. induction l as [|x l IH]; intros acc; simpl; [by rewrite andb_true_r|].
  rewrite IH. by destruct (b x), acc.
Qed.

Lemma guarded_eq f :
  guarded f =
  if persists f then f <| flags := Z.lor (flags f) cFWPM_FILTER_FLAG_PERSISTENT |> else f.
Proof.
  unfold guarded, persists. destruct (guardOwned (Some f)); [|done].
  by rewrite (fold_clears (λ c, guid_eqb (fieldKey c) cFWPM_CONDITION_IP_LOCAL_INTERFACE)).
Qed.

Lemma essence_guarded f : essence (guarded f) = guarded (essence f).
Proof.
  rewrite !guarded_eq. change (persists (essence f)) with (persists f).
  by destruct (persists f), f.
Qed.

Lemma guarded_relayered f L L' :
  guarded (guarded (f <| layerKey := L |>) <| layerKey := L' |>) = guarded (f <| layerKey := L' |>).
Proof.
  rewrite !guarded_eq. change (persists (f <| layerKey := L |>)) with (persists f).
  change (persists (f <| layerKey := L' |>)) with (persists f).
  destruct (persists f) eqn:E.
  - match goal with |- context [persists ?g] => change (persists g) with (persists f) end.
    rewrite E. destruct f. cbn. unfold set_field, set_flags, set_layerKey. cbn.
    by rewrite <- Z.lor_assoc, Z.lor_diag.
  - match goal with |- context [persists ?g] => change (persists g) with (persists f) end.
    by rewrite E.
Qed.

(** ** Appending filters *)

#[local] Set Default Proof Using "Type*".

Section Adds.
Context {W : Type} `{Windows W} (view : W → wfp_view) `{!WindowsLaws W view}.

Definition grows (h : Z) (v v' : wfp_view) (fs : list wtFwpmFilter0) : Prop :=
  transaction v' = transaction v ∧ dynamic v' = dynamic v
  ∧ ∃ news, filters v' = filters v ++ news
      ∧ Forall (λ i, owner i = owner_of v h) news ∧ map (λ i, essence (item i)) news = fs.

Definition adds {A} (h : Z) (m : M W A) (Q : A → list wtFwpmFilter0 → Prop) : Prop :=
  ∀ w w' r, m w = (w', r) →
    r ≠ Diverged ∧ ∃ fs, grows h (view w) (view w') fs ∧ ∀ a, r = Done a → Q a fs.

Lemma grows_refl h v : grows h v v [].
Proof. repeat split. exists []. by rewrite app_nil_r. Qed.

Lemma grows_trans h v1 v2 v3 fs gs : grows h v1 v2 fs → grows h v2 v3 gs → grows h v1 v3 (fs ++ gs).
Proof.
  intros (Ht & Hd & ns & Hf & Ho & He) (Ht' & Hd' & ns' & Hf' & Ho' & He').
  split; [congruence|]. split; [congruence|]. exists (ns ++ ns').
  rewrite Hf', Hf, app_assoc. split; [done|]. split.
  - apply Forall_app. split; [done|]. eapply Forall_impl; [exact Ho'|]. cbn. intros i ->.
    unfold owner_of. by rewrite Hd.
  - rewrite map_app. congruence.
Qed.

Lemma adds_weaken {A} h (m : M W A) (Q Q' : A → list wtFwpmFilter0 → Prop) :
  adds h m Q → (∀ a fs, Q a fs → Q' a fs) → adds h m Q'.
Proof. intros Hm HQ w w' r Hr. destruct (Hm w w' r Hr) as (? & fs & ? & ?). naive_solver. Qed.

Lemma adds_ret {A} h (a : A) (Q : A → list wtFwpmFilter0 → Prop) : Q a [] → adds h (ret a) Q.
Proof.
  intros HQ w w' r [= <- <-]. split; [done|]. exists [].
  split; [apply grows_refl|]. by intros a' [= <-].
Qed.

Lemma adds_throw {A} h e (Q : A → list wtFwpmFilter0 → Prop) : adds h (throw e) Q.
Proof. intros w w' r [= <- <-]. split; [done|]. exists []. split; [apply grows_refl|done]. Qed.

Lemma adds_bind {A B} h (m : M W A) (k : A → M W B) Q R :
  adds h m Q → (∀ a fs, Q a fs → adds h (k a) (λ b gs, R b (fs ++ gs))) → adds h (bind m k) R.
Proof.
  intros Hm Hk w w' r Hr. unfold bind in Hr. destruct (m w) as [w1 r1] eqn:E1.
  destruct (Hm _ _ _ E1) as (Hnd & fs & Hg & HQ). destruct r1 as [a|e|]; [| |done].
  - destruct (Hk a fs (HQ a eq_refl) _ _ _ Hr) as (? & gs & Hg' & HR).
    split; [done|]. exists (fs ++ gs). split; [by eapply grows_trans|done].
  - injection Hr as <- <-. split; [done|]. by exists fs.
Qed.

Lemma adds_wrapped {A} h (m : M W A) Q : adds h m Q → adds h (wrapped m) Q.
Proof.
  intros Hm w w' r Hr. unfold wrapped, catch in Hr. destruct (m w) as [w1 r1] eqn:E1.
  destruct (Hm _ _ _ E1) as (Hnd & fs & Hg & HQ).
  destruct r1; [injection Hr as <- <-..|done]; (split; [done|]; exists fs; split; [done|]); auto.
  done.
Qed.

Lemma adds_lift {A} h (r : fwerror + A) : adds h (lift r) (λ a fs, r = inr a ∧ fs = []).
Proof. destruct r; [apply adds_throw|by apply adds_ret]. Qed.

(** A call that leaves the filters alone. *)
Lemma adds_quiet {A} h (call : W → W * sysret A) :
  (∀ w w' r, call w = (w', r) → view w' = view w) → adds h (zsyscall call) (λ _ fs, fs = []).
Proof.
  intros Hc w w' r Hr. unfold zsyscall in Hr. destruct (call w) as [w1 r1'] eqn:E1.
  injection Hr as <- <-. apply Hc in E1. rewrite E1.
  split; [by destruct (_ =? _)|]. exists []. split; [apply grows_refl|done].
Qed.

Lemma adds_new_guid h : adds h newGUID (λ _ fs, fs = []).
Proof.
  intros w w' r Hr. unfold newGUID in Hr. destruct (GenerateGUID w) as [w1 r1] eqn:E1.
  injection Hr as <- <-. apply guid_view in E1. rewrite E1.
  split; [by destruct r1|]. exists []. split; [apply grows_refl|done].
Qed.

Lemma adds_display h t d : adds h (createWtFwpmDisplayData0 t d) (λ _ fs, fs = []).
Proof.
  eapply adds_bind; [apply adds_wrapped, adds_lift|]. intros a ? [_ ->].
  eapply adds_bind; [apply adds_wrapped, adds_lift|]. intros b ? [_ ->]. by apply adds_ret.
Qed.

Lemma adds_guard h f :
  adds h (guardFilterAdd h f) (λ a fs, a = guarded f ∧ fs = [essence (guarded f)]).
Proof.
  unfold guardFilterAdd. eapply adds_bind with (Q := λ _ fs, fs = [essence (guarded f)]).
  - intros w w' r Hr. unfold zsyscall in Hr.
    destruct (FwpmFilterAdd0 h (guarded f) w) as [w1 s] eqn:E1. injection Hr as <- <-.
    destruct (Z.eqb_spec (r1 s) 0) as [E|E].
    + destruct (add_ok _ _ _ _ _ E1 E) as (key & _ & Hv). split; [done|].
      exists [essence (guarded f)]. split; [|done]. rewrite Hv. split; [done|]. split; [done|].
      eexists. split; [reflexivity|]. split; [|done]. by apply Forall_singleton.
    + apply add_fails in E1; [|done]. rewrite E1. split; [done|]. exists [].
      split; [apply grows_refl|done].
  - intros ? fs ->. by apply adds_ret.
Qed.

Lemma adds_add_on h f e t L : essence f = e →
  adds h (add_on h f t L) (λ a fs,
    essence a = guarded (e <| layerKey := L |>) ∧ fs = [guarded (e <| layerKey := L |>)]).
Proof.
  intros <-. eapply adds_bind; [apply adds_wrapped, adds_display|]. intros dd ? ->.
  eapply adds_weaken; [apply adds_wrapped, adds_guard|]. intros a fs [-> ->].
  rewrite essence_guarded. by destruct f.
Qed.

(** ** The filters of each rule *)

Definition four_layers : list GUID :=
  [cFWPM_LAYER_ALE_AUTH_CONNECT_V4; cFWPM_LAYER_ALE_AUTH_RECV_ACCEPT_V4;
   cFWPM_LAYER_ALE_AUTH_CONNECT_V6; cFWPM_LAYER_ALE_AUTH_RECV_ACCEPT_V6].

Definition rule (bo : baseObjects) (fl w : Z) (cs : list wtFwpmFilterCondition0)
    (a : wtFwpActionType) (L : GUID) : wtFwpmFilter0 := guarded (filter_literal bo fl L w cs a).

Definition everywhere (bo : baseObjects) (fl w : Z) (cs : list wtFwpmFilterCondition0)
    (a : wtFwpActionType) : list wtFwpmFilter0 := map (rule bo fl w cs a) four_layers.

Definition tun_conditions (luid : Z) : list wtFwpmFilterCondition0 :=
  [equal cFWPM_CONDITION_IP_LOCAL_INTERFACE (cFWP_UINT64 luid)].
Definition executable_conditions (app sd : list byte) : list wtFwpmFilterCondition0 :=
  [equal cFWPM_CONDITION_ALE_APP_ID (cFWP_BYTE_BLOB_TYPE app);
   equal cFWPM_CONDITION_ALE_USER_ID (cFWP_SECURITY_DESCRIPTOR_TYPE sd)].
Definition loopback_conditions : list wtFwpmFilterCondition0 :=
  [{| fieldKey := cFWPM_CONDITION_FLAGS; matchType := cFWP_MATCH_FLAGS_ALL_SET;
      conditionValue := cFWP_UINT32 cFWP_CONDITION_FLAG_IS_LOOPBACK |}].

Definition dhcp4_rules bo w : list wtFwpmFilter0 :=
  [rule bo 0 w permitDHCPIPv4_request cFWP_ACTION_PERMIT cFWPM_LAYER_ALE_AUTH_CONNECT_V4;
   rule bo 0 w permitDHCPIPv4_response cFWP_ACTION_PERMIT cFWPM_LAYER_ALE_AUTH_RECV_ACCEPT_V4].
Definition dhcp6_rules bo w : list wtFwpmFilter0 :=
  [rule bo 0 w permitDHCPIPv6_request cFWP_ACTION_PERMIT cFWPM_LAYER_ALE_AUTH_CONNECT_V6;
   rule bo 0 w permitDHCPIPv6_response cFWP_ACTION_PERMIT cFWPM_LAYER_ALE_AUTH_RECV_ACCEPT_V6].

Definition to_routers : list wtFwpmFilterCondition0 :=
  [equal cFWPM_CONDITION_IP_REMOTE_ADDRESS linkLocalRouterMulticast].
Definition from_link : list wtFwpmFilterCondition0 :=
  [equal cFWPM_CONDITION_IP_REMOTE_ADDRESS linkLocal].
Definition ndp_table : list (list wtFwpmFilterCondition0 * GUID) :=
  [(ndp_conditions 133 to_routers, cFWPM_LAYER_ALE_AUTH_CONNECT_V6);
   (ndp_conditions 134 from_link, cFWPM_LAYER_ALE_AUTH_RECV_ACCEPT_V6);
   (ndp_conditions 135 [], cFWPM_LAYER_ALE_AUTH_CONNECT_V6);
   (ndp_conditions 135 [], cFWPM_LAYER_ALE_AUTH_RECV_ACCEPT_V6);
   (ndp_conditions 136 [], cFWPM_LAYER_ALE_AUTH_CONNECT_V6);
   (ndp_conditions 136 [], cFWPM_LAYER_ALE_AUTH_RECV_ACCEPT_V6);
   (ndp_conditions 137 from_link, cFWPM_LAYER_ALE_AUTH_RECV_ACCEPT_V6)].
Definition ndp_rules bo w : list wtFwpmFilter0 :=
  map (λ d, rule bo 0 w d.1 cFWP_ACTION_PERMIT d.2) ndp_table.

Definition dns_rules (except : list IP) bo (wAllow wDeny : Z) : list wtFwpmFilter0 :=
  everywhere bo 0 wDeny denyConditions cFWP_ACTION_BLOCK
  ++ (if (0 <? length (except_v4 except))%nat
      then map (rule bo 0 wAllow (allowConditionsV4 except) cFWP_ACTION_PERMIT)
             [cFWPM_LAYER_ALE_AUTH_CONNECT_V4; cFWPM_LAYER_ALE_AUTH_RECV_ACCEPT_V4] else [])
  ++ (if (0 <? length (except_v6 except))%nat
      then map (rule bo 0 wAllow (allowConditionsV6 except) cFWP_ACTION_PERMIT)
             [cFWPM_LAYER_ALE_AUTH_CONNECT_V6; cFWPM_LAYER_ALE_AUTH_RECV_ACCEPT_V6] else []).

Lemma adds_four h f t1 t2 t3 t4 : essence f = f →
  adds h (let! f := add_on h f t1 cFWPM_LAYER_ALE_AUTH_CONNECT_V4 in
          let! f := add_on h f t2 cFWPM_LAYER_ALE_AUTH_RECV_ACCEPT_V4 in
          let! f := add_on h f t3 cFWPM_LAYER_ALE_AUTH_CONNECT_V6 in
          let! f := add_on h f t4 cFWPM_LAYER_ALE_AUTH_RECV_ACCEPT_V6 in ret tt)
    (λ _ fs, fs = map (λ L, guarded (f <| layerKey := L |>)) four_layers).
Proof.
  intros Hf. eapply adds_bind; [by apply (adds_add_on h f f)|]. intros f1 ? [E1 ->].
  eapply adds_bind; [by apply adds_add_on|]. intros f2 ? [E2 ->]. rewrite guarded_relayered in E2.
  eapply adds_bind; [by apply adds_add_on|]. intros f3 ? [E3 ->]. rewrite guarded_relayered in E3.
  eapply adds_bind; [by apply adds_add_on|]. intros f4 ? [E4 ->]. apply adds_ret.
  by rewrite !guarded_relayered.
Qed.

Lemma adds_tun h bo w luid :
  adds h (permitTunInterface h bo w luid)
    (λ _ fs, fs = everywhere bo 0 w (tun_conditions luid) cFWP_ACTION_PERMIT).
Proof. by apply (adds_four h (filter_literal bo 0 zero_GUID w (tun_conditions luid) cFWP_ACTION_PERMIT)). Qed.

Lemma adds_loopback h bo w :
  adds h (permitLoopback h bo w)
    (λ _ fs, fs = everywhere bo 0 w loopback_conditions cFWP_ACTION_PERMIT).
Proof. by apply (adds_four h (filter_literal bo 0 zero_GUID w loopback_conditions cFWP_ACTION_PERMIT)). Qed.

Lemma adds_block_all h bo w :
  adds h (blockAll h bo w) (λ _ fs, fs = everywhere bo 0 w [] cFWP_ACTION_BLOCK).
Proof. by apply (adds_four h (filter_literal bo 0 zero_GUID w [] cFWP_ACTION_BLOCK)). Qed.

(** Computations that make no system call on the filters. *)
Lemma adds_app_id h file : adds h (getAppId file) (λ a fs, out (FwpmGetAppIdFromFileName0 file) = a ∧ fs = []).
Proof.
  intros w w' r Hr. unfold getAppId, zsyscall in Hr. cbn in Hr. injection Hr as <- <-.
  split; [by destruct (_ =? _)|]. exists []. split; [apply grows_refl|].
  intros a Ha. destruct (_ =? _); [by injection Ha|done].
Qed.

(** The application id of the file a rule names: the running program for "". *)
Definition names_app (path : gostring) (app : list byte) : Prop :=
  ∃ p file, (if path =?s "" then os_Executable = inr p else p = path)
    ∧ UTF16PtrFromString p = inr file ∧ out (FwpmGetAppIdFromFileName0 file) = app.

Lemma adds_executable_app_id h path :
  adds h (executable_app_id path) (λ a fs, names_app path a ∧ fs = []).
Proof.
  unfold executable_app_id, names_app. apply adds_wrapped. destruct (path =?s "").
  - eapply adds_bind; [apply adds_wrapped, adds_lift|]. intros p ? [Hp ->].
    eapply adds_bind; [apply adds_wrapped, adds_lift|]. intros file ? [Hf ->].
    eapply adds_weaken; [apply adds_wrapped, adds_app_id|]. naive_solver.
  - eapply adds_bind; [apply adds_lift|]. intros file ? [Hf ->].
    eapply adds_weaken; [apply adds_app_id|]. naive_solver.
Qed.

(** The result of an [adds] computation came from a run of it. *)
Lemma adds_result {A} h (m : M W A) Q : adds h m Q →
  adds h m (λ a fs, Q a fs ∧ ∃ w w', m w = (w', Done a)).
Proof.
  intros Hm w w' r Hr. destruct (Hm w w' r Hr) as (? & fs & ? & HQ). split; [done|].
  exists fs. split; [done|]. intros a ->. eauto.
Qed.

Lemma adds_current_sd h : adds h getCurrentProcessSecurityDescriptor (λ _ fs, fs = []).
Proof.
  eapply adds_bind; [apply adds_wrapped, adds_lift|]. intros tok ? [_ ->].
  eapply adds_bind; [apply adds_wrapped, adds_lift|]. intros gs ? [_ ->].
  destruct (service_sid gs) as [sid|]; [|apply adds_throw].
  do 3 (eapply adds_bind; [apply adds_wrapped, adds_lift|]; intros ? ? [_ ->]).
  eapply adds_weaken; [apply adds_wrapped, adds_lift|]. naive_solver.
Qed.

(** The security descriptor of a rule: that of the guard, or of this process. *)
Definition names_sd (bo : baseObjects) (sd : list byte) : Prop :=
  if guid_eqb (provider bo) previewGuardProvider
  then SecurityDescriptorFromString "D:(A;;CC;;;SY)" = inr sd
  else ∃ w w', getCurrentProcessSecurityDescriptor w = (w', Done sd).

Lemma adds_executable_sd h bo :
  adds h (executable_sd bo) (λ sd fs, fs = [] ∧ names_sd bo sd).
Proof.
  unfold executable_sd, names_sd. apply adds_wrapped.
  destruct (guid_eqb (provider bo) previewGuardProvider).
  - eapply adds_weaken; [apply adds_lift|]. naive_solver.
  - eapply adds_weaken; [apply adds_result, adds_current_sd|]. naive_solver.
Qed.

Definition executable_rules bo w app sd : list wtFwpmFilter0 :=
  everywhere bo cFWPM_FILTER_FLAG_CLEAR_ACTION_RIGHT w (executable_conditions app sd) cFWP_ACTION_PERMIT.

Lemma adds_executable h bo w path :
  adds h (permitExecutable h bo w path) (λ _ fs, ∃ app sd, names_app path app
    ∧ names_sd bo sd ∧ fs = executable_rules bo w app sd).
Proof.
  eapply adds_bind; [apply adds_executable_app_id|]. intros app ? [Happ ->].
  eapply adds_bind; [apply adds_executable_sd|]. intros sd ? [-> Hsd].
  eapply adds_weaken; [by apply adds_four|]. cbn beta. intros _ fs ->. by exists app, sd.
Qed.

Lemma adds_add_new h bo w t L cs :
  adds h (add_new h bo w t L cs) (λ _ fs, fs = [rule bo 0 w cs cFWP_ACTION_PERMIT L]).
Proof.
  eapply adds_bind; [apply adds_wrapped, adds_display|]. intros dd ? ->.
  eapply adds_weaken; [apply adds_wrapped, adds_guard|]. intros a fs [_ ->].
  by rewrite essence_guarded.
Qed.

Lemma adds_dhcp4 h bo w : adds h (permitDHCPIPv4 h bo w) (λ _ fs, fs = dhcp4_rules bo w).
Proof.
  eapply adds_bind; [apply adds_add_new|]. intros a ? ->.
  eapply adds_bind; [apply adds_add_new|]. intros b ? ->. by apply adds_ret.
Qed.

Lemma adds_dhcp6 h bo w : adds h (permitDHCPIPv6 h bo w) (λ _ fs, fs = dhcp6_rules bo w).
Proof.
  eapply adds_bind; [apply adds_add_new|]. intros a ? ->.
  eapply adds_bind; [apply adds_add_new|]. intros b ? ->. by apply adds_ret.
Qed.

(** *** Filters reused with other conditions *)

Definition owned_objects (bo : baseObjects) : bool :=
  guid_eqb (provider bo) previewGuardProvider && guid_eqb (sublayer bo) previewGuardSublayer.

Definition no_interface (cs : list wtFwpmFilterCondition0) : bool :=
  negb (existsb (λ c, guid_eqb (fieldKey c) cFWPM_CONDITION_IP_LOCAL_INTERFACE) cs).

Lemma conditions_of_literal bo fl L w cs a : conditions_of (filter_literal bo fl L w cs a) = cs.
Proof. unfold conditions_of. cbn. by rewrite Nat2Z.id, firstn_all. Qed.

Lemma guarded_literal bo fl L w cs a :
  guarded (filter_literal bo fl L w cs a) =
  filter_literal bo (if owned_objects bo && no_interface cs then Z.lor fl 1 else fl) L w cs a.
Proof.
  rewrite guarded_eq. unfold persists. rewrite conditions_of_literal.
  change (guardOwned (Some (filter_literal bo fl L w cs a))) with (owned_objects bo).
  unfold no_interface. by destruct (owned_objects bo && _).
Qed.

(** The one [filter] variable of a rule that reuses it with other conditions:
    its flags may have been set by an earlier use. *)
Definition reused bo w (f : wtFwpmFilter0) : Prop :=
  ∃ fl L cs, essence f = filter_literal bo fl L w cs cFWP_ACTION_PERMIT
    ∧ (fl = 0 ∨ (fl = 1 ∧ owned_objects bo = true)).

Lemma guarded_reused bo w f L cs : reused bo w f → no_interface cs = true →
  guarded (essence f <| layerKey := L |> <| numFilterConditions := Z.of_nat (length cs) |>
             <| filterCondition := cs |>) = rule bo 0 w cs cFWP_ACTION_PERMIT L.
Proof.
  intros (fl & L' & cs' & -> & Hfl) Hcs. unfold rule.
  change (_ <| filterCondition := cs |>) with (filter_literal bo fl L w cs cFWP_ACTION_PERMIT).
  rewrite !guarded_literal, Hcs, andb_true_r.
  destruct Hfl as [->|[-> ->]]; done.
Qed.

Lemma reused_rule bo w f cs L : no_interface cs = true →
  essence f = rule bo 0 w cs cFWP_ACTION_PERMIT L → reused bo w f.
Proof.
  unfold rule. rewrite guarded_literal. intros Hcs E. rewrite Hcs, andb_true_r in E.
  eexists _, _, _. split; [exact E|]. destruct (owned_objects bo); auto.
Qed.

Lemma adds_definitions h bo w defs : Forall (λ d, no_interface (def_conditions d) = true) defs →
  ∀ f, reused bo w f →
  adds h (add_definitions h f defs) (λ _ fs,
    fs = map (λ d, rule bo 0 w (def_conditions d) cFWP_ACTION_PERMIT (def_layer d)) defs).
Proof.
  induction 1 as [|d defs Hd Hdefs IH]; intros f Hf; [by apply adds_ret|].
  simpl. eapply adds_bind; [apply adds_wrapped, adds_guard|]. intros a fs [-> ->].
  rewrite essence_guarded. rewrite <- (guarded_reused bo w f (def_layer d) _ Hf Hd).
  eapply adds_weaken; [apply IH|].
  - eapply (reused_rule bo w _ (def_conditions d) (def_layer d)); [done|].
    rewrite essence_guarded. by rewrite <- (guarded_reused bo w f (def_layer d) _ Hf Hd).
  - by intros _ gs ->.
Qed.

Lemma adds_ndp_defs h :
  adds h ndp_defs (λ defs fs, fs = [] ∧ map (λ d, (def_conditions d, def_layer d)) defs = ndp_table).
Proof.
  unfold ndp_defs. cbv zeta.
  do 5 (eapply adds_bind; [apply adds_wrapped, adds_display|]; intros ? ? ->).
  by apply adds_ret.
Qed.

Lemma adds_ndp h bo w : adds h (permitNdp h bo w) (λ _ fs, fs = ndp_rules bo w).
Proof.
  eapply adds_bind; [apply adds_ndp_defs|]. intros defs ? [-> Hdefs].
  eapply adds_weaken; [apply (adds_definitions h bo w)|].
  - apply (proj1 (Forall_map (λ d, (def_conditions d, def_layer d)) (λ p, no_interface p.1 = true) defs)).
    rewrite Hdefs. apply List.Forall_forall, forallb_forall. vm_compute. reflexivity.
  - eexists 0, zero_GUID, []. auto.
  - cbv beta. intros _ fs ->. unfold ndp_rules. by rewrite <- Hdefs, map_map.
Qed.

(** *** DNS *)

Lemma no_interface_app cs cs' : no_interface (cs ++ cs') = no_interface cs && no_interface cs'.
Proof. unfold no_interface. by rewrite existsb_app, negb_orb. Qed.

Lemma except_v4_no_interface except : no_interface (except_v4 except) = true.
Proof. induction except as [|ip l IH]; [done|]. simpl. by destruct (To4 ip). Qed.

Lemma except_v6_no_interface except : no_interface (except_v6 except) = true.
Proof. induction except as [|ip l IH]; [done|]. simpl. by destruct (To4 ip). Qed.

Lemma allow_no_interface except :
  no_interface (allowConditionsV4 except) = true ∧ no_interface (allowConditionsV6 except) = true.
Proof.
  unfold allowConditionsV4, allowConditionsV6.
  by rewrite !no_interface_app, except_v4_no_interface, except_v6_no_interface.
Qed.

(** A pair of guarded blocks with the conditions [cs]. *)
Lemma adds_pair h bo w f (allow : bool) t1 t2 L1 L2 cs :
  reused bo w f → no_interface cs = true →
  numFilterConditions f = Z.of_nat (length cs) → filterCondition f = cs →
  adds h (let! f := add_if allow h f t1 L1 in add_if allow h f t2 L2) (λ a fs,
    reused bo w a ∧ fs = if allow then map (rule bo 0 w cs cFWP_ACTION_PERMIT) [L1; L2] else []).
Proof.
  intros Hf Hcs Hn Hc. destruct allow; cbn [add_if]; [|by apply adds_ret].
  assert (Hrule : ∀ L, guarded (essence f <| layerKey := L |>) = rule bo 0 w cs cFWP_ACTION_PERMIT L).
  { intros L. rewrite <- (guarded_reused bo w f L cs Hf Hcs). f_equal. destruct f. cbn in *. by subst. }
  eapply adds_bind; [by apply adds_add_on|]. intros f1 ? [E1 ->].
  eapply adds_weaken; [by apply adds_add_on|]. cbv beta. intros f2 ? [E2 ->].
  rewrite guarded_relayered, Hrule in E2. rewrite guarded_relayered, !Hrule.
  split; [|done]. by eapply reused_rule.
Qed.

Lemma bind_assoc {A B C} (m : M W A) (k : A → M W B) (k' : B → M W C) w :
  bind (bind m k) k' w = bind m (λ a, bind (k a) k') w.
Proof. unfold bind. destruct (m w) as [w1 [a|e|]]; done. Qed.

Lemma adds_ext {A} h (m m' : M W A) Q : (∀ w, m w = m' w) → adds h m Q → adds h m' Q.
Proof. intros He Hm w w' r Hr. rewrite <- He in Hr. eauto. Qed.

Lemma adds_dns_allow h bo w except :
  adds h (blockDNS_allow except h bo w) (λ _ fs, fs =
    (if (0 <? length (except_v4 except))%nat
     then map (rule bo 0 w (allowConditionsV4 except) cFWP_ACTION_PERMIT)
            [cFWPM_LAYER_ALE_AUTH_CONNECT_V4; cFWPM_LAYER_ALE_AUTH_RECV_ACCEPT_V4] else [])
    ++ (if (0 <? length (except_v6 except))%nat
        then map (rule bo 0 w (allowConditionsV6 except) cFWP_ACTION_PERMIT)
               [cFWPM_LAYER_ALE_AUTH_CONNECT_V6; cFWPM_LAYER_ALE_AUTH_RECV_ACCEPT_V6] else [])).
Proof.
  destruct (allow_no_interface except) as [H4 H6]. unfold blockDNS_allow. cbv zeta.
  rewrite <- !(length_app_ltb denyConditions). fold (allowConditionsV4 except) (allowConditionsV6 except).
  eapply adds_ext; [intros w0; apply bind_assoc|].
  eapply adds_bind; [eapply (adds_pair h bo w); [|exact H4|reflexivity|reflexivity]|].
  { eexists 0, _, _. split; [reflexivity|by left]. }
  intros f ? [(fl & L & cs & Hf & Hfl) ->].
  eapply adds_ext; [intros w0; apply bind_assoc|].
  eapply adds_bind; [eapply (adds_pair h bo w); [|exact H6|reflexivity|reflexivity]|].
  { exists fl, L, (allowConditionsV6 except). split; [|done]. destruct f. cbn in *.
    by injection Hf as -> -> -> -> -> _ _ ->. }
  cbv beta. intros f' ? [_ ->]. apply adds_ret. by rewrite app_nil_r.
Qed.

Lemma adds_block_dns h bo except wAllow wDeny :
  adds h (blockDNS except h bo wAllow wDeny) (λ _ fs, fs = dns_rules except bo wAllow wDeny).
Proof.
  unfold blockDNS. destruct (wDeny >=? wAllow); [apply adds_throw|].
  eapply adds_bind.
  - by apply (adds_four h (filter_literal bo 0 zero_GUID wDeny denyConditions cFWP_ACTION_BLOCK)).
  - intros ? ? ->. eapply adds_weaken; [apply adds_dns_allow|]. cbv beta. by intros _ ? ->.
Qed.

(** ** Successful runs *)

Lemma bind_done {A B} (m : M W A) (k : A → M W B) w w' b :
  bind m k w = (w', Done b) ↔ ∃ w1 a, m w = (w1, Done a) ∧ k a w1 = (w', Done b).
Proof.
  unfold bind. destruct (m w) as [w1 [a|e|]]; split; try (intros (? & ? & [=] & ?); by subst); try done.
  intros Hk. eauto.
Qed.

Lemma wrapped_done {A} (m : M W A) w w' a : wrapped m w = (w', Done a) ↔ m w = (w', Done a).
Proof. unfold wrapped, catch. destruct (m w) as [w1 [x|e|]]; split; done. Qed.

Lemma zsyscall_done {A} (call : W → W * sysret A) w w' a :
  zsyscall call w = (w', Done a) ↔ ∃ r, call w = (w', r) ∧ r1 r = 0 ∧ out r = a.
Proof.
  unfold zsyscall. destruct (call w) as [w1 r]. destruct (Z.eqb_spec (r1 r) 0) as [E|E].
  - split; [intros [= <- <-]; eauto|]. by intros (r' & [= <- <-] & _ & <-).
  - split; [done|]. by intros (r' & [= <- <-] & ? & _).
Qed.

Lemma quiet_done {A} h (m : M W A) w w' a :
  adds h m (λ _ fs, fs = []) → m w = (w', Done a) →
  filters (view w') = filters (view w) ∧ transaction (view w') = transaction (view w)
  ∧ dynamic (view w') = dynamic (view w).
Proof.
  intros Hm Hr. destruct (Hm _ _ _ Hr) as (_ & fs & (Ht & Hd & news & Hf & _ & He) & HQ).
  rewrite (HQ a eq_refl) in He. apply map_eq_nil in He as ->. by rewrite app_nil_r in Hf.
Qed.

Lemma register_done h w w' bo : registerBaseObjects h w = (w', Done bo) →
  filters (view w') = filters (view w) ∧ transaction (view w') = transaction (view w)
  ∧ dynamic (view w') = dynamic (view w)
  ∧ Forall (λ i, subLayerKey (item i) ≠ sublayer bo) (filters (view w)).
Proof.
  unfold registerBaseObjects. intros (w1 & p & H1 & Hr)%bind_done.
  apply bind_done in Hr as (w2 & s & H2 & Hr). apply bind_done in Hr as (w3 & dd & H3 & Hr).
  apply bind_done in Hr as (w4 & u & H4 & Hr). apply bind_done in Hr as (w5 & dd' & H5 & Hr).
  apply bind_done in Hr as (w6 & u' & H6 & Hr). injection Hr as <- <-.
  apply (quiet_done h) in H1 as (?&?&?); [|apply adds_wrapped, adds_new_guid].
  apply (quiet_done h) in H2 as (?&?&?); [|apply adds_wrapped, adds_new_guid].
  apply (quiet_done h) in H3 as (?&?&?); [|apply adds_wrapped, adds_display].
  apply (quiet_done h) in H4 as (?&?&?); [|apply adds_wrapped, adds_quiet, provider_view].
  apply (quiet_done h) in H5 as (?&?&?); [|apply adds_wrapped, adds_display].
  apply wrapped_done, zsyscall_done in H6 as (r & H6 & Hr1 & _).
  pose proof (sublayer_ok _ _ _ _ _ H6 Hr1) as Hs. apply sublayer_view in H6. cbn in *.
  rewrite H6. repeat split; congruence.
Qed.

Lemma adds_register h : adds h (registerBaseObjects h) (λ _ fs, fs = []).
Proof.
  eapply adds_bind; [apply adds_wrapped, adds_new_guid|]. intros p ? ->.
  eapply adds_bind; [apply adds_wrapped, adds_new_guid|]. intros s ? ->.
  eapply adds_bind; [apply adds_wrapped, adds_display|]. intros dd ? ->.
  eapply adds_bind; [apply adds_wrapped, adds_quiet, provider_view|]. intros u ? ->.
  eapply adds_bind; [apply adds_wrapped, adds_display|]. intros dd' ? ->.
  eapply adds_bind; [apply adds_wrapped, adds_quiet, sublayer_view|]. intros u' ? ->.
  by apply adds_ret.
Qed.

(** ** EnableFirewall *)

Definition restriction_rules bo luid (dns : list IP) : list wtFwpmFilter0 :=
  (if (0 <? length dns)%nat then dns_rules dns bo 15 14 else [])
  ++ everywhere bo 0 13 loopback_conditions cFWP_ACTION_PERMIT
  ++ everywhere bo 0 12 (tun_conditions luid) cFWP_ACTION_PERMIT
  ++ dhcp4_rules bo 12 ++ dhcp6_rules bo 12 ++ ndp_rules bo 12
  ++ everywhere bo 0 0 [] cFWP_ACTION_BLOCK.

Definition enable_rules bo luid (doNotRestrict : bool) (dns : list IP) app sd : list wtFwpmFilter0 :=
  executable_rules bo 15 app sd ++ (if doNotRestrict then [] else restriction_rules bo luid dns).

(** [objectInstaller] after [registerBaseObjects]. *)
Lemma adds_installer_rules h bo luid dnr dns :
  adds h
    (wrapped (permitWireGuardService h bo 15) ;;
     if negb dnr then
       (if (0 <? length dns)%nat then wrapped (blockDNS dns h bo 15 14) else ret tt) ;;
       wrapped (permitLoopback h bo 13) ;;
       wrapped (permitTunInterface h bo 12 luid) ;;
       wrapped (permitDHCPIPv4 h bo 12) ;;
       wrapped (permitDHCPIPv6 h bo 12) ;;
       wrapped (permitNdp h bo 12) ;;
       wrapped (blockAll h bo 0)
     else ret tt)
    (λ _ fs, ∃ app sd, names_app "" app ∧ names_sd bo sd ∧ fs = enable_rules bo luid dnr dns app sd).
Proof.
  eapply adds_bind; [apply adds_wrapped, adds_executable|]. intros ? ? (app & sd & Happ & Hsd & ->).
  destruct dnr; cbn [negb].
  { apply adds_ret. by exists app, sd. }
  eapply adds_bind with (Q := λ _ fs, fs = if (0 <? length dns)%nat then dns_rules dns bo 15 14 else []).
  { destruct (0 <? length dns)%nat; [apply adds_wrapped, adds_block_dns|by apply adds_ret]. }
  intros ? ? ->. eapply adds_bind; [apply adds_wrapped, adds_loopback|]. intros ? ? ->.
  eapply adds_bind; [apply adds_wrapped, adds_tun|]. intros ? ? ->.
  eapply adds_bind; [apply adds_wrapped, adds_dhcp4|]. intros ? ? ->.
  eapply adds_bind; [apply adds_wrapped, adds_dhcp6|]. intros ? ? ->.
  eapply adds_bind; [apply adds_wrapped, adds_ndp|]. intros ? ? ->.
  eapply adds_weaken; [apply adds_wrapped, adds_block_all|]. cbv beta. intros _ ? ->.
  exists app, sd. by rewrite <- ?app_assoc.
Qed.

Lemma adds_installer h luid dnr dns :
  adds h (objectInstaller luid dnr dns h) (λ _ _, True).
Proof.
  eapply adds_bind; [apply adds_wrapped, adds_register|]. intros bo ? ->.
  eapply adds_weaken; [apply adds_installer_rules|done].
Qed.

Lemma installer_done h luid dnr dns w w' u :
  objectInstaller luid dnr dns h w = (w', Done u) →
  ∃ bo app sd, names_app "" app ∧ names_sd bo sd ∧ grows h (view w) (view w') (enable_rules bo luid dnr dns app sd)
    ∧ Forall (λ i, subLayerKey (item i) ≠ sublayer bo) (filters (view w)).
Proof.
  unfold objectInstaller. intros (w1 & bo & H1 & Hr)%bind_done. rewrite wrapped_done in H1.
  apply register_done in H1 as (Ef & Et & Ed & Hs).
  destruct (adds_installer_rules h bo luid dnr dns _ _ _ Hr) as (_ & fs & Hg & HQ).
  destruct (HQ u eq_refl) as (app & sd & Happ & Hsd & ->). exists bo, app, sd.
  split; [done|]. split; [done|]. split; [|done]. destruct Hg as (? & ? & news & ? & ? & ?). unfold grows.
  rewrite <- Ef, <- Et, <- Ed. split; [done|]. split; [done|]. exists news.
  unfold owner_of in *. by rewrite <- Ed.
Qed.

(** ** Transactions and sessions *)

(** From filters satisfying [B], the operation of a transaction ends and leaves
    the transaction record and the sessions alone. *)
Definition tame (B : list installed → Prop) {A} (m : M W A) : Prop :=
  ∀ w w' r, B (filters (view w)) → m w = (w', r) →
    r ≠ Diverged ∧ transaction (view w') = transaction (view w)
    ∧ dynamic (view w') = dynamic (view w).

Lemma adds_tame {A} h (m : M W A) Q : adds h m Q → tame (λ _, True) m.
Proof. intros Hm w w' r _ Hr. by destruct (Hm _ _ _ Hr) as (? & fs & (? & ? & _) & _). Qed.

Lemma runTransaction_done B h op w w' u : tame B (op h) → B (filters (view w)) →
  runTransaction h op w = (w', Done u) →
  ∃ w1 w2, view w1 = view w <| transaction := Some (h, filters (view w)) |>
    ∧ op h w1 = (w2, Done tt) ∧ view w' = view w2 <| transaction := None |>.
Proof.
  intros Hop HB. unfold runTransaction.
  intros (w1 & [] & Hb & Hk)%bind_done.
  rewrite wrapped_done in Hb. apply zsyscall_done in Hb as (r & Hb & Hr & _).
  apply begin_ok in Hb; [|done].
  apply bind_done in Hk as (w2 & [] & Hc & Hk). unfold catch in Hc, Hk.
  destruct (op h w1) as [w3 [[]|e|]] eqn:E; [|by unfold bind, ignore, throw in Hc|done].
  injection Hc as <-. exists w1, w3. split; [done|]. split; [done|].
  destruct (zsyscall (FwpmTransactionCommit0 h) w3) as [w4 [[]|e|]] eqn:Ec;
    [|by unfold bind, ignore, throw in Hk|done].
  injection Hk as <- <-. apply zsyscall_done in Ec as (rc & Hc & Hrc & _).
  by apply commit_ok in Hc.
Qed.

(** A transaction ends, and if it fails it leaves the filters as they were. *)
Lemma runTransaction_run B h op w w' r : tame B (op h) → B (filters (view w)) →
  runTransaction h op w = (w', r) →
  r ≠ Diverged ∧ dynamic (view w') = dynamic (view w)
  ∧ (transaction (view w') = transaction (view w) ∨ transaction (view w') = None)
  ∧ (r ≠ Done tt → filters (view w') = filters (view w)).
Proof.
  intros Hop HB Hr. unfold runTransaction, bind, wrapped, catch, ignore, throw, zsyscall in Hr.
  destruct (FwpmTransactionBegin0 h w) as [w1 rb] eqn:Eb.
  destruct (Z.eqb_spec (r1 rb) 0) as [Hb|Hb].
  2:{ apply begin_fails in Eb; [|done]. injection Hr as <- <-. rewrite Eb. auto. }
  apply begin_ok in Eb; [|done]. destruct (op h w1) as [w2 ro] eqn:Eo.
  apply Hop in Eo as (Hnd & Ht & Hd); [|by rewrite Eb]. rewrite Eb in Ht, Hd. cbn in Ht, Hd.
  destruct ro as [[]|e|]; [| |done].
  - destruct (FwpmTransactionCommit0 h w2) as [w3 rc] eqn:Ec.
    destruct (Z.eqb_spec (r1 rc) 0) as [Hc|Hc].
    + apply commit_ok in Ec; [|done]. injection Hr as <- <-. rewrite Ec. destruct (out rc).
      split_and!; [done|exact Hd|by right|by intros []].
    + apply commit_fails in Ec; [|done]. destruct (FwpmTransactionAbort0 h w3) as [w4 ra] eqn:Ea.
      apply (abort_ok _ _ _ _ (filters (view w))) in Ea as [_ Ea]; [|by rewrite Ec].
      injection Hr as <- <-. cbn [fst]. rewrite Ea, Ec. auto.
  - destruct (FwpmTransactionAbort0 h w2) as [w4 ra] eqn:Ea.
    apply (abort_ok _ _ _ _ (filters (view w))) in Ea as [_ Ea]; [|done].
    injection Hr as <- <-. cbn [fst]. rewrite Ea. auto.
Qed.

(** The session [createWfpSession] opens, and the one [guardOpen] opens. *)
Lemma createWfpSession_done w w' h : createWfpSession w = (w', Done h) →
  h ≠ 0 ∧ (h ∉ dynamic (view w)) ∧ Forall (λ i, owner i ≠ Some h) (filters (view w))
  ∧ filters (view w') = filters (view w) ∧ dynamic (view w') = h :: dynamic (view w)
  ∧ transaction (view w') = transaction (view w)
  ∧ (∀ fs, transaction (view w) ≠ Some (h, fs)).
Proof.
  unfold createWfpSession. intros (w1 & dd & H1 & Hr)%bind_done. rewrite wrapped_done in H1.
  apply (quiet_done 0) in H1 as (Ef & Et & Ed); [|apply adds_display].
  rewrite wrapped_done in Hr. apply zsyscall_done in Hr as (r & Ho & Hr1 & <-).
  apply open_ok in Ho as (H0 & Hd & Hf & Ht & Hv); [|done]. rewrite Hv.
  rewrite Ef in Hf. rewrite Ed in Hd. cbn. rewrite Ef, Et, Ed. split_and!; try done.
  by rewrite <- Et.
Qed.

Lemma createWfpSession_failed w w' r : createWfpSession w = (w', r) → (∀ h, r ≠ Done h) →
  r ≠ Diverged ∧ filters (view w') = filters (view w) ∧ dynamic (view w') = dynamic (view w)
  ∧ transaction (view w') = transaction (view w).
Proof.
  unfold createWfpSession. intros Hr Hnd.
  assert (Hq : ∀ w1 w2 r2 (dd : wtFwpmDisplayData0), (wrapped (zsyscall (FwpmEngineOpen0
      {| session_displayData := dd; session_flags := cFWPM_SESSION_FLAG_DYNAMIC;
         txnWaitTimeoutInMSec := INFINITE |}))) w1 = (w2, r2) → (∀ h, r2 ≠ Done h) →
      r2 ≠ Diverged ∧ view w2 = view w1).
  { intros w1 w2 r2 dd E Hn. unfold wrapped, catch, zsyscall in E.
    destruct (FwpmEngineOpen0 _ w1) as [w3 s] eqn:Eo.
    destruct (Z.eqb_spec (r1 s) 0) as [E0|E0]; injection E as <- <-; [by destruct (Hn (out s))|].
    split; [done|]. by apply open_fails in Eo. }
  unfold bind at 1 in Hr.
  destruct (wrapped (createWtFwpmDisplayData0 "WireGuard" "WireGuard dynamic session") w)
    as [w1 rd] eqn:Ed.
  destruct (adds_wrapped 0 _ _ (adds_display 0 _ _) _ _ _ Ed) as (Hv & fs & Hg & HQ).
  destruct rd as [dd|e|]; [|injection Hr as <- <-|done].
  - apply (quiet_done 0) in Ed as (Ef & Et & Edy); [|apply adds_wrapped, adds_display].
    destruct (Hq _ _ _ _ Hr Hnd) as [? ->]. auto.
  - (* converting the text fails: no call is made *)
    clear HQ. revert Ed. unfold wrapped, createWtFwpmDisplayData0, bind, lift, catch.
    destruct (UTF16PtrFromString "WireGuard"); cbn; [by intros [= <- <-]|].
    destruct (UTF16PtrFromString "WireGuard dynamic session"); cbn; [by intros [= <- <-]|done].
Qed.

(** A fresh dynamic session leaves nothing behind. *)
Lemma close_fresh h v v' : h ∉ dynamic v → Forall (λ i, owner i ≠ Some h) (filters v) →
  filters v' = filters v → dynamic v' = h :: dynamic v →
  (∀ fs, transaction v' ≠ Some (h, fs)) →
  filters (close_session h v') = filters v ∧ dynamic (close_session h v') = dynamic v.
Proof.
  intros Hd Hf Ef Ed Ht. unfold close_session.
  destruct (transaction v') as [[h' fs]|] eqn:Et;
    [destruct (Z.eqb_spec h' h) as [->|]; [by destruct (Ht fs)|]|]; cbn;
    rewrite Ef, Ed; (split; [by apply filter_all|]); rewrite filter_cons_False by naive_solver;
    apply filter_all, Forall_forall; naive_solver.
Qed.

Lemma EnableFirewall_done luid dnr dns s s' :
  EnableFirewall luid dnr dns s = (s', Done tt) →
  wfpSession s = 0 ∧ ∃ h bo app sd news,
    wfpSession s' = h ∧ h ≠ 0 ∧ names_app "" app ∧ names_sd bo sd
    ∧ filters (view (world s')) = filters (view (world s)) ++ news
    ∧ Forall (λ i, owner i = Some h) news
    ∧ map (λ i, essence (item i)) news = enable_rules bo luid dnr dns app sd
    ∧ Forall (λ i, owner i ≠ Some h ∧ subLayerKey (item i) ≠ sublayer bo) (filters (view (world s)))
    ∧ transaction (view (world s')) = None
    ∧ dynamic (view (world s')) = h :: dynamic (view (world s)) ∧ h ∉ dynamic (view (world s)).
Proof.
  unfold EnableFirewall. destruct (Z.eqb_spec (wfpSession s) 0) as [E0|]; [|done]. cbn [negb].
  destruct (bind _ _ (world s)) as [w r] eqn:E. destruct r as [h|e|]; [|done..].
  intros [= <-]. split; [done|].
  apply bind_done in E as (w1 & h' & H1 & E). rewrite wrapped_done in H1.
  apply createWfpSession_done in H1 as (Hh & Hd & Ho & Ef & Ed & Et & Hnt).
  apply bind_done in E as (w2 & [] & E & [= <- <-]). cbn [wfpSession world] in *.
  unfold catch in E. destruct (runTransaction h' _ w1) as [w3 [[]|e|]] eqn:Er;
    [|by unfold bind, ignore, throw in E|done].
  injection E as <-. apply (runTransaction_done (λ _, True)) in Er as (w4 & w5 & Hv4 & Hop & Hv5);
    [|eapply adds_tame, adds_installer|done].
  apply installer_done in Hop as (bo & app & sd & Happ & Hsd & (Et5 & Ed5 & news & Ef5 & Hn & He) & Hs).
  exists h', bo, app, sd, news. rewrite Hv4 in *. cbn in *. rewrite Ef in *. rewrite Ed in *.
  rewrite Hv5. cbn. split_and!; try done; try congruence.
  - unfold owner_of in Hn. cbn in Hn. rewrite Ed in Hn.
    rewrite bool_decide_eq_true_2 in Hn by set_solver. done.
  - apply Forall_and. done.
Qed.

Lemma EnableFirewall_not_done luid dnr dns s s' r :
  EnableFirewall luid dnr dns s = (s', r) → r ≠ Done tt →
  r ≠ Diverged ∧ wfpSession s' = wfpSession s
  ∧ filters (view (world s')) = filters (view (world s))
  ∧ dynamic (view (world s')) = dynamic (view (world s)).
Proof.
  unfold EnableFirewall. destruct (negb _); [by intros [= <- <-]|].
  destruct (bind _ _ (world s)) as [w r0] eqn:E. intros Hr Hnd.
  assert (Hr0 : (∀ h, r0 ≠ Done h) ∧ s' = {| wfpSession := wfpSession s; world := w |}
    ∧ (r0 ≠ Diverged → r ≠ Diverged)).
  { destruct r0; injection Hr as <- <-; done. }
  destruct Hr0 as (Hr0 & -> & Hdv). cbn [wfpSession world]. clear Hr Hnd.
  unfold bind at 1, wrapped at 1, catch at 1 in E.
  destruct (createWfpSession (world s)) as [w1 [h|e|]] eqn:Ec.
  2,3: apply createWfpSession_failed in Ec as (? & ? & ? & _); [|done]; injection E as <- <-; auto.
  apply createWfpSession_done in Ec as (Hh & Hd & Ho & Ef & Ed & Et & Hnt).
  unfold bind at 1, catch at 1 in E.
  destruct (runTransaction h _ w1) as [w2 rt] eqn:Er.
  apply (runTransaction_run (λ _, True)) in Er as (Hv & Ed2 & Et2 & Ef2);
    [|eapply adds_tame, adds_installer|done].
  destruct rt as [[]|e|]; [|clear Hv|done].
  - injection E as _ <-. by destruct (Hr0 h).
  - specialize (Ef2 ltac:(done)). unfold bind, ignore, throw, zsyscall in E.
    destruct (FwpmEngineClose0 h w2) as [w3 rc] eqn:Ecl. apply close_ok in Ecl as [_ Ecl].
    injection E as <- <-. cbn [fst]. rewrite Ecl.
    destruct (close_fresh h (view (world s)) (view w2)); [done|done|congruence|congruence| |auto].
    intros fs. destruct Et2 as [-> | ->]; [rewrite Et; apply Hnt|done].
Qed.

(** ** Clearing the guard *)

Lemma guardCall_done {A} (call : W → W * sysret A) w w' a :
  guardCall call w = (w', Done a) ↔ ∃ r, call w = (w', r) ∧ r1 r = 0 ∧ out r = a.
Proof.
  unfold guardCall. destruct (call w) as [w1 r]. destruct (Z.eqb_spec (r1 r) 0) as [E|E].
  - split; [intros [= <- <-]; eauto|]. by intros (r' & [= <- <-] & _ & <-).
  - split; [done|]. by intros (r' & [= <- <-] & ? & _).
Qed.

Definition still (v v' : wfp_view) : Prop :=
  filters v' = filters v ∧ transaction v' = transaction v ∧ dynamic v' = dynamic v.

Lemma owned_keys_app l k : owned_keys (l ++ k) = owned_keys l ++ owned_keys k.
Proof.
  induction l as [|[f|] l IH]; [done| |exact IH]. cbn [app owned_keys]. rewrite IH.
  by destruct (guardOwned (Some f)).
Qed.

(** One page per round: [length l / 128 + 1] rounds reach the end. *)
Lemma enumerate_keys_run fuel h e : ∀ w w' r l keys,
  enumerations (view w) !! e = Some l → (length l < fuel * 128)%nat →
  enumerate_keys fuel h e keys w = (w', r) →
  r ≠ Diverged ∧ still (view w) (view w')
  ∧ ∀ ks, r = Done ks → ks = keys ++ owned_keys (map Some l).
Proof.
  induction fuel as [|fuel IH]; intros w w' r l keys He Hlen Hr; [lia|].
  cbn [enumerate_keys] in Hr. unfold bind, guardCall in Hr.
  destruct (FwpmFilterEnum0 h e 128 w) as [w1 s] eqn:Ee. destruct (Z.eqb_spec (r1 s) 0) as [E|E].
  2:{ apply enum_fails in Ee; [|done]. injection Hr as <- <-. rewrite Ee. done. }
  destruct (enum_ok _ _ _ _ _ _ _ Ee E He ltac:(lia)) as (Hc & Hentries & Hv).
  change (Z.to_nat 128) with 128%nat in *. cbn zeta in *. destruct (out s) as [entries count].
  cbn [fst snd] in Hc, Hentries. subst count entries.
  rewrite length_take in Hr.
  assert (Hgt : (Z.of_nat (Nat.min 128 (length l)) >? 128) = false) by (rewrite Z.gtb_ltb; apply Z.ltb_ge; lia).
  rewrite Hgt in Hr. cbn [orb] in Hr.
  assert (Hkeys : owned_keys (take (Z.to_nat (Z.of_nat (Nat.min 128 (length l))))
    (default [] (if (Nat.min 128 (length l) =? 0)%nat then None else Some (map Some (take 128 l)))))
    = owned_keys (map Some (take 128 l))).
  { destruct l as [|x l]; [done|]. destruct (Nat.eqb_spec (Nat.min 128 (length (x :: l))) 0) as [E0|_];
      [cbn in E0; lia|]. cbn [default from_option]. f_equal. apply take_ge.
    rewrite length_map, length_take. lia. }
  rewrite Hkeys in Hr. clear Hkeys.
  assert (Hnil : (Z.of_nat (Nat.min 128 (length l)) >? 0) && bool_decide
    ((if (Nat.min 128 (length l) =? 0)%nat then None else Some (map Some (take 128 l))) = None) = false).
  { destruct (Nat.eqb_spec (Nat.min 128 (length l)) 0) as [->|]; [done|].
    rewrite bool_decide_eq_false_2 by done. apply andb_false_r. }
  rewrite Hnil in Hr. clear Hnil.
  destruct (Z.ltb_spec (Z.of_nat (Nat.min 128 (length l))) 128) as [Hlt|Hge].
  - injection Hr as <- <-. split; [done|]. split; [by rewrite Hv|]. intros ks [= <-].
    by rewrite take_ge by lia.
  - eapply IH in Hr as (Hnd & (Ef & Et & Ed) & Hks).
    + split; [done|]. split; [unfold still in *; rewrite Ef, Et, Ed, Hv; done|].
      intros ks Hk. rewrite (Hks ks Hk), <- app_assoc, <- owned_keys_app, <- map_app, take_drop. done.
    + rewrite Hv. cbn. apply lookup_insert_eq.
    + rewrite length_drop. lia.
Qed.

Lemma delete_keys_run h keys : ∀ w w' r, delete_keys h keys w = (w', r) →
  r ≠ Diverged ∧ transaction (view w') = transaction (view w) ∧ dynamic (view w') = dynamic (view w)
  ∧ (r = Done tt → filters (view w') =
       filter (λ i, filterKey (item i) ∉ keys) (filters (view w))).
Proof.
  induction keys as [|k keys IH]; intros w w' r Hr; cbn [delete_keys] in Hr.
  - injection Hr as <- <-. split_and!; try done. intros _. symmetry. apply filter_all.
    apply Forall_forall. intros i _. apply not_elem_of_nil.
  - unfold bind, guardCall in Hr. destruct (FwpmFilterDeleteByKey0 h k w) as [w1 s] eqn:Es.
    destruct (Z.eqb_spec (r1 s) 0) as [E|E].
    + apply delete_ok in Es; [|done]. apply IH in Hr as (? & Ht & Hd & Hf). rewrite Es in *.
      cbn in *. split_and!; try done. intros Hd'. rewrite (Hf Hd'), list_filter_filter.
      apply list_filter_iff. intros i. rewrite not_elem_of_cons. tauto.
    + apply delete_fails in Es; [|done]. injection Hr as <- <-. rewrite Es. done.
Qed.

(** A filter of the guard: its provider and its sublayer are the guard's. *)
Definition is_owned (i : installed) : Prop :=
  providerKey (item i) = Some previewGuardProvider ∧ subLayerKey (item i) = previewGuardSublayer.

#[export] Instance is_owned_dec i : Decision (is_owned i).
Proof. unfold is_owned. apply _. Defined.

Lemma guardOwned_spec i : guardOwned (Some (item i)) = true ↔ is_owned i.
Proof.
  unfold is_owned. cbn. destruct (providerKey (item i)) as [k|]; [|naive_solver].
  destruct (guid_eqb_spec k previewGuardProvider) as [->|],
    (guid_eqb_spec (subLayerKey (item i)) previewGuardSublayer) as [->|]; naive_solver.
Qed.

Definition keys_distinct (v : wfp_view) : Prop := NoDup (map (λ i, filterKey (item i)) (filters v)).

Lemma elem_of_owned_keys k l :
  k ∈ owned_keys (map Some l) ↔ ∃ f, f ∈ l ∧ guardOwned (Some f) = true ∧ filterKey f = k.
Proof.
  induction l as [|f l IH]; cbn [map owned_keys].
  - split; [by intros ?%not_elem_of_nil|]. by intros (f & ?%not_elem_of_nil & _).
  - destruct (guardOwned (Some f)) eqn:E.
    + rewrite elem_of_cons, IH. setoid_rewrite elem_of_cons. split.
      * intros [->|(g & Hg & Hk)]; [exists f; auto|exists g; auto].
      * intros (g & [->|Hg] & Ho & Hk); [by left|right; by exists g].
    + rewrite IH. setoid_rewrite elem_of_cons. split.
      * intros (g & Hg & Hk). exists g. auto.
      * intros (g & [->|Hg] & Ho & Hk); [congruence|by exists g].
Qed.

(** Deleting the keys of the owned filters deletes the owned filters. *)
Lemma filter_owned_keys l : NoDup (map (λ i, filterKey (item i)) l) →
  filter (λ i, filterKey (item i) ∉ owned_keys (map Some (map item l))) l
  = filter (λ i, ¬ is_owned i) l.
Proof.
  intros Hnd. apply filter_ext_in. intros i Hi. rewrite elem_of_owned_keys, <- guardOwned_spec. split.
  - intros Hk Ho. apply Hk. exists (item i). split; [|done]. apply list_elem_of_fmap. eauto.
  - intros Ho (f & Hf & Hfo & Hk). apply list_elem_of_fmap in Hf as (j & -> & Hj).
    assert (i = j) as ->; [|done]. apply list_elem_of_lookup in Hi as (a & Ha).
    apply list_elem_of_lookup in Hj as (b & Hb).
    assert (a = b) as ->; [|congruence].
    eapply (NoDup_lookup _ a b (filterKey (item i))); [exact Hnd|..].
    + by rewrite list_lookup_fmap, Ha.
    + by rewrite list_lookup_fmap, Hb; cbn; rewrite Hk.
Qed.

Lemma clearGuardFilters_run fuel h w w' r :
  (length (filters (view w)) < fuel * 128)%nat → clearGuardFilters fuel h w = (w', r) →
  r ≠ Diverged ∧ transaction (view w') = transaction (view w) ∧ dynamic (view w') = dynamic (view w)
  ∧ (keys_distinct (view w) → r = Done tt →
       filters (view w') = filter (λ i, ¬ is_owned i) (filters (view w))).
Proof.
  intros Hfuel Hr. unfold clearGuardFilters, bind at 1, guardCall at 1 in Hr.
  destruct (FwpmFilterCreateEnumHandle0 h w) as [w1 s] eqn:Es. apply create_enum_view in Es.
  destruct (Z.eqb_spec (r1 s) 0) as [E|E]; [|by injection Hr as <- <-; rewrite Es].
  set (e := out s) in *. unfold defer in Hr.
  destruct (bind _ _ w1) as [w2 r2] eqn:Eb.
  destruct (guardCall (FwpmFilterDestroyEnumHandle0 h e) w2) as [w3 r3] eqn:Ed.
  injection Hr as <- <-. cbn [fst].
  assert (Hs : still (view w2) (view w3)).
  { unfold guardCall in Ed. destruct (FwpmFilterDestroyEnumHandle0 h e w2) as [w4 s4] eqn:Ed'.
    apply destroy_enum_view in Ed'. by injection Ed as <- _. }
  destruct Hs as (Hf3 & Ht3 & Hd3). rewrite Hf3, Ht3, Hd3.
  unfold bind in Eb. destruct (enumerate_keys fuel h e [] w1) as [w5 r5] eqn:Ee.
  eapply enumerate_keys_run in Ee as (Hnd & (Ef5 & Et5 & Ed5) & Hks);
    [|rewrite Es; cbn; apply lookup_insert_eq|by rewrite length_map].
  rewrite Es in Ef5, Et5, Ed5. cbn in Ef5, Et5, Ed5.
  destruct r5 as [ks|er|]; [|injection Eb as <- <-; split_and!; congruence || done|done].
  specialize (Hks ks eq_refl). cbn [app] in Hks. subst ks.
  apply delete_keys_run in Eb as (? & Ht & Hd & Hf). split_and!; [done|congruence|congruence|].
  intros Hk Hdone. rewrite (Hf Hdone), Ef5. by apply filter_owned_keys.
Qed.

(** ** SetPreviewGuard *)

Definition guard_objects : baseObjects :=
  {| provider := previewGuardProvider; sublayer := previewGuardSublayer |}.

Definition guard_rules luid app1 app2 sd : list wtFwpmFilter0 :=
  let bo := guard_objects in
  executable_rules bo 15 app1 sd ++ executable_rules bo 15 app2 sd
  ++ everywhere bo 0 13 loopback_conditions cFWP_ACTION_PERMIT
  ++ (if luid =? 0 then [] else everywhere bo 0 12 (tun_conditions luid) cFWP_ACTION_PERMIT)
  ++ dhcp4_rules bo 12 ++ dhcp6_rules bo 12 ++ ndp_rules bo 12
  ++ everywhere bo 0 0 [] cFWP_ACTION_BLOCK.

Lemma adds_guard_rules h path luid :
  adds h
    (permitExecutable h guard_objects 15 path ;;
     permitWireGuardService h guard_objects 15 ;;
     permitLoopback h guard_objects 13 ;;
     (if negb (luid =? 0) then permitTunInterface h guard_objects 12 luid else ret tt) ;;
     permitDHCPIPv4 h guard_objects 12 ;;
     permitDHCPIPv6 h guard_objects 12 ;;
     permitNdp h guard_objects 12 ;;
     blockAll h guard_objects 0)
    (λ _ fs, ∃ app1 app2 sd, names_app path app1 ∧ names_app "" app2
      ∧ SecurityDescriptorFromString "D:(A;;CC;;;SY)" = inr sd ∧ fs = guard_rules luid app1 app2 sd).
Proof.
  eapply adds_bind; [apply adds_executable|]. intros ? ? (app1 & sd1 & Happ1 & Hsd1 & ->).
  eapply adds_bind; [apply adds_executable|]. intros ? ? (app2 & sd2 & Happ2 & Hsd2 & ->).
  cbn in Hsd1, Hsd2.
  eapply adds_bind; [apply adds_loopback|]. intros ? ? ->.
  eapply adds_bind with (Q := λ _ fs, fs =
    if luid =? 0 then [] else everywhere guard_objects 0 12 (tun_conditions luid) cFWP_ACTION_PERMIT).
  { destruct (luid =? 0); cbn [negb]; [by apply adds_ret|apply adds_tun]. }
  intros ? ? ->. eapply adds_bind; [apply adds_dhcp4|]. intros ? ? ->.
  eapply adds_bind; [apply adds_dhcp6|]. intros ? ? ->.
  eapply adds_bind; [apply adds_ndp|]. intros ? ? ->.
  eapply adds_weaken; [apply adds_block_all|]. cbv beta. intros _ ? ->.
  exists app1, app2, sd1. assert (sd2 = sd1) as -> by congruence.
  by split_and!.
Qed.

Lemma adds_tolerate h (call : W → W * sysret unit) :
  (∀ w w' r, call w = (w', r) → view w' = view w) →
  adds h (tolerate_existing (zsyscall call)) (λ _ fs, fs = []).
Proof.
  intros Hc w w' r Hr. unfold tolerate_existing, catch in Hr.
  destruct (zsyscall call w) as [w1 r1'] eqn:E1.
  pose proof (adds_quiet h call Hc _ _ _ E1) as (Hnd & fs & Hg & HQ). destruct r1' as [[]|e|]; [| |done].
  - injection Hr as <- <-. split; [done|]. exists fs. split; [done|]. intros ? _. by apply (HQ tt).
  - assert (view w1 = view w) as Ev.
    { unfold zsyscall in E1. destruct (call w) as [w2 s] eqn:Ec. injection E1 as <- _. eauto. }
    assert (w' = w1 ∧ r ≠ Diverged) as [-> Hr'].
    { by destruct (negb _); injection Hr as <- <-. }
    split; [done|]. exists []. rewrite Ev. split; [apply grows_refl|done].
Qed.

Lemma guardInstaller_run fuel path luid h w w' r :
  (length (filters (view w)) < fuel * 128)%nat → guardInstaller fuel path luid h w = (w', r) →
  r ≠ Diverged ∧ transaction (view w') = transaction (view w) ∧ dynamic (view w') = dynamic (view w)
  ∧ (keys_distinct (view w) → r = Done tt → ∃ app1 app2 sd news,
       names_app path app1 ∧ names_app "" app2
       ∧ SecurityDescriptorFromString "D:(A;;CC;;;SY)" = inr sd
       ∧ filters (view w') = filter (λ i, ¬ is_owned i) (filters (view w)) ++ news
       ∧ Forall (λ i, owner i = owner_of (view w) h) news
       ∧ map (λ i, essence (item i)) news = guard_rules luid app1 app2 sd).
Proof.
  intros Hfuel Hr. unfold guardInstaller in Hr.
  unfold bind at 1 in Hr. destruct (createWtFwpmDisplayData0 _ _ w) as [w1 [dd|e|]] eqn:E1;
    [|destruct (adds_display h _ _ _ _ _ E1) as (_ & fs & (Et & Ed & _) & _);
      injection Hr as <- <-; split_and!; congruence || done|by destruct (adds_display h _ _ _ _ _ E1)].
  apply (quiet_done h) in E1 as (Ef1 & Et1 & Ed1); [|apply adds_display].
  unfold bind at 1 in Hr. destruct (tolerate_existing _ w1) as [w2 [[]|e|]] eqn:E2;
    [|destruct (adds_tolerate h _ (provider_view h _) _ _ _ E2) as (_ & fs & (Et & Ed & _) & _);
      injection Hr as <- <-; split_and!; congruence || done
     |by destruct (adds_tolerate h _ (provider_view h _) _ _ _ E2)].
  apply (quiet_done h) in E2 as (Ef2 & Et2 & Ed2); [|apply adds_tolerate, provider_view].
  unfold bind at 1 in Hr. destruct (tolerate_existing _ w2) as [w3 [[]|e|]] eqn:E3;
    [|destruct (adds_tolerate h _ (sublayer_view h _) _ _ _ E3) as (_ & fs & (Et & Ed & _) & _);
      injection Hr as <- <-; split_and!; congruence || done
     |by destruct (adds_tolerate h _ (sublayer_view h _) _ _ _ E3)].
  apply (quiet_done h) in E3 as (Ef3 & Et3 & Ed3); [|apply adds_tolerate, sublayer_view].
  unfold bind at 1 in Hr. destruct (clearGuardFilters fuel h w3) as [w4 r4] eqn:E4.
  apply clearGuardFilters_run in E4 as (Hnd & Et4 & Ed4 & Hf4); [|congruence].
  destruct r4 as [[]|e|]; [|injection Hr as <- <-; split_and!; congruence || done|done].
  destruct (adds_guard_rules h path luid _ _ _ Hr) as (Hnd' & fs & (Et5 & Ed5 & news & Ef5 & Ho & He) & HQ).
  split_and!; [done|congruence|congruence|]. intros Hk Hdone.
  destruct (HQ tt Hdone) as (app1 & app2 & sd & ? & ? & ? & ->). exists app1, app2, sd, news.
  assert (Hf4' : filters (view w4) = filter (λ i, ¬ is_owned i) (filters (view w))).
  { rewrite Hf4, Ef3, Ef2, Ef1; [done| |done]. unfold keys_distinct in *. congruence. }
  split_and!; try done; [congruence|].
  assert (owner_of (view w4) h = owner_of (view w) h) as <-; [|done].
  unfold owner_of. assert (dynamic (view w4) = dynamic (view w)) as -> by congruence. done.
Qed.


(** A session of [guardOpen] around a transaction whose operation, from filters
    satisfying [B], turns the filters [fs] into [fs'] with [R fs fs']. *)
Lemma guard_session (B : list installed → Prop) (R : list installed → list installed → Prop)
    (op : Z → M W unit) w w' r :
  (∀ h, tame B (op h)) → B (filters (view w)) →
  (∀ h w1 w2, filters (view w1) = filters (view w) → owner_of (view w1) h = None →
     op h w1 = (w2, Done tt) → R (filters (view w1)) (filters (view w2))) →
  (∀ h fs fs', Forall (λ i, owner i ≠ Some h) fs → R fs fs' → Forall (λ i, owner i ≠ Some h) fs') →
  (let! session := guardOpen in
   defer (zsyscall (FwpmEngineClose0 session)) (runTransaction session op)) w = (w', r) →
  r ≠ Diverged ∧ (r = Done tt → R (filters (view w)) (filters (view w')))
  ∧ (r ≠ Done tt → filters (view w') = filters (view w)).
Proof.
  intros Hop HB Hdone HR Hr. unfold bind, guardOpen, zsyscall at 1 in Hr.
  destruct (FwpmEngineOpen0 _ w) as [w1 s] eqn:Eo.
  destruct (Z.eqb_spec (r1 s) 0) as [E|E].
  2:{ apply open_fails in Eo; [|done]. injection Hr as <- <-. rewrite Eo. done. }
  apply open_ok in Eo as (H0 & Hd & Hf & Ht & Hv); [|done]. cbn in Hv.
  set (h := out s) in *. unfold defer in Hr.
  destruct (runTransaction h op w1) as [w2 r2] eqn:Er.
  destruct (zsyscall (FwpmEngineClose0 h) w2) as [w3 r3] eqn:Ec. injection Hr as <- <-. cbn [fst].
  assert (Hc : view w3 = close_session h (view w2)).
  { unfold zsyscall in Ec. destruct (FwpmEngineClose0 h w2) as [w4 s4] eqn:Ec'.
    apply close_ok in Ec' as [_ Ec']. by injection Ec as <- _. }
  assert (Hclose : ∀ fs, filters (view w2) = fs → Forall (λ i, owner i ≠ Some h) fs →
    (∀ gs, transaction (view w2) ≠ Some (h, gs)) → filters (view w3) = fs).
  { intros fs Hfs Ho Htx. rewrite Hc. unfold close_session.
    destruct (transaction (view w2)) as [[h' gs]|];
      [destruct (Z.eqb_spec h' h) as [->|]; [by destruct (Htx gs)|]|]; cbn; rewrite Hfs; by apply filter_all. }
  pose proof Er as Er'.
  apply (runTransaction_run B) in Er' as (Hnd & _ & Htx & Hfail); [|apply Hop|by rewrite Hv].
  split; [done|]. split.
  - intros ->. eapply (runTransaction_done B) in Er as (w4 & w5 & Hv4 & Ho & Hv5);
      [|apply Hop|by rewrite Hv].
    assert (HRw : R (filters (view w)) (filters (view w5))).
    { replace (filters (view w)) with (filters (view w4)) by (by rewrite Hv4, Hv).
      apply (Hdone h); [by rewrite Hv4, Hv| |done]. unfold owner_of. rewrite Hv4, Hv. cbn.
      by rewrite bool_decide_eq_false_2. }
    rewrite (Hclose (filters (view w5))); [done|by rewrite Hv5|by eapply HR|by rewrite Hv5].
  - intros Hr2. apply Hclose; [by rewrite (Hfail Hr2), Hv|done|].
    intros gs. destruct Htx as [-> | ->]; [rewrite Hv; apply Ht|done].
Qed.

Definition guard_bound (fuel : nat) (fs : list installed) : Prop := (length fs < fuel * 128)%nat.

Lemma SetPreviewGuard_run fuel path luid w w' r :
  keys_distinct (view w) → guard_bound fuel (filters (view w)) →
  SetPreviewGuard fuel path luid w = (w', r) →
  r ≠ Diverged
  ∧ (r = Done tt → ∃ app1 app2 sd news,
       names_app path app1 ∧ names_app "" app2
       ∧ SecurityDescriptorFromString "D:(A;;CC;;;SY)" = inr sd
       ∧ filters (view w') = filter (λ i, ¬ is_owned i) (filters (view w)) ++ news
       ∧ Forall (λ i, owner i = None) news
       ∧ map (λ i, essence (item i)) news = guard_rules luid app1 app2 sd)
  ∧ (r ≠ Done tt → filters (view w') = filters (view w)).
Proof.
  intros Hk HB. apply (guard_session (guard_bound fuel) (λ fs fs', ∃ app1 app2 sd news,
       names_app path app1 ∧ names_app "" app2
       ∧ SecurityDescriptorFromString "D:(A;;CC;;;SY)" = inr sd
       ∧ fs' = filter (λ i, ¬ is_owned i) fs ++ news
       ∧ Forall (λ i, owner i = None) news
       ∧ map (λ i, essence (item i)) news = guard_rules luid app1 app2 sd)); [|done|..].
  - intros h w1 w2 r2 HB1 Hr. by apply guardInstaller_run in Hr as (? & ? & ? & _).
  - intros h w1 w2 Hf Ho Hr. apply guardInstaller_run in Hr as (_ & _ & _ & Hr);
      [|by rewrite Hf]. rewrite Ho in Hr. apply Hr; [|done]. unfold keys_distinct. by rewrite Hf.
  - intros h fs fs' Hfs (app1 & app2 & sd & news & _ & _ & _ & -> & Hn & _). apply Forall_app. split.
    + apply Forall_forall. intros i (_ & Hi)%list_elem_of_filter. by eapply Forall_forall in Hfs.
    + eapply Forall_impl; [exact Hn|]. by intros i ->.
Qed.

Lemma ClearPreviewGuard_run fuel w w' r :
  keys_distinct (view w) → guard_bound fuel (filters (view w)) →
  ClearPreviewGuard fuel w = (w', r) →
  r ≠ Diverged
  ∧ (r = Done tt → filters (view w') = filter (λ i, ¬ is_owned i) (filters (view w)))
  ∧ (r ≠ Done tt → filters (view w') = filters (view w)).
Proof.
  intros Hk HB. apply (guard_session (guard_bound fuel)
    (λ fs fs', fs' = filter (λ i, ¬ is_owned i) fs)); [|done|..].
  - intros h w1 w2 r2 HB1 Hr. by apply clearGuardFilters_run in Hr as (? & ? & ? & _).
  - intros h w1 w2 Hf Ho Hr. apply clearGuardFilters_run in Hr as (_ & _ & _ & Hr); [|by rewrite Hf].
    apply Hr; [|done]. unfold keys_distinct. by rewrite Hf.
  - intros h fs ? Hfs ->. apply Forall_forall. intros i (_ & Hi)%list_elem_of_filter.
    by eapply Forall_forall in Hfs.
Qed.

End Adds.
