(* ===== verification/FirewallPolicy.v ===== *)
(** * The firewall package: the traffic its filters decide

    An executable reading of the arbitration ([decidesb]), the policies the
    rules are meant to implement, and the lemma that the installed filters
    implement them in each of the four layers. *)
From S2P Require Import Prelude GoStrings GoNet Wfp Firewall FirewallFacts.

Open Scope Z_scope.

(** ** Arbitration as a table *)

Definition action_eqb (a b : wtFwpActionType) : bool :=
  match a, b with
  | cFWP_ACTION_BLOCK, cFWP_ACTION_BLOCK | cFWP_ACTION_PERMIT, cFWP_ACTION_PERMIT => true
  | _, _ => false
  end.

(** Whether a filter matches, its weight and its action. *)
Definition entry : Type := bool * Z * wtFwpActionType.

Definition entry_of (sub layer : GUID) (p : packet) (f : wtFwpmFilter0) : entry :=
  (guid_eqb (subLayerKey f) sub && matches layer p f, weight_of f, action f).

Definition decidesb (es : list entry) (a : wtFwpActionType) : bool :=
  existsb (λ e, e.1.1 && action_eqb e.2 a
    && forallb (λ e', implb e'.1.1 (e'.1.2 <=? e.1.2)) es) es.

Lemma action_eqb_true a b : action_eqb a b = true ↔ a = b.
Proof. by destruct a, b. Qed.

Lemma forallb_map {A B} (f : B → bool) (g : A → B) l : forallb f (map g l) = forallb (λ x, f (g x)) l.
Proof. induction l as [|x l IH]; cbn; congruence. Qed.

Lemma decision_table fs sub layer p a :
  sublayer_decision fs sub layer p a ↔ decidesb (map (entry_of sub layer p) fs) a = true.
Proof.
  unfold sublayer_decision, decidesb. rewrite existsb_exists. split.
  - intros (f & Hf & <- & Hm & <- & Hmax). exists (entry_of (subLayerKey f) layer p f).
    split; [by apply in_map, list_elem_of_In|]. cbn. rewrite guid_eqb_refl, Hm. cbn.
    apply andb_true_iff. split; [by apply action_eqb_true|]. rewrite forallb_map. apply forallb_forall.
    intros g Hg%list_elem_of_In. cbn. destruct (guid_eqb_spec (subLayerKey g) (subLayerKey f)) as [E|]; [|done].
    destruct (matches layer p g) eqn:E'; [|done]. apply Z.leb_le. auto.
  - intros (e & (f & <- & Hf%list_elem_of_In)%in_map_iff & He). cbn in He. breflect.
    destruct (guid_eqb_spec (subLayerKey f) sub) as [<-|]; [|done]. exists f.
    split; [done|]. split; [done|]. split; [done|]. split; [by apply action_eqb_true|].
    intros g Hg Hsub Hm. match goal with Ha : forallb _ _ = true |- _ => rename Ha into Hall end.
    rewrite forallb_map, forallb_forall in Hall. specialize (Hall g (proj1 (list_elem_of_In _ _) Hg)).
    cbn in Hall. rewrite Hsub, guid_eqb_refl, Hm in Hall. by apply Z.leb_le in Hall.
Qed.

(** Filters that cannot match can be left out. *)
Lemma decidesb_filter es a : decidesb (List.filter (λ e, e.1.1) es) a = decidesb es a.
Proof.
  unfold decidesb. apply eq_true_iff_eq. rewrite !existsb_exists. split.
  - intros (e & [He Hb]%filter_In & H). exists e. split; [done|]. breflect.
    match goal with Ha : forallb _ _ = true |- _ => rename Ha into Hall end.
    rewrite forallb_forall in Hall. apply andb_true_iff. split; [by apply andb_true_iff|].
    apply forallb_forall. intros e' He'. destruct (e'.1.1) eqn:E; [|done].
    specialize (Hall e' (proj2 (filter_In _ _ _) (conj He' E))). by rewrite E in Hall.
  - intros (e & He & H). exists e. breflect.
    match goal with Ha : forallb _ _ = true |- _ => rename Ha into Hall end.
    split; [by apply filter_In|]. apply andb_true_iff. split; [by apply andb_true_iff|].
    rewrite forallb_forall in Hall. apply forallb_forall. intros e' [He' _]%filter_In. auto.
Qed.

Lemma decidesb_skip es es' a : Forall (λ e, e.1.1 = false) es → decidesb (es ++ es') a = decidesb es' a.
Proof.
  intros He. rewrite <- (decidesb_filter (es ++ es')), <- (decidesb_filter es'). f_equal.
  induction He as [|e l He _ IH]; [done|]. cbn. by rewrite He.
Qed.

Lemma entry_essence sub layer p f : entry_of sub layer p (essence f) = entry_of sub layer p f.
Proof. done. Qed.

(** The decision after a run that appended the filters [rs] to others. *)
Lemma decision_of_rules olds news rs sub layer p a :
  Forall (λ i, subLayerKey (item i) ≠ sub) olds →
  map (λ i, essence (item i)) news = rs →
  sublayer_decision (map item (olds ++ news)) sub layer p a
  ↔ decidesb (map (entry_of sub layer p) rs) a = true.
Proof.
  intros Ho <-. rewrite decision_table, !map_app, decidesb_skip; [by rewrite !map_map|].
  rewrite map_map. apply Forall_map. eapply Forall_impl; [exact Ho|]. intros i Hi. cbn.
  by destruct (guid_eqb_spec (subLayerKey (item i)) sub).
Qed.

Lemma entry_of_rule bo fl w cs a L layer p :
  entry_of (sublayer bo) layer p (rule bo fl w cs a L)
  = (guid_eqb L layer && conditions_hold cs p, w, a).
Proof.
  unfold rule. rewrite guarded_literal. unfold entry_of, matches. rewrite conditions_of_literal.
  cbn [subLayerKey filter_literal layerKey]. by rewrite guid_eqb_refl.
Qed.

(** ** Addresses *)

Lemma be_snoc l b : be (l ++ [b]) = be l * 256 + bz b.
Proof. unfold be. by rewrite foldl_app. Qed.

Lemma be_inj l : ∀ k, length l = length k → be l = be k → l = k.
Proof.
  induction l as [|b l IH] using rev_ind; intros k Hl Hb.
  - by destruct k.
  - destruct k as [|c k _] using rev_ind; [by rewrite length_app in Hl; cbn in Hl; lia|].
    rewrite !length_app in Hl. cbn in Hl. rewrite !be_snoc in Hb.
    pose proof (bz_range b). pose proof (bz_range c).
    assert (be l = be k ∧ bz b = bz c) as [E1 E2] by lia.
    by rewrite (IH k ltac:(lia) E1), (bz_inj _ _ E2).
Qed.

Lemma v4_value_matches a addr : length a = 4%nat →
  addr_value_matches (cFWP_UINT32 (be a)) addr = (addr =?s a).
Proof.
  intros Ha. cbn. destruct (str_eqb_spec addr a) as [->|Hne].
  - by rewrite Ha, Z.eqb_refl.
  - destruct (Nat.eqb_spec (length addr) 4) as [El|]; [|done]. cbn.
    apply Z.eqb_neq. intros E. apply Hne, be_inj; congruence.
Qed.

(** ** Policies *)

Section Policy.
Context (p : packet).

Definition service_packet (app sd : list byte) : bool := (pk_app_id p =?s app) && pk_access p sd.
Definition loopback_packet : bool := Z.land (pk_flags p) 1 =? 1.
Definition tun_packet (luid : Z) : bool := pk_interface p =? luid.

Definition udp : bool := pk_protocol p =? 17.
Definition tcp : bool := pk_protocol p =? 6.
Definition ports (l r : Z) : bool := (pk_local_port p =? l) && (pk_remote_port p =? r).

(** fe80::/10 *)
Definition link_local (a : list byte) : bool :=
  (length a =? 16)%nat && (Z.shiftr (be a) 118 =? 0x3fa).

(** What keeps the physical link alive: DHCP and neighbour discovery. *)
Definition dhcp4_out : bool :=
  udp && ports 68 67 && (pk_remote_address p =?s [xff; xff; xff; xff]).
Definition dhcp4_in : bool := udp && ports 68 67.
Definition dhcp6_out : bool :=
  udp && ports 546 547 && link_local (pk_local_address p)
  && ((pk_remote_address p =?s [xff; x02] ++ zeros 11 ++ [x01; x00; x02])
      || (pk_remote_address p =?s [xff; x05] ++ zeros 11 ++ [x01; x00; x03])).
Definition dhcp6_in : bool :=
  udp && ports 546 547 && link_local (pk_local_address p) && link_local (pk_remote_address p).

(** The port fields of an ICMP packet are its type and code. *)
Definition icmpv6 (type : Z) : bool :=
  (pk_protocol p =? 58) && (pk_local_port p =? type) && (pk_remote_port p =? 0).
Definition ndp_out : bool :=
  (icmpv6 133 && (pk_remote_address p =?s [xff; x02] ++ zeros 11 ++ [x00; x00; x02]))
  || icmpv6 135 || icmpv6 136.
Definition ndp_in : bool :=
  ((icmpv6 134 || icmpv6 137) && link_local (pk_remote_address p)) || icmpv6 135 || icmpv6 136.

Definition link_maintenance (layer : GUID) : bool :=
  if guid_eqb layer cFWPM_LAYER_ALE_AUTH_CONNECT_V4 then dhcp4_out
  else if guid_eqb layer cFWPM_LAYER_ALE_AUTH_RECV_ACCEPT_V4 then dhcp4_in
  else if guid_eqb layer cFWPM_LAYER_ALE_AUTH_CONNECT_V6 then dhcp6_out || ndp_out
  else dhcp6_in || ndp_in.

Definition dns_packet : bool := (pk_remote_port p =? 53) && (udp || tcp).

(** The wire address of a [net.IP]. *)
Definition wire_address (ip : IP) : list byte := default ip (To4 ip).
Definition dns_listed (dns : list IP) : bool :=
  existsb (λ ip, pk_remote_address p =?s wire_address ip) dns.

(** The kill switch: the service always; a DNS packet, if servers are given,
    only to them; anything else on loopback, on the tunnel or for the link. *)
Definition kill_switch (luid : Z) (dns : list IP) (app sd : list byte) (layer : GUID) : bool :=
  service_packet app sd
  || (if (0 <? length dns)%nat && dns_packet then dns_listed dns
      else loopback_packet || tun_packet luid || link_maintenance layer).

(** The guard: engine and manager, loopback, the tunnel if there is one, the link. *)
Definition guard_policy (luid : Z) (app1 app2 sd : list byte) (layer : GUID) : bool :=
  service_packet app1 sd || service_packet app2 sd || loopback_packet
  || (negb (luid =? 0) && tun_packet luid) || link_maintenance layer.

(** The addresses of the packet have the width of the layer. *)
Definition fits (layer : GUID) : bool :=
  (length (pk_remote_address p) =?
    (if guid_eqb layer cFWPM_LAYER_ALE_AUTH_CONNECT_V4
        || guid_eqb layer cFWPM_LAYER_ALE_AUTH_RECV_ACCEPT_V4 then 4 else 16))%nat.

(** ** Conditions against policies *)

Ltac reduce_conditions :=
  unfold conditions_hold;
  cbn [forallb existsb condition_holds equal fieldKey matchType conditionValue app
       permitDHCPIPv4_request permitDHCPIPv4_response permitDHCPIPv6_request permitDHCPIPv6_response
       ndp_conditions denyConditions tun_conditions loopback_conditions executable_conditions
       to_routers from_link];
  unfold condition_holds;
  cbn [equal fieldKey matchType conditionValue];
  eval_guids; cbn [andb orb].

Lemma tun_hold luid : conditions_hold (tun_conditions luid) p = tun_packet luid.
Proof. reduce_conditions. unfold tun_packet. by destruct (_ =? _). Qed.

Lemma loopback_hold : conditions_hold loopback_conditions p = loopback_packet.
Proof. reduce_conditions. unfold loopback_packet. by destruct (_ =? _). Qed.

Lemma executable_hold app sd : conditions_hold (executable_conditions app sd) p = service_packet app sd.
Proof. reduce_conditions. unfold service_packet. by destruct (str_eqb _ _), (pk_access p sd). Qed.


Lemma link_local_matches a : addr_value_matches linkLocal a = link_local a.
Proof. reflexivity. Qed.

Lemma broadcast_matches a :
  addr_value_matches (cFWP_UINT32 0xffffffff) a = (a =?s [xff; xff; xff; xff]).
Proof. exact (v4_value_matches [xff; xff; xff; xff] a eq_refl). Qed.

Ltac by_cases :=
  repeat match goal with
  | |- context [?a =? ?b] => let E := fresh in destruct (a =? b) eqn:E
  | |- context [str_eqb ?a ?b] => let E := fresh in destruct (str_eqb a b) eqn:E
  | |- context [link_local ?a] => let E := fresh in destruct (link_local a) eqn:E
  end; reflexivity.

Lemma dhcp4_out_hold : conditions_hold permitDHCPIPv4_request p = dhcp4_out.
Proof.
  reduce_conditions. rewrite broadcast_matches. unfold dhcp4_out, udp, ports, cIPPROTO_UDP. by_cases.
Qed.

Lemma dhcp4_in_hold : conditions_hold permitDHCPIPv4_response p = dhcp4_in.
Proof. reduce_conditions. unfold dhcp4_in, udp, ports, cIPPROTO_UDP. by_cases. Qed.

Lemma dhcp6_out_hold : conditions_hold permitDHCPIPv6_request p = dhcp6_out.
Proof.
  reduce_conditions. rewrite link_local_matches. unfold dhcp6_out, udp, ports, cIPPROTO_UDP.
  cbn [addr_value_matches linkLocalDHCPMulticast siteLocalDHCPMulticast]. by_cases.
Qed.

Lemma dhcp6_in_hold : conditions_hold permitDHCPIPv6_response p = dhcp6_in.
Proof.
  reduce_conditions.
  rewrite (link_local_matches (pk_local_address p)), (link_local_matches (pk_remote_address p)).
  unfold dhcp6_in, udp, ports, cIPPROTO_UDP. by_cases.
Qed.

Lemma ndp_routers_hold t : conditions_hold (ndp_conditions t to_routers) p
  = icmpv6 t && (pk_remote_address p =?s [xff; x02] ++ zeros 11 ++ [x00; x00; x02]).
Proof.
  reduce_conditions. unfold icmpv6, cIPPROTO_ICMPV6.
  cbn [addr_value_matches linkLocalRouterMulticast app]. by_cases.
Qed.

Lemma ndp_link_hold t :
  conditions_hold (ndp_conditions t from_link) p = icmpv6 t && link_local (pk_remote_address p).
Proof. reduce_conditions. rewrite link_local_matches. unfold icmpv6, cIPPROTO_ICMPV6. by_cases. Qed.

Lemma ndp_any_hold t : conditions_hold (ndp_conditions t []) p = icmpv6 t.
Proof. reduce_conditions. unfold icmpv6, cIPPROTO_ICMPV6. by_cases. Qed.

Lemma deny_hold : conditions_hold denyConditions p = dns_packet.
Proof. reduce_conditions. unfold dns_packet, udp, tcp, cIPPROTO_UDP, cIPPROTO_TCP. by_cases. Qed.

(** Server conditions, all on the remote address, are alternatives. *)
Lemma servers_hold cs : cs ≠ [] →
  Forall (λ c, fieldKey c = cFWPM_CONDITION_IP_REMOTE_ADDRESS) cs →
  conditions_hold (denyConditions ++ cs) p = dns_packet && existsb (λ c, condition_holds c p) cs.
Proof.
  intros Hne Hcs. rewrite <- deny_hold. unfold conditions_hold. rewrite forallb_app. f_equal.
  - cbn [forallb denyConditions]. rewrite !existsb_app.
    assert (∀ k, guid_eqb cFWPM_CONDITION_IP_REMOTE_ADDRESS k = false →
      existsb (λ c', guid_eqb (fieldKey c') k && condition_holds c' p) cs = false) as E.
    { intros k Hk. clear Hne. induction Hcs as [|c l Hc _ IH]; [done|]. cbn. by rewrite Hc, Hk, IH. }
    rewrite !E by (vm_compute; reflexivity). by rewrite !orb_false_r.
  - apply eq_true_iff_eq. rewrite forallb_forall, existsb_exists. split.
    + intros Hall. destruct cs as [|c cs]; [done|]. specialize (Hall c (in_eq _ _)).
      apply existsb_exists in Hall as (c' & Hc' & Hh). breflect. exists c'. split; [|done].
      apply in_app_or in Hc' as [Hc'|Hc']; [|done]. exfalso. inversion Hcs as [|? ? Hk _]; subst.
      rewrite Hk in *. destruct Hc' as [<-|[<-|[<-|[]]]]; discriminate.
    + intros (c' & Hc' & Hh) c Hc. apply existsb_exists. exists c'.
      split; [by apply in_or_app; right|]. rewrite Hh, andb_true_r.
      rewrite Forall_forall in Hcs. rewrite !Hcs by (by apply list_elem_of_In). apply guid_eqb_refl.
Qed.

Lemma except_v4_keys dns : Forall (λ c, fieldKey c = cFWPM_CONDITION_IP_REMOTE_ADDRESS) (except_v4 dns).
Proof. induction dns as [|ip l IH]; cbn; [done|]. by destruct (To4 ip); [constructor|]. Qed.

Lemma except_v6_keys dns : Forall (λ c, fieldKey c = cFWPM_CONDITION_IP_REMOTE_ADDRESS) (except_v6 dns).
Proof. induction dns as [|ip l IH]; cbn; [done|]. by destruct (To4 ip); [|constructor]. Qed.

Lemma remote_holds v : condition_holds (equal cFWPM_CONDITION_IP_REMOTE_ADDRESS v) p
  = addr_value_matches v (pk_remote_address p).
Proof. unfold condition_holds. cbn [equal matchType conditionValue fieldKey]. eval_guids. by destruct v. Qed.

Definition ip_sized (ip : IP) : Prop := length ip = 4%nat ∨ length ip = 16%nat.

Lemma wire_neq ip n : ip_sized ip → length (pk_remote_address p) = n →
  length (wire_address ip) ≠ n → (pk_remote_address p =?s wire_address ip) = false.
Proof. intros _ Hl Hn. apply str_eqb_false. congruence. Qed.

Lemma v4_servers dns : Forall ip_sized dns → length (pk_remote_address p) = 4%nat →
  existsb (λ c, condition_holds c p) (except_v4 dns) = dns_listed dns.
Proof.
  intros Hs Hl. unfold dns_listed. induction Hs as [|ip l Hip _ IH]; [done|]. cbn [except_v4 existsb].
  destruct (To4 ip) as [a|] eqn:E.
  - cbn [existsb]. rewrite remote_holds, v4_value_matches, IH by (by eapply To4_length).
    unfold wire_address. by rewrite E.
  - rewrite (wire_neq ip 4); [exact IH|done|done|]. unfold wire_address. rewrite E. cbn.
    destruct Hip as [Hip|Hip]; [|lia]. unfold To4 in E. by rewrite Hip in E.
Qed.

Lemma v6_servers dns : Forall ip_sized dns → length (pk_remote_address p) = 16%nat →
  existsb (λ c, condition_holds c p) (except_v6 dns) = dns_listed dns.
Proof.
  intros Hs Hl. unfold dns_listed. induction Hs as [|ip l Hip _ IH]; [done|]. cbn [except_v6 existsb].
  destruct (To4 ip) as [a|] eqn:E.
  - rewrite (wire_neq ip 16); [exact IH|done|done|]. unfold wire_address. rewrite E. cbn.
    apply To4_length in E. lia.
  - cbn [existsb]. rewrite remote_holds, IH. unfold wire_address. rewrite E. cbn [addr_value_matches default from_option].
    destruct Hip as [Hip|Hip]; [unfold To4 in E; by rewrite Hip in E|].
    rewrite take_app_le, take_ge by lia. done.
Qed.

(** The permits for listed servers, where there are any. *)
Lemma allow_v4 dns : Forall ip_sized dns → length (pk_remote_address p) = 4%nat →
  (0 <? length (except_v4 dns))%nat && conditions_hold (allowConditionsV4 dns) p
  = dns_packet && dns_listed dns.
Proof.
  intros Hs Hl. rewrite <- (v4_servers dns) by done. unfold allowConditionsV4.
  destruct (except_v4 dns) as [|c cs] eqn:E; [by rewrite andb_false_r|].
  rewrite servers_hold; [done|done|]. rewrite <- E. apply except_v4_keys.
Qed.

Lemma allow_v6 dns : Forall ip_sized dns → length (pk_remote_address p) = 16%nat →
  (0 <? length (except_v6 dns))%nat && conditions_hold (allowConditionsV6 dns) p
  = dns_packet && dns_listed dns.
Proof.
  intros Hs Hl. rewrite <- (v6_servers dns) by done. unfold allowConditionsV6.
  destruct (except_v6 dns) as [|c cs] eqn:E; [by rewrite andb_false_r|].
  rewrite servers_hold; [done|done|]. rewrite <- E. apply except_v6_keys.
Qed.

(** ** The rules of a layer *)

Definition slot (b : bool) (w : Z) (a : wtFwpActionType) : list entry := if b then [(true, w, a)] else [].

(** The entries that match at a layer. *)
Definition live (bo : baseObjects) (layer : GUID) (fs : list wtFwpmFilter0) : list entry :=
  List.filter (λ e, e.1.1) (map (entry_of (sublayer bo) layer p) fs).

Lemma live_app bo layer fs gs : live bo layer (fs ++ gs) = live bo layer fs ++ live bo layer gs.
Proof. unfold live. by rewrite map_app, List.filter_app. Qed.

Lemma live_rule bo layer fl w cs a L fs :
  live bo layer (rule bo fl w cs a L :: fs)
  = slot (guid_eqb L layer && conditions_hold cs p) w a ++ live bo layer fs.
Proof. unfold live. cbn [map List.filter]. rewrite entry_of_rule. cbn. by destruct (_ && _). Qed.

Lemma live_nil bo layer : live bo layer [] = [].
Proof. done. Qed.

Lemma slot_off b w a : slot (false && b) w a = [].
Proof. done. Qed.

Lemma four_layers_cases (P : GUID → Prop) :
  P cFWPM_LAYER_ALE_AUTH_CONNECT_V4 → P cFWPM_LAYER_ALE_AUTH_RECV_ACCEPT_V4 →
  P cFWPM_LAYER_ALE_AUTH_CONNECT_V6 → P cFWPM_LAYER_ALE_AUTH_RECV_ACCEPT_V6 →
  ∀ layer, layer ∈ four_layers → P layer.
Proof.
  intros H1 H2 H3 H4 layer. unfold four_layers. rewrite !elem_of_cons, elem_of_nil.
  by intros [->|[->|[->|[->|[]]]]].
Qed.

Lemma live_everywhere bo layer fl w cs a : layer ∈ four_layers →
  live bo layer (everywhere bo fl w cs a) = slot (conditions_hold cs p) w a.
Proof.
  revert layer. apply four_layers_cases; unfold everywhere, four_layers; cbn [map];
    rewrite !live_rule, live_nil; eval_guids; cbn [andb slot app]; by rewrite ?app_nil_r.
Qed.

Ltac live_link :=
  unfold dhcp4_rules, dhcp6_rules, ndp_rules, ndp_table; cbn [map fst snd app];
  rewrite !live_rule, live_nil; eval_guids; rewrite !slot_off; cbn [andb app];
  rewrite ?dhcp4_out_hold, ?dhcp4_in_hold, ?dhcp6_out_hold, ?dhcp6_in_hold, ?ndp_routers_hold,
    ?ndp_link_hold, ?ndp_any_hold.

(** The link rules at a layer permit [link_maintenance] at weight [w]. *)
Lemma live_link_rules bo layer w : layer ∈ four_layers →
  ∃ bs, live bo layer (dhcp4_rules bo w ++ dhcp6_rules bo w ++ ndp_rules bo w)
        = mbind (λ b, slot b w cFWP_ACTION_PERMIT) bs
    ∧ existsb id bs = link_maintenance layer.
Proof.
  revert layer. apply four_layers_cases; live_link; unfold link_maintenance; eval_guids.
  - exists [dhcp4_out]. cbn. by rewrite !app_nil_r, orb_false_r.
  - exists [dhcp4_in]. cbn. by rewrite !app_nil_r, orb_false_r.
  - exists [dhcp6_out; icmpv6 133 && (pk_remote_address p =?s [xff; x02] ++ zeros 11 ++ [x00; x00; x02]);
            icmpv6 135; icmpv6 136].
    split; [done|]. unfold ndp_out. cbn [existsb id]. by rewrite orb_false_r, <- ?orb_assoc.
  - exists [dhcp6_in; icmpv6 134 && link_local (pk_remote_address p); icmpv6 135; icmpv6 136;
            icmpv6 137 && link_local (pk_remote_address p)].
    split; [done|]. unfold ndp_in. cbn [existsb id].
    by destruct dhcp6_in, (icmpv6 134), (icmpv6 135), (icmpv6 136), (icmpv6 137), (link_local _).
Qed.

Lemma live_link_same bo layer w : layer ∈ four_layers →
  ∀ e, e ∈ live bo layer (dhcp4_rules bo w ++ dhcp6_rules bo w ++ ndp_rules bo w)
    ↔ e ∈ slot (link_maintenance layer) w cFWP_ACTION_PERMIT.
Proof.
  intros HL e. destruct (live_link_rules bo layer w HL) as (bs & -> & <-).
  induction bs as [|b bs IH]; [done|]. cbn [mbind list_bind existsb]. rewrite elem_of_app, IH.
  unfold slot, id. destruct b, (existsb _ bs); cbn [orb]; rewrite ?elem_of_nil; tauto.
Qed.

(** Only the set of entries matters. *)
Lemma decidesb_same es es' a : (∀ e, e ∈ es ↔ e ∈ es') → decidesb es a = decidesb es' a.
Proof.
  intros He. unfold decidesb. apply eq_true_iff_eq. rewrite !existsb_exists.
  assert (∀ f : entry → bool, forallb f es = forallb f es') as Hall.
  { intros f. apply eq_true_iff_eq. rewrite !forallb_forall. split; intros Hf x Hx%list_elem_of_In;
      apply Hf, list_elem_of_In, He, Hx. }
  split; intros (e & Hin%list_elem_of_In & Hb); exists e;
    (split; [apply list_elem_of_In, He, Hin|]); [rewrite <- Hall|rewrite Hall]; done.
Qed.

Lemma decidesb_link bo layer w es es' a : layer ∈ four_layers →
  decidesb ((es ++ live bo layer (dhcp4_rules bo w ++ dhcp6_rules bo w ++ ndp_rules bo w)) ++ es') a
  = decidesb ((es ++ slot (link_maintenance layer) w cFWP_ACTION_PERMIT) ++ es') a.
Proof.
  intros HL. apply decidesb_same. intros e. by rewrite !elem_of_app, live_link_same.
Qed.

Lemma live_dns bo layer dns : layer ∈ four_layers → fits layer = true → Forall ip_sized dns →
  live bo layer (dns_rules dns bo 15 14)
  = slot dns_packet 14 cFWP_ACTION_BLOCK ++ slot (dns_packet && dns_listed dns) 15 cFWP_ACTION_PERMIT.
Proof.
  intros HL Hfit Hs. unfold dns_rules. rewrite live_app, live_everywhere, deny_hold by done. f_equal.
  revert Hfit. pattern layer. revert layer HL. apply four_layers_cases; unfold fits; eval_guids; cbn [orb];
    intros Hl%Nat.eqb_eq; rewrite live_app;
    [rewrite <- allow_v4 by done|rewrite <- allow_v4 by done
    |rewrite <- allow_v6 by done|rewrite <- allow_v6 by done];
    destruct (0 <? length (except_v4 dns))%nat, (0 <? length (except_v6 dns))%nat;
    cbn [map]; rewrite ?live_rule, ?live_nil; eval_guids; cbn [andb slot app]; by rewrite ?app_nil_r.
Qed.

(** The decision of the rules of [EnableFirewall] with restrictions. *)
Lemma enable_rules_decide bo luid dns app sd layer a :
  layer ∈ four_layers → fits layer = true → Forall ip_sized dns →
  decidesb (map (entry_of (sublayer bo) layer p) (enable_rules bo luid false dns app sd)) a
  = match a with
    | cFWP_ACTION_PERMIT => kill_switch luid dns app sd layer
    | cFWP_ACTION_BLOCK => negb (kill_switch luid dns app sd layer)
    end.
Proof.
  intros HL Hfit Hs. rewrite <- decidesb_filter. fold (live bo layer (enable_rules bo luid false dns app sd)).
  unfold enable_rules, restriction_rules, executable_rules.
  replace (dhcp4_rules bo 12 ++ dhcp6_rules bo 12 ++ ndp_rules bo 12 ++ everywhere bo 0 0 [] cFWP_ACTION_BLOCK)
    with ((dhcp4_rules bo 12 ++ dhcp6_rules bo 12 ++ ndp_rules bo 12)
          ++ everywhere bo 0 0 [] cFWP_ACTION_BLOCK) by (by rewrite <- !app_assoc).
  remember (dhcp4_rules bo 12 ++ dhcp6_rules bo 12 ++ ndp_rules bo 12) as links eqn:El.
  rewrite !live_app, ?app_assoc. subst links.
  rewrite !live_everywhere, executable_hold, loopback_hold, tun_hold by done.
  rewrite decidesb_link by done.
  unfold kill_switch. destruct (0 <? length dns)%nat; [rewrite live_dns by done|rewrite live_nil];
    destruct (service_packet app sd), dns_packet, (dns_listed dns), loopback_packet, (tun_packet luid),
      (link_maintenance layer), a; reflexivity.
Qed.

(** Without restrictions. *)
Lemma unrestricted_rules_decide bo luid dns app sd layer a : layer ∈ four_layers →
  decidesb (map (entry_of (sublayer bo) layer p) (enable_rules bo luid true dns app sd)) a
  = match a with cFWP_ACTION_PERMIT => service_packet app sd | cFWP_ACTION_BLOCK => false end.
Proof.
  intros HL. rewrite <- decidesb_filter. fold (live bo layer (enable_rules bo luid true dns app sd)).
  unfold enable_rules, executable_rules. rewrite app_nil_r, live_everywhere, executable_hold by done.
  by destruct (service_packet app sd), a.
Qed.

Lemma guard_rules_decide luid app1 app2 sd layer a :
  layer ∈ four_layers →
  decidesb (map (entry_of previewGuardSublayer layer p) (guard_rules luid app1 app2 sd)) a
  = match a with
    | cFWP_ACTION_PERMIT => guard_policy luid app1 app2 sd layer
    | cFWP_ACTION_BLOCK => negb (guard_policy luid app1 app2 sd layer)
    end.
Proof.
  intros HL.
  change previewGuardSublayer with (sublayer guard_objects).
  rewrite <- decidesb_filter. fold (live guard_objects layer (guard_rules luid app1 app2 sd)).
  unfold guard_rules, executable_rules. cbv zeta. generalize guard_objects. intros bo.
  replace (dhcp4_rules bo 12 ++ dhcp6_rules bo 12 ++ ndp_rules bo 12 ++ everywhere bo 0 0 [] cFWP_ACTION_BLOCK)
    with ((dhcp4_rules bo 12 ++ dhcp6_rules bo 12 ++ ndp_rules bo 12)
          ++ everywhere bo 0 0 [] cFWP_ACTION_BLOCK) by (by rewrite <- !app_assoc).
  remember (dhcp4_rules bo 12 ++ dhcp6_rules bo 12 ++ ndp_rules bo 12) as links eqn:El.
  rewrite !live_app, ?app_assoc. subst links.
  rewrite !live_everywhere, !executable_hold, loopback_hold by done.
  rewrite decidesb_link by done.
  unfold guard_policy.
  destruct (luid =? 0); [rewrite live_nil|rewrite live_everywhere, tun_hold by done];
    destruct (service_packet app1 sd), (service_packet app2 sd), loopback_packet, (tun_packet luid),
      (link_maintenance layer), a; reflexivity.
Qed.

End Policy.
