(* ===== verification/PlainWindows.v ===== *)
(** * A system on which the hypotheses of the firewall theorems hold

    [plain_windows]: a filtering engine that keeps its view as its state and
    whose calls succeed whenever their documented preconditions hold. It is
    the concrete instance of [Class Windows] the witnesses run on. *)
From S2P Require Import Prelude GoStrings GoNet Wfp.

Open Scope Z_scope.

Definition max_of {A} (f : A → Z) (l : list A) : Z := foldr (λ x m, Z.max (f x) m) 0 l.

Lemma max_of_ge {A} (f : A → Z) l x : x ∈ l → f x <= max_of f l.
Proof.
  induction l as [|y l IH]; [by intros ?%not_elem_of_nil|]. unfold max_of in *. cbn [foldr].
  intros [->|Hx]%elem_of_cons; [lia|]. specialize (IH Hx). lia.
Qed.

Lemma max_of_pos {A} (f : A → Z) l : 0 <= max_of f l.
Proof. unfold max_of. induction l; cbn [foldr]; lia. Qed.

(** A key no installed filter has. *)
Definition fresh_key (fs : list installed) : GUID :=
  {| Data1 := 1 + max_of (λ i, Data1 (filterKey (item i))) fs; Data2 := 0; Data3 := 0; Data4 := [] |}.

Definition owner_number (i : installed) : Z := default 0 (owner i).

(** A handle no session has. *)
Definition fresh_handle (v : wfp_view) : Z :=
  1 + Z.max (max_of id (dynamic v))
        (Z.max (max_of owner_number (filters v))
               (match transaction v with Some (h, _) => Z.max h 0 | None => 0 end)).

Definition ok {A} (a : A) : sysret A := {| r1 := 0; e1 := 0; out := a |}.
Definition fails {A} (code : Z) (a : A) : sysret A := {| r1 := code; e1 := code; out := a |}.

(** Text becomes its bytes as code units. *)
Definition plain_utf16 (s : gostring) : fwerror + list Z := inr (map bz s).

Definition service : SID :=
  {| sid_bytes := []; IsValid := true; IdentifierAuthority := [0; 0; 0; 0; 0; 5];
     SubAuthorities := [80; 1; 2; 3; 4; 5] |}.

(** [provider_result]: what adding a provider returns. *)
Definition windows_with (provider_result : sysret unit) : Windows wfp_view := {|
  FwpmEngineOpen0 s v :=
    let h := fresh_handle v in
    (v <| dynamic := (if Z.testbit (session_flags s) 0 then [h] else []) ++ dynamic v |>, ok h);
  FwpmEngineClose0 h v := (close_session h v, ok tt);
  FwpmProviderAdd0 h p v := (v, provider_result);
  FwpmSubLayerAdd0 h s v :=
    (v, if existsb (λ i, bool_decide (subLayerKey (item i) = sublayer_subLayerKey s)) (filters v)
        then fails FWP_E_ALREADY_EXISTS tt else ok tt);
  FwpmFilterAdd0 h f v :=
    (v <| filters := filters v ++
        [{| owner := owner_of v h; item := f <| filterKey := fresh_key (filters v) |> |}] |>, ok tt);
  FwpmTransactionBegin0 h v := (v <| transaction := Some (h, filters v) |>, ok tt);
  FwpmTransactionCommit0 h v := (v <| transaction := None |>, ok tt);
  FwpmTransactionAbort0 h v :=
    match transaction v with
    | Some (h', fs) =>
        if h' =? h then (v <| filters := fs |> <| transaction := None |>, ok tt) else (v, fails 1 tt)
    | None => (v, fails 1 tt)
    end;
  FwpmFilterCreateEnumHandle0 h v :=
    (v <| enumerations := <[1 := map item (filters v)]> (enumerations v) |>, ok 1);
  FwpmFilterEnum0 h e n v :=
    match enumerations v !! e with
    | Some l =>
        let es := take (Z.to_nat n) l in
        (v <| enumerations := <[e := drop (Z.to_nat n) l]> (enumerations v) |>,
         ok (if (length es =? 0)%nat then None else Some (map Some es), Z.of_nat (length es)))
    | None => (v, fails 1 (None, 0))
    end;
  FwpmFilterDestroyEnumHandle0 h e v := (v <| enumerations := delete e (enumerations v) |>, ok tt);
  FwpmFilterDeleteByKey0 h k v :=
    (v <| filters := filter (λ i, filterKey (item i) ≠ k) (filters v) |>, ok tt);
  FwpmGetAppIdFromFileName0 file := ok (map zb file);
  GenerateGUID v := (v, inr {| Data1 := 7; Data2 := 7; Data3 := 7; Data4 := [] |});
  UTF16PtrFromString := plain_utf16;
  SecurityDescriptorFromString s := inr s;
  OpenProcessToken := inr 1;
  GetTokenGroups _ := inr [{| group_Sid := service; group_Attributes := 14 |}];
  ACLFromEntries es := inr [x01];
  NewSecurityDescriptor := inr [];
  SetDACL sd acl _ _ := inr (sd ++ acl);
  ToSelfRelative sd := inr sd;
  RtlGetNtVersionNumbers := (10, 0, 19045);
  EINVAL := 0x20000027;
  os_Executable := inr "C:\service.exe";
|}.

Definition no_filters : wfp_view :=
  {| filters := []; transaction := None; dynamic := []; enumerations := ∅ |}.

Lemma windows_with_laws pr : @WindowsLaws wfp_view (windows_with pr) id.
Proof.
  split; cbn; unfold id; try (intros; repeat case_match; by simplify_eq/=).
  - intros s v v' r [= <- <-] _. cbn. pose proof (max_of_ge id (dynamic v)) as Hd.
    pose proof (max_of_ge owner_number (filters v)) as Ho.
    pose proof (max_of_pos id (dynamic v)). split_and!; [unfold fresh_handle; lia| | | |done].
    + intros Hin%Hd. unfold fresh_handle, id in *. lia.
    + apply Forall_forall. intros i Hi%Ho Hw.
      assert (owner_number i = fresh_handle v) as Hn by (unfold owner_number; by rewrite Hw).
      rewrite Hn in Hi. unfold fresh_handle in Hi. lia.
    + intros fs Hw. unfold fresh_handle in Hw. destruct (transaction v) as [[h0 fs0]|]; [|done].
      injection Hw as Hw _. lia.
  - intros h s v v' r [= <- <-] Hr. apply Forall_forall. intros i Hi Hs.
    destruct (existsb _ (filters v)) eqn:E; [done|]. rewrite <- not_true_iff_false, existsb_exists in E.
    apply E. exists i. split; [by apply list_elem_of_In|]. by apply bool_decide_eq_true.
  - intros h f v v' r [= <- <-] _. exists (fresh_key (filters v)). split; [|done].
    apply Forall_forall. intros i Hi Hk.
    pose proof (max_of_ge (λ i, Data1 (filterKey (item i))) (filters v) i Hi) as Hm.
    cbn in Hm. rewrite Hk in Hm. cbn in Hm. lia.
  - intros h v v' r fs Hc Ht. rewrite Ht, Z.eqb_refl in Hc. by injection Hc as <- <-.
  - intros _ e n v v' r l Hc _ He _. rewrite He in Hc. by injection Hc as <- <-.
Qed.

#[export] Instance plain_windows : Windows wfp_view := windows_with (ok tt).
#[export] Instance plain_windows_laws : WindowsLaws wfp_view id := windows_with_laws (ok tt).
