(* ===== verification/FirewallTheorems.v ===== *)
(** * The firewall package: theorems

    What [EnableFirewall], [DisableFirewall], [SetPreviewGuard] and
    [ClearPreviewGuard] promise, for every system whose calls behave as
    documented ([WindowsLaws]), with runs on [plain_windows] as witnesses. *)
From S2P Require Import Prelude GoStrings GoNet Wfp Firewall FirewallFacts FirewallPolicy PlainWindows.

Open Scope Z_scope.

(** The installed filters a world shows. *)
Definition installed_filters {W} (view : W → wfp_view) (w : W) : list wtFwpmFilter0 :=
  map item (filters (view w)).

(** after [EnableFirewall] has succeeded with restrictions, its sublayer
    decides every packet of the four ALE layers, and permits exactly the kill
    switch policy: the service always; a DNS packet, when servers were given,
    only to one of them; any other packet only on loopback, on the tunnel
    interface, or for DHCP and neighbour discovery. *)
Theorem EnableFirewall_kill_switch {W} `{Windows W} (view : W → wfp_view) `{!WindowsLaws W view}
    luid dns s s' :
  Forall ip_sized dns → EnableFirewall luid false dns s = (s', Done tt) →
  ∃ sub app sd, names_app "" app ∧ ∀ layer p, layer ∈ four_layers → fits p layer = true →
    let fs := installed_filters view (world s') in
    (sublayer_decision fs sub layer p cFWP_ACTION_PERMIT ↔ kill_switch p luid dns app sd layer = true)
    ∧ (sublayer_decision fs sub layer p cFWP_ACTION_BLOCK ↔ kill_switch p luid dns app sd layer = false).
Proof.
  intros Hs Hr. apply (EnableFirewall_done view) in Hr
    as (_ & h & bo & app & sd & news & _ & _ & Happ & _ & Ef & _ & He & Ho & _).
  exists (sublayer bo), app, sd. split; [done|]. intros layer p HL Hfit. cbn zeta.
  assert (Hold : Forall (λ i, subLayerKey (item i) ≠ sublayer bo) (filters (view (world s)))).
  { eapply Forall_impl; [exact Ho|]. naive_solver. }
  unfold installed_filters. rewrite Ef, !(decision_of_rules _ _ _ _ _ _ _ Hold He).
  rewrite !(enable_rules_decide p) by done. split; [done|]. apply negb_true_iff.
Qed.

Definition off : firewall wfp_view := {| wfpSession := 0; world := no_filters |}.
Definition resolver : IP := [x0a; x08; x00; x01].

Lemma EnableFirewall_kill_switch_witness : ∃ s', EnableFirewall 77 false [resolver] off = (s', Done tt)
  ∧ ∃ sub app sd, names_app (W := wfp_view) "" app ∧
    ∀ layer p, layer ∈ four_layers → fits p layer = true →
    let fs := installed_filters id (world s') in
    (sublayer_decision fs sub layer p cFWP_ACTION_PERMIT
      ↔ kill_switch p 77 [resolver] app sd layer = true)
    ∧ (sublayer_decision fs sub layer p cFWP_ACTION_BLOCK
      ↔ kill_switch p 77 [resolver] app sd layer = false).
Proof.
  eexists. assert (Hr : EnableFirewall 77 false [resolver] off
    = ((EnableFirewall 77 false [resolver] off).1, Done tt)) by (vm_compute; reflexivity).
  split; [exact Hr|]. apply (EnableFirewall_kill_switch id 77 [resolver] off); [|exact Hr].
  constructor; [left; reflexivity|constructor].
Defined.

(** without restrictions [EnableFirewall] installs nothing that blocks: its
    sublayer permits the traffic of the service and decides nothing else. *)
Theorem EnableFirewall_unrestricted {W} `{Windows W} (view : W → wfp_view) `{!WindowsLaws W view}
    luid dns s s' :
  EnableFirewall luid true dns s = (s', Done tt) →
  ∃ sub app sd, names_app "" app ∧ ∀ layer p, layer ∈ four_layers →
    let fs := installed_filters view (world s') in
    (sublayer_decision fs sub layer p cFWP_ACTION_PERMIT ↔ service_packet p app sd = true)
    ∧ ¬ sublayer_decision fs sub layer p cFWP_ACTION_BLOCK.
Proof.
  intros Hr. apply (EnableFirewall_done view) in Hr
    as (_ & h & bo & app & sd & news & _ & _ & Happ & _ & Ef & _ & He & Ho & _).
  exists (sublayer bo), app, sd. split; [done|]. intros layer p HL. cbn zeta.
  assert (Hold : Forall (λ i, subLayerKey (item i) ≠ sublayer bo) (filters (view (world s)))).
  { eapply Forall_impl; [exact Ho|]. naive_solver. }
  unfold installed_filters. rewrite Ef, !(decision_of_rules _ _ _ _ _ _ _ Hold He).
  by rewrite !(unrestricted_rules_decide p) by done.
Qed.

Lemma EnableFirewall_unrestricted_witness : ∃ s', EnableFirewall 77 true [resolver] off = (s', Done tt)
  ∧ ∃ sub app sd, names_app (W := wfp_view) "" app ∧ ∀ layer p, layer ∈ four_layers →
    let fs := installed_filters id (world s') in
    (sublayer_decision fs sub layer p cFWP_ACTION_PERMIT ↔ service_packet p app sd = true)
    ∧ ¬ sublayer_decision fs sub layer p cFWP_ACTION_BLOCK.
Proof.
  eexists. assert (Hr : EnableFirewall 77 true [resolver] off
    = ((EnableFirewall 77 true [resolver] off).1, Done tt)) by (vm_compute; reflexivity).
  split; [exact Hr|]. exact (EnableFirewall_unrestricted id 77 [resolver] off _ Hr).
Defined.

(** C34: whatever the system calls return, [EnableFirewall] ends; and when it
    does not succeed (a call failed, or the firewall was already enabled) the
    session variable, the installed filters and the open dynamic sessions are
    those from before the call. *)
Theorem EnableFirewall_all_or_nothing {W} `{Windows W} (view : W → wfp_view) `{!WindowsLaws W view}
    luid dnr dns s s' r :
  EnableFirewall luid dnr dns s = (s', r) →
  (r = Done tt ∧ wfpSession s = 0 ∧ wfpSession s' ≠ 0)
  ∨ ((∃ e, r = Failed e) ∧ wfpSession s' = wfpSession s
     ∧ filters (view (world s')) = filters (view (world s))
     ∧ dynamic (view (world s')) = dynamic (view (world s))).
Proof.
  intros Hr. destruct r as [[]|e|].
  - left. apply (EnableFirewall_done view) in Hr as (? & h & ? & ? & ? & ? & -> & ? & _). auto.
  - right. apply (EnableFirewall_not_done view) in Hr as (_ & ? & ? & ?); eauto 6.
  - by apply (EnableFirewall_not_done view) in Hr as (? & _).
Qed.

Lemma EnableFirewall_all_or_nothing_witness :
  let s := {| wfpSession := 5; world := no_filters |} in
  let (s', r) := EnableFirewall 77 false [resolver] s in
  (r = Done tt ∧ wfpSession s = 0 ∧ wfpSession s' ≠ 0)
  ∨ ((∃ e, r = Failed e) ∧ wfpSession s' = wfpSession s
     ∧ filters (id (world s')) = filters (id (world s))
     ∧ dynamic (id (world s')) = dynamic (id (world s))).
Proof.
  exact (EnableFirewall_all_or_nothing id 77 false [resolver]
    {| wfpSession := 5; world := no_filters |} _ _ eq_refl).
Defined.

(** [DisableFirewall] after a successful [EnableFirewall] removes every
    filter it installed and no other, and the firewall can be enabled again. *)
Theorem DisableFirewall_restores {W} `{Windows W} (view : W → wfp_view) `{!WindowsLaws W view}
    luid dnr dns s s' :
  EnableFirewall luid dnr dns s = (s', Done tt) →
  wfpSession (DisableFirewall s') = 0
  ∧ filters (view (world (DisableFirewall s'))) = filters (view (world s))
  ∧ dynamic (view (world (DisableFirewall s'))) = dynamic (view (world s)).
Proof.
  intros Hr. apply (EnableFirewall_done view) in Hr as (_ & h & bo & app & sd & news & Eh & Hh & _ & _
    & Ef & Hn & _ & Ho & Et & Ed & Hd).
  unfold DisableFirewall. rewrite Eh. destruct (Z.eqb_spec h 0) as [|_]; [done|]. cbn [negb].
  split; [done|]. cbn [world]. unfold zsyscall.
  destruct (FwpmEngineClose0 h (world s')) as [w r] eqn:Ec. apply (close_ok) in Ec as [_ Ec].
  cbn [fst]. rewrite Ec. unfold close_session. rewrite Et. cbn. rewrite Ef, Ed. split.
  - rewrite filter_app, (filter_all _ (filters (view (world s)))), (filter_none _ news), app_nil_r;
      [done|..].
    + eapply Forall_impl; [exact Hn|]. cbv beta. intros i Hi Hne. by destruct (Hne Hi).
    + eapply Forall_impl; [exact Ho|]. cbv beta. by intros i [Hi _].
  - rewrite filter_cons_False by (intros Hne; by destruct Hne). apply filter_all, Forall_forall.
    intros x Hx ->. by destruct Hd.
Qed.

Lemma DisableFirewall_restores_witness :
  let (s', r) := EnableFirewall 77 false [resolver] off in r = Done tt
  ∧ wfpSession (DisableFirewall s') = 0
  ∧ filters (id (world (DisableFirewall s'))) = filters (id (world off))
  ∧ dynamic (id (world (DisableFirewall s'))) = dynamic (id (world off)).
Proof.
  assert (Hr : EnableFirewall 77 false [resolver] off
    = ((EnableFirewall 77 false [resolver] off).1, Done tt)) by (vm_compute; reflexivity).
  rewrite Hr. split; [reflexivity|]. exact (DisableFirewall_restores id 77 false [resolver] off _ Hr).
Defined.

(** ** The preview guard *)

(** The guard's sublayer holds no filter of another provider. *)
Definition sublayer_exclusive (v : wfp_view) : Prop :=
  Forall (λ i, subLayerKey (item i) = previewGuardSublayer → is_owned i) (filters v).

(** The filters that outlive a restart of the filtering service. *)
Definition survives (f : wtFwpmFilter0) : Prop := Z.testbit (flags f) 0 = true.

#[export] Instance survives_dec f : Decision (survives f).
Proof. unfold survives. apply _. Defined.

Lemma foreign_outside v : sublayer_exclusive v →
  Forall (λ i, subLayerKey (item i) ≠ previewGuardSublayer) (filter (λ i, ¬ is_owned i) (filters v)).
Proof.
  intros Hx. apply Forall_forall. intros i [Hi Hin]%list_elem_of_filter Hs.
  eapply Forall_forall in Hx; [|exact Hin]. auto.
Qed.

Lemma guard_decision olds news rs layer p a : sublayer_exclusive olds →
  map (λ i, essence (item i)) news = rs →
  sublayer_decision (map item (filter (λ i, ¬ is_owned i) (filters olds) ++ news))
    previewGuardSublayer layer p a
  ↔ decidesb (map (entry_of previewGuardSublayer layer p) rs) a = true.
Proof. intros Hx. apply decision_of_rules. by apply foreign_outside. Qed.

(** Only the permits on a tunnel interface are not persistent. *)
Lemma survivors_essence news :
  map (λ i, essence (item i)) (filter (λ i, survives (item i)) news)
  = filter survives (map (λ i, essence (item i)) news).
Proof.
  induction news as [|i l IH]; [done|]. cbn [map]. rewrite !filter_cons.
  change (survives (essence (item i))) with (survives (item i)).
  destruct (decide (survives (item i))), (decide (survives (essence (item i)))); try done;
    cbn [map]; congruence.
Qed.

Lemma survivors_guard_rules luid app1 app2 sd :
  filter survives (guard_rules luid app1 app2 sd) = guard_rules 0 app1 app2 sd.
Proof. unfold guard_rules. destruct (luid =? 0); vm_compute; reflexivity. Qed.

Lemma guard_rules_owned luid app1 app2 sd :
  Forall (λ f, guardOwned (Some f) = true) (guard_rules luid app1 app2 sd).
Proof.
  apply List.Forall_forall, forallb_forall. unfold guard_rules.
  destruct (luid =? 0); vm_compute; reflexivity.
Qed.

(** The new filters of the guard are its own. *)
Lemma news_owned news luid app1 app2 sd :
  map (λ i, essence (item i)) news = guard_rules luid app1 app2 sd → Forall is_owned news.
Proof.
  intros He. apply Forall_forall. intros i Hi.
  pose proof (guard_rules_owned luid app1 app2 sd) as Ho. rewrite <- He in Ho.
  apply Forall_map in Ho. eapply Forall_forall in Ho; [|exact Hi]. by apply guardOwned_spec.
Qed.

Lemma survivors_items (l : list installed) :
  filter survives (map item l) = map item (filter (λ i, survives (item i)) l).
Proof.
  induction l as [|i l IH]; [done|]. cbn [map]. rewrite !filter_cons.
  destruct (decide (survives (item i))); cbn [map]; congruence.
Qed.

(** C23: after a successful [SetPreviewGuard], the guard's sublayer decides every
    packet of the four ALE layers by the guard policy; the filters of the
    previous guard are gone and the filters of everyone else are untouched; and
    what survives a restart of the filtering service still decides by the same
    policy without the tunnel, so nothing is permitted that was blocked. *)
Theorem SetPreviewGuard_policy {W} `{Windows W} (view : W → wfp_view) `{!WindowsLaws W view}
    fuel enginePath luid w w' :
  keys_distinct (view w) → sublayer_exclusive (view w) → guard_bound fuel (filters (view w)) →
  SetPreviewGuard fuel enginePath luid w = (w', Done tt) →
  ∃ app1 app2 sd, names_app enginePath app1 ∧ names_app "" app2
    ∧ SecurityDescriptorFromString "D:(A;;CC;;;SY)" = inr sd
    ∧ filter (λ i, ¬ is_owned i) (filters (view w')) = filter (λ i, ¬ is_owned i) (filters (view w))
    ∧ ∀ layer p, layer ∈ four_layers →
      let now := installed_filters view w' in
      let later := filter survives now in
      (sublayer_decision now previewGuardSublayer layer p cFWP_ACTION_PERMIT
        ↔ guard_policy p luid app1 app2 sd layer = true)
      ∧ (sublayer_decision now previewGuardSublayer layer p cFWP_ACTION_BLOCK
        ↔ guard_policy p luid app1 app2 sd layer = false)
      ∧ (sublayer_decision later previewGuardSublayer layer p cFWP_ACTION_PERMIT
        ↔ guard_policy p 0 app1 app2 sd layer = true)
      ∧ (sublayer_decision later previewGuardSublayer layer p cFWP_ACTION_BLOCK
        ↔ guard_policy p 0 app1 app2 sd layer = false).
Proof.
  intros Hk Hx HB Hr. apply (SetPreviewGuard_run view) in Hr as (_ & Hr & _); [|done..].
  destruct (Hr eq_refl) as (app1 & app2 & sd & news & Happ1 & Happ2 & Hsd & Ef & _ & He).
  exists app1, app2, sd. do 3 (split; [done|]). split.
  - rewrite Ef, filter_app, list_filter_filter_l, (filter_none _ news), app_nil_r; [done| |tauto].
    eapply Forall_impl; [by eapply news_owned|]. cbv beta. auto.
  - intros layer p HL. cbn zeta. unfold installed_filters.
    rewrite Ef, survivors_items, filter_app.
    pose proof (foreign_outside _ Hx) as Hold.
    assert (Hlater : Forall (λ i, subLayerKey (item i) ≠ previewGuardSublayer)
      (filter (λ i, survives (item i)) (filter (λ i, ¬ is_owned i) (filters (view w))))).
    { apply Forall_forall. intros i [_ Hi]%list_elem_of_filter. by eapply Forall_forall in Hold. }
    pose proof (survivors_essence news) as Hs. rewrite He, survivors_guard_rules in Hs.
    rewrite !(decision_of_rules _ _ _ _ _ _ _ Hold He), !(decision_of_rules _ _ _ _ _ _ _ Hlater Hs).
    rewrite !(guard_rules_decide p) by done. rewrite <- !negb_true_iff. tauto.
Qed.

(** A guard left by an earlier run, and a filter of someone else. *)
Definition guarded_world : wfp_view := (SetPreviewGuard 1 "C:\engine.exe" 0 no_filters).1.

Lemma SetPreviewGuard_policy_witness : ∃ w' app1 app2 sd,
  SetPreviewGuard 1 "C:\engine.exe" 77 guarded_world = (w', Done tt)
  ∧ names_app (W := wfp_view) "C:\engine.exe" app1 ∧ names_app (W := wfp_view) "" app2
  ∧ ∀ layer p, layer ∈ four_layers →
    sublayer_decision (filter survives (installed_filters id w')) previewGuardSublayer layer p
      cFWP_ACTION_BLOCK ↔ guard_policy p 0 app1 app2 sd layer = false.
Proof.
  assert (Hr : SetPreviewGuard 1 "C:\engine.exe" 77 guarded_world
    = ((SetPreviewGuard 1 "C:\engine.exe" 77 guarded_world).1, Done tt)) by (vm_compute; reflexivity).
  exists (SetPreviewGuard 1 "C:\engine.exe" 77 guarded_world).1.
  destruct (SetPreviewGuard_policy id 1 "C:\engine.exe" 77 guarded_world
    (SetPreviewGuard 1 "C:\engine.exe" 77 guarded_world).1)
    as (app1 & app2 & sd & H1 & H2 & _ & _ & Hp); [| | |exact Hr|].
  - apply (bool_decide_unpack _). vm_compute. exact I.
  - apply (bool_decide_unpack _). vm_compute. exact I.
  - apply Nat.ltb_lt. vm_compute. reflexivity.
  - exists app1, app2, sd. split; [exact Hr|]. split; [exact H1|]. split; [exact H2|].
    intros layer p HL. apply (Hp layer p HL).
Defined.

(** [SetPreviewGuard] ends within one enumeration round per 128 installed
    filters and one more; when it fails, the installed filters (an earlier
    guard among them) are those from before the call. *)
Theorem SetPreviewGuard_all_or_nothing {W} `{Windows W} (view : W → wfp_view) `{!WindowsLaws W view}
    fuel enginePath luid w w' r :
  keys_distinct (view w) → guard_bound fuel (filters (view w)) →
  SetPreviewGuard fuel enginePath luid w = (w', r) →
  r = Done tt ∨ ((∃ e, r = Failed e) ∧ filters (view w') = filters (view w)).
Proof.
  intros Hk HB Hr. apply (SetPreviewGuard_run view) in Hr as (Hd & _ & Hf); [|done..].
  destruct r as [[]|e|]; [by left|right; split; [by eexists|by apply Hf]|done].
Qed.

Lemma SetPreviewGuard_all_or_nothing_witness :
  let (w', r) := SetPreviewGuard 1 "C:\engine.exe" 77 guarded_world in
  r = Done tt ∨ ((∃ e, r = Failed e) ∧ filters (id w') = filters (id guarded_world)).
Proof.
  destruct (SetPreviewGuard 1 "C:\engine.exe" 77 guarded_world) as [w' r] eqn:E.
  apply (SetPreviewGuard_all_or_nothing id 1 "C:\engine.exe" 77 guarded_world w' r); [..|exact E].
  - apply (bool_decide_unpack _). vm_compute. exact I.
  - apply Nat.ltb_lt. vm_compute. reflexivity.
Defined.

(** [ClearPreviewGuard] deletes exactly the filters of the guard's provider
    in the guard's sublayer, whatever else is installed, or changes nothing. *)
Theorem ClearPreviewGuard_exact {W} `{Windows W} (view : W → wfp_view) `{!WindowsLaws W view}
    fuel w w' r :
  keys_distinct (view w) → guard_bound fuel (filters (view w)) → ClearPreviewGuard fuel w = (w', r) →
  (r = Done tt ∧ filters (view w') = filter (λ i, ¬ is_owned i) (filters (view w)))
  ∨ ((∃ e, r = Failed e) ∧ filters (view w') = filters (view w)).
Proof.
  intros Hk HB Hr. apply (ClearPreviewGuard_run view) in Hr as (Hd & Hdone & Hf); [|done..].
  destruct r as [[]|e|]; [left; auto|right; split; [by eexists|by apply Hf]|done].
Qed.

Lemma ClearPreviewGuard_exact_witness :
  let (w', r) := ClearPreviewGuard 1 guarded_world in
  (r = Done tt ∧ filters (id w') = filter (λ i, ¬ is_owned i) (filters (id guarded_world)))
  ∨ ((∃ e, r = Failed e) ∧ filters (id w') = filters (id guarded_world)).
Proof.
  destruct (ClearPreviewGuard 1 guarded_world) as [w' r] eqn:E.
  apply (ClearPreviewGuard_exact id 1 guarded_world w' r); [..|exact E].
  - apply (bool_decide_unpack _). vm_compute. exact I.
  - apply Nat.ltb_lt. vm_compute. reflexivity.
Defined.

(** the wrappers of zsyscall_windows.go build the error from the thread's
    last error, not from the status the call returns. When the provider of an
    earlier guard is still there and the call reports that only through its
    status (FWP_E_ALREADY_EXISTS), [SetPreviewGuard] does not recognise it: it
    fails, and the installed filters stay as they were. *)
Theorem SetPreviewGuard_existing_provider {W} `{Windows W} (view : W → wfp_view)
    `{!WindowsLaws W view} fuel enginePath luid w w' r :
  keys_distinct (view w) → guard_bound fuel (filters (view w)) →
  (∀ h p w w' s, FwpmProviderAdd0 h p w = (w', s) →
     r1 s = FWP_E_ALREADY_EXISTS ∧ e1 s ≠ FWP_E_ALREADY_EXISTS) →
  SetPreviewGuard fuel enginePath luid w = (w', r) →
  (∃ e, r = Failed e) ∧ filters (view w') = filters (view w).
Proof.
  intros Hk HB Hexists Hr.
  pose proof Hr as Hr'. apply (SetPreviewGuard_run view) in Hr' as (Hd & _ & Hf); [|done..].
  assert (Hnd : r ≠ Done tt); [|destruct r as [[]|e|]; split; eauto; done].
  intros ->. unfold SetPreviewGuard in Hr. apply (bind_done view) in Hr as (w1 & h & Ho & Hr).
  unfold defer in Hr. destruct (runTransaction h _ w1) as [w2 r2] eqn:Er. injection Hr as _ ->.
  unfold guardOpen in Ho. apply (zsyscall_done view) in Ho as (s & Ho & Hs & <-).
  apply (open_ok (view := view)) in Ho as (_ & _ & _ & _ & Hv); [|done].
  apply (runTransaction_done view (guard_bound fuel)) in Er as (w3 & w4 & _ & Hop & _);
    [| |by rewrite Hv].
  2:{ intros w5 w6 r6 HB' H6. by apply (guardInstaller_run view) in H6 as (? & ? & ? & _). }
  unfold guardInstaller in Hop. apply (bind_done view) in Hop as (w5 & dd & _ & Hop).
  apply (bind_done view) in Hop as (w6 & [] & Ht & _). unfold tolerate_existing, catch, zsyscall in Ht.
  destruct (FwpmProviderAdd0 _ _ w5) as [w7 s7] eqn:Ep. apply Hexists in Ep as [E1 E2].
  rewrite E1 in Ht. cbn [Z.eqb FWP_E_ALREADY_EXISTS] in Ht.
  assert (is_already_exists (errnoErr (e1 s7)) = false) as Ea; [|by rewrite Ea in Ht].
  unfold errnoErr. pose proof (EINVAL_application (view := view)). destruct (Z.eqb_spec (e1 s7) 0); cbn; apply Z.eqb_neq.
  - lia.
  - exact E2.
Qed.

Lemma SetPreviewGuard_existing_provider_witness :
  let W := windows_with {| r1 := FWP_E_ALREADY_EXISTS; e1 := 0; out := tt |} in
  let (w', r) := @SetPreviewGuard wfp_view W 1 "C:\engine.exe" 77 guarded_world in
  (∃ e, r = Failed e) ∧ filters (id w') = filters (id guarded_world).
Proof.
  cbv zeta. set (W := windows_with _).
  destruct (@SetPreviewGuard wfp_view W 1 "C:\engine.exe" 77 guarded_world) as [w' r] eqn:E.
  apply (@SetPreviewGuard_existing_provider wfp_view W id (windows_with_laws _) 1 "C:\engine.exe" 77
    guarded_world w' r); [..|exact E].
  - apply (bool_decide_unpack _). vm_compute. exact I.
  - apply Nat.ltb_lt. vm_compute. reflexivity.
  - intros h p w1 w2 s [= <- <-]. split; [reflexivity|]. discriminate.
Defined.
