(* ===== verification/GoPath.v ===== *)
(** * Windows file paths ([path/filepath])

    [Clean], [Base] and [Ext] of Go's standard library as they run on Windows.
    [Clean] is the library's one-pass algorithm over its lazily allocated
    buffer: the buffer stays unallocated while the output agrees with the
    input, and keeps the input's length once it is allocated. *)
From S2P Require Import Prelude GoStrings.

Definition IsPathSeparator (c : byte) : bool := Byte.eqb c x5c || Byte.eqb c x2f.

Definition FromSlash (s : gostring) : gostring :=
  map (λ b, if Byte.eqb b x2f then x5c else b) s.

(** ** Volume names *)

Fixpoint fold_prefix (s prefix : list byte) : bool :=
  match prefix, s with
  | [], _ => match s with [] => true | c :: _ => IsPathSeparator c end
  | p :: prefix, c :: s =>
      (if IsPathSeparator p then IsPathSeparator c else Byte.eqb (upper_byte p) (upper_byte c))
      && fold_prefix s prefix
  | _ :: _, [] => false
  end.

(** The index of the separator that ends the first element of [path]. *)
Fixpoint sep_index (path : list byte) : option nat :=
  match path with
  | [] => None
  | c :: path => if IsPathSeparator c then Some O else S <$> sep_index path
  end.

(** [uncLen path prefixLen]: up to the second separator at or after [prefixLen]. *)
Definition uncLen (path : gostring) (prefixLen : nat) : nat :=
  match sep_index (drop prefixLen path) with
  | None => length path
  | Some i =>
      match sep_index (drop (prefixLen + S i) path) with
      | None => length path
      | Some j => prefixLen + S i + j
      end
  end.

Definition volumeNameLen (path : gostring) : nat :=
  match path with
  | _ :: c :: _ =>
      if Byte.eqb c x3a then 2
      else if negb (match path with a :: _ => IsPathSeparator a | [] => false end) then 0
      else if fold_prefix path "\\.\UNC" then uncLen path 8
      else if fold_prefix path "\\." || fold_prefix path "\\?" || fold_prefix path "\??" then
        if (length path =? 3)%nat then 3
        else match sep_index (drop 4 path) with None => length path | Some i => 4 + i end
      else if IsPathSeparator c then uncLen path 2
      else 0
  | _ => 0
  end.

(** ** [Clean] *)

Record lazybuf := mkLazybuf { lb_path : gostring; lb_buf : option gostring; lb_w : nat }.

Definition lb_index (b : lazybuf) (i : nat) : option byte :=
  match lb_buf b with Some buf => buf !! i | None => lb_path b !! i end.

Definition lb_append (b : lazybuf) (c : byte) : lazybuf :=
  let write buf := mkLazybuf (lb_path b) (Some (<[lb_w b := c]> buf)) (S (lb_w b)) in
  match lb_buf b with
  | Some buf => write buf
  | None =>
      match lb_path b !! lb_w b with
      | Some d =>
          if Byte.eqb d c then mkLazybuf (lb_path b) None (S (lb_w b))
          else write (take (lb_w b) (lb_path b) ++ replicate (length (lb_path b) - lb_w b) x00)
      | None => write (take (lb_w b) (lb_path b) ++ replicate (length (lb_path b) - lb_w b) x00)
      end
  end.

Definition lb_prepend (b : lazybuf) (prefix : gostring) : lazybuf :=
  mkLazybuf (lb_path b) (Some (prefix ++ default [] (lb_buf b))) (length prefix + lb_w b).

(** Back up [out.w] to the previous separator, but not below [dotdot]. *)
Fixpoint lb_backtrack (b : lazybuf) (w dotdot : nat) : nat :=
  match w with
  | O => O
  | S w' =>
      if (dotdot <? w)%nat
         && negb (match lb_index b w with Some c => IsPathSeparator c | None => false end)
      then lb_backtrack b w' dotdot else w
  end.

Definition ends_element (path : list byte) : bool :=
  match path with [] => true | c :: _ => IsPathSeparator c end.

(** The main loop, at the remaining input [path]; [copying] while the bytes of
    one element are appended. *)
Fixpoint clean_loop (path : list byte) (rooted : bool) (out : lazybuf) (dotdot : nat) (copying : bool)
    (skip : nat) : lazybuf :=
  match path with
  | [] => out
  | c :: rest =>
      match skip with
      | S skip => clean_loop rest rooted out dotdot false skip
      | O =>
          if copying && negb (IsPathSeparator c) then
            clean_loop rest rooted (lb_append out c) dotdot true 0
          else if IsPathSeparator c then clean_loop rest rooted out dotdot false 0
          else if Byte.eqb c x2e && ends_element rest then clean_loop rest rooted out dotdot false 0
          else
            match rest with
            | x2e :: rest2 =>
                if Byte.eqb c x2e && ends_element rest2 then
                  if (dotdot <? lb_w out)%nat then
                    let w := lb_backtrack out (lb_w out - 1) dotdot in
                    clean_loop rest rooted (mkLazybuf (lb_path out) (lb_buf out) w) dotdot false 1
                  else if negb rooted then
                    let out := if (0 <? lb_w out)%nat then lb_append out x5c else out in
                    let out := lb_append (lb_append out x2e) x2e in
                    clean_loop rest rooted out (lb_w out) false 1
                  else clean_loop rest rooted out dotdot false 1
                else
                  let out := if negb (lb_w out =? (if rooted then 1 else 0))%nat
                             then lb_append out x5c else out in
                  clean_loop rest rooted (lb_append out c) dotdot true 0
            | _ =>
                let out := if negb (lb_w out =? (if rooted then 1 else 0))%nat
                           then lb_append out x5c else out in
                clean_loop rest rooted (lb_append out c) dotdot true 0
            end
      end
  end.

(** Does a colon appear before the first separator? *)
Fixpoint colon_first (s : list byte) : bool :=
  match s with
  | [] => false
  | c :: s => if IsPathSeparator c then false else if Byte.eqb c x3a then true else colon_first s
  end.

(** Keep a cleaned relative path from turning into a drive or a device path. *)
Definition postClean (volLen : nat) (out : lazybuf) : lazybuf :=
  match lb_buf out with
  | None => out
  | Some buf =>
      if negb (volLen =? 0)%nat then out
      else if colon_first buf then lb_prepend out ".\"
      else match buf with
           | a :: x3f :: x3f :: _ => if IsPathSeparator a then lb_prepend out "\." else out
           | _ => out
           end
  end.

Definition Clean (path : gostring) : gostring :=
  let volLen := volumeNameLen path in
  let vol := take volLen path in
  match drop volLen path with
  | [] =>
      match path with
      | a :: b :: _ =>
          if (1 <? volLen)%nat && IsPathSeparator a && IsPathSeparator b then FromSlash path
          else path ++ "."
      | _ => path ++ "."
      end
  | (c :: _) as rest =>
      let rooted := IsPathSeparator c in
      let out := mkLazybuf rest None 0 in
      let out := if rooted then lb_append out x5c else out in
      let dotdot := if rooted then 1%nat else 0%nat in
      let out := clean_loop (if rooted then tail rest else rest) rooted out dotdot false 0 in
      let out := if (lb_w out =? 0)%nat then lb_append out x2e else out in
      let out := postClean volLen out in
      FromSlash (vol ++ take (lb_w out) (default (lb_path out) (lb_buf out)))
  end.

(** ** [Base] and [Ext] *)

Fixpoint drop_separators (s : list byte) : list byte :=
  match s with
  | c :: s' => if IsPathSeparator c then drop_separators s' else s
  | [] => []
  end.

(** The bytes before the first separator. *)
Fixpoint until_separator (s : list byte) : list byte :=
  match s with
  | [] => []
  | c :: s => if IsPathSeparator c then [] else c :: until_separator s
  end.

Definition Base (path : gostring) : gostring :=
  match path with
  | [] => "."
  | _ =>
      let path := rev (drop_separators (rev path)) in
      let path := drop (volumeNameLen path) path in
      match rev (until_separator (rev path)) with [] => "\" | base => base end
  end.

(** From the last dot of the last element on. *)
Definition Ext (path : gostring) : gostring :=
  let elem := rev (until_separator (rev path)) in
  match LastIndexByte elem x2e with Some i => drop i elem | None => [] end.

(** ** Examples of the documented behaviour *)

Example Clean_examples :
  map Clean [ [] ; "a\..\b.exe"; "C:\x\.\y\\z.exe"; "C:/x/../../y.exe"; "a/../c:\x"; "\\host\share";
              "..\..\x\.."; "C:"; "a/b/"; "\a\..\??\c:\x"]
  = ["."; "b.exe"; "C:\x\y\z.exe"; "C:\y.exe"; ".\c:\x"; "\\host\share"; "..\.."; "C:."; "a\b";
     "\.\??\c:\x"].
Proof. vm_compute. reflexivity. Qed.

Example Base_examples :
  map Base [ []; "C:\a\b.exe"; "b.exe"; "a\"; "\"; "C:"; "C:x.exe"] = ["."; "b.exe"; "b.exe"; "a"; "\"; "\"; "x.exe"].
Proof. vm_compute. reflexivity. Qed.

(** [filepath.Join] below an absolute directory: empty elements are skipped. *)
Definition filepath_Join (elems : list gostring) : gostring :=
  match List.filter (λ e, negb (e =?s [])) elems with
  | [] => []
  | elems => Clean (Join elems "\")
  end.

(** All but the last element. *)
Definition Dir (path : gostring) : gostring :=
  let vol := take (volumeNameLen path) path in
  let rest := drop (volumeNameLen path) path in
  let dir := Clean (take (length rest - length (until_separator (rev rest))) rest) in
  if (dir =?s ".") && (2 <? length vol)%nat then vol else vol ++ dir.

Example Dir_examples :
  map Dir ["C:\a\b.json"; "b.json"; "\x"; "C:\a\\b"] = ["C:\a"; "."; "\"; "C:\a"].
Proof. vm_compute. reflexivity. Qed.
