(* ===== verification/GoUrl.v ===== *)
(** * [net/url]: parsing of URLs

    [url.Parse] with the parts of a URL that the source looks at.  A parse
    error is [None]: the callers replace it by a message of their own. *)
From S2P Require Import Prelude GoStrings GoStrconv GoEncoding GoNet.

Record URL := mkURL {
  Scheme : gostring;
  User : bool;  (* is the user information non-nil? *)
  URLHost : gostring;
  Path : gostring;
  RawPath : gostring;
  RawQuery : gostring;
  Fragment : gostring;
}.

Inductive encoding := encodePath | encodeHost | encodeZone | encodeUserPassword | encodeFragment.

Definition unreserved (c : byte) : bool :=
  in_range 97 122 c || in_range 65 90 c || is_digit c || has_byte "-_.~" c.

Definition shouldEscape (c : byte) (mode : encoding) : bool :=
  if in_range 97 122 c || in_range 65 90 c || is_digit c then false
  else
    match mode with
    | encodeHost | encodeZone =>
        negb (has_byte ("!$&'()*+,;=:[]<>" ++ [x22] ++ "-_.~") c)
    | _ =>
        if has_byte "-_.~" c then false
        else if has_byte "$&+,/:;=?@" c then
          match mode with
          | encodePath => Byte.eqb c x3f
          | encodeUserPassword => has_byte "@/?:" c
          | _ => false
          end
        else match mode with encodeFragment => negb (has_byte "!()*" c) | _ => true end
    end.

(** [unescape]: an escape sequence must be two hexadecimal digits; in a host
    only bytes above U+007F (and the percent sign) may be escaped. *)
Fixpoint unescape (mode : encoding) (s : list byte) : option gostring :=
  match s with
  | [] => Some []
  | x25 :: s =>
      match s with
      | a :: b :: s =>
          match hex_val a, hex_val b with
          | Some x, Some y =>
              let is25 := Byte.eqb a x32 && Byte.eqb b x35 in
              let v := (x * 16 + y)%Z in
              if match mode with
                 | encodeHost => (x <? 8)%Z && negb is25
                 | encodeZone => negb is25 && negb (v =? 32)%Z && shouldEscape (zb v) encodeHost
                 | _ => false
                 end then None
              else cons (zb v) <$> unescape mode s
          | _, _ => None
          end
      | _ => None
      end
  | c :: s =>
      if match mode with
         | encodeHost | encodeZone => is_ascii c && shouldEscape c mode
         | _ => false
         end then None
      else cons c <$> unescape mode s
  end.

Definition escape_byte (mode : encoding) (c : byte) : gostring :=
  if shouldEscape c mode then
    x25 :: map upper_byte [hex_digit (bz c / 16); hex_digit (bz c mod 16)]
  else [c].
Definition escape (mode : encoding) (s : gostring) : gostring := concat (map (escape_byte mode) s).

(** [getScheme]: [None] when the scheme is missing before a leading colon. *)
Fixpoint scheme_loop (s : list byte) (first : bool) : option (option (gostring * gostring)) :=
  match s with
  | [] => Some None
  | c :: s =>
      if in_range 97 122 c || in_range 65 90 c then
        match scheme_loop s false with
        | Some (Some (sch, rest)) => Some (Some (c :: sch, rest))
        | r => r
        end
      else if is_digit c || has_byte "+-." c then
        if first then Some None
        else match scheme_loop s false with
             | Some (Some (sch, rest)) => Some (Some (c :: sch, rest))
             | r => r
             end
      else if Byte.eqb c x3a then if first then None else Some (Some ([], s))
      else Some None
  end.

Definition getScheme (rawURL : gostring) : option (gostring * gostring) :=
  default ([], rawURL) <$> scheme_loop rawURL true.

Definition validOptionalPort (port : gostring) : bool :=
  match port with
  | [] => true
  | c :: port => Byte.eqb c x3a && forallb is_digit port
  end.

Definition parseHost (host : gostring) : option gostring :=
  match LastIndexByte host x5b with
  | Some (S _) => None
  | Some O =>
      i ← LastIndexByte host x5d;
      let colonPort := drop (S i) host in
      if negb (validOptionalPort colonPort) then None
      else
        let name := take (i - 1) (tail host) in
        (* the zone starts at the escaped percent sign; an address has no other escape *)
        match Cut name x25 with
        | Some (addr, zone) =>
            if negb (HasPrefix zone "25") || (length zone <=? 2)%nat then None
            else
              zone ← unescape encodeZone (x25 :: zone);
              addr ← unescape encodeHost addr;
              ip ← parseIPv6 addr;
              Some ("[" ++ addr ++ zone ++ "]" ++ colonPort)
        | None =>
            name ← unescape encodeHost name;
            ip ← parseIPv6 name;
            Some ("[" ++ name ++ "]" ++ colonPort)
        end
  | None =>
      match IndexByte host x3a with
      | Some i => if validOptionalPort (drop i host) then unescape encodeHost host else None
      | None => unescape encodeHost host
      end
  end.

Definition validUserinfo (s : gostring) : bool :=
  forallb (λ c, in_range 65 90 c || in_range 97 122 c || is_digit c
                || has_byte "-._:~!$&'()*+,;=%@" c) s.

Definition parseAuthority (authority : gostring) : option (bool * gostring) :=
  match LastIndexByte authority x40 with
  | None => host ← parseHost authority; Some (false, host)
  | Some i =>
      host ← parseHost (drop (S i) authority);
      let userinfo := take i authority in
      if negb (validUserinfo userinfo) then None
      else match Cut userinfo x3a with
           | None => _ ← unescape encodeUserPassword userinfo; Some (true, host)
           | Some (u, p) =>
               _ ← unescape encodeUserPassword u; _ ← unescape encodeUserPassword p; Some (true, host)
           end
  end.

Definition nonempty_scheme (scheme : gostring) : bool := match scheme with [] => false | _ => true end.

Definition is_ctl (c : byte) : bool := (bz c <? 32)%Z || Byte.eqb c x7f.

(** [parse] without the fragment; the scheme's letters are ASCII. *)
Definition parse (rawURL : gostring) : option URL :=
  if existsb is_ctl rawURL then None
  else if rawURL =?s "*" then Some (mkURL [] false [] "*" [] [] [])
  else
    '(scheme, rest) ← getScheme rawURL;
    let scheme := map lower_byte scheme in
    let '(rest, query) := default (rest, []) (Cut rest x3f) in
    if negb (HasPrefix rest "/") && nonempty_scheme scheme then
      Some (mkURL scheme false [] [] [] query [])
    else if negb (HasPrefix rest "/") && has_byte (default rest (fst <$> Cut rest x2f)) x3a then None
    else
      '(user, host, rest) ←
        (if (nonempty_scheme scheme || negb (HasPrefix rest "///")) && HasPrefix rest "//" then
           let authority := drop 2 rest in
           let '(authority, rest) :=
             match IndexByte authority x2f with
             | Some i => (take i authority, drop i authority)
             | None => (authority, [])
             end in
           '(user, host) ← parseAuthority authority; Some (user, host, rest)
         else Some (false, [], rest));
      path ← unescape encodePath rest;
      Some (mkURL scheme user host path (if rest =?s escape encodePath path then [] else rest) query []).

Definition url_Parse (rawURL : gostring) : option URL :=
  let '(u, frag) := default (rawURL, []) (Cut rawURL x23) in
  url ← parse u;
  match frag with
  | [] => Some url
  | _ => f ← unescape encodeFragment frag;
         Some (mkURL (Scheme url) (User url) (URLHost url) (Path url) (RawPath url) (RawQuery url) f)
  end.

(** ** Host name and port of [URL.Host] *)

Definition splitHostPort (hostPort : gostring) : gostring * gostring :=
  let '(host, port) :=
    match LastIndexByte hostPort x3a with
    | Some i => if validOptionalPort (drop i hostPort)
                then (take i hostPort, drop (S i) hostPort) else (hostPort, [])
    | None => (hostPort, [])
    end in
  (if HasPrefix host "[" && HasSuffix host "]" then take (length host - 2) (tail host) else host, port).

Definition Hostname (u : URL) : gostring := fst (splitHostPort (URLHost u)).
Definition URLPort (u : URL) : gostring := snd (splitHostPort (URLHost u)).

Example url_Parse_examples :
  map (λ s, (λ u, (Scheme u, User u, Hostname u, URLPort u, Path u, Fragment u)) <$> url_Parse s)
    ["//example.com"; "https://Example.com:443/pinus/import#token=abc"; "//a@b.c"; "//a b"; "//x:y";
     "//[::1]:80/x%20y"; "a:b"; "//ex%41mple.com"]
  = [Some ([], false, "example.com", [], [], []);
     Some ("https", false, "Example.com", "443", "/pinus/import", "token=abc");
     Some ([], true, "b.c", [], [], []); None; None;
     Some ([], false, "::1", "80", "/x y", []); Some ("a", false, [], [], [], []); None].
Proof. vm_compute. reflexivity. Qed.
