(* ===== verification/GoJson.v ===== *)
(** * [encoding/json]

    - [json]: the values a Go program hands to the encoder, with objects (maps
      and structs) in the order in which their members are written;
      [mkobj] and [jset] keep a [map[string]any] in key order.
    - [Marshal], [MarshalIndent]: the encoder.
    - [Unmarshal]: the decoder's grammar, into a tree that also keeps the text
      of every object member (for [json.RawMessage]); the typed decoders at the
      end fill Go values from such a tree, starting from their old contents. *)
From S2P Require Import Prelude GoStrings GoStrconv GoEncoding TunnelName.

#[warnings="-register-all"]
Inductive json :=
| JNull
| JBool (b : bool)
| JNum (lit : gostring)
| JStr (s : gostring)
| JRaw (text : gostring)  (* a json.RawMessage that holds valid JSON *)
| JArr (l : list json)
| JObj (l : list (gostring * json)).

Definition JInt (z : Z) : json := JNum (Itoa z).
Definition JStrs (l : list gostring) : json := JArr (map JStr l).

(** ** Maps, in key order *)

Fixpoint jset (k : gostring) (v : json) (l : list (gostring * json)) : list (gostring * json) :=
  match l with
  | [] => [(k, v)]
  | (k', v') :: l' =>
      match str_compare k k' with
      | Lt => (k, v) :: l
      | Eq => (k, v) :: l'
      | Gt => (k', v') :: jset k v l'
      end
  end.

Definition mkmap (l : list (gostring * json)) : list (gostring * json) :=
  fold_left (λ m kv, jset (fst kv) (snd kv) m) l [].
Definition mkobj (l : list (gostring * json)) : json := JObj (mkmap l).

Definition jget (k : gostring) (v : json) : option json :=
  match v with JObj l => assoc_str k l | _ => None end.

(** ** UTF-8 *)

(** The number of bytes of the rune at the head of [s], [0] when it is not
    well-formed. *)
Definition utf8_width (s : list byte) : nat :=
  match s with
  | [] => 0
  | b0 :: r0 =>
      if is_ascii b0 then 1
      else match r0 with
      | [] => 0
      | b1 :: r1 =>
          if in_range 0xc2 0xdf b0 && is_cont b1 then 2
          else match r1 with
          | [] => 0
          | b2 :: r2 =>
              if in_range 0xe0 0xef b0 && second3 b0 b1 && is_cont b2 then 3
              else match r2 with
              | [] => 0
              | b3 :: _ =>
                  if in_range 0xf0 0xf4 b0 && second4 b0 b1 && is_cont b2 && is_cont b3 then 4 else 0
              end
          end
      end
  end.

Fixpoint utf8_valid (skip : nat) (s : list byte) : bool :=
  match s with
  | [] => (skip =? 0)%nat
  | _ :: r =>
      match skip with
      | S k => utf8_valid k r
      | O => match utf8_width s with O => false | S k => utf8_valid k r end
      end
  end.
Definition ValidString (s : gostring) : bool := utf8_valid 0 s.

(** ** Encoding *)

Definition u_escape (v : Z) : gostring :=
  "\u" ++ [hex_digit (v / 4096); hex_digit (v / 256 mod 16); hex_digit (v / 16 mod 16); hex_digit (v mod 16)].

(** An ASCII character inside a string; [<], [>] and [&] are escaped for HTML. *)
Definition escape_ascii (b : byte) : gostring :=
  if Byte.eqb b x22 || Byte.eqb b x5c then [x5c; b]
  else if Byte.eqb b x08 then "\b" else if Byte.eqb b x0c then "\f"
  else if Byte.eqb b x0a then "\n" else if Byte.eqb b x0d then "\r" else if Byte.eqb b x09 then "\t"
  else if (bz b <? 32)%Z || has_byte "<>&" b then u_escape (bz b) else [b].

Definition is_line_separator (s : list byte) : bool :=
  match s with xe2 :: x80 :: c :: _ => Byte.eqb c xa8 || Byte.eqb c xa9 | _ => false end.

(** The bytes of a string between its quotes; [skip] bytes of a rune are still
    to be copied. *)
Fixpoint quote_bytes (skip : nat) (s : list byte) : gostring :=
  match s with
  | [] => []
  | b :: r =>
      match skip with
      | S k => b :: quote_bytes k r
      | O =>
          if is_ascii b then escape_ascii b ++ quote_bytes 0 r
          else if is_line_separator s then
            match r with
            | _ :: c :: r' => "\u202" ++ [hex_digit (bz c - 160)] ++ quote_bytes 0 r'
            | _ => []
            end
          else match utf8_width s with
               | O => "\ufffd" ++ quote_bytes 0 r
               | S k => b :: quote_bytes k r
               end
      end
  end.
Definition quote (s : gostring) : gostring := x22 :: quote_bytes 0 s ++ [x22].

(** [json.Compact] with HTML escaping, on valid JSON: white space outside
    strings is dropped; [str] inside a string, [esc] after a backslash. *)
Fixpoint compact (str esc : bool) (s : list byte) : gostring :=
  match s with
  | [] => []
  | b :: r =>
      if has_byte "<>&" b then u_escape (bz b) ++ compact str false r
      else if is_line_separator s then
        match r with
        | _ :: c :: r' => "\u202" ++ [hex_digit (bz c - 160)] ++ compact str false r'
        | _ => []
        end
      else if str then b :: compact (esc || negb (Byte.eqb b x22)) (negb esc && Byte.eqb b x5c) r
      else if has_byte [x20; x09; x0d; x0a] b then compact false false r
      else b :: compact (Byte.eqb b x22) false r
  end.

Fixpoint Marshal (v : json) : gostring :=
  match v with
  | JNull => "null"
  | JBool true => "true"
  | JBool false => "false"
  | JNum lit => lit
  | JStr s => quote s
  | JRaw text => compact false false text
  | JArr l => "[" ++ Join (map Marshal l) "," ++ "]"
  | JObj l => "{" ++ Join (map (λ kv, quote (fst kv) ++ ":" ++ Marshal (snd kv)) l) "," ++ "}"
  end.

(** [MarshalIndent(v, "", "  ")]; empty arrays and objects stay on one line. *)
Definition indent (n : nat) : gostring := x0a :: concat (replicate n "  ").

(** [json.Indent] of compact JSON; [need] right after an opening bracket. *)
Fixpoint indent_text (str esc need : bool) (depth : nat) (s : list byte) : gostring :=
  match s with
  | [] => []
  | b :: r =>
      let close := Byte.eqb b x7d || Byte.eqb b x5d in
      if str then b :: indent_text (esc || negb (Byte.eqb b x22)) (negb esc && Byte.eqb b x5c) false depth r
      else if need && negb close then
        let depth := S depth in
        indent depth
        ++ (if Byte.eqb b x7b || Byte.eqb b x5b then b :: indent_text false false true depth r
            else b :: indent_text (Byte.eqb b x22) false false depth r)
      else if Byte.eqb b x7b || Byte.eqb b x5b then b :: indent_text false false true depth r
      else if Byte.eqb b x2c then b :: indent depth ++ indent_text false false false depth r
      else if Byte.eqb b x3a then b :: x20 :: indent_text false false false depth r
      else if close then
        if need then b :: indent_text false false false depth r
        else indent (depth - 1) ++ b :: indent_text false false false (depth - 1) r
      else b :: indent_text (Byte.eqb b x22) false false depth r
  end.

Fixpoint MarshalIndent (n : nat) (v : json) : gostring :=
  match v with
  | JArr ((_ :: _) as l) =>
      "[" ++ indent (S n) ++ Join (map (MarshalIndent (S n)) l) ("," ++ indent (S n)) ++ indent n ++ "]"
  | JObj ((_ :: _) as l) =>
      "{" ++ indent (S n)
      ++ Join (map (λ kv, quote (fst kv) ++ ": " ++ MarshalIndent (S n) (snd kv)) l) ("," ++ indent (S n))
      ++ indent n ++ "}"
  | JRaw text => indent_text false false false n (compact false false text)
  | _ => Marshal v
  end.

(** ** Decoding *)

#[warnings="-register-all"]
Inductive jtree :=
| TNull
| TBool (b : bool)
| TNum (lit : gostring)
| TStr (s : gostring)
| TArr (l : list jtree)
| TObj (l : list (gostring * gostring * jtree)).  (* key, text of the value, value *)

Definition is_ws (b : byte) : bool :=
  Byte.eqb b x20 || Byte.eqb b x09 || Byte.eqb b x0d || Byte.eqb b x0a.

Fixpoint skip_ws (s : list byte) : list byte :=
  match s with b :: s' => if is_ws b then skip_ws s' else s | [] => [] end.

Definition hex4 (a b c d : byte) : option Z :=
  w ← hex_val a; x ← hex_val b; y ← hex_val c; z ← hex_val d;
  Some (((w * 16 + x) * 16 + y) * 16 + z)%Z.

Definition is_surrogate (r : Z) : bool := (0xd800 <=? r)%Z && (r <? 0xe000)%Z.

(** [utf16.DecodeRune] of a valid pair. *)
Definition surrogate_pair (r1 r2 : Z) : option Z :=
  if ((0xd800 <=? r1) && (r1 <? 0xdc00) && (0xdc00 <=? r2) && (r2 <? 0xe000))%Z
  then Some (0x10000 + (r1 - 0xd800) * 1024 + (r2 - 0xdc00))%Z else None.

Definition simple_escape (c : byte) : option byte :=
  if has_byte [x22; x5c; x2f] c then Some c
  else if Byte.eqb c "b" then Some x08 else if Byte.eqb c "f" then Some x0c
  else if Byte.eqb c "n" then Some x0a else if Byte.eqb c "r" then Some x0d
  else if Byte.eqb c "t" then Some x09 else None.

Definition prepend (p : gostring) (r : option (gostring * list byte)) : option (gostring * list byte) :=
  '(s, rest) ← r; Some (p ++ s, rest).

(** The rest of a string literal, decoded, and the input after its closing
    quote; bytes that are not UTF-8 become U+FFFD. *)
Fixpoint pstring (skip : nat) (s : list byte) : option (gostring * list byte) :=
  match s with
  | [] => None
  | b :: r =>
      match skip with
      | S k => prepend [b] (pstring k r)
      | O =>
          if Byte.eqb b x22 then Some ([], r)
          else if Byte.eqb b x5c then
            match r with
            | [] => None
            | c :: r1 =>
                if Byte.eqb c x75 then
                  match r1 with
                  | h1 :: h2 :: h3 :: h4 :: r2 =>
                      rr ← hex4 h1 h2 h3 h4;
                      if is_surrogate rr then
                        match r2 with
                        | x5c :: x75 :: g1 :: g2 :: g3 :: g4 :: r3 =>
                            match hex4 g1 g2 g3 g4 ≫= surrogate_pair rr with
                            | Some dec => prepend (encode_rune dec) (pstring 0 r3)
                            | None => prepend (encode_rune RuneError) (pstring 0 r2)
                            end
                        | _ => prepend (encode_rune RuneError) (pstring 0 r2)
                        end
                      else prepend (encode_rune rr) (pstring 0 r2)
                  | _ => None
                  end
                else e ← simple_escape c; prepend [e] (pstring 0 r1)
            end
          else if (bz b <? 32)%Z then None
          else match utf8_width s with
               | O => prepend (encode_rune RuneError) (pstring 0 r)
               | S k => prepend [b] (pstring k r)
               end
      end
  end.

Fixpoint span_digits (s : list byte) : gostring * list byte :=
  match s with
  | b :: s' => if is_digit b then let '(d, r) := span_digits s' in (b :: d, r) else ([], s)
  | [] => ([], [])
  end.

(** A number literal at the head of the input. *)
Definition pnumber (s : list byte) : option (gostring * list byte) :=
  let '(sign, s) := match s with x2d :: s => (["-"%byte], s) | _ => ([], s) end in
  '(int, s) ← match s with
              | x30 :: s => Some ([x30], s)
              | _ => match span_digits s with ([], _) => None | r => Some r end
              end;
  '(frac, s) ← match s with
               | x2e :: s => match span_digits s with
                             | ([], _) => None
                             | (d, s) => Some (x2e :: d, s)
                             end
               | _ => Some ([], s)
               end;
  '(exp, s) ← match s with
              | e :: s' =>
                  if Byte.eqb e "e" || Byte.eqb e "E" then
                    let '(sg, s') := match s' with
                                     | c :: s'' => if Byte.eqb c "+" || Byte.eqb c "-" then ([c], s'') else ([], s')
                                     | [] => ([], [])
                                     end in
                    match span_digits s' with ([], _) => None | (d, s') => Some (e :: sg ++ d, s') end
                  else Some ([], s)
              | [] => Some ([], s)
              end;
  Some (sign ++ int ++ frac ++ exp, s).

Definition maxNestingDepth : Z := 10000.
Definition too_deep (depth : nat) : bool := (maxNestingDepth <=? Z.of_nat depth)%Z.

Definition lit_prefix (lit : gostring) (t : jtree) (s : list byte) : option (jtree * list byte) :=
  if HasPrefix s lit then Some (t, drop (length lit) s) else None.

(** One value, after white space.  Every call consumes a byte or decreases
    [fuel] at most twice per byte, so [2 * length s + 2] suffices. *)
Fixpoint pvalue (fuel depth : nat) (s : list byte) : option (jtree * list byte) :=
  match fuel with
  | O => None
  | S fuel =>
      match skip_ws s with
      | x22 :: s => '(t, s) ← pstring 0 s; Some (TStr t, s)
      | x7b :: s =>
          if too_deep depth then None
          else match skip_ws s with
               | x7d :: s => Some (TObj [], s)
               | s => '(l, s) ← pmembers fuel (S depth) s; Some (TObj l, s)
               end
      | x5b :: s =>
          if too_deep depth then None
          else match skip_ws s with
               | x5d :: s => Some (TArr [], s)
               | s => '(l, s) ← pelems fuel (S depth) s; Some (TArr l, s)
               end
      | (b :: _) as s =>
          if Byte.eqb b "t" then lit_prefix "true" (TBool true) s
          else if Byte.eqb b "f" then lit_prefix "false" (TBool false) s
          else if Byte.eqb b "n" then lit_prefix "null" TNull s
          else '(lit, s) ← pnumber s; Some (TNum lit, s)
      | [] => None
      end
  end
with pelems (fuel depth : nat) (s : list byte) : option (list jtree * list byte) :=
  match fuel with
  | O => None
  | S fuel =>
      '(v, s) ← pvalue fuel depth s;
      match skip_ws s with
      | x5d :: s => Some ([v], s)
      | x2c :: s => '(l, s) ← pelems fuel depth s; Some (v :: l, s)
      | _ => None
      end
  end
with pmembers (fuel depth : nat) (s : list byte) : option (list (gostring * gostring * jtree) * list byte) :=
  match fuel with
  | O => None
  | S fuel =>
      match skip_ws s with
      | x22 :: s =>
          '(k, s) ← pstring 0 s;
          match skip_ws s with
          | x3a :: s =>
              let s := skip_ws s in
              '(v, rest) ← pvalue fuel depth s;
              let raw := take (length s - length rest) s in
              match skip_ws rest with
              | x7d :: s => Some ([(k, raw, v)], s)
              | x2c :: s => '(l, s) ← pmembers fuel depth s; Some ((k, raw, v) :: l, s)
              | _ => None
              end
          | _ => None
          end
      | _ => None
      end
  end.

(** One value at the head of a stream ([Decoder.Decode]). *)
Definition decode_stream (s : gostring) : option (jtree * gostring) := pvalue (2 * length s + 2) 0 s.

(** The whole input is one value ([json.Unmarshal], [json.Valid]). *)
Definition decode_tree (s : gostring) : option jtree :=
  '(t, rest) ← decode_stream s; match skip_ws rest with [] => Some t | _ => None end.

(** ** Filling Go values

    A decoder gets the text and the tree of a value and the old contents of
    the variable; [null] leaves scalars unchanged. *)

Definition json_error (msg : gostring) : goerror := ErrorString ("json: " ++ msg).
Definition type_error {A} : outcome A := Fail (json_error "cannot unmarshal value").

Definition decoder (A : Type) : Type := gostring → jtree → A → outcome A.

Definition dec_string : decoder gostring := λ _ t old,
  match t with TStr s => Ret s | TNull => Ret old | _ => type_error end.

Definition dec_bool : decoder bool := λ _ t old,
  match t with TBool b => Ret b | TNull => Ret old | _ => type_error end.

Definition dec_int : decoder Z := λ _ t old,
  match t with TNum lit => map_error (λ _, json_error "cannot unmarshal number") (ParseInt64 lit)
  | TNull => Ret old | _ => type_error end.

Definition dec_uint64 : decoder Z := λ _ t old,
  match t with TNum lit => map_error (λ _, json_error "cannot unmarshal number") (ParseUint lit 64)
  | TNull => Ret old | _ => type_error end.

(** [json.RawMessage] keeps the text of any value. *)
Definition dec_raw : decoder gostring := λ raw _ _, Ret raw.

(** A slice: element [i] is decoded over the old element [i], if there is one. *)
Fixpoint dec_elems {A} (d : decoder A) (zero : A) (ts : list jtree) (old : list A) : outcome (list A) :=
  match ts with
  | [] => Ret []
  | t :: ts => a ← d [] t (default zero (head old)); l ← dec_elems d zero ts (tail old); Ret (a :: l)
  end.
Definition dec_slice {A} (d : decoder A) (zero : A) : decoder (option (list A)) := λ _ t old,
  match t with
  | TArr ts => Some <$> dec_elems d zero ts (default [] old)
  | TNull => Ret None
  | _ => type_error
  end.

(** A slice whose nil and empty values need not be told apart. *)
Definition dec_list {A} (d : decoder A) (zero : A) : decoder (list A) := λ raw t old,
  default [] <$> dec_slice d zero raw t (Some old).

(** A map: its old entries stay, each value is decoded over a zero value. *)
Definition dec_map {A} (d : decoder A) (zero : A) : decoder (gmap gostring A) := λ _ t old,
  match t with
  | TObj ms => fold_outcome (λ m '(k, raw, t), a ← d raw t zero; Ret (<[k := a]> m)) old ms
  | TNull => Ret ∅
  | _ => type_error
  end.

Section Structs.
Context {RT : GoRuntime}.

(** The field a key names: the exact name, else the first that matches when
    letter case is ignored. *)
Definition find_field {A} (key : gostring) (fields : list (gostring * A)) : option A :=
  match assoc_str key fields with
  | Some f => Some f
  | None => snd <$> List.find (λ f, EqualFold key (fst f)) fields
  end.

Definition dec_struct {A} (strict : bool) (fields : list (gostring * decoder A)) : decoder A := λ _ t old,
  match t with
  | TObj ms =>
      fold_outcome (λ a '(k, raw, t),
        match find_field k fields with
        | Some d => d raw t a
        | None => if strict : bool then Fail (json_error "unknown field") else Ret a
        end) old ms
  | TNull => Ret old
  | _ => type_error
  end.
End Structs.

(** A decoder for one field of a record. *)
Definition in_field {R A} (proj : R → A) `{!Setter proj} (d : decoder A) : decoder R := λ raw t r,
  a ← d raw t (proj r); Ret (r <| proj := a |>).

Definition Unmarshal {A} (d : decoder A) (data : gostring) (old : A) : outcome A :=
  t ← or_fail (decode_tree data) (json_error "invalid input"); d data t old.

(** ** Examples *)

Definition dq : gostring := [x22].

Example decode_examples :
  map decode_tree
    [" {" ++ dq ++ "a" ++ dq ++ " : [1, -2.5e+3, true], " ++ dq ++ "b" ++ dq ++ ":{}} "; "[1,]"; "01";
     dq ++ "\u00e9\ud83d\ude00\n" ++ dq; "nul"]
  = [Some (TObj [("a", "[1, -2.5e+3, true]", TArr [TNum "1"; TNum "-2.5e+3"; TBool true]); ("b", "{}", TObj [])]);
     None; None; Some (TStr ("é😀" ++ [x0a])); None].
Proof. vm_compute. reflexivity. Qed.

Example encode_examples :
  let v := JObj [("a", JArr [JInt 1; JInt (-2)]); ("b", JObj []); ("c", JRaw ("{ " ++ dq ++ "x" ++ dq ++ " :[ 1,2] }"))] in
  Marshal v = "{" ++ dq ++ "a" ++ dq ++ ":[1,-2]," ++ dq ++ "b" ++ dq ++ ":{}," ++ dq ++ "c" ++ dq ++ ":{"
              ++ dq ++ "x" ++ dq ++ ":[1,2]}}"
  ∧ MarshalIndent 0 v = indent_text false false false 0 (Marshal v).
Proof. vm_compute. split; reflexivity. Qed.
