(* ===== verification/GoSha256.v ===== *)
(** * [crypto/sha256]

    SHA-256 over byte strings, with 32-bit words as [Z]. *)
From S2P Require Import Prelude GoStrings GoStrconv GoEncoding.

Local Open Scope Z_scope.

Definition rotr (x n : Z) : Z := Z.lor (Z.shiftr x n) (u32 (Z.shiftl x (32 - n))).

(** The constants are the first 32 bits of the fractional parts of the cube
    roots (square roots) of the first primes. *)
Definition is_prime (n : nat) : bool := forallb (λ d, negb (n mod d =? 0)%nat) (seq 2 (n - 2)).
Definition primes : list Z := map Z.of_nat (List.filter is_prime (seq 2 310)).

(** The largest [r] below [2^bits] with [r ^ 3 <= x], bit by bit from above. *)
Fixpoint cube_root (bits : nat) (x r : Z) : Z :=
  match bits with
  | O => r
  | S bits =>
      let r' := r + 2 ^ Z.of_nat bits in
      cube_root bits x (if r' * r' * r' <=? x then r' else r)
  end.

Definition K256 : list Z := Eval vm_compute in map (λ p, cube_root 36 (p * 2 ^ 96) 0 mod 2 ^ 32) primes.
Definition H256 : list Z := Eval vm_compute in map (λ p, Z.sqrt (p * 2 ^ 64) mod 2 ^ 32) (take 8 primes).

Definition be32 (l : list byte) : Z := fold_left (λ a b, a * 256 + bz b) l 0.

Definition be_bytes (n : nat) (v : Z) : list byte :=
  map (λ i, zb (Z.shiftr v (8 * Z.of_nat i))) (rev (seq 0 n)).

(** Cut into pieces of [k] bytes. *)
Fixpoint chunks (fuel k : nat) (l : list byte) : list (list byte) :=
  match fuel, l with
  | S fuel, _ :: _ => take k l :: chunks fuel k (drop k l)
  | _, _ => []
  end.

Definition pad (m : list byte) : list byte :=
  let n := Z.of_nat (length m) in
  m ++ [x80] ++ replicate (Z.to_nat ((55 - n) mod 64)) x00 ++ be_bytes 8 (n * 8).

(** The message schedule, newest word first. *)
Definition extend_word (w : list Z) : list Z :=
  let at_ i := nth i w 0 in
  let w15 := at_ 14%nat in let w2 := at_ 1%nat in
  let s0 := Z.lxor (Z.lxor (rotr w15 7) (rotr w15 18)) (Z.shiftr w15 3) in
  let s1 := Z.lxor (Z.lxor (rotr w2 17) (rotr w2 19)) (Z.shiftr w2 10) in
  u32 (at_ 15%nat + s0 + at_ 6%nat + s1) :: w.

Definition schedule (block : list byte) : list Z :=
  rev (Nat.iter 48 extend_word (rev (map be32 (chunks 16 4 block)))).

Definition round (st : list Z) (kw : Z * Z) : list Z :=
  match st with
  | [a; b; c; d; e; f; g; h] =>
      let s1 := Z.lxor (Z.lxor (rotr e 6) (rotr e 11)) (rotr e 25) in
      let ch := Z.lxor (Z.land e f) (Z.land (Z.lxor e 0xffffffff) g) in
      let t1 := h + s1 + ch + fst kw + snd kw in
      let s0 := Z.lxor (Z.lxor (rotr a 2) (rotr a 13)) (rotr a 22) in
      let maj := Z.lxor (Z.lxor (Z.land a b) (Z.land a c)) (Z.land b c) in
      [u32 (t1 + s0 + maj); a; b; c; u32 (d + t1); e; f; g]
  | _ => st
  end.

Definition compress (h : list Z) (block : list byte) : list Z :=
  zip_with (λ a b, u32 (a + b)) h (fold_left round (zip K256 (schedule block)) h).

Definition Sum256 (m : list byte) : list byte :=
  let p := pad m in
  concat (map (be_bytes 4) (fold_left compress (chunks (length p) 64 p) H256)).

Example Sum256_abc :
  hex_EncodeToString (Sum256 "abc") = "ba7816bf8f01cfea414140de5dae2223b00361a396177a9cb410ff61f20015ad".
Proof. vm_compute. reflexivity. Qed.

Example Sum256_two_blocks :
  hex_EncodeToString (Sum256 "abcdbcdecdefdefgefghfghighijhijkijkljklmklmnlmnomnopnopq")
  = "248d6a61d20638b8e5c026930c3e6039a33ce45964ff2167f6ecedd419db06c1".
Proof. vm_compute. reflexivity. Qed.
