(* ===== verification/GoTime.v ===== *)
(** * [time]: instants

    An instant is its number of nanoseconds since January 1, year 1, 00:00 UTC,
    which is Go's zero [time.Time]. *)
From S2P Require Import Prelude GoStrings GoStrconv.

Local Open Scope Z_scope.

Definition Second : Z := 1000000000.
Definition Millisecond : Z := 1000000.
Definition Minute : Z := 60 * Second.
Definition Hour : Z := 60 * Minute.

Definition IsZero (t : Z) : bool := t =? 0.
Definition After (t u : Z) : bool := t >? u.

Definition is_leap (y : Z) : bool := (y mod 4 =? 0) && (negb (y mod 100 =? 0) || (y mod 400 =? 0)).

Definition daysIn (m y : Z) : Z :=
  if m =? 2 then if is_leap y then 29 else 28
  else if (m =? 4) || (m =? 6) || (m =? 9) || (m =? 11) then 30 else 31.

Definition days_before_month (m y : Z) : Z :=
  fold_left (λ a i, a + daysIn i y) (seqZ 1 (m - 1)) 0.

Definition days_before_year (y : Z) : Z := let p := y - 1 in 365 * p + p / 4 - p / 100 + p / 400.

Definition Date (y m d hh mm ss ns : Z) : Z :=
  ((((days_before_year y + days_before_month m y + (d - 1)) * 24 + hh) * 60 + mm) * 60 + ss) * Second + ns.

(** Digits with a value between [lo] and [hi]. *)
Definition parse_digits (s : list byte) (lo hi : Z) : option Z :=
  if forallb is_digit s then
    let v := dec_value 0 s in if (lo <=? v) && (v <=? hi) then Some v else None
  else None.

Fixpoint span_digit (s : list byte) : list byte * list byte :=
  match s with
  | b :: s' => if is_digit b then let '(d, r) := span_digit s' in (b :: d, r) else ([], s)
  | [] => ([], [])
  end.

(** [parseRFC3339]. *)
Definition ParseRFC3339 (s : gostring) : option Z :=
  if (length s <? 19)%nat then None
  else
    let part i n := take n (drop i s) in
    y ← parse_digits (part 0 4)%nat 0 9999;
    m ← parse_digits (part 5 2)%nat 1 12;
    d ← parse_digits (part 8 2)%nat 1 (daysIn m y);
    hh ← parse_digits (part 11 2)%nat 0 23;
    mm ← parse_digits (part 14 2)%nat 0 59;
    ss ← parse_digits (part 17 2)%nat 0 59;
    if negb ((part 4 1)%nat =?s "-") || negb ((part 7 1)%nat =?s "-") || negb ((part 10 1)%nat =?s "T")
       || negb ((part 13 1)%nat =?s ":") || negb ((part 16 1)%nat =?s ":") then None
    else
      let rest := drop 19 s in
      let '(ns, rest) :=
        match rest with
        | x2e :: r =>
            match span_digit r with
            | ([], _) => (0, rest)
            | (ds, r) => (dec_value 0 (take 9 (ds ++ replicate 9 x30)), r)
            end
        | _ => (0, rest)
        end in
      let t := Date y m d hh mm ss ns in
      match rest with
      | [x5a] => Some t
      | sg :: a :: b :: c :: e :: f :: [] =>
          zh ← parse_digits [a; b] 0 23; zm ← parse_digits [e; f] 0 59;
          if negb (Byte.eqb c ":") then None
          else if Byte.eqb sg "+" then Some (t - (zh * 60 + zm) * 60 * Second)
          else if Byte.eqb sg "-" then Some (t + (zh * 60 + zm) * 60 * Second)
          else None
      | _ => None
      end.

(** ** Printing *)

(** Year, month and day of a number of days since January 1, year 1. *)
Fixpoint month_of (fuel : nat) (m y d : Z) : Z * Z :=
  match fuel with
  | O => (m, d)
  | S fuel => if d <? daysIn m y then (m, d) else month_of fuel (m + 1) y (d - daysIn m y)
  end.

Definition civil (days : Z) : Z * Z * Z :=
  let n400 := days / 146097 in let d := days mod 146097 in
  let n100 := Z.min 3 (d / 36524) in let d := d - n100 * 36524 in
  let n4 := d / 1461 in let d := d mod 1461 in
  let n1 := Z.min 3 (d / 365) in let d := d - n1 * 365 in
  let y := 400 * n400 + 100 * n100 + 4 * n4 + n1 + 1 in
  let '(m, d) := month_of 11 1 y d in (y, m, d + 1).

Definition digits (width : nat) (v : Z) : gostring :=
  let s := Itoa v in replicate (width - length s) x30 ++ s.

Fixpoint drop_zeros (s : list byte) : list byte :=
  match s with x30 :: s => drop_zeros s | _ => s end.

(** [t.UTC().Format(time.RFC3339Nano)] *)
Definition FormatRFC3339Nano (t : Z) : gostring :=
  let sec := t / Second in let ns := t mod Second in
  let '(y, m, d) := civil (sec / 86400) in
  let r := sec mod 86400 in
  digits 4 y ++ "-" ++ digits 2 m ++ "-" ++ digits 2 d ++ "T"
  ++ digits 2 (r / 3600) ++ ":" ++ digits 2 (r / 60 mod 60) ++ ":" ++ digits 2 (r mod 60)
  ++ (if ns =? 0 then [] else "." ++ rev (drop_zeros (rev (digits 9 ns)))) ++ "Z".

Example FormatRFC3339Nano_examples :
  map (λ s, FormatRFC3339Nano <$> ParseRFC3339 s)
    ["2024-02-29T12:00:00.5+01:00"; "0001-01-01T00:00:00Z"; "2000-12-31T23:59:59.000000001Z"]
  = [Some "2024-02-29T11:00:00.5Z"; Some "0001-01-01T00:00:00Z"; Some "2000-12-31T23:59:59.000000001Z"].
Proof. vm_compute. reflexivity. Qed.

Example ParseRFC3339_examples :
  map ParseRFC3339 ["0001-01-01T00:00:00Z"; "1970-01-01T00:00:00Z"; "2024-02-29T12:00:00.5+01:00"; "2023-02-29T00:00:00Z"]
  = [Some 0; Some (62135596800 * Second); Some (63844801200 * Second + 500000000); None].
Proof. vm_compute. reflexivity. Qed.
