(* ===== verification/GoOs.v ===== *)
(** * [os]: files

    The calls on files that the source makes, over a map from paths to
    contents.  Any call can fail: [fault n] is the error of the [n]-th call,
    if it has one.  A failing [Write] may leave a part of the data behind;
    [Rename] and [Remove] take effect entirely or not at all.  The state keeps
    every earlier map, so that a statement can speak about what a crash between
    two calls would leave.  There is no write-back cache: a finished call is
    there after the crash, as when a process is killed.  After a power failure
    this holds for a file whose data was flushed before it was renamed, as the
    source does for the settings ([SmartStore]) and not for the tunnel store
    ([ConfStore]). *)
From S2P Require Import Prelude GoStrings GoStrconv AwgValidation.

Definition files_t : Type := gmap gostring gostring.

Record io := mkIO { files : files_t; calls : nat; past : list files_t }.

Class Faults := {
  fault : nat → option goerror;
  partial_write : nat → nat;
  temp_suffix : nat → gostring;
}.

(** No call fails, and the [n]-th temporary file is named after [n]. *)
Definition no_faults : Faults :=
  {| fault := λ _, None; partial_write := λ _, O; temp_suffix := λ n, Itoa (Z.of_nat n) |}.

(** A computation on a state [W] that may fail. *)
Definition prog (W A : Type) : Type := W → W * outcome A.
Definition IO (A : Type) : Type := prog io A.

Definition io_ret {W A} (a : A) : prog W A := λ s, (s, Ret a).
Definition io_fail {W A} (e : goerror) : prog W A := λ s, (s, Fail e).
Definition io_lift {W A} (m : outcome A) : prog W A := λ s, (s, m).
Definition io_bind {W A B} (m : prog W A) (k : A → prog W B) : prog W B := λ s,
  match m s with
  | (s, Ret a) => k a s
  | (s, Fail e) => (s, Fail e)
  | (s, Panic) => (s, Panic)
  end.

(** The error of [m] as a value, as in [if err := m(); err != nil]. *)
Definition attempt {W A} (m : prog W A) : prog W (outcome A) := λ s,
  let '(s, r) := m s in (s, match r with Panic => Panic | _ => Ret r end).

(** [_ = m()]: the error is dropped. *)
Definition ignore_error {W A} (m : prog W A) : prog W unit := λ s,
  let '(s, r) := m s in (s, match r with Panic => Panic | _ => Ret tt end).

(** Run [m], then the deferred [d] whatever happened; the outcome is [m]'s. *)
Definition deferring {W A} (m : prog W A) (d : prog W unit) : prog W A := λ s,
  let '(s, r) := m s in let '(s, _) := d s in (s, r).

Declare Scope io_scope.
Delimit Scope io_scope with io.
Notation "'let!' x := m 'in' k" := (io_bind m (λ x, k))
  (at level 10, x binder, m at level 100, k at level 200) : io_scope.
Notation "m ;; k" := (io_bind m (λ _, k)) (at level 100, right associativity) : io_scope.
Open Scope io_scope.

(** [errors.Is(err, os.ErrNotExist)]. *)
Definition ErrNotExist : goerror := ErrorString "file does not exist".
Fixpoint is_not_exist (e : goerror) : bool :=
  match e with
  | ErrorString s => s =?s "file does not exist"
  | WrapError _ e => is_not_exist e
  | _ => false
  end.

Section Calls.
Context {FT : Faults}.

(** One call: [f] on the files when it succeeds, [g] when it fails. *)
Definition call {A} (f : files_t → files_t * outcome A) (g : nat → files_t → files_t) : IO A := λ s,
  let n := calls s in
  let '(fs, r) := match fault n with None => f (files s) | Some e => (g n (files s), Fail e) end in
  (mkIO fs (S n) (files s :: past s), r).

Definition unchanged (n : nat) (fs : files_t) : files_t := fs.

Definition ReadFile (path : gostring) : IO gostring :=
  call (λ fs, (fs, or_fail (fs !! path) ErrNotExist)) unchanged.

Definition MkdirAll (path : gostring) : IO unit := call (λ fs, (fs, Ret tt)) unchanged.

(** [os.CreateTemp(dir, pattern)] with the last [*] of the pattern at its end. *)
Definition CreateTemp (dir prefix : gostring) : IO gostring := λ s,
  let path := dir ++ "\" ++ prefix ++ temp_suffix (calls s) in
  call (λ fs, match fs !! path with
              | Some _ => (fs, Fail (ErrorString "file exists"))
              | None => (<[path := []]> fs, Ret path)
              end) unchanged s.

Definition WriteFileHandle (path data : gostring) : IO unit :=
  call (λ fs, (<[path := data]> fs, Ret tt)) (λ n fs, <[path := take (partial_write n) data]> fs).

Definition Sync (path : gostring) : IO unit := call (λ fs, (fs, Ret tt)) unchanged.
Definition Close (path : gostring) : IO unit := call (λ fs, (fs, Ret tt)) unchanged.
Definition Chmod (path : gostring) : IO unit := call (λ fs, (fs, Ret tt)) unchanged.

Definition Rename (a b : gostring) : IO unit :=
  call (λ fs, match fs !! a with
              | Some d => (<[b := d]> (delete a fs), Ret tt)
              | None => (fs, Fail ErrNotExist)
              end) unchanged.

Definition Remove (path : gostring) : IO unit :=
  call (λ fs, match fs !! path with
              | Some _ => (delete path fs, Ret tt)
              | None => (fs, Fail ErrNotExist)
              end) unchanged.

(** [os.ReadFile] through [io.LimitReader(f, limit+1)], as an open and a read. *)
Definition ReadLimited (path : gostring) (limit : Z) : IO gostring :=
  let! data := ReadFile path in
  call (λ fs, (fs, Ret (take (Z.to_nat (limit + 1)) data))) unchanged.
End Calls.

(** [return err], for an error that may be nil. *)
Definition no_error (e : option goerror) : outcome unit := match e with Some e => Fail e | None => Ret tt end.

(** ** Runs that return *)

Lemma prog_bind_inv {W A B} (m : prog W A) (k : A → prog W B) w w' b :
  io_bind m k w = (w', Ret b) → ∃ w1 a, m w = (w1, Ret a) ∧ k a w1 = (w', Ret b).
Proof. unfold io_bind. destruct (m w) as [w1 [a| |]]; [by eauto|by intros [=]|by intros [=]]. Qed.

Ltac prog_inv :=
  repeat match goal with
  | H : io_bind _ _ _ = (_, Ret _) |- _ =>
      let w1 := fresh "w" in let a := fresh "a" in let H1 := fresh H in apply prog_bind_inv in H as (w1 & a & H1 & H)
  | H : io_ret _ _ = (_, Ret _) |- _ => unfold io_ret in H; apply pair_equal_spec in H as [? H]; simplify_eq
  | H : io_lift _ _ = (_, Ret _) |- _ => unfold io_lift in H; apply pair_equal_spec in H as [? H]; subst
  | H : io_fail _ _ = (_, Ret _) |- _ => by unfold io_fail in H
  end.
