(* ===== verification/JsonFacts.v ===== *)
(** * JSON: what is written reads back

    [decode_tree] of the text of a value, compact or indented, is that value,
    for strings in UTF-8 and numbers in JSON's syntax. *)
From S2P Require Import Prelude GoStrings GoStrconv GoEncoding TunnelName GoJson.

(** ** Strings *)

Lemma utf8_width_app s t k : utf8_width s = S k → utf8_width (s ++ t) = S k.
Proof.
  destruct s as [|b0 [|b1 [|b2 [|b3 s]]]]; simpl; try done;
    repeat (case_if; try done); destruct t as [|c0 [|c1 [|c2 t]]]; simpl; repeat (case_if; try done); try congruence.
Qed.

Lemma utf8_width_take s k : utf8_width s = S k → utf8_width (take (S k) s) = S k ∧ (S k ≤ length s)%nat.
Proof.
  destruct s as [|b0 [|b1 [|b2 [|b3 s]]]]; simpl; try done; repeat (case_if; try done); intros [= <-]; simpl;
    repeat match goal with H : ?b = _ |- context [?b] => rewrite H end; split; try done; lia.
Qed.

Lemma quote_bytes_take k s : (k ≤ length s)%nat → ∃ q, quote_bytes k s = take k s ++ q.
Proof.
  revert s. induction k as [|k IH]; intros s Hk; [by exists (quote_bytes 0 s)|].
  destruct s as [|b s]; [simpl in Hk; lia|]. destruct (IH s) as [q Hq]; [simpl in Hk; lia|].
  exists q. simpl. by rewrite Hq.
Qed.

Lemma prepend_Some p r s rest : prepend p r = Some (s, rest) → ∃ s', r = Some (s', rest) ∧ s = p ++ s'.
Proof. destruct r as [[s' rest']|]; simpl; [|done]. intros [= <- <-]. eauto. Qed.

(** An escaped ASCII character reads back as itself. *)
Lemma pstring_ascii b X : is_ascii b = true → pstring 0 (escape_ascii b ++ X) = prepend [b] (pstring 0 X).
Proof. destruct b; intros H; try discriminate H; reflexivity. Qed.

Lemma non_ascii_plain b : is_ascii b = false →
  Byte.eqb b x22 = false ∧ Byte.eqb b x5c = false ∧ (bz b <? 32)%Z = false.
Proof. intros H. by_bytes (λ b, implb (negb (is_ascii b)) (negb (Byte.eqb b x22) && negb (Byte.eqb b x5c) && negb (bz b <? 32)%Z)) b.
  rewrite H. simpl. intros E. breflect. repeat split; auto. by apply Z.ltb_ge. Qed.

Lemma pstring_copy b k X : is_ascii b = false → utf8_width (b :: X) = S k →
  pstring 0 (b :: X) = prepend [b] (pstring k X).
Proof.
  intros Ha Hw. destruct (non_ascii_plain b Ha) as (E1 & E2 & E3). cbn [pstring]. by rewrite E1, E2, E3, Hw.
Qed.

Lemma pstring_quote skip s rest :
  utf8_valid skip s = true → pstring skip (quote_bytes skip s ++ x22 :: rest) = Some (s, rest).
Proof.
  revert skip. induction s as [|b r IH]; intros skip Hv.
  - destruct skip; [done|discriminate Hv].
  - destruct skip as [|k].
    2: { cbn [quote_bytes app pstring]. cbn [utf8_valid] in Hv. by rewrite (IH k Hv). }
    cbn [utf8_valid] in Hv. cbn [quote_bytes]. destruct (is_ascii b) eqn:Ha.
    + assert (Hw : utf8_width (b :: r) = 1%nat) by (cbn; by rewrite Ha). rewrite Hw in Hv.
      rewrite <- app_assoc, pstring_ascii by done. by rewrite (IH 0%nat Hv).
    + destruct (is_line_separator (b :: r)) eqn:Hl.
      * destruct (utf8_width (b :: r)) as [|k] eqn:Hw; [discriminate Hv|].
        destruct b; try discriminate Hl. destruct r as [|b1 r]; [discriminate Hl|].
        destruct b1; try discriminate Hl. destruct r as [|c r]; [discriminate Hl|].
        assert (Hc : is_cont c = true) by (destruct c; try discriminate Hl; reflexivity).
        assert (k = 2%nat) as -> by (revert Hw; cbn; rewrite Hc; cbn; congruence).
        pose proof (IH 2%nat Hv) as H2. cbn [quote_bytes app pstring] in H2.
        apply prepend_Some in H2 as (r1 & H2 & [= ->]). apply prepend_Some in H2 as (r2 & H2 & [= ->]).
        destruct c; try discriminate Hl; cbn; by rewrite H2.
      * destruct (utf8_width (b :: r)) as [|k] eqn:Hw; [discriminate Hv|].
        destruct (utf8_width_take _ _ Hw) as [Ht Hlen]. cbn [length] in Hlen.
        destruct (quote_bytes_take k r ltac:(lia)) as [q Hq]. cbn [app].
        rewrite (pstring_copy b k); [by rewrite (IH k Hv)|done|].
        rewrite Hq, <- app_assoc. exact (utf8_width_app (b :: take k r) _ k Ht).
Qed.

Lemma quote_reads s rest : ValidString s = true → pstring 0 (tail (quote s) ++ rest) = Some (s, rest).
Proof. intros H. unfold quote. cbn [tail]. rewrite <- app_assoc. by apply pstring_quote. Qed.

(** ** Values *)

(** Induction over values, with the hypothesis for every element and member. *)
Lemma json_ind' (P : json → Prop) :
  P JNull → (∀ b, P (JBool b)) → (∀ lit, P (JNum lit)) → (∀ s, P (JStr s)) → (∀ t, P (JRaw t)) →
  (∀ l, Forall P l → P (JArr l)) → (∀ l, Forall (λ kv, P (snd kv)) l → P (JObj l)) → ∀ v, P v.
Proof.
  intros Hn Hb Hnum Hs Hr Ha Ho. fix IH 1. intros [|b|lit|s|t|l|l]; [done|apply Hb|apply Hnum|apply Hs|apply Hr| |].
  - apply Ha. induction l as [|v l IHl]; constructor; [apply IH|exact IHl].
  - apply Ho. induction l as [|[k v] l IHl]; constructor; [apply IH|exact IHl].
Qed.

(** The end of a value: the end of the input, a separator, a bracket or space. *)
Definition delim (rest : list byte) : bool :=
  match rest with [] => true | b :: _ => is_ws b || has_byte [x2c; x5d; x7d] b end.

(** A literal in JSON's number syntax. *)
Definition num_ok (lit : gostring) : Prop :=
  (match lit with b :: _ => is_digit b || Byte.eqb b x2d | [] => false end) = true
  ∧ ∀ rest, delim rest = true → pnumber (lit ++ rest) = Some (lit, rest).

(** Values that read back: strings in UTF-8, number literals, no raw text. *)
Fixpoint wf_json (v : json) : Prop :=
  match v with
  | JNull | JBool _ => True
  | JNum lit => num_ok lit
  | JStr s => ValidString s = true
  | JRaw _ => False
  | JArr l => (fix wfs l := match l with [] => True | v :: l => wf_json v ∧ wfs l end) l
  | JObj l => (fix wfs l := match l with [] => True | (k, v) :: l => ValidString k = true ∧ wf_json v ∧ wfs l end) l
  end.

Lemma wf_arr l : wf_json (JArr l) ↔ Forall wf_json l.
Proof.
  induction l as [|v l IH]; [by split; [constructor|]|]. cbn in *. rewrite Forall_cons. by rewrite <- IH.
Qed.

Lemma wf_obj l : wf_json (JObj l) ↔ Forall (λ kv, ValidString (fst kv) = true ∧ wf_json (snd kv)) l.
Proof.
  induction l as [|[k v] l IH]; [by split; [constructor|]|]. cbn in *. rewrite Forall_cons. cbn.
  rewrite <- IH. tauto.
Qed.

(** Calls of the parser that a value needs, and its nesting. *)
Fixpoint size_json (v : json) : nat :=
  match v with
  | JArr l => S (sum_list_with (λ v, S (size_json v)) l)
  | JObj l => S (sum_list_with (λ kv, S (size_json (snd kv))) l)
  | _ => 1
  end.

Fixpoint height_json (v : json) : nat :=
  match v with
  | JArr l => S (foldr (λ v m, max (height_json v) m) 0 l)
  | JObj l => S (foldr (λ kv m, max (height_json (snd kv)) m) 0 l)
  | _ => 0
  end.

(** The tree holds the value. *)
#[warnings="-register-all"]
Inductive represents : json → jtree → Prop :=
| rep_null : represents JNull TNull
| rep_bool b : represents (JBool b) (TBool b)
| rep_num lit : represents (JNum lit) (TNum lit)
| rep_str s : represents (JStr s) (TStr s)
| rep_arr l ts : Forall2 represents l ts → represents (JArr l) (TArr ts)
| rep_obj l ts : Forall2 (λ kv t, fst kv = fst (fst t) ∧ represents (snd kv) (snd t)) l ts → represents (JObj l) (TObj ts).

(** ** One printer for both layouts *)

Section Layout.
Variable nl : nat → gostring.
Variable colon : gostring.
Hypothesis nl_ws : ∀ n s, skip_ws (nl n ++ s) = skip_ws s.
Hypothesis colon_shape : ∃ w, colon = x3a :: w ∧ ∀ s, skip_ws (w ++ s) = skip_ws s.

Fixpoint layout (n : nat) (v : json) : gostring :=
  match v with
  | JArr ((_ :: _) as l) =>
      "[" ++ nl (S n) ++ Join (map (layout (S n)) l) ("," ++ nl (S n)) ++ nl n ++ "]"
  | JObj ((_ :: _) as l) =>
      "{" ++ nl (S n)
      ++ Join (map (λ kv, quote (fst kv) ++ colon ++ layout (S n) (snd kv)) l) ("," ++ nl (S n))
      ++ nl n ++ "}"
  | _ => Marshal v
  end.

Definition reads (n : nat) (v : json) : Prop := ∀ fuel depth rest,
  (size_json v ≤ fuel)%nat → (Z.of_nat depth + Z.of_nat (height_json v) <= maxNestingDepth)%Z → delim rest = true →
  ∃ t, pvalue fuel depth (layout n v ++ rest) = Some (t, rest) ∧ represents v t.

(** What the first byte of a value can be. *)
Definition starts_value (s : list byte) : Prop := ∃ b r, s = b :: r ∧ is_ws b = false ∧ b ≠ x5d ∧ b ≠ x7d.

Lemma layout_starts n v : wf_json v → ∃ b r, layout n v = b :: r ∧ is_ws b = false ∧ b ≠ x5d ∧ b ≠ x7d.
Proof.
  destruct v as [|[]|lit|s|t|[|]|[|]]; cbn; intros Hw; try (do 2 eexists; split; [reflexivity|]; by repeat split); [|done].
  destruct Hw as [Hd _]. destruct lit as [|b lit]; [discriminate Hd|]. exists b, lit. split; [done|].
  revert Hd. by_bytes (λ b, implb (is_digit b || Byte.eqb b x2d) (negb (is_ws b) && negb (Byte.eqb b x5d) && negb (Byte.eqb b x7d))) b.
  intros H1 H2. rewrite H2 in H1. cbn in H1. breflect. split; [done|].
  split; intros ->; discriminate.
Qed.

Lemma skip_ws_value n v s : wf_json v → skip_ws (layout n v ++ s) = layout n v ++ s.
Proof. intros Hw. destruct (layout_starts n v Hw) as (b & r & -> & Hb & _). cbn. by rewrite Hb. Qed.

Lemma skip_ws_cons c s : is_ws c = false → skip_ws (c :: s) = c :: s.
Proof. cbn. by intros ->. Qed.

Lemma skip_ws_delim_close n c s : is_ws c = false → skip_ws (nl n ++ c :: s) = c :: s.
Proof using nl_ws. intros Hc. rewrite nl_ws. cbn. by rewrite Hc. Qed.

(** White space and a closing bracket end a value; so does a comma. *)
Lemma delim_nl n c s : has_byte [x2c; x5d; x7d] c = true → delim (nl n ++ c :: s) = true.
Proof using nl_ws.
  intros Hc. pose proof (nl_ws n (x2c :: s)) as H. unfold delim. destruct (nl n) as [|b l]; cbn [app]; [by rewrite Hc, orb_true_r|].
  cbn in H. destruct (is_ws b); [done|]. exfalso. injection H as -> H.
  assert (length (l ++ x2c :: s) = length s) by (by rewrite H). rewrite length_app in *. cbn in *. lia.
Qed.

Lemma pvalue_skip fuel depth s s' : skip_ws s = skip_ws s' → pvalue fuel depth s = pvalue fuel depth s'.
Proof. intros H. destruct fuel; [done|]. cbn [pvalue]. by rewrite H. Qed.

Lemma pelems_skip fuel depth s s' : skip_ws s = skip_ws s' → pelems fuel depth s = pelems fuel depth s'.
Proof. intros H. destruct fuel; [done|]. cbn [pelems]. by rewrite (pvalue_skip _ _ _ _ H). Qed.

Lemma pmembers_skip fuel depth s s' : skip_ws s = skip_ws s' → pmembers fuel depth s = pmembers fuel depth s'.
Proof. intros H. destruct fuel; [done|]. cbn [pmembers]. by rewrite H. Qed.

Definition max_height {A} (f : A → json) (l : list A) : nat := foldr (λ v m, max (height_json (f v)) m) 0 l.

Lemma elems_read n m l fuel depth rest :
  l ≠ [] → Forall (reads n) l → (sum_list_with (λ v, S (size_json v)) l ≤ fuel)%nat →
  (Z.of_nat depth + Z.of_nat (max_height id l) <= maxNestingDepth)%Z →
  ∃ ts, pelems fuel depth (Join (map (layout n) l) ("," ++ nl n) ++ nl m ++ "]" ++ rest) = Some (ts, rest)
    ∧ Forall2 represents l ts.
Proof using nl_ws.
  intros Hne Hl. revert fuel. induction Hl as [|v l Hv Hl IH]; intros fuel Hf Hd; [done|]. clear Hne.
  cbn [sum_list_with] in Hf. destruct fuel as [|fuel]; [lia|]. cbn [max_height foldr] in Hd.
  unfold max_height in Hd. cbn [foldr] in Hd. unfold id in Hd. destruct l as [|v2 l].
  - cbn [map Join]. destruct (Hv fuel depth (nl m ++ "]" ++ rest)) as (t & Ht & Hr); [lia|lia|by apply delim_nl|].
    exists [t]. cbn [pelems]. rewrite Ht. cbn [mbind option_bind]. cbn [app]. rewrite skip_ws_delim_close by done.
    split; [done|]. by repeat constructor.
  - cbn [map] in *. change (Join (layout n v :: layout n v2 :: map (layout n) l) ("," ++ nl n))
      with (layout n v ++ ("," ++ nl n) ++ Join (map (layout n) (v2 :: l)) ("," ++ nl n)).
    rewrite <- !app_assoc.
    destruct (Hv fuel depth ("," ++ nl n ++ Join (map (layout n) (v2 :: l)) ("," ++ nl n) ++ nl m ++ "]" ++ rest))
      as (t & Ht & Hr); [lia|lia|done|].
    destruct (IH ltac:(done) fuel ltac:(lia) ltac:(unfold max_height, id in *; lia)) as (ts & Hts & Hrs).
    exists (t :: ts). cbn [pelems]. rewrite Ht. cbn [mbind option_bind app]. rewrite skip_ws_cons by done.
    rewrite (pelems_skip _ _ _ _ (nl_ws n _)). cbn [app map] in Hts |- *. rewrite Hts. split; [done|]. by constructor.
Qed.

Definition member (n : nat) (kv : gostring * json) : gostring := quote (fst kv) ++ colon ++ layout n (snd kv).

(** One member up to the delimiter after its value. *)
Lemma member_reads n k v fuel depth rest :
  ValidString k = true → wf_json v → reads n v → (size_json v ≤ fuel)%nat →
  (Z.of_nat depth + Z.of_nat (height_json v) <= maxNestingDepth)%Z → delim rest = true →
  ∃ raw t, represents v t ∧
  pmembers (S fuel) depth (member n (k, v) ++ rest)
  = match skip_ws rest with
    | x7d :: s => Some ([(k, raw, t)], s)
    | x2c :: s => '(l, s) ← pmembers fuel depth s; Some ((k, raw, t) :: l, s)
    | _ => None
    end.
Proof using colon_shape.
  intros Hk Hw Hv Hf Hd Hr. destruct (Hv fuel depth rest Hf Hd Hr) as (t & Ht & Hrep).
  destruct colon_shape as (w & Hc & Hws).
  exists (take (length (layout n v ++ rest) - length rest) (layout n v ++ rest)), t. split; [done|].
  unfold member. cbn [fst snd]. rewrite Hc, <- !app_assoc. cbn [app]. unfold quote. cbn [app pmembers].
  rewrite skip_ws_cons by done. rewrite <- app_assoc. cbn [app].
  rewrite pstring_quote by done. cbn [mbind option_bind]. rewrite skip_ws_cons by done.
  rewrite Hws, skip_ws_value by done. rewrite Ht. done.
Qed.

Lemma members_read n m l fuel depth rest :
  l ≠ [] → Forall (λ kv, (ValidString (fst kv) = true ∧ wf_json (snd kv)) ∧ reads n (snd kv)) l →
  (sum_list_with (λ kv, S (size_json (snd kv))) l ≤ fuel)%nat →
  (Z.of_nat depth + Z.of_nat (max_height snd l) <= maxNestingDepth)%Z →
  ∃ ts, pmembers fuel depth (Join (map (member n) l) ("," ++ nl n) ++ nl m ++ "}" ++ rest) = Some (ts, rest)
    ∧ Forall2 (λ kv t, fst kv = fst (fst t) ∧ represents (snd kv) (snd t)) l ts.
Proof using nl_ws colon_shape.
  intros Hne Hl. revert fuel. induction Hl as [|[k v] l Hkv Hl IH]; intros fuel Hf Hd; [done|]. clear Hne.
  destruct Hkv as [[Hk Hw] Hv]. cbn [fst snd] in Hk, Hw, Hv.
  cbn [sum_list_with snd] in Hf. destruct fuel as [|fuel]; [lia|].
  unfold max_height in Hd. cbn [foldr snd] in Hd. destruct l as [|kv2 l].
  - cbn [map Join].
    destruct (member_reads n k v fuel depth (nl m ++ "}" ++ rest)) as (raw & t & Hr & Ht); try done; [lia|lia|by apply delim_nl|].
    exists [(k, raw, t)]. rewrite Ht. cbn [app]. rewrite skip_ws_delim_close by done.
    split; [done|]. by repeat constructor.
  - cbn [map] in *. change (Join (member n (k, v) :: member n kv2 :: map (member n) l) ("," ++ nl n))
      with (member n (k, v) ++ ("," ++ nl n) ++ Join (map (member n) (kv2 :: l)) ("," ++ nl n)).
    rewrite <- !app_assoc.
    destruct (member_reads n k v fuel depth ("," ++ nl n ++ Join (map (member n) (kv2 :: l)) ("," ++ nl n) ++ nl m ++ "}" ++ rest))
      as (raw & t & Hr & Ht); try done; [lia|lia|].
    destruct (IH ltac:(done) fuel ltac:(lia) ltac:(unfold max_height in *; lia)) as (ts & Hts & Hrs).
    exists ((k, raw, t) :: ts). rewrite Ht. cbn [app]. rewrite skip_ws_cons by done.
    rewrite (pmembers_skip _ _ _ _ (nl_ws n _)). cbn [app map] in Hts |- *. rewrite Hts. split; [done|]. by constructor.
Qed.

Lemma too_deep_false depth h : (Z.of_nat depth + Z.of_nat (S h) <= maxNestingDepth)%Z → too_deep depth = false.
Proof. unfold too_deep. intros. apply Z.leb_gt. lia. Qed.

Lemma Join_cons_app x l sep Y : ∃ X, Join (x :: l) sep ++ Y = x ++ X.
Proof. destruct l; cbn [Join]; [by exists Y|]. rewrite <- !app_assoc. by eexists. Qed.

(** Every printed value is read back. *)
Lemma layout_reads v : wf_json v → ∀ n, reads n v.
Proof using nl_ws colon_shape.
  induction v as [|b|lit|s|t|l IH|l IH] using json_ind'; intros Hw n fuel depth rest Hf Hd Hr;
    (destruct fuel as [|fuel]; [cbn in Hf; lia|]).
  - exists TNull. split; [|constructor]. cbn. done.
  - exists (TBool b). split; [|constructor]. by destruct b.
  - exists (TNum lit). split; [|constructor]. destruct Hw as [Hd1 Hp]. specialize (Hp rest Hr).
    destruct lit as [|b lit]; [discriminate Hd1|]. cbn [layout Marshal app] in *.
    destruct b; try discriminate Hd1; cbn [pvalue]; rewrite skip_ws_cons by done; cbn -[pnumber]; by rewrite Hp.
  - exists (TStr s). split; [|constructor]. cbn [layout Marshal]. unfold quote. cbn [app pvalue].
    rewrite skip_ws_cons by done. rewrite <- app_assoc. cbn [app]. by rewrite pstring_quote.
  - done.
  - apply wf_arr in Hw. destruct l as [|v l]; [exists (TArr []); split; [|by repeat constructor]|].
    { cbn. rewrite (too_deep_false depth 0) by done. done. }
    cbn [height_json size_json] in Hf, Hd.
    destruct (elems_read (S n) n (v :: l) fuel (S depth) rest) as (ts & Hts & Hrep); [done| |lia|unfold max_height, id; lia|].
    { rewrite Forall_forall in *. intros v' Hv'. by apply IH, Hw. }
    exists (TArr ts). split; [|by constructor]. cbn [layout]. rewrite <- !app_assoc. cbn [app pvalue].
    rewrite skip_ws_cons by done. rewrite (too_deep_false depth _ Hd), nl_ws.
    destruct (layout_starts (S n) v) as (b & r & E & Hb & H5 & _); [by inv Hw|].
    cbn [map] in *. destruct (Join_cons_app (layout (S n) v) (map (layout (S n)) l) ("," ++ nl (S n)) (nl n ++ "]" ++ rest)) as [X HX].
    cbn [app] in HX, Hts. rewrite HX, E in Hts |- *. cbn [app] in Hts |- *. rewrite skip_ws_cons by done.
    destruct b; try done; by rewrite Hts.
  - apply wf_obj in Hw. destruct l as [|kv l]; [exists (TObj []); split; [|by repeat constructor]|].
    { cbn. rewrite (too_deep_false depth 0) by done. done. }
    cbn [height_json size_json] in Hf, Hd.
    destruct (members_read (S n) n (kv :: l) fuel (S depth) rest) as (ts & Hts & Hrep); [done| |lia|unfold max_height; lia|].
    { rewrite Forall_forall in *. intros v' Hv'. split; [by apply Hw|]. apply IH; [done|]. by apply Hw. }
    exists (TObj ts). split; [|by constructor]. cbn [layout]. rewrite <- !app_assoc. cbn [app pvalue].
    rewrite skip_ws_cons by done. rewrite (too_deep_false depth _ Hd), nl_ws.
    change (map (λ kv, quote (fst kv) ++ colon ++ layout (S n) (snd kv)) (kv :: l)) with (map (member (S n)) (kv :: l)).
    cbn [map] in *. destruct (Join_cons_app (member (S n) kv) (map (member (S n)) l) ("," ++ nl (S n)) (nl n ++ "}" ++ rest)) as [X HX].
    cbn [app] in HX, Hts. rewrite HX in Hts |- *. unfold member, quote in Hts |- *. cbn [app] in Hts |- *.
    rewrite skip_ws_cons by done. by rewrite Hts.
Qed.

(** The parser's fuel covers every printed value. *)
Lemma Join_length (l : list gostring) sep :
  (1 ≤ length sep)%nat → (sum_list_with (λ x, S (length x)) l ≤ S (length (Join l sep)))%nat.
Proof.
  intros Hs. induction l as [|x l IH]; [cbn; lia|]. destruct l as [|y l]; [cbn; lia|].
  change (Join (x :: y :: l) sep) with (x ++ sep ++ Join (y :: l) sep). rewrite !length_app.
  cbn [sum_list_with] in *. lia.
Qed.

Lemma sum_list_map {A B} (f : A → B) (g : B → nat) l : sum_list_with g (map f l) = sum_list_with (λ x, g (f x)) l.
Proof. induction l; cbn; congruence. Qed.

Lemma sum_list_le {A} (f g : A → nat) l : Forall (λ x, f x ≤ g x)%nat l → (sum_list_with f l ≤ sum_list_with g l)%nat.
Proof. induction 1; cbn; lia. Qed.

Lemma sum_list_mul {A} (f : A → nat) l k : sum_list_with (λ x, k * f x)%nat l = (k * sum_list_with f l)%nat.
Proof. induction l; cbn; lia. Qed.

Lemma size_layout v : wf_json v → ∀ n, (size_json v ≤ 2 * length (layout n v))%nat.
Proof.
  induction v as [|b|lit|s|t|l IH|l IH] using json_ind'; intros Hw n.
  - cbn; lia.
  - destruct b; cbn; lia.
  - destruct Hw as [Hd _]. destruct lit; [discriminate Hd|]. cbn. lia.
  - cbn. lia.
  - done.
  - apply wf_arr in Hw. destruct l as [|v l]; [cbn; lia|]. cbn [size_json layout]. rewrite !length_app.
    pose proof (Join_length (map (layout (S n)) (v :: l)) ("," ++ nl (S n)) ltac:(cbn; lia)) as HJ.
    rewrite sum_list_map in HJ.
    pose proof (sum_list_le (λ v, S (size_json v)) (λ v, 2 * S (length (layout (S n) v)))%nat (v :: l)) as HS.
    rewrite sum_list_mul in HS. cut (Forall (λ x : json, (S (size_json x) ≤ 2 * S (length (layout (S n) x)))%nat) (v :: l)).
    { intros H. specialize (HS H). cbn [length] in *. lia. }
    rewrite Forall_forall in *. intros x Hx. pose proof (IH x Hx (Hw x Hx) (S n)). lia.
  - apply wf_obj in Hw. destruct l as [|v l]; [cbn; lia|]. cbn [size_json layout]. rewrite !length_app.
    change (map (λ kv, quote (fst kv) ++ colon ++ layout (S n) (snd kv)) (v :: l)) with (map (member (S n)) (v :: l)).
    pose proof (Join_length (map (member (S n)) (v :: l)) ("," ++ nl (S n)) ltac:(cbn; lia)) as HJ.
    rewrite sum_list_map in HJ.
    pose proof (sum_list_le (λ v, S (size_json (snd v))) (λ v, 2 * S (length (member (S n) v)))%nat (v :: l)) as HS.
    rewrite sum_list_mul in HS.
    cut (Forall (λ x : gostring * json, (S (size_json (snd x)) ≤ 2 * S (length (member (S n) x)))%nat) (v :: l)).
    { intros H. specialize (HS H). cbn [length] in *. lia. }
    rewrite Forall_forall in *. intros x Hx. pose proof (IH x Hx (proj2 (Hw x Hx)) (S n)).
    unfold member. rewrite !length_app. lia.
Qed.

Lemma decode_stream_layout v n rest :
  wf_json v → (Z.of_nat (height_json v) <= maxNestingDepth)%Z → delim rest = true →
  ∃ t, decode_stream (layout n v ++ rest) = Some (t, rest) ∧ represents v t.
Proof using nl_ws colon_shape.
  intros Hw Hh Hd. apply layout_reads; try done.
  rewrite length_app. pose proof (size_layout v Hw n). lia.
Qed.

Lemma decode_tree_layout v n :
  wf_json v → (Z.of_nat (height_json v) <= maxNestingDepth)%Z →
  ∃ t, decode_tree (layout n v) = Some t ∧ represents v t.
Proof using nl_ws colon_shape.
  intros Hw Hh. destruct (decode_stream_layout v n [] Hw Hh eq_refl) as (t & Ht & Hr).
  rewrite app_nil_r in Ht. exists t. unfold decode_tree. by rewrite Ht.
Qed.
End Layout.

(** The compact and the indented layout. *)
Lemma map_ext_Forall' {A B} (f g : A → B) l : Forall (λ x, f x = g x) l → map f l = map g l.
Proof. induction 1; cbn; congruence. Qed.

Lemma Marshal_layout v n : Marshal v = layout (λ _, []) ":" n v.
Proof.
  revert n. induction v as [|b|lit|s|t|l IH|l IH] using json_ind'; intros n; try done.
  - destruct l as [|v l]; [done|]. cbn [Marshal layout app]. rewrite (map_ext_Forall' Marshal (layout (λ _, []) ":" (S n))); [done|].
    eapply Forall_impl; [exact IH|]. intros x Hx. apply Hx.
  - destruct l as [|v l]; [done|]. cbn [Marshal layout app].
    rewrite (map_ext_Forall' _ (λ kv, quote (fst kv) ++ ":" ++ layout (λ _, []) ":" (S n) (snd kv))); [done|].
    eapply Forall_impl; [exact IH|]. intros x Hx. cbn. by rewrite (Hx (S n)).
Qed.

Lemma MarshalIndent_layout v n : wf_json v → MarshalIndent n v = layout indent ": " n v.
Proof.
  revert n. induction v as [|b|lit|s|t|l IH|l IH] using json_ind'; intros n Hw; try done.
  - apply wf_arr in Hw. destruct l as [|v l]; [done|]. cbn [MarshalIndent layout].
    rewrite (map_ext_Forall' (MarshalIndent (S n)) (layout indent ": " (S n))); [done|].
    rewrite Forall_forall in *. intros x Hx. by apply IH, Hw.
  - apply wf_obj in Hw. destruct l as [|v l]; [done|]. cbn [MarshalIndent layout].
    rewrite (map_ext_Forall' _ (λ kv, quote (fst kv) ++ ": " ++ layout indent ": " (S n) (snd kv))); [done|].
    rewrite Forall_forall in *. intros x Hx. rewrite (IH x Hx (S n)); [done|]. by apply Hw.
Qed.

Lemma indent_ws n s : skip_ws (indent n ++ s) = skip_ws s.
Proof. unfold indent. cbn. by induction n. Qed.

Lemma decode_tree_Marshal v :
  wf_json v → (Z.of_nat (height_json v) <= maxNestingDepth)%Z → ∃ t, decode_tree (Marshal v) = Some t ∧ represents v t.
Proof.
  intros Hw Hh. rewrite (Marshal_layout v 0). apply decode_tree_layout; try done. by exists [].
Qed.

Lemma decode_tree_MarshalIndent v :
  wf_json v → (Z.of_nat (height_json v) <= maxNestingDepth)%Z → ∃ t, decode_tree (MarshalIndent 0 v) = Some t ∧ represents v t.
Proof.
  intros Hw Hh. rewrite (MarshalIndent_layout v 0 Hw). apply decode_tree_layout; try done; [exact indent_ws|].
  exists " ". split; [done|]. intros. done.
Qed.
