(* ===== verification/SmartRules.v ===== *)
(** * Routing rules of the smart mode ([client/smart/settings.go], first half)

    Modes, rule kinds and targets (named strings in the source), custom rules,
    and the normal forms of their values: domains, networks, applications. *)
From S2P Require Import Prelude GoStrings GoStrconv GoNet GoPath GoUrl AwgValidation.

(** ** Modes *)

Definition Mode : Set := gostring.
Definition ModeAll : Mode := "all".
Definition ModeSelected : Mode := "selected".
Definition ModeBypass : Mode := "bypass".
Definition ModeNative : Mode := "native".
Definition ModeSocial : Mode := "social".

Definition modeLabels : list gostring := ["Весь интернет через VPN"; "Только выбранное через VPN"].
Definition modeValues : list Mode := [ModeAll; ModeSelected].

Definition ModeLabels : list gostring := modeLabels.

Definition ModeFromIndex (index : Z) : Mode :=
  if (index <? 0)%Z || (index >=? Z.of_nat (length modeValues))%Z then ModeAll
  else default ModeAll (modeValues !! Z.to_nat index).

(** ** Rules *)

Definition RuleKind : Set := gostring.
Definition RuleApplication : RuleKind := "application".
Definition RuleDomain : RuleKind := "domain".
Definition RuleCIDR : RuleKind := "cidr".

Definition RouteTarget : Set := gostring.
Definition TargetVPN : RouteTarget := "vpn".
Definition TargetDirect : RouteTarget := "direct".

Record CustomRule := mkCustomRule {
  ID : gostring;
  RuleName : gostring;
  Kind : RuleKind;
  Value : gostring;
  Target : RouteTarget;
  Enabled : bool;
}.

Definition eta_CustomRule (r : CustomRule) : CustomRule :=
  mkCustomRule (ID r) (RuleName r) (Kind r) (Value r) (Target r) (Enabled r).
#[export] Instance set_ID : Setter ID := ltac:(derive_setter eta_CustomRule ID).
#[export] Instance set_RuleName : Setter RuleName := ltac:(derive_setter eta_CustomRule RuleName).
#[export] Instance set_Kind : Setter Kind := ltac:(derive_setter eta_CustomRule Kind).
#[export] Instance set_Value : Setter Value := ltac:(derive_setter eta_CustomRule Value).
#[export] Instance set_Target : Setter Target := ltac:(derive_setter eta_CustomRule Target).
#[export] Instance set_Enabled : Setter Enabled := ltac:(derive_setter eta_CustomRule Enabled).

(** [idna.Lookup.ToASCII] of golang.org/x/net. *)
Class Idna := ToASCII : gostring → outcome gostring.

Definition err_domain : goerror := err "укажи домен вроде example.com".

(** [`\/:`]: what makes an application value a path. *)
Definition path_chars : gostring := "\/:".
Definition is_path (value : gostring) : bool := ContainsAny value path_chars.

(** [rand.Read] into six bytes, or an error. *)
Definition NewRuleID (r : outcome gostring) : gostring :=
  match r with Ret value => "rule-" ++ GoEncoding.hex_EncodeToString value | _ => "rule-local" end.

Definition normalizeCIDR (value : gostring) : outcome gostring :=
  let value := TrimSpace value in
  match ParseIP value with
  | Some ip =>
      match To4 ip with
      | Some _ => Ret (IP_String ip ++ "/32")
      | None => Ret (IP_String ip ++ "/128")
      end
  | None =>
      '(ip, network) ← or_fail (ParseCIDR value)
                         (err "укажи IP или сеть, например 1.1.1.1 или 10.0.0.0/8");
      Ret (IPNet_String (mkIPNetwork (default [] (IP_Mask ip (net_Mask network))) (net_Mask network)))
  end.

Section Rules.
Context {RT : GoRuntime} {IDNA : Idna}.

Definition NormalizeMode (mode : gostring) : Mode :=
  let m := ToLower (TrimSpace mode) in
  if (m =?s ModeSelected) || (m =?s ModeSocial) then ModeSelected
  else if m =?s ModeBypass then ModeAll
  else if m =?s ModeNative then ModeSelected
  else ModeAll.

Definition IndexOfMode (mode : Mode) : nat :=
  let mode := NormalizeMode mode in
  match list_find (λ v, v = mode) modeValues with Some (i, _) => i | None => 0 end.

Definition normalizeDomain (value : gostring) : outcome gostring :=
  let value := TrimSpace value in
  let value := TrimPrefix value "*." in
  _ ← fail_if (value =?s []) err_domain;
  let parseValue := if Contains value "://" then value else "//" ++ value in
  parsed ← or_fail (url_Parse parseValue) err_domain;
  _ ← fail_if ((Hostname parsed =?s []) || User parsed) err_domain;
  let host := TrimPrefix (TrimSuffix (ToLower (Hostname parsed)) ".") "*." in
  host ← map_error (λ _, err_domain) (ToASCII host);
  _ ← fail_if ((host =?s []) || (253 <? length host)%nat || negb (Contains host ".")) err_domain;
  _ ← fail_if (match ParseIP host with Some _ => true | None => false end)
        (err "для IP-адреса выбери тип «IP / CIDR»");
  Ret host.

Definition normalizeApplication (value : gostring) : outcome gostring :=
  let value := Trim (TrimSpace value) [x22] in
  _ ← fail_if (value =?s []) (err "выбери EXE-файл или укажи имя процесса");
  _ ← fail_if (ContainsAny value [x0d; x0a]) (err "путь к приложению должен быть в одну строку");
  if is_path value then
    let value := Clean value in
    _ ← fail_if (negb (EqualFold (Ext value) ".exe")) (err "выбери исполняемый файл с расширением .exe");
    Ret value
  else
    let value := Base value in
    Ret (if negb (HasSuffix (ToLower value) ".exe") then value ++ ".exe" else value).

Definition normalizeValue (kind : RuleKind) (value : gostring) : outcome gostring :=
  if kind =?s RuleApplication then normalizeApplication value
  else if kind =?s RuleDomain then normalizeDomain value
  else if kind =?s RuleCIDR then normalizeCIDR value
  else Fail (err "неизвестный тип правила").

Definition normalized (rule : CustomRule) (index : nat) : outcome CustomRule :=
  let rule := rule <| ID := TrimSpace (ID rule) |> in
  let rule := if ID rule =?s [] then rule <| ID := "rule-" ++ Itoa (Z.of_nat index + 1) |> else rule in
  let rule := rule <| RuleName := TrimSpace (RuleName rule) |> in
  value ← normalizeValue (Kind rule) (Value rule);
  let rule := rule <| Value := value |> in
  _ ← fail_if (negb (Target rule =?s TargetVPN) && negb (Target rule =?s TargetDirect))
        (err "неизвестное направление правила");
  Ret (if RuleName rule =?s [] then rule <| RuleName := Value rule |> else rule).
End Rules.
