(* ===== verification/SmartCatalog.v ===== *)
(** * Service catalogs ([client/smart/catalog.go, presets.go, regional.go])

    The services the client knows: the built-in catalog, the regional groups,
    and the catalog of the running process, which a signed update or its cached
    copy may replace.  An update is a JSON envelope with a base64 payload and
    its Ed25519 signature. *)
From S2P Require Import Prelude GoStrings GoStrconv GoEncoding GoNet GoPath GoJson GoTime GoSha256 GoOs AwgValidation TunnelName SmartRules.

Local Open Scope Z_scope.

Definition AIServiceID : gostring := "ai".
Definition VKServiceID : gostring := "vk".
Definition RussianServiceID : gostring := "russian-services".
Definition RegionalCatalogRevision : gostring := "2026-09-08".
Definition builtinCatalogRevision : Z := 1.

Record Service := mkService {
  ServiceID : gostring;
  ServiceName : gostring;
  Description : gostring;
  ProcessNames : list gostring;
  Domains : list gostring;
  DomainSuffixes : list gostring;
}.

Definition eta_Service (s : Service) : Service :=
  mkService (ServiceID s) (ServiceName s) (Description s) (ProcessNames s) (Domains s) (DomainSuffixes s).
#[export] Instance set_ServiceID : Setter ServiceID := ltac:(derive_setter eta_Service ServiceID).
#[export] Instance set_ServiceName : Setter ServiceName := ltac:(derive_setter eta_Service ServiceName).
#[export] Instance set_Description : Setter Description := ltac:(derive_setter eta_Service Description).
#[export] Instance set_ProcessNames : Setter ProcessNames := ltac:(derive_setter eta_Service ProcessNames).
#[export] Instance set_Domains : Setter Domains := ltac:(derive_setter eta_Service Domains).
#[export] Instance set_DomainSuffixes : Setter DomainSuffixes := ltac:(derive_setter eta_Service DomainSuffixes).
#[export] Instance Service_eq_dec : EqDecision Service.
Proof. solve_decision. Defined.

Definition builtinServiceCatalog : list Service := [
  mkService "discord" "Discord" "Приложение, звонки и Web"
    ["Discord.exe"; "DiscordCanary.exe"; "DiscordPTB.exe"]
    ["discord.com"; "discord.gg"; "dis.gd"]
    [".discord.com"; ".discord.gg"; ".discordapp.com"; ".discordapp.net"; ".discordcdn.com";
     ".discord.media"; ".discordstatus.com"; ".dis.gd"];
  mkService "youtube" "YouTube" "Видео, обложки и служебные API"
    []
    ["youtube.com"; "youtu.be"; "youtube-nocookie.com"]
    [".youtube.com"; ".youtu.be"; ".youtube-nocookie.com"; ".googlevideo.com"; ".ytimg.com";
     ".youtubei.googleapis.com"; ".youtube.googleapis.com"; ".ggpht.com"];
  mkService "telegram" "Telegram" "Desktop, Web и звонки"
    ["Telegram.exe"]
    ["t.me"; "telegram.org"; "telegram.me"; "telegram.dog"]
    [".t.me"; ".telegram.org"; ".telegram.me"; ".telegram.dog"; ".tdesktop.com"];
  mkService "instagram" "Instagram" "Сайт, медиа и CDN"
    []
    ["instagram.com"]
    [".instagram.com"; ".cdninstagram.com"; ".fbcdn.net"];
  mkService AIServiceID "Нейросети" "ChatGPT, Claude, Gemini, Grok и другие"
    ["ChatGPT.exe"; "Claude.exe"; "Perplexity.exe"; "Copilot.exe"; "Cursor.exe"; "Windsurf.exe"]
    ["chatgpt.com"; "openai.com"; "claude.ai"; "anthropic.com"; "gemini.google.com";
     "aistudio.google.com"; "ai.google.dev"; "generativelanguage.googleapis.com";
     "notebooklm.google.com"; "grok.com"; "x.ai"; "perplexity.ai"; "pplx.ai"; "deepseek.com";
     "deepseek.ai"; "copilot.microsoft.com"; "copilot.com"; "mistral.ai"; "poe.com"; "character.ai";
     "meta.ai"; "huggingface.co"; "midjourney.com"; "suno.com"; "runwayml.com"; "leonardo.ai";
     "ideogram.ai"; "cursor.com"; "windsurf.com"; "codeium.com"; "phind.com"; "kimi.com"; "qwen.ai";
     "manus.im"; "genspark.ai"; "stability.ai"; "dreamstudio.ai"; "replicate.com"; "fal.ai";
     "together.ai"; "groq.com"; "cohere.com"; "openrouter.ai"]
    [".chatgpt.com"; ".openai.com"; ".oaistatic.com"; ".oaiusercontent.com"; ".oaistatsig.com";
     ".openaimerge.com"; ".workos.com"; ".workoscdn.com"; ".claude.ai"; ".anthropic.com";
     ".claudeusercontent.com"; ".gemini.google.com"; ".aistudio.google.com"; ".ai.google.dev";
     ".generativelanguage.googleapis.com"; ".notebooklm.google.com"; ".bard.google.com";
     ".grok.com"; ".x.ai"; ".perplexity.ai"; ".pplx.ai"; ".deepseek.com"; ".deepseek.ai";
     ".copilot.microsoft.com"; ".copilot.com"; ".githubcopilot.com";
     ".individual.githubcopilot.com"; ".business.githubcopilot.com";
     ".enterprise.githubcopilot.com"; ".copilot-proxy.githubusercontent.com";
     ".origin-tracker.githubusercontent.com"; ".copilot-telemetry.githubusercontent.com";
     ".cloud.microsoft"; ".mistral.ai"; ".poe.com"; ".character.ai"; ".characterai.io"; ".meta.ai";
     ".huggingface.co"; ".hf.co"; ".hf.space"; ".midjourney.com"; ".midjourneycdn.com"; ".suno.com";
     ".suno.ai"; ".runwayml.com"; ".leonardo.ai"; ".ideogram.ai"; ".cursor.com"; ".cursor.sh";
     ".windsurf.com"; ".codeium.com"; ".phind.com"; ".kimi.com"; ".moonshot.ai"; ".moonshot.cn";
     ".qwen.ai"; ".dashscope.aliyuncs.com"; ".manus.im"; ".genspark.ai"; ".stability.ai";
     ".dreamstudio.ai"; ".replicate.com"; ".fal.ai"; ".together.ai"; ".groq.com"; ".cohere.com";
     ".openrouter.ai"]].

Definition regionalServices : list Service := [
  mkService VKServiceID "VK" "Сайт, фото, музыка, видео и звонки"
    ["vk-calls.exe"; "vk-messenger.exe"; "vk-messenger-x64.exe"; "VKMessenger.exe"]
    ["api.ok.ru"; "api.mycdn.me"; "st.mycdn.me"; "vkcalls.production.vklanding.ru";
     "vkcalls-native-ac.vk-apps.com"; "upload.object2.vk-apps.com"]
    [".vk.ru"; ".vk.com"; ".vk.me"; ".vkvideo.ru"; ".vkvideo.com"; ".vk.cc"; ".vkuserphoto.ru";
     ".vkuserdocs.ru"; ".userapi.com"; ".vkuseraudio.net"; ".vkuseraudio.ru"; ".vkuseraudio.com";
     ".vkuservideo.net"; ".vkuservideo.ru"; ".vkuservideo.com"; ".vkuserlive.net"; ".vk-cdn.net";
     ".vk-portal.net"; ".vkclips.app"; ".vkcombo.ru"; ".vkpay.com"; ".calls.okcdn.ru";
     ".calls-sdk.cdn-vk.ru"];
  mkService RussianServiceID "Белые списки" "Популярные российские сервисы"
    []
    []
    [".ya.ru"; ".yandex.ru"; ".yandex.com"; ".yandex.net"; ".yastatic.net"; ".kinopoisk.ru";
     ".mail.ru"; ".imgsmail.ru"; ".ok.ru"; ".okcdn.ru"; ".dzen.ru"; ".dzeninfra.ru"; ".max.ru";
     ".ozon.ru"; ".ozon.com"; ".ozone.ru"; ".ozonusercontent.com"; ".wildberries.ru"; ".wb.ru";
     ".wbbasket.ru"; ".wbstatic.net"; ".wbcontent.net"; ".avito.ru"; ".avito.st"; ".gosuslugi.ru";
     ".mos.ru"; ".nalog.ru"; ".nalog.gov.ru"; ".sberbank.ru"; ".sber.ru"; ".tbank.ru";
     ".tinkoff.ru"; ".tinkoffcdn.ru"; ".cdn-tinkoff.ru"; ".t-static.ru"; ".alfabank.ru"; ".vtb.ru";
     ".gazprombank.ru"; ".nspk.ru"; ".rshb.ru"; ".2gis.ru"; ".2gis.com"; ".2gisapis.ru"; ".rzd.ru";
     ".tutu.ru"; ".aviasales.ru"; ".hh.ru"; ".superjob.ru"; ".rutube.ru"; ".rutubelist.ru";
     ".ivi.ru"; ".ivi.tv"; ".okko.tv"]].

Definition IsRegionalService (id : gostring) : bool := (id =?s VKServiceID) || (id =?s RussianServiceID).

(** ** The catalog of the running process *)

Record PresetStatus := mkPresetStatus {
  Revision : Z;
  Source : gostring;
  Digest : gostring;
  PublishedAt : Z;
  LastChecked : Z;
  LastError : option goerror;  (* the text of this error; empty for [None] *)
}.

Record catalog_state := mkCatalogState { services : list Service; status : PresetStatus }.

Definition serviceCatalogState : catalog_state :=
  mkCatalogState builtinServiceCatalog (mkPresetStatus builtinCatalogRevision "built-in" [] 0 0 None).

Definition BuiltinServiceCatalog : list Service := builtinServiceCatalog.
Definition RegionalServices : list Service := regionalServices.
Definition ServiceCatalog (st : catalog_state) : list Service := services st.
Definition ServiceCatalogStatus (st : catalog_state) : PresetStatus := status st.

Definition applyServiceCatalog (svcs : list Service) (s : PresetStatus) (st : catalog_state) : catalog_state :=
  mkCatalogState svcs s.

Definition recordServiceCatalogCheck (checked : Z) (e : option goerror) (st : catalog_state) : catalog_state :=
  let s := status st in
  mkCatalogState (services st)
    (mkPresetStatus (Revision s) (Source s) (Digest s) (PublishedAt s) checked e).

Definition DefaultServiceIDs (st : catalog_state) : list gostring := map ServiceID (ServiceCatalog st).

Definition selectedServices (ids : list gostring) (st : catalog_state) : list Service :=
  filter (λ s, ServiceID s ∈ ids) (ServiceCatalog st).

(** ** Signed payloads *)

Definition presetEnvelopeSchema : Z := 1.
Definition presetPayloadSchema : Z := 1.
Definition presetMaxEnvelope : Z := 512 * 1024.
Definition presetMaxPayload : Z := 384 * 1024.
Definition presetPublicKeyB64 : gostring := "s8yyOUUzCEhu17TizaGp9Ml/o9HvT9YM/bsACNF5T4s=".
Definition presetPublicKeyID : gostring := "434f57314cd1ee6c".
Definition PublicKeySize : nat := 32.
Definition SignatureSize : nat := 64.

Definition presetUpdateURLs : list gostring := [
  "https://raw.githubusercontent.com/average-vibecoding-enjoyer/pinus-smart-awg/main/presets/catalog.signed.json";
  "https://github.com/average-vibecoding-enjoyer/pinus-smart-awg/raw/refs/heads/main/presets/catalog.signed.json"].

(** [^[a-z0-9][a-z0-9-]{0,31}$] *)
Definition id_char (b : byte) : bool := in_range 97 122 b || is_digit b.
Definition presetIDPattern (s : gostring) : bool :=
  match s with
  | [] => false
  | b :: r => id_char b && forallb (λ c, id_char c || Byte.eqb c "-") r && (length r <=? 31)%nat
  end.

Record PresetPayload := mkPresetPayload {
  PayloadSchema : Z;
  PayloadRevision : Z;
  PayloadPublishedAt : Z;
  PayloadServices : list Service;
}.

Record presetEnvelope := mkPresetEnvelope {
  EnvSchema : Z;
  KeyID : gostring;
  EnvPayload : gostring;
  Signature : gostring;
}.

Definition eta_PresetPayload (p : PresetPayload) : PresetPayload :=
  mkPresetPayload (PayloadSchema p) (PayloadRevision p) (PayloadPublishedAt p) (PayloadServices p).
#[export] Instance set_PayloadSchema : Setter PayloadSchema := ltac:(derive_setter eta_PresetPayload PayloadSchema).
#[export] Instance set_PayloadRevision : Setter PayloadRevision := ltac:(derive_setter eta_PresetPayload PayloadRevision).
#[export] Instance set_PayloadPublishedAt : Setter PayloadPublishedAt :=
  ltac:(derive_setter eta_PresetPayload PayloadPublishedAt).
#[export] Instance set_PayloadServices : Setter PayloadServices := ltac:(derive_setter eta_PresetPayload PayloadServices).
Definition eta_presetEnvelope (e : presetEnvelope) : presetEnvelope :=
  mkPresetEnvelope (EnvSchema e) (KeyID e) (EnvPayload e) (Signature e).
#[export] Instance set_EnvSchema : Setter EnvSchema := ltac:(derive_setter eta_presetEnvelope EnvSchema).
#[export] Instance set_KeyID : Setter KeyID := ltac:(derive_setter eta_presetEnvelope KeyID).
#[export] Instance set_EnvPayload : Setter EnvPayload := ltac:(derive_setter eta_presetEnvelope EnvPayload).
#[export] Instance set_Signature : Setter Signature := ltac:(derive_setter eta_presetEnvelope Signature).

(** [ed25519.Verify(publicKey, message, signature)]. *)
Class Ed25519 := ed25519_Verify : gostring → gostring → gostring → bool.

(** [Time.UnmarshalJSON] looks at the text between the quotes. *)
Definition dec_time : decoder Z := λ raw t old,
  match t with
  | TStr _ => or_fail (ParseRFC3339 (take (length raw - 2) (tail raw))) (json_error "invalid time")
  | TNull => Ret old
  | _ => type_error
  end.

Section Presets.
Context {RT : GoRuntime} {IDNA : Idna} {ED : Ed25519}.

(** [decodeStrictJSON]: one value, no unknown fields, nothing after it. *)
Definition decodeStrictJSON {A} (d : decoder A) (data : gostring) (zero : A) : outcome A :=
  '(t, rest) ← or_fail (decode_stream data) (json_error "invalid input");
  a ← d data t zero;
  match skip_ws rest with
  | [] => Ret a
  | _ => Fail (err "JSON contains multiple values")
  end.

Definition dec_strings : decoder (list gostring) := dec_list dec_string [].

Definition dec_service (strict : bool) : decoder Service := dec_struct strict [
  ("id", in_field ServiceID dec_string); ("name", in_field ServiceName dec_string);
  ("description", in_field Description dec_string); ("process_names", in_field ProcessNames dec_strings);
  ("domains", in_field Domains dec_strings); ("domain_suffixes", in_field DomainSuffixes dec_strings)].

Definition zeroService : Service := mkService [] [] [] [] [] [].

Definition dec_payload (strict : bool) : decoder PresetPayload := dec_struct strict [
  ("schema", in_field PayloadSchema dec_int); ("revision", in_field PayloadRevision dec_uint64);
  ("published_at", in_field PayloadPublishedAt dec_time);
  ("services", in_field PayloadServices (dec_list (dec_service strict) zeroService))].

Definition dec_envelope (strict : bool) : decoder presetEnvelope := dec_struct strict [
  ("schema", in_field EnvSchema dec_int); ("key_id", in_field KeyID dec_string);
  ("payload", in_field EnvPayload dec_string); ("signature", in_field Signature dec_string)].

Definition zeroPayload : PresetPayload := mkPresetPayload 0 0 0 [].
Definition zeroEnvelope : presetEnvelope := mkPresetEnvelope 0 [] [] [].

Definition presetPublicKey : outcome gostring :=
  key ← map_error (λ _, err "invalid embedded preset public key") (b64_DecodeString presetPublicKeyB64);
  _ ← fail_if (negb (length key =? PublicKeySize)%nat) (err "invalid embedded preset public key");
  _ ← fail_if (negb (hex_EncodeToString (take 8 (Sum256 key)) =?s presetPublicKeyID))
        (err "embedded preset key ID mismatch");
  Ret key.

Definition IsControl (r : Z) : bool := (r <? 32) || ((0x7f <=? r) && (r <? 0xa0)).

Definition validatePresetText (value : gostring) (minRunes maxRunes : Z) : outcome unit :=
  _ ← fail_if (negb (value =?s TrimSpace value) || negb (ValidString value)) (err "text is not normalized UTF-8");
  _ ← fail_if (existsb IsControl (runes value)) (err "control characters are not allowed");
  let count := Z.of_nat (length (runes value)) in
  fail_if ((count <? minRunes) || (count >? maxRunes)) (err "text length is outside the allowed range").

Definition blocked_processes : list gostring :=
  ["csrss.exe"; "lsass.exe"; "services.exe"; "smss.exe"; "svchost.exe"; "wininit.exe"; "winlogon.exe"].

(** What a file name must not contain. *)
Definition unsafe_chars : gostring := "\/:*?" ++ [x22] ++ "<>|".

Definition process_ok (seen : gset gostring) (value : gostring) : bool :=
  let lower := ToLower value in
  (value =?s TrimSpace value) && (length value <=? 128)%nat && negb (ContainsAny value unsafe_chars)
  && (Base value =?s value) && HasSuffix lower ".exe"
  && negb (bool_decide (lower ∈ blocked_processes)) && negb (bool_decide (lower ∈ seen)).

Definition validatePresetProcesses (values : list gostring) : outcome unit :=
  (λ _, tt) <$> fold_outcome (λ seen value,
    _ ← fail_if (negb (process_ok seen value)) (err ("invalid, unsafe, or duplicate process " ++ value));
    Ret ({[ToLower value]} ∪ seen)) (∅ : gset gostring) values.

Definition validatePresetDomains (values : list gostring) (suffix : bool) : outcome unit :=
  (λ _, tt) <$> fold_outcome (λ seen value,
    _ ← fail_if (suffix && negb (HasPrefix value "."))
          (err ("domain suffix " ++ value ++ " must start with a dot"));
    let normalizedValue := if suffix : bool then TrimPrefix value "." else value in
    let bad := err ("invalid or duplicate domain " ++ value) in
    normalized ← map_error (λ _, bad) (normalizeDomain normalizedValue);
    _ ← fail_if (negb (normalized =?s normalizedValue) || bool_decide (value ∈ seen)) bad;
    Ret ({[value]} ∪ seen)) (∅ : gset gostring) values.

Definition entry_count (s : Service) : Z :=
  Z.of_nat (length (ProcessNames s) + length (Domains s) + length (DomainSuffixes s)).

(** The loop body of [ValidatePresetPayload]: ids seen and entries counted so far. *)
Definition validate_service (acc : gset gostring * Z) (service : Service) : outcome (gset gostring * Z) :=
  let '(seenIDs, total) := acc in
  _ ← fail_if (negb (presetIDPattern (ServiceID service)) || bool_decide (ServiceID service ∈ seenIDs))
        (err "service has an invalid or duplicate ID");
  _ ← map_error (WrapError "name") (validatePresetText (ServiceName service) 1 64);
  _ ← map_error (WrapError "description") (validatePresetText (Description service) 1 160);
  _ ← fail_if ((64 <? length (ProcessNames service))%nat || (256 <? length (Domains service))%nat
               || (256 <? length (DomainSuffixes service))%nat) (err "too many route entries");
  let total := total + entry_count service in
  _ ← fail_if ((total >? 4096) || (entry_count service =? 0)) (err "preset route entry count is invalid");
  _ ← map_error (WrapError "processes") (validatePresetProcesses (ProcessNames service));
  _ ← map_error (WrapError "domains") (validatePresetDomains (Domains service) false);
  _ ← map_error (WrapError "domain suffixes") (validatePresetDomains (DomainSuffixes service) true);
  Ret ({[ServiceID service]} ∪ seenIDs, total).

Definition ValidatePresetPayload (data : gostring) (now : Z) : outcome PresetPayload :=
  _ ← fail_if ((length data =? 0)%nat || (Z.of_nat (length data) >? presetMaxPayload))
        (err "preset payload has an invalid size");
  payload ← map_error (WrapError "decode preset payload") (decodeStrictJSON (dec_payload true) data zeroPayload);
  _ ← fail_if (negb (PayloadSchema payload =? presetPayloadSchema)) (err "unsupported preset payload schema");
  _ ← fail_if (PayloadRevision payload <? builtinCatalogRevision)
        (err "preset revision is below the built-in floor");
  _ ← fail_if (IsZero (PayloadPublishedAt payload) || After (PayloadPublishedAt payload) (now + 24 * Hour))
        (err "preset publication time is invalid");
  _ ← fail_if ((length (PayloadServices payload) =? 0)%nat || (64 <? length (PayloadServices payload))%nat)
        (err "preset service count is invalid");
  '(seenIDs, _) ← fold_outcome validate_service (∅, 0) (PayloadServices payload);
  _ ← fail_if (existsb (λ s, negb (bool_decide (ServiceID s ∈ seenIDs))) builtinServiceCatalog)
        (err "required built-in service is missing");
  Ret payload.

Definition verifyPresetEnvelope (data publicKey keyID : gostring) (now : Z) : outcome PresetPayload :=
  _ ← fail_if ((length data =? 0)%nat || (Z.of_nat (length data) >? presetMaxEnvelope))
        (err "preset envelope has an invalid size");
  envelope ← map_error (WrapError "decode preset envelope") (decodeStrictJSON (dec_envelope true) data zeroEnvelope);
  _ ← fail_if (negb (EnvSchema envelope =? presetEnvelopeSchema) || negb (KeyID envelope =?s keyID))
        (err "preset envelope schema or key ID mismatch");
  let bad_payload := err "preset payload has an invalid encoding or size" in
  payloadBytes ← map_error (λ _, bad_payload) (b64_DecodeString (EnvPayload envelope));
  _ ← fail_if ((length payloadBytes =? 0)%nat || (Z.of_nat (length payloadBytes) >? presetMaxPayload)) bad_payload;
  let bad_signature := err "preset signature has an invalid encoding or size" in
  signature ← map_error (λ _, bad_signature) (b64_DecodeString (Signature envelope));
  _ ← fail_if (negb (length signature =? SignatureSize)%nat) bad_signature;
  _ ← fail_if (negb (ed25519_Verify publicKey payloadBytes signature)) (err "preset signature verification failed");
  ValidatePresetPayload payloadBytes now.

Definition presetEnvelopeDigest (data : gostring) : gostring :=
  match Unmarshal (dec_envelope false) data zeroEnvelope with
  | Ret envelope =>
      match b64_DecodeString (EnvPayload envelope) with
      | Ret payload => hex_EncodeToString (Sum256 payload)
      | _ => []
      end
  | _ => []
  end.
End Presets.
