(* ===== verification/SmartUpdate.v ===== *)
(** * Catalog updates and atomic files ([client/smart/presets.go, history.go])

    Replacing a file through a temporary one ([writeAtomic],
    [writePresetCache]), and the two ways in which the catalog of the running
    process changes: from its cached copy and from the network. *)
From S2P Require Import Prelude GoStrings GoStrconv GoEncoding GoPath GoJson GoTime GoSha256 GoOs AwgValidation SmartRules SmartCatalog.

Local Open Scope Z_scope.

(** [os.UserConfigDir] and [os.TempDir]. *)
Class Paths := {
  UserConfigDir : outcome gostring;
  TempDir : gostring;
}.

(** What [http.Client.Do] and reading the body give for a URL: an error of
    [http.NewRequestWithContext], of [Do], or a response, with the body cut at
    the limit of the reader and the errors of reading and of closing it. *)
Inductive http_result :=
| RequestError (e : goerror)
| DoError (e : goerror)
| Response (code : Z) (data : gostring) (readErr closeErr : option goerror).

Definition StatusOK : Z := 200.

Section Files.
Context {RT : GoRuntime} {IDNA : Idna} {ED : Ed25519} {FT : Faults} {PT : Paths}.

Definition UserSettingsDir : gostring :=
  match UserConfigDir with
  | Ret ((_ :: _) as dir) => filepath_Join [dir; "PinusSmartAWGPreview"]
  | _ => filepath_Join [TempDir; "PinusSmartAWGPreview"]
  end.

Definition presetCachePath : gostring := filepath_Join [UserSettingsDir; "presets"; "catalog.signed.json"].

(** [f.Write], [f.Sync] unless it failed, [f.Close] in any case. *)
Definition write_and_close (path data : gostring) : IO unit :=
  let! r := attempt (WriteFileHandle path data ;; Sync path) in
  let! c := attempt (Close path) in
  io_lift (_ ← r; c).

Definition writeAtomic (path data : gostring) : IO unit :=
  MkdirAll (Dir path) ;;
  let! temporary := CreateTemp (Dir path) ".pinus-write-" in
  deferring (write_and_close temporary data ;; Rename temporary path) (ignore_error (Remove temporary)).

Definition writePresetCache (data : gostring) : IO unit :=
  let path := presetCachePath in
  MkdirAll (Dir path) ;;
  let! temporary := CreateTemp (Dir path) ".pinus-presets-" in
  deferring
    (ignore_error (Chmod temporary) ;; write_and_close temporary data ;; Rename temporary path)
    (ignore_error (Remove temporary)).

(** [WriteBackupFile] commits only a complete encrypted backup. *)
Definition WriteBackupFile (path encrypted : gostring) : IO unit := writeAtomic path encrypted.

(** [readLimitedFile] *)
Definition readLimitedFile (path : gostring) (limit : Z) : IO gostring :=
  let! data := ReadLimited path limit in
  if Z.of_nat (length data) >? limit then io_fail (err "файл превышает допустимый размер") else io_ret data.

(** The part of [LoadCachedServiceCatalog] that its deferred function observes;
    [now] is the time of the verification. *)
Definition load_cached (now : Z) (st : catalog_state) : IO catalog_state :=
  let! r := attempt (ReadFile presetCachePath) in
  match r with
  | Fail e => if is_not_exist e then io_ret st else io_fail e
  | Panic => λ s, (s, Panic)
  | Ret data => io_lift (
      publicKey ← presetPublicKey;
      payload ← verifyPresetEnvelope data publicKey presetPublicKeyID now;
      let current := ServiceCatalogStatus st in
      _ ← fail_if (PayloadRevision payload <? Revision current)
            (err "cached preset revision would roll the catalog back");
      let incomingDigest := presetEnvelopeDigest data in
      _ ← fail_if ((PayloadRevision payload =? Revision current) && negb (Digest current =?s [])
                   && negb (incomingDigest =?s Digest current))
            (err "cached preset revision was reused with different content");
      Ret (applyServiceCatalog (PayloadServices payload)
             (mkPresetStatus (PayloadRevision payload) "verified cache" incomingDigest
                (PayloadPublishedAt payload) 0 None) st))
  end.

(** The catalog afterwards, with the error it returns; [later] is the time at
    which the deferred function records an error. *)
Definition LoadCachedServiceCatalog (now later : Z) (st : catalog_state) : IO (catalog_state * option goerror) :=
  let! r := attempt (load_cached now st) in
  match r with
  | Ret st => io_ret (st, None)
  | Fail e => io_ret (recordServiceCatalogCheck later (Some (WrapError "cached presets" e)) st, Some e)
  | Panic => λ s, (s, Panic)
  end.

(** [updateErr == nil] for the errors joined so far. *)
Definition joined (es : list goerror) : goerror := JoinError es.

(** The error of one response, if it has one. *)
Definition response_error (url : gostring) (code : Z) (data : gostring) (readErr closeErr : option goerror)
    : option goerror :=
  let readErr := match readErr with None => closeErr | e => e end in
  let readErr :=
    if negb (code =? StatusOK) then
      Some (JoinError (option_list readErr ++ [err (url ++ " returned HTTP " ++ Itoa code)]))
    else readErr in
  match readErr with
  | Some e => Some e
  | None => if Z.of_nat (length data) >? presetMaxEnvelope
            then Some (err "preset response is too large") else None
  end.

(** The loop over the update URLs, with the errors joined so far. *)
Fixpoint update_loop (fetch : gostring → http_result) (publicKey keyID : gostring) (now : Z)
    (urls : list gostring) (errs : list goerror) (st : catalog_state) : IO (catalog_state * outcome bool) :=
  match urls with
  | [] =>
      let e := match errs with [] => err "no preset update URL is configured" | _ => joined errs end in
      io_ret (recordServiceCatalogCheck now (Some e) st, Fail e)
  | url :: urls =>
      let continue_with e := update_loop fetch publicKey keyID now urls (errs ++ [e]) st in
      match fetch url with
      | RequestError e => continue_with e
      | DoError e => continue_with (WrapError url e)
      | Response code data readErr closeErr =>
          match response_error url code data readErr closeErr with
          | Some e => continue_with e
          | None =>
              match verifyPresetEnvelope data publicKey keyID now with
              | Panic => λ s, (s, Panic)
              | Fail e => continue_with (WrapError url e)
              | Ret payload =>
                  let current := ServiceCatalogStatus st in
                  let incomingDigest := presetEnvelopeDigest data in
                  if PayloadRevision payload <? Revision current then
                    continue_with (err (url ++ " attempted preset rollback"))
                  else if PayloadRevision payload =? Revision current then
                    if negb (Digest current =?s []) && negb (incomingDigest =?s Digest current) then
                      continue_with (err (url ++ " reused preset revision with different content"))
                    else io_ret (recordServiceCatalogCheck now None st, Ret false)
                  else
                    let! w := attempt (writePresetCache data) in
                    match w with
                    | Fail e => continue_with e
                    | _ =>
                        io_ret (applyServiceCatalog (PayloadServices payload)
                                  (mkPresetStatus (PayloadRevision payload) "signed update" incomingDigest
                                     (PayloadPublishedAt payload) now None) st, Ret true)
                    end
              end
          end
      end
  end.

Definition updateServiceCatalog (fetch : gostring → http_result) (urls : list gostring)
    (publicKey keyID : gostring) (now : Z) (st : catalog_state) : IO (catalog_state * outcome bool) :=
  update_loop fetch publicKey keyID now urls [] st.

Definition UpdateServiceCatalog (fetch : gostring → http_result) (now : Z) (st : catalog_state)
    : IO (catalog_state * outcome bool) :=
  match presetPublicKey with
  | Ret publicKey => updateServiceCatalog fetch presetUpdateURLs publicKey presetPublicKeyID now st
  | Fail e => io_ret (recordServiceCatalogCheck now (Some e) st, Fail e)
  | Panic => λ s, (s, Panic)
  end.
End Files.

(** ** The signed catalog

    What a verified envelope guarantees, and what stays true of the catalog of
    the process over every sequence of reloads and updates. *)

Local Open Scope Z_scope.

(** Inversion of a chain of binds whose guards passed. *)
Ltac ret_inv H :=
  repeat match type of H with
  | fail_if _ _ ≫= _ = Ret _ => let G := fresh "G" in apply bind_ret in H as ([] & G%fail_if_ret & H)
  | or_fail _ _ ≫= _ = Ret _ => let x := fresh "x" in let G := fresh "G" in apply bind_ret in H as (x & G%or_fail_ret & H)
  | map_error _ _ ≫= _ = Ret _ => let x := fresh "x" in let G := fresh "G" in apply bind_ret in H as (x & G%map_error_ret & H)
  end.

Section Catalog.
Context {RT : GoRuntime} {IDNA : Idna} {ED : Ed25519}.

(** ** Strict and lenient decoding agree where the strict one succeeds *)

Lemma dec_struct_lenient {A} (fields : list (gostring * decoder A)) raw t old a :
  dec_struct true fields raw t old = Ret a → dec_struct false fields raw t old = Ret a.
Proof.
  destruct t as [| | | | |ms]; try done. cbn [dec_struct]. revert old.
  induction ms as [|[[k r] t] ms IH]; intros old; cbn [fold_outcome]; [done|].
  destruct (find_field k fields) as [d|]; [|done]. destruct (d r t old); cbn; [apply IH|done..].
Qed.

Lemma envelope_lenient data env :
  decodeStrictJSON (dec_envelope true) data zeroEnvelope = Ret env →
  Unmarshal (dec_envelope false) data zeroEnvelope = Ret env.
Proof.
  unfold decodeStrictJSON, Unmarshal, decode_tree. intros H. ret_inv H. destruct x as [t rest].
  apply bind_ret in H as (a & Ha & H). rewrite G. cbn. destruct (skip_ws rest); [|done]. cbn.
  injection H as ->. by apply dec_struct_lenient.
Qed.

(** ** Valid catalogs *)

Definition safe_process (value : gostring) : Prop :=
  ~ (ToLower value ∈ blocked_processes) ∧ ContainsAny value unsafe_chars = false ∧ HasSuffix (ToLower value) ".exe" = true.

Record valid_service (s : Service) : Prop := {
  vs_id : presetIDPattern (ServiceID s) = true;
  vs_processes : Forall safe_process (ProcessNames s);
  vs_suffixes : Forall (λ d, HasPrefix d "." = true) (DomainSuffixes s);
  vs_routes : entry_count s ≠ 0;
}.

Record valid_catalog (l : list Service) : Prop := {
  vc_builtin : Forall (λ s, ServiceID s ∈ map ServiceID l) builtinServiceCatalog;
  vc_ids : NoDup (map ServiceID l);
  vc_services : Forall valid_service l;
  vc_entries : Z.of_nat (sum_list_with (λ s, Z.to_nat (entry_count s)) l) <= 4096;
}.

Lemma validatePresetProcesses_safe l : validatePresetProcesses l = Ret tt → Forall safe_process l.
Proof.
  unfold validatePresetProcesses. generalize (∅ : gset gostring).
  induction l as [|v l IH]; intros seen H; [done|]. cbn [fold_outcome] in H.
  destruct (process_ok seen v) eqn:E; [|done]. cbn in H. constructor; [|by apply (IH ({[ToLower v]} ∪ seen))].
  unfold process_ok in E. repeat (apply andb_true_iff in E as [E ?]).
  split; [by eapply bool_decide_eq_false, negb_true_iff|]. split; [by apply negb_true_iff|done].
Qed.

Lemma validatePresetDomains_dots l : validatePresetDomains l true = Ret tt → Forall (λ d, HasPrefix d "." = true) l.
Proof.
  unfold validatePresetDomains. generalize (∅ : gset gostring).
  induction l as [|v l IH]; intros seen H; [done|]. cbn [fold_outcome] in H.
  destruct (HasPrefix v ".") eqn:E; [|done]. constructor; [done|]. cbn [andb negb fail_if mbind outcome_bind] in H.
  destruct (normalizeDomain _) as [n|e|]; [|done..]. cbn [map_error mbind outcome_bind] in H.
  destruct (_ || _); [done|]. cbn in H. by apply (IH ({[v]} ∪ seen)).
Qed.

Lemma validate_service_spec seen total s seen' total' :
  validate_service (seen, total) s = Ret (seen', total') →
  valid_service s ∧ ~ (ServiceID s ∈ seen) ∧ seen' = {[ServiceID s]} ∪ seen ∧ total' = total + entry_count s ∧ total' <= 4096.
Proof.
  unfold validate_service. intros H. ret_inv H. injection H as <- <-.
  apply orb_false_iff in G as [Gid Gseen]. apply negb_false_iff in Gid. apply bool_decide_eq_false in Gseen.
  apply orb_false_iff in G3 as [Gt Ge]. rewrite Z.gtb_ltb in Gt. apply Z.ltb_ge in Gt. apply Z.eqb_neq in Ge.
  repeat match goal with u : unit |- _ => destruct u end. split; [|done].
  constructor; [done|by apply validatePresetProcesses_safe|by apply validatePresetDomains_dots|done].
Qed.

Lemma entry_count_nonneg s : 0 <= entry_count s.
Proof. unfold entry_count. lia. Qed.

Lemma validate_services_spec l seen total seen' total' :
  fold_outcome validate_service (seen, total) l = Ret (seen', total') → total <= 4096 →
  seen' = list_to_set (map ServiceID l) ∪ seen ∧ NoDup (map ServiceID l) ∧ Forall (λ s, ServiceID s ∉ seen) l
  ∧ Forall valid_service l ∧ total + Z.of_nat (sum_list_with (λ s, Z.to_nat (entry_count s)) l) <= 4096.
Proof.
  revert seen total. induction l as [|s l IH]; intros seen total H Ht; cbn [fold_outcome] in H.
  - injection H as <- <-. cbn. split; [set_solver|]. split; [constructor|]. split; [constructor|]. split; [constructor|lia].
  - apply bind_ret in H as ([seen1 total1] & H1 & H). apply validate_service_spec in H1 as (Hv & Hn & -> & -> & Hle).
    apply IH in H as (-> & Hd & Hf & Hvs & Hs); [|done]. pose proof (entry_count_nonneg s). cbn.
    split; [set_solver|]. split; [|split; [|split; [by constructor|]]].
    + constructor; [|done]. intros Hin. apply list_elem_of_fmap in Hin as (s' & E & Hs').
      eapply Forall_forall in Hs'; [|exact Hf]. set_solver.
    + constructor; [done|]. eapply Forall_impl; [exact Hf|]. set_solver.
    + lia.
Qed.

Lemma ValidatePresetPayload_spec data now p :
  ValidatePresetPayload data now = Ret p → valid_catalog (PayloadServices p) ∧ builtinCatalogRevision <= PayloadRevision p.
Proof.
  unfold ValidatePresetPayload. intros H. ret_inv H. apply bind_ret in H as ([seen total] & Hf & H). ret_inv H.
  injection H as <-. apply validate_services_spec in Hf as (-> & Hd & _ & Hv & Hs); [|lia].
  split; [|by apply Z.ltb_ge in G2]. constructor; [|done|done|lia].
  apply Forall_forall. intros s Hin. destruct (decide (ServiceID s ∈ map ServiceID (PayloadServices x))) as [|Hno]; [done|].
  exfalso. apply not_true_iff_false in G5. apply G5. apply existsb_exists. exists s.
  split; [by apply list_elem_of_In|]. rewrite bool_decide_eq_false_2; [done|]. set_solver.
Qed.

(** What a verified envelope stands for: bytes signed with the key, whose hash
    is the envelope's digest and which hold the payload. *)
Definition signed_by (key digest : gostring) (p : PresetPayload) : Prop :=
  ∃ payloadBytes signature now, ed25519_Verify key payloadBytes signature = true
    ∧ digest = hex_EncodeToString (Sum256 payloadBytes) ∧ ValidatePresetPayload payloadBytes now = Ret p.

Lemma verifyPresetEnvelope_signed data key id now p :
  verifyPresetEnvelope data key id now = Ret p → signed_by key (presetEnvelopeDigest data) p.
Proof.
  unfold verifyPresetEnvelope. intros H. ret_inv H. apply envelope_lenient in G0.
  apply negb_false_iff in G6. exists x0, x1, now. split; [done|]. split; [|done].
  unfold presetEnvelopeDigest. by rewrite G0, G2.
Qed.

(** ** Reloads and updates *)

(** One call of [LoadCachedServiceCatalog] or [UpdateServiceCatalog], whatever
    the disk and the network answer. *)
Inductive catalog_step {FT : Faults} {PT : Paths} : catalog_state → catalog_state → Prop :=
| step_load now later st s s' st' e :
    LoadCachedServiceCatalog now later st s = (s', Ret (st', e)) → catalog_step st st'
| step_update fetch now st s s' st' r :
    UpdateServiceCatalog fetch now st s = (s', Ret (st', r)) → catalog_step st st'.

(** From [st], a catalog that is the old one up to the record of the check, or
    the services of a payload signed with [key], no older than the current
    one and, at the same revision, of the same digest unless there was none. *)
Inductive advances (key : gostring) (st : catalog_state) : catalog_state → Prop :=
| adv_same checked e : advances key st (recordServiceCatalogCheck checked e st)
| adv_none : advances key st st
| adv_signed p src checked digest :
    signed_by key digest p → Revision (status st) <= PayloadRevision p →
    (PayloadRevision p = Revision (status st) → Digest (status st) ≠ [] → digest = Digest (status st)) →
    advances key st (applyServiceCatalog (PayloadServices p)
      (mkPresetStatus (PayloadRevision p) src digest (PayloadPublishedAt p) checked None) st).

Section Steps.
Context {FT : Faults} {PT : Paths}.
Variable key : gostring.
Hypothesis key_ok : presetPublicKey = Ret key.

Lemma load_cached_advances now st s s' st' : load_cached now st s = (s', Ret st') → advances key st st'.
Proof using key_ok.
  unfold load_cached, io_bind, attempt, io_ret, io_lift, io_fail. destruct (ReadFile _ _) as [s1 [data|e|]]; [| |by intros [=]].
  - rewrite key_ok. intros [= _ H]. cbn [mbind outcome_bind] in H. apply bind_ret in H as (p & Hp & H). ret_inv H.
    injection H as <-. apply adv_signed.
    + by eapply verifyPresetEnvelope_signed.
    + apply Z.ltb_ge in G. exact G.
    + intros E Hd. apply andb_false_iff in G0 as [G0|G0].
      * apply andb_false_iff in G0 as [G0|G0]; [apply Z.eqb_neq in G0; destruct (G0 E)|].
        apply negb_false_iff, str_eqb_true in G0. destruct (Hd G0).
      * apply negb_false_iff, str_eqb_true in G0. exact G0.
  - destruct (is_not_exist e); intros [= _ <-]. apply adv_none.
Qed.

Lemma update_loop_advances fetch now urls errs st s s' st' r :
  update_loop fetch key presetPublicKeyID now urls errs st s = (s', Ret (st', r)) → advances key st st'.
Proof.
  revert errs s. induction urls as [|url urls IH]; intros errs s H; cbn [update_loop] in H.
  { injection H as _ <- _. apply adv_same. }
  destruct (fetch url) as [e|e|code data readErr closeErr]; [by eapply IH..|].
  destruct (response_error _ _ _ _ _); [by eapply IH|].
  destruct (verifyPresetEnvelope _ _ _ _) as [p|e|] eqn:Hp; [|by eapply IH|by injection H].
  destruct (PayloadRevision p <? _) eqn:E1; [by eapply IH|].
  destruct (PayloadRevision p =? _) eqn:E2.
  { destruct (_ && _); [by eapply IH|]. injection H as _ <- _. apply adv_same. }
  unfold io_bind, attempt in H. destruct (writePresetCache data s) as [s1 [w|e|]]; [|by eapply IH|by injection H].
  injection H as _ <- _. apply adv_signed.
  - by eapply verifyPresetEnvelope_signed.
  - apply Z.ltb_ge in E1. exact E1.
  - intros E. apply Z.eqb_neq in E2. destruct (E2 E).
Qed.

Lemma catalog_step_advances st st' : catalog_step st st' → advances key st st'.
Proof using key_ok.
  intros [now later st0 s s' st1 e H|fetch now st0 s s' st1 r H].
  - unfold LoadCachedServiceCatalog, io_bind, attempt in H. destruct (load_cached now st0 s) as [s1 [st2|e2|]] eqn:E; [| |by injection H].
    + injection H as _ <- _. by eapply load_cached_advances.
    + injection H as _ <- _. apply adv_same.
  - unfold UpdateServiceCatalog in H. rewrite key_ok in H. by eapply update_loop_advances.
Qed.

(** Revisions never decrease, and a revision keeps its digest. *)
Lemma advances_monotone st st' :
  advances key st st' → Revision (status st) <= Revision (status st')
    ∧ (Revision (status st') = Revision (status st) → Digest (status st) ≠ [] → Digest (status st') = Digest (status st)).
Proof. intros [checked e| |p src checked digest Hs Hr Hd]; cbn; split; auto; lia. Qed.

(** The catalog is the built-in one or a signed one. *)
Definition trusted (st : catalog_state) : Prop :=
  services st = builtinServiceCatalog
  ∨ ∃ p, signed_by key (Digest (status st)) p ∧ services st = PayloadServices p ∧ Revision (status st) = PayloadRevision p.

Lemma advances_trusted st st' : advances key st st' → trusted st → trusted st'.
Proof.
  intros [checked e| |p src checked digest Hs Hr Hd] Ht; [exact Ht|exact Ht|]. right. exists p. split; [exact Hs|]. split; reflexivity.
Qed.
End Steps.
End Catalog.
