(* ===== verification/SmartSettings.v ===== *)
(** * Routing settings ([client/smart/settings.go, regional.go, policy_snapshot.go])

    The settings of a tunnel, their normal form, the services they route
    through the VPN, and their JSON text.  [ServiceRoutes] and its inner maps
    are nil or empty with the same meaning; [SelectedApps] is [None] when nil. *)
From S2P Require Import Prelude GoStrings GoStrconv GoEncoding GoPath GoJson GoTime GoSha256 GoOs AwgValidation TunnelName SmartRules SmartCatalog.

Local Open Scope Z_scope.

Definition settingsVersion : Z := 5.
Definition MaxSettingsSize : Z := 1024 * 1024.
Definition legacyDefaultServiceIDs : list gostring := ["discord"; "youtube"; "telegram"; "instagram"].

Record RoutingSettings := mkSettings {
  ServiceRoutes : gmap Mode (gmap gostring bool);
  CatalogEnvelope : gostring;
  FallbackProfiles : list gostring;
  Protection : gostring;
  Version : Z;
  SMode : Mode;
  SelectedApps : option (list gostring);
  CustomRules : list CustomRule;
}.

Definition eta_Settings (s : RoutingSettings) : RoutingSettings :=
  mkSettings (ServiceRoutes s) (CatalogEnvelope s) (FallbackProfiles s) (Protection s) (Version s) (SMode s)
    (SelectedApps s) (CustomRules s).
#[export] Instance set_ServiceRoutes : Setter ServiceRoutes := ltac:(derive_setter eta_Settings ServiceRoutes).
#[export] Instance set_CatalogEnvelope : Setter CatalogEnvelope := ltac:(derive_setter eta_Settings CatalogEnvelope).
#[export] Instance set_FallbackProfiles : Setter FallbackProfiles := ltac:(derive_setter eta_Settings FallbackProfiles).
#[export] Instance set_Protection : Setter Protection := ltac:(derive_setter eta_Settings Protection).
#[export] Instance set_Version : Setter Version := ltac:(derive_setter eta_Settings Version).
#[export] Instance set_SMode : Setter SMode := ltac:(derive_setter eta_Settings SMode).
#[export] Instance set_SelectedApps : Setter SelectedApps := ltac:(derive_setter eta_Settings SelectedApps).
#[export] Instance set_CustomRules : Setter CustomRules := ltac:(derive_setter eta_Settings CustomRules).

Definition zeroSettings : RoutingSettings := mkSettings ∅ [] [] [] 0 [] None [].
Definition zeroRule : CustomRule := mkCustomRule [] [] [] [] [] false.

(** The selected service ids, nil read as empty. *)
Definition selected_apps (s : RoutingSettings) : list gostring := default [] (SelectedApps s).

Definition HasEnabledCustomRules (settings : RoutingSettings) : bool :=
  existsb Enabled (CustomRules settings).

Definition DefaultSettings (cat : catalog_state) : RoutingSettings :=
  zeroSettings <| Version := settingsVersion |> <| SMode := ModeAll |>
               <| SelectedApps := Some (DefaultServiceIDs cat) |>.

(** ** JSON *)


(** Entries of a map, in the order of its keys. *)
Definition jmap {A} (f : A → json) (m : gmap gostring A) : json :=
  mkobj (map (λ kv, (fst kv, f (snd kv))) (map_to_list m)).

Definition json_of_rule (r : CustomRule) : json := JObj [
  ("id", JStr (ID r)); ("name", JStr (RuleName r)); ("kind", JStr (Kind r)); ("value", JStr (Value r));
  ("target", JStr (Target r)); ("enabled", JBool (Enabled r))].

Definition omitempty (present : bool) (k : gostring) (v : json) : list (gostring * json) :=
  if present then [(k, v)] else [].

Definition json_of_settings (s : RoutingSettings) : json := JObj (
  omitempty (negb (bool_decide (ServiceRoutes s = ∅))) "service_routes"
    (jmap (jmap JBool) (ServiceRoutes s))
  ++ omitempty (negb (CatalogEnvelope s =?s [])) "catalog_envelope" (JRaw (CatalogEnvelope s))
  ++ omitempty (0 <? length (FallbackProfiles s))%nat "fallback_profiles" (JStrs (FallbackProfiles s))
  ++ omitempty (negb (Protection s =?s [])) "protection" (JStr (Protection s))
  ++ [("version", JInt (Version s)); ("mode", JStr (SMode s));
      ("selected_apps", match SelectedApps s with Some l => JStrs l | None => JNull end)]
  ++ omitempty (0 <? length (CustomRules s))%nat "custom_rules" (JArr (map json_of_rule (CustomRules s)))).

Section Settings.
Context {RT : GoRuntime} {IDNA : Idna} {ED : Ed25519}.

Definition dec_rule (strict : bool) : decoder CustomRule := dec_struct strict [
  ("id", in_field ID dec_string); ("name", in_field RuleName dec_string); ("kind", in_field Kind dec_string);
  ("value", in_field Value dec_string); ("target", in_field Target dec_string);
  ("enabled", in_field Enabled dec_bool)].

Definition dec_settings (strict : bool) : decoder RoutingSettings := dec_struct strict [
  ("service_routes", in_field ServiceRoutes (dec_map (dec_map dec_bool false) ∅));
  ("catalog_envelope", in_field CatalogEnvelope dec_raw);
  ("fallback_profiles", in_field FallbackProfiles (dec_list dec_string []));
  ("protection", in_field Protection dec_string); ("version", in_field Version dec_int);
  ("mode", in_field SMode dec_string); ("selected_apps", in_field SelectedApps (dec_slice dec_string []));
  ("custom_rules", in_field CustomRules (dec_list (dec_rule strict) zeroRule))].

(** ** Normal form *)

Definition selectedExactlyMatches (values expected : list gostring) : bool :=
  let values := map (λ v, ToLower (TrimSpace v)) values in
  forallb (λ v, bool_decide (v ∈ expected)) values
  && (size (list_to_set values : gset gostring) =? size (list_to_set expected : gset gostring))%nat.

(** The catalog pinned in the settings, verified at time [now]. *)
Definition verifiedSettingsCatalog (now : Z) (envelope : gostring) : outcome (list Service) :=
  match envelope with
  | [] => Ret BuiltinServiceCatalog
  | _ =>
      key ← presetPublicKey;
      payload ← verifyPresetEnvelope envelope key presetPublicKeyID now;
      Ret (PayloadServices payload)
  end.

(** The ids of [l] that are known, in normal form, once each. *)
Fixpoint select_known (known seen : gset gostring) (l : list gostring) : list gostring :=
  match l with
  | [] => []
  | id :: l =>
      let id := ToLower (TrimSpace id) in
      if bool_decide (id ∈ known) && negb (bool_decide (id ∈ seen))
      then id :: select_known known ({[id]} ∪ seen) l
      else select_known known seen l
  end.

(** The loop over the rules, at index [i] with the ids used so far. *)
Fixpoint normalize_rules (i : nat) (ids : gset gostring) (l : list CustomRule) : outcome (list CustomRule) :=
  match l with
  | [] => Ret []
  | rule :: l =>
      rule ← map_error (WrapError ("правило " ++ Itoa (Z.of_nat i + 1))) (normalized rule i);
      let rule := if bool_decide (ID rule ∈ ids)
                  then rule <| ID := ID rule ++ "-" ++ Itoa (Z.of_nat i + 1) |> else rule in
      rules ← normalize_rules (S i) ({[ID rule]} ∪ ids) l;
      Ret (rule :: rules)
  end.

(** [cat] is the catalog of the running process, [now] the current time. *)
Definition Normalized (cat : catalog_state) (now : Z) (settings : RoutingSettings) : outcome RoutingSettings :=
  _ ← fail_if (Version settings >? settingsVersion) (err "unsupported settings version");
  _ ← fail_if (negb (Protection settings =?s []) && negb (Protection settings =?s "all"))
        (err "unknown protection policy");
  _ ← fail_if (8 <? length (FallbackProfiles settings))%nat (err "не более 8 резервных профилей");
  _ ← fail_if (existsb (λ name, negb (TunnelNameIsValid name)) (FallbackProfiles settings))
        (err "неверное имя резервного профиля");
  let storedVersion := Version settings in
  let legacyMode := (SMode settings =?s ModeSocial) || (SMode settings =?s ModeNative) in
  let settings := settings <| SMode := NormalizeMode (SMode settings) |> in
  let settings :=
    if Version settings =? 0 then
      let settings := settings <| Version := settingsVersion |> in
      match SelectedApps settings with
      | None => settings <| SelectedApps := Some (DefaultServiceIDs cat) |>
      | Some _ => if legacyMode then settings <| SelectedApps := Some (DefaultServiceIDs cat) |> else settings
      end
    else settings in
  let settings :=
    if (storedVersion >? 0) && (storedVersion <? settingsVersion)
       && selectedExactlyMatches (selected_apps settings) legacyDefaultServiceIDs
    then settings <| SelectedApps := Some (selected_apps settings ++ [AIServiceID]) |>
    else settings in
  let settings := settings <| Version := settingsVersion |> in
  catalog ← verifiedSettingsCatalog now (CatalogEnvelope settings);
  let known := list_to_set (map ServiceID catalog) in
  let settings := settings <| SelectedApps := Some (select_known known ∅ (selected_apps settings)) |> in
  rules ← normalize_rules 0 ∅ (CustomRules settings);
  Ret (settings <| CustomRules := rules |>).

(** ** Routed services *)

Definition SelectedServices (now : Z) (settings : RoutingSettings) : list Service :=
  match verifiedSettingsCatalog now (CatalogEnvelope settings) with
  | Ret catalog => filter (λ s, ServiceID s ∈ selected_apps settings) catalog
  | _ => []
  end.

Definition ServiceUsesVPN (settings : RoutingSettings) (id : gostring) : bool :=
  let mode := NormalizeMode (SMode settings) in
  if IsRegionalService id then
    match ServiceRoutes settings !! mode ≫= (.!! id) with
    | Some enabled => enabled
    | None => mode =?s ModeAll
    end
  else if mode =?s ModeAll then true
  else bool_decide (id ∈ selected_apps settings).

Definition WithServiceVPN (settings : RoutingSettings) (id : gostring) (enabled : bool) : RoutingSettings :=
  let mode := NormalizeMode (SMode settings) in
  let routes := ServiceRoutes settings in
  settings <| ServiceRoutes := <[mode := <[id := enabled]> (default ∅ (routes !! mode))]> routes |>.

Definition HasDirectServiceExceptions (settings : RoutingSettings) : bool :=
  (NormalizeMode (SMode settings) =?s ModeAll)
  && (negb (ServiceUsesVPN settings VKServiceID) || negb (ServiceUsesVPN settings RussianServiceID)).

Definition VisibleServicesForSettings (now : Z) (settings : RoutingSettings) : list Service :=
  if NormalizeMode (SMode settings) =?s ModeAll then RegionalServices
  else match verifiedSettingsCatalog now (CatalogEnvelope settings) with
       | Ret catalog => catalog ++ RegionalServices
       | _ => RegionalServices
       end.

Definition VisibleServices (cat : catalog_state) (mode : Mode) : list Service :=
  if NormalizeMode mode =?s ModeAll then RegionalServices else ServiceCatalog cat ++ RegionalServices.

(** ** Payloads *)

Definition too_large : goerror := err "настройки превышают 1 МБ".

Definition ParseSettingsPayload (cat : catalog_state) (now : Z) (raw : gostring) : outcome RoutingSettings :=
  _ ← fail_if (Z.of_nat (length raw) >? MaxSettingsSize) too_large;
  let raw := TrimSpace raw in
  if (raw =?s []) || negb (HasPrefix raw "{") then
    Normalized cat now (DefaultSettings cat <| SMode := NormalizeMode raw |>)
  else
    settings ← map_error (WrapError "не удалось прочитать настройки маршрутизации")
                 (Unmarshal (dec_settings false) raw zeroSettings);
    Normalized cat now settings.

Definition SettingsPayload (cat : catalog_state) (now : Z) (settings : RoutingSettings) : outcome gostring :=
  normalized ← Normalized cat now settings;
  let data := Marshal (json_of_settings normalized) in
  _ ← fail_if (Z.of_nat (length data) >? MaxSettingsSize) too_large;
  Ret data.
End Settings.

(** ** Settings in normal form

    What [Normalized] guarantees and when it succeeds. *)
From S2P Require Import GoNet.

Local Open Scope Z_scope.

Section Normal.
Context {RT : GoRuntime} {IDNA : Idna} {ED : Ed25519}.

(** A rule as [normalized] leaves it. *)
Record normal_rule (r : CustomRule) : Prop := {
  nr_value : ∃ v, normalizeValue (Kind r) v = Ret (Value r);
  nr_target : Target r = TargetVPN ∨ Target r = TargetDirect;
  nr_id : ID r ≠ [];
}.

(** A rule and its normal form: only identifier, name and value may differ. *)
Definition same_policy (r r' : CustomRule) : Prop :=
  Kind r' = Kind r ∧ Target r' = Target r ∧ Enabled r' = Enabled r ∧ normalizeValue (Kind r) (Value r) = Ret (Value r').

Record normal_settings (now : Z) (s : RoutingSettings) : Prop := {
  ns_version : Version s = settingsVersion;
  ns_mode : SMode s = ModeAll ∨ SMode s = ModeSelected;
  ns_protection : Protection s = [] ∨ Protection s = "all";
  ns_fallbacks : (length (FallbackProfiles s) ≤ 8)%nat ∧ Forall (λ n, TunnelNameIsValid n = true) (FallbackProfiles s);
  ns_selected : ∃ catalog ids, verifiedSettingsCatalog now (CatalogEnvelope s) = Ret catalog
    ∧ SelectedApps s = Some ids ∧ NoDup ids ∧ Forall (λ id, id ∈ map ServiceID catalog) ids;
  ns_rules : Forall normal_rule (CustomRules s);
}.

Lemma NormalizeMode_range m : NormalizeMode m = ModeAll ∨ NormalizeMode m = ModeSelected.
Proof. unfold NormalizeMode. repeat case_if; auto. Qed.

Lemma select_known_spec known seen l :
  NoDup (select_known known seen l)
  ∧ Forall (λ id, id ∈ known ∧ id ∉ seen) (select_known known seen l).
Proof.
  revert seen. induction l as [|id l IH]; intros seen; simpl; [split; constructor|].
  set (k := ToLower (TrimSpace id)). destruct (_ && _) eqn:E; [|apply IH].
  apply andb_true_iff in E as [E1%bool_decide_eq_true E2%negb_true_iff%bool_decide_eq_false].
  destruct (IH ({[k]} ∪ seen)) as [Hn Hf]. split.
  - constructor; [|done]. intros Hin. eapply Forall_forall in Hin; [|exact Hf]. set_solver.
  - constructor; [done|]. eapply Forall_impl; [exact Hf|]. set_solver.
Qed.

(** Every id that some element of the list normalises to is selected, if known. *)
Lemma select_known_complete known seen l id :
  id ∈ known → id ∉ seen → id ∈ map (λ x, ToLower (TrimSpace x)) l → id ∈ select_known known seen l.
Proof.
  revert seen. induction l as [|x l IH]; intros seen Hk Hs Hin; simpl in *; [set_solver|].
  set (k := ToLower (TrimSpace x)) in *. destruct (decide (id = k)) as [->|Hne].
  - rewrite (bool_decide_eq_true_2 _ Hk), (bool_decide_eq_false_2 _ Hs). simpl. set_solver.
  - assert (id ∈ map (λ x, ToLower (TrimSpace x)) l) by set_solver.
    destruct (_ && _); [apply list_elem_of_further|]; apply IH; set_solver.
Qed.

Lemma normalized_spec rule i r :
  normalized rule i = Ret r → normal_rule r ∧ same_policy rule r.
Proof.
  unfold normalized. intros H.
  set (rid := if ID (rule <| ID := TrimSpace (ID rule) |>) =?s [] then _ else _) in H.
  apply bind_ret in H as (value & Hv & H). apply bind_ret in H as ([] & Ht & H). injection H as <-.
  apply fail_if_ret in Ht.
  assert (Hk : Kind rid = Kind rule ∧ Value rid = Value rule ∧ Target rid = Target rule ∧ Enabled rid = Enabled rule
    ∧ ID rid ≠ []).
  { unfold rid. destruct (str_eqb_spec (ID (rule <| ID := TrimSpace (ID rule) |>)) []); by repeat split. }
  clearbody rid. destruct Hk as (Ek & Ev & Et & Ee & Ei). unfold same_policy.
  set (r := if _ =?s [] then _ else _).
  assert (Hr : Kind r = Kind rule ∧ Value r = value ∧ Target r = Target rule ∧ Enabled r = Enabled rule ∧ ID r ≠ []).
  { unfold r. destruct (_ =?s []); by cbn; rewrite Ek, Et, Ee. }
  clearbody r. destruct Hr as (Rk & Rv & Rt & Re & Ri). rewrite Rk, Rv, Rt, Re.
  cbn in Hv. rewrite Ek, Ev in Hv. split; [|by repeat split]. constructor; [|rewrite Rt|exact Ri].
  - exists (Value rule). by rewrite Rk, Rv.
  - cbn in Ht. rewrite Et in Ht. apply andb_false_iff in Ht as [Ht|Ht]; apply negb_false_iff, str_eqb_true in Ht; auto.
Qed.

Lemma normalize_rules_spec i ids l rules :
  normalize_rules i ids l = Ret rules → Forall normal_rule rules ∧ Forall2 same_policy l rules.
Proof.
  revert i ids rules. induction l as [|rule l IH]; intros i ids rules H; simpl in H.
  - injection H as <-. by split; constructor.
  - apply bind_ret in H as (r & Hr & H). apply map_error_ret, normalized_spec in Hr as [Hn Hp].
    set (r' := if bool_decide _ then _ else _) in H.
    apply bind_ret in H as (rules' & Hrs & H). injection H as <-. apply IH in Hrs as [Hns Hps].
    assert (normal_rule r' ∧ same_policy rule r') as [].
    { unfold r'. destruct (bool_decide _); [|done]. destruct Hn as [Hv Ht Hi]. split; [|exact Hp].
      constructor; [exact Hv|exact Ht|]. cbn. by destruct (ID r). }
    split; by constructor.
Qed.

Lemma Normalized_spec cat now s s' :
  Normalized cat now s = Ret s' →
  normal_settings now s' ∧ Forall2 same_policy (CustomRules s) (CustomRules s')
  ∧ SMode s' = NormalizeMode (SMode s) ∧ ServiceRoutes s' = ServiceRoutes s
  ∧ CatalogEnvelope s' = CatalogEnvelope s ∧ Protection s' = Protection s
  ∧ FallbackProfiles s' = FallbackProfiles s.
Proof.
  unfold Normalized. intros H.
  apply bind_ret in H as ([] & _ & H). apply bind_ret in H as ([] & Hp%fail_if_ret & H).
  apply bind_ret in H as ([] & Hl%fail_if_ret & H). apply bind_ret in H as ([] & Hf%fail_if_ret & H).
  set (s1 := s <| SMode := _ |>) in H. set (s2 := if Version s1 =? 0 then _ else s1) in H.
  set (s3 := if (_ && _) && _ then _ else s2) in H. set (s4 := s3 <| Version := _ |>) in H.
  assert (H4 : CustomRules s4 = CustomRules s ∧ SMode s4 = NormalizeMode (SMode s) ∧ ServiceRoutes s4 = ServiceRoutes s
    ∧ CatalogEnvelope s4 = CatalogEnvelope s ∧ Protection s4 = Protection s ∧ FallbackProfiles s4 = FallbackProfiles s
    ∧ Version s4 = settingsVersion).
  { assert (H2 : CustomRules s2 = CustomRules s ∧ SMode s2 = NormalizeMode (SMode s) ∧ ServiceRoutes s2 = ServiceRoutes s
      ∧ CatalogEnvelope s2 = CatalogEnvelope s ∧ Protection s2 = Protection s ∧ FallbackProfiles s2 = FallbackProfiles s).
    { unfold s2. destruct (Version s1 =? 0); [|done]. destruct (SelectedApps _); [|done]. by destruct (_ || _). }
    unfold s4, s3. clearbody s2. destruct ((_ && _) && _); cbn; intuition. }
  clearbody s4. clear s1 s2 s3. destruct H4 as (Er & Em & Es & Ec & Ep & Ef & Ev).
  apply bind_ret in H as (catalog & Hc & H). apply bind_ret in H as (rules & Hr & H). injection H as <-. cbn in Hr.
  rewrite Er in Hr. apply normalize_rules_spec in Hr as [Hn Hps]. cbn. rewrite Em, Es, Ec, Ep, Ef.
  split; [|by repeat split]. constructor; cbn; rewrite ?Em, ?Ep, ?Ef, ?Ec; auto using NormalizeMode_range.
  - apply andb_false_iff in Hp as [Hp|Hp]; apply negb_false_iff, str_eqb_true in Hp; auto.
  - apply Nat.ltb_ge in Hl. split; [done|]. apply Forall_forall. intros n Hn'.
    destruct (TunnelNameIsValid n) eqn:E; [done|]. exfalso. apply not_true_iff_false in Hf. apply Hf.
    apply existsb_exists. exists n. rewrite E. split; [by apply list_elem_of_In|done].
  - rewrite Ec in Hc. exists catalog. eexists. split; [done|]. split; [done|].
    destruct (select_known_spec (list_to_set (map ServiceID catalog)) ∅ (selected_apps s4)) as [Hd Hk].
    split; [done|]. eapply Forall_impl; [exact Hk|]. set_solver.
Qed.
End Normal.
