(* ===== verification/SmartStore.v ===== *)
(** * Settings files ([client/smart/settings.go, history.go, policy_snapshot.go])

    Where the settings of a tunnel are kept, how they are read and replaced,
    the file of earlier versions, and the pinning of the signed catalog. *)
From S2P Require Import Prelude GoStrings GoStrconv GoEncoding GoPath GoJson GoTime GoSha256 GoOs AwgValidation TunnelName SmartRules SmartCatalog SmartUpdate SmartSettings.

Local Open Scope Z_scope.

(** ** File names *)

Definition stem_rune (r : Z) : byte :=
  if ((97 <=? r) && (r <=? 122)) || ((65 <=? r) && (r <=? 90)) || ((48 <=? r) && (r <=? 57))
     || (r =? 95) || (r =? 45) || (r =? 46) then zb r else "_"%byte.

Definition legacyTunnelFileStem (tunnelName : gostring) : gostring := map stem_rune (runes tunnelName).

Definition SafeTunnelFileStem (tunnelName : gostring) : gostring :=
  let safe := Trim (legacyTunnelFileStem (TrimSpace tunnelName)) "._-" in
  let safe := if safe =?s [] then "profile" else safe in
  let safe := if (48 <? length safe)%nat then take 48 safe else safe in
  safe ++ "-" ++ hex_EncodeToString (take 6 (Sum256 tunnelName)).

(** ** Earlier versions *)

Record SettingsRevision := mkRevision { At : Z; Reason : gostring; RevisionSettings : RoutingSettings }.

Definition eta_Revision (r : SettingsRevision) : SettingsRevision :=
  mkRevision (At r) (Reason r) (RevisionSettings r).
#[export] Instance set_At : Setter At := ltac:(derive_setter eta_Revision At).
#[export] Instance set_Reason : Setter Reason := ltac:(derive_setter eta_Revision Reason).
#[export] Instance set_RevisionSettings : Setter RevisionSettings := ltac:(derive_setter eta_Revision RevisionSettings).

Definition json_of_revision (r : SettingsRevision) : json := JObj [
  ("At", JStr (FormatRFC3339Nano (At r))); ("Reason", JStr (Reason r));
  ("Settings", json_of_settings (RevisionSettings r))].

Definition history_limit : Z := 13 * 1024 * 1024.

(** [history[len(history)-12:]] when there are more than twelve. *)
Definition keep_last (n : nat) {A} (l : list A) : list A := drop (length l - n) l.

Section Store.
Context {RT : GoRuntime} {IDNA : Idna} {ED : Ed25519} {FT : Faults} {PT : Paths}.

Definition settingsPath (tunnelName : gostring) : gostring :=
  filepath_Join [UserSettingsDir; "tunnels"; SafeTunnelFileStem tunnelName ++ ".json"].

Definition legacySettingsPath (tunnelName : gostring) : gostring :=
  filepath_Join [UserSettingsDir; "tunnels"; legacyTunnelFileStem tunnelName ++ ".json"].

Definition historyPath (name : gostring) : gostring := settingsPath name ++ ".history.json".

Definition dec_revision : decoder SettingsRevision := dec_struct false [
  ("At", in_field At dec_time); ("Reason", in_field Reason dec_string);
  ("Settings", in_field RevisionSettings (dec_settings false))].

Definition dec_history : decoder (list SettingsRevision) := dec_list dec_revision (mkRevision 0 [] zeroSettings).

Definition LoadSettingsHistory (name : gostring) : IO (list SettingsRevision) :=
  let! r := attempt (readLimitedFile (historyPath name) history_limit) in
  match r with
  | Fail e => if is_not_exist e then io_ret [] else io_fail e
  | Panic => λ s, (s, Panic)
  | Ret data => io_lift (
      _ ← fail_if (Z.of_nat (length data) >? history_limit) (err "история настроек слишком велика");
      Unmarshal dec_history data [])
  end.

Definition recordPreviousSettings (cat : catalog_state) (now : Z) (name : gostring) : IO unit :=
  let! r := attempt (readLimitedFile (settingsPath name) MaxSettingsSize) in
  match r with
  | Fail e => if is_not_exist e then io_ret tt else io_fail e
  | Panic => λ s, (s, Panic)
  | Ret data =>
      let! previous := io_lift (ParseSettingsPayload cat now data) in
      let! history := LoadSettingsHistory name in
      let history := history ++ [mkRevision now "До изменения настроек" previous] in
      let history := if (12 <? length history)%nat then keep_last 12 history else history in
      writeAtomic (historyPath name) (Marshal (JArr (map json_of_revision history)))
  end.

(** ** Saving and loading *)

Definition SaveSettings (cat : catalog_state) (now : Z) (tunnelName : gostring) (settings : RoutingSettings) : IO unit :=
  let! normalized := io_lift (Normalized cat now settings) in
  let path := settingsPath tunnelName in
  MkdirAll (Dir path) ;;
  let data := MarshalIndent 0 (json_of_settings normalized) in
  io_lift (fail_if (Z.of_nat (length data) >=? MaxSettingsSize) too_large) ;;
  let! temporary := CreateTemp (Dir path) ".pinus-settings-" in
  deferring
    (ignore_error (Chmod temporary) ;;
     write_and_close temporary (data ++ [x0a]) ;;
     recordPreviousSettings cat now tunnelName ;;
     Rename temporary path)
    (ignore_error (Remove temporary)).

(** The version a file claims, [0] when it is not a JSON object with one. *)
Definition stored_version (data : gostring) : Z :=
  match Unmarshal (dec_struct false [("version", dec_int)]) data 0 with Ret v => v | _ => 0 end.

(** The data of [LoadSettings]: the settings file, or the file of the old naming
    scheme; the flag tells which. *)
Definition read_settings (tunnelName : gostring) : IO (option (gostring * bool)) :=
  let path := settingsPath tunnelName in
  let legacyPath := legacySettingsPath tunnelName in
  let! r := attempt (readLimitedFile path MaxSettingsSize) in
  match r with
  | Ret data => io_ret (Some (data, false))
  | Panic => λ s, (s, Panic)
  | Fail e =>
      if is_not_exist e then
        if negb (legacyPath =?s path) then
          let! r := attempt (readLimitedFile legacyPath MaxSettingsSize) in
          match r with
          | Ret data => io_ret (Some (data, true))
          | Panic => λ s, (s, Panic)
          | Fail e => if is_not_exist e then io_ret None else io_fail e
          end
        else io_ret None
      else io_fail e
  end.

Definition LoadSettings (cat : catalog_state) (now : Z) (tunnelName : gostring) : IO RoutingSettings :=
  let! found := read_settings tunnelName in
  match found with
  | None => io_ret (DefaultSettings cat)
  | Some (data, loadedLegacy) =>
      let! settings := io_lift (ParseSettingsPayload cat now data) in
      (if loadedLegacy || negb (stored_version data =? Version settings) then
         let! saved := attempt (SaveSettings cat now tunnelName settings) in
         match saved with
         | Ret _ => if (loadedLegacy : bool) then ignore_error (Remove (legacySettingsPath tunnelName)) else io_ret tt
         | _ => io_ret tt
         end
       else io_ret tt) ;;
      io_ret settings
  end.

(** The first removal error that is not [os.ErrNotExist]; all are joined. *)
Fixpoint remove_all (paths : list gostring) (seen : gset gostring) (errs : list goerror) : IO unit :=
  match paths with
  | [] => match errs with [] => io_ret tt | _ => io_fail (JoinError errs) end
  | path :: paths =>
      if bool_decide (path ∈ seen) then remove_all paths seen errs
      else
        let! r := attempt (Remove path) in
        remove_all paths ({[path]} ∪ seen)
          (match r with Fail e => if is_not_exist e then errs else errs ++ [e] | _ => errs end)
  end.

Definition DeleteSettings (tunnelName : gostring) : IO unit :=
  remove_all [settingsPath tunnelName; legacySettingsPath tunnelName] ∅ [].

Definition LoadMode (cat : catalog_state) (now : Z) (tunnelName : gostring) : IO Mode :=
  let! r := attempt (LoadSettings cat now tunnelName) in
  match r with Ret settings => io_ret (SMode settings) | _ => io_ret ModeAll end.

Definition SaveMode (cat : catalog_state) (now : Z) (tunnelName : gostring) (mode : Mode) : IO unit :=
  let! r := attempt (LoadSettings cat now tunnelName) in
  let settings := match r with Ret settings => settings | _ => DefaultSettings cat end in
  SaveSettings cat now tunnelName (settings <| SMode := NormalizeMode mode |>).

Definition RestoreSettingsRevision (cat : catalog_state) (now : Z) (name : gostring) (index : Z) : IO unit :=
  let! history := LoadSettingsHistory name in
  if (index <? 0) || (index >=? Z.of_nat (length history)) then io_fail (err "версия настроек не найдена")
  else match history !! Z.to_nat index with
       | Some r => SaveSettings cat now name (RevisionSettings r)
       | None => λ s, (s, Panic)
       end.

(** [CaptureCatalog] pins the cached signed catalog to the settings. *)
Definition CaptureCatalog (now : Z) (settings : RoutingSettings) : IO RoutingSettings :=
  let! r := attempt (ReadFile presetCachePath) in
  match r with
  | Fail e => if is_not_exist e then io_ret (settings <| CatalogEnvelope := [] |>) else io_fail e
  | Panic => λ s, (s, Panic)
  | Ret data =>
      io_lift (verifiedSettingsCatalog now data) ;;
      io_ret (settings <| CatalogEnvelope := data |>)
  end.
End Store.
