(* ===== verification/SmartConfig.v ===== *)
(** * The engine's configuration ([client/smart/smart.go, regional.go, dns_policy.go, probe.go])

    [BuildConfig] turns a tunnel configuration and its routing settings into
    the JSON configuration of the engine: the AWG endpoint, the DNS servers and
    rules, and the ordered list of route rules.  Maps of the source are JSON
    objects in key order. *)
From S2P Require Import Prelude GoStrings GoStrconv GoEncoding GoNet GoJson Conf AwgValidation SmartRules SmartCatalog SmartSettings.

Local Open Scope Z_scope.

Definition TunInterfaceName : gostring := "pinus-smart-preview".
Definition tunAddresses : list gostring := ["172.19.77.1/30"; "fdfe:dcba:9876::1/126"].

Definition localCIDRs : list gostring := [
  "10.0.0.0/8"; "172.16.0.0/12"; "192.168.0.0/16"; "169.254.0.0/16"; "127.0.0.0/8"; "224.0.0.0/4";
  "255.255.255.255/32"; "::1/128"; "fc00::/7"; "fe80::/10"; "ff00::/8"].

(** ** The endpoint *)

Definition ipcidrs (values : list IPCidr) : list gostring := map IPCidr_String values.

Definition firstNonZeroMTU (config : Config) : Z :=
  if MTU (Iface config) >? 0 then MTU (Iface config) else 1408.

Definition fields_t : Type := list (gostring * json).

Definition addUint16 (key : gostring) (value : Z) (target : fields_t) : fields_t :=
  if value >? 0 then jset key (JInt value) target else target.

Definition addString (key value : gostring) (target : fields_t) : fields_t :=
  if value =?s [] then target else jset key (JStr value) target.

Definition err_no_endpoint : goerror := err "smart mode requires peer endpoint".

Definition peer_object (peer : Peer) : outcome json :=
  _ ← fail_if (Endpoint_IsEmpty (PeerEndpoint peer)) err_no_endpoint;
  let allowedIPs := ipcidrs (AllowedIPs peer) in
  let allowedIPs := match allowedIPs with [] => ["0.0.0.0/0"; "::/0"] | _ => allowedIPs end in
  let object := mkmap [
    ("address", JStr (Host (PeerEndpoint peer)));
    ("port", JInt (Port (PeerEndpoint peer)));
    ("public_key", JStr (Key_String (PublicKey peer)));
    ("allowed_ips", JStrs allowedIPs);
    ("persistent_keepalive_interval", JStr (PersistentKeepalive peer))] in
  Ret (JObj (if Key_IsZero (PresharedKey peer) then object
             else jset "preshared_key" (JStr (Key_String (PresharedKey peer))) object)).

(** ** Address families of a profile *)

Record profileFamilies := mkFamilies { fam_ipv4 : bool; fam_ipv6 : bool }.

Definition is_v4 (ip : IP) : bool := match To4 ip with Some _ => true | None => false end.
Definition is_v6 (ip : IP) : bool := negb (is_v4 ip) && match To16 ip with Some _ => true | None => false end.

Definition detectProfileFamilies (config : Config) : profileFamilies :=
  let addresses := map IPof (Addresses (Iface config)) in
  let defaults := map IPof (filter (λ a, Cidr a = 0) (concat (map AllowedIPs (Peers config)))) in
  mkFamilies (existsb is_v4 addresses && existsb is_v4 defaults)
             (existsb is_v6 addresses && existsb is_v6 defaults).

Definition DetectProfileNetworkSupport (config : Config) : profileFamilies := detectProfileFamilies config.

Definition dnsStrategy (families : profileFamilies) : gostring :=
  if fam_ipv4 families && fam_ipv6 families then "prefer_ipv4"
  else if fam_ipv4 families then "ipv4_only" else "ipv6_only".

Definition accepts (families : profileFamilies) (ip : IP) : bool :=
  if is_v4 ip then fam_ipv4 families
  else match To16 ip with Some _ => fam_ipv6 families | None => false end.

(** ** DNS servers *)

(** A server as its tag and address. *)
Definition dns_server : Type := gostring * gostring.

Definition dns_object (detour : gostring) (s : dns_server) : json := mkobj [
  ("type", JStr "udp"); ("tag", JStr (fst s)); ("server", JStr (snd s)); ("server_port", JInt 53);
  ("detour", JStr detour)].

(** [addServer]: a known or empty address is skipped. *)
Definition addServer (tag address : gostring) (servers : list dns_server) : list dns_server :=
  if (address =?s []) || bool_decide (address ∈ map snd servers) then servers
  else servers ++ [(tag, address)].

Definition dnsServers (config : Config) (families : profileFamilies) : list dns_server :=
  let servers :=
    fold_left (λ servers dns,
      if accepts families dns
      then addServer ("profile-dns-" ++ Itoa (Z.of_nat (length servers))) (IP_String dns) servers
      else servers) (DNS (Iface config)) [] in
  match servers with
  | [] =>
      let servers := if fam_ipv4 families then addServer "cloudflare-ipv4" "1.1.1.1" [] else [] in
      if fam_ipv6 families then addServer "cloudflare-ipv6" "2606:4700:4700::1111" servers else servers
  | _ => servers
  end.

(** The tag of the first server with an IPv4 address, [final] without one. *)
Definition fallback_resolver (final : gostring) (servers : list dns_server) : gostring :=
  match List.find (λ s, match ParseIP (snd s) with Some ip => is_v4 ip | None => false end) servers with
  | Some s => fst s
  | None => final
  end.

(** ** Route rules *)

Definition route (outbound : gostring) (conditions : fields_t) : json :=
  mkobj (conditions ++ [("action", JStr "route"); ("outbound", JStr outbound)]).

Definition customRuleObject (rule : CustomRule) : json :=
  let object := mkmap [("action", JStr "route"); ("outbound", JStr (Target rule))] in
  let object := if Target rule =?s TargetVPN then jset "outbound" (JStr "awg-out") object
                else jset "outbound" (JStr "direct") object in
  JObj (if Kind rule =?s RuleApplication then
          if is_path (Value rule) then jset "process_path" (JStrs [Value rule]) object
          else jset "process_name" (JStrs [Value rule]) object
        else if Kind rule =?s RuleDomain then
          jset "domain_suffix" (JStrs ["." ++ Value rule]) (jset "domain" (JStrs [Value rule]) object)
        else if Kind rule =?s RuleCIDR then jset "ip_cidr" (JStrs [Value rule]) object
        else object).

(** Append to a list what its set does not have yet. *)
Definition add_new (l : list gostring) (x : gostring) : list gostring :=
  if bool_decide (x ∈ l) then l else l ++ [x].

Definition add_suffix (acc : list gostring * list gostring) (suffix : gostring) : list gostring * list gostring :=
  let '(domains, suffixes) := acc in
  let root := TrimPrefix suffix "." in
  (if root =?s [] then domains else add_new domains root, add_new suffixes suffix).

(** Process names, domains and suffixes of the selected services. *)
Definition add_service (acc : list gostring * list gostring * list gostring) (service : Service)
    : list gostring * list gostring * list gostring :=
  let '(processes, domains, suffixes) := acc in
  let processes := fold_left add_new (ProcessNames service) processes in
  let domains := fold_left add_new (Domains service) domains in
  let '(domains, suffixes) := fold_left add_suffix (DomainSuffixes service) (domains, suffixes) in
  (processes, domains, suffixes).

Definition service_rules (selected : list Service) (outbound : gostring) : list json :=
  let '(processes, domains, suffixes) := fold_left add_service selected ([], [], []) in
  (if (0 <? length processes)%nat then [route outbound [("process_name", JStrs processes)]] else [])
  ++ (if (0 <? length domains)%nat || (0 <? length suffixes)%nat
      then [route outbound [("domain", JStrs domains); ("domain_suffix", JStrs suffixes)]] else []).

(** [rule["outbound"] == "awg-out"] *)
Definition is_vpn_object (rule : json) : bool :=
  match jget "outbound" rule with Some (JStr s) => s =?s "awg-out" | _ => false end.

(** The DNS rule of a route rule that has domains. *)
Definition dns_rule (vpnServer vpnStrategy : gostring) (rule : json) (vpn : bool) : list json :=
  match jget "domain" rule with
  | None => []
  | Some domain =>
      let copyRule := mkmap [("action", JStr "route"); ("server", JStr vpnServer); ("strategy", JStr vpnStrategy)] in
      let copyRule := jset "domain" domain copyRule in
      let copyRule := match jget "domain_suffix" rule with
                      | Some suffixes => jset "domain_suffix" suffixes copyRule
                      | None => copyRule
                      end in
      [JObj (if vpn then copyRule
             else jset "strategy" (JStr "prefer_ipv4") (jset "server" (JStr "direct-dns") copyRule))]
  end.

Section Build.
Context {RT : GoRuntime} {IDNA : Idna} {ED : Ed25519}.

(** [addIPackets]: in some order of the map. *)
Definition addIPackets (values : option (gmap gostring gostring)) (target : fields_t) : fields_t :=
  fold_left (λ target kv, if snd kv =?s [] then target else jset (ToLower (fst kv)) (JStr (snd kv)) target)
    (match values with Some m => iterate (map_to_list m) | None => [] end) target.

Definition addBool (key value : gostring) (target : fields_t) : fields_t :=
  if value =?s [] then target
  else jset key (JBool (match ParseAWGBool value with Ret b => b | _ => false end)) target.

Definition awgEndpoint (config : Config) : outcome fields_t :=
  _ ← ValidateAWG config;
  let i := Iface config in
  _ ← fail_if (length (Addresses i) =? 0)%nat (err "smart mode requires at least one interface address");
  _ ← fail_if (length (Peers config) =? 0)%nat (err "smart mode requires at least one peer");
  peers ← mapM_outcome peer_object (Peers config);
  let endpoint := mkmap [
    ("type", JStr "awg"); ("tag", JStr "awg-out"); ("useIntegratedTun", JBool false);
    ("private_key", JStr (Key_String (PrivateKey i))); ("address", JStrs (ipcidrs (Addresses i)));
    ("mtu", JInt (firstNonZeroMTU config)); ("peers", JArr peers)] in
  let endpoint := addUint16 "jc" (JunkPacketCount i) endpoint in
  let endpoint := addUint16 "jmin" (JunkPacketMinSize i) endpoint in
  let endpoint := addUint16 "jmax" (JunkPacketMaxSize i) endpoint in
  let endpoint := addUint16 "s1" (InitPacketJunkSize i) endpoint in
  let endpoint := addUint16 "s2" (ResponsePacketJunkSize i) endpoint in
  let endpoint := addUint16 "s3" (CookieReplyPacketJunkSize i) endpoint in
  let endpoint := addUint16 "s4" (TransportPacketJunkSize i) endpoint in
  let endpoint := addString "h1" (InitPacketMagicHeader i) endpoint in
  let endpoint := addString "h2" (ResponsePacketMagicHeader i) endpoint in
  let endpoint := addString "h3" (UnderloadPacketMagicHeader i) endpoint in
  let endpoint := addString "h4" (TransportPacketMagicHeader i) endpoint in
  let endpoint := if Key_IsZero (HeaderProtectionKey i) then endpoint
                  else jset "header_protection_key" (JStr (Key_String (HeaderProtectionKey i))) endpoint in
  let endpoint := addString "content_padding_addition" (ContentPaddingAddition i) endpoint in
  let endpoint := addString "rekey_after_time" (RekeyAfterTime i) endpoint in
  let endpoint := addString "rekey_timeout" (RekeyTimeout i) endpoint in
  let endpoint := addString "reject_after_time" (RejectAfterTime i) endpoint in
  let endpoint := addString "keepalive_timeout" (KeepaliveTimeout i) endpoint in
  let endpoint := addString "max_handshake_attempts" (MaxHandshakeAttempts i) endpoint in
  let endpoint := addBool "random_trailers" (RandomTrailers i) endpoint in
  let endpoint := addBool "disable_cookies" (DisableCookies i) endpoint in
  Ret (addIPackets (IPackets i) endpoint).

Definition regional_rules (settings : RoutingSettings) (service : Service) : list json :=
  let outbound := if ServiceUsesVPN settings (ServiceID service) then "awg-out" else "direct" in
  let domains := Domains service ++ map (λ s, TrimPrefix s ".") (DomainSuffixes service) in
  (if (0 <? length (ProcessNames service))%nat
   then [route outbound [("process_name", JStrs (ProcessNames service))]] else [])
  ++ [route outbound [("domain", JStrs domains); ("domain_suffix", JStrs (DomainSuffixes service))]].

Definition regionalRuleObjects (settings : RoutingSettings) : list json :=
  concat (map (regional_rules settings) RegionalServices).

Definition serviceRuleObjects (now : Z) (settings : RoutingSettings) (outbound : gostring) : list json :=
  service_rules (SelectedServices now settings) outbound.

Definition policyDNSRules (settings : RoutingSettings) (vpnServer vpnStrategy : gostring) : list json :=
  concat (map (λ rule, dns_rule vpnServer vpnStrategy (customRuleObject rule) (Target rule =?s TargetVPN))
            (filter (λ rule, Enabled rule = true ∧ Kind rule = RuleDomain) (CustomRules settings)))
  ++ concat (map (λ rule, dns_rule vpnServer vpnStrategy rule (is_vpn_object rule)) (regionalRuleObjects settings)).

(** The route rules of [BuildConfig], in their order. *)
Definition route_rules (now : Z) (settings : RoutingSettings) (families : profileFamilies) : list json :=
  [mkobj [("action", JStr "sniff"); ("timeout", JStr "300ms")];
   mkobj [("protocol", JStr "dns"); ("action", JStr "hijack-dns")]]
  ++ map customRuleObject (filter (λ r, Enabled r = true) (CustomRules settings))
  ++ regionalRuleObjects settings
  ++ [route "direct" [("ip_cidr", JStrs localCIDRs)]]
  ++ (if SMode settings =?s ModeSelected then
        serviceRuleObjects now settings "awg-out"
        ++ [route "awg-out" [("domain", JStrs ["raw.githubusercontent.com"; "github.com"])]]
      else
        (if fam_ipv4 families then [] else [mkobj [("ip_version", JInt 4); ("action", JStr "reject")]])
        ++ (if fam_ipv6 families then [] else [mkobj [("ip_version", JInt 6); ("action", JStr "reject")]])).

Definition final_outbound (settings : RoutingSettings) : gostring :=
  if SMode settings =?s ModeSelected then "direct" else "awg-out".

(** The value that [BuildConfig] marshals. *)
Definition box_config (settings : RoutingSettings) (families : profileFamilies) (endpoint : fields_t)
    (servers dnsRules rules : list json) (finalDNS : gostring) : json := mkobj [
  ("log", mkobj [("level", JStr "info"); ("timestamp", JBool true)]);
  ("dns", mkobj [
     ("servers", JArr servers);
     ("rules", match dnsRules with [] => JNull | _ => JArr dnsRules end);
     ("independent_cache", JBool true); ("final", JStr finalDNS);
     ("strategy", JStr (dnsStrategy families)); ("reverse_mapping", JBool true); ("cache_capacity", JInt 4096)]);
  ("endpoints", JArr [JObj endpoint]);
  ("inbounds", JArr [mkobj [
     ("type", JStr "tun"); ("tag", JStr "tun-in"); ("interface_name", JStr TunInterfaceName);
     ("address", JStrs tunAddresses); ("mtu", JInt 1400); ("auto_route", JBool true); ("strict_route", JBool true);
     ("stack", JStr "mixed"); ("endpoint_independent_nat", JBool true)]]);
  ("outbounds", JArr [mkobj [
     ("type", JStr "direct"); ("tag", JStr "direct");
     ("domain_resolver", mkobj [("server", JStr "direct-dns"); ("strategy", JStr "prefer_ipv4")])]]);
  ("route", mkobj [
     ("default_domain_resolver", JStr finalDNS); ("rules", JArr rules);
     ("final", JStr (final_outbound settings)); ("auto_detect_interface", JBool true)])].

Definition no_family : goerror :=
  err "smart mode requires an IPv4 or IPv6 default AllowedIPs route with a matching interface address".

(** [servers[0]] panics on an empty slice. *)
Definition build_value (cat : catalog_state) (now : Z) (config : Config) (settings : RoutingSettings) : outcome json :=
  settings ← Normalized cat now settings;
  endpoint ← awgEndpoint config;
  let families := detectProfileFamilies config in
  _ ← fail_if (negb (fam_ipv4 families) && negb (fam_ipv6 families)) no_family;
  let servers := dnsServers config families in
  match servers with
  | [] => Panic
  | (finalDNS, _) :: _ =>
      let endpoint := if fam_ipv4 families
        then jset "tcp_ipv4_fallback_resolver" (JStr (fallback_resolver finalDNS servers)) endpoint
        else endpoint in
      let dnsRules := policyDNSRules settings finalDNS (dnsStrategy families) in
      let serverObjects := map (dns_object "awg-out") servers
        ++ [mkobj [("type", JStr "local"); ("tag", JStr "direct-dns"); ("detour", JStr "direct"); ("prefer_go", JBool true)]] in
      Ret (box_config settings families endpoint serverObjects dnsRules
             (route_rules now settings families) finalDNS)
  end.

Definition BuildConfig (cat : catalog_state) (now : Z) (config : Config) (settings : RoutingSettings) : outcome gostring :=
  MarshalIndent 0 <$> build_value cat now config settings.
End Build.

(** ** The diagnostic listener *)

(** Decoding into [any] turns a number into a [float64]: the text [Marshal]
    prints for the float64 nearest to a literal, [None] when it is out of range. *)
Class Float64 := float64_text : gostring → option gostring.

Section Probe.
Context {F64 : Float64}.

Fixpoint any_of_tree (t : jtree) : option json :=
  match t with
  | TNull => Some JNull
  | TBool b => Some (JBool b)
  | TNum lit => JNum <$> float64_text lit
  | TStr s => Some (JStr s)
  | TArr l =>
      (fix elems l := match l with
         | [] => Some (JArr [])
         | t :: l => v ← any_of_tree t; r ← elems l; match r with JArr vs => Some (JArr (v :: vs)) | _ => None end
         end) l
  | TObj l =>
      (fix members l acc := match l with
         | [] => Some (JObj acc)
         | (k, _, t) :: l => v ← any_of_tree t; members l (jset k v acc)
         end) l []
  end.

(** [json.Unmarshal] into a [map[string]any]; [null] leaves the map nil. *)
Definition unmarshal_map (data : gostring) : outcome fields_t :=
  t ← or_fail (decode_tree data) (json_error "invalid input");
  v ← or_fail (any_of_tree t) (json_error "cannot unmarshal number");
  match v with JObj l => Ret l | JNull => Ret [] | _ => type_error end.

Definition probe_inbound (port : Z) (password : gostring) : json := mkobj [
  ("type", JStr "socks"); ("tag", JStr "pinus-probe"); ("listen", JStr "127.0.0.1"); ("listen_port", JInt port);
  ("users", JArr [mkobj [("username", JStr "pinus-probe"); ("password", JStr password)]])].

Definition probe_rule : json := mkobj [
  ("inbound", JStrs ["pinus-probe"]); ("action", JStr "route"); ("outbound", JStr "awg-out")].

Definition add_diagnostic (root : fields_t) (port : Z) (password : gostring) : outcome fields_t :=
  match assoc_str "inbounds" root with
  | Some (JArr inbounds) =>
      let root := jset "inbounds" (JArr (inbounds ++ [probe_inbound port password])) root in
      match assoc_str "route" root with
      | Some (JObj route) =>
          match assoc_str "rules" route with
          | Some (JArr rules) => Ret (jset "route" (JObj (jset "rules" (JArr (probe_rule :: rules)) route)) root)
          | _ => Fail (err "missing rules")
          end
      | _ => Fail (err "missing routes")
      end
  | _ => Fail (err "missing inbounds")
  end.

Definition AddDiagnosticInbound (config : gostring) (port : Z) (password : gostring) : outcome gostring :=
  _ ← fail_if ((port <? 1) || (port >? 65535) || (length password <? 32)%nat) (err "invalid diagnostic listener");
  root ← unmarshal_map config;
  root ← add_diagnostic root port password;
  Ret (MarshalIndent 0 (JObj root)).
End Probe.
