(* ===== verification/SmartExplain.v ===== *)
(** * The route explanation ([client/smart/explain.go])

    [ExplainRoute] predicts, from the settings alone, where a connection will
    go and which rule decides it. *)
From S2P Require Import Prelude GoStrings GoStrconv GoNet GoPath AwgValidation SmartRules SmartCatalog SmartSettings SmartConfig.

Record RouteQuery := mkQuery { QApplication : gostring; QDomain : gostring; QIP : gostring }.

Record RouteExplanation := mkExplanation {
  ETarget : RouteTarget;
  ERule : gostring;
  Detail : gostring;
  MatchedRules : list gostring;
}.

Definition RouteExplanation_String (e : RouteExplanation) : gostring :=
  let target := if ETarget e =?s TargetDirect then "напрямую" else "через VPN" in
  let text := "Ожидаемый маршрут: " ++ target ++ [x0a] ++ "Причина: " ++ ERule e ++ [x0a] ++ Detail e in
  let text := if (1 <? length (MatchedRules e))%nat
    then text ++ [x0a] ++ "Также совпали, но имеют меньший приоритет: " ++ Join (tail (MatchedRules e)) ", "
    else text in
  text ++ [x0a; x0a]
  ++ "Это расчёт по настройкам; фактический трафик не проверялся. Для доменных правил движку необходимо определить домен соединения.".

(** The closure [match]: the first match decides, later ones are listed. *)
Definition add_match (result : RouteExplanation) (target : RouteTarget) (name detail : gostring) : RouteExplanation :=
  match MatchedRules result with
  | [] => mkExplanation target name detail [name]
  | l => mkExplanation (ETarget result) (ERule result) (Detail result) (l ++ [name])
  end.

Section Explain.
Context {RT : GoRuntime} {IDNA : Idna} {ED : Ed25519}.

Definition domainMatches (domain rule : gostring) : bool :=
  let rule := TrimPrefix (TrimSuffix (ToLower rule) ".") "." in
  (domain =?s rule) || HasSuffix domain ("." ++ rule).

(** The normalised query: application, domain, address. *)
Record query := mkNQuery { q_app : gostring; q_domain : gostring; q_ip : option IP }.

Definition rule_matches (q : query) (rule : CustomRule) : bool :=
  if Kind rule =?s RuleApplication then
    if is_path (Value rule) then EqualFold (Clean (q_app q)) (Clean (Value rule))
    else EqualFold (Base (q_app q)) (Value rule)
  else if Kind rule =?s RuleDomain then
    negb (q_domain q =?s []) && domainMatches (q_domain q) (Value rule)
  else if Kind rule =?s RuleCIDR then
    match ParseCIDR (Value rule), q_ip q with
    | Some (_, network), Some ip => IPNet_Contains network ip
    | _, _ => false
    end
  else false.

Definition service_matches (q : query) (service : Service) : bool :=
  existsb (λ name, EqualFold (Base (q_app q)) name) (ProcessNames service)
  || existsb (λ domain, q_domain q =?s domain) (Domains service)
  || existsb (λ suffix, negb (q_domain q =?s []) && domainMatches (q_domain q) suffix) (DomainSuffixes service).

Definition explain_custom (q : query) (result : RouteExplanation) (rule : CustomRule) : RouteExplanation :=
  if Enabled rule && rule_matches q rule
  then add_match result (Target rule) (RuleName rule) ("Пользовательское правило: " ++ Value rule)
  else result.

Definition explain_regional (q : query) (settings : RoutingSettings) (result : RouteExplanation) (service : Service)
    : RouteExplanation :=
  if service_matches q service then
    add_match result (if ServiceUsesVPN settings (ServiceID service) then TargetVPN else TargetDirect)
      (ServiceName service) ("Каталог " ++ RegionalCatalogRevision ++ "; VK выше общей российской группы")
  else result.

(** The first local network that contains the address; [ParseCIDR] of the
    built-in list cannot fail. *)
Definition local_cidr (ip : IP) : option gostring :=
  List.find (λ cidr, match ParseCIDR cidr with Some (_, n) => IPNet_Contains n ip | None => false end) localCIDRs.

Definition explain_local (q : query) (result : RouteExplanation) : RouteExplanation :=
  match q_ip q ≫= local_cidr with
  | Some cidr => add_match result TargetDirect "Локальная сеть" cidr
  | None => result
  end.

Definition explain_selected (q : query) (result : RouteExplanation) (service : Service) : RouteExplanation :=
  if service_matches q service
  then add_match result TargetVPN (ServiceName service) "Подписанный или встроенный каталог сервисов"
  else result.

Definition explain_updates (q : query) (result : RouteExplanation) : RouteExplanation :=
  if (q_domain q =?s "github.com") || (q_domain q =?s "raw.githubusercontent.com")
  then add_match result TargetVPN "Обновления пресетов" "Служебное правило" else result.

Definition initial_explanation (settings : RoutingSettings) : RouteExplanation :=
  if SMode settings =?s ModeSelected then mkExplanation TargetDirect "Не входит в выбранное для VPN" [] []
  else mkExplanation TargetVPN "Весь интернет через VPN" [] [].

(** The matches, on normalised settings and query. *)
Definition explain (now : Z) (settings : RoutingSettings) (q : query) : RouteExplanation :=
  let result := initial_explanation settings in
  let result := fold_left (explain_custom q) (CustomRules settings) result in
  let result := fold_left (explain_regional q settings) RegionalServices result in
  let result := explain_local q result in
  if SMode settings =?s ModeSelected then
    explain_updates q (fold_left (explain_selected q) (SelectedServices now settings) result)
  else result.

Definition normalize_query (q : RouteQuery) : outcome query :=
  let app := Trim (TrimSpace (QApplication q)) [x22] in
  domain ← (if QDomain q =?s [] then Ret [] else normalizeDomain (QDomain q));
  let ip := ParseIP (TrimSpace (QIP q)) in
  let no_ip := match ip with None => true | Some _ => false end in
  _ ← fail_if (negb (QIP q =?s []) && no_ip) (err "некорректный IP-адрес");
  _ ← fail_if ((app =?s []) && (domain =?s []) && no_ip) (err "укажи приложение, домен или IP");
  Ret (mkNQuery app domain ip).

Definition ExplainRoute (cat : catalog_state) (now : Z) (settings : RoutingSettings) (q : RouteQuery)
    : outcome RouteExplanation :=
  settings ← Normalized cat now settings;
  q ← normalize_query q;
  Ret (explain now settings q).
End Explain.
