(* ===== verification/SmartPolicy.v ===== *)
(** * What the routing settings promise

    [policy] is the promise, in terms of a connection's process, domain and
    address.  The engine that runs the generated configuration is outside the
    repository: [Class Engine] states the documented meaning of the rules that
    [BuildConfig] generates and leaves its comparison of processes open.
    [explicit] is the order in which rules decide, for any notion of a match:
    [policy] uses it with the engine's comparisons, the explanation of
    [ExplainRoute] with Go's comparisons. *)
From S2P Require Import Prelude GoStrings GoStrconv GoNet GoPath GoJson TunnelName SmartRules SmartCatalog SmartSettings SmartConfig SmartExplain.

Local Open Scope Z_scope.

Inductive decision := Outbound (tag : gostring) | Reject.

#[export] Instance decision_eq_dec : EqDecision decision.
Proof. solve_decision. Defined.

Definition target_outbound (t : RouteTarget) : gostring := if t =?s TargetVPN then "awg-out" else "direct".

Definition orelse {A} (a b : option A) : option A := match a with Some _ => a | None => b end.

Definition first_some {A} (l : list (option A)) : option A := foldr orelse None l.

(** ** The engine *)

Definition domain_listed (q : query) (domains suffixes : list gostring) : bool :=
  negb (q_domain q =?s [])
  && (existsb (λ d, q_domain q =?s d) domains || existsb (λ s, HasSuffix (q_domain q) s) suffixes).

Definition address_listed (q : query) (cidrs : list gostring) : bool :=
  match q_ip q with
  | Some ip => existsb (λ c, match ParseCIDR c with Some (_, n) => IPNet_Contains n ip | None => false end) cidrs
  | None => false
  end.

Definition ip_version_is (q : query) (v : Z) : bool :=
  match q_ip q with Some ip => (if is_v4 ip then 4 else 6) =? v | None => false end.

(** A suffix that begins with a dot; the engine reads other suffixes differently. *)
Definition dotted (s : gostring) : Prop := HasPrefix s "." = true.

(** [engine_matches rule q]: does the rule match a connection that came in
    through the TUN interface and is not DNS?  [process_name_is app n] and
    [process_path_is app p] are the engine's comparison of the process of the
    connection with one listed name or path; nothing is said of how it treats
    case or the form of a path.  The fields of a rule are alternatives of one
    kind, so a rule matches when one listed value does. *)
Class Engine := {
  engine_matches : json → query → bool;
  process_name_is : gostring → gostring → bool;
  process_path_is : gostring → gostring → bool;
  match_domains : ∀ o ds ss q, Forall dotted ss →
    engine_matches (route o [("domain", JStrs ds); ("domain_suffix", JStrs ss)]) q = domain_listed q ds ss;
  match_domain : ∀ o ds q, engine_matches (route o [("domain", JStrs ds)]) q = domain_listed q ds [];
  match_addresses : ∀ o cs q, engine_matches (route o [("ip_cidr", JStrs cs)]) q = address_listed q cs;
  match_process_name : ∀ o ns q,
    engine_matches (route o [("process_name", JStrs ns)]) q = existsb (process_name_is (q_app q)) ns;
  match_process_path : ∀ o ps q,
    engine_matches (route o [("process_path", JStrs ps)]) q = existsb (process_path_is (q_app q)) ps;
  match_ip_version : ∀ v q,
    engine_matches (mkobj [("ip_version", JInt v); ("action", JStr "reject")]) q = ip_version_is q v;
  match_dns : ∀ q, engine_matches (mkobj [("protocol", JStr "dns"); ("action", JStr "hijack-dns")]) q = false;
}.

(** ** What a rule and a service cover *)

(** The names of a service: its domains and the roots of its suffixes. *)
Definition service_domains (s : Service) : list gostring :=
  Domains s ++ map (λ x, TrimPrefix x ".") (DomainSuffixes s).

Section Covers.
Context {RT : GoRuntime} {EN : Engine}.

(** An application rule covers the processes the engine takes for its value; a
    domain rule its domain and the subdomains; a network rule its addresses. *)
Definition rule_covers (q : query) (rule : CustomRule) : bool :=
  if Kind rule =?s RuleApplication then
    if is_path (Value rule) then process_path_is (q_app q) (Value rule) else process_name_is (q_app q) (Value rule)
  else if Kind rule =?s RuleDomain then
    negb (q_domain q =?s []) && ((q_domain q =?s Value rule) || HasSuffix (q_domain q) ("." ++ Value rule))
  else if Kind rule =?s RuleCIDR then
    match ParseCIDR (Value rule), q_ip q with
    | Some (_, network), Some ip => IPNet_Contains network ip
    | _, _ => false
    end
  else false.

(** A service covers its processes, its domains, and for each suffix the root
    and the names below it. *)
Definition service_covers (q : query) (service : Service) : bool :=
  existsb (process_name_is (q_app q)) (ProcessNames service)
  || domain_listed q (service_domains service) (DomainSuffixes service).
End Covers.

(** ** The promise *)

Section Policy.
Context {RT : GoRuntime} {IDNA : Idna} {ED : Ed25519}.

(** What a rule and a service match, as the engine or the explanation sees it. *)
Variable rule_m : query → CustomRule → bool.
Variable service_m : query → Service → bool.

Definition custom_verdict (q : query) (rule : CustomRule) : option RouteTarget :=
  if Enabled rule && rule_m q rule then Some (Target rule) else None.

Definition regional_verdict (settings : RoutingSettings) (q : query) (service : Service) : option RouteTarget :=
  if service_m q service
  then Some (if ServiceUsesVPN settings (ServiceID service) then TargetVPN else TargetDirect) else None.

Definition local_verdict (q : query) : option RouteTarget :=
  match q_ip q ≫= local_cidr with Some _ => Some TargetDirect | None => None end.

Definition is_update_domain (q : query) : bool :=
  (q_domain q =?s "github.com") || (q_domain q =?s "raw.githubusercontent.com").

Definition selected_verdict (now : Z) (settings : RoutingSettings) (q : query) : option RouteTarget :=
  if existsb (service_m q) (SelectedServices now settings) || is_update_domain q
  then Some TargetVPN else None.

(** The rule that decides, if one does: the user's rules in their order, then
    the regional groups, then the local networks, then, when only selected
    services use the VPN, those services and the update servers. *)
Definition explicit (now : Z) (settings : RoutingSettings) (q : query) : option RouteTarget :=
  orelse (first_some (map (custom_verdict q) (CustomRules settings)))
    (orelse (first_some (map (regional_verdict settings q) RegionalServices))
      (orelse (local_verdict q)
        (if SMode settings =?s ModeSelected then selected_verdict now settings q else None))).

(** A full tunnel refuses an address family the profile cannot carry. *)
Definition uncarried (families : profileFamilies) (q : query) : bool :=
  match q_ip q with
  | Some ip => if is_v4 ip then negb (fam_ipv4 families) else negb (fam_ipv6 families)
  | None => false
  end.
End Policy.

(** The decision for a connection, with the engine's own notion of a match. *)
Definition policy {RT : GoRuntime} {IDNA : Idna} {ED : Ed25519} {EN : Engine}
    (now : Z) (settings : RoutingSettings) (families : profileFamilies) (q : query) : decision :=
  match explicit rule_covers service_covers now settings q with
  | Some t => Outbound (target_outbound t)
  | None =>
      if SMode settings =?s ModeSelected then Outbound "direct"
      else if uncarried families q then Reject else Outbound "awg-out"
  end.

(** ** What the engine does with a list of rules *)

(** What a matching rule does; sniffing goes on to the next rule. *)
Definition rule_action (rule : json) : option decision :=
  match jget "action" rule with
  | Some (JStr a) =>
      if a =?s "route" then
        match jget "outbound" rule with Some (JStr o) => Some (Outbound o) | _ => None end
      else if a =?s "reject" then Some Reject else None
  | _ => None
  end.

Definition engine_verdict `{Engine} (q : query) (rule : json) : option decision :=
  if engine_matches rule q then rule_action rule else None.

Definition engine_decides `{Engine} (rules : list json) (final : gostring) (q : query) : decision :=
  default (Outbound final) (first_some (map (engine_verdict q) rules)).

(** ** The engine's DNS rules *)

Definition dns_shape (server strategy : gostring) (domains suffixes : list gostring) : json := mkobj [
  ("action", JStr "route"); ("server", JStr server); ("strategy", JStr strategy);
  ("domain", JStrs domains); ("domain_suffix", JStrs suffixes)].

(** [dns_matches rule name]: does the rule match a query for this name? *)
Class DnsEngine := {
  dns_matches : json → gostring → bool;
  match_dns_domains : ∀ server strategy ds ss name, Forall dotted ss →
    dns_matches (dns_shape server strategy ds ss) name = domain_listed (mkNQuery [] name None) ds ss;
}.

Definition dns_verdict `{DnsEngine} (name : gostring) (rule : json) : option gostring :=
  if dns_matches rule name then match jget "server" rule with Some (JStr s) => Some s | _ => None end else None.

(** The tag of the server that answers a query. *)
Definition dns_decides `{DnsEngine} (rules : list json) (final name : gostring) : gostring :=
  default final (first_some (map (dns_verdict name) rules)).

(** ** First matches *)

Lemma orelse_none_r {A} (a : option A) : orelse a None = a.
Proof. by destruct a. Qed.

Lemma orelse_assoc {A} (a b c : option A) : orelse (orelse a b) c = orelse a (orelse b c).
Proof. by destruct a. Qed.

Lemma first_some_cons {A} (a : option A) l : first_some (a :: l) = orelse a (first_some l).
Proof. reflexivity. Qed.

Lemma first_some_one {A} (a : option A) : first_some [a] = a.
Proof. by destruct a. Qed.

Lemma first_some_app {A} (l k : list (option A)) :
  first_some (l ++ k) = orelse (first_some l) (first_some k).
Proof. induction l as [|a l IH]; simpl; [done|]. by rewrite IH, orelse_assoc. Qed.

Lemma first_some_None {A} (l : list (option A)) : first_some l = None ↔ Forall (λ a, a = None) l.
Proof.
  induction l as [|[a|] l IH]; simpl; [done| |].
  - split; [done|]. intros H. by inversion H.
  - rewrite IH. split; [by constructor|]. intros H. by inversion H.
Qed.

Lemma first_some_Some {A B} (f : B → option A) l a :
  first_some (map f l) = Some a → ∃ x, x ∈ l ∧ f x = Some a.
Proof.
  induction l as [|x l IH]; simpl; [done|]. destruct (f x) as [b|] eqn:E; simpl.
  - intros [= ->]. exists x. split; [set_solver|done].
  - intros (y & Hy & Hf)%IH. exists y. split; [set_solver|done].
Qed.

Lemma fmap_orelse {A B} (f : A → B) (a b : option A) : f <$> orelse a b = orelse (f <$> a) (f <$> b).
Proof. by destruct a. Qed.

Lemma fmap_first_some {A B C} (f : A → B) (g : C → option A) l :
  f <$> first_some (map g l) = first_some (map (λ x, f <$> g x) l).
Proof. induction l as [|x l IH]; simpl; [done|]. by rewrite fmap_orelse, IH. Qed.

Lemma first_some_ext {A B} (f g : B → option A) l :
  (∀ x, x ∈ l → f x = g x) → first_some (map f l) = first_some (map g l).
Proof.
  induction l as [|x l IH]; intros H; simpl; [done|].
  rewrite (H x ltac:(set_solver)), IH; [done|]. set_solver.
Qed.

(** ** The explanation records the first match *)

Definition verdict_of (e : RouteExplanation) : option RouteTarget :=
  match MatchedRules e with [] => None | _ => Some (ETarget e) end.

(** [e] results from [e0] by matches whose first target is [v]. *)
Definition explains (e0 e : RouteExplanation) (v : option RouteTarget) : Prop :=
  verdict_of e = v ∧ (v = None → e = e0).

Lemma explains_add e0 e v t n d : explains e0 e v → explains e0 (add_match e t n d) (orelse v (Some t)).
Proof.
  intros [He Hn]. unfold explains, add_match, verdict_of in *.
  destruct (MatchedRules e) as [|m ms] eqn:E; subst v; simpl; [done|]. by destruct (ms ++ [n]).
Qed.

Lemma explains_fold {A} (f : RouteExplanation → A → RouteExplanation) (g : A → option RouteTarget) e0 l :
  (∀ e v x, explains e0 e v → explains e0 (f e x) (orelse v (g x))) →
  ∀ e v, explains e0 e v → explains e0 (fold_left f l e) (orelse v (first_some (map g l))).
Proof.
  intros Hf. induction l as [|x l IH]; intros e v He; simpl; [by rewrite orelse_none_r|].
  rewrite <- orelse_assoc. by apply IH, Hf.
Qed.

Lemma explains_target e0 e v : explains e0 e v → ETarget e = default (ETarget e0) v.
Proof.
  intros [<- Hn]. unfold verdict_of in *. destruct (MatchedRules e); [|done]. simpl. by rewrite Hn.
Qed.

Section Facts.
Context {RT : GoRuntime} {IDNA : Idna} {ED : Ed25519}.

Lemma explain_verdict now settings q :
  explains (initial_explanation settings) (explain now settings q) (explicit rule_matches service_matches now settings q).
Proof.
  unfold explain, explicit. set (e0 := initial_explanation settings).
  assert (H0 : explains e0 e0 None).
  { unfold explains, verdict_of, e0, initial_explanation. by destruct (SMode settings =?s ModeSelected). }
  assert (Hc : ∀ e v x, explains e0 e v → explains e0 (explain_custom q e x) (orelse v (custom_verdict rule_matches q x))).
  { intros e v x He. unfold explain_custom, custom_verdict. destruct (_ && _).
    - by apply explains_add. - by rewrite orelse_none_r. }
  assert (Hr : ∀ e v x, explains e0 e v →
    explains e0 (explain_regional q settings e x) (orelse v (regional_verdict service_matches settings q x))).
  { intros e v x He. unfold explain_regional, regional_verdict. destruct (service_matches q x).
    - by apply explains_add. - by rewrite orelse_none_r. }
  apply (explains_fold _ _ _ (CustomRules settings) Hc) in H0.
  apply (explains_fold _ _ _ RegionalServices Hr) in H0. simpl in H0.
  set (e1 := fold_left (explain_regional q settings) _ _) in *.
  set (v1 := orelse (first_some (map (custom_verdict rule_matches q) _)) _) in H0.
  assert (H1 : explains e0 (explain_local q e1) (orelse v1 (local_verdict q))).
  { unfold explain_local, local_verdict. destruct (q_ip q ≫= local_cidr).
    - by apply explains_add. - by rewrite orelse_none_r. }
  rewrite <- !orelse_assoc. fold v1. destruct (SMode settings =?s ModeSelected); [|by rewrite orelse_none_r].
  pose (sv x := if service_matches q x then Some TargetVPN else None).
  assert (Hs : ∀ e v x, explains e0 e v → explains e0 (explain_selected q e x) (orelse v (sv x))).
  { intros e v x He. unfold explain_selected, sv. destruct (service_matches q x).
    - by apply explains_add. - by rewrite orelse_none_r. }
  apply (explains_fold _ _ _ (SelectedServices now settings) Hs) in H1.
  set (e2 := fold_left _ _ (explain_local q e1)) in *. unfold explain_updates, selected_verdict.
  assert (Hex : first_some (map sv (SelectedServices now settings))
    = if existsb (service_matches q) (SelectedServices now settings) then Some TargetVPN else None).
  { generalize (SelectedServices now settings). intros l. unfold sv.
    induction l as [|x l IH]; simpl; [done|]. rewrite IH. by destruct (service_matches q x). }
  rewrite Hex in H1. fold (is_update_domain q). destruct (is_update_domain q).
  - apply (explains_add _ _ _ TargetVPN "Обновления пресетов" "Служебное правило") in H1.
    rewrite orelse_assoc in H1. rewrite orb_true_r. by destruct (existsb _ _).
  - by rewrite orb_false_r.
Qed.
End Facts.
