(* ===== verification/SmartPolicyFacts.v ===== *)
(** * The generated rules implement the policy

    Evaluated by first match, the rules of [BuildConfig] decide what [policy]
    says, for all settings in normal form: rules of a known kind and services
    whose suffixes begin with a dot.  For names without a dot at their ends the
    explanation's comparison of domains is the engine's. *)
From S2P Require Import Prelude GoStrings GoStrconv GoNet GoPath GoJson TunnelName AwgValidation SmartRules SmartCatalog SmartUpdate SmartSettings SmartConfig SmartExplain SmartPolicy.

Local Open Scope Z_scope.

(** Lower-case ASCII without a dot at either end. *)
Definition plain_domain (d : gostring) : bool :=
  forallb (λ b, is_ascii b && Byte.eqb (lower_byte b) b) d
  && negb (HasPrefix d ".") && negb (HasSuffix d ".") && negb (d =?s []).

Definition plain_suffix (s : gostring) : bool := HasPrefix s "." && plain_domain (TrimPrefix s ".").

Definition plain_service (s : Service) : bool :=
  forallb (λ d, negb (d =?s [])) (Domains s) && forallb plain_suffix (DomainSuffixes s).

Definition known_kind (k : RuleKind) : bool :=
  (k =?s RuleApplication) || (k =?s RuleDomain) || (k =?s RuleCIDR).

Definition plain_rule (r : CustomRule) : bool :=
  known_kind (Kind r) && (negb (Kind r =?s RuleDomain) || plain_domain (Value r)).

Lemma existsb_In {A} (p : A → bool) l : existsb p l = true ↔ ∃ x, x ∈ l ∧ p x = true.
Proof.
  rewrite existsb_exists. split; intros (x & Hx & Hp); exists x; (split; [|done]); by apply list_elem_of_In.
Qed.

Lemma existsb_ext_in {A} (p q : A → bool) l : (∀ x, x ∈ l → p x = q x) → existsb p l = existsb q l.
Proof.
  induction l as [|x l IH]; intros H; simpl; [done|]. rewrite (H x ltac:(set_solver)), IH; [done|]. set_solver.
Qed.

Lemma existsb_map {A B} (f : A → B) p l : existsb p (map f l) = existsb (λ x, p (f x)) l.
Proof. induction l; simpl; [done|]. by f_equal. Qed.

Lemma existsb_orb {A} (p q : A → bool) l : existsb (λ x, p x || q x) l = existsb p l || existsb q l.
Proof.
  induction l as [|x l IH]; simpl; [done|]. rewrite IH.
  by destruct (p x), (q x), (existsb p l), (existsb q l).
Qed.

Lemma existsb_none {A} (p : A → bool) l : (∀ x, x ∈ l → p x = false) → existsb p l = false.
Proof.
  induction l as [|x l IH]; intros H; simpl; [done|]. rewrite (H x ltac:(set_solver)), IH; [done|]. set_solver.
Qed.

Lemma TrimPrefix_app p s : TrimPrefix (p ++ s) p = s.
Proof.
  unfold TrimPrefix. rewrite (proj2 (HasPrefix_spec (p ++ s) p)) by eauto. apply drop_app_length.
Qed.

Lemma TrimPrefix_no p s : HasPrefix s p = false → TrimPrefix s p = s.
Proof. unfold TrimPrefix. by intros ->. Qed.

Lemma TrimSuffix_no p s : HasSuffix s p = false → TrimSuffix s p = s.
Proof. unfold TrimSuffix. by intros ->. Qed.

Lemma HasPrefix_TrimPrefix s p : HasPrefix s p = true → s = p ++ TrimPrefix s p.
Proof. intros (t & ->)%HasPrefix_spec. by rewrite TrimPrefix_app. Qed.

Lemma ToLower_plain {RT : GoRuntime} d :
  forallb (λ b, is_ascii b && Byte.eqb (lower_byte b) b) d = true → ToLower d = d.
Proof.
  intros H. rewrite ToLower_ascii.
  - induction d as [|b d IH]; simpl in *; [done|]. apply andb_true_iff in H as [Hb Hd].
    rewrite IH by done. apply andb_true_iff in Hb as [_ Hb].
    by destruct (byte_eqb_spec (lower_byte b) b) as [->|].
  - eapply GoNet.forallb_impl; [|exact H]. intros b Hb. by apply andb_true_iff in Hb as [? _].
Qed.

(** ** Matching of domains *)

Section Domains.
Context {RT : GoRuntime}.

Lemma domainMatches_plain d r : plain_domain r = true →
  domainMatches d r = (d =?s r) || HasSuffix d ("." ++ r).
Proof.
  unfold plain_domain. intros H. breflect. unfold domainMatches.
  by rewrite ToLower_plain, TrimSuffix_no, TrimPrefix_no.
Qed.

Lemma ToLower_dot r : forallb (λ b, is_ascii b && Byte.eqb (lower_byte b) b) r = true → ToLower ("." ++ r) = "." ++ r.
Proof. intros H. by apply ToLower_plain. Qed.

Lemma HasSuffix_cons_dot r : HasSuffix r "." = false → HasSuffix ("." ++ r) "." = true → r = [].
Proof.
  intros H (t & Ht)%HasSuffix_spec. destruct r as [|b r] using rev_ind; [done|]. clear IHr.
  rewrite app_assoc in Ht. apply app_inj_tail in Ht as [_ ->].
  rewrite (proj2 (HasSuffix_spec (r ++ ["."%byte]) ".")) in H; [done|]. by exists r.
Qed.

Lemma domainMatches_suffix d s : plain_suffix s = true →
  domainMatches d s = (d =?s TrimPrefix s ".") || HasSuffix d s.
Proof.
  unfold plain_suffix. intros [Hp Hd]%andb_true_iff. apply HasPrefix_TrimPrefix in Hp.
  set (r := TrimPrefix s ".") in *. rewrite Hp.
  unfold plain_domain in Hd. breflect. unfold domainMatches.
  rewrite ToLower_dot by done.
  rewrite (TrimSuffix_no "." ("." ++ r)).
  - by rewrite TrimPrefix_app.
  - destruct (HasSuffix ("." ++ r) ".") eqn:E; [|done]. apply HasSuffix_cons_dot in E; [congruence|done].
Qed.
End Domains.

Lemma domain_listed_false q ds ss : q_domain q = [] → domain_listed q ds ss = false.
Proof. unfold domain_listed. by intros ->. Qed.

(** ** Shape of the rules *)

Lemma rule_action_route o c :
  jget "action" (route o c) = Some (JStr "route") → jget "outbound" (route o c) = Some (JStr o) →
  rule_action (route o c) = Some (Outbound o).
Proof. unfold rule_action. by intros -> ->. Qed.

Lemma custom_shape rule : known_kind (Kind rule) = true →
  customRuleObject rule = route (target_outbound (Target rule))
    (if Kind rule =?s RuleApplication then
       [(if is_path (Value rule) then "process_path" else "process_name", JStrs [Value rule])]
     else if Kind rule =?s RuleDomain then [("domain", JStrs [Value rule]); ("domain_suffix", JStrs ["." ++ Value rule])]
     else [("ip_cidr", JStrs [Value rule])]).
Proof.
  unfold known_kind, customRuleObject, target_outbound.
  destruct (Kind rule =?s RuleApplication); [|destruct (Kind rule =?s RuleDomain); [|destruct (Kind rule =?s RuleCIDR)]];
    intros Hk; try discriminate Hk;
    destruct (Target rule =?s TargetVPN); try destruct (is_path (Value rule)); reflexivity.
Qed.

(** ** Collected names of the selected services *)

Lemma elem_of_add_new l x y : y ∈ add_new l x ↔ y ∈ l ∨ y = x.
Proof. unfold add_new. case_bool_decide; set_solver. Qed.

Lemma elem_of_fold_add_new k l y : y ∈ fold_left add_new k l ↔ y ∈ l ∨ y ∈ k.
Proof.
  revert l. induction k as [|x k IH]; intros l; simpl; [set_solver|]. rewrite IH, elem_of_add_new. set_solver.
Qed.

(** The empty root of the suffix "." is left out; it could match no name. *)
Lemma fold_add_suffix k ds ss :
  ∃ ds' ss', fold_left add_suffix k (ds, ss) = (ds', ss')
    ∧ (∀ y, y ≠ [] → y ∈ ds' ↔ y ∈ ds ∨ y ∈ map (λ x, TrimPrefix x ".") k) ∧ (∀ y, y ∈ ss' ↔ y ∈ ss ∨ y ∈ k).
Proof.
  revert ds ss. induction k as [|x k IH]; intros ds ss; cbn [fold_left map].
  - exists ds, ss. set_solver.
  - unfold add_suffix at 2. cbn zeta.
    edestruct IH as (ds' & ss' & E & Hd & Hs). exists ds', ss'. split; [exact E|].
    split; intros y; [intros Hy; rewrite Hd by done|rewrite Hs, elem_of_add_new; set_solver].
    destruct (str_eqb_spec (TrimPrefix x ".") []) as [->|]; [set_solver|rewrite elem_of_add_new; set_solver].
Qed.

Lemma fold_add_service l ps ds ss :
  ∃ ps' ds' ss', fold_left add_service l (ps, ds, ss) = (ps', ds', ss')
    ∧ (∀ y, y ∈ ps' ↔ y ∈ ps ∨ ∃ s, s ∈ l ∧ y ∈ ProcessNames s)
    ∧ (∀ y, y ≠ [] → y ∈ ds' ↔ y ∈ ds ∨ ∃ s, s ∈ l ∧ y ∈ service_domains s)
    ∧ (∀ y, y ∈ ss' ↔ y ∈ ss ∨ ∃ s, s ∈ l ∧ y ∈ DomainSuffixes s).
Proof.
  revert ps ds ss. induction l as [|s l IH]; intros ps ds ss; cbn [fold_left].
  - exists ps, ds, ss. set_solver.
  - unfold add_service at 2.
    destruct (fold_add_suffix (DomainSuffixes s) (fold_left add_new (Domains s) ds) ss)
      as (ds1 & ss1 & -> & Hd1 & Hs1).
    destruct (IH (fold_left add_new (ProcessNames s) ps) ds1 ss1) as (ps' & ds' & ss' & E & Hp & Hd & Hs').
    exists ps', ds', ss'. split; [exact E|]. split; [|split]; intros y.
    + rewrite Hp, elem_of_fold_add_new. set_solver.
    + intros Hy. rewrite Hd, Hd1, elem_of_fold_add_new by done. unfold service_domains. set_solver.
    + rewrite Hs', Hs1. set_solver.
Qed.

Definition dotted_service (s : Service) : Prop := Forall dotted (DomainSuffixes s).

Lemma plain_dotted s : plain_service s = true → dotted_service s.
Proof.
  intros [_ H]%andb_true_iff. apply Forall_forall. intros x Hx. rewrite forallb_forall in H.
  apply list_elem_of_In in Hx. by apply H, andb_true_iff in Hx as [? _].
Qed.

Lemma regional_plain : Forall (λ s, plain_service s = true) RegionalServices.
Proof. repeat constructor; vm_compute; reflexivity. Qed.

Section EngineFacts.
Context {RT : GoRuntime} {IDNA : Idna} {ED : Ed25519} {EN : Engine}.

Lemma custom_engine q rule : known_kind (Kind rule) = true →
  engine_verdict q (customRuleObject rule)
  = if rule_covers q rule then Some (Outbound (target_outbound (Target rule))) else None.
Proof.
  intros Hk. rewrite custom_shape by done. unfold engine_verdict, rule_covers.
  destruct (Kind rule =?s RuleApplication) eqn:Ea.
  - destruct (is_path (Value rule)) eqn:Epath.
    + rewrite match_process_path. simpl. rewrite orb_false_r. by destruct (process_path_is _ _).
    + rewrite match_process_name. simpl. rewrite orb_false_r. by destruct (process_name_is _ _).
  - destruct (Kind rule =?s RuleDomain) eqn:Ed.
    + rewrite match_domains by (repeat constructor). unfold domain_listed. simpl. rewrite !orb_false_r.
      by destruct (_ && _).
    + unfold known_kind in Hk. rewrite Ea, Ed in Hk. simpl in Hk. rewrite Hk.
      rewrite match_addresses. unfold address_listed. simpl.
      destruct (ParseCIDR (Value rule)) as [[? ?]|], (q_ip q); simpl; rewrite ?orb_false_r;
        by try destruct (IPNet_Contains _ _).
Qed.

Lemma regional_engine settings q s : dotted_service s →
  first_some (map (engine_verdict q) (regional_rules settings s))
  = (λ t, Outbound (target_outbound t)) <$> regional_verdict service_covers settings q s.
Proof.
  intros Hs. unfold regional_verdict, service_covers.
  unfold regional_rules. fold (service_domains s). set (o := if ServiceUsesVPN settings (ServiceID s) then _ else _).
  assert (Hd : engine_verdict q (route o [("domain", JStrs (service_domains s)); ("domain_suffix", JStrs (DomainSuffixes s))])
    = if domain_listed q (service_domains s) (DomainSuffixes s) then Some (Outbound o) else None).
  { unfold engine_verdict. by rewrite match_domains. }
  assert (Ho : o = target_outbound (if ServiceUsesVPN settings (ServiceID s) then TargetVPN else TargetDirect)).
  { unfold o. by destruct (ServiceUsesVPN _ _). }
  assert (Hp : engine_verdict q (route o [("process_name", JStrs (ProcessNames s))])
    = if existsb (process_name_is (q_app q)) (ProcessNames s) then Some (Outbound o) else None).
  { unfold engine_verdict. by rewrite match_process_name. }
  destruct (ProcessNames s) as [|n ns]; cbn [length Nat.ltb Nat.leb map app first_some foldr existsb orb].
  - rewrite Hd, orelse_none_r. destruct (domain_listed _ _ _); simpl; by rewrite ?Ho.
  - rewrite Hd, Hp, orelse_none_r. cbn [existsb].
    destruct (process_name_is (q_app q) n || _), (domain_listed _ _ _); simpl; by rewrite ?Ho.
Qed.

Lemma regional_dotted : Forall dotted_service RegionalServices.
Proof. repeat constructor. Qed.

Lemma first_some_concat {A} (ls : list (list (option A))) : first_some (concat ls) = first_some (map first_some ls).
Proof. induction ls as [|l ls IH]; simpl; [done|]. by rewrite first_some_app, IH. Qed.

Lemma regionals_engine settings q :
  first_some (map (engine_verdict q) (regionalRuleObjects settings))
  = (λ t, Outbound (target_outbound t)) <$> first_some (map (regional_verdict service_covers settings q) RegionalServices).
Proof.
  unfold regionalRuleObjects. rewrite concat_map, first_some_concat, !map_map, fmap_first_some.
  apply first_some_ext. intros s Hs. apply regional_engine.
  eapply Forall_forall in Hs; [exact Hs|apply regional_dotted].
Qed.

Lemma local_engine q :
  engine_verdict q (route "direct" [("ip_cidr", JStrs localCIDRs)])
  = (λ t, Outbound (target_outbound t)) <$> local_verdict q.
Proof.
  unfold engine_verdict, local_verdict. rewrite match_addresses.
  change (rule_action (route "direct" [("ip_cidr", JStrs localCIDRs)])) with (Some (Outbound "direct")).
  unfold address_listed. destruct (q_ip q) as [ip|]; [|done].
  change (Some ip ≫= local_cidr) with (local_cidr ip). unfold local_cidr. generalize localCIDRs as l. intros l.
  destruct (find _ l) as [c|] eqn:E.
  - apply find_some in E as [Hin Hc]. rewrite (proj2 (existsb_exists _ _)); [done|eauto].
  - destruct (existsb _ l) eqn:E2; [|done]. apply existsb_exists in E2 as (c & Hin & Hc).
    pose proof (find_none _ _ E c Hin) as Hn. simpl in Hn. by rewrite Hc in Hn.
Qed.

(** A list with the members of the lists of [l] satisfies what one of them does. *)
Lemma existsb_union {A B} (p : A → bool) (f : B → list A) (l : list B) (k : list A) :
  (∀ y, y ∈ k ↔ ∃ s, s ∈ l ∧ y ∈ f s) → existsb p k = existsb (λ s, existsb p (f s)) l.
Proof.
  intros H. apply eq_true_iff_eq. rewrite !existsb_In. setoid_rewrite existsb_In. naive_solver.
Qed.

Lemma domain_listed_union q (l : list Service) ds ss :
  (∀ y, y ≠ [] → y ∈ ds ↔ ∃ s, s ∈ l ∧ y ∈ service_domains s) → (∀ y, y ∈ ss ↔ ∃ s, s ∈ l ∧ y ∈ DomainSuffixes s) →
  domain_listed q ds ss = existsb (λ s, domain_listed q (service_domains s) (DomainSuffixes s)) l.
Proof.
  intros Hd Hs. unfold domain_listed.
  destruct (str_eqb_spec (q_domain q) []) as [|Hne]; cbn [negb andb]; [symmetry; by apply existsb_none|].
  rewrite (existsb_union _ _ _ _ Hs), existsb_orb. f_equal.
  apply eq_true_iff_eq. rewrite !existsb_In. setoid_rewrite existsb_In. split.
  - intros (y & Hy & E). assert (y ≠ []) by (apply str_eqb_true in E; congruence).
    apply Hd in Hy as (s & ? & ?); [|done]. exists s. eauto.
  - intros (s & Hin & y & Hy & E). assert (y ≠ []) by (apply str_eqb_true in E; congruence).
    exists y. split; [|done]. apply Hd; eauto.
Qed.

Lemma services_engine q l : Forall dotted_service l →
  first_some (map (engine_verdict q) (service_rules l "awg-out"))
  = if existsb (service_covers q) l then Some (Outbound "awg-out") else None.
Proof.
  intros Hl. unfold service_rules.
  destruct (fold_add_service l [] [] []) as (ps & ds & ss & -> & Hp & Hd & Hs).
  setoid_rewrite elem_of_nil in Hp. setoid_rewrite elem_of_nil in Hd. setoid_rewrite elem_of_nil in Hs.
  assert (Hdot : Forall dotted ss).
  { apply Forall_forall. intros y [[]|(s & Hin & Hy)]%Hs. rewrite Forall_forall in Hl.
    by apply (proj1 (Forall_forall _ _) (Hl s Hin)). }
  assert (Hm : existsb (service_covers q) l = existsb (process_name_is (q_app q)) ps || domain_listed q ds ss).
  { rewrite (existsb_union _ ProcessNames l ps) by naive_solver.
    rewrite (domain_listed_union q l ds ss) by naive_solver. by rewrite <- existsb_orb. }
  rewrite Hm, map_app, first_some_app.
  assert (E1 : first_some (map (engine_verdict q)
      (if (0 <? length ps)%nat then [route "awg-out" [("process_name", JStrs ps)]] else []))
    = if existsb (process_name_is (q_app q)) ps then Some (Outbound "awg-out") else None).
  { destruct ps as [|n ps]; [done|]. cbn [length Nat.ltb Nat.leb map first_some foldr].
    unfold engine_verdict. rewrite match_process_name, orelse_none_r. by destruct (existsb _ _). }
  assert (E2 : first_some (map (engine_verdict q)
      (if (0 <? length ds)%nat || (0 <? length ss)%nat
       then [route "awg-out" [("domain", JStrs ds); ("domain_suffix", JStrs ss)]] else []))
    = if domain_listed q ds ss then Some (Outbound "awg-out") else None).
  { assert (Hnil : ds = [] ∧ ss = [] ∨ (0 <? length ds)%nat || (0 <? length ss)%nat = true)
      by (destruct ds, ss; simpl; auto).
    destruct Hnil as [[-> ->]| ->].
    - unfold domain_listed. simpl. by rewrite andb_false_r.
    - cbn [map first_some foldr]. unfold engine_verdict. rewrite match_domains, orelse_none_r by done.
      by destruct (domain_listed _ _ _). }
  rewrite E1, E2. destruct (existsb (process_name_is (q_app q)) ps), (domain_listed q ds ss); reflexivity.
Qed.

Lemma customs_engine q rules : Forall (λ r, known_kind (Kind r) = true) rules →
  first_some (map (engine_verdict q) (map customRuleObject (filter (λ r, Enabled r = true) rules)))
  = (λ t, Outbound (target_outbound t)) <$> first_some (map (custom_verdict rule_covers q) rules).
Proof.
  induction 1 as [|r rules Hr Hrs IH]; [done|]. rewrite filter_cons.
  rewrite (map_cons (custom_verdict rule_covers q)), first_some_cons, fmap_orelse, <- IH. unfold custom_verdict.
  destruct (Enabled r) eqn:E; [rewrite decide_True by done|rewrite decide_False by done; done].
  rewrite !map_cons, first_some_cons, custom_engine by done. cbn [andb]. by destruct (rule_covers q r).
Qed.

Lemma updates_engine q :
  engine_verdict q (route "awg-out" [("domain", JStrs ["raw.githubusercontent.com"; "github.com"])])
  = if is_update_domain q then Some (Outbound "awg-out") else None.
Proof.
  unfold engine_verdict. rewrite match_domain. unfold domain_listed, is_update_domain.
  cbn [existsb]. rewrite !orb_false_r.
  destruct (str_eqb_spec (q_domain q) []) as [->|]; [reflexivity|].
  rewrite orb_comm. by destruct (_ || _).
Qed.

Lemma families_engine families q :
  first_some (map (engine_verdict q)
    ((if fam_ipv4 families then [] else [mkobj [("ip_version", JInt 4); ("action", JStr "reject")]])
     ++ (if fam_ipv6 families then [] else [mkobj [("ip_version", JInt 6); ("action", JStr "reject")]])))
  = if uncarried families q then Some Reject else None.
Proof.
  assert (H : ∀ v, engine_verdict q (mkobj [("ip_version", JInt v); ("action", JStr "reject")])
    = if ip_version_is q v then Some Reject else None).
  { intros v. unfold engine_verdict. rewrite match_ip_version. by destruct (ip_version_is q v). }
  unfold uncarried, ip_version_is in *.
  destruct (fam_ipv4 families), (fam_ipv6 families); cbn [app map first_some foldr]; rewrite ?H;
    destruct (q_ip q) as [ip|]; try done; by destruct (is_v4 ip).
Qed.

(** First-match evaluation of the generated rules is the policy. *)
Lemma route_rules_policy now settings families q :
  Forall (λ r, known_kind (Kind r) = true) (CustomRules settings) →
  Forall dotted_service (SelectedServices now settings) →
  engine_decides (route_rules now settings families) (final_outbound settings) q
  = policy now settings families q.
Proof.
  intros Hr Hs. unfold engine_decides, route_rules, policy, explicit.
  rewrite !map_app, !first_some_app.
  assert (H0 : first_some (map (engine_verdict q)
    [mkobj [("action", JStr "sniff"); ("timeout", JStr "300ms")];
     mkobj [("protocol", JStr "dns"); ("action", JStr "hijack-dns")]]) = None).
  { cbn [map first_some foldr]. unfold engine_verdict. rewrite match_dns. by destruct (engine_matches _ q). }
  rewrite H0, (customs_engine q _ Hr), regionals_engine.
  cbn [map first_some foldr orelse]. rewrite local_engine, orelse_none_r.
  assert (Hlast : first_some (map (engine_verdict q)
      (if SMode settings =?s ModeSelected then
         serviceRuleObjects now settings "awg-out"
         ++ [route "awg-out" [("domain", JStrs ["raw.githubusercontent.com"; "github.com"])]]
       else
         (if fam_ipv4 families then [] else [mkobj [("ip_version", JInt 4); ("action", JStr "reject")]])
         ++ (if fam_ipv6 families then [] else [mkobj [("ip_version", JInt 6); ("action", JStr "reject")]])))
    = if SMode settings =?s ModeSelected
      then (λ t, Outbound (target_outbound t)) <$> selected_verdict service_covers now settings q
      else if uncarried families q then Some Reject else None).
  { destruct (SMode settings =?s ModeSelected); [|apply families_engine].
    rewrite map_app, first_some_app. unfold serviceRuleObjects. rewrite services_engine by done.
    cbn [map first_some foldr]. rewrite updates_engine, orelse_none_r. unfold selected_verdict.
    by destruct (existsb _ _), (is_update_domain q). }
  rewrite Hlast. unfold final_outbound.
  destruct (first_some (map (custom_verdict rule_covers q) _)); [done|].
  destruct (first_some (map (regional_verdict _ _ q) _)); [done|]. destruct (local_verdict q); [done|]. simpl.
  destruct (SMode settings =?s ModeSelected); [by destruct (selected_verdict service_covers now settings q)|].
  by destruct (uncarried families q).
Qed.
End EngineFacts.

(** ** The services in force *)

Section Selected.
Context {RT : GoRuntime} {IDNA : Idna} {ED : Ed25519}.

(** What verification leaves: dotted suffixes and no empty domain. *)
Definition sound_service (s : Service) : Prop := dotted_service s ∧ Forall (λ d, d ≠ []) (Domains s).

Lemma normalizeDomain_not_empty v d : normalizeDomain v = Ret d → d ≠ [].
Proof.
  unfold normalizeDomain. intros H. ret_inv H. injection H as <-. intros ->. discriminate.
Qed.

Lemma validatePresetDomains_not_empty l : validatePresetDomains l false = Ret tt → Forall (λ d, d ≠ []) l.
Proof.
  unfold validatePresetDomains. generalize (∅ : gset gostring).
  induction l as [|v l IH]; intros seen H; [done|]. cbn [fold_outcome] in H.
  cbn [andb negb fail_if mbind outcome_bind] in H.
  destruct (normalizeDomain _) as [n|e|] eqn:En; [|done..]. cbn [map_error mbind outcome_bind] in H.
  destruct (_ || _) eqn:E; [done|]. apply orb_false_iff in E as [E _]. apply negb_false_iff, str_eqb_true in E.
  cbn in H. constructor; [|by apply (IH ({[v]} ∪ seen))]. subst n. by eapply normalizeDomain_not_empty.
Qed.

Lemma validate_service_sound acc s acc' : validate_service acc s = Ret acc' → sound_service s.
Proof.
  destruct acc as [seen total]. unfold validate_service. intros H. ret_inv H.
  repeat match goal with u : unit |- _ => destruct u end.
  split; [by apply validatePresetDomains_dots|by apply validatePresetDomains_not_empty].
Qed.

Lemma validate_services_sound l acc acc' : fold_outcome validate_service acc l = Ret acc' → Forall sound_service l.
Proof.
  revert acc. induction l as [|s l IH]; intros acc H; [done|]. cbn [fold_outcome] in H.
  apply bind_ret in H as (acc1 & H1 & H). constructor; [by eapply validate_service_sound|by eapply IH].
Qed.

Lemma selected_sound now s : Forall sound_service (SelectedServices now s).
Proof.
  unfold SelectedServices. destruct (verifiedSettingsCatalog _ _) as [l|e|] eqn:E; [|done..].
  apply Forall_forall. intros x [_ Hx]%list_elem_of_filter. revert x Hx. apply Forall_forall.
  unfold verifiedSettingsCatalog in E. destruct (CatalogEnvelope s).
  - injection E as <-. unfold BuiltinServiceCatalog, builtinServiceCatalog.
    repeat constructor; discriminate.
  - apply bind_ret in E as (key & _ & E). apply bind_ret in E as (p & Hp & E). injection E as <-.
    unfold verifyPresetEnvelope in Hp. ret_inv Hp. unfold ValidatePresetPayload in Hp. ret_inv Hp.
    apply bind_ret in Hp as ([seen total] & Hf & Hp). ret_inv Hp. injection Hp as <-.
    by eapply validate_services_sound.
Qed.

Lemma selected_dotted now s : Forall dotted_service (SelectedServices now s).
Proof. eapply Forall_impl; [apply selected_sound|]. by intros x [? _]. Qed.
End Selected.

(** ** The explanation's comparisons *)

Section Agreement.
Context {RT : GoRuntime} {IDNA : Idna} {ED : Ed25519} {EN : Engine}.

(** Outside applications, the explanation and the engine match a rule alike,
    when a domain has no dot at an end. *)
Lemma rule_agrees q r : Kind r ≠ RuleApplication → (Kind r = RuleDomain → plain_domain (Value r) = true) →
  rule_covers q r = rule_matches q r.
Proof.
  intros Ha Hd. unfold rule_covers, rule_matches. destruct (str_eqb_spec (Kind r) RuleApplication); [done|].
  destruct (str_eqb_spec (Kind r) RuleDomain) as [E|]; [|done]. by rewrite domainMatches_plain by auto.
Qed.

Lemma service_agrees q s :
  sound_service s → forallb plain_suffix (DomainSuffixes s) = true →
  (∀ n, n ∈ ProcessNames s → process_name_is (q_app q) n = EqualFold (Base (q_app q)) n) →
  service_covers q s = service_matches q s.
Proof.
  intros [_ Hd] Hs Hn. unfold service_covers, service_matches, domain_listed, service_domains.
  rewrite (existsb_ext_in (process_name_is (q_app q)) (λ n, EqualFold (Base (q_app q)) n)) by auto.
  rewrite <- orb_assoc. f_equal. rewrite existsb_app, existsb_map.
  rewrite (existsb_ext_in (λ suffix, negb (q_domain q =?s []) && domainMatches (q_domain q) suffix)
             (λ x, negb (q_domain q =?s []) && ((q_domain q =?s TrimPrefix x ".") || HasSuffix (q_domain q) x))).
  2: { intros x Hx. rewrite domainMatches_suffix; [done|].
       rewrite forallb_forall in Hs. by apply Hs, list_elem_of_In. }
  destruct (str_eqb_spec (q_domain q) []) as [E|E]; simpl.
  - rewrite E, (existsb_none (λ d, [] =?s d)), (existsb_none (λ _ : gostring, false)); [done|done|].
    intros x Hx. rewrite Forall_forall in Hd. specialize (Hd x Hx). by destruct x.
  - by rewrite existsb_orb, orb_assoc.
Qed.

(** When every rule and service in force is matched alike, the same target is
    reached. *)
Lemma explicit_ext rm1 rm2 sm1 sm2 now s q :
  (∀ r, r ∈ CustomRules s → Enabled r = true → rm1 q r = rm2 q r) →
  (∀ x, x ∈ RegionalServices → sm1 q x = sm2 q x) →
  (SMode s = ModeSelected → ∀ x, x ∈ SelectedServices now s → sm1 q x = sm2 q x) →
  explicit rm1 sm1 now s q = explicit rm2 sm2 now s q.
Proof.
  intros Hr Hg Hs. unfold explicit. f_equal; [|f_equal; [|f_equal]].
  - apply first_some_ext. intros r Hin. unfold custom_verdict. destruct (Enabled r) eqn:E; [|done]. by rewrite Hr.
  - apply first_some_ext. intros x Hin. unfold regional_verdict. by rewrite Hg.
  - destruct (str_eqb_spec (SMode s) ModeSelected) as [E|]; [|done]. unfold selected_verdict.
    by rewrite (existsb_ext_in (sm1 q) (sm2 q)) by auto.
Qed.
End Agreement.

(** ** DNS rules *)

Section DnsFacts.
Context {RT : GoRuntime} {IDNA : Idna} {ED : Ed25519} {DE : DnsEngine}.

Definition target_server (final : gostring) (t : RouteTarget) : gostring :=
  if t =?s TargetVPN then final else "direct-dns".

Lemma dns_custom final strategy rule : Kind rule = RuleDomain →
  ∃ st, dns_rule final strategy (customRuleObject rule) (Target rule =?s TargetVPN)
  = [dns_shape (target_server final (Target rule)) st [Value rule] ["." ++ Value rule]].
Proof.
  intros Hk. rewrite custom_shape by (unfold known_kind; by rewrite Hk). rewrite Hk. unfold target_server.
  destruct (Target rule =?s TargetVPN); eexists; reflexivity.
Qed.

Lemma dns_verdict_shape server strategy ds ss name : Forall dotted ss →
  dns_verdict name (dns_shape server strategy ds ss)
  = if domain_listed (mkNQuery [] name None) ds ss then Some server else None.
Proof. intros Hs. unfold dns_verdict. rewrite match_dns_domains by done. by destruct (domain_listed _ ds ss). Qed.

Lemma dns_customs final strategy q rules :
  q_domain q ≠ [] → Forall (λ r, plain_rule r = true) rules →
  Forall (λ r, Enabled r = true → Kind r ≠ RuleDomain → rule_matches q r = false) rules →
  first_some (map (dns_verdict (q_domain q))
    (concat (map (λ rule, dns_rule final strategy (customRuleObject rule) (Target rule =?s TargetVPN))
               (filter (λ r, Enabled r = true ∧ Kind r = RuleDomain) rules))))
  = target_server final <$> first_some (map (custom_verdict rule_matches q) rules).
Proof.
  intros Hd Hp. induction Hp as [|r rules Hr Hrs IH]; intros Hk; [done|].
  inversion_clear Hk as [|?? Hkr Hks]. rewrite (map_cons (custom_verdict rule_matches q)), first_some_cons, fmap_orelse.
  rewrite <- (IH Hks). rewrite filter_cons. unfold custom_verdict at 1.
  destruct (decide (Enabled r = true ∧ Kind r = RuleDomain)) as [[He Hkind]|Hno].
  - rewrite map_cons. cbn [concat]. rewrite map_app, first_some_app.
    destruct (dns_custom final strategy r Hkind) as [st ->]. cbn [map]. rewrite first_some_one, dns_verdict_shape by (repeat constructor).
    rewrite He. unfold rule_matches. rewrite Hkind. cbn [str_eqb andb].
    unfold plain_rule in Hr. rewrite Hkind in Hr. cbn [negb orb] in Hr. apply andb_true_iff in Hr as [_ Hr].
    change (RuleDomain =?s RuleApplication) with false. change (RuleDomain =?s RuleDomain) with true. cbv iota.
    cbn in Hr. rewrite domainMatches_plain by done. unfold domain_listed. cbn [q_domain existsb].
    rewrite !orb_false_r. by destruct (negb (q_domain q =?s []) && _).
  - destruct (Enabled r) eqn:He; [|done]. rewrite Hkr; [done|done|]. intros Hkind. by apply Hno.
Qed.

Lemma dns_regional final strategy settings q s :
  q_domain q ≠ [] → plain_service s = true → existsb (λ n, EqualFold (Base (q_app q)) n) (ProcessNames s) = false →
  first_some (map (dns_verdict (q_domain q))
    (concat (map (λ rule, dns_rule final strategy rule (is_vpn_object rule)) (regional_rules settings s))))
  = target_server final <$> regional_verdict service_matches settings q s.
Proof.
  intros Hd Hs Hp. unfold regional_rules. fold (service_domains s). unfold regional_verdict.
  set (o := if ServiceUsesVPN settings (ServiceID s) then "awg-out" else "direct").
  set (t := if ServiceUsesVPN settings (ServiceID s) then TargetVPN else TargetDirect).
  assert (E : ∃ st, dns_rule final strategy
      (route o [("domain", JStrs (service_domains s)); ("domain_suffix", JStrs (DomainSuffixes s))])
      (is_vpn_object (route o [("domain", JStrs (service_domains s)); ("domain_suffix", JStrs (DomainSuffixes s))]))
    = [dns_shape (target_server final t) st (service_domains s) (DomainSuffixes s)]).
  { unfold o, t, target_server. destruct (ServiceUsesVPN _ _); eexists; reflexivity. }
  destruct E as [st E].
  assert (Hm : service_matches q s = domain_listed (mkNQuery [] (q_domain q) None) (service_domains s) (DomainSuffixes s)).
  { apply andb_true_iff in Hs as [Hds Hss]. unfold service_matches, domain_listed, service_domains. rewrite Hp.
    cbn [q_domain orb]. destruct (str_eqb_spec (q_domain q) []) as [|_]; [done|]. cbn [negb andb].
    rewrite existsb_app, existsb_map, <- orb_assoc, <- existsb_orb. f_equal.
    apply existsb_ext_in. intros x Hx. apply domainMatches_suffix.
    rewrite forallb_forall in Hss. by apply Hss, list_elem_of_In. }
  assert (Hcat : concat (map (λ rule, dns_rule final strategy rule (is_vpn_object rule))
      ((if (0 <? length (ProcessNames s))%nat then [route o [("process_name", JStrs (ProcessNames s))]] else [])
       ++ [route o [("domain", JStrs (service_domains s)); ("domain_suffix", JStrs (DomainSuffixes s))]]))
    = [dns_shape (target_server final t) st (service_domains s) (DomainSuffixes s)]).
  { rewrite map_app, concat_app. cbn [map concat]. rewrite E. by destruct (0 <? length (ProcessNames s))%nat. }
  rewrite Hcat. cbn [map]. rewrite first_some_one, dns_verdict_shape, Hm by (by apply plain_dotted).
  by destruct (domain_listed _ _ _).
Qed.

(** The server that answers for a name is the VPN's unless the first rule for
    that name routes directly. *)
Lemma policyDNSRules_spec settings final strategy q :
  q_domain q ≠ [] → Forall (λ r, plain_rule r = true) (CustomRules settings) →
  Forall (λ r, Enabled r = true → Kind r ≠ RuleDomain → rule_matches q r = false) (CustomRules settings) →
  Forall (λ s, existsb (λ n, EqualFold (Base (q_app q)) n) (ProcessNames s) = false) RegionalServices →
  dns_decides (policyDNSRules settings final strategy) final (q_domain q)
  = default final (target_server final <$>
      orelse (first_some (map (custom_verdict rule_matches q) (CustomRules settings)))
        (first_some (map (regional_verdict service_matches settings q) RegionalServices))).
Proof.
  intros Hd Hp Hk Hr. unfold dns_decides, policyDNSRules. rewrite map_app, first_some_app, fmap_orelse.
  rewrite dns_customs by done. f_equal. f_equal.
  unfold regionalRuleObjects.
  assert (Hall : ∀ l, Forall (λ s, plain_service s = true) l →
    Forall (λ s, existsb (λ n, EqualFold (Base (q_app q)) n) (ProcessNames s) = false) l →
    first_some (map (dns_verdict (q_domain q)) (concat (map (λ rule, dns_rule final strategy rule (is_vpn_object rule))
      (concat (map (regional_rules settings) l)))))
    = target_server final <$> first_some (map (regional_verdict service_matches settings q) l)).
  { induction 1 as [|s l Hs Hl IH]; intros Hn; [done|]. inversion_clear Hn as [|?? Hns Hnl].
    rewrite (map_cons (regional_verdict service_matches settings q)), first_some_cons, fmap_orelse, <- (IH Hnl).
    rewrite <- (dns_regional final strategy settings q s) by done.
    rewrite (map_cons (regional_rules settings)). cbn [concat].
    by rewrite map_app, concat_app, map_app, first_some_app. }
  apply Hall; [apply regional_plain|done].
Qed.
End DnsFacts.
