(* ===== verification/SmartSafety.v ===== *)
(** * Smart routing: no panics

    Decoding, verification, normalisation and the generation of the engine's
    configuration return, with a value or an error: the only index expression
    they contain, [servers[0]] of [BuildConfig], is in range. *)
From S2P Require Import Prelude GoStrings GoStrconv GoEncoding GoNet GoJson GoTime TunnelName AwgValidation Conf ParserSafety SmartRules SmartCatalog SmartSettings SmartConfig.

Local Open Scope Z_scope.

Lemma np_fmap {A B} (f : A → B) (m : outcome A) : no_panic m → no_panic (f <$> m).
Proof. by destruct m. Qed.

Lemma np_fold {A S} (f : S → A → outcome S) s l : (∀ s x, no_panic (f s x)) → no_panic (fold_outcome f s l).
Proof.
  intros Hf. revert s. induction l as [|x l IH]; intros s; cbn [fold_outcome]; [done|]. by apply np_bind.
Qed.

Lemma ParseUint_np s bits : no_panic (ParseUint s bits).
Proof. unfold ParseUint. auto with go. Qed.
Lemma ParseInt64_np s : no_panic (ParseInt64 s).
Proof. unfold ParseInt64. auto with go. Qed.
Lemma b64_np s : no_panic (b64_DecodeString s).
Proof. apply b64_decode_np. Qed.
#[export] Hint Resolve np_fmap np_fold ParseUint_np ParseInt64_np b64_np : go.

(** ** Decoders *)

Definition safe_decoder {A} (d : decoder A) : Prop := ∀ raw t old, no_panic (d raw t old).

Lemma dec_string_safe : safe_decoder dec_string.
Proof. intros raw [] old; done. Qed.
Lemma dec_bool_safe : safe_decoder dec_bool.
Proof. intros raw [] old; done. Qed.
Lemma dec_int_safe : safe_decoder dec_int.
Proof. intros raw [] old; cbn; auto with go; done. Qed.
Lemma dec_uint64_safe : safe_decoder dec_uint64.
Proof. intros raw [] old; cbn; auto with go; done. Qed.
Lemma dec_time_safe : safe_decoder dec_time.
Proof. intros raw [] old; cbn; auto with go; done. Qed.
Lemma dec_raw_safe : safe_decoder dec_raw.
Proof. done. Qed.

Lemma dec_slice_safe {A} (d : decoder A) zero : safe_decoder d → safe_decoder (dec_slice d zero).
Proof.
  intros Hd raw [] old; try done. cbn. apply np_fmap. revert old. intros o. generalize (default [] o). clear o.
  induction l as [|t l IH]; intros old; cbn [dec_elems]; [done|].
  apply np_bind; [apply Hd|]. intros a _. apply np_bind; [apply IH|done].
Qed.
Lemma dec_list_safe {A} (d : decoder A) zero : safe_decoder d → safe_decoder (dec_list d zero).
Proof. intros Hd raw t old. apply np_fmap. by apply dec_slice_safe. Qed.
Lemma dec_map_safe {A} (d : decoder A) zero : safe_decoder d → safe_decoder (dec_map d zero).
Proof.
  intros Hd raw [] old; try done. cbn. apply np_fold. intros m [[k r] t]. by apply np_bind.
Qed.
Lemma in_field_safe {R A} (proj : R → A) `{!Setter proj} (d : decoder A) : safe_decoder d → safe_decoder (in_field proj d).
Proof. intros Hd raw t old. by apply np_bind. Qed.

Lemma find_field_In {RT : GoRuntime} {A} key (fields : list (gostring * A)) a :
  find_field key fields = Some a → ∃ k, In (k, a) fields.
Proof.
  unfold find_field. destruct (assoc_str key fields) as [b|] eqn:E.
  - intros [= ->]. eauto using assoc_str_In.
  - destruct (find _ fields) as [[k b]|] eqn:F; [|done]. intros [= ->]. apply find_some in F as [F _]. eauto.
Qed.

Lemma dec_struct_safe {RT : GoRuntime} {A} strict (fields : list (gostring * decoder A)) :
  Forall (λ f, safe_decoder (snd f)) fields → safe_decoder (dec_struct strict fields).
Proof.
  intros Hf raw [] old; try done. cbn. apply np_fold. intros a [[k r] t].
  destruct (find_field k fields) as [d|] eqn:E; [|by destruct strict].
  apply find_field_In in E as [k' E]. rewrite Forall_forall in Hf. by apply (Hf (k', d)), list_elem_of_In.
Qed.

Lemma dec_strings_safe : safe_decoder dec_strings.
Proof. apply dec_list_safe, dec_string_safe. Qed.

#[export] Hint Resolve dec_strings_safe dec_string_safe dec_bool_safe dec_int_safe dec_uint64_safe dec_time_safe dec_raw_safe
  dec_slice_safe dec_list_safe dec_map_safe in_field_safe : go.

(** A struct decoder is safe when its fields are. *)
Ltac struct_safe :=
  apply dec_struct_safe; repeat apply Forall_cons_2; try apply Forall_nil_2; cbn [snd]; auto 6 with go.

Section Safety.
Context {RT : GoRuntime} {IDNA : Idna} {ED : Ed25519}.
Hypothesis ToASCII_np : ∀ s, no_panic (ToASCII s).
#[local] Hint Resolve ToASCII_np : go.

Lemma dec_settings_safe strict : safe_decoder (dec_settings strict).
Proof.
  struct_safe. apply in_field_safe, dec_list_safe. struct_safe.
Qed.

Lemma dec_payload_safe strict : safe_decoder (dec_payload strict).
Proof. struct_safe. apply in_field_safe, dec_list_safe. struct_safe. Qed.

Lemma decodeStrictJSON_np {A} (d : decoder A) data zero : safe_decoder d → no_panic (decodeStrictJSON d data zero).
Proof. intros Hd. unfold decodeStrictJSON. np. Qed.

Lemma normalizeDomain_np v : no_panic (normalizeDomain v).
Proof using ToASCII_np. unfold normalizeDomain. np. Qed.

Lemma normalizeCIDR_np v : no_panic (normalizeCIDR v).
Proof. unfold normalizeCIDR. np. Qed.

Lemma normalizeApplication_np v : no_panic (normalizeApplication v).
Proof. unfold normalizeApplication. np. Qed.

Lemma validatePresetText_np v lo hi : no_panic (validatePresetText v lo hi).
Proof. unfold validatePresetText. np. Qed.

Lemma validatePresetProcesses_np l : no_panic (validatePresetProcesses l).
Proof. apply np_fmap, np_fold. intros seen v. np. Qed.

Lemma validatePresetDomains_np l suffix : no_panic (validatePresetDomains l suffix).
Proof using ToASCII_np. apply np_fmap, np_fold. intros seen v. np. apply np_map_error, normalizeDomain_np. Qed.

Lemma validate_service_np acc s : no_panic (validate_service acc s).
Proof using ToASCII_np.
  unfold validate_service. destruct acc.
  np; apply np_map_error; auto using validatePresetText_np, validatePresetProcesses_np, validatePresetDomains_np.
Qed.

Lemma verifyPresetEnvelope_np data key id now : no_panic (verifyPresetEnvelope data key id now).
Proof using ToASCII_np.
  unfold verifyPresetEnvelope, ValidatePresetPayload. np.
  - apply np_map_error, decodeStrictJSON_np. struct_safe.
  - apply np_map_error, decodeStrictJSON_np, dec_payload_safe.
  - apply np_fold, validate_service_np.
Qed.

Lemma verifiedSettingsCatalog_np now e : no_panic (verifiedSettingsCatalog now e).
Proof using ToASCII_np.
  unfold verifiedSettingsCatalog, presetPublicKey. destruct e; np; auto using verifyPresetEnvelope_np.
Qed.

Lemma normalized_np rule i : no_panic (normalized rule i).
Proof using ToASCII_np.
  unfold normalized, normalizeValue. np; auto using normalizeDomain_np, normalizeCIDR_np, normalizeApplication_np.
Qed.

Lemma normalize_rules_np i ids l : no_panic (normalize_rules i ids l).
Proof using ToASCII_np.
  revert i ids. induction l as [|r l IH]; intros i ids; cbn [normalize_rules]; [done|].
  apply np_bind; [apply np_map_error, normalized_np|]. intros a _. by apply np_bind.
Qed.

Lemma Normalized_np cat now s : no_panic (Normalized cat now s).
Proof using ToASCII_np.
  unfold Normalized. do 4 (apply np_bind; [auto with go|intros _ _]). cbv zeta.
  apply np_bind; [apply verifiedSettingsCatalog_np|]. intros catalog _. apply np_bind; [apply normalize_rules_np|done].
Qed.

Lemma dnsServers_nonempty config families :
  fam_ipv4 families || fam_ipv6 families = true → dnsServers config families ≠ [].
Proof.
  unfold dnsServers. destruct (fold_left _ _ _); [|done].
  destruct (fam_ipv4 families), (fam_ipv6 families); done.
Qed.

Lemma awgEndpoint_np config : no_panic (awgEndpoint config).
Proof.
  unfold awgEndpoint. np; auto using ValidateAWG_np. apply np_mapM. intros p. unfold peer_object. np.
Qed.

Lemma build_value_np cat now config settings : no_panic (build_value cat now config settings).
Proof using ToASCII_np.
  unfold build_value. apply np_bind; [apply Normalized_np|]. intros s _.
  apply np_bind; [apply awgEndpoint_np|]. intros e _. apply np_bind; [auto with go|]. intros [] Hf%fail_if_ret.
  destruct (dnsServers config (detectProfileFamilies config)) as [|[tag a] l] eqn:E; [|done].
  exfalso. eapply dnsServers_nonempty; [|exact E]. by destruct (fam_ipv4 _), (fam_ipv6 _).
Qed.
End Safety.
