(* ===== verification/SmartTheorems.v ===== *)
(** * Smart routing: theorems

    What the settings, the generated configuration and the explanation promise,
    with an engine ([plain_engine]) and settings on which the hypotheses hold. *)
From S2P Require Import Prelude GoStrings GoStrconv GoEncoding GoNet GoPath GoJson GoTime TunnelName AwgValidation Conf SmartRules SmartCatalog SmartSettings SmartConfig SmartExplain ParserSafety SmartSafety SmartPolicy SmartPolicyFacts.

Local Open Scope Z_scope.

(** ** An engine with the documented matching *)

Definition strings_at (k : gostring) (rule : json) : list gostring :=
  match jget k rule with
  | Some (JArr l) => omap (λ v, match v with JStr s => Some s | _ => None end) l
  | _ => []
  end.

Definition has_key (k : gostring) (rule : json) : bool :=
  match jget k rule with Some _ => true | None => false end.

Section PlainEngine.
Context {RT : GoRuntime}.

Definition plain_matches (rule : json) (q : query) : bool :=
  if has_key "domain" rule || has_key "domain_suffix" rule
  then domain_listed q (strings_at "domain" rule) (strings_at "domain_suffix" rule)
  else if has_key "ip_cidr" rule then address_listed q (strings_at "ip_cidr" rule)
  else if has_key "process_name" rule
  then existsb (λ n, EqualFold (Base (q_app q)) n) (strings_at "process_name" rule)
  else if has_key "process_path" rule
  then existsb (λ p, EqualFold (Clean (q_app q)) (Clean p)) (strings_at "process_path" rule)
  else match jget "ip_version" rule with
       | Some (JNum v) => match q_ip q with
                          | Some ip => if is_v4 ip then v =?s "4" else v =?s "6"
                          | None => false
                          end
       | _ => negb (has_key "protocol" rule)
       end.

Lemma strings_of_JStrs l : omap (λ v, match v with JStr s => Some s | _ => None end) (map JStr l) = l.
Proof. induction l as [|s l IH]; [done|]. simpl. by f_equal. Qed.

Lemma Itoa_eqb n v : 0 <= v → (Itoa n =?s Itoa v) = (v =? n).
Proof.
  intros Hv. destruct (Z.eqb_spec v n) as [->|Hne]; [apply str_eqb_refl|]. apply str_eqb_false. intros Heq.
  apply Hne. destruct (Itoa_spec v Hv) as (Hd & Hval & _). rewrite <- Heq in Hd, Hval.
  destruct (Z.ltb_spec n 0) as [Hn|Hn].
  - unfold Itoa in Hd. rewrite (proj2 (Z.ltb_lt _ _) Hn) in Hd. discriminate Hd.
  - destruct (Itoa_spec n Hn) as (_ & Hn2 & _). congruence.
Qed.

#[refine] Instance plain_engine : Engine := {|
  engine_matches := plain_matches;
  process_name_is := λ app n, EqualFold (Base app) n;
  process_path_is := λ app p, EqualFold (Clean app) (Clean p);
|}.
Proof using RT.
  - intros o ds ss q _. cbv beta. unfold plain_matches, strings_at.
    change (domain_listed q (omap (λ v, match v with JStr s => Some s | _ => None end) (map JStr ds))
      (omap (λ v, match v with JStr s => Some s | _ => None end) (map JStr ss)) = domain_listed q ds ss).
    by rewrite !strings_of_JStrs.
  - intros o ds q. change (domain_listed q (omap (λ v, match v with JStr s => Some s | _ => None end) (map JStr ds)) []
      = domain_listed q ds []). by rewrite strings_of_JStrs.
  - intros o cs q. change (address_listed q (omap (λ v, match v with JStr s => Some s | _ => None end) (map JStr cs))
      = address_listed q cs). by rewrite strings_of_JStrs.
  - intros o ns q. change (existsb (λ n, EqualFold (Base (q_app q)) n)
      (omap (λ v, match v with JStr s => Some s | _ => None end) (map JStr ns)) = existsb (λ n, EqualFold (Base (q_app q)) n) ns).
    by rewrite strings_of_JStrs.
  - intros o ps q. change (existsb (λ p, EqualFold (Clean (q_app q)) (Clean p))
      (omap (λ v, match v with JStr s => Some s | _ => None end) (map JStr ps))
      = existsb (λ p, EqualFold (Clean (q_app q)) (Clean p)) ps). by rewrite strings_of_JStrs.
  - intros v q. change (match q_ip q with
      | Some ip => if is_v4 ip then Itoa v =?s Itoa 4 else Itoa v =?s Itoa 6 | None => false end = ip_version_is q v).
    unfold ip_version_is. destruct (q_ip q) as [ip|]; [|done].
    destruct (is_v4 ip); by rewrite Itoa_eqb.
  - intros q. reflexivity.
Defined.
End PlainEngine.

(** ** The generated configuration *)

Section Configuration.
Context {RT : GoRuntime} {IDNA : Idna} {ED : Ed25519}.

(** No domain rule of the settings has a dot at one of its ends. *)
Definition plain_settings (s : RoutingSettings) : bool :=
  forallb (λ r, negb (Kind r =?s RuleDomain) || plain_domain (Value r)) (CustomRules s).

(** The rules and the final outbound in a generated configuration. *)
Definition route_of (v : json) : option (list json * gostring) :=
  match jget "route" v ≫= jget "rules", jget "route" v ≫= jget "final" with
  | Some (JArr rules), Some (JStr final) => Some (rules, final)
  | _, _ => None
  end.

Lemma build_value_inv cat now config settings v :
  build_value cat now config settings = Ret v →
  ∃ s, Normalized cat now settings = Ret s
    ∧ route_of v = Some (route_rules now s (detectProfileFamilies config), final_outbound s).
Proof.
  unfold build_value. intros H. apply bind_ret in H as (s & Hs & H). exists s. split; [done|].
  apply bind_ret in H as (endpoint & _ & H). apply bind_ret in H as ([] & _ & H).
  destruct (dnsServers config _) as [|[finalDNS a] servers]; [discriminate H|]. injection H as <-.
  generalize (route_rules now s (detectProfileFamilies config)). intros rules. reflexivity.
Qed.

(** The DNS rules and the default server. *)
Definition dns_of (v : json) : option (list json * gostring) :=
  match jget "dns" v ≫= jget "rules", jget "dns" v ≫= jget "final" with
  | Some (JArr rules), Some (JStr final) => Some (rules, final)
  | _, _ => None
  end.

Lemma policyDNSRules_cons settings final strategy :
  ∃ r l, policyDNSRules settings final strategy = r :: l.
Proof.
  unfold policyDNSRules. destruct (concat (map _ (filter _ _))) as [|r l]; [|by exists r, (l ++ concat (map
    (λ rule, dns_rule final strategy rule (is_vpn_object rule)) (regionalRuleObjects settings)))].
  unfold regionalRuleObjects, RegionalServices, regionalServices, regional_rules. cbn [map concat app].
  do 2 eexists. reflexivity.
Qed.

Lemma server_tag config families tag a l :
  dnsServers config families = (tag, a) :: l → tag ≠ "direct-dns".
Proof.
  assert (H : ∀ k servers, Forall (λ s : dns_server, fst s ≠ "direct-dns") servers →
    Forall (λ s : dns_server, fst s ≠ "direct-dns") (fold_left (λ servers dns,
      if accepts families dns
      then addServer ("profile-dns-" ++ Itoa (Z.of_nat (length servers))) (IP_String dns) servers
      else servers) k servers)).
  { induction k as [|ip k IH]; intros servers Hs; cbn [fold_left]; [done|]. apply IH.
    destruct (accepts families ip); [|done]. unfold addServer. destruct (_ || _); [done|].
    apply Forall_app. split; [done|]. repeat constructor. cbn [fst]. discriminate. }
  unfold dnsServers. specialize (H (DNS (Iface config)) [] ltac:(constructor)). revert H.
  generalize (fold_left (λ servers dns,
      if accepts families dns
      then addServer ("profile-dns-" ++ Itoa (Z.of_nat (length servers))) (IP_String dns) servers
      else servers) (DNS (Iface config)) []). intros servers H.
  destruct servers as [|s servers].
  - destruct (fam_ipv4 families), (fam_ipv6 families); cbn; intros [= <- <- <-]; discriminate.
  - intros [= -> ->]. by inversion H.
Qed.

Lemma build_value_dns cat now config settings v s :
  build_value cat now config settings = Ret v → Normalized cat now settings = Ret s →
  ∃ final strategy, dns_of v = Some (policyDNSRules s final strategy, final) ∧ final ≠ "direct-dns".
Proof.
  unfold build_value. intros H Hs. rewrite Hs in H. cbn [mbind outcome_bind] in H.
  apply bind_ret in H as (endpoint & _ & H). apply bind_ret in H as ([] & _ & H).
  destruct (dnsServers config _) as [|[finalDNS a] servers] eqn:Ed; [discriminate H|]. injection H as <-.
  exists finalDNS, (dnsStrategy (detectProfileFamilies config)). split; [|by eapply server_tag].
  destruct (policyDNSRules_cons s finalDNS (dnsStrategy (detectProfileFamilies config))) as (r & l & ->). reflexivity.
Qed.

Lemma normalizeValue_kind k v w : normalizeValue k v = Ret w → known_kind k = true.
Proof. unfold normalizeValue, known_kind. destruct (k =?s _); [done|]. destruct (k =?s _); [done|]. by destruct (k =?s _). Qed.

Lemma known_rules cat now settings s :
  Normalized cat now settings = Ret s → Forall (λ r, known_kind (Kind r) = true) (CustomRules s).
Proof.
  intros ([_ _ _ _ _ Hrules] & _)%Normalized_spec. eapply Forall_impl; [exact Hrules|].
  intros r [[v Hv] _ _]. by eapply normalizeValue_kind.
Qed.

(** The engine running a generated configuration decides by the policy. *)
Lemma build_value_policy {EN : Engine} cat now config settings v s :
  build_value cat now config settings = Ret v → Normalized cat now settings = Ret s →
  ∃ rules final, route_of v = Some (rules, final)
    ∧ ∀ q, engine_decides rules final q = policy now s (detectProfileFamilies config) q.
Proof.
  intros Hv Hs. destruct (build_value_inv _ _ _ _ _ Hv) as (s1 & Hs1 & Hr).
  rewrite Hs in Hs1. injection Hs1 as <-. do 2 eexists. split; [exact Hr|]. intros q.
  apply route_rules_policy; [by eapply known_rules|apply selected_dotted].
Qed.

Lemma plain_rules cat now settings s :
  Normalized cat now settings = Ret s → plain_settings s = true →
  Forall (λ r, plain_rule r = true) (CustomRules s).
Proof.
  intros Hn Hr. apply known_rules in Hn. unfold plain_settings in Hr. rewrite forallb_forall in Hr.
  apply Forall_forall; intros x Hx. unfold plain_rule. rewrite Hr by (by apply list_elem_of_In).
  rewrite andb_true_r. by apply (proj1 (Forall_forall _ _) Hn).
Qed.

(** Why the explanation and the engine may differ on a connection: the engine
    takes the process for a rule's or a service's where [EqualFold] does not, or
    conversely; or a name in force begins or ends with a dot, or is not
    lower-case ASCII. *)
Inductive divergence {EN : Engine} (now : Z) (s : RoutingSettings) (q : query) : Prop :=
| div_application r : r ∈ CustomRules s → Enabled r = true → Kind r = RuleApplication →
    rule_covers q r ≠ rule_matches q r → divergence now s q
| div_process x n : x ∈ RegionalServices ∨ SMode s = ModeSelected ∧ x ∈ SelectedServices now s →
    n ∈ ProcessNames x → process_name_is (q_app q) n ≠ EqualFold (Base (q_app q)) n → divergence now s q
| div_domain r : r ∈ CustomRules s → Enabled r = true → Kind r = RuleDomain →
    plain_domain (Value r) = false → divergence now s q
| div_suffix x d : SMode s = ModeSelected → x ∈ SelectedServices now s → d ∈ DomainSuffixes x →
    plain_suffix d = false → divergence now s q.

Lemma service_agrees_or {EN : Engine} q x : sound_service x →
  service_covers q x = service_matches q x
  ∨ (∃ n, n ∈ ProcessNames x ∧ process_name_is (q_app q) n ≠ EqualFold (Base (q_app q)) n)
  ∨ ∃ d, d ∈ DomainSuffixes x ∧ plain_suffix d = false.
Proof.
  intros Hx.
  destruct (decide (Forall (λ n, process_name_is (q_app q) n = EqualFold (Base (q_app q)) n) (ProcessNames x))) as [Hn|Hn].
  - destruct (forallb plain_suffix (DomainSuffixes x)) eqn:Hd.
    + left. apply service_agrees; [done..|]. by apply Forall_forall.
    + right. right. apply not_true_iff_false in Hd. rewrite forallb_forall in Hd.
      destruct (decide (Exists (λ d, plain_suffix d = false) (DomainSuffixes x))) as [He|He].
      * by apply Exists_exists in He.
      * destruct Hd. intros d Hd. apply not_false_iff_true. intros Hf. apply He, Exists_exists.
        exists d. by rewrite list_elem_of_In.
  - right. left. apply not_Forall_Exists in Hn; [|intros ?; solve_decision]. by apply Exists_exists in Hn.
Qed.

Lemma regional_agrees_or {EN : Engine} q x : x ∈ RegionalServices →
  service_covers q x = service_matches q x
  ∨ ∃ n, n ∈ ProcessNames x ∧ process_name_is (q_app q) n ≠ EqualFold (Base (q_app q)) n.
Proof.
  intros Hin. assert (Hp : plain_service x = true) by (by eapply (proj1 (Forall_forall _ _) regional_plain)).
  assert (Hs : sound_service x).
  { split; [by apply plain_dotted|]. apply andb_true_iff in Hp as [Hd _]. rewrite forallb_forall in Hd.
    apply Forall_forall. intros d Hin2 ->. apply list_elem_of_In in Hin2. by specialize (Hd _ Hin2). }
  destruct (service_agrees_or q x Hs) as [|[|(d & Hd & Hn)]]; [auto..|].
  apply andb_true_iff in Hp as [_ Hp]. rewrite forallb_forall in Hp. apply list_elem_of_In in Hd.
  specialize (Hp d Hd). congruence.
Qed.

(** An element on which [p] fails, or none. *)
Lemma all_or_one {A} (P : A → Prop) (Q : A → Prop) (l : list A) :
  (∀ x, x ∈ l → P x ∨ Q x) → (∀ x, x ∈ l → P x) ∨ ∃ x, x ∈ l ∧ Q x.
Proof.
  induction l as [|x l IH]; intros H; [left; intros x Hx; by apply elem_of_nil in Hx|].
  destruct (H x ltac:(set_solver)) as [Hx|Hx]; [|right; exists x; set_solver].
  destruct IH as [Hl|(y & Hy & Hq)]; [set_solver|left; set_solver|right; exists y; set_solver].
Qed.

Lemma agree_or_diverge {EN : Engine} now s q :
  explicit rule_covers service_covers now s q = explicit rule_matches service_matches now s q
  ∨ divergence now s q.
Proof.
  destruct (all_or_one (λ r, Enabled r = true → rule_covers q r = rule_matches q r)
    (λ r, Enabled r = true ∧ rule_covers q r ≠ rule_matches q r) (CustomRules s)) as [Hr|(r & Hin & He & Hr)].
  { intros r _. destruct (decide (rule_covers q r = rule_matches q r)); [by left|].
    destruct (Enabled r); [by right|by left]. }
  2: { right. destruct (decide (Kind r = RuleApplication)) as [Hk|Hk]; [by eapply div_application|].
       destruct (decide (Kind r = RuleDomain)) as [Hd|Hd]; [|by destruct Hr; apply rule_agrees].
       destruct (plain_domain (Value r)) eqn:E; [by destruct Hr; apply rule_agrees|by eapply div_domain]. }
  destruct (all_or_one _ _ RegionalServices (regional_agrees_or q)) as [Hg|(x & Hin & n & Hn & Hne)].
  2: { right. eapply div_process; [by left|done..]. }
  destruct (decide (SMode s = ModeSelected)) as [Hm|Hm].
  2: { left. by apply explicit_ext. }
  destruct (all_or_one _ _ (SelectedServices now s)
    (λ x Hx, service_agrees_or q x (proj1 (Forall_forall _ _) (selected_sound now s) x Hx)))
    as [Hs|(x & Hin & [(n & Hn & Hne)|(d & Hd & Hne)])].
  - left. apply explicit_ext; auto.
  - right. eapply div_process; [by right|done..].
  - right. by eapply div_suffix.
Qed.

(** What sends a connection directly in a full tunnel. *)
Lemma policy_direct_causes {EN : Engine} cat settings now s families q :
  Normalized cat now settings = Ret s → SMode s = ModeAll →
  policy now s families q = Outbound "awg-out" ∨ policy now s families q = Reject
  ∨ policy now s families q = Outbound "direct"
    ∧ ((∃ r, r ∈ CustomRules s ∧ Enabled r = true ∧ Target r = TargetDirect ∧ rule_covers q r = true)
       ∨ (∃ x, x ∈ RegionalServices ∧ ServiceUsesVPN s (ServiceID x) = false ∧ service_covers q x = true)
       ∨ ∃ ip c, q_ip q = Some ip ∧ local_cidr ip = Some c).
Proof.
  intros Hs Hm. unfold policy, explicit. rewrite Hm.
  apply Normalized_spec in Hs as ([_ _ _ _ _ Hrules] & _).
  destruct (first_some (map (custom_verdict rule_covers q) _)) as [t|] eqn:E1.
  { apply first_some_Some in E1 as (r & Hin & Hv'). unfold custom_verdict in Hv'.
    destruct (Enabled r && rule_covers q r) eqn:E; [|done]. injection Hv' as <-.
    apply andb_true_iff in E as [He Hmt].
    destruct (nr_target r) as [Ht|Ht]; [by eapply (proj1 (Forall_forall _ _) Hrules)|left|right; right];
      cbn [orelse]; rewrite Ht; [reflexivity|]. split; [reflexivity|]. left. exists r. by repeat split. }
  destruct (first_some (map (regional_verdict service_covers s q) _)) as [t|] eqn:E2.
  { apply first_some_Some in E2 as (x & Hin & Hv'). unfold regional_verdict in Hv'.
    destruct (service_covers q x) eqn:E; [|done]. injection Hv' as <-.
    destruct (ServiceUsesVPN s (ServiceID x)) eqn:Eu; [left; reflexivity|right; right].
    split; [reflexivity|]. right. left. exists x. by repeat split. }
  unfold local_verdict. destruct (q_ip q) as [ip|] eqn:Eip; [|cbn; unfold uncarried; rewrite Eip; by left].
  change (Some ip ≫= local_cidr) with (local_cidr ip).
  destruct (local_cidr ip) as [c|] eqn:Ec.
  { right; right. split; [reflexivity|]. right. right. exists ip, c. by split. }
  cbn. destruct (uncarried _ q); auto.
Qed.
End Configuration.

(** C2: the configuration that [BuildConfig] generates implements the routing
    policy, for every configuration and settings it accepts and every
    connection: evaluated by first match, its route rules and final outbound
    send the connection where [policy] says, i.e. by the user's enabled rules in
    their order, then the regional groups, the local networks and the selected
    services, then the mode.  A domain rule covers the domain and its
    subdomains, a service its processes and the root and subdomains of its
    suffixes; which process a name or a path denotes is the engine's own
    comparison, left open.  Of the engine it is assumed that it reads the fields
    of a rule as documented ([Class Engine]). *)
Theorem BuildConfig_policy {RT : GoRuntime} {IDNA : Idna} {ED : Ed25519} {EN : Engine}
    cat now config settings v s :
  build_value cat now config settings = Ret v → Normalized cat now settings = Ret s →
  ∃ rules final, route_of v = Some (rules, final)
    ∧ ∀ q, engine_decides rules final q = policy now s (detectProfileFamilies config) q.
Proof. apply build_value_policy. Qed.

(** C15: [ExplainRoute] and the engine agree: for a query the explanation
    accepts, the engine running the generated rules sends the connection to the
    explained target (in full-tunnel mode it refuses one that no rule matched
    and whose address family the profile cannot carry), or there is a named
    cause ([divergence]): an enabled application rule, or a process name of a
    service in force, that the engine's process comparison and Go's [EqualFold]
    decide differently for this process; or an enabled domain rule or a suffix
    of a selected service that is not lower-case ASCII without a dot at either
    end (theorem [leading_dot_rule] shows such a difference). *)
Theorem ExplainRoute_agrees {RT : GoRuntime} {IDNA : Idna} {ED : Ed25519} {EN : Engine}
    cat now config settings v s rq q e :
  build_value cat now config settings = Ret v → Normalized cat now settings = Ret s →
  normalize_query rq = Ret q → ExplainRoute cat now settings rq = Ret e →
  ∃ rules final, route_of v = Some (rules, final) ∧
    (engine_decides rules final q
     = (if bool_decide (MatchedRules e = []) && (SMode s =?s ModeAll) && uncarried (detectProfileFamilies config) q
        then Reject else Outbound (target_outbound (ETarget e)))
     ∨ divergence now s q).
Proof.
  intros Hv Hs Hrq He. destruct (build_value_policy _ _ _ _ _ _ Hv Hs) as (rules & final & Hr & Hpol).
  exists rules, final. split; [exact Hr|]. rewrite Hpol.
  unfold ExplainRoute in He. rewrite Hs in He. cbn in He. rewrite Hrq in He. injection He as <-.
  destruct (agree_or_diverge now s q) as [Heq|]; [left|by right].
  pose proof (explain_verdict now s q) as Hx2. rewrite (explains_target _ _ _ Hx2). destruct Hx2 as [Hev _].
  unfold policy, verdict_of in *. rewrite Heq. apply Normalized_spec in Hs as ([_ Hm _ _ _ _] & _).
  destruct (explicit rule_matches _ now s q) as [t|] eqn:E.
  - rewrite bool_decide_eq_false_2; [done|]. intros Hnil. by rewrite Hnil in Hev.
  - rewrite bool_decide_eq_true_2 by (by destruct (MatchedRules _)).
    unfold initial_explanation. destruct Hm as [-> | ->]; [|done].
    simpl. by destruct (uncarried _ q).
Qed.

(** C8: a full tunnel does not leak: when the mode routes everything through
    the VPN, for every accepted configuration and settings and every connection,
    the engine sends it through the VPN or refuses it, unless an enabled direct
    rule of the user covers it, a regional group switched to direct does, or its
    address is local; and a connection that no rule of the user, no regional
    group and no local network covers is refused when the profile cannot carry
    its address family.  A process is covered when the engine's comparison says
    so ([rule_covers], [service_covers]). *)
Theorem full_tunnel_no_leak {RT : GoRuntime} {IDNA : Idna} {ED : Ed25519} {EN : Engine}
    cat now config settings v s q :
  build_value cat now config settings = Ret v → Normalized cat now settings = Ret s → SMode s = ModeAll →
  ∃ rules final, route_of v = Some (rules, final) ∧
    (engine_decides rules final q = Outbound "awg-out" ∨ engine_decides rules final q = Reject
     ∨ engine_decides rules final q = Outbound "direct"
       ∧ ((∃ r, r ∈ CustomRules s ∧ Enabled r = true ∧ Target r = TargetDirect ∧ rule_covers q r = true)
          ∨ (∃ x, x ∈ RegionalServices ∧ ServiceUsesVPN s (ServiceID x) = false ∧ service_covers q x = true)
          ∨ ∃ ip c, q_ip q = Some ip ∧ local_cidr ip = Some c))
    ∧ (Forall (λ r, Enabled r && rule_covers q r = false) (CustomRules s) →
       Forall (λ x, service_covers q x = false) RegionalServices → q_ip q ≫= local_cidr = None →
       uncarried (detectProfileFamilies config) q = true → engine_decides rules final q = Reject).
Proof.
  intros Hv Hs Hm. destruct (build_value_policy _ _ _ _ _ _ Hv Hs) as (rules & final & Hr & Hpol).
  exists rules, final. split; [exact Hr|]. rewrite Hpol. split.
  - apply (policy_direct_causes cat settings); done.
  - intros H1 H2 H3 H4. unfold policy, explicit. rewrite Hm, H4.
    rewrite (proj2 (first_some_None _)), (proj2 (first_some_None _)).
    + cbn [orelse]. unfold local_verdict. by rewrite H3.
    + apply Forall_map. eapply Forall_impl; [exact H2|]. intros x. unfold regional_verdict. by intros ->.
    + apply Forall_map. eapply Forall_impl; [exact H1|]. intros x. unfold custom_verdict. by intros ->.
Qed.

(** DNS follows the rules for domains: for a connection that no rule on
    processes or addresses matches, the name is resolved on the physical network
    exactly when the first rule for its domain, of the user or of a regional
    group, routes it directly, and through the VPN otherwise. *)
Theorem BuildConfig_dns {RT : GoRuntime} {IDNA : Idna} {ED : Ed25519} {DE : DnsEngine}
    cat now config settings v s q :
  build_value cat now config settings = Ret v → Normalized cat now settings = Ret s →
  plain_settings s = true → q_domain q ≠ [] →
  Forall (λ r, Enabled r = true → Kind r ≠ RuleDomain → rule_matches q r = false) (CustomRules s) →
  Forall (λ x, existsb (λ n, EqualFold (Base (q_app q)) n) (ProcessNames x) = false) RegionalServices →
  ∃ rules final, dns_of v = Some (rules, final) ∧ final ≠ "direct-dns" ∧
    dns_decides rules final (q_domain q)
    = match orelse (first_some (map (custom_verdict rule_matches q) (CustomRules s)))
              (first_some (map (regional_verdict service_matches s q) RegionalServices)) with
      | Some t => if t =?s TargetVPN then final else "direct-dns"
      | None => final
      end.
Proof.
  intros Hv Hs Hp Hd Hc Hr. destruct (build_value_dns _ _ _ _ _ _ Hv Hs) as (final & strategy & Hdns & Hf).
  pose proof (plain_rules _ _ _ _ Hs Hp) as Hpr. do 2 eexists. split; [exact Hdns|]. split; [exact Hf|].
  rewrite policyDNSRules_spec by done. by destruct (orelse _ _).
Qed.

(** C35: settings that [Normalized] accepts are in normal form (current
    version, one of the two modes, a known protection, at most eight valid
    fallback names, selected services without repetition and all in the
    verified catalog, every rule with a known kind and target and a normalised
    value), and their policy is the given one: same rules in the same order with
    the same kinds, targets and switches, same mode, same exceptions. *)
Theorem Normalized_normal {RT : GoRuntime} {IDNA : Idna} {ED : Ed25519} cat now s s' :
  Normalized cat now s = Ret s' →
  normal_settings now s' ∧ Forall2 same_policy (CustomRules s) (CustomRules s')
  ∧ SMode s' = NormalizeMode (SMode s) ∧ ServiceRoutes s' = ServiceRoutes s
  ∧ CatalogEnvelope s' = CatalogEnvelope s ∧ Protection s' = Protection s
  ∧ FallbackProfiles s' = FallbackProfiles s.
Proof. apply Normalized_spec. Qed.

(** [BuildConfig] returns: whatever the configuration and the settings, it
    gives the text of a configuration or an error, never a panic (its
    [servers[0]] is in range), when the IDNA conversion does not panic. *)
Theorem BuildConfig_total {RT : GoRuntime} {IDNA : Idna} {ED : Ed25519} cat now config settings :
  (∀ h, no_panic (ToASCII h)) →
  (∃ text, BuildConfig cat now config settings = Ret text)
  ∨ ∃ e, BuildConfig cat now config settings = Fail e.
Proof.
  intros H. unfold BuildConfig. pose proof (build_value_np H cat now config settings) as Hn.
  destruct (build_value cat now config settings); [left|right|done]; eauto.
Qed.

(** the identifiers of the rules need not be distinct after
    normalisation: renaming the second of two equal identifiers can produce the
    identifier of an earlier rule. *)
Theorem Normalized_duplicate_ids :
  ∃ rules s, @Normalized plain_runtime (λ h, Ret h) (λ _ _ _, false) serviceCatalogState 0
      (zeroSettings <| Version := 5 |> <| CustomRules := rules |>) = Ret s
    ∧ map ID (CustomRules s) = ["a-3"; "a"; "a-3"].
Proof.
  pose (r id := mkCustomRule id [] RuleDomain "example.com" TargetVPN true).
  exists [r "a-3"; r "a"; r "a"]. eexists. split; vm_compute; reflexivity.
Qed.

(** a domain rule with a leading dot, which the IDNA conversion lets
    through, is explained as if it covered the domain and its subdomains, while
    the generated rule lists only names that keep the dot. *)
Theorem leading_dot_rule {RT : GoRuntime} {IDNA : Idna} {ED : Ed25519} {EN : Engine} :
  ToASCII ".example.com" = Ret ".example.com" →
  let rule := mkCustomRule "r" "r" RuleDomain ".example.com" TargetVPN true in
  let q := mkNQuery [] "example.com" None in
  normalizeDomain ".example.com" = Ret ".example.com"
  ∧ rule_matches q rule = true ∧ engine_verdict q (customRuleObject rule) = None.
Proof.
  intros Ha. split; [|split].
  - unfold normalizeDomain. change (map_error (λ _, err_domain) (ToASCII ".example.com") ≫= (λ host,
      fail_if ((host =?s []) || (253 <? length host)%nat || negb (Contains host ".")) err_domain ≫= λ _,
      fail_if (match ParseIP host with Some _ => true | None => false end)
        (err "для IP-адреса выбери тип «IP / CIDR»") ≫= λ _, Ret host) = Ret ".example.com").
    rewrite Ha. vm_compute. reflexivity.
  - reflexivity.
  - rewrite custom_shape by reflexivity. unfold engine_verdict.
    change (if Kind _ =?s RuleApplication then _ else _) with
      [("domain", JStrs [".example.com"]); ("domain_suffix", JStrs ["..example.com"])].
    rewrite match_domains by (repeat constructor). reflexivity.
Qed.

(** ** A concrete setting *)

#[local] Existing Instance plain_runtime.
#[local] Existing Instance plain_engine.
#[local] Instance ascii_idna : Idna := λ s, Ret s.
#[local] Instance no_signature : Ed25519 := λ _ _ _, false.

Definition sample_config : Config :=
  let i := zeroInterface <| Addresses := [mkIPCidr [x0a; x00; x00; x02] 32] |> in
  let p := zeroPeer <| AllowedIPs := [mkIPCidr [x00; x00; x00; x00] 0] |>
                    <| PeerEndpoint := mkEndpoint "vpn.example.com" 51820 |> in
  mkConfig "home" i [p].

Definition direct_rule : CustomRule := mkCustomRule [] [] RuleDomain "Bank.Example" TargetDirect true.

Definition sample_settings : RoutingSettings :=
  zeroSettings <| Version := 5 |> <| SMode := ModeAll |> <| CustomRules := [direct_rule] |>.

Definition cat0 : catalog_state := serviceCatalogState.

(** What a computation returned, for a concrete run. *)
Definition ret_of {A} (m : outcome A) (a : A) : A := match m with Ret x => x | _ => a end.

Definition sample_value : json := ret_of (build_value cat0 0 sample_config sample_settings) JNull.
Definition sample_normal : RoutingSettings := ret_of (Normalized cat0 0 sample_settings) zeroSettings.

Lemma sample_builds : build_value cat0 0 sample_config sample_settings = Ret sample_value.
Proof. vm_compute. reflexivity. Qed.

Lemma sample_normalizes : Normalized cat0 0 sample_settings = Ret sample_normal.
Proof. vm_compute. reflexivity. Qed.


#[local] Instance plain_dns : DnsEngine.
Proof.
  refine {| dns_matches := λ rule name,
    domain_listed (mkNQuery [] name None) (strings_at "domain" rule) (strings_at "domain_suffix" rule) |}.
  intros server strategy ds ss name _.
  change (domain_listed (mkNQuery [] name None)
    (omap (λ v, match v with JStr s => Some s | _ => None end) (map JStr ds))
    (omap (λ v, match v with JStr s => Some s | _ => None end) (map JStr ss))
    = domain_listed (mkNQuery [] name None) ds ss).
  by rewrite !strings_of_JStrs.
Defined.

Definition sample_query : RouteQuery := mkQuery [] "www.bank.example" "93.184.216.34".
Definition sample_nquery : query := ret_of (normalize_query sample_query) (mkNQuery [] [] None).
Definition sample_explanation : RouteExplanation :=
  ret_of (ExplainRoute cat0 0 sample_settings sample_query) (mkExplanation [] [] [] []).

Lemma sample_plain : plain_settings sample_normal = true.
Proof. vm_compute. reflexivity. Qed.

Lemma BuildConfig_policy_witness :
  ∃ rules final, route_of sample_value = Some (rules, final) ∧ ∀ q,
    engine_decides rules final q = policy 0 sample_normal (detectProfileFamilies sample_config) q.
Proof.
  exact (BuildConfig_policy cat0 0 sample_config sample_settings _ _ sample_builds sample_normalizes).
Defined.

Lemma ExplainRoute_agrees_witness :
  ∃ rules final, route_of sample_value = Some (rules, final) ∧
    (engine_decides rules final sample_nquery
     = (if bool_decide (MatchedRules sample_explanation = []) && (SMode sample_normal =?s ModeAll)
          && uncarried (detectProfileFamilies sample_config) sample_nquery
        then Reject else Outbound (target_outbound (ETarget sample_explanation)))
     ∨ divergence 0 sample_normal sample_nquery).
Proof.
  assert (Hq : normalize_query sample_query = Ret sample_nquery) by (vm_compute; reflexivity).
  assert (He : ExplainRoute cat0 0 sample_settings sample_query = Ret sample_explanation) by (vm_compute; reflexivity).
  exact (ExplainRoute_agrees cat0 0 sample_config sample_settings _ _ sample_query _ _
    sample_builds sample_normalizes Hq He).
Defined.

(** There is no divergence for the sample settings and any process. *)
Example sample_agrees app : ~ divergence 0 sample_normal (mkNQuery app "www.bank.example" None).
Proof.
  assert (E : CustomRules sample_normal
    = [mkCustomRule "rule-1" "bank.example" RuleDomain "bank.example" TargetDirect true]) by (vm_compute; reflexivity).
  intros [r Hin _ Hk _|x n _ _ []|r Hin _ _ Hp|x d Hm _ _ _].
  - rewrite E in Hin. apply list_elem_of_singleton in Hin as ->. discriminate Hk.
  - reflexivity.
  - rewrite E in Hin. apply list_elem_of_singleton in Hin as ->. vm_compute in Hp. discriminate Hp.
  - vm_compute in Hm. discriminate Hm.
Qed.

(** The explained target of the sample query is its direct rule. *)
Example sample_explained : ETarget sample_explanation = TargetDirect ∧ ERule sample_explanation = "bank.example".
Proof. vm_compute. split; reflexivity. Qed.

(** An address outside the families of the sample profile. *)
Definition sample_v6 : query := mkNQuery [] [] (ParseIP "2001:4860::8888").

Lemma full_tunnel_no_leak_witness :
  ∃ rules final, route_of sample_value = Some (rules, final) ∧
    (engine_decides rules final sample_v6 = Outbound "awg-out" ∨ engine_decides rules final sample_v6 = Reject
     ∨ engine_decides rules final sample_v6 = Outbound "direct"
       ∧ ((∃ r, r ∈ CustomRules sample_normal ∧ Enabled r = true ∧ Target r = TargetDirect
               ∧ rule_covers sample_v6 r = true)
          ∨ (∃ x, x ∈ RegionalServices ∧ ServiceUsesVPN sample_normal (ServiceID x) = false
               ∧ service_covers sample_v6 x = true)
          ∨ ∃ ip c, q_ip sample_v6 = Some ip ∧ local_cidr ip = Some c))
    ∧ engine_decides rules final sample_v6 = Reject.
Proof.
  assert (Hm : SMode sample_normal = ModeAll) by (vm_compute; reflexivity).
  destruct (full_tunnel_no_leak cat0 0 sample_config sample_settings _ _ sample_v6
    sample_builds sample_normalizes Hm) as (rules & final & Hr & Hc & Hn).
  exists rules, final. split; [exact Hr|]. split; [exact Hc|]. apply Hn.
  - repeat constructor; vm_compute; reflexivity.
  - repeat constructor; vm_compute; reflexivity.
  - vm_compute. reflexivity.
  - vm_compute. reflexivity.
Defined.

Lemma BuildConfig_dns_witness :
  ∃ rules final, dns_of sample_value = Some (rules, final) ∧ final ≠ "direct-dns" ∧
    dns_decides rules final (q_domain sample_nquery)
    = match orelse (first_some (map (custom_verdict rule_matches sample_nquery) (CustomRules sample_normal)))
              (first_some (map (regional_verdict service_matches sample_normal sample_nquery) RegionalServices)) with
      | Some t => if t =?s TargetVPN then final else "direct-dns"
      | None => final
      end.
Proof.
  apply (BuildConfig_dns cat0 0 sample_config sample_settings _ _ sample_nquery
    sample_builds sample_normalizes sample_plain).
  - assert (E : q_domain sample_nquery = "www.bank.example") by (vm_compute; reflexivity). rewrite E. discriminate.
  - assert (E : CustomRules sample_normal
      = [mkCustomRule "rule-1" "bank.example" RuleDomain "bank.example" TargetDirect true]) by (vm_compute; reflexivity).
    rewrite E. apply Forall_cons_2; [|apply Forall_nil_2]. intros _ H. by destruct H.
  - apply Forall_cons_2; [vm_compute; reflexivity|]. apply Forall_cons_2; [vm_compute; reflexivity|].
    apply Forall_nil_2.
Defined.

Lemma Normalized_normal_witness :
  normal_settings 0 sample_normal ∧ Forall2 same_policy (CustomRules sample_settings) (CustomRules sample_normal)
  ∧ SMode sample_normal = NormalizeMode (SMode sample_settings)
  ∧ ServiceRoutes sample_normal = ServiceRoutes sample_settings
  ∧ CatalogEnvelope sample_normal = CatalogEnvelope sample_settings
  ∧ Protection sample_normal = Protection sample_settings
  ∧ FallbackProfiles sample_normal = FallbackProfiles sample_settings.
Proof. exact (Normalized_normal cat0 0 sample_settings sample_normal sample_normalizes). Defined.

Lemma BuildConfig_total_witness :
  (∃ text, BuildConfig cat0 0 sample_config sample_settings = Ret text)
  ∨ ∃ e, BuildConfig cat0 0 sample_config sample_settings = Fail e.
Proof. apply (BuildConfig_total cat0 0 sample_config sample_settings). intros h. discriminate. Defined.

Lemma leading_dot_rule_witness :
  let rule := mkCustomRule "r" "r" RuleDomain ".example.com" TargetVPN true in
  let q := mkNQuery [] "example.com" None in
  normalizeDomain ".example.com" = Ret ".example.com"
  ∧ rule_matches q rule = true ∧ engine_verdict q (customRuleObject rule) = None.
Proof. exact (leading_dot_rule eq_refl). Defined.
