(* ===== verification/SmartRoundTrip.v ===== *)
(** * Settings survive their JSON text

    The decoders read back what the encoder writes, for strings in UTF-8; so a
    settings payload parses to the settings it was written from. *)
From S2P Require Import Prelude GoStrings GoStrconv GoEncoding TunnelName AwgValidation GoJson JsonFacts GoTime SmartRules SmartCatalog SmartSettings.

Local Open Scope Z_scope.

(** ** Decoders of represented values *)

Lemma dec_string_reads raw s t old : represents (JStr s) t → dec_string raw t old = Ret s.
Proof. by inversion 1. Qed.

Lemma dec_bool_reads raw b t old : represents (JBool b) t → dec_bool raw t old = Ret b.
Proof. by inversion 1. Qed.

(** [d] reads what [f] writes, over the zero value. *)
Definition reads_back {A} (f : A → json) (d : decoder A) (zero : A) (a : A) : Prop :=
  ∀ raw t, represents (f a) t → d raw t zero = Ret a.

Lemma dec_elems_reads {A} f (d : decoder A) zero l ts :
  Forall (reads_back f d zero) l → Forall2 represents (map f l) ts → dec_elems d zero ts [] = Ret l.
Proof.
  intros Hl. revert ts. induction Hl as [|a l Ha _ IH]; intros ts Hts; inv Hts; [done|].
  cbn [dec_elems head default tail]. match goal with H : represents _ ?y |- _ => rewrite (Ha _ _ H) end.
  cbn. erewrite IH; done.
Qed.

Lemma dec_list_reads {A} f (d : decoder A) zero l raw t :
  Forall (reads_back f d zero) l → represents (JArr (map f l)) t → dec_list d zero raw t [] = Ret l.
Proof.
  intros Hl Ht. inv Ht. unfold dec_list, dec_slice. cbn [default]. erewrite (dec_elems_reads f); [|done..]. done.
Qed.

Lemma dec_slice_reads {A} f (d : decoder A) zero l raw t :
  Forall (reads_back f d zero) l → represents (JArr (map f l)) t → dec_slice d zero raw t None = Ret (Some l).
Proof.
  intros Hl Ht. inv Ht. unfold dec_slice. cbn [default]. erewrite (dec_elems_reads f); [|done..]. done.
Qed.

(** ** Maps *)

Lemma jset_perm k v l : k ∉ map fst l → jset k v l ≡ₚ (k, v) :: l.
Proof.
  induction l as [|[k' v'] l IH]; intros Hk; [done|]. cbn [jset]. destruct (str_compare k k') eqn:E; [|done|].
  - apply str_compare_eq in E. subst. cbn in Hk. set_solver.
  - rewrite IH; [by apply perm_swap|]. cbn in Hk. set_solver.
Qed.

Lemma mkmap_perm l : NoDup (map fst l) → mkmap l ≡ₚ l.
Proof.
  intros Hd. unfold mkmap.
  cut (∀ m, NoDup (map fst (l ++ m)) → fold_left (λ m kv, jset (fst kv) (snd kv) m) l m ≡ₚ l ++ m).
  { intros H. rewrite (H []); by rewrite app_nil_r. }
  clear Hd. induction l as [|[k v] l IH]; intros m Hd; [done|]. cbn [fold_left fst snd].
  cbn [app map fst] in Hd. apply NoDup_cons in Hd as [Hk Hd].
  assert (Hj : jset k v m ≡ₚ (k, v) :: m) by (apply jset_perm; rewrite map_app in Hk; set_solver).
  rewrite IH.
  - rewrite Hj. symmetry. apply (Permutation_middle l m (k, v)).
  - rewrite Hj. rewrite <- (Permutation_middle l m (k, v)). cbn. by constructor.
Qed.

Lemma fold_insert_map {A} (l : list (gostring * A)) (m : gmap gostring A) :
  l ≡ₚ map_to_list m → fold_left (λ m kv, <[kv.1 := kv.2]> m) l ∅ = m.
Proof.
  intros Hp.
  assert (Hf : ∀ (l : list (gostring * A)) (m0 : gmap gostring A), fold_left (λ m kv, <[kv.1 := kv.2]> m) l m0
    = foldr (λ kv m, <[kv.1 := kv.2]> m) m0 (reverse l)).
  { clear. induction l as [|kv l IH]; intros m0; [done|]. cbn [fold_left]. rewrite IH, reverse_cons, foldr_app. done. }
  rewrite Hf. change (list_to_map (reverse l) = m). rewrite <- (list_to_map_to_list m).
  apply list_to_map_proper.
  - rewrite (reverse_Permutation l), Hp. apply NoDup_fst_map_to_list.
  - by rewrite (reverse_Permutation l).
Qed.

Lemma jmap_reads {A} (f : A → json) (d : decoder A) zero (m : gmap gostring A) raw t :
  map_Forall (λ _, reads_back f d zero) m → represents (jmap f m) t → dec_map d zero raw t ∅ = Ret m.
Proof.
  intros Hm Ht. unfold jmap, mkobj in Ht. inv Ht.
  match goal with H : Forall2 _ _ _ |- _ => rename H into HF end.
  set (g := λ kv : gostring * A, (fst kv, f (snd kv))) in HF.
  assert (Hp : mkmap (map g (map_to_list m)) ≡ₚ map g (map_to_list m)).
  { apply mkmap_perm. rewrite map_map. apply NoDup_fst_map_to_list. }
  apply Permutation_map_inv in Hp as (l & El & Hp). rewrite El in HF.
  assert (Hl : Forall (λ kv, reads_back f d zero kv.2) l).
  { apply Forall_forall. intros [k a] Hin. rewrite <- Hp in Hin. apply elem_of_map_to_list in Hin. by apply (Hm k). }
  rewrite <- (fold_insert_map l m) by done. clear El Hp Hm. cbn [dec_map].
  generalize (∅ : gmap gostring A). revert ts HF. induction Hl as [|[k a] l Ha _ IH]; intros ts HF m0; inv HF; [done|].
  match goal with H : _ ∧ _ |- _ => destruct H as [Hk Hr] end. destruct y as [[k' raw'] t']. cbn in Hk, Hr. subst k'.
  cbn [fold_outcome]. rewrite (Ha _ _ Hr). cbn. by apply IH.
Qed.

(** ** Settings *)

Section RoundTrip.
Context {RT : GoRuntime} {IDNA : Idna} {ED : Ed25519}.

Definition utf8_rule (r : CustomRule) : Prop :=
  ValidString (ID r) = true ∧ ValidString (RuleName r) = true ∧ ValidString (Kind r) = true
  ∧ ValidString (Value r) = true ∧ ValidString (Target r) = true.

(** The strings of the settings are UTF-8, as those of decoded settings are. *)
Record utf8_settings (s : RoutingSettings) : Prop := {
  us_routes : map_Forall (λ mode m, ValidString mode = true ∧ map_Forall (λ id _, ValidString id = true) m) (ServiceRoutes s);
  us_fallbacks : Forall (λ n, ValidString n = true) (FallbackProfiles s);
  us_selected : Forall (λ n, ValidString n = true) (selected_apps s);
  us_rules : Forall utf8_rule (CustomRules s);
}.

Lemma dec_rule_reads strict r : reads_back json_of_rule (dec_rule strict) zeroRule r.
Proof.
  intros raw t H. inv H. repeat match goal with H : Forall2 _ (_ :: _) _ |- _ => inv H | H : Forall2 _ [] _ |- _ => inv H end.
  repeat match goal with H : _ ∧ represents _ _ |- _ => destruct H end.
  repeat match goal with y : gostring * gostring * jtree |- _ => destruct y as [[? ?] ?] end. cbn in *. subst.
  repeat match goal with H : represents (JStr _) _ |- _ => inv H | H : represents (JBool _) _ |- _ => inv H end.
  by destruct r.
Qed.

(** One member of a struct, possibly omitted because it is empty. *)
Lemma member_step {A} (F : A → gostring * gostring * jtree → outcome A) present k v rest ts a a' :
  Forall2 (λ kv t, fst kv = fst (fst t) ∧ represents (snd kv) (snd t)) (omitempty present k v ++ rest) ts →
  (present = false → a' = a) → (∀ raw t, represents v t → F a (k, raw, t) = Ret a') →
  ∃ ts', Forall2 (λ kv t, fst kv = fst (fst t) ∧ represents (snd kv) (snd t)) rest ts'
    ∧ fold_outcome F a ts = fold_outcome F a' ts'.
Proof.
  intros HF Hno Hyes. destruct present; cbn [omitempty app] in HF.
  - inv HF. match goal with H : _ ∧ _ |- _ => destruct H as [Hk Hr] end. destruct y as [[k' raw] t]. cbn in Hk, Hr. subst k'.
    eexists. split; [done|]. cbn [fold_outcome]. by rewrite (Hyes _ _ Hr).
  - rewrite Hno by done. by exists ts.
Qed.

Lemma member_step1 {A} (F : A → gostring * gostring * jtree → outcome A) k v rest ts a a' :
  Forall2 (λ kv t, fst kv = fst (fst t) ∧ represents (snd kv) (snd t)) ((k, v) :: rest) ts →
  (∀ raw t, represents v t → F a (k, raw, t) = Ret a') →
  ∃ ts', Forall2 (λ kv t, fst kv = fst (fst t) ∧ represents (snd kv) (snd t)) rest ts'
    ∧ fold_outcome F a ts = fold_outcome F a' ts'.
Proof. intros HF. by apply (member_step F true k v rest ts a a' HF). Qed.

Lemma JInt_version raw t old : represents (JInt settingsVersion) t → dec_int raw t old = Ret settingsVersion.
Proof. by inversion 1. Qed.

Lemma settings_members s ids :
  Version s = settingsVersion → CatalogEnvelope s = [] → SelectedApps s = Some ids →
  json_of_settings s = JObj (
    omitempty (negb (bool_decide (ServiceRoutes s = ∅))) "service_routes" (jmap (jmap JBool) (ServiceRoutes s))
    ++ omitempty (0 <? length (FallbackProfiles s))%nat "fallback_profiles" (JStrs (FallbackProfiles s))
    ++ omitempty (negb (Protection s =?s [])) "protection" (JStr (Protection s))
    ++ omitempty true "version" (JInt settingsVersion) ++ omitempty true "mode" (JStr (SMode s))
    ++ omitempty true "selected_apps" (JStrs ids)
    ++ omitempty (0 <? length (CustomRules s))%nat "custom_rules" (JArr (map json_of_rule (CustomRules s))) ++ []).
Proof. intros Hv He Hs. unfold json_of_settings. by rewrite Hv, He, Hs, app_nil_r. Qed.

Lemma settings_read strict raw t s ids :
  Version s = settingsVersion → CatalogEnvelope s = [] → SelectedApps s = Some ids →
  represents (json_of_settings s) t → dec_settings strict raw t zeroSettings = Ret s.
Proof.
  intros Hv He Hs Ht. rewrite (settings_members s ids Hv He Hs) in Ht. inv Ht.
  match goal with H : Forall2 _ _ _ |- _ => rename H into HF end. unfold dec_settings, dec_struct.
  match goal with |- fold_outcome ?F' _ _ = _ => set (F := F') end.
  set (s1 := zeroSettings <| ServiceRoutes := ServiceRoutes s |>).
  set (s2 := s1 <| FallbackProfiles := FallbackProfiles s |>). set (s3 := s2 <| Protection := Protection s |>).
  set (s4 := s3 <| Version := settingsVersion |>). set (s5 := s4 <| SMode := SMode s |>).
  set (s6 := s5 <| SelectedApps := Some ids |>). set (s7 := s6 <| CustomRules := CustomRules s |>).
  assert (s7 = s) as E7 by (destruct s; cbn in *; by subst).
  eapply (member_step F _ _ _ _ _ _ s1) in HF as (t1 & HF & ->).
  2: { intros H%negb_false_iff%bool_decide_eq_true. unfold s1. by rewrite H. }
  2: { intros r t Hr. change (F _ _) with (in_field ServiceRoutes (dec_map (dec_map dec_bool false) ∅) r t zeroSettings).
       unfold in_field. erewrite (jmap_reads (jmap JBool)); [done| |done].
       intros k m _ raw' t'. apply jmap_reads. intros k' b _ raw'' t''. apply dec_bool_reads. }
  eapply (member_step F _ _ _ _ _ _ s2) in HF as (t2 & HF & ->).
  2: { intros H%Nat.ltb_ge. unfold s2. destruct (FallbackProfiles s); [done|cbn in H; lia]. }
  2: { intros r t Hr. change (F _ _) with (in_field FallbackProfiles (dec_list dec_string []) r t s1).
       unfold in_field. erewrite (dec_list_reads JStr); [done| |done].
       apply Forall_true. intros x raw' t'. apply dec_string_reads. }
  eapply (member_step F _ _ _ _ _ _ s3) in HF as (t3 & HF & ->).
  2: { intros H%negb_false_iff%str_eqb_true. unfold s3. by rewrite H. }
  2: { intros r t Hr. change (F _ _) with (in_field Protection dec_string r t s2).
       unfold in_field. by erewrite dec_string_reads. }
  eapply (member_step1 F _ _ _ _ _ s4) in HF as (t4 & HF & ->).
  2: { intros r t Hr. change (F _ _) with (in_field Version dec_int r t s3).
       unfold in_field. by erewrite JInt_version. }
  eapply (member_step1 F _ _ _ _ _ s5) in HF as (t5 & HF & ->).
  2: { intros r t Hr. change (F _ _) with (in_field SMode dec_string r t s4).
       unfold in_field. by erewrite dec_string_reads. }
  eapply (member_step1 F _ _ _ _ _ s6) in HF as (t6 & HF & ->).
  2: { intros r t Hr. change (F _ _) with (in_field SelectedApps (dec_slice dec_string []) r t s5).
       unfold in_field. erewrite (dec_slice_reads JStr); [done| |done].
       apply Forall_true. intros x raw' t'. apply dec_string_reads. }
  eapply (member_step F _ _ _ _ _ _ s7) in HF as (t7 & HF & ->).
  2: { intros H%Nat.ltb_ge. unfold s7. destruct (CustomRules s); [done|cbn in H; lia]. }
  2: { intros r t Hr. change (F _ _) with (in_field CustomRules (dec_list (dec_rule strict) zeroRule) r t s6).
       unfold in_field. erewrite (dec_list_reads json_of_rule); [done| |done].
       apply Forall_true. intros x. apply dec_rule_reads. }
  inv HF. cbn. by rewrite E7.
Qed.

(** ** The text of the settings *)

Lemma wf_member k v present rest :
  (present = true → ValidString k = true ∧ wf_json v) →
  Forall (λ kv, ValidString (fst kv) = true ∧ wf_json (snd kv)) rest →
  Forall (λ kv, ValidString (fst kv) = true ∧ wf_json (snd kv)) (omitempty present k v ++ rest).
Proof. intros H Hr. destruct present; [|done]. constructor; [by apply H|done]. Qed.

Lemma wf_strs l : Forall (λ n, ValidString n = true) l → wf_json (JStrs l).
Proof. intros H. apply wf_arr. induction H; constructor; done. Qed.

Lemma mkmap_Forall (P : gostring * json → Prop) l : NoDup (map fst l) → Forall P l → Forall P (mkmap l).
Proof. intros Hd H. by rewrite mkmap_perm. Qed.

Lemma wf_jmap {A} (f : A → json) (m : gmap gostring A) :
  map_Forall (λ k a, ValidString k = true ∧ wf_json (f a)) m → wf_json (jmap f m).
Proof.
  intros Hm. unfold jmap, mkobj. apply wf_obj, mkmap_Forall; [rewrite map_map; apply NoDup_fst_map_to_list|].
  apply Forall_forall. intros kv Hin. apply list_elem_of_fmap in Hin as ([k a] & -> & Hin).
  apply elem_of_map_to_list in Hin. by apply Hm.
Qed.

Lemma num_ok_version : num_ok (Itoa settingsVersion).
Proof.
  split; [done|]. intros [|b rest] Hd; [done|]. destruct b; try discriminate Hd; reflexivity.
Qed.

Lemma wf_rule r : utf8_rule r → wf_json (json_of_rule r).
Proof. intros (H1 & H2 & H3 & H4 & H5). cbn. rewrite H1, H2, H3, H4, H5. by repeat split. Qed.

Lemma wf_settings now s :
  normal_settings now s → CatalogEnvelope s = [] → utf8_settings s → wf_json (json_of_settings s).
Proof.
  intros [Hv Hm Hp _ (cat & ids & _ & Hs & _) _] He [Ur Uf Us Uc]. rewrite (settings_members s ids Hv He Hs).
  apply wf_obj. unfold selected_apps in Us. rewrite Hs in Us. cbn in Us.
  repeat (apply wf_member; [intros _|]); [..|by constructor]; (split; [done|]).
  - apply wf_jmap. intros k m Hk. destruct (Ur k m Hk) as [Hk1 Hk2]. split; [done|].
    apply wf_jmap. intros k' b Hb. split; [by apply (Hk2 k' b)|done].
  - by apply wf_strs.
  - by destruct Hp as [-> | ->].
  - apply num_ok_version.
  - by destruct Hm as [-> | ->].
  - by apply wf_strs.
  - apply wf_arr. apply Forall_map. eapply Forall_impl; [exact Uc|]. intros r. apply wf_rule.
Qed.

(** Settings nest at most four values deep. *)
Lemma height_bound l k : Forall (λ kv : gostring * json, (height_json (snd kv) ≤ k)%nat) l → (height_json (JObj l) ≤ S k)%nat.
Proof. intros H. cbn [height_json]. apply le_n_S. induction H; cbn; lia. Qed.

Lemma height_arr_bound l k : Forall (λ v, (height_json v ≤ k)%nat) l → (height_json (JArr l) ≤ S k)%nat.
Proof. intros H. cbn [height_json]. apply le_n_S. induction H; cbn; lia. Qed.

Lemma height_jmap {A} (f : A → json) (m : gmap gostring A) k :
  (∀ a, height_json (f a) ≤ k)%nat → (height_json (jmap f m) ≤ S k)%nat.
Proof.
  intros H. unfold jmap, mkobj. apply height_bound, mkmap_Forall; [rewrite map_map; apply NoDup_fst_map_to_list|].
  apply Forall_map, Forall_true. intros [x a]. apply H.
Qed.

Lemma height_member k v present rest n :
  (height_json v ≤ n)%nat → Forall (λ kv : gostring * json, (height_json (snd kv) ≤ n)%nat) rest →
  Forall (λ kv, (height_json (snd kv) ≤ n)%nat) (omitempty present k v ++ rest).
Proof. intros H Hr. destruct present; [|done]. by constructor. Qed.

Lemma height_strs l n : (height_json (JStrs l) ≤ S n)%nat.
Proof. apply height_arr_bound. apply Forall_map, Forall_true. intros. cbn. lia. Qed.

Lemma height_settings s ids :
  Version s = settingsVersion → CatalogEnvelope s = [] → SelectedApps s = Some ids →
  (height_json (json_of_settings s) ≤ 4)%nat.
Proof.
  intros Hv He Hs. rewrite (settings_members s ids Hv He Hs). apply height_bound.
  repeat apply height_member; [..|by constructor]; try (cbn; lia); try apply height_strs.
  - apply height_jmap. intros m. apply height_jmap. intros b. cbn. lia.
  - apply height_arr_bound. apply Forall_map, Forall_true. intros r. cbn. lia.
Qed.

Lemma Marshal_obj_trimmed l : trimmed (Marshal (JObj l)) ∧ HasPrefix (Marshal (JObj l)) "{" = true.
Proof.
  cbn [Marshal]. split; [|done]. split; [by apply space_width_nonspace|].
  rewrite !rev_app_distr. by apply space_width_nonspace.
Qed.

(** The decoder's answer on the text of normal settings. *)
Lemma Unmarshal_settings now s :
  normal_settings now s → CatalogEnvelope s = [] → utf8_settings s →
  Unmarshal (dec_settings false) (Marshal (json_of_settings s)) zeroSettings = Ret s
  ∧ Unmarshal (dec_settings false) (MarshalIndent 0 (json_of_settings s)) zeroSettings = Ret s.
Proof.
  intros Hn He Hu. pose proof (wf_settings now s Hn He Hu) as Hw.
  destruct Hn as [Hv _ _ _ (cat & ids & _ & Hs & _) _]. pose proof (height_settings s ids Hv He Hs) as Hh.
  assert (Hd : Z.of_nat (height_json (json_of_settings s)) <= maxNestingDepth) by (unfold maxNestingDepth; lia).
  destruct (decode_tree_Marshal _ Hw Hd) as (t & Ht & Hr). destruct (decode_tree_MarshalIndent _ Hw Hd) as (t2 & Ht2 & Hr2).
  unfold Unmarshal. rewrite Ht, Ht2. cbn [or_fail mbind outcome_bind].
  split; by eapply settings_read.
Qed.

(** A payload parses to the settings it was made from, normalised again. *)
Lemma payload_reads cat now s n raw :
  Normalized cat now s = Ret n → CatalogEnvelope s = [] → utf8_settings n →
  SettingsPayload cat now s = Ret raw → ParseSettingsPayload cat now raw = Normalized cat now n.
Proof.
  intros Hn He Hu Hp. unfold SettingsPayload in Hp. rewrite Hn in Hp. cbn [mbind outcome_bind] in Hp.
  apply bind_ret in Hp as ([] & Hl%fail_if_ret & Hp).
  assert (raw = Marshal (json_of_settings n)) as -> by congruence. clear Hp.
  destruct (Normalized_spec _ _ _ _ Hn) as (Hns & _ & _ & _ & Hce & _). rewrite He in Hce.
  destruct (Unmarshal_settings now n Hns Hce Hu) as [Hread _].
  destruct (Marshal_obj_trimmed (match json_of_settings n with JObj l => l | _ => [] end)) as [Ht Hpre].
  change (JObj _) with (json_of_settings n) in Ht, Hpre.
  unfold ParseSettingsPayload. rewrite Hl. cbn [fail_if mbind outcome_bind]. rewrite (TrimSpace_id _ Ht), Hpre.
  replace (Marshal (json_of_settings n) =?s []) with false by done. cbn [orb negb]. by rewrite Hread.
Qed.
End RoundTrip.
