(* ===== verification/SmartStoreFacts.v ===== *)
(** * Files during a save, and the saved settings

    [keeps P m]: every disk that a run of [m] goes through satisfies [P], if
    the first does.  With it, the one call of [SaveSettings] that touches the
    settings file is its [Rename]. *)
From S2P Require Import Prelude GoStrings GoStrconv GoEncoding GoPath GoJson JsonFacts GoTime GoSha256 GoOs AwgValidation TunnelName SmartRules SmartCatalog SmartUpdate SmartSettings SmartStore SmartRoundTrip.

Local Open Scope Z_scope.

(** The disks between two states: [l], newest first, without the last. *)
Definition went_through (P : files_t → Prop) (s s' : io) : Prop :=
  ∃ l, past s' = l ++ past s ∧ Forall P l ∧ P (files s').

Definition keeps {A} (P : files_t → Prop) (m : IO A) : Prop :=
  ∀ s, P (files s) → went_through P s (fst (m s)).

Lemma went_through_refl (P : files_t → Prop) s : P (files s) → went_through P s s.
Proof. intros H. by exists []. Qed.

Lemma went_through_trans P s1 s2 s3 : went_through P s1 s2 → went_through P s2 s3 → went_through P s1 s3.
Proof.
  intros (l1 & E1 & H1 & H1') (l2 & E2 & H2 & H2'). exists (l2 ++ l1).
  rewrite E2, E1, <- app_assoc. split; [done|]. split; [|done]. by apply Forall_app.
Qed.

Lemma went_through_mono (P Q : files_t → Prop) s s' : (∀ fs, P fs → Q fs) → went_through P s s' → went_through Q s s'.
Proof. intros HPQ (l & E & H & H'). exists l. split; [done|]. split; [|auto]. eapply Forall_impl; eauto. Qed.

(** Through the calls of a function that may stop at any of them. *)
Lemma went_bind {A B} (P : files_t → Prop) (m : IO A) (k : A → IO B) s :
  went_through P s (fst (m s)) → (∀ a, snd (m s) = Ret a → went_through P (fst (m s)) (fst (k a (fst (m s))))) → went_through P s (fst (io_bind m k s)).
Proof. intros Hm Hk. unfold io_bind. destruct (m s) as [s1 [a|e|]]; cbn in *; [|done..]. eapply went_through_trans; [exact Hm|by apply Hk]. Qed.

Lemma went_attempt {A} (P : files_t → Prop) (m : IO A) s : went_through P s (fst (m s)) → went_through P s (fst (attempt m s)).
Proof. unfold attempt. by destruct (m s). Qed.

Lemma went_end P s s' : went_through P s s' → P (files s').
Proof. by intros (? & ? & ? & ?). Qed.

Lemma keeps_pure {A} P (m : outcome A) : keeps P (io_lift m).
Proof. intros s H. by apply went_through_refl. Qed.

Lemma io_keeps_ret {A} P (a : A) : keeps P (io_ret a).
Proof. intros s H. by apply went_through_refl. Qed.

Lemma io_keeps_fail {A} P e : keeps P (@io_fail io A e).
Proof. intros s H. by apply went_through_refl. Qed.

Lemma keeps_panic {A} P : keeps P (λ s, (s, @Panic A)).
Proof. intros s H. by apply went_through_refl. Qed.

Lemma io_keeps_bind {A B} P (m : IO A) (k : A → IO B) :
  keeps P m → (∀ s a, snd (m s) = Ret a → keeps P (k a)) → keeps P (io_bind m k).
Proof.
  intros Hm Hk s Hs. specialize (Hm s Hs). unfold io_bind. specialize (Hk s).
  destruct (m s) as [s1 [a| |]] eqn:E; cbn in *; [|done..].
  eapply went_through_trans; [exact Hm|]. apply Hk; [done|]. by destruct Hm as (? & ? & ? & ?).
Qed.

Lemma io_keeps_attempt {A} P (m : IO A) : keeps P m → keeps P (attempt m).
Proof. intros Hm s Hs. specialize (Hm s Hs). unfold attempt. by destruct (m s). Qed.

Lemma io_keeps_ignore {A} P (m : IO A) : keeps P m → keeps P (ignore_error m).
Proof. intros Hm s Hs. specialize (Hm s Hs). unfold ignore_error. by destruct (m s). Qed.

Lemma io_keeps_deferring {A} P (m : IO A) d : keeps P m → keeps P d → keeps P (deferring m d).
Proof.
  intros Hm Hd s Hs. specialize (Hm s Hs). unfold deferring. destruct (m s) as [s1 r]. cbn in Hm.
  assert (P (files s1)) as H1 by (by destruct Hm as (? & ? & ? & ?)). specialize (Hd s1 H1).
  destruct (d s1) as [s2 r2]. cbn in *. by eapply went_through_trans.
Qed.

Section Calls.
Context {FT : Faults}.

Lemma keeps_call {A} P (f : files_t → files_t * outcome A) g :
  (∀ fs, P fs → P (fst (f fs))) → (∀ n fs, P fs → P (g n fs)) → keeps P (call f g).
Proof.
  intros Hf Hg s Hs. unfold call. destruct (fault (calls s)).
  - exists [files s]. cbn. split; [done|]. split; [by repeat constructor|]. by apply Hg.
  - specialize (Hf _ Hs). destruct (f (files s)) as [fs r]. exists [files s]. cbn in *.
    split; [done|]. split; [by repeat constructor|done].
Qed.

Lemma keeps_ReadFile P path : keeps P (ReadFile path).
Proof. by apply keeps_call. Qed.

Lemma keeps_ReadLimited P path limit : keeps P (ReadLimited path limit).
Proof. apply io_keeps_bind; [apply keeps_ReadFile|]. intros. by apply keeps_call. Qed.

Lemma keeps_nop P path : keeps P (MkdirAll path) ∧ keeps P (Sync path) ∧ keeps P (Close path) ∧ keeps P (Chmod path).
Proof. repeat split; by apply keeps_call. Qed.

(** [P] says what one file, [p], holds. *)
Section OneFile.
Variable p : gostring.
Variable v : option gostring.

Definition holds (fs : files_t) : Prop := fs !! p = v.

Lemma holds_insert q d fs : q ≠ p → holds fs → holds (<[q := d]> fs).
Proof. intros Hq H. unfold holds, files_t in *. by rewrite lookup_insert_ne. Qed.

Lemma holds_delete q fs : q ≠ p → holds fs → holds (delete q fs).
Proof. intros Hq H. unfold holds, files_t in *. by rewrite lookup_delete_ne. Qed.

Lemma keeps_write q d : q ≠ p → keeps holds (WriteFileHandle q d).
Proof. intros Hq. apply keeps_call; intros; by apply holds_insert. Qed.

Lemma keeps_remove q : q ≠ p → keeps holds (Remove q).
Proof. intros Hq. apply keeps_call; [|done]. intros fs H. destruct (fs !! q); [|done]. by apply holds_delete. Qed.

Lemma keeps_rename a b : a ≠ p → b ≠ p → keeps holds (Rename a b).
Proof.
  intros Ha Hb. apply keeps_call; [|done]. intros fs H. destruct (fs !! a); [|done].
  cbn. by apply holds_insert, holds_delete.
Qed.

Lemma keeps_create dir prefix : (∀ n, dir ++ "\" ++ prefix ++ temp_suffix n ≠ p) → keeps holds (CreateTemp dir prefix).
Proof.
  intros Hne s Hs. unfold CreateTemp. apply keeps_call; [|done|done]. intros fs H.
  destruct (fs !! _); [done|]. by apply holds_insert.
Qed.

Lemma keeps_write_and_close q d : q ≠ p → keeps holds (write_and_close q d).
Proof.
  intros Hq. unfold write_and_close. destruct (keeps_nop holds q) as (_ & Hs & Hc & _).
  apply io_keeps_bind; [apply io_keeps_attempt, io_keeps_bind; [by apply keeps_write|done]|].
  intros _ r _. apply io_keeps_bind; [by apply io_keeps_attempt|]. intros. apply keeps_pure.
Qed.
End OneFile.

Lemma CreateTemp_ret dir prefix s path :
  snd (CreateTemp dir prefix s) = Ret path → path = dir ++ "\" ++ prefix ++ temp_suffix (calls s).
Proof.
  unfold CreateTemp, call. destruct (fault _); cbn; [done|]. destruct (files s !! _); cbn; congruence.
Qed.

(** A file that is not a temporary one is left alone by [writeAtomic] of another. *)
Lemma keeps_writeAtomic p v path data :
  path ≠ p → (∀ n, Dir path ++ "\" ++ ".pinus-write-" ++ temp_suffix n ≠ p) → keeps (holds p v) (writeAtomic path data).
Proof.
  intros Hp Ht. unfold writeAtomic. apply io_keeps_bind; [apply keeps_nop; done|]. intros _ _ _.
  apply io_keeps_bind; [by apply keeps_create|]. intros s temporary Htmp.
  apply CreateTemp_ret in Htmp. assert (temporary ≠ p) by (rewrite Htmp; apply Ht).
  apply io_keeps_deferring; [|by apply io_keeps_ignore, keeps_remove].
  apply io_keeps_bind; [by apply keeps_write_and_close|]. intros _ _ _. by apply keeps_rename.
Qed.

(** Writing a temporary file whole, and when it succeeds. *)
Lemma call_ret {A} (f : files_t → files_t * outcome A) g s a :
  snd (call f g s) = Ret a → files (fst (call f g s)) = fst (f (files s)) ∧ snd (f (files s)) = Ret a.
Proof. unfold call. destruct (fault _); cbn; [done|]. by destruct (f (files s)). Qed.

Lemma io_bind_ret {A B} (m : IO A) (k : A → IO B) s b :
  snd (io_bind m k s) = Ret b → ∃ a, snd (m s) = Ret a ∧ snd (k a (fst (m s))) = Ret b
    ∧ io_bind m k s = k a (fst (m s)).
Proof. unfold io_bind. destruct (m s) as [s1 [a| |]]; cbn; try done. intros H. by exists a. Qed.

Lemma write_and_close_ret q d s :
  snd (write_and_close q d s) = Ret tt → files (fst (write_and_close q d s)) = <[q := d]> (files s).
Proof.
  unfold write_and_close, attempt, io_bind, WriteFileHandle, Sync, Close, call, io_lift, unchanged.
  destruct (fault (calls s)); cbn.
  - by destruct (fault _); cbn.
  - by destruct (fault _); cbn; destruct (fault _); cbn.
Qed.

(** [Rename] either happens or changes nothing. *)
Lemma rename_cases a b s :
  (∃ d, files s !! a = Some d ∧ snd (Rename a b s) = Ret tt
     ∧ files (fst (Rename a b s)) = <[b := d]> (delete a (files s)) ∧ past (fst (Rename a b s)) = files s :: past s)
  ∨ (∃ e, snd (Rename a b s) = Fail e) ∧ files (fst (Rename a b s)) = files s
     ∧ past (fst (Rename a b s)) = files s :: past s.
Proof.
  unfold Rename, call, unchanged. destruct (fault _) as [e|]; cbn; [right; eauto|].
  destruct (files s !! a) as [d|]; cbn; [left; eauto 10|right; eauto].
Qed.
End Calls.

(** ** Names of temporary files *)

Lemma last_app_cons {A} (l : list A) x d : ∃ y, last (l ++ x :: d) = Some y ∧ (y = x ∨ y ∈ d).
Proof.
  rewrite last_app. destruct (last (x :: d)) as [y|] eqn:E.
  - exists y. split; [done|]. apply last_Some_elem_of in E. set_solver.
  - by apply last_None in E.
Qed.

Section Names.
Context {FT : Faults}.
(** [os.CreateTemp] replaces the star by decimal digits. *)
Hypothesis temp_digits : ∀ n, Forall (λ b, is_digit b = true) (temp_suffix n).

(** A path in ".json" is no temporary file. *)
Lemma json_not_temp p dir prefix n :
  HasSuffix p ".json" = true → dir ++ "\" ++ (prefix ++ "-") ++ temp_suffix n ≠ p.
Proof using temp_digits.
  intros Hp <-. unfold HasSuffix in Hp. apply HasPrefix_spec in Hp as [t Ht].
  destruct (last_app_cons (dir ++ "\" ++ prefix) "-"%byte (temp_suffix n)) as (y & Hy & Hin).
  rewrite <- !app_assoc in Hy. rewrite <- !app_assoc in Ht. cbn [app] in *.
  rewrite <- (rev_involutive (dir ++ "\"%byte :: prefix ++ "-"%byte :: temp_suffix n)), Ht in Hy.
  cbn in Hy. rewrite !last_app in Hy. cbn in Hy. injection Hy as <-.
  destruct Hin as [E|Hin]; [discriminate E|]. pose proof (proj1 (Forall_forall _ _) (temp_digits n) _ Hin) as H. discriminate H.
Qed.

(** The run of digits at the end of a temporary name, removed. *)
Definition strip_digits (s : gostring) : gostring := rev (snd (span_digits (rev s))).

Lemma span_digits_app d s :
  Forall (λ b, is_digit b = true) d → span_digits (d ++ s) = (d ++ fst (span_digits s), snd (span_digits s)).
Proof.
  induction 1 as [|b d Hb _ IH]; cbn; [by destruct (span_digits s)|]. rewrite Hb, IH. done.
Qed.

Lemma strip_temp s n : strip_digits ((s ++ "-") ++ temp_suffix n) = s ++ "-".
Proof using temp_digits.
  unfold strip_digits. rewrite !rev_app_distr. rewrite span_digits_app.
  - cbn. by rewrite rev_involutive.
  - apply Forall_forall. intros b Hb. pose proof (proj1 (Forall_forall _ _) (temp_digits n)) as H. apply H.
    apply list_elem_of_In. apply in_rev. by apply list_elem_of_In.
Qed.

(** Temporary files of settings and of other atomic writes differ. *)
Lemma temp_names_differ dir dir' n n' :
  dir ++ "\" ++ ".pinus-write-" ++ temp_suffix n ≠ dir' ++ "\" ++ ".pinus-settings-" ++ temp_suffix n'.
Proof using temp_digits.
  intros H. apply (f_equal strip_digits) in H.
  change ".pinus-write-" with (".pinus-write" ++ "-") in H. change ".pinus-settings-" with (".pinus-settings" ++ "-") in H.
  assert (E : ∀ d p x, d ++ "\" ++ (p ++ "-") ++ x = (((d ++ "\" ++ p) ++ "-") ++ x)) by (intros; by rewrite <- !app_assoc).
  rewrite !E, !strip_temp in H. apply (f_equal (@rev byte)) in H. rewrite !rev_app_distr in H. discriminate H.
Qed.
End Names.

(** ** Replacing a file *)

Section Replace.
Context {RT : GoRuntime} {IDNA : Idna} {ED : Ed25519} {FT : Faults} {PT : Paths}.

Definition old_or_new (p : gostring) (old : option gostring) (data : gostring) (fs : files_t) : Prop :=
  fs !! p = old ∨ fs !! p = Some data.

(** A run of [m] from [s] replaces [p] by [data] or leaves it, atomically. *)
Definition replaces {A} (p data : gostring) (m : IO A) (s : io) : Prop :=
  went_through (old_or_new p (files s !! p) data) s (fst (m s))
  ∧ match snd (m s) with
    | Ret _ => files (fst (m s)) !! p = Some data
    | _ => files (fst (m s)) !! p = files s !! p
    end.

Lemma replaced p data temporary (prep : IO unit) s :
  temporary ≠ p → keeps (holds p (files s !! p)) prep →
  (snd (prep s) = Ret tt → files (fst (prep s)) !! temporary = Some data) →
  replaces p data (deferring (prep ;; Rename temporary p) (ignore_error (Remove temporary))) s.
Proof.
  intros Hne Hk Hdata. specialize (Hk s eq_refl). unfold replaces, deferring, io_bind.
  assert (Hfin : ∀ v s1, files s1 !! p = v → went_through (holds p v) s1 (fst (ignore_error (Remove temporary) s1))).
  { intros v s1 H. by apply (io_keeps_ignore (holds p v)), H; apply keeps_remove. }
  destruct (prep s) as [s1 [[]| |]] eqn:Ep; cbn in Hk, Hdata.
  2,3: cbn; specialize (Hfin (files s !! p) s1 ltac:(by destruct Hk as (? & ? & ? & ?)));
       destruct (ignore_error (Remove temporary) s1) as [s2 r2]; cbn in *;
       (split; [|by destruct Hfin as (? & ? & ? & ?)]);
       eapply went_through_mono, went_through_trans; [|exact Hk|exact Hfin]; intros fs H; by left.
  specialize (Hdata eq_refl). assert (H1 : files s1 !! p = files s !! p) by (by destruct Hk as (? & ? & ? & ?)).
  destruct (rename_cases temporary p s1) as [(d & Hd & Hr & Hf & Hpast)|([e Hr] & Hf & Hpast)];
    destruct (Rename temporary p s1) as [s2 r2]; cbn in Hr, Hf, Hpast; subst r2; cbn.
  - rewrite Hdata in Hd. injection Hd as <-.
    assert (H2 : files s2 !! p = Some data) by (rewrite Hf; unfold files_t in *; by rewrite lookup_insert_eq).
    specialize (Hfin (Some data) s2 H2). destruct (ignore_error (Remove temporary) s2) as [s3 r3]; cbn in *.
    split; [|by destruct Hfin as (? & ? & ? & ?)].
    eapply went_through_trans; [eapply went_through_mono; [|exact Hk]; intros fs H; by left|].
    eapply went_through_trans; [exists [files s1]; cbn; split; [done|]; split; [|by right]|].
    { constructor; [by left|constructor]. }
    eapply went_through_mono; [|exact Hfin]. intros fs H; by right.
  - assert (H2 : files s2 !! p = files s !! p) by (by rewrite Hf).
    specialize (Hfin _ s2 H2). destruct (ignore_error (Remove temporary) s2) as [s3 r3]; cbn in *.
    split; [|by destruct Hfin as (? & ? & ? & ?)].
    eapply went_through_trans; [eapply went_through_mono; [|exact Hk]; intros fs H; by left|].
    eapply went_through_trans; [exists [files s1]; cbn; split; [done|]; split; [|by left]|].
    { constructor; [by left|constructor]. }
    eapply went_through_mono; [|exact Hfin]. intros fs H; by left.
Qed.

(** Calls in front that leave the file alone. *)
Lemma replaces_bind {A B} p data (m : IO A) (k : A → IO B) s :
  keeps (holds p (files s !! p)) m → (∀ a, snd (m s) = Ret a → replaces p data (k a) (fst (m s))) →
  replaces p data (io_bind m k) s.
Proof.
  intros Hm Hk. specialize (Hm s eq_refl). unfold replaces, io_bind in *.
  assert (H1 : files (fst (m s)) !! p = files s !! p) by (by destruct Hm as (? & ? & ? & ?)).
  assert (Hm' : went_through (old_or_new p (files s !! p) data) s (fst (m s)))
    by (eapply went_through_mono; [|exact Hm]; intros fs H; by left).
  destruct (m s) as [s1 [a| |]]; cbn in *; [|done..].
  destruct (Hk a eq_refl) as [Hw Hr]. rewrite H1 in Hw, Hr. split; [|done]. by eapply went_through_trans.
Qed.

Lemma replaces_fail {A} p data s (m : outcome A) : (∀ a, m ≠ Ret a) → replaces p data (io_lift m) s.
Proof.
  intros Hm. split; [apply went_through_refl; by left|]. destruct m; cbn; [by destruct (Hm a)|done..].
Qed.

(** ** The writers of the program *)

Lemma written_data temporary data s :
  snd (write_and_close temporary data s) = Ret tt →
  files (fst (write_and_close temporary data s)) !! temporary = Some data.
Proof. intros H. rewrite (write_and_close_ret _ _ _ H). unfold files_t in *. by rewrite lookup_insert_eq. Qed.

Lemma writeAtomic_replaces path data s :
  (∀ n, Dir path ++ "\" ++ ".pinus-write-" ++ temp_suffix n ≠ path) → replaces path data (writeAtomic path data) s.
Proof.
  intros Ht. unfold writeAtomic. apply replaces_bind; [apply keeps_nop|]. intros _ _.
  apply replaces_bind; [by apply keeps_create|]. intros temporary Htmp. apply CreateTemp_ret in Htmp.
  assert (temporary ≠ path) by (rewrite Htmp; apply Ht).
  apply replaced; [done|by apply keeps_write_and_close|apply written_data].
Qed.

Lemma ignore_chmod q d s :
  snd ((ignore_error (Chmod q) ;; write_and_close q d) s) = Ret tt →
  files (fst ((ignore_error (Chmod q) ;; write_and_close q d) s)) = <[q := d]> (files s).
Proof.
  unfold io_bind at 1 2, ignore_error, Chmod, call, unchanged. destruct (fault (calls s)); cbn;
    intros H; by rewrite write_and_close_ret.
Qed.

Lemma replaces_ext {A} p data (m m' : IO A) s : m s = m' s → replaces p data m s → replaces p data m' s.
Proof. unfold replaces. by intros ->. Qed.

Lemma io_bind_assoc {A B C} (m : IO A) (k : A → IO B) (h : B → IO C) s :
  io_bind (io_bind m k) h s = io_bind m (λ a, io_bind (k a) h) s.
Proof. unfold io_bind. by destruct (m s) as [s1 [a| |]]. Qed.

Lemma io_bind4 {A B C D} (a : IO A) (b : IO B) (c : IO C) (d : IO D) s : (a ;; b ;; c ;; d) s = (((a ;; b) ;; c) ;; d) s.
Proof. unfold io_bind. destruct (a s) as [s1 [?| |]]; [|done..]. by destruct (b s1) as [s2 [?| |]]. Qed.

Lemma deferring_ext {A} (m m' : IO A) d s : m s = m' s → deferring m d s = deferring m' d s.
Proof. unfold deferring. by intros ->. Qed.

Lemma writePresetCache_replaces data s :
  (∀ n, Dir presetCachePath ++ "\" ++ ".pinus-presets-" ++ temp_suffix n ≠ presetCachePath) →
  replaces presetCachePath data (writePresetCache data) s.
Proof.
  intros Ht. unfold writePresetCache. apply replaces_bind; [apply keeps_nop|]. intros _ _.
  apply replaces_bind; [by apply keeps_create|]. intros temporary Htmp. apply CreateTemp_ret in Htmp.
  assert (Hne : temporary ≠ presetCachePath) by (rewrite Htmp; apply Ht).
  eapply replaces_ext; [apply deferring_ext, io_bind_assoc|]. apply replaced; [done| |].
  - apply io_keeps_bind; [apply io_keeps_ignore, keeps_nop; exact []|]. intros _ _ _. by apply keeps_write_and_close.
  - intros Hw. rewrite (ignore_chmod _ _ _ Hw). unfold files_t in *. by rewrite lookup_insert_eq.
Qed.

Lemma keeps_readLimited P path limit : keeps P (readLimitedFile path limit).
Proof.
  unfold readLimitedFile. apply io_keeps_bind; [apply keeps_ReadLimited|]. intros _ data _.
  destruct (_ >? _); [apply io_keeps_fail|apply io_keeps_ret].
Qed.

(** Recording the previous version writes the history file only. *)
Lemma keeps_record cat now name p v :
  historyPath name ≠ p → (∀ n, Dir (historyPath name) ++ "\" ++ ".pinus-write-" ++ temp_suffix n ≠ p) →
  keeps (holds p v) (recordPreviousSettings cat now name).
Proof.
  intros Hp Ht. unfold recordPreviousSettings.
  apply io_keeps_bind; [apply io_keeps_attempt, keeps_readLimited|]. intros _ [data|e|] _.
  - apply io_keeps_bind; [apply keeps_pure|]. intros _ previous _. apply io_keeps_bind.
    + unfold LoadSettingsHistory. apply io_keeps_bind; [apply io_keeps_attempt, keeps_readLimited|].
      intros _ [d|e|] _; [apply keeps_pure| |apply keeps_panic]. destruct (is_not_exist e); [apply io_keeps_ret|apply io_keeps_fail].
    + intros _ history _. by apply keeps_writeAtomic.
  - destruct (is_not_exist e); [apply io_keeps_ret|apply io_keeps_fail].
  - apply keeps_panic.
Qed.

(** The text [SaveSettings] commits. *)
Definition settings_text (s : RoutingSettings) : gostring := MarshalIndent 0 (json_of_settings s) ++ [x0a].

Lemma HasSuffix_app s t suf : HasSuffix t suf = true → HasSuffix (s ++ t) suf = true.
Proof.
  unfold HasSuffix. intros H. apply HasPrefix_spec in H as [r Hr]. apply HasPrefix_spec.
  exists (r ++ rev s). by rewrite rev_app_distr, Hr, app_assoc.
Qed.

Section Save.
Hypothesis temp_digits : ∀ n, Forall (λ b, is_digit b = true) (temp_suffix n).

Lemma SaveSettings_replaces cat now name settings n s :
  HasSuffix (settingsPath name) ".json" = true → Normalized cat now settings = Ret n →
  replaces (settingsPath name) (settings_text n) (SaveSettings cat now name settings) s.
Proof using temp_digits.
  intros Hj Hn. unfold SaveSettings. set (p := settingsPath name) in *.
  apply replaces_bind; [apply keeps_pure|]. rewrite Hn. intros n' [= <-]. apply replaces_bind; [apply keeps_nop|]. intros _ _.
  apply replaces_bind; [apply keeps_pure|]. intros _ _.
  change ".pinus-settings-" with (".pinus-settings" ++ "-").
  apply replaces_bind; [apply keeps_create; intros k; by apply json_not_temp|].
  intros temporary Htmp. apply CreateTemp_ret in Htmp. set (tmp := temporary) in *.
  assert (Hne : tmp ≠ p) by (rewrite Htmp; by apply json_not_temp).
  assert (Hh : historyPath name ≠ p).
  { unfold historyPath, p. intros E. apply (f_equal length) in E. rewrite length_app in E. cbn in E. lia. }
  assert (Hhj : HasSuffix (historyPath name) ".json" = true) by (by apply HasSuffix_app).
  eapply replaces_ext; [apply deferring_ext|].
  { instantiate (1 := ((ignore_error (Chmod tmp) ;; write_and_close tmp (settings_text n)) ;;
      recordPreviousSettings cat now name) ;; Rename tmp p).
    symmetry. apply io_bind4. }
  apply replaced; [done| |].
  - apply io_keeps_bind.
    + apply io_keeps_bind; [apply io_keeps_ignore, keeps_nop; exact []|]. intros _ _ _. by apply keeps_write_and_close.
    + intros _ _ _. apply keeps_record; [done|]. intros k. change ".pinus-write-" with (".pinus-write" ++ "-"). by apply json_not_temp.
  - intros H. apply io_bind_ret in H as ([] & Hw & Hr & ->).
    assert (Hkeep : keeps (holds tmp (Some (settings_text n))) (recordPreviousSettings cat now name)).
    { apply keeps_record.
      - rewrite Htmp. intros E. symmetry in E. by apply json_not_temp in E.
      - intros k. rewrite Htmp. by apply temp_names_differ. }
    edestruct Hkeep as (? & ? & ? & Hfin); [|exact Hfin].
    unfold holds. rewrite (ignore_chmod _ _ _ Hw). unfold files_t in *. by rewrite lookup_insert_eq.
Qed.
End Save.
End Replace.

(** ** Loading what was saved *)

Section Load.
Context {RT : GoRuntime} {IDNA : Idna} {ED : Ed25519} {FT : Faults} {PT : Paths}.

Lemma decode_tree_text v :
  wf_json v → (Z.of_nat (height_json v) <= maxNestingDepth) →
  ∃ t, decode_tree (MarshalIndent 0 v ++ [x0a]) = Some t ∧ represents v t.
Proof.
  intros Hw Hh. rewrite (MarshalIndent_layout v 0 Hw).
  destruct (decode_stream_layout indent ": " indent_ws) with (v := v) (n := 0%nat) (rest := [x0a]) as (t & Ht & Hr); try done.
  { exists " ". split; [done|]. intros. done. }
  exists t. unfold decode_tree. by rewrite Ht.
Qed.

(** The version field of the text of normal settings. *)
Lemma stored_version_text now n :
  normal_settings now n → CatalogEnvelope n = [] → utf8_settings n → stored_version (settings_text n) = settingsVersion.
Proof.
  intros Hn He Hu. pose proof (wf_settings now n Hn He Hu) as Hw.
  destruct Hn as [Hv _ _ _ (cat & ids & _ & Hs & _) _]. pose proof (height_settings n ids Hv He Hs) as Hh.
  destruct (decode_tree_text _ Hw) as (t & Ht & Hr); [unfold maxNestingDepth; lia|].
  unfold stored_version, Unmarshal, settings_text. rewrite Ht. cbn [or_fail mbind outcome_bind].
  rewrite (settings_members n ids Hv He Hs) in Hr. inv Hr. match goal with H : Forall2 _ _ _ |- _ => rename H into HF end.
  unfold dec_struct. match goal with |- context [fold_outcome ?F' _ _] => set (F := F') end.
  eapply (member_step F _ _ _ _ _ _ 0) in HF as (t1 & HF & ->); [|done|done].
  eapply (member_step F _ _ _ _ _ _ 0) in HF as (t2 & HF & ->); [|done|done].
  eapply (member_step F _ _ _ _ _ _ 0) in HF as (t3 & HF & ->); [|done|done].
  eapply (member_step1 F _ _ _ _ _ settingsVersion) in HF as (t4 & HF & ->).
  2: { intros raw t Hr. change (dec_int raw t 0 = Ret settingsVersion). by apply JInt_version. }
  eapply (member_step1 F _ _ _ _ _ settingsVersion) in HF as (t5 & HF & ->); [|done].
  eapply (member_step1 F _ _ _ _ _ settingsVersion) in HF as (t6 & HF & ->); [|done].
  eapply (member_step F _ _ _ _ _ _ settingsVersion) in HF as (t7 & HF & ->); [|done|done].
  by inv HF.
Qed.

Lemma MarshalIndent_obj_text l : l ≠ [] →
  TrimSpace (MarshalIndent 0 (JObj l) ++ [x0a]) = MarshalIndent 0 (JObj l) ∧ HasPrefix (MarshalIndent 0 (JObj l)) "{" = true.
Proof.
  intros Hl. destruct l as [|kv l]; [done|]. set (v := JObj (kv :: l)).
  assert (E : ∃ x, MarshalIndent 0 v = "{" ++ x ++ "}").
  { cbn [MarshalIndent v]. generalize (indent 1), (indent 0). intros i1 i0.
    match goal with |- context [Join ?a ?b] => generalize (Join a b) end. intros J. exists (i1 ++ J ++ i0). by rewrite <- !app_assoc. }
  destruct E as [x ->]. split; [|done].
  assert (Ht : trimmed ("{" ++ x ++ "}")).
  { split; [by apply space_width_nonspace|]. rewrite !rev_app_distr. by apply space_width_nonspace. }
  destruct Ht as [Hl1 Hl2]. unfold TrimSpace. rewrite (trim_id false).
  - rewrite rev_app_distr. change (rev [x0a]) with [x0a]. cbn [app].
    replace (trim true (x0a :: rev ("{"%byte :: x ++ "}"))) with (trim true (rev ("{" ++ x ++ "}"))) by done.
    rewrite (trim_id true _ Hl2). by rewrite rev_involutive.
  - by apply space_width_nonspace.
Qed.

Lemma parse_text cat now n :
  normal_settings now n → CatalogEnvelope n = [] → utf8_settings n →
  Z.of_nat (length (settings_text n)) <= MaxSettingsSize →
  ParseSettingsPayload cat now (settings_text n) = Normalized cat now n.
Proof.
  intros Hn He Hu Hlen. destruct (Unmarshal_settings now n Hn He Hu) as [_ Hread].
  destruct Hn as [Hv _ _ _ (c & ids & _ & Hs & _) _].
  unfold ParseSettingsPayload. replace (Z.of_nat (length (settings_text n)) >? MaxSettingsSize) with false
    by (symmetry; rewrite Z.gtb_ltb; apply Z.ltb_ge; lia). cbn [fail_if mbind outcome_bind].
  unfold settings_text. unfold json_of_settings in Hread |- *.
  match goal with |- context [MarshalIndent 0 (JObj ?l)] => set (ms := l) in * end.
  assert (Hne : ms ≠ []) by (intros E; apply (f_equal length) in E; unfold ms in E; rewrite !length_app in E; cbn in E; lia).
  destruct (MarshalIndent_obj_text ms Hne) as [Ht Hpre]. rewrite Ht, Hpre.
  replace (MarshalIndent 0 (JObj ms) =?s []) with false by (destruct (MarshalIndent 0 (JObj ms)); [discriminate Hpre|done]).
  cbn [orb negb]. by rewrite Hread.
Qed.

(** A read that meets no fault. *)
Lemma readLimited_ok s (path data : gostring) limit :
  (∀ k, (calls s ≤ k)%nat → fault k = None) → files s !! path = Some data → Z.of_nat (length data) <= limit →
  ∃ s', readLimitedFile path limit s = (s', Ret data) ∧ files s' = files s ∧ (calls s ≤ calls s')%nat.
Proof.
  intros Hf Hd Hl. unfold readLimitedFile, ReadLimited, ReadFile, io_bind, call.
  rewrite (Hf (calls s)) by lia. rewrite Hd. cbn. rewrite (Hf (S (calls s))) by lia. cbn.
  rewrite take_ge by lia. rewrite Z.gtb_ltb. replace (limit <? Z.of_nat (length data)) with false by (symmetry; apply Z.ltb_ge; lia).
  eexists. split; [done|]. cbn. split; [done|lia].
Qed.

Lemma LoadSettings_text cat now name n s :
  (∀ k, (calls s ≤ k)%nat → fault k = None) → files s !! settingsPath name = Some (settings_text n) →
  Z.of_nat (length (settings_text n)) <= MaxSettingsSize →
  normal_settings now n → CatalogEnvelope n = [] → utf8_settings n →
  snd (LoadSettings cat now name s) = Normalized cat now n ∧ files (fst (LoadSettings cat now name s)) = files s.
Proof.
  intros Hf Hd Hlen Hn He Hu. destruct (readLimited_ok s _ _ MaxSettingsSize Hf Hd Hlen) as (s1 & Hr & Hs1 & _).
  assert (Hread : read_settings name s = (s1, Ret (Some (settings_text n, false)))).
  { unfold read_settings. unfold io_bind at 1. unfold attempt. by rewrite Hr. }
  assert (E : LoadSettings cat now name s = (s1, Normalized cat now n)); [|by rewrite E].
  unfold LoadSettings. unfold io_bind at 1. rewrite Hread. unfold io_bind at 1, io_lift.
  rewrite (parse_text cat now n Hn He Hu Hlen).
  destruct (Normalized cat now n) as [n'|e|] eqn:En; [|done..].
  rewrite (stored_version_text now n Hn He Hu). destruct (Normalized_spec _ _ _ _ En) as [[-> _ _ _ _ _] _].
  rewrite Z.eqb_refl. done.
Qed.
End Load.
