(* ===== verification/SmartStoreTheorems.v ===== *)
(** * Settings files and the signed catalog: theorems

    Settings survive their text and their file; a save is atomic under any
    fault; the catalog of the process never rolls back and is always the
    built-in one or one signed with the embedded key. *)
From S2P Require Import Prelude GoStrings GoStrconv GoEncoding GoPath GoJson JsonFacts GoTime GoSha256 GoOs AwgValidation TunnelName SmartRules SmartCatalog SmartUpdate SmartSettings SmartStore SmartRoundTrip SmartStoreFacts.

Local Open Scope Z_scope.

(** ** The built-in catalog and the embedded key *)

Section Catalog.
Context {RT : GoRuntime} {IDNA : Idna} {ED : Ed25519}.

Definition embedded_key : gostring :=
  match b64_DecodeString presetPublicKeyB64 with Ret k => k | _ => [] end.

Lemma presetPublicKey_ok : presetPublicKey = Ret embedded_key.
Proof. vm_compute. reflexivity. Qed.

Definition safe_process_b (value : gostring) : bool :=
  negb (bool_decide (ToLower value ∈ blocked_processes)) && negb (ContainsAny value unsafe_chars)
  && HasSuffix (ToLower value) ".exe".

Definition valid_service_b (s : Service) : bool :=
  presetIDPattern (ServiceID s) && forallb safe_process_b (ProcessNames s)
  && forallb (λ d, HasPrefix d ".") (DomainSuffixes s) && negb (entry_count s =? 0).

Lemma valid_service_b_spec s : valid_service_b s = true → valid_service s.
Proof.
  unfold valid_service_b. intros H. repeat (apply andb_true_iff in H as [H ?]).
  constructor; [done| | |by apply Z.eqb_neq, negb_true_iff].
  - apply Forall_forall. intros v Hv. eapply forallb_forall in H2; [|by apply list_elem_of_In].
    unfold safe_process_b in H2. apply andb_true_iff in H2 as [H2 ?]. apply andb_true_iff in H2 as [H2 ?].
    split; [by eapply bool_decide_eq_false, negb_true_iff|]. split; [by apply negb_true_iff|done].
  - apply Forall_forall. intros v Hv. eapply forallb_forall in H1; [|by apply list_elem_of_In]. done.
Qed.

Lemma builtin_valid : valid_catalog builtinServiceCatalog.
Proof.
  constructor.
  - apply Forall_forall. intros s Hs. by apply list_elem_of_fmap_2.
  - apply (bool_decide_unpack _). vm_compute. exact I.
  - apply Forall_forall. intros s Hs. apply valid_service_b_spec.
    assert (H : forallb valid_service_b builtinServiceCatalog = true) by (vm_compute; reflexivity).
    eapply forallb_forall in H; [exact H|by apply list_elem_of_In].
  - apply Z.leb_le. vm_compute. reflexivity.
Qed.

Lemma trusted_valid st : trusted embedded_key st → valid_catalog (services st).
Proof.
  intros [-> |(p & (bytes & sig & now & _ & _ & Hv) & -> & _)]; [apply builtin_valid|].
  by apply ValidatePresetPayload_spec in Hv as [? _].
Qed.

(** C20: along every sequence of cache reloads and network updates (whatever the
    disk and the servers answer) the catalog's revision never decreases and a
    revision with a digest keeps it; the catalog is always the built-in one or
    the content of a payload signed with the embedded key whose SHA-256 is the
    recorded digest; and it always keeps every built-in service id, has no
    duplicate id, and names no system process. *)
Theorem catalog_never_rolls_back {FT : Faults} {PT : Paths} st st' :
  rtc catalog_step serviceCatalogState st → rtc catalog_step st st' →
  Revision (status st) <= Revision (status st')
  ∧ (Revision (status st') = Revision (status st) → Digest (status st) ≠ [] → Digest (status st') = Digest (status st))
  ∧ trusted embedded_key st' ∧ valid_catalog (services st').
Proof.
  intros H0 H1. assert (Ht : trusted embedded_key st').
  { assert (Hstep : ∀ a b, rtc catalog_step a b → trusted embedded_key a → trusted embedded_key b).
    { induction 1 as [|a b c Hab _ IH]; [done|]. intros Ha. apply IH.
      eapply advances_trusted; [|exact Ha]. by apply catalog_step_advances, Hab; apply presetPublicKey_ok. }
    apply (Hstep _ _ H1), (Hstep _ _ H0). by left. }
  cut (Revision (status st) <= Revision (status st')
    ∧ (Revision (status st') = Revision (status st) → Digest (status st) ≠ [] → Digest (status st') = Digest (status st))).
  { intros [? ?]. auto using trusted_valid. }
  clear H0 Ht. induction H1 as [st|a b c Hab _ [IHr IHd]]; [split; [lia|done]|].
  apply (catalog_step_advances embedded_key presetPublicKey_ok), advances_monotone in Hab as [Hr Hd].
  split; [lia|]. intros E Hne. assert (E1 : Revision (status b) = Revision (status a)) by lia.
  specialize (Hd E1 Hne). rewrite <- Hd. apply IHd; [lia|]. by rewrite Hd.
Qed.
End Catalog.

(** ** Settings *)

Section Settings.
Context {RT : GoRuntime} {IDNA : Idna} {ED : Ed25519} {FT : Faults} {PT : Paths}.

(** C26: the payload that the client sends for settings without a pinned catalog
    parses, on the other side, to their normal form normalised again. *)
Theorem settings_payload_roundtrip cat now s n raw :
  Normalized cat now s = Ret n → CatalogEnvelope s = [] → utf8_settings n →
  SettingsPayload cat now s = Ret raw → ParseSettingsPayload cat now raw = Normalized cat now n.
Proof. apply payload_reads. Qed.

(** C27: whatever call of [SaveSettings] fails, and after a crash between any two
    of them, the settings file holds its old contents or the complete new text;
    it holds the new text exactly when the call reports success. *)
Theorem SaveSettings_atomic cat now name settings n s :
  (∀ k, Forall (λ b, is_digit b = true) (temp_suffix k)) → HasSuffix (settingsPath name) ".json" = true →
  Normalized cat now settings = Ret n →
  let '(s', r) := SaveSettings cat now name settings s in
  (∃ disks, past s' = disks ++ past s
     ∧ Forall (λ fs, fs !! settingsPath name = files s !! settingsPath name
                     ∨ fs !! settingsPath name = Some (settings_text n)) (files s' :: disks))
  ∧ match r with
    | Ret _ => files s' !! settingsPath name = Some (settings_text n)
    | _ => files s' !! settingsPath name = files s !! settingsPath name
    end.
Proof.
  intros Hd Hj Hn. destruct (SaveSettings_replaces Hd cat now name settings n s Hj Hn) as [(l & El & Hl & Hf) Hr].
  destruct (SaveSettings cat now name settings s) as [s' r]. cbn in *. split; [|exact Hr].
  exists l. split; [done|]. by constructor.
Qed.

Lemma SaveSettings_size cat now name settings n s :
  Normalized cat now settings = Ret n → snd (SaveSettings cat now name settings s) = Ret tt →
  Z.of_nat (length (settings_text n)) <= MaxSettingsSize.
Proof.
  intros Hn H. unfold SaveSettings in H. rewrite Hn in H. apply io_bind_ret in H as (n' & [= <-] & H & _).
  apply io_bind_ret in H as ([] & _ & H & _). apply io_bind_ret in H as ([] & G%fail_if_ret & _).
  rewrite Z.geb_leb in G. apply Z.leb_gt in G. unfold settings_text. rewrite length_app. cbn [length].
  set (k := length (MarshalIndent 0 (json_of_settings n))) in *. lia.
Qed.

(** settings that were saved are loaded back: after a successful
    [SaveSettings], [LoadSettings] returns the saved normal form (normalised
    again) and leaves the disk as it is. *)
Theorem saved_settings_load cat now name settings n s s' :
  (∀ k, Forall (λ b, is_digit b = true) (temp_suffix k)) → HasSuffix (settingsPath name) ".json" = true →
  Normalized cat now settings = Ret n → CatalogEnvelope settings = [] → utf8_settings n →
  SaveSettings cat now name settings s = (s', Ret tt) → (∀ k, (calls s' ≤ k)%nat → fault k = None) →
  snd (LoadSettings cat now name s') = Normalized cat now n ∧ files (fst (LoadSettings cat now name s')) = files s'.
Proof.
  intros Hd Hj Hn He Hu Hs Hf. destruct (SaveSettings_replaces Hd cat now name settings n s Hj Hn) as [_ Hr].
  rewrite Hs in Hr. cbn in Hr. destruct (Normalized_spec _ _ _ _ Hn) as (Hnn & _ & _ & _ & Hce & _).
  apply LoadSettings_text; try done; [|congruence].
  eapply (SaveSettings_size cat now name settings n s); [done|]. by rewrite Hs.
Qed.
End Settings.

(** ** Concrete runs *)

#[local] Existing Instance plain_runtime.
#[local] Existing Instance no_faults.
#[local] Instance identity_idna : Idna := λ s, Ret s.
#[local] Instance unsigned : Ed25519 := λ _ _ _, false.
#[local] Instance home_paths : Paths := {| UserConfigDir := Ret "C:\Users\u\AppData\Roaming"; TempDir := "C:\Temp" |}.

Definition demo_settings : RoutingSettings :=
  zeroSettings <| Version := 5 |> <| SMode := ModeSelected |> <| SelectedApps := Some ["Discord"; "ai"; "discord"] |>
    <| CustomRules := [mkCustomRule [] [] RuleDomain "Bank.Example" TargetDirect true] |>.
Definition demo_normal : RoutingSettings :=
  match Normalized serviceCatalogState 0 demo_settings with Ret n => n | _ => zeroSettings end.
Definition empty_disk : io := mkIO ∅ 0 [].
Definition demo_saved : io := fst (SaveSettings serviceCatalogState 0 "home" demo_settings empty_disk).

Lemma demo_normalizes : Normalized serviceCatalogState 0 demo_settings = Ret demo_normal.
Proof. vm_compute. reflexivity. Qed.

Lemma demo_utf8 : utf8_settings demo_normal.
Proof.
  assert (E : demo_normal = zeroSettings <| Version := 5 |> <| SMode := ModeSelected |> <| SelectedApps := Some ["discord"; "ai"] |>
    <| CustomRules := [mkCustomRule "rule-1" "bank.example" RuleDomain "bank.example" TargetDirect true] |>)
    by (vm_compute; reflexivity).
  rewrite E. constructor.
  - apply map_Forall_empty.
  - by constructor.
  - repeat constructor.
  - repeat constructor.
Qed.

Lemma demo_digits k : Forall (λ b, is_digit b = true) (temp_suffix k).
Proof.
  pose proof (Itoa_digits (Z.of_nat k) ltac:(lia)) as H. apply Forall_forall. intros b Hb.
  exact (proj1 (forallb_forall _ _) H b (proj1 (list_elem_of_In _ _) Hb)).
Qed.

Lemma catalog_never_rolls_back_witness :
  let st := recordServiceCatalogCheck 7 (Some (JoinError (map (λ u, WrapError u ErrEOF) presetUpdateURLs))) serviceCatalogState in
  Revision (status serviceCatalogState) <= Revision (status st)
  ∧ (Revision (status st) = Revision (status serviceCatalogState) → Digest (status serviceCatalogState) ≠ [] →
     Digest (status st) = Digest (status serviceCatalogState))
  ∧ trusted embedded_key st ∧ valid_catalog (services st).
Proof.
  assert (H : fst (UpdateServiceCatalog (λ _, DoError ErrEOF) 7 serviceCatalogState empty_disk) = empty_disk
    ∧ UpdateServiceCatalog (λ _, DoError ErrEOF) 7 serviceCatalogState empty_disk
      = (empty_disk, Ret (recordServiceCatalogCheck 7 (Some (JoinError (map (λ u, WrapError u ErrEOF) presetUpdateURLs)))
           serviceCatalogState, Fail (JoinError (map (λ u, WrapError u ErrEOF) presetUpdateURLs))))).
  { split; vm_compute; reflexivity. }
  apply (catalog_never_rolls_back serviceCatalogState); [apply rtc_refl|].
  apply rtc_once. exact (step_update _ _ _ _ _ _ _ (proj2 H)).
Defined.

Lemma settings_payload_roundtrip_witness :
  ∃ raw, SettingsPayload serviceCatalogState 0 demo_settings = Ret raw
  ∧ ParseSettingsPayload serviceCatalogState 0 raw = Normalized serviceCatalogState 0 demo_normal.
Proof.
  assert (H : SettingsPayload serviceCatalogState 0 demo_settings = Ret (Marshal (json_of_settings demo_normal)))
    by (vm_compute; reflexivity).
  exists (Marshal (json_of_settings demo_normal)). split; [exact H|].
  exact (settings_payload_roundtrip serviceCatalogState 0 demo_settings demo_normal _ demo_normalizes eq_refl demo_utf8 H).
Defined.

Lemma demo_path : HasSuffix (settingsPath "home") ".json" = true.
Proof. vm_compute. reflexivity. Qed.

Lemma SaveSettings_atomic_witness :
  let '(s', r) := SaveSettings serviceCatalogState 0 "home" demo_settings empty_disk in
  (∃ disks, past s' = disks ++ past empty_disk
     ∧ Forall (λ fs, fs !! settingsPath "home" = files empty_disk !! settingsPath "home"
                     ∨ fs !! settingsPath "home" = Some (settings_text demo_normal)) (files s' :: disks))
  ∧ match r with
    | Ret _ => files s' !! settingsPath "home" = Some (settings_text demo_normal)
    | _ => files s' !! settingsPath "home" = files empty_disk !! settingsPath "home"
    end.
Proof.
  exact (SaveSettings_atomic serviceCatalogState 0 "home" demo_settings demo_normal empty_disk
    demo_digits demo_path demo_normalizes).
Defined.

Lemma demo_saves : SaveSettings serviceCatalogState 0 "home" demo_settings empty_disk = (demo_saved, Ret tt).
Proof.
  assert (E : snd (SaveSettings serviceCatalogState 0 "home" demo_settings empty_disk) = Ret tt) by (vm_compute; reflexivity).
  unfold demo_saved. by destruct (SaveSettings _ _ _ _ _) as [s' r]; cbn in *; subst.
Qed.

Lemma saved_settings_load_witness :
  snd (LoadSettings serviceCatalogState 0 "home" demo_saved) = Normalized serviceCatalogState 0 demo_normal
  ∧ files (fst (LoadSettings serviceCatalogState 0 "home" demo_saved)) = files demo_saved.
Proof.
  exact (saved_settings_load serviceCatalogState 0 "home" demo_settings demo_normal empty_disk demo_saved
    demo_digits demo_path demo_normalizes eq_refl demo_utf8 demo_saves (λ _ _, eq_refl)).
Defined.
