(* ===== verification/Supervisor.v ===== *)
(** * The recovery supervisor ([client/manager/smart_supervisor.go])

    One goroutine ([run]) keeps the smart mode alive: it reacts to requests, to
    a reset, to a ticker and to its timer, and calls [recover] when the timer
    fires.  The variables of [run] are the record [sup]; each case of its
    [select] is a function on it.  The clock is a number of nanoseconds; a
    handler that reads the clock takes the readings as arguments ([t1] for
    [time.Now], [t2] for [time.Until] and the start of the timer).  [world] adds
    the channels, and [sup_step] is one step of the whole system: a client's
    call, a case of the [select], or the passing of time. *)
From S2P Require Import Prelude GoStrings GoStrconv AwgValidation GoTime.

Local Open Scope Z_scope.

Record smartRecoveryRequest := mkRequest { reason : gostring; force : bool; delay : Z }.
Definition zeroRequest : smartRecoveryRequest := mkRequest [] false 0.

Record smartSupervisorConfig := mkSupConfig {
  pollInterval : Z;
  networkSettle : Z;
  unhealthyPolls : Z;
  retryDelay : option (Z → Z);  (* nil or a function *)
}.

Definition smartRecoveryDelays : list Z :=
  [Second; 2 * Second; 5 * Second; 10 * Second; 30 * Second; Minute].

Definition smartRecoveryDelay (attempt : Z) : Z :=
  let attempt := if attempt <? 0 then 0 else attempt in
  let delays := smartRecoveryDelays in
  if attempt >=? Z.of_nat (length delays) then default 0 (delays !! (length delays - 1)%nat)
  else default 0 (delays !! Z.to_nat attempt).

(** The configuration with the defaults filled in. *)
Definition newSmartRecoverySupervisor (c : smartSupervisorConfig) : smartSupervisorConfig :=
  mkSupConfig
    (if pollInterval c <=? 0 then 5 * Second else pollInterval c)
    (if networkSettle c <=? 0 then 2500 * Millisecond else networkSettle c)
    (if unhealthyPolls c <? 1 then 2 else unhealthyPolls c)
    (Some (default smartRecoveryDelay (retryDelay c))).

Definition retry_delay (c : smartSupervisorConfig) (attempt : Z) : Z :=
  match retryDelay c with Some f => f attempt | None => 0 end.

(** The variables of [run]; [timer] is the deadline of the armed timer. *)
Record sup := mkSup {
  lastSignature : gostring;
  lastOnline : bool;
  haveSignature : bool;
  unhealthyCount : Z;
  attempts : Z;
  timer : option Z;
  pending : smartRecoveryRequest;
  pendingAt : Z;
  hasPending : bool;
}.

Definition eta_sup (s : sup) : sup :=
  mkSup (lastSignature s) (lastOnline s) (haveSignature s) (unhealthyCount s) (attempts s) (timer s) (pending s)
    (pendingAt s) (hasPending s).
#[export] Instance set_lastSignature : Setter lastSignature := ltac:(derive_setter eta_sup lastSignature).
#[export] Instance set_lastOnline : Setter lastOnline := ltac:(derive_setter eta_sup lastOnline).
#[export] Instance set_haveSignature : Setter haveSignature := ltac:(derive_setter eta_sup haveSignature).
#[export] Instance set_unhealthyCount : Setter unhealthyCount := ltac:(derive_setter eta_sup unhealthyCount).
#[export] Instance set_attempts : Setter attempts := ltac:(derive_setter eta_sup attempts).
#[export] Instance set_timer : Setter timer := ltac:(derive_setter eta_sup timer).
#[export] Instance set_pending : Setter pending := ltac:(derive_setter eta_sup pending).
#[export] Instance set_pendingAt : Setter pendingAt := ltac:(derive_setter eta_sup pendingAt).
#[export] Instance set_hasPending : Setter hasPending := ltac:(derive_setter eta_sup hasPending).

(** What [deps.network] and [deps.desired] return. *)
Definition network_result : Type := gostring * bool * option goerror.
Definition desired_result : Type := gostring * bool * option goerror.

(** [run] up to its loop. *)
Definition run_start (net : network_result) : sup :=
  let '(signature, online, e) := net in
  mkSup signature online (match e with None => true | Some _ => false end) 0 0 None zeroRequest 0 false.

Definition cancelPending (s : sup) : sup :=
  s <| timer := None |> <| hasPending := false |> <| pending := zeroRequest |> <| pendingAt := 0 |>.

Definition arm (t2 due : Z) (s : sup) : sup :=
  let s := s <| pendingAt := due |> in
  let d := due - t2 in
  let d := if d <? 0 then 0 else d in
  s <| timer := Some (t2 + d) |>.

Definition schedule (t1 t2 : Z) (request : smartRecoveryRequest) (s : sup) : sup :=
  let due := t1 + delay request in
  if hasPending s then
    let p := pending s in
    let p := mkRequest (reason p) (force p || force request) (delay p) in
    let p := if reason p =?s [] then mkRequest (reason request) (force p) (delay p) else p in
    let s := s <| pending := p |> in
    if negb (due <? pendingAt s) then s else arm t2 due s
  else arm t2 due (s <| pending := request |> <| hasPending := true |>).

(** [case <-supervisor.reset] *)
Definition on_reset (s : sup) : sup :=
  cancelPending (s <| attempts := 0 |> <| unhealthyCount := 0 |>).

(** [case <-ticker.C], with the answers of the dependencies. *)
Definition on_tick (c : smartSupervisorConfig) (t1 t2 : Z) (net : network_result) (desired : desired_result)
    (healthy : gostring → bool) (s : sup) : sup :=
  let '(signature, online, e) := net in
  let s :=
    match e with
    | Some _ => s
    | None =>
        let s :=
          if haveSignature s && online && (negb (lastOnline s) || negb (signature =?s lastSignature s))
          then schedule t1 t2 (mkRequest "network changed" true (networkSettle c)) s else s in
        s <| lastSignature := signature |> <| lastOnline := online |> <| haveSignature := true |>
    end in
  let '(tunnelName, exists_, desiredErr) := desired in
  match desiredErr with
  | Some _ => s
  | None =>
      if negb exists_ then s <| unhealthyCount := 0 |> <| attempts := 0 |>
      else if online && healthy tunnelName then s <| unhealthyCount := 0 |> <| attempts := 0 |>
      else if negb online then s <| unhealthyCount := 0 |>
      else
        let s := s <| unhealthyCount := unhealthyCount s + 1 |> in
        if (unhealthyCount s >=? unhealthyPolls c) && negb (hasPending s)
        then schedule t1 t2 (mkRequest "health check failed" false 0) s <| unhealthyCount := 0 |>
        else s
  end.

(** [case <-timerChannel]: the request handed to [recover], and the state after
    [recover] returned [err]. *)
Definition timer_request (s : sup) : smartRecoveryRequest := pending s.

Definition on_timer (c : smartSupervisorConfig) (t1 t2 : Z) (err : option goerror) (s : sup) : sup :=
  let request := timer_request s in
  let s := s <| timer := None |> <| hasPending := false |> in
  match err with
  | Some _ =>
      let d := retry_delay c (attempts s) in
      let s := s <| attempts := attempts s + 1 |> in
      schedule t1 t2 (mkRequest (reason request) (force request) d) s
  | None => s <| attempts := 0 |> <| unhealthyCount := 0 |>
  end.

(** ** The channels *)

Record world := mkWorld {
  clock : Z;
  requests : list smartRecoveryRequest;  (* buffered, capacity 8 *)
  reset : bool;                          (* buffered, capacity 1 *)
  stop : bool;                           (* closed *)
  done_ : bool;                          (* closed *)
  vars : sup;
}.

Definition requests_capacity : nat := 8.

(** The method [request] of the supervisor. *)
Definition enqueue (request : smartRecoveryRequest) (w : world) : world :=
  let request := if delay request <? 0 then mkRequest (reason request) (force request) 0 else request in
  if (length (requests w) <? requests_capacity)%nat
  then mkWorld (clock w) (requests w ++ [request]) (reset w) (stop w) (done_ w) (vars w)
  else w.

(** [markHealthy] *)
Definition markHealthy (w : world) : world :=
  mkWorld (clock w) (requests w) true (stop w) (done_ w) (vars w).

(** The first half of [close]. *)
Definition close_stop (w : world) : world :=
  mkWorld (clock w) (requests w) (reset w) true (done_ w) (vars w).

(** What happens in a step. *)
Inductive label :=
| LTime
| LCall (request : smartRecoveryRequest)
| LMarkHealthy
| LClose
| LRequest
| LReset
| LTick (net : network_result) (desired : desired_result) (healthy : gostring → bool)
| LTimer (request : smartRecoveryRequest) (err : option goerror)
| LStop.

Definition with_vars (t : Z) (f : sup → sup) (w : world) : world :=
  mkWorld t (requests w) (reset w) (stop w) (done_ w) (f (vars w)).

Inductive sup_step (c : smartSupervisorConfig) : world → label → world → Prop :=
| step_time w t : clock w <= t →
    sup_step c w LTime (mkWorld t (requests w) (reset w) (stop w) (done_ w) (vars w))
| step_call w r : sup_step c w (LCall r) (enqueue r w)
| step_mark w : sup_step c w LMarkHealthy (markHealthy w)
| step_close w : sup_step c w LClose (close_stop w)
| step_request w r rs t1 t2 : done_ w = false → requests w = r :: rs → clock w <= t1 → t1 <= t2 →
    sup_step c w LRequest (mkWorld t2 rs (reset w) (stop w) (done_ w) (schedule t1 t2 r (vars w)))
| step_reset w : done_ w = false → reset w = true →
    sup_step c w LReset (mkWorld (clock w) (requests w) false (stop w) (done_ w) (on_reset (vars w)))
| step_tick w t1 t2 net desired healthy : done_ w = false → clock w <= t1 → t1 <= t2 →
    sup_step c w (LTick net desired healthy) (with_vars t2 (on_tick c t1 t2 net desired healthy) w)
| step_timer w d t1 t2 err : done_ w = false → timer (vars w) = Some d → d <= clock w → clock w <= t1 → t1 <= t2 →
    sup_step c w (LTimer (timer_request (vars w)) err) (with_vars t2 (on_timer c t1 t2 err) w)
| step_stop w : done_ w = false → stop w = true →
    sup_step c w LStop (mkWorld (clock w) (requests w) (reset w) true true (cancelPending (vars w))).

(** A supervisor right after [start], at time [t]. *)
Definition start_world (t : Z) (net : network_result) : world := mkWorld t [] false false false (run_start net).

Inductive reachable (c : smartSupervisorConfig) : world → Prop :=
| reach_start t net : reachable c (start_world t net)
| reach_step w l w' : reachable c w → sup_step c w l w' → reachable c w'.

(** ** The recovery supervisor: theorems

    Invariant of the reachable states, when a recovery is scheduled, retried or
    brought forward, and that it is attempted again and again, under fair
    scheduling, as long as the tunnel is unhealthy. *)

Local Open Scope Z_scope.

(** ** Scheduling *)

Lemma schedule_fields t1 t2 r s :
  hasPending (schedule t1 t2 r s) = true ∧ unhealthyCount (schedule t1 t2 r s) = unhealthyCount s
  ∧ attempts (schedule t1 t2 r s) = attempts s ∧ lastSignature (schedule t1 t2 r s) = lastSignature s.
Proof.
  unfold schedule, arm. destruct (hasPending s) eqn:E; [|done].
  destruct (reason _ =?s []); destruct (negb _); cbn; by rewrite ?E.
Qed.

Lemma schedule_first t1 t2 r s : hasPending s = false →
  pending (schedule t1 t2 r s) = r ∧ pendingAt (schedule t1 t2 r s) = t1 + delay r.
Proof. unfold schedule, arm. by intros ->. Qed.

Lemma schedule_earlier t1 t2 r s : hasPending s = true →
  pendingAt (schedule t1 t2 r s) = Z.min (pendingAt s) (t1 + delay r)
  ∧ force (pending (schedule t1 t2 r s)) = force (pending s) || force r
  ∧ (reason (pending s) ≠ [] → reason (pending (schedule t1 t2 r s)) = reason (pending s)).
Proof.
  unfold schedule, arm. intros ->. cbn [reason force].
  destruct (str_eqb_spec (reason (pending s)) []) as [E|E]; cbn;
    destruct (Z.ltb_spec (t1 + delay r) (pendingAt s)); cbn; (split; [lia|]); by split.
Qed.

(** The armed timer matches the pending request. *)
Definition timer_ok (now : Z) (s : sup) : Prop :=
  match timer s with
  | Some d => hasPending s = true ∧ pendingAt s <= d <= Z.max (pendingAt s) now
  | None => hasPending s = false
  end.

Lemma timer_ok_later now now' s : now <= now' → timer_ok now s → timer_ok now' s.
Proof. unfold timer_ok. intros Hn. destruct (timer s); [|done]. intros [? ?]. split; [done|lia]. Qed.

Lemma arm_ok t2 due s : hasPending s = true → timer_ok t2 (arm t2 due s).
Proof.
  unfold arm, timer_ok. cbn. intros Hp. split; [done|]. destruct (Z.ltb_spec (due - t2) 0); lia.
Qed.

Lemma schedule_ok now t1 t2 r s : now <= t2 → timer_ok now s → timer_ok t2 (schedule t1 t2 r s).
Proof.
  intros Hn Hs. unfold schedule. destruct (hasPending s) eqn:E; [|by apply arm_ok].
  set (p := if _ =?s [] then _ else _). destruct (negb _).
  - eapply timer_ok_later; [exact Hn|]. exact Hs.
  - by apply arm_ok.
Qed.

Lemma schedule_timer_ok t1 t2 r s : hasPending s = false → timer_ok t2 (schedule t1 t2 r s).
Proof. intros E. unfold schedule. rewrite E. by apply arm_ok. Qed.

(** ** A tick in three parts *)

Definition tick_network (c : smartSupervisorConfig) (t1 t2 : Z) (net : network_result) (s : sup) : sup :=
  let '(signature, online, e) := net in
  match e with
  | Some _ => s
  | None =>
      let s := if haveSignature s && online && (negb (lastOnline s) || negb (signature =?s lastSignature s))
               then schedule t1 t2 (mkRequest "network changed" true (networkSettle c)) s else s in
      s <| lastSignature := signature |> <| lastOnline := online |> <| haveSignature := true |>
  end.

Definition tick_health (c : smartSupervisorConfig) (t1 t2 : Z) (online : bool) (desired : desired_result)
    (healthy : gostring → bool) (s : sup) : sup :=
  let '(tunnelName, exists_, desiredErr) := desired in
  match desiredErr with
  | Some _ => s
  | None =>
      if negb exists_ then s <| unhealthyCount := 0 |> <| attempts := 0 |>
      else if online && healthy tunnelName then s <| unhealthyCount := 0 |> <| attempts := 0 |>
      else if negb online then s <| unhealthyCount := 0 |>
      else
        let s := s <| unhealthyCount := unhealthyCount s + 1 |> in
        if (unhealthyCount s >=? unhealthyPolls c) && negb (hasPending s)
        then schedule t1 t2 (mkRequest "health check failed" false 0) s <| unhealthyCount := 0 |>
        else s
  end.

Lemma on_tick_split c t1 t2 net desired healthy s :
  on_tick c t1 t2 net desired healthy s
  = tick_health c t1 t2 (snd (fst net)) desired healthy (tick_network c t1 t2 net s).
Proof. by destruct net as [[? ?] ?], desired as [[? ?] ?]. Qed.

(** A change that leaves the pending request and its timer alone, or schedules. *)
Inductive touches (t1 t2 : Z) (s : sup) : sup → Prop :=
| touch_same s' : timer s' = timer s → pending s' = pending s → pendingAt s' = pendingAt s → hasPending s' = hasPending s →
    touches t1 t2 s s'
| touch_schedule r s' : timer s' = timer (schedule t1 t2 r s) → pending s' = pending (schedule t1 t2 r s) →
    pendingAt s' = pendingAt (schedule t1 t2 r s) → hasPending s' = true → touches t1 t2 s s'.

Lemma touches_ok now t1 t2 s s' : now <= t2 → timer_ok now s → touches t1 t2 s s' → timer_ok t2 s'.
Proof.
  intros Hn Hs [s'' E1 E2 E3 E4|r s'' E1 E2 E3 E4].
  - eapply timer_ok_later; [exact Hn|]. unfold timer_ok in *. by rewrite E1, E3, E4.
  - pose proof (schedule_ok now t1 t2 r s Hn Hs) as H. pose proof (proj1 (schedule_fields t1 t2 r s)) as H'.
    unfold timer_ok in *. rewrite E1, E3, E4. by rewrite H' in H.
Qed.

(** What a pending request keeps: its deadline is never later, its force stays. *)
Lemma touches_keeps t1 t2 s s' : touches t1 t2 s s' → hasPending s = true →
  hasPending s' = true ∧ pendingAt s' <= pendingAt s ∧ (force (pending s) = true → force (pending s') = true).
Proof.
  intros [s'' E1 E2 E3 E4|r s'' E1 E2 E3 E4] Hp.
  - rewrite E2, E3, E4. auto with lia.
  - destruct (schedule_earlier t1 t2 r s Hp) as (H1 & H2 & _). rewrite E2, E3, H1, H2.
    split; [done|]. split; [lia|]. by intros ->.
Qed.

Lemma tick_network_touches c t1 t2 net s : touches t1 t2 s (tick_network c t1 t2 net s).
Proof.
  destruct net as [[signature online] [e|]]; cbn [tick_network]; [by apply touch_same|].
  destruct (_ && _); [|by apply touch_same].
  eapply touch_schedule; try reflexivity. apply schedule_fields.
Qed.

Lemma tick_health_pending c t1 t2 online desired healthy s :
  hasPending s = true →
  timer (tick_health c t1 t2 online desired healthy s) = timer s
  ∧ pending (tick_health c t1 t2 online desired healthy s) = pending s
  ∧ pendingAt (tick_health c t1 t2 online desired healthy s) = pendingAt s
  ∧ hasPending (tick_health c t1 t2 online desired healthy s) = true.
Proof.
  intros Hp. unfold tick_health. destruct desired as [[name ex] [e|]]; [done|].
  destruct (negb ex); [done|]. destruct (online && _); [done|]. destruct (negb online); [done|].
  cbn. by rewrite Hp, andb_false_r.
Qed.

Lemma tick_health_touches c t1 t2 online desired healthy s :
  touches t1 t2 s (tick_health c t1 t2 online desired healthy s).
Proof.
  unfold tick_health. destruct desired as [[name ex] [e|]]; [by apply touch_same|].
  destruct (negb ex); [by apply touch_same|]. destruct (online && _); [by apply touch_same|].
  destruct (negb online); [by apply touch_same|]. cbn. destruct (_ && _) eqn:E; [|by apply touch_same].
  apply andb_true_iff in E as [_ E%negb_true_iff].
  apply touch_schedule with (r := mkRequest "health check failed" false 0); unfold schedule, arm; cbn; by rewrite E.
Qed.

Lemma schedule_cong t1 t2 r s s' :
  timer s = timer s' → pending s = pending s' → pendingAt s = pendingAt s' → hasPending s = hasPending s' →
  timer (schedule t1 t2 r s) = timer (schedule t1 t2 r s') ∧ pending (schedule t1 t2 r s) = pending (schedule t1 t2 r s')
  ∧ pendingAt (schedule t1 t2 r s) = pendingAt (schedule t1 t2 r s').
Proof.
  intros E1 E2 E3 E4. unfold schedule, arm. rewrite E4. destruct (hasPending s'); [|done]. rewrite E2.
  destruct (reason _ =?s []); cbn; rewrite E3; by destruct (negb _).
Qed.

(** At most one of the two parts schedules. *)
Lemma on_tick_touches c t1 t2 net desired healthy s : touches t1 t2 s (on_tick c t1 t2 net desired healthy s).
Proof.
  rewrite on_tick_split. destruct (tick_network_touches c t1 t2 net s) as [s1 E1 E2 E3 E4|r s1 E1 E2 E3 E4].
  - destruct (tick_health_touches c t1 t2 (snd (fst net)) desired healthy s1) as [s2 F1 F2 F3 F4|r s2 F1 F2 F3 F4].
    + apply touch_same; congruence.
    + destruct (schedule_cong t1 t2 r s1 s E1 E2 E3 E4) as (G1 & G2 & G3).
      eapply (touch_schedule _ _ _ r); congruence.
  - destruct (tick_health_pending c t1 t2 (snd (fst net)) desired healthy s1 E4) as (F1 & F2 & F3 & F4).
    eapply (touch_schedule _ _ _ r); congruence.
Qed.

(** ** The invariant *)

Record sup_inv (c : smartSupervisorConfig) (w : world) : Prop := {
  inv_timer : timer_ok (clock w) (vars w);
  inv_counts : 0 <= unhealthyCount (vars w) ∧ 0 <= attempts (vars w);
  inv_detect : done_ w = false → hasPending (vars w) = false → unhealthyCount (vars w) < unhealthyPolls c;
  inv_queue : (length (requests w) ≤ requests_capacity)%nat ∧ Forall (λ r, 0 <= delay r) (requests w);
  inv_done : done_ w = true → hasPending (vars w) = false ∧ stop w = true;
}.

Lemma tick_counts c t1 t2 net desired healthy s :
  1 <= unhealthyPolls c → 0 <= unhealthyCount s → 0 <= attempts s →
  (hasPending s = false → unhealthyCount s < unhealthyPolls c) →
  let s' := on_tick c t1 t2 net desired healthy s in
  0 <= unhealthyCount s' ∧ 0 <= attempts s' ∧ (hasPending s' = false → unhealthyCount s' < unhealthyPolls c).
Proof.
  intros Hp Hu Ha Hd. rewrite on_tick_split. set (s1 := tick_network c t1 t2 net s).
  assert (H1 : unhealthyCount s1 = unhealthyCount s ∧ attempts s1 = attempts s ∧ (hasPending s1 = false → hasPending s = false)).
  { unfold s1. destruct net as [[sg on] [e|]]; cbn [tick_network]; [done|]. destruct (_ && _); cbn; [|done].
    destruct (schedule_fields t1 t2 (mkRequest "network changed" true (networkSettle c)) s) as (-> & -> & -> & _).
    split; [done|]. by split. }
  destruct H1 as (E1 & E2 & E3). clearbody s1. unfold tick_health. destruct desired as [[name ex] [e|]]; cbn.
  - rewrite E1, E2. auto.
  - destruct (negb ex); cbn; [repeat split; lia|]. destruct (_ && healthy name); cbn; [repeat split; lia|].
    destruct (negb (snd (fst net))); cbn; [rewrite E2; repeat split; lia|]. rewrite E1.
    destruct ((_ >=? _) && negb (hasPending s1)) eqn:E; cbn.
    + unfold schedule, arm. cbn. apply andb_true_iff in E as [_ E%negb_true_iff]. rewrite E. cbn. rewrite E2.
      repeat split; try lia.
    + rewrite ?E1, ?E2. split; [lia|]. split; [lia|]. intros Hn. rewrite Hn in E. rewrite andb_true_r in E.
      rewrite Z.geb_leb in E. apply Z.leb_gt in E. lia.
Qed.

(** After a failed recovery the same request waits for the retry delay. *)
Lemma on_timer_failed c t1 t2 e s :
  let s' := on_timer c t1 t2 (Some e) s in
  hasPending s' = true ∧ unhealthyCount s' = unhealthyCount s ∧ attempts s' = attempts s + 1 ∧ timer_ok t2 s'
  ∧ pendingAt s' = t1 + retry_delay c (attempts s)
  ∧ reason (pending s') = reason (pending s) ∧ force (pending s') = force (pending s).
Proof. repeat (split; [done|]). split; [|done]. by apply (schedule_timer_ok t1 t2). Qed.

Lemma sup_step_inv c w l w' : 1 <= unhealthyPolls c → sup_inv c w → sup_step c w l w' → sup_inv c w'.
Proof.
  intros Hp [It [Iu Ia] Id [Iq Iqd] Io] Hs. destruct Hs as
    [w t Ht|w r|w|w|w r rs t1 t2 Hn Hr H1 H2|w Hn Hr|w t1 t2 net desired healthy Hn H1 H2|w d t1 t2 e Hn Hd Hc H1 H2|w Hn Hst].
  - constructor; cbn; auto. by eapply timer_ok_later.
  - unfold enqueue. destruct (length (requests w) <? requests_capacity)%nat eqn:E; [|by constructor].
    apply Nat.ltb_lt in E. constructor; cbn; auto. rewrite length_app. cbn. split; [lia|].
    apply Forall_app. split; [done|]. constructor; [|constructor]. destruct (Z.ltb_spec (delay r) 0); cbn; lia.
  - by constructor.
  - constructor; cbn; auto. intros Hdn. split; [|done]. by apply Io.
  - pose proof (schedule_fields t1 t2 r (vars w)) as (F1 & F2 & F3 & _). constructor; cbn.
    + eapply schedule_ok; [|exact It]. lia.
    + by rewrite F2, F3.
    + by rewrite F1.
    + rewrite Hr in Iq, Iqd. cbn in Iq. split; [lia|]. by inv Iqd.
    + congruence.
  - constructor; cbn; auto; try lia. congruence.
  - destruct (tick_counts c t1 t2 net desired healthy (vars w) Hp Iu Ia (Id Hn)) as (G1 & G2 & G3). constructor; cbn; auto.
    + eapply touches_ok; [|exact It|apply on_tick_touches]. lia.
    + congruence.
  - destruct e as [e|].
    + destruct (on_timer_failed c t1 t2 e (vars w)) as (F1 & F2 & F3 & F4 & _).
      constructor; cbn [clock vars requests done_ stop with_vars]; rewrite ?F1, ?F2, ?F3; auto; try done; [lia|congruence].
    + constructor; cbn; auto; try lia. congruence.
  - by constructor.
Qed.

(** ** Runs *)

Lemma reachable_inv c w : 1 <= unhealthyPolls c → reachable c w → sup_inv c w.
Proof.
  intros Hp H. induction H as [t [[sg on] e]|w l w' _ IH Hs]; [|by eapply sup_step_inv].
  constructor; cbn; try done; try lia. split; [lia|constructor].
Qed.

Inductive steps (c : smartSupervisorConfig) : world → list label → world → Prop :=
| steps_nil w : steps c w [] w
| steps_cons w l w1 ls w2 : sup_step c w l w1 → steps c w1 ls w2 → steps c w (l :: ls) w2.

(** No reset, no end of the loop and no recovery. *)
Definition quiet (l : label) : bool :=
  match l with LReset | LStop | LTimer _ _ => false | _ => true end.

Definition is_tick (l : label) : bool := match l with LTick _ _ _ => true | _ => false end.

(** A tick that finds the network up, and the desired tunnel down. *)
Definition bad_tick (l : label) : Prop :=
  match l with
  | LTick (_, online, _) (name, exists_, e) healthy =>
      online = true ∧ e = None ∧ exists_ = true ∧ healthy name = false
  | _ => True
  end.

Definition ticks (ls : list label) : Z := Z.of_nat (length (List.filter is_tick ls)).

Lemma quiet_step_pending c w l w' : sup_step c w l w' → quiet l = true → hasPending (vars w) = true →
  hasPending (vars w') = true ∧ pendingAt (vars w') <= pendingAt (vars w)
  ∧ (force (pending (vars w)) = true → force (pending (vars w')) = true).
Proof.
  intros Hs Hq Hp. destruct Hs as
    [w t Ht|w r|w|w|w r rs t1 t2 Hn Hr H1 H2|w Hn Hr|w t1 t2 net desired healthy Hn H1 H2|w d t1 t2 e Hn Hd Hc H1 H2|w Hn Hst];
    try done; try (split; [done|split; [cbn; lia|done]]).
  - unfold enqueue. destruct (_ <? _)%nat; split; try done; split; try done; cbn; lia.
  - apply (touches_keeps t1 t2 (vars w)); [|done]. eapply (touch_schedule _ _ _ r); try done. apply schedule_fields.
  - apply (touches_keeps t1 t2 (vars w)); [|done]. apply on_tick_touches.
Qed.

Lemma quiet_step_done c w l w' : sup_step c w l w' → quiet l = true → done_ w' = done_ w.
Proof. intros [] Hq; try done. unfold enqueue. by destruct (_ <? _)%nat. Qed.

(** Every bad tick counts, until a recovery is pending. *)
Lemma bad_tick_counts c t1 t2 net desired healthy s :
  bad_tick (LTick net desired healthy) → hasPending s = false →
  let s' := on_tick c t1 t2 net desired healthy s in
  hasPending s' = true ∨ unhealthyCount s' = unhealthyCount s + 1.
Proof.
  intros Hb Hp. rewrite on_tick_split. destruct net as [[sg on] e], desired as [[name ex] de].
  destruct Hb as (-> & -> & -> & Hh). set (s1 := tick_network c t1 t2 (sg, true, e) s).
  assert (H1 : hasPending s1 = true ∨ hasPending s1 = false ∧ unhealthyCount s1 = unhealthyCount s).
  { unfold s1. destruct e; cbn [tick_network]; [by right|]. destruct (_ && _); cbn; [left; apply schedule_fields|by right]. }
  clearbody s1. destruct H1 as [H1|[H1 H1']]; [left; by apply tick_health_pending|].
  unfold tick_health. cbn [fst snd negb andb]. rewrite Hh. cbn. rewrite H1, andb_true_r.
  destruct (_ >=? _); cbn; [left; apply schedule_fields|right; lia].
Qed.

Lemma quiet_steps_detect c w ls w' : steps c w ls w' → forallb quiet ls = true → Forall bad_tick ls →
  done_ w' = done_ w ∧ (hasPending (vars w) = true → hasPending (vars w') = true)
  ∧ (hasPending (vars w') = true ∨ unhealthyCount (vars w') = unhealthyCount (vars w) + ticks ls).
Proof.
  induction 1 as [w|w l w1 ls w2 Hs _ IH]; intros Hq Hb; [cbn; split; [done|split; [done|right; unfold ticks; cbn; lia]]|].
  cbn in Hq. apply andb_true_iff in Hq as [Hq1 Hq]. inv Hb.
  match goal with H : bad_tick l |- _ => rename H into Hl end.
  destruct (IH Hq) as (IH1 & IH2 & IH3); [done|]. split; [rewrite IH1; by eapply quiet_step_done|]. split.
  { intros Hp. apply IH2. by eapply quiet_step_pending. }
  destruct (hasPending (vars w)) eqn:Ep; [left; apply IH2; by eapply quiet_step_pending|].
  assert (Hc : hasPending (vars w1) = true ∨ unhealthyCount (vars w1) = unhealthyCount (vars w) + ticks [l]).
  { clear IH IH1 IH2 IH3. destruct Hs; try done; try (right; unfold ticks; cbn; lia).
    - right. unfold enqueue. destruct (_ <? _)%nat; unfold ticks; cbn; lia.
    - left. apply schedule_fields.
    - eapply bad_tick_counts in Hl; [|exact Ep]. unfold ticks. exact Hl. }
  destruct Hc as [Hc|Hc]; [left; by apply IH2|]. destruct IH3 as [IH3|IH3]; [by left|right].
  rewrite IH3, Hc. unfold ticks. cbn. destruct (is_tick l); cbn; lia.
Qed.

(** the variables of the supervisor's loop are consistent in every reachable
    state: a recovery is pending exactly when the timer is armed, at a
    deadline that is the planned time (or the present, if that is past); while
    none is pending fewer unhealthy ticks have been counted than the
    threshold; the queue holds at most 8 requests, with no negative delay;
    and nothing is pending once the loop has ended. *)
Theorem supervisor_invariant c w :
  reachable (newSmartRecoverySupervisor c) w → sup_inv (newSmartRecoverySupervisor c) w.
Proof.
  apply reachable_inv. cbn. destruct (Z.ltb_spec (unhealthyPolls c) 1); lia.
Qed.

(** an unhealthy tunnel is noticed: when [unhealthyPolls] ticks find the
    network up and the desired tunnel down, a recovery is pending, whatever
    requests arrive in between (if no reset intervenes and no recovery ran). *)
Theorem unhealthy_detected c w ls w' :
  let c' := newSmartRecoverySupervisor c in
  reachable c' w → done_ w = false → steps c' w ls w' → forallb quiet ls = true → Forall bad_tick ls →
  unhealthyPolls c' <= ticks ls → hasPending (vars w') = true ∧ is_Some (timer (vars w')).
Proof.
  intros c' Hr Hn Hs Hq Hb Ht.
  assert (Hp : 1 <= unhealthyPolls c') by (cbn; destruct (Z.ltb_spec (unhealthyPolls c) 1); lia).
  assert (Hr' : reachable c' w').
  { clear - Hr Hs. induction Hs; [done|]. apply IHHs. by eapply reach_step. }
  pose proof (reachable_inv c' w Hp Hr) as [_ [Hu _] _ _ _]. pose proof (reachable_inv c' w' Hp Hr') as [It _ Id _ _].
  destruct (quiet_steps_detect c' w ls w' Hs Hq Hb) as (Hd & _ & H).
  assert (hasPending (vars w') = true) as Hpend.
  { destruct H as [H|H]; [done|]. destruct (hasPending (vars w')) eqn:E; [done|]. rewrite Hn in Hd.
    specialize (Id Hd eq_refl). lia. }
  split; [done|]. unfold timer_ok in It. destruct (timer (vars w')); [by eexists|congruence].
Qed.

(** a pending recovery is never postponed and never loses its force by
    requests, ticks or the passing of time; only a reset or the end of the
    loop drops it, and only its own timer consumes it. *)
Theorem pending_never_postponed c w l w' :
  sup_step c w l w' → hasPending (vars w) = true → quiet l = true →
  hasPending (vars w') = true ∧ pendingAt (vars w') <= pendingAt (vars w)
  ∧ (force (pending (vars w)) = true → force (pending (vars w')) = true).
Proof. intros Hs Hp Hq. by apply (quiet_step_pending c w l w'). Qed.

Lemma smartRecoveryDelay_bounds k : Second <= smartRecoveryDelay k <= Minute.
Proof.
  unfold smartRecoveryDelay. set (a := if k <? 0 then 0 else k). assert (0 <= a) by (unfold a; destruct (Z.ltb_spec k 0); lia).
  clearbody a. rewrite Z.geb_leb. destruct (Z.leb_spec (Z.of_nat (length smartRecoveryDelays)) a) as [|Hlt]; [vm_compute; split; discriminate|].
  cbn in Hlt. assert (Ha : a = 0 ∨ a = 1 ∨ a = 2 ∨ a = 3 ∨ a = 4 ∨ a = 5) by lia.
  destruct Ha as [->|[->|[->|[->|[->| ->]]]]]; vm_compute; split; discriminate.
Qed.

(** a failed recovery is retried with the same reason and force: right
    after the failure it is pending again, due within a second at the
    earliest and a minute at the latest, whatever happened before. *)
Theorem failed_recovery_retried c w r e w' :
  let c' := newSmartRecoverySupervisor c in
  retryDelay c = None → sup_step c' w (LTimer r (Some e)) w' →
  hasPending (vars w') = true ∧ is_Some (timer (vars w'))
  ∧ reason (pending (vars w')) = reason r ∧ force (pending (vars w')) = force r
  ∧ clock w + Second <= pendingAt (vars w') <= clock w' + Minute.
Proof.
  intros c' Hc Hs. inv Hs. cbn [vars clock with_vars].
  match goal with |- context [on_timer _ ?a ?b _ _] => destruct (on_timer_failed c' a b e (vars w)) as (F1 & _ & _ & F4 & F5 & F6 & F7) end.
  split; [done|]. split; [unfold timer_ok in F4; destruct (timer _); [by eexists|congruence]|].
  split; [done|]. split; [done|]. rewrite F5. unfold retry_delay, c'. cbn. rewrite Hc. cbn.
  pose proof (smartRecoveryDelay_bounds (attempts (vars w))). lia.
Qed.

(** ** Liveness *)

Definition is_timer (l : label) : bool := match l with LTimer _ _ => true | _ => false end.

Definition timer_due (w : world) : Prop := ∃ d, timer (vars w) = Some d ∧ d <= clock w.

(** An infinite run in which time passes, the ticker ticks, and a timer does not
    stay due without being served. *)
Record fair_run (c : smartSupervisorConfig) (σ : nat → world) (ℓ : nat → label) : Prop := {
  fr_start : reachable c (σ O);
  fr_step : ∀ i, sup_step c (σ i) (ℓ i) (σ (S i));
  fr_time : ∀ t, ∃ i, t <= clock (σ i);
  fr_ticks : ∀ i, ∃ j, (i ≤ j)%nat ∧ is_tick (ℓ j) = true;
  fr_timer : ∀ i, ∃ j, (i ≤ j)%nat ∧ (is_timer (ℓ j) = true ∨ ~ timer_due (σ j));
}.

(** The tunnel stays desired and down, and nobody resets or stops the loop. *)
Definition down (ℓ : nat → label) : Prop :=
  ∀ i, bad_tick (ℓ i) ∧ match ℓ i with LReset | LStop => False | _ => True end.

Lemma step_clock c w l w' : sup_step c w l w' → clock w <= clock w'.
Proof. intros []; cbn; try lia. unfold enqueue. destruct (_ <? _)%nat; cbn; lia. Qed.

Lemma step_done c w l w' : sup_step c w l w' → match l with LStop => False | _ => True end → done_ w' = done_ w.
Proof. intros []; try done. intros _. unfold enqueue. by destruct (_ <? _)%nat. Qed.

Lemma steps_snoc c w ls w1 l w2 : steps c w ls w1 → sup_step c w1 l w2 → steps c w (ls ++ [l]) w2.
Proof. induction 1; intros H1; cbn; [by repeat econstructor|]. econstructor; [done|]. by apply IHsteps. Qed.

Lemma quiet_steps_pending c w ls w' : steps c w ls w' → forallb quiet ls = true → hasPending (vars w) = true →
  hasPending (vars w') = true ∧ pendingAt (vars w') <= pendingAt (vars w).
Proof.
  induction 1 as [w|w l w1 ls w2 Hs _ IH]; intros Hq Hp; [by split|]. cbn in Hq. apply andb_true_iff in Hq as [Hq1 Hq].
  destruct (quiet_step_pending c w l w1 Hs Hq1 Hp) as (Hp1 & Ha & _). destruct (IH Hq Hp1). split; [done|lia].
Qed.

Lemma reachable_steps c w ls w' : reachable c w → steps c w ls w' → reachable c w'.
Proof. intros Hr Hs. induction Hs; [done|]. apply IHHs. by eapply reach_step. Qed.

Section Liveness.
Variable c : smartSupervisorConfig.
Variable σ : nat → world.
Variable ℓ : nat → label.
Hypothesis run : fair_run c σ ℓ.
Hypothesis is_down : down ℓ.
Hypothesis polls : 1 <= unhealthyPolls c.

Definition segment (i n : nat) : list label := map ℓ (seq i n).

Lemma run_segment i n : steps c (σ i) (segment i n) (σ (i + n)%nat).
Proof using run.
  induction n as [|n IH]; [rewrite Nat.add_0_r; constructor|].
  unfold segment. rewrite seq_S, map_app, Nat.add_succ_r. eapply steps_snoc; [exact IH|]. apply (fr_step _ _ _ run).
Qed.

Lemma run_reachable i : reachable c (σ i).
Proof using run. eapply reachable_steps; [apply (fr_start _ _ _ run)|apply (run_segment 0 i)]. Qed.

Lemma run_clock i n : clock (σ i) <= clock (σ (i + n)%nat).
Proof using run.
  induction n as [|n IH]; [rewrite Nat.add_0_r; lia|]. rewrite Nat.add_succ_r.
  pose proof (step_clock _ _ _ _ (fr_step _ _ _ run (i + n)%nat)). lia.
Qed.

Lemma run_not_done i : done_ (σ i) = false.
Proof using run is_down.
  destruct (fr_ticks _ _ _ run i) as (j & Hij & Ht). assert (Hj : done_ (σ j) = false).
  { pose proof (fr_step _ _ _ run j) as Hs. destruct (ℓ j); try discriminate Ht. by inv Hs. }
  assert (E : ∀ n, done_ (σ (i + n)%nat) = done_ (σ i)).
  { induction n as [|n IH]; [by rewrite Nat.add_0_r|]. rewrite Nat.add_succ_r, <- IH.
    eapply step_done; [apply (fr_step _ _ _ run)|]. destruct (is_down (i + n)%nat) as [_ H]. destruct (ℓ (i + n)%nat); try exact I; destruct H. }
  rewrite <- (E (j - i)%nat). by replace (i + (j - i))%nat with j by lia.
Qed.

(** In a stretch of the run a recovery ran, or everything was quiet. *)
Lemma timer_or_quiet i n :
  (∃ j, (i ≤ j)%nat ∧ is_timer (ℓ j) = true) ∨ forallb quiet (segment i n) = true.
Proof using is_down.
  induction n as [|n IH]; [by right|]. destruct IH as [IH|IH]; [by left|].
  unfold segment in *. rewrite seq_S, map_app, forallb_app, IH. cbn.
  destruct (is_down (i + n)%nat) as [_ H]. destruct (ℓ (i + n)%nat) eqn:E; try (by right); try done.
  left. exists (i + n)%nat. rewrite E. split; [lia|done].
Qed.

Lemma ticks_app l1 l2 : ticks (l1 ++ l2) = ticks l1 + ticks l2.
Proof. unfold ticks. rewrite List.filter_app, length_app. lia. Qed.

Lemma ticks_nonneg l : 0 <= ticks l.
Proof. unfold ticks. lia. Qed.

Lemma enough_ticks i k : ∃ n, Z.of_nat k <= ticks (segment i n).
Proof using run.
  induction k as [|k [n Hn]]; [exists O; apply ticks_nonneg|].
  destruct (fr_ticks _ _ _ run (i + n)%nat) as (j & Hj & Ht). exists (n + (S (j - (i + n))))%nat.
  unfold segment in *. rewrite seq_app, map_app, ticks_app. rewrite seq_S, map_app, ticks_app.
  replace (i + n + (j - (i + n)))%nat with j by lia.
  assert (H1 : ticks (map ℓ [j]) = 1) by (unfold ticks; cbn; by rewrite Ht). rewrite H1.
  pose proof (ticks_nonneg (map ℓ (seq (i + n) (j - (i + n))))). lia.
Qed.

Lemma recovery_again i : ∃ j, (i ≤ j)%nat ∧ is_timer (ℓ j) = true.
Proof using run is_down polls.
  destruct (enough_ticks i (Z.to_nat (unhealthyPolls c))) as [n Hn].
  destruct (timer_or_quiet i n) as [H|Hq]; [done|].
  assert (Hb : ∀ a b, Forall bad_tick (segment a b)).
  { intros a b. apply Forall_map, Forall_true. intros k. apply (is_down k). }
  destruct (quiet_steps_detect c _ _ _ (run_segment i n) Hq (Hb i n)) as (_ & _ & Hdet).
  set (m := (i + n)%nat) in *.
  assert (Hp : hasPending (vars (σ m)) = true).
  { destruct Hdet as [H|H]; [done|]. destruct (hasPending (vars (σ m))) eqn:E; [done|].
    destruct (reachable_inv c _ polls (run_reachable m)) as [_ _ Id _ _].
    destruct (reachable_inv c _ polls (run_reachable i)) as [_ [Hu _] _ _ _].
    specialize (Id (run_not_done m) E). lia. }
  destruct (fr_time _ _ _ run (pendingAt (vars (σ m)))) as [p Hpt].
  destruct (fr_timer _ _ _ run (m + p)%nat) as (j & Hj & [Ht|Hnd]).
  { exists j. split; [lia|done]. }
  destruct (timer_or_quiet m (j - m)) as [(k & Hk & Ht)|Hq2]; [exists k; split; [lia|done]|].
  destruct (quiet_steps_pending c _ _ _ (run_segment m (j - m)) Hq2 Hp) as [Hp2 Ha].
  replace (m + (j - m))%nat with j in * by lia. exfalso. apply Hnd.
  destruct (reachable_inv c _ polls (run_reachable j)) as [It _ _ _ _]. unfold timer_ok in It. unfold timer_due.
  destruct (timer (vars (σ j))) as [d|]; [|congruence]. exists d. split; [done|].
  pose proof (run_clock p (j - p)) as Hc. replace (p + (j - p))%nat with j in Hc by lia. lia.
Qed.
End Liveness.

(** C21: recovery never gives up: in every fair run in which the desired tunnel
    stays down while the network is up, and nobody resets or stops the
    supervisor, [recover] is called again and again. *)
Theorem recovery_attempted_forever c σ ℓ :
  fair_run (newSmartRecoverySupervisor c) σ ℓ → down ℓ →
  ∀ i, ∃ j, (i ≤ j)%nat ∧ is_timer (ℓ j) = true.
Proof.
  intros Hr Hd. apply (recovery_again (newSmartRecoverySupervisor c) σ); [done|done|].
  cbn. destruct (Z.ltb_spec (unhealthyPolls c) 1); lia.
Qed.

(** ** A reset overtakes a later request *)

(** [reset] and [requests] are separate channels: a request made after
    [markHealthy] (the request of a resume after the reset of a suspend) is
    dropped when the loop happens to receive the request first. *)
Theorem reset_drops_later_request c r t net :
  ∃ w1 w2 w3 w4, sup_step c (start_world t net) LMarkHealthy w1 ∧ sup_step c w1 (LCall r) w2
    ∧ sup_step c w2 LRequest w3 ∧ hasPending (vars w3) = true
    ∧ sup_step c w3 LReset w4 ∧ hasPending (vars w4) = false ∧ requests w4 = [].
Proof.
  do 4 eexists. split; [apply step_mark|]. split; [apply step_call|]. split.
  { eapply (step_request _ _ _ [] t t); [reflexivity|reflexivity|cbn; lia|lia]. }
  split; [apply schedule_fields|]. split; [by apply step_reset|]. done.
Qed.

(** ** Concrete runs *)

Definition eager : smartSupervisorConfig := newSmartRecoverySupervisor (mkSupConfig 0 0 1 None).
Definition up : network_result := ("n", true, None).
Definition wanted : desired_result := ("t", true, None).
Definition sick (name : gostring) : bool := false.

(** Tick, recover, let a nanosecond pass; for ever. *)
Definition turn (phase : nat) (w : world) : label * world :=
  match phase with
  | O => (LTick up wanted sick, with_vars (clock w) (on_tick eager (clock w) (clock w) up wanted sick) w)
  | S O => (LTimer (timer_request (vars w)) None, with_vars (clock w) (on_timer eager (clock w) (clock w) None) w)
  | _ => (LTime, mkWorld (clock w + 1) (requests w) (reset w) (stop w) (done_ w) (vars w))
  end.

Fixpoint worlds (i : nat) : world :=
  match i with O => start_world 0 up | S i => snd (turn (i mod 3) (worlds i)) end.
Definition labels (i : nat) : label := fst (turn (i mod 3) (worlds i)).

Definition idle (k : Z) (w : world) : Prop :=
  clock w = k ∧ done_ w = false ∧ timer (vars w) = None ∧ hasPending (vars w) = false ∧ unhealthyCount (vars w) = 0
  ∧ haveSignature (vars w) = true ∧ lastOnline (vars w) = true ∧ lastSignature (vars w) = "n".
Definition due (k : Z) (w : world) : Prop :=
  clock w = k ∧ done_ w = false ∧ timer (vars w) = Some k ∧ unhealthyCount (vars w) = 0
  ∧ haveSignature (vars w) = true ∧ lastOnline (vars w) = true ∧ lastSignature (vars w) = "n".

Lemma idle_tick k w : idle k w → due k (snd (turn 0 w)).
Proof.
  intros (Hc & Hd & Ht & Hp & Hu & Hs & Ho & Hl). unfold turn, with_vars, on_tick, up, wanted, sick, due. cbn.
  rewrite Hs, Ho, Hl. cbn. rewrite Hu, Hp. cbn. unfold schedule, arm. cbn. rewrite Hp. cbn.
  rewrite Hc. repeat split; auto. change (Some (k + (if k + 0 - k <? 0 then 0 else k + 0 - k)) = Some k). f_equal. destruct (Z.ltb_spec (k + 0 - k) 0); lia.
Qed.

Lemma due_timer k w : due k w → idle k (snd (turn 1 w)).
Proof. intros (Hc & Hd & Ht & Hu & Hs & Ho & Hl). by repeat split. Qed.

Lemma idle_time k w : idle k w → idle (k + 1) (snd (turn 2 w)).
Proof. intros (Hc & Hd & Ht & Hp & Hu & Hs & Ho & Hl). repeat split; auto. cbn. lia. Qed.

Lemma mod3 k j : (j < 3)%nat → ((3 * k + j) mod 3)%nat = j.
Proof. intros Hj. rewrite Nat.mul_comm, Nat.add_comm, Nat.Div0.mod_add. by apply Nat.mod_small. Qed.

Lemma worlds_shape k :
  idle (Z.of_nat k) (worlds (3 * k)) ∧ due (Z.of_nat k) (worlds (3 * k + 1)) ∧ idle (Z.of_nat k) (worlds (3 * k + 2)).
Proof.
  assert (Hstep : ∀ k, idle (Z.of_nat k) (worlds (3 * k)) →
    due (Z.of_nat k) (worlds (3 * k + 1)) ∧ idle (Z.of_nat k) (worlds (3 * k + 2)) ∧ idle (Z.of_nat (S k)) (worlds (3 * S k))).
  { intros j H. assert (H1 : due (Z.of_nat j) (worlds (3 * j + 1))).
    { rewrite Nat.add_1_r. cbn [worlds]. rewrite <- (Nat.add_0_r (3 * j)) at 1. rewrite mod3 by lia. by apply idle_tick. }
    assert (H2 : idle (Z.of_nat j) (worlds (3 * j + 2))).
    { replace (3 * j + 2)%nat with (S (3 * j + 1)) by lia. cbn [worlds]. rewrite mod3 by lia. by apply due_timer. }
    split; [done|]. split; [done|]. replace (3 * S j)%nat with (S (3 * j + 2)) by lia. cbn [worlds]. rewrite mod3 by lia.
    rewrite Nat2Z.inj_succ. by apply idle_time. }
  induction k as [|k IH]; [|destruct IH as [IH _]].
  - assert (H : idle 0 (worlds (3 * 0))) by done. destruct (Hstep O H) as (? & ? & ?). auto.
  - destruct (Hstep k IH) as (_ & _ & H). destruct (Hstep (S k) H) as (? & ? & ?). auto.
Qed.

Lemma split3 i : ∃ k j, i = (3 * k + j)%nat ∧ (j < 3)%nat.
Proof.
  exists (i / 3)%nat, (i mod 3)%nat. split; [apply Nat.div_mod_eq|]. by apply Nat.mod_upper_bound.
Qed.

Lemma worlds_step i : sup_step eager (worlds i) (labels i) (worlds (S i)).
Proof.
  unfold labels. cbn [worlds]. destruct (split3 i) as (k & j & -> & Hj). rewrite mod3 by done.
  destruct (worlds_shape k) as (H0 & H1 & H2). destruct j as [|[|[|j]]]; [| | |lia].
  - rewrite Nat.add_0_r. destruct H0 as (_ & Hd & _). apply step_tick; [done|lia|lia].
  - destruct H1 as (Hc & Hd & Ht & _). eapply step_timer; [done|exact Ht|lia|lia|lia].
  - apply step_time. lia.
Qed.

Lemma worlds_fair : fair_run eager worlds labels.
Proof.
  constructor.
  - apply reach_start.
  - apply worlds_step.
  - intros t. exists (3 * Z.to_nat t)%nat. destruct (worlds_shape (Z.to_nat t)) as ((-> & _) & _). lia.
  - intros i. exists (3 * i)%nat. split; [lia|]. unfold labels. rewrite <- (Nat.add_0_r (3 * i)) at 1. by rewrite mod3 by lia.
  - intros i. exists (3 * i + 1)%nat. split; [lia|]. left. unfold labels. by rewrite mod3 by lia.
Qed.

Lemma worlds_down : down labels.
Proof.
  intros i. unfold labels. destruct (split3 i) as (k & j & -> & Hj). rewrite mod3 by done.
  by destruct j as [|[|j]].
Qed.

Lemma recovery_attempted_forever_witness : ∃ j, (1000 ≤ j)%nat ∧ is_timer (labels j) = true.
Proof. exact (recovery_attempted_forever (mkSupConfig 0 0 1 None) worlds labels worlds_fair worlds_down 1000%nat). Defined.

Definition plain : smartSupervisorConfig := mkSupConfig 0 0 0 None.

Lemma supervisor_invariant_witness : sup_inv (newSmartRecoverySupervisor plain) (start_world 7 up).
Proof. exact (supervisor_invariant plain _ (reach_start _ 7 up)). Defined.

Definition sick_tick (t : Z) (w : world) : world :=
  with_vars t (on_tick (newSmartRecoverySupervisor plain) t t up wanted sick) w.

Lemma unhealthy_detected_witness :
  hasPending (vars (sick_tick 2 (sick_tick 1 (start_world 0 up)))) = true
  ∧ is_Some (timer (vars (sick_tick 2 (sick_tick 1 (start_world 0 up))))).
Proof.
  refine (unhealthy_detected plain (start_world 0 up) [LTick up wanted sick; LTick up wanted sick] _
    (reach_start _ 0 up) eq_refl _ eq_refl _ _).
  - eapply steps_cons; [apply (step_tick _ _ 1 1); [reflexivity|cbn; lia|lia]|].
    eapply steps_cons; [apply (step_tick _ _ 2 2); [reflexivity|cbn; lia|lia]|]. apply steps_nil.
  - by repeat constructor.
  - vm_compute. discriminate.
Defined.

Definition asked : world :=
  mkWorld 5 [] false false false (schedule 5 5 (mkRequest "engine exited" false (500 * Millisecond)) (run_start up)).

Lemma pending_never_postponed_witness :
  hasPending (vars (sick_tick 9 asked)) = true ∧ pendingAt (vars (sick_tick 9 asked)) <= pendingAt (vars asked)
  ∧ (force (pending (vars asked)) = true → force (pending (vars (sick_tick 9 asked))) = true).
Proof.
  apply (pending_never_postponed (newSmartRecoverySupervisor plain) asked (LTick up wanted sick)); [|reflexivity|reflexivity].
  apply (step_tick _ _ 9 9); [reflexivity|cbn; lia|lia].
Defined.

Lemma failed_recovery_retried_witness :
  let w := mkWorld (Hour) [] false false false (vars asked) in
  let w' := with_vars Hour (on_timer (newSmartRecoverySupervisor plain) Hour Hour (Some ErrEOF)) w in
  hasPending (vars w') = true ∧ is_Some (timer (vars w'))
  ∧ reason (pending (vars w')) = "engine exited" ∧ force (pending (vars w')) = false
  ∧ clock w + Second <= pendingAt (vars w') <= clock w' + Minute.
Proof.
  intros w w'. apply (failed_recovery_retried plain w (mkRequest "engine exited" false (500 * Millisecond)) ErrEOF w' eq_refl).
  apply (step_timer _ w (5 + 500 * Millisecond)); [reflexivity|reflexivity|vm_compute; discriminate|apply Z.le_refl|apply Z.le_refl].
Defined.
