(* ===== verification/ManagerNet.v ===== *)
(** * The physical network as the supervisor sees it
    ([client/manager/smart_supervisor.go], second half)

    Which interfaces carry the default routes, their addresses in a form that
    does not change when a temporary IPv6 address does, and a fingerprint of
    all of it.  The tables of Windows and [net.Interfaces] are arguments. *)
From S2P Require Import Prelude GoStrings GoStrconv GoEncoding GoNet GoSha256 TunnelName AwgValidation.

Local Open Scope Z_scope.

(** [smart.TunInterfaceName] *)
Definition smart_TunInterfaceName : gostring := "pinus-smart-preview".

(** ** Sorting *)

Definition str_le (s t : gostring) : Prop := str_compare s t ≠ Gt.
#[export] Instance str_le_dec : RelDecision str_le.
Proof. intros s t. unfold str_le. apply _. Defined.

(** [sort.Strings] *)
Definition sort_Strings (l : list gostring) : list gostring := merge_sort str_le l.

#[export] Instance str_le_total : Total str_le.
Proof.
  intros s t. unfold str_le. rewrite (str_compare_antisym s t). destruct (str_compare s t); cbn; auto.
Qed.

#[export] Instance str_le_trans : Transitive str_le.
Proof.
  intros s t u H1 H2 H. unfold str_le in *.
  assert (Hlt : ∀ a b, str_compare a b ≠ Gt → str_compare a b = Lt ∨ a = b).
  { intros a b Hab. destruct (str_compare a b) eqn:E; [right; by apply str_compare_eq|by left|done]. }
  destruct (Hlt _ _ H1) as [L1| ->]; [|done]. destruct (Hlt _ _ H2) as [L2| <-]; [|congruence].
  pose proof (str_compare_lt_trans _ _ _ L1 L2). congruence.
Qed.

#[export] Instance str_le_antisym : AntiSymm eq str_le.
Proof.
  intros s t H1 H2. unfold str_le in *. rewrite (str_compare_antisym s t) in H2.
  destruct (str_compare s t) eqn:E; cbn in *; [by apply str_compare_eq|done|done].
Qed.

Lemma sort_Strings_perm l l' : l ≡ₚ l' → sort_Strings l = sort_Strings l'.
Proof.
  intros H. apply (StronglySorted_unique str_le); [apply StronglySorted_merge_sort; apply _..|].
  unfold sort_Strings. by rewrite !merge_sort_Permutation.
Qed.

(** ** Default routes *)

Record smartDefaultRouteCandidate := mkCandidate {
  InterfaceIndex : Z;
  RouteMetric : Z;      (* uint32 *)
  InterfaceMetric : Z;  (* uint32 *)
  Up : bool;
  Excluded : bool;
}.

Definition max_uint64 : Z := 2 ^ 64 - 1.

Definition candidate_metric (c : smartDefaultRouteCandidate) : Z := RouteMetric c + InterfaceMetric c.

(** The loop body: the lowest metric so far and the selected indexes. *)
Definition select_candidate (acc : Z * gset Z) (c : smartDefaultRouteCandidate) : Z * gset Z :=
  let '(lowestMetric, selected) := acc in
  if (InterfaceIndex c <=? 0) || negb (Up c) || Excluded c then acc
  else
    let metric := candidate_metric c mod 2 ^ 64 in
    let '(lowestMetric, selected) :=
      if metric <? lowestMetric then (metric, ∅) else (lowestMetric, selected) in
    if metric =? lowestMetric then (lowestMetric, {[InterfaceIndex c]} ∪ selected) else (lowestMetric, selected).

Definition selectSmartDefaultRouteIndexes (candidates : list smartDefaultRouteCandidate) : gset Z :=
  snd (fold_left select_candidate candidates (max_uint64, ∅)).

(** What [GetIPForwardTable2], [LUID.Interface] and [LUID.IPInterface] tell of a
    route; the last two are [None] when the call fails. *)
Record forward_row := mkRow {
  PrefixLength : Z;
  row_InterfaceIndex : Z;
  row_Metric : Z;
  row_Interface : option (gostring * Z * Z);  (* alias, type, operational status *)
  row_IPInterface : option Z;                 (* metric *)
}.

Definition IfOperStatusUp : Z := 1.
Definition IfTypeSoftwareLoopback : Z := 24.
Definition IfTypeTunnel : Z := 131.

Section Network.
Context {RT : GoRuntime}.

Definition row_candidate (row : forward_row) : option smartDefaultRouteCandidate :=
  if negb (PrefixLength row =? 0) then None
  else
    '(alias, typ, oper) ← row_Interface row;
    metric ← row_IPInterface row;
    Some (mkCandidate (row_InterfaceIndex row) (row_Metric row) metric (oper =? IfOperStatusUp)
      (EqualFold alias smart_TunInterfaceName || (typ =? IfTypeTunnel) || (typ =? IfTypeSoftwareLoopback))).

(** [routes] is the answer of [GetIPForwardTable2] for the family. *)
Definition smartDefaultRouteIndexesForFamily (routes : outcome (list forward_row)) : outcome (gset Z) :=
  (λ rows, selectSmartDefaultRouteIndexes (omap row_candidate rows)) <$> routes.

Definition smartDefaultRouteIndexes (v4 v6 : outcome (list forward_row)) : outcome (gset Z) :=
  let '(ok, selected, errs) :=
    fold_left (λ acc routes, let '(ok, selected, errs) := acc in
      match smartDefaultRouteIndexesForFamily routes with
      | Ret indexes => (S ok, indexes ∪ selected, errs)
      | Fail e => (ok, selected, errs ++ [e])
      | Panic => acc
      end) [v4; v6] (O, ∅ : gset Z, []) in
  if (ok =? 0)%nat then Fail (JoinError errs) else Ret selected.

(** ** Addresses *)

Definition normalizeSmartNetworkAddress (value : gostring) : gostring :=
  match ParseCIDR value with
  | None => []
  | Some (ip, network) =>
      if IsUnspecified ip || IsLoopback ip || IsLinkLocalUnicast ip || IsMulticast ip then []
      else
        let ones := default 0 (simpleMaskLength (net_Mask network)) in
        match To4 ip with
        | Some ipv4 => IP_String ipv4 ++ "/" ++ Itoa ones
        | None => IP_String (default [] (IP_Mask ip (net_Mask network))) ++ "/" ++ Itoa ones
        end
  end.

(** ** Fingerprint *)

Record smartNetworkRecord := mkRecord {
  rec_Index : Z;
  rec_Name : gostring;
  rec_MTU : Z;
  Hardware : gostring;
  rec_Addresses : list gostring;
}.

(** [fmt]'s "%d". *)
Definition fmt_d (z : Z) : gostring := Itoa z.

Definition record_le (a b : smartNetworkRecord) : Prop :=
  rec_Index a < rec_Index b ∨ rec_Index a = rec_Index b ∧ str_le (rec_Name a) (rec_Name b).
#[export] Instance record_le_dec : RelDecision record_le.
Proof. intros a b. unfold record_le. apply _. Defined.

Definition sort_addresses (r : smartNetworkRecord) : smartNetworkRecord :=
  mkRecord (rec_Index r) (rec_Name r) (rec_MTU r) (Hardware r) (sort_Strings (rec_Addresses r)).

Definition record_line (r : smartNetworkRecord) : gostring :=
  fmt_d (rec_Index r) ++ [x00] ++ rec_Name r ++ [x00] ++ fmt_d (rec_MTU r) ++ [x00] ++ Hardware r ++ [x00]
  ++ Join (rec_Addresses r) "," ++ [x0a].

(** The text that is hashed; records are sorted by index, then name. *)
Definition fingerprint_text (records : list smartNetworkRecord) : gostring :=
  concat (map record_line (merge_sort record_le (map sort_addresses records))).

Definition smartNetworkFingerprintFromRecords (records : list smartNetworkRecord) : gostring :=
  hex_EncodeToString (Sum256 (fingerprint_text records)).

(** ** The network *)

(** An element of [net.Interfaces], with the answer of its [Addrs]. *)
Record net_Interface := mkNetInterface {
  if_Index : Z;
  if_Name : gostring;
  if_MTU : Z;
  if_HardwareAddr : gostring;
  FlagUp : bool;
  FlagLoopback : bool;
  Addrs : outcome (list gostring);
}.

Definition interface_record (defaultRouteIndexes : gset Z) (iface : net_Interface) : option smartNetworkRecord :=
  if negb (FlagUp iface) || FlagLoopback iface || EqualFold (if_Name iface) smart_TunInterfaceName then None
  else if negb (bool_decide (if_Index iface ∈ defaultRouteIndexes)) then None
  else match Addrs iface with
       | Ret addresses =>
           let normalized := List.filter (λ v, negb (v =?s [])) (map normalizeSmartNetworkAddress addresses) in
           match normalized with
           | [] => None
           | _ => Some (mkRecord (if_Index iface) (if_Name iface) (if_MTU iface) (if_HardwareAddr iface) normalized)
           end
       | _ => None
       end.

(** Signature, online flag and error. *)
Definition physicalSmartNetwork (v4 v6 : outcome (list forward_row)) (interfaces : outcome (list net_Interface))
    : gostring * bool * option goerror :=
  match smartDefaultRouteIndexes v4 v6 with
  | Ret indexes =>
      match interfaces with
      | Ret ifs =>
          match omap (interface_record indexes) ifs with
          | [] => ([], false, None)
          | records => (smartNetworkFingerprintFromRecords records, true, None)
          end
      | Fail e => ([], false, Some e)
      | Panic => ([], false, None)
      end
  | Fail e => ([], false, Some e)
  | Panic => ([], false, None)
  end.
End Network.

Example normalize_examples :
  map normalizeSmartNetworkAddress ["192.168.1.25/24"; "2001:db8::1234/64"; "fe80::1/64"; "127.0.0.1/8"]
  = ["192.168.1.25/24"; "2001:db8::/64"; []; []].
Proof. vm_compute. reflexivity. Qed.

(** ** The physical network: theorems

    The selected interfaces are those of the cheapest usable default routes, and
    the fingerprint does not depend on the order in which Windows lists things. *)

Local Open Scope Z_scope.

(** ** Default routes *)

Definition usable (c : smartDefaultRouteCandidate) : Prop :=
  0 < InterfaceIndex c ∧ Up c = true ∧ Excluded c = false.

Definition metrics_uint32 (c : smartDefaultRouteCandidate) : Prop :=
  0 <= RouteMetric c < 2 ^ 32 ∧ 0 <= InterfaceMetric c < 2 ^ 32.

Lemma not_usable c : (InterfaceIndex c <=? 0) || negb (Up c) || Excluded c = true ↔ ~ usable c.
Proof.
  unfold usable. destruct (Z.leb_spec (InterfaceIndex c) 0), (Up c), (Excluded c); cbn; split; try done; intros; try lia; intuition lia || done.
Qed.

Lemma metric_small c : metrics_uint32 c → candidate_metric c mod 2 ^ 64 = candidate_metric c ∧ 0 <= candidate_metric c < max_uint64.
Proof. unfold metrics_uint32, candidate_metric, max_uint64. intros [? ?]. rewrite Z.mod_small; lia. Qed.

(** The accumulator after the candidates [l]. *)
Definition selects (l : list smartDefaultRouteCandidate) (acc : Z * gset Z) : Prop :=
  (∀ c, c ∈ l → usable c → fst acc <= candidate_metric c)
  ∧ (∀ i, i ∈ snd acc ↔ ∃ c, c ∈ l ∧ usable c ∧ InterfaceIndex c = i ∧ candidate_metric c = fst acc)
  ∧ (fst acc = max_uint64 ∨ ∃ c, c ∈ l ∧ usable c ∧ candidate_metric c = fst acc).

Lemma select_step l acc c : metrics_uint32 c → selects l acc → selects (l ++ [c]) (select_candidate acc c).
Proof.
  intros Hm (H1 & H2 & H3). destruct acc as [low sel]. cbn [fst snd] in *. destruct (metric_small c Hm) as [Em Hb].
  unfold select_candidate. destruct (_ || Excluded c) eqn:E.
  - apply not_usable in E. split; [|split]; cbn [fst snd].
    + intros c' Hin. apply elem_of_app in Hin as [Hin|Hin]; [by apply H1|]. apply list_elem_of_singleton in Hin as ->. done.
    + intros i. rewrite H2. split; intros (c' & Hin & Hu & ?); exists c'; (split; [|by split]); [set_solver|].
      apply elem_of_app in Hin as [Hin|Hin]; [done|]. apply list_elem_of_singleton in Hin as ->. done.
    + destruct H3 as [H3|(c' & ? & ?)]; [by left|right; exists c'; set_solver].
  - assert (Hu : usable c). { destruct (decide (usable c)) as [|Hn]; [done|]. apply not_usable in Hn. congruence. }
    rewrite Em. destruct (Z.ltb_spec (candidate_metric c) low) as [Hlt|Hge].
    + rewrite Z.eqb_refl. split; [|split]; cbn [fst snd].
      * intros c' Hin Hu'. apply elem_of_app in Hin as [Hin|Hin]; [specialize (H1 c' Hin Hu'); lia|].
        apply list_elem_of_singleton in Hin as ->. lia.
      * intros i. split.
        { intros Hi. assert (i = InterfaceIndex c) as -> by set_solver. exists c. set_solver. }
        { intros (c' & Hin & Hu' & Hi & Hc'). apply elem_of_app in Hin as [Hin|Hin]; [specialize (H1 c' Hin Hu'); lia|].
          apply list_elem_of_singleton in Hin as ->. set_solver. }
      * right. exists c. set_solver.
    + destruct (Z.eqb_spec (candidate_metric c) low) as [Heq|Hne]; (split; [|split]); cbn [fst snd].
      * intros c' Hin Hu'. apply elem_of_app in Hin as [Hin|Hin]; [by apply H1|]. apply list_elem_of_singleton in Hin as ->. lia.
      * intros i. rewrite elem_of_union, elem_of_singleton, H2. split.
        { intros [->|(c' & ? & ?)]; [exists c; set_solver|exists c'; set_solver]. }
        { intros (c' & Hin & Hu' & Hi & Hc'). apply elem_of_app in Hin as [Hin|Hin]; [right; by exists c'|].
          apply list_elem_of_singleton in Hin as ->. by left. }
      * right. exists c. set_solver.
      * intros c' Hin Hu'. apply elem_of_app in Hin as [Hin|Hin]; [by apply H1|]. apply list_elem_of_singleton in Hin as ->. lia.
      * intros i. rewrite H2. split; intros (c' & Hin & Hu' & Hi & Hc'); exists c'; (split; [|by split]); [set_solver|].
        apply elem_of_app in Hin as [Hin|Hin]; [done|]. apply list_elem_of_singleton in Hin as ->. done.
      * destruct H3 as [H3|(c' & ? & ?)]; [by left|right; exists c'; set_solver].
Qed.

Lemma select_fold l : Forall metrics_uint32 l → selects l (fold_left select_candidate l (max_uint64, ∅)).
Proof.
  induction l as [|c l IH] using rev_ind; intros Hm.
  - cbn. split; [|split]; cbn [fst snd]; [intros c Hc; set_solver| |by left].
    intros i. split; [set_solver|]. intros (c & Hc & _). set_solver.
  - rewrite fold_left_app. apply Forall_app in Hm as [Hm Hc]. inv Hc. apply select_step; auto.
Qed.

(** an interface is selected exactly when one of its usable default routes
    (up, not the program's own tunnel, not a tunnel or loopback) has the lowest
    total metric of all usable ones; the sum of two 32-bit metrics never
    wraps. *)
Theorem selectSmartDefaultRouteIndexes_spec candidates i :
  Forall metrics_uint32 candidates →
  i ∈ selectSmartDefaultRouteIndexes candidates
  ↔ ∃ c, c ∈ candidates ∧ usable c ∧ InterfaceIndex c = i
      ∧ ∀ c', c' ∈ candidates → usable c' → candidate_metric c <= candidate_metric c'.
Proof.
  intros Hm. unfold selectSmartDefaultRouteIndexes. destruct (select_fold candidates Hm) as (H1 & H2 & H3).
  rewrite H2. split.
  - intros (c & Hin & Hu & Hi & Hc). exists c. split; [done|]. split; [done|]. split; [done|].
    intros c' Hin' Hu'. rewrite Hc. by apply H1.
  - intros (c & Hin & Hu & Hi & Hmin). exists c. split; [done|]. split; [done|]. split; [done|].
    destruct H3 as [H3|(c0 & Hin0 & Hu0 & H0)].
    + specialize (H1 c Hin Hu). rewrite Forall_forall in Hm. destruct (metric_small c (Hm c Hin)) as [_ Hb]. lia.
    + specialize (Hmin c0 Hin0 Hu0). specialize (H1 c Hin Hu). lia.
Qed.

(** ** Fingerprint *)

#[export] Instance record_le_total : Total record_le.
Proof.
  intros a b. unfold record_le. destruct (Z.lt_trichotomy (rec_Index a) (rec_Index b)) as [|[E|]]; [by left; left| |by right; left].
  destruct (str_le_total (rec_Name a) (rec_Name b)); [left|right]; right; split; done.
Qed.

#[export] Instance record_le_trans : Transitive record_le.
Proof.
  intros a b c [H1|[E1 H1]] [H2|[E2 H2]]; unfold record_le; [left; lia|left; lia|left; lia|].
  right. split; [lia|]. by etrans.
Qed.

Lemma record_le_key a b : record_le a b → record_le b a → rec_Index a = rec_Index b ∧ rec_Name a = rec_Name b.
Proof.
  intros [H1|[E1 H1]] [H2|[E2 H2]]; try lia. split; [done|]. by apply (anti_symm str_le).
Qed.

(** Sorting by a key that tells the elements apart gives one result. *)
Lemma sorted_by_key_unique (l l' : list smartNetworkRecord) :
  StronglySorted record_le l → StronglySorted record_le l' → l ≡ₚ l' →
  NoDup (map (λ r, (rec_Index r, rec_Name r)) l) → l = l'.
Proof.
  intros Hl. revert l'. induction Hl as [|x l Hl IH Hx]; intros l' Hl' Hp Hd.
  { symmetry in Hp. by apply Permutation_nil_r in Hp. }
  destruct Hl' as [|y l' Hl' Hy]; [by apply Permutation_nil_r in Hp|].
  assert (x = y) as ->.
  { assert (Hin1 : y ∈ x :: l) by (rewrite Hp; by left). assert (Hin2 : x ∈ y :: l') by (rewrite <- Hp; by left).
    apply elem_of_cons in Hin1 as [->|Hin1]; [done|]. apply elem_of_cons in Hin2 as [->|Hin2]; [done|].
    rewrite Forall_forall in Hx, Hy. destruct (record_le_key x y (Hx _ Hin1) (Hy _ Hin2)) as [E1 E2].
    cbn in Hd. apply NoDup_cons in Hd as [Hd _]. exfalso. apply Hd. apply list_elem_of_fmap. exists y. by rewrite E1, E2. }
  f_equal. apply IH; [done|by apply Permutation_cons_inv in Hp|]. cbn in Hd. by apply NoDup_cons in Hd as [_ ?].
Qed.

(** The same addresses in another order. *)
Definition same_record (a b : smartNetworkRecord) : Prop :=
  rec_Index a = rec_Index b ∧ rec_Name a = rec_Name b ∧ rec_MTU a = rec_MTU b ∧ Hardware a = Hardware b
  ∧ rec_Addresses a ≡ₚ rec_Addresses b.

Lemma sort_addresses_same a b : same_record a b → sort_addresses a = sort_addresses b.
Proof. intros (E1 & E2 & E3 & E4 & Hp). unfold sort_addresses. rewrite E1, E2, E3, E4. f_equal. by apply sort_Strings_perm. Qed.

(** the fingerprint depends neither on the order of the interfaces nor on
    the order of their addresses (interfaces differ in index or name). *)
Theorem fingerprint_order_independent records records' reordered :
  NoDup (map (λ r, (rec_Index r, rec_Name r)) records) →
  Forall2 same_record records reordered → reordered ≡ₚ records' →
  smartNetworkFingerprintFromRecords records = smartNetworkFingerprintFromRecords records'.
Proof.
  intros Hd Hs Hp. unfold smartNetworkFingerprintFromRecords. do 2 f_equal. unfold fingerprint_text. do 2 f_equal.
  assert (E : map sort_addresses records = map sort_addresses reordered).
  { clear Hd Hp. induction Hs as [|a b l l' Hab _ IH]; [done|]. cbn. by rewrite (sort_addresses_same a b Hab), IH. }
  apply sorted_by_key_unique; [apply StronglySorted_merge_sort; apply _..| |].
  - rewrite !merge_sort_Permutation, E. by apply Permutation_map.
  - assert (Hk : map (λ r, (rec_Index r, rec_Name r)) (map sort_addresses records) = map (λ r, (rec_Index r, rec_Name r)) records)
      by (rewrite map_map; done).
    rewrite <- Hk in Hd. eapply NoDup_Permutation_proper; [|exact Hd]. apply Permutation_map, merge_sort_Permutation.
Qed.

Lemma selectSmartDefaultRouteIndexes_spec_witness :
  let cs := [mkCandidate 20 0 0 true true; mkCandidate 19 0 25 true false; mkCandidate 21 0 100 true false; mkCandidate 22 0 1 false false] in
  19 ∈ selectSmartDefaultRouteIndexes cs
  ↔ ∃ c, c ∈ cs ∧ usable c ∧ InterfaceIndex c = 19 ∧ ∀ c', c' ∈ cs → usable c' → candidate_metric c <= candidate_metric c'.
Proof.
  intros cs. apply (selectSmartDefaultRouteIndexes_spec cs 19).
  repeat (apply Forall_cons_2; [unfold metrics_uint32; cbn; lia|]). apply Forall_nil_2.
Defined.

Definition wifi : smartNetworkRecord := mkRecord 9 "Wi-Fi" 1500 "aa" ["2001:db8::/64"; "192.168.1.5/24"].
Definition wifi' : smartNetworkRecord := mkRecord 9 "Wi-Fi" 1500 "aa" ["192.168.1.5/24"; "2001:db8::/64"].
Definition ethernet : smartNetworkRecord := mkRecord 4 "Ethernet" 1500 "bb" ["10.0.0.2/24"].

Lemma fingerprint_order_independent_witness :
  smartNetworkFingerprintFromRecords [wifi; ethernet] = smartNetworkFingerprintFromRecords [ethernet; wifi'].
Proof.
  apply (fingerprint_order_independent [wifi; ethernet] [ethernet; wifi'] [wifi'; ethernet]).
  - apply (bool_decide_unpack _). vm_compute. exact I.
  - apply Forall2_cons_2; [repeat split; apply Permutation_swap|]. apply Forall2_cons_2; [repeat split; reflexivity|apply Forall2_nil_2].
  - apply Permutation_swap.
Defined.
