(* ===== verification/ManagerTypes.v ===== *)
(** * Tunnel states, native switching, notifications
    ([client/manager]: ipc_client.go, native_switch.go, tunneltracker.go,
    fallback.go, notifications.go, preview_guard.go, connection_report.go)

    The parts of the manager that decide: what to stop and to wait for, in which
    order profiles are tried, how a service status becomes a tunnel state, and
    which event a full queue drops.  A function that is handed callbacks takes
    them as actions on a state of any type. *)
From S2P Require Import Prelude GoStrings GoStrconv GoNet GoOs TunnelName AwgValidation SmartRules SmartCatalog SmartSettings ManagerNet.

Local Open Scope Z_scope.

#[warnings="-register-all"]
Inductive TunnelState := TunnelUnknown | TunnelStarted | TunnelStopped | TunnelStarting | TunnelStopping.
#[export] Instance TunnelState_eq_dec : EqDecision TunnelState.
Proof. solve_decision. Defined.

(** ** Service states *)

Definition SERVICE_NOTIFY_STOPPED : Z := 0x1.
Definition SERVICE_NOTIFY_START_PENDING : Z := 0x2.
Definition SERVICE_NOTIFY_STOP_PENDING : Z := 0x4.
Definition SERVICE_NOTIFY_RUNNING : Z := 0x8.
Definition SERVICE_NOTIFY_CONTINUE_PENDING : Z := 0x10.
Definition SERVICE_NOTIFY_PAUSE_PENDING : Z := 0x20.
Definition SERVICE_NOTIFY_PAUSED : Z := 0x40.
Definition SERVICE_NOTIFY_DELETED : Z := 0x100.
Definition SERVICE_NOTIFY_DELETE_PENDING : Z := 0x200.

Definition svcStateToNotifyState (s : Z) : Z :=
  if s =? 1 then SERVICE_NOTIFY_STOPPED
  else if s =? 2 then SERVICE_NOTIFY_START_PENDING
  else if s =? 3 then SERVICE_NOTIFY_STOP_PENDING
  else if s =? 4 then SERVICE_NOTIFY_RUNNING
  else if s =? 5 then SERVICE_NOTIFY_CONTINUE_PENDING
  else if s =? 6 then SERVICE_NOTIFY_PAUSE_PENDING
  else if s =? 7 then SERVICE_NOTIFY_PAUSED
  else 0.

Definition notifyStateToTunState (s : Z) : TunnelState :=
  if negb (Z.land s (Z.lor SERVICE_NOTIFY_STOPPED SERVICE_NOTIFY_DELETED) =? 0) then TunnelStopped
  else if negb (Z.land s (Z.lor SERVICE_NOTIFY_DELETE_PENDING SERVICE_NOTIFY_STOP_PENDING) =? 0) then TunnelStopping
  else if negb (Z.land s SERVICE_NOTIFY_RUNNING =? 0) then TunnelStarted
  else if negb (Z.land s SERVICE_NOTIFY_START_PENDING =? 0) then TunnelStarting
  else TunnelUnknown.

(** The switch at the end of [ManagerService.State]. *)
Definition service_tunnel_state (s : Z) : TunnelState :=
  if s =? 1 then TunnelStopped else if s =? 3 then TunnelStopping
  else if s =? 4 then TunnelStarted else if s =? 2 then TunnelStarting else TunnelUnknown.

(** ** The tracked tunnels *)

Section Tracked.
Context {RT : GoRuntime}.

(** The loop over the values, in the order of the iteration. *)
Fixpoint global_state (l : list TunnelState) (state : TunnelState) : TunnelState :=
  match l with
  | [] => state
  | s :: l =>
      match s with
      | TunnelStarting => TunnelStarting
      | TunnelStopping => TunnelStopping
      | TunnelStarted | TunnelUnknown => global_state l TunnelStarted
      | TunnelStopped => global_state l state
      end
  end.

Definition trackedTunnelsGlobalState (tracked : gmap gostring TunnelState) : TunnelState :=
  global_state (iterate (map snd (map_to_list tracked))) TunnelStopped.

(** ** Switching native tunnels *)

Record nativeSwitchPlan := mkPlan { plan_stop : list gostring; plan_wait : list gostring; plan_install : bool }.

Definition plan_step (target : gostring) (plan : nativeSwitchPlan) (kv : gostring * TunnelState) : nativeSwitchPlan :=
  let '(name, state) := kv in
  if name =?s target then
    match state with
    | TunnelStarted | TunnelStarting | TunnelUnknown => mkPlan (plan_stop plan) (plan_wait plan) false
    | TunnelStopping => mkPlan (plan_stop plan) (plan_wait plan ++ [name]) (plan_install plan)
    | TunnelStopped => plan
    end
  else
    match state with
    | TunnelStopped => plan
    | _ => mkPlan (plan_stop plan ++ [name]) (plan_wait plan ++ [name]) (plan_install plan)
    end.

Definition planNativeSwitch (target : gostring) (states : gmap gostring TunnelState) : nativeSwitchPlan :=
  let plan := fold_left (plan_step target) (iterate (map_to_list states)) (mkPlan [] [] true) in
  mkPlan (sort_Strings (plan_stop plan)) (sort_Strings (plan_wait plan)) (plan_install plan).

End Tracked.

(** A callback that may fail, on a state [S]. *)
Definition act (S : Type) : Type := prog S unit.

(** An [error] that may be nil, returned. *)
Definition as_error {S} (e : option goerror) : act S := io_lift (match e with Some e => Fail e | None => Ret tt end).
Definition error_of {A} (r : outcome A) : option goerror := match r with Fail e => Some e | _ => None end.
Definition error_list {A} (r : outcome A) : list goerror := match r with Fail e => [e] | _ => [] end.

(** [errors.Join] of the collected errors; nil when there are none. *)
Definition join_errors (errs : list goerror) : option goerror :=
  match errs with [] => None | _ => Some (JoinError errs) end.

Section Actions.
Context {S : Type}.

(** A loop that joins the errors of its calls. *)
Fixpoint join_loop (wrap : gostring → goerror → goerror) (f : gostring → act S) (names : list gostring)
    (errs : list goerror) : prog S (list goerror) :=
  match names with
  | [] => io_ret errs
  | name :: names =>
      let! r := attempt (f name) in
      join_loop wrap f names (errs ++ map (wrap name) (error_list r))
  end.

Definition stop_wrap (name : gostring) : goerror → goerror := WrapError ("stop native tunnel " ++ name).
Definition wait_wrap (name : gostring) : goerror → goerror := WrapError ("wait for native tunnel " ++ name).

Definition executeNativeSwitch (plan : nativeSwitchPlan) (stop wait : gostring → act S) (install : act S) : act S :=
  let! errs := join_loop stop_wrap stop (plan_stop plan) [] in
  let! errs := join_loop wait_wrap wait (plan_wait plan) errs in
  if (0 <? length errs)%nat || negb (plan_install plan) then as_error (join_errors errs) else install.

Definition ERROR_SERVICE_MARKED_FOR_DELETE : goerror := ErrorString "The specified service has been marked for deletion.".
Definition ERROR_SERVICE_DOES_NOT_EXIST : goerror := ErrorString "The specified service does not exist as an installed service.".

(** Two system errors are the same number. *)
Definition same_errno (e f : goerror) : bool :=
  match e, f with ErrorString a, ErrorString b => a =?s b | _, _ => false end.

Definition normalizeNativeUninstallError (e : option goerror) : option goerror :=
  match e with
  | Some e => if same_errno e ERROR_SERVICE_MARKED_FOR_DELETE || same_errno e ERROR_SERVICE_DOES_NOT_EXIST
              then None else Some e
  | None => None
  end.

(** The names once each, without the empty one, in order of first occurrence. *)
Fixpoint unique_names (names : list gostring) (unique : gset gostring) : list gostring :=
  match names with
  | [] => []
  | name :: names =>
      if (name =?s []) || bool_decide (name ∈ unique) then unique_names names unique
      else name :: unique_names names ({[name]} ∪ unique)
  end.

(** [normalizeNativeUninstallError(m())] *)
Definition normalized (m : act S) : act S :=
  let! r := attempt m in as_error (normalizeNativeUninstallError (error_of r)).

Definition stopNativeTunnelsLocked (uninstall waitForStop : gostring → act S) (names : list gostring) : act S :=
  let ordered := sort_Strings (unique_names names ∅) in
  let! errs := join_loop stop_wrap (λ n, normalized (uninstall n)) ordered [] in
  let! errs := join_loop wait_wrap waitForStop ordered errs in
  as_error (join_errors errs).

(** ** Fallback profiles *)

Section Fallback.
Context {RT : GoRuntime}.

Fixpoint recover_loop (start : gostring → act S) (names : list gostring) (seen : gset gostring) (errs : list goerror) : act S :=
  match names with
  | [] => as_error (join_errors errs)
  | name :: names =>
      let key := ToLower name in
      if bool_decide (key ∈ seen) then recover_loop start names seen errs
      else
        let! r := attempt (start name) in
        match r with
        | Fail e => recover_loop start names ({[key]} ∪ seen) (errs ++ [WrapError name e])
        | r => io_lift r
        end
  end.

Definition recoverWithFallbacks (primary : gostring) (settings : RoutingSettings) (start : gostring → act S) : act S :=
  recover_loop start (primary :: FallbackProfiles settings) ∅ [].
End Fallback.
End Actions.

(** ** The isolation check *)

(** A service's name and what opening it and querying its state give. *)
Section Preflight.
Context {RT : GoRuntime}.

Definition svc_Stopped : Z := 1.

Fixpoint preflight_loop (query : gostring → outcome Z) (names : list gostring) : outcome unit :=
  match names with
  | [] => Ret tt
  | name :: names =>
      let n := ToLower name in
      if negb (HasPrefix n "pinus") || HasPrefix n "pinusawgpreview" then preflight_loop query names
      else
        state ← query name;
        _ ← fail_if (negb (state =? svc_Stopped)) (err "Preview не подключается, пока запущена основная версия Pinus");
        preflight_loop query names
  end.

Definition previewConnectionPreflight (services : outcome (list gostring)) (query : gostring → outcome Z) : outcome unit :=
  names ← map_error (WrapError "проверка изоляции Preview") services;
  preflight_loop query names.
End Preflight.

(** ** Event queues *)

Definition eventQueue_capacity : nat := 64.

(** [queueLatestEvent] on a buffered channel that nobody reads meanwhile:
    a full queue loses its oldest event. *)
Definition try_send {A} (capacity : nat) (queue : list A) (event : A) : option (list A) :=
  if (length queue <? capacity)%nat then Some (queue ++ [event]) else None.

Definition queueLatestEvent {A} (capacity : nat) (queue : list A) (event : A) : list A :=
  match try_send capacity queue event with
  | Some queue => queue
  | None =>
      let queue := tail queue in
      default queue (try_send capacity queue event)
  end.

(** ** Reports *)

Fixpoint trace_lines (lines : list gostring) : outcome gostring :=
  match lines with
  | [] => Fail (err "ответ не содержит IP-адрес")
  | line :: lines =>
      if HasPrefix line "ip=" then
        match ParseIP (TrimSpace (TrimPrefix line "ip=")) with
        | Some ip => Ret (IP_String ip)
        | None => trace_lines lines
        end
      else trace_lines lines
  end.
Definition traceIP (body : gostring) : outcome gostring := trace_lines (Split body x0a).

Section Native.
Context {RT : GoRuntime}.

Definition usesNativeTunnel (settings : RoutingSettings) : bool :=
  (NormalizeMode (SMode settings) =?s ModeAll) && negb (HasEnabledCustomRules settings)
  && negb (HasDirectServiceExceptions settings) && (Protection settings =?s [])
  && (length (FallbackProfiles settings) =? 0)%nat.
End Native.
