(* ===== verification/ManagerDesired.v ===== *)
(** * The desired state ([client/manager/smart_desired.go])

    Which tunnel the smart mode should be running, in a file that survives
    restarts: the supervisor starts that tunnel again. *)
From S2P Require Import Prelude GoStrings GoStrconv GoPath GoJson GoTime GoOs AwgValidation TunnelName SmartRules SmartCatalog SmartUpdate SmartSettings SmartStore ManagerTypes.

Local Open Scope Z_scope.

Definition smartDesiredVersion : Z := 1.
Definition smartDesiredMaxSize : Z := 2 * MaxSettingsSize.

Record smartDesiredState := mkDesired {
  DVersion : Z;
  TunnelName_ : gostring;
  DSettings : RoutingSettings;
  UpdatedAt : Z;
}.

Definition eta_Desired (d : smartDesiredState) : smartDesiredState :=
  mkDesired (DVersion d) (TunnelName_ d) (DSettings d) (UpdatedAt d).
#[export] Instance set_DVersion : Setter DVersion := ltac:(derive_setter eta_Desired DVersion).
#[export] Instance set_TunnelName_ : Setter TunnelName_ := ltac:(derive_setter eta_Desired TunnelName_).
#[export] Instance set_DSettings : Setter DSettings := ltac:(derive_setter eta_Desired DSettings).
#[export] Instance set_UpdatedAt : Setter UpdatedAt := ltac:(derive_setter eta_Desired UpdatedAt).

Definition zeroDesired : smartDesiredState := mkDesired 0 [] zeroSettings 0.

Definition json_of_desired (d : smartDesiredState) : json := JObj [
  ("version", JInt (DVersion d)); ("tunnel_name", JStr (TunnelName_ d)); ("settings", json_of_settings (DSettings d));
  ("updated_at", JStr (FormatRFC3339Nano (UpdatedAt d)))].

(** The size checks of the writer and of the reader. *)
Definition desired_write_check (data : gostring) : outcome unit :=
  fail_if (Z.of_nat (length data) >? smartDesiredMaxSize) (err "desired state is too large").
Definition desired_read_check (data : gostring) : outcome unit :=
  fail_if (Z.of_nat (length data) >? smartDesiredMaxSize) (err "desired state file is too large").

(** What the writer puts into the file. *)
Definition desired_file (data : gostring) : gostring := data ++ [x0a].

Section Desired.
Context {RT : GoRuntime} {IDNA : Idna} {ED : Ed25519} {FT : Faults} {PT : Paths}.

(** [now] is the time of the call. *)
Definition normalizeSmartDesired (cat : catalog_state) (now : Z) (state : smartDesiredState) : outcome smartDesiredState :=
  let state := state <| TunnelName_ := TrimSpace (TunnelName_ state) |> in
  _ ← fail_if (negb (TunnelNameIsValid (TunnelName_ state))) (err "invalid desired tunnel name");
  settings ← Normalized cat now (DSettings state);
  _ ← fail_if (usesNativeTunnel settings) (err "native all-traffic tunnels do not use smart recovery");
  let state := state <| DVersion := smartDesiredVersion |> <| DSettings := settings |> in
  Ret (if IsZero (UpdatedAt state) then state <| UpdatedAt := now |> else state).

Definition dec_desired : decoder smartDesiredState := dec_struct false [
  ("version", in_field DVersion dec_int); ("tunnel_name", in_field TunnelName_ dec_string);
  ("settings", in_field DSettings (dec_settings false)); ("updated_at", in_field UpdatedAt dec_time)].

Definition writeSmartDesiredFile (cat : catalog_state) (now : Z) (path : gostring) (state : smartDesiredState) : IO unit :=
  let! state := io_lift (normalizeSmartDesired cat now state) in
  let data := MarshalIndent 0 (json_of_desired state) in
  io_lift (desired_write_check data) ;;
  MkdirAll (Dir path) ;;
  let! temporary := CreateTemp (Dir path) ".pinus-desired-" in
  deferring
    (ignore_error (Chmod temporary) ;; write_and_close temporary (desired_file data) ;; Rename temporary path)
    (ignore_error (Remove temporary)).

(** [None] when there is no file. *)
Definition readSmartDesiredFile (cat : catalog_state) (now : Z) (path : gostring) : IO (option smartDesiredState) :=
  let! r := attempt (ReadLimited path smartDesiredMaxSize) in
  match r with
  | Fail e => if is_not_exist e then io_ret None else io_fail e
  | Panic => λ s, (s, Panic)
  | Ret data => io_lift (
      _ ← desired_read_check data;
      state ← map_error (WrapError "decode desired state") (Unmarshal dec_desired data zeroDesired);
      _ ← fail_if (negb (DVersion state =? smartDesiredVersion)) (err "unsupported desired state version");
      state ← map_error (WrapError "validate desired state") (normalizeSmartDesired cat now state);
      Ret (Some state))
  end.

(** [smartDesiredPath] is the path or the error of [smart.EnsureWorkDir]. *)
Definition saveSmartDesired (smartDesiredPath : outcome gostring) (cat : catalog_state) (now : Z)
    (tunnelName : gostring) (settings : RoutingSettings) : IO unit :=
  let! path := io_lift smartDesiredPath in
  writeSmartDesiredFile cat now path (mkDesired 0 tunnelName settings now).

Definition loadSmartDesired (smartDesiredPath : outcome gostring) (cat : catalog_state) (now : Z)
    : IO (option smartDesiredState) :=
  let! path := io_lift smartDesiredPath in readSmartDesiredFile cat now path.

(** [os.Remove] where a missing file is no error. *)
Definition remove_if_present (path : gostring) : IO unit :=
  let! r := attempt (Remove path) in
  match r with
  | Fail e => if is_not_exist e then io_ret tt else io_fail e
  | Panic => λ s, (s, Panic)
  | Ret _ => io_ret tt
  end.

Definition clearSmartDesired (smartDesiredPath : outcome gostring) : IO unit :=
  let! path := io_lift smartDesiredPath in remove_if_present path.

Definition clearSmartDesiredForTunnel (smartDesiredPath : outcome gostring) (cat : catalog_state) (now : Z)
    (tunnelName : gostring) : IO unit :=
  let! path := io_lift smartDesiredPath in
  let! found := readSmartDesiredFile cat now path in
  match found with
  | Some state => if EqualFold (TunnelName_ state) tunnelName then remove_if_present path else io_ret tt
  | None => io_ret tt
  end.
End Desired.
