(* ===== verification/Manager.v ===== *)
(** * The manager ([client/manager]: smart_process.go, ipc_server.go, native_switch.go, install.go)

    The state that the manager works on: the tunnel services, the smart engine
    and its configuration file, the guard of the firewall, the desired state,
    and what it sent to its clients.  A handler runs with the lifecycle lock
    held, as one computation on that state.  Every call that leaves the program
    (Windows, files, other processes) is numbered and fails when [env_fault]
    says so; a call that fails has no effect, except where noted. *)
From S2P Require Import Prelude GoStrings GoStrconv GoEncoding GoPath GoJson GoTime GoSha256 GoOs AwgValidation TunnelName Conf SmartRules SmartCatalog SmartUpdate SmartSettings SmartStore SmartConfig Supervisor ManagerNet ManagerTypes ManagerDesired.

Local Open Scope Z_scope.

(** A tunnel service; [svc_marked]: marked for deletion. *)
Record svc := mkSvc { svc_state : TunnelState; svc_marked : bool }.

Record smartProcessState := mkProcess {
  ps_tunnelName : gostring;
  ps_settings : RoutingSettings;
  ps_pid : nat;
  ps_probePort : Z;
  ps_probePassword : gostring;
  ps_configPath : gostring;
}.

(** The preview guard: the engine it lets through and the interface, [0] when it
    does not exist yet. *)
Record preview_guard := mkGuard { guard_engine : gostring; guard_luid : Z }.

(** A notification: name, state, global state, error. *)
Record notification := mkNote {
  note_name : gostring; note_state : TunnelState; note_global : TunnelState; note_error : option goerror }.

(** [m_engines] are the running engines, [m_loaded] the configuration that each
    engine got; [m_marks] counts the calls that told the supervisor that all is
    well, [m_requests] are the recoveries it was asked for, and [m_reserved]
    counts the names that [os.CreateTemp] has given out. *)
Record mworld := mkWorld {
  m_calls : nat;
  m_services : gmap gostring svc;
  m_tracked : gmap gostring TunnelState;
  m_stored : gmap gostring Config;
  m_process : option smartProcessState;
  m_engines : gset nat;
  m_loaded : gmap nat gostring;
  m_configs : gmap gostring gostring;
  m_guard : option preview_guard;
  m_desired : option smartDesiredState;
  m_notes : list notification;
  m_marks : nat;
  m_requests : list smartRecoveryRequest;
  m_reserved : nat;
}.

Definition eta_mworld (w : mworld) : mworld :=
  mkWorld (m_calls w) (m_services w) (m_tracked w) (m_stored w) (m_process w) (m_engines w) (m_loaded w) (m_configs w) (m_guard w)
    (m_desired w) (m_notes w) (m_marks w) (m_requests w) (m_reserved w).
#[export] Instance set_m_calls : Setter m_calls := ltac:(derive_setter eta_mworld m_calls).
#[export] Instance set_m_services : Setter m_services := ltac:(derive_setter eta_mworld m_services).
#[export] Instance set_m_tracked : Setter m_tracked := ltac:(derive_setter eta_mworld m_tracked).
#[export] Instance set_m_stored : Setter m_stored := ltac:(derive_setter eta_mworld m_stored).
#[export] Instance set_m_process : Setter m_process := ltac:(derive_setter eta_mworld m_process).
#[export] Instance set_m_engines : Setter m_engines := ltac:(derive_setter eta_mworld m_engines).
#[export] Instance set_m_loaded : Setter m_loaded := ltac:(derive_setter eta_mworld m_loaded).
#[export] Instance set_m_configs : Setter m_configs := ltac:(derive_setter eta_mworld m_configs).
#[export] Instance set_m_guard : Setter m_guard := ltac:(derive_setter eta_mworld m_guard).
#[export] Instance set_m_desired : Setter m_desired := ltac:(derive_setter eta_mworld m_desired).
#[export] Instance set_m_notes : Setter m_notes := ltac:(derive_setter eta_mworld m_notes).
#[export] Instance set_m_marks : Setter m_marks := ltac:(derive_setter eta_mworld m_marks).
#[export] Instance set_m_requests : Setter m_requests := ltac:(derive_setter eta_mworld m_requests).
#[export] Instance set_m_reserved : Setter m_reserved := ltac:(derive_setter eta_mworld m_reserved).

(** How waiting for the engine's interface ends. *)
Inductive readiness :=
| EngineReady
| EngineTimedOut (e : goerror)
| EngineExited (waitErr : option goerror).

(** What the outside answers to the [n]-th call. *)
Class ManagerEnv := {
  env_fault : nat → option goerror;
  env_remove_fault : nat → option goerror;  (* of [os.Remove] *)
  env_now : nat → Z;
  env_catalog : nat → catalog_state;
  env_ready : nat → readiness;
  env_luid : nat → Z;
  env_probePort : nat → Z;
  env_probePassword : nat → gostring;
  env_enginePath : gostring;
  env_configDir : gostring;
}.

Definition M (A : Type) : Type := prog mworld A.

Section Calls.
Context {RT : GoRuntime} {IDNA : Idna} {ED : Ed25519} {F64 : Float64} {ENV : ManagerEnv}.

(** ** Calls *)

(** A numbered call: its error, or [f] on the state. *)
Definition ext {A} (f : nat → mworld → mworld * outcome A) : M A := λ w,
  let n := m_calls w in
  let w := w <| m_calls := S n |> in
  match env_fault n with Some e => (w, Fail e) | None => f n w end.

(** A call that only succeeds or fails. *)
Definition ext_check : M unit := ext (λ _ w, (w, Ret tt)).
Definition ext_read {A} (f : nat → mworld → outcome A) : M A := ext (λ n w, (w, f n w)).
Definition ext_write (f : nat → mworld → mworld) : M unit := ext (λ n w, (f n w, Ret tt)).

Definition gets {A} (f : mworld → A) : M A := λ w, (w, Ret (f w)).
Definition modify (f : mworld → mworld) : M unit := λ w, (f w, Ret tt).

Definition wrap_error {A} (f : goerror → goerror) (m : M A) : M A := λ w,
  let '(w, r) := m w in (w, map_error f r).

(** [if err := m(); err != nil { k err }] with [ok] otherwise. *)
Definition on_error {A} (m : M unit) (k : goerror → M A) (ok : M A) : M A :=
  let! r := attempt m in
  match r with Fail e => k e | Ret _ => ok | Panic => λ w, (w, Panic) end.

(** ** The smart engine *)

Definition smartAnyStarted (w : mworld) : bool := match m_process w with Some _ => true | None => false end.

Definition smartStateForTunnel (tunnelName : gostring) (w : mworld) : option TunnelState :=
  match m_process w with
  | Some p => if ps_tunnelName p =?s tunnelName then Some TunnelStarted else None
  | None => None
  end.

Definition IPCServerNotifyTunnelChange (name : gostring) (state : TunnelState) (e : option goerror) : M unit :=
  modify (λ w,
    let globalState := if smartAnyStarted w then TunnelStarted else trackedTunnelsGlobalState (m_tracked w) in
    w <| m_notes := m_notes w ++ [mkNote name state globalState e] |>).

Definition markSmartRecoveryHealthy : M unit := modify (λ w, w <| m_marks := S (m_marks w) |>).
Definition requestSmartRecovery (reason : gostring) (force : bool) (delay : Z) : M unit :=
  modify (λ w, w <| m_requests := m_requests w ++ [mkRequest reason force delay] |>).

Definition remove_config (path : gostring) : M unit := λ w,
  let n := m_calls w in
  let w := w <| m_calls := S n |> in
  match env_remove_fault n with
  | Some e => (w, Fail e)
  | None => (w <| m_configs := delete path (m_configs w) |>, Ret tt)
  end.

(** [process.Kill] and [state.wait]: the engine is gone when [wait] returns,
    whatever [Kill] reported. *)
Definition kill_and_wait (pid : nat) : M (option goerror) := λ w,
  let n := m_calls w in
  let killErr := if bool_decide (pid ∈ m_engines w) then env_fault n else None in
  (w <| m_calls := S n |> <| m_engines := m_engines w ∖ {[pid]} |>, Ret killErr).

Definition stopSmartProcessState (state : option smartProcessState) : M (option goerror) :=
  match state with
  | None => io_ret None
  | Some p => deferring (kill_and_wait (ps_pid p)) (ignore_error (remove_config (ps_configPath p)))
  end.

Definition detachSmartProcessLocked : M (option smartProcessState) := λ w,
  (w <| m_process := None |>, Ret (m_process w)).

(** The notification after stopping [state]. *)
Definition notify_stopped (state : option smartProcessState) (e : option goerror) : M unit :=
  match state with
  | Some p => if negb (ps_tunnelName p =?s []) then IPCServerNotifyTunnelChange (ps_tunnelName p) TunnelStopped e else io_ret tt
  | None => io_ret tt
  end.

Definition smartStopUnlocked : M unit :=
  let! state := detachSmartProcessLocked in
  let! e := stopSmartProcessState state in
  notify_stopped state e ;;
  as_error e.

Definition smartStopTunnel (tunnelName : gostring) : M bool :=
  let! st := gets (smartStateForTunnel tunnelName) in
  match st with None => io_ret false | Some _ => smartStopUnlocked ;; io_ret true end.

(** ** The guard and the desired state *)

Definition SetPreviewGuard (enginePath : gostring) (luid : Z) : M unit :=
  ext_write (λ _ w, w <| m_guard := Some (mkGuard enginePath luid) |>).
Definition ClearPreviewGuard : M unit := ext_write (λ _ w, w <| m_guard := None |>).

Definition loadSmartDesired : M (option smartDesiredState) := ext_read (λ _ w, Ret (m_desired w)).
Definition saveSmartDesired (tunnelName : gostring) (settings : RoutingSettings) : M unit := ext (λ n w,
  match normalizeSmartDesired (env_catalog n) (env_now n) (mkDesired 0 tunnelName settings (env_now n)) with
  | Ret d => (w <| m_desired := Some d |>, Ret tt)
  | Fail e => (w, Fail e)
  | Panic => (w, Panic)
  end).
Definition clearSmartDesired : M unit := ext_write (λ _ w, w <| m_desired := None |>).
Definition clearSmartDesiredForTunnel (tunnelName : gostring) : M unit :=
  ext_write (λ _ w, match m_desired w with
    | Some d => if EqualFold (TunnelName_ d) tunnelName then w <| m_desired := None |> else w
    | None => w
    end).

(** ** Tunnel services *)

Definition previewConnectionPreflight : M unit := ext_check.

Definition LoadFromName (tunnelName : gostring) : M Config :=
  ext_read (λ _ w, or_fail (m_stored w !! tunnelName) ErrNotExist).

(** [ManagerService.State] *)
Definition State (tunnelName : gostring) : M TunnelState :=
  let! st := gets (smartStateForTunnel tunnelName) in
  match st with
  | Some st => io_ret st
  | None => ext_read (λ _ w, Ret (match m_services w !! tunnelName with Some s => svc_state s | None => TunnelStopped end))
  end.

Definition GlobalState : M TunnelState :=
  gets (λ w, if smartAnyStarted w then TunnelStarted else trackedTunnelsGlobalState (m_tracked w)).

(** The states of [names], added to [states]. *)
Fixpoint query_states (names : list gostring) (states : gmap gostring TunnelState) : M (gmap gostring TunnelState) :=
  match names with
  | [] => io_ret states
  | name :: names =>
      let! state := wrap_error (WrapError ("query native tunnel " ++ name)) (State name) in
      query_states names (<[name := state]> states)
  end.

Definition nativeTunnelStates : M (gmap gostring TunnelState) :=
  let! names := ext_read (λ _ w, Ret (dom (m_stored w))) in
  let! tracked := gets (λ w, dom (m_tracked w)) in
  query_states (iterate (elements (names ∪ tracked : gset gostring))) ∅.

(** Stopping and deleting the service; it disappears later. *)
Definition UninstallTunnel (name : gostring) : M unit := ext (λ _ w,
  match m_services w !! name with
  | None => (w, Fail ERROR_SERVICE_DOES_NOT_EXIST)
  | Some _ => (w <| m_services := <[name := mkSvc TunnelStopping true]> (m_services w) |>, Ret tt)
  end).

(** Returns without an error only when the service does not exist any more. *)
Definition WaitForStop (name : gostring) : M unit := ext_write (λ _ w, w <| m_services := delete name (m_services w) |>).

(** [service.Start]: when it fails the service stays, stopped.  The tracker
    starts in any case. *)
Definition start_service (name : gostring) : M unit := λ w,
  let w := w <| m_tracked := match m_tracked w !! name with Some _ => m_tracked w | None => <[name := TunnelUnknown]> (m_tracked w) end |> in
  ext_write (λ _ w, w <| m_services := <[name := mkSvc TunnelStarting false]> (m_services w) |>) w.

Definition InstallTunnel (name : gostring) : M unit :=
  previewConnectionPreflight ;;
  ext_check ;;
  let! service := ext_read (λ _ w, Ret (m_services w !! name)) in
  match service with
  | Some s =>
      io_lift (fail_if (negb (bool_decide (svc_state s = TunnelStopped)) && negb (svc_marked s))
                (err "Tunnel already installed and running")) ;;
      ext_write (λ _ w, w <| m_services := delete name (m_services w) |>)
  | None => io_ret tt
  end ;;
  ext_write (λ _ w, w <| m_services := <[name := mkSvc TunnelStopped false]> (m_services w) |>) ;;
  start_service name.

Definition stopNativeTunnels (names : list gostring) : M unit :=
  stopNativeTunnelsLocked UninstallTunnel WaitForStop names.

Definition stopNativeTunnel (tunnelName : gostring) : M unit := stopNativeTunnels [tunnelName].

Definition stopAllNativeTunnels : M unit :=
  let! states := nativeTunnelStates in
  let names := map fst (List.filter (λ kv, negb (bool_decide (snd kv = TunnelStopped))) (iterate (map_to_list states))) in
  stopNativeTunnels names.

(** Reinstalling the predecessors that were active and are stopped now. *)
Fixpoint restore_predecessors (states : gmap gostring TunnelState) (names : list gostring) (errs : list goerror)
    : M (list goerror) :=
  match names with
  | [] => io_ret errs
  | name :: names =>
      let was_active := match states !! name with Some TunnelStarted | Some TunnelStarting => true | _ => false end in
      if negb was_active then restore_predecessors states names errs
      else
        let! r := attempt (State name) in
        match r with
        | Fail e => restore_predecessors states names (errs ++ [e])
        | Panic => λ w, (w, Panic)
        | Ret state =>
            if negb (bool_decide (state = TunnelStopped)) then restore_predecessors states names errs
            else
              let! r := attempt (LoadFromName name ;; ext_check ;; InstallTunnel name) in
              restore_predecessors states names
                (match r with Fail e => errs ++ [WrapError ("restore " ++ name) e] | _ => errs end)
        end
  end.

Definition startNativeUnlocked (tunnelName : gostring) : M unit :=
  previewConnectionPreflight ;;
  LoadFromName tunnelName ;;
  ext_check ;;
  let! any := gets smartAnyStarted in
  io_lift (fail_if any (err "smart routing is active; stop it before starting a native tunnel")) ;;
  let! states := nativeTunnelStates in
  let plan := planNativeSwitch tunnelName states in
  let! r := attempt (executeNativeSwitch plan (λ name, normalized (UninstallTunnel name)) WaitForStop (InstallTunnel tunnelName)) in
  match r with
  | Fail switchErr =>
      let! errs := restore_predecessors states (plan_stop plan) [] in
      io_fail (match errs with [] => switchErr | _ => JoinError (switchErr :: errs) end)
  | Panic => λ w, (w, Panic)
  | Ret _ =>
      on_error clearSmartDesired (λ e,
        let! rollback := attempt (stopNativeTunnels [tunnelName]) in
        io_fail (JoinError (WrapError "clear smart recovery state after native start" e
                            :: match rollback with Fail e => [e] | _ => [] end)))
        (io_ret tt)
  end.
End Calls.
