(* ===== verification/ManagerStart.v ===== *)
(** * Starting and stopping ([client/manager/smart_process.go, ipc_server.go, smart_supervisor.go])

    [smartStartLocked] as the whole handler: every early return, the deferred
    removal of the configuration file (it holds the private key), and
    [restoreNative], which may call the function again for the predecessor.
    Then the methods of [ManagerService], the supervisor's [recover] and the
    events of the system. *)
From S2P Require Import Prelude GoStrings GoStrconv GoEncoding GoPath GoJson GoTime GoSha256 GoOs AwgValidation TunnelName Conf SmartRules SmartCatalog SmartUpdate SmartSettings SmartStore SmartConfig Supervisor ManagerNet ManagerTypes ManagerDesired Manager.

Local Open Scope Z_scope.

Section Start.
Context {RT : GoRuntime} {IDNA : Idna} {ED : Ed25519} {F64 : Float64} {ENV : ManagerEnv}.

(** ** Parts of [smartStartLocked] *)

(** [defer func() { if !keepConfig { _ = os.Remove(configPath) } }()]: the file is
    kept (removed in the body) only by the successful return. *)
Definition unless_kept {A} (path : gostring) (m : M A) : M A := λ w,
  let '(w, r) := m w in
  match r with
  | Ret _ => (w, r)
  | _ => let '(w, _) := ignore_error (remove_config path) w in (w, r)
  end.

(** The name that [os.CreateTemp] makes of [safeName-*.json]: its random part is
    the number of names given out before, so no name is given out twice. *)
Definition runtime_config_path (safeName : gostring) (n : nat) : gostring :=
  env_configDir ++ "\" ++ safeName ++ "-" ++ Itoa (Z.of_nat n) ++ ".json".

Definition reserveSmartRuntimeConfig (safeName : gostring) : M gostring :=
  let! path := ext (λ _ w,
    let path := runtime_config_path safeName (m_reserved w) in
    match m_configs w !! path with
    | Some _ => (w, Fail (ErrorString "file exists"))
    | None => (w <| m_configs := <[path := []]> (m_configs w) |> <| m_reserved := S (m_reserved w) |>, Ret path)
    end) in
  on_error ext_check (λ e, ignore_error (remove_config path) ;; io_fail e) (io_ret path).

(** The configuration of the engine, with the catalog and the time of the call. *)
Definition engine_config (c : Config) (settings : RoutingSettings) : M gostring := λ w,
  (w, BuildConfig (env_catalog (m_calls w)) (env_now (m_calls w)) c settings).

Definition prepareDiagnosticListener : M (Z * gostring) := ext_read (λ n _, Ret (env_probePort n, env_probePassword n)).

(** The loop that looks for one active native tunnel. *)
Fixpoint prior_native (w : mworld) (states : list (gostring * TunnelState)) (prior : gostring) : outcome gostring :=
  match states with
  | [] => Ret prior
  | (name, state) :: states =>
      let isSmart := match smartStateForTunnel name w with Some _ => true | None => false end in
      if negb isSmart && (bool_decide (state = TunnelStarted) || bool_decide (state = TunnelStarting)) then
        if negb (prior =?s []) then Fail (err "multiple native predecessors; stop extra profiles explicitly")
        else prior_native w states name
      else prior_native w states prior
  end.

(** The interface of the engine: its index, then its LUID. *)
Definition engine_luid : M Z := ext_check ;; ext_read (λ n _, Ret (env_luid n)).

(** [os.StartProcess] with [run -c configPath]: the engine reads the file, which is
    removed only when the engine is ready. *)
Definition start_engine (configPath : gostring) : M nat := ext (λ n w,
  (w <| m_engines := {[n]} ∪ m_engines w |> <| m_loaded := <[n := default [] (m_configs w !! configPath)]> (m_loaded w) |>, Ret n)).

Definition errSmartProcessExitedBeforeReady : goerror :=
  err "smart engine exited before the TUN interface became ready".

(** [waitForSmartInterface], and the error of [smartStartLocked] after it. *)
Definition wait_ready (pid : nat) : M (option goerror) := λ w,
  let n := m_calls w in
  let w := w <| m_calls := S n |> in
  match env_ready n with
  | EngineReady => (w, Ret None)
  | EngineTimedOut e =>
      let '(w, _) := kill_and_wait pid w in (w, Ret (Some e))
  | EngineExited waitErr =>
      let w := w <| m_engines := m_engines w ∖ {[pid]} |> in
      let '(w, _) := kill_and_wait pid w in (w, Ret (Some (default errSmartProcessExitedBeforeReady waitErr)))
  end.

Definition protected (settings : RoutingSettings) : bool := Protection settings =?s "all".

(** The guard for the running engine, or none. *)
Definition final_guard (settings : RoutingSettings) (enginePath : gostring) : M unit :=
  if protected settings then
    wrap_error (WrapError "activate protection") (let! luid := engine_luid in SetPreviewGuard enginePath luid)
  else ClearPreviewGuard.

(** After stopping the native tunnels failed: the guard of the predecessor. *)
Definition undo_provisional_guard (settings : RoutingSettings) (enginePath priorNative : gostring)
    (priorSmart : option smartProcessState) (e : goerror) : M unit :=
  let has_prior := negb (priorNative =?s []) || match priorSmart with Some _ => true | None => false end in
  if protected settings && has_prior then
    let! r := attempt (
      if match priorSmart with Some p => protected (ps_settings p) | None => false end
      then let! luid := engine_luid in SetPreviewGuard enginePath luid
      else ClearPreviewGuard) in
    io_fail (JoinError (e :: match r with Fail g => [g] | _ => [] end))
  else io_fail e.

(** ** [smartStartLocked]

    The recursive calls go to [start], which gets the name and the settings and
    does not persist the desired state. *)

Section Body.
Variable start : gostring → RoutingSettings → M unit.

Definition restore_smart (p : smartProcessState) : M unit := start (ps_tunnelName p) (ps_settings p).

(** The branch for settings that the native tunnel serves. *)
Definition start_native_mode (tunnelName : gostring) (persistDesired : bool) : M unit :=
  let! previous := gets m_process in
  wrap_error (WrapError "stop smart routing before native tunnel") smartStopUnlocked ;;
  on_error (startNativeUnlocked tunnelName)
    (λ e, match previous with
          | Some p =>
              let! r := attempt (restore_smart p) in
              io_fail (JoinError (e :: match r with Fail e' => [e'] | _ => [] end))
          | None => io_fail e
          end)
    (ClearPreviewGuard ;;
     if persistDesired then
       on_error clearSmartDesired
         (λ e, ignore_error (stopNativeTunnel tunnelName) ;; io_fail (WrapError "clear smart recovery state" e))
         markSmartRecoveryHealthy
     else io_ret tt).

(** The closure [restoreNative]; it always fails. *)
Definition restoreNative (priorNative : gostring) (priorSmart : option smartProcessState) (cause : goerror) : M unit :=
  if priorNative =?s [] then
    match priorSmart with
    | Some p =>
        on_error (restore_smart p)
          (λ e, io_fail (JoinError [cause; WrapError "restore smart predecessor" e])) (io_fail cause)
    | None => io_fail cause
    end
  else
    let! g := attempt ClearPreviewGuard in
    let cause := match g with Fail g => JoinError [cause; g] | _ => cause end in
    on_error (startNativeUnlocked priorNative)
      (λ e, io_fail (JoinError [cause; WrapError "restore native AWG" e]))
      (io_fail (WrapError "native AWG was restored" cause)).

(** From the check of the readiness to the end. *)
Definition finish_start (restore : goerror → M unit) (state : smartProcessState) (enginePath : gostring)
    (persistDesired : bool) : M unit :=
  let tunnelName := ps_tunnelName state in
  let settings := ps_settings state in
  let! readyErr := wait_ready (ps_pid state) in
  on_error (as_error readyErr)
    (λ e, IPCServerNotifyTunnelChange tunnelName TunnelStopped (Some e) ;;
          restore (WrapError "start smart engine" e)) (
  on_error (final_guard settings enginePath)
    (λ e, stopSmartProcessState (Some state) ;; restore e) (
  on_error (if persistDesired then saveSmartDesired tunnelName settings else io_ret tt)
    (λ e, stopSmartProcessState (Some state) ;;
          IPCServerNotifyTunnelChange tunnelName TunnelStopped (Some e) ;;
          restore (WrapError "persist smart recovery state" e)) (
  modify (λ w, w <| m_process := Some state |>) ;;
  markSmartRecoveryHealthy ;;
  ignore_error (remove_config (ps_configPath state)) ;;
  IPCServerNotifyTunnelChange tunnelName TunnelStarted None))).

(** From stopping the predecessor to the started engine. *)
Definition replace_engine (restore : goerror → M unit) (tunnelName : gostring) (settings : RoutingSettings)
    (probe : Z * gostring) (configPath enginePath : gostring) (persistDesired : bool) : M unit :=
  let! previousState := detachSmartProcessLocked in
  let! stopErr := stopSmartProcessState previousState in
  notify_stopped previousState stopErr ;;
  on_error (as_error stopErr) (λ e, restore (WrapError "stop previous smart routing" e)) (
  on_error ext_check restore (   (* rotateSmartLog *)
  on_error ext_check restore (   (* os.OpenFile *)
  IPCServerNotifyTunnelChange tunnelName TunnelStarting None ;;
  let! started := attempt (start_engine configPath) in
  match started with
  | Panic => λ w, (w, Panic)
  | Fail e =>
      IPCServerNotifyTunnelChange tunnelName TunnelStopped (Some e) ;;
      restore (WrapError "start smart engine" e)
  | Ret pid =>
      on_error ext_check   (* assignSmartProcessToJob *)
        (λ e, kill_and_wait pid ;;
              IPCServerNotifyTunnelChange tunnelName TunnelStopped (Some e) ;;
              restore (WrapError "attach smart engine to lifecycle job" e))
        (finish_start restore (mkProcess tunnelName settings pid (fst probe) (snd probe) configPath) enginePath persistDesired)
  end))).

(** The branch for settings that need the smart engine. *)
Definition start_smart_mode (tunnelName : gostring) (settings : RoutingSettings) (persistDesired : bool) : M unit :=
  let! c := LoadFromName tunnelName in
  let! configBytes := engine_config c settings in
  let! probe := prepareDiagnosticListener in
  let! configBytes := io_lift (AddDiagnosticInbound configBytes (fst probe) (snd probe)) in
  ext_check ;;
  let! configPath := reserveSmartRuntimeConfig (SafeTunnelFileStem tunnelName) in
  unless_kept configPath (
    ext_write (λ _ w, w <| m_configs := <[configPath := configBytes ++ [x0a]]> (m_configs w) |>) ;;
    let! enginePath := ext_read (λ _ _, Ret env_enginePath) in
    wrap_error (WrapError "routing config validation failed") ext_check ;;
    let! nativeStates := nativeTunnelStates in
    let! priorNative := (λ w, (w, prior_native w (iterate (map_to_list nativeStates)) [])) in
    let! priorSmart := gets m_process in
    (if protected settings then wrap_error (WrapError "enable protection") (SetPreviewGuard enginePath 0) else io_ret tt) ;;
    on_error stopAllNativeTunnels (undo_provisional_guard settings enginePath priorNative priorSmart)
      (replace_engine (restoreNative priorNative priorSmart) tunnelName settings probe configPath enginePath persistDesired)).

Definition start_body (tunnelName : gostring) (settings : RoutingSettings) (persistDesired : bool) : M unit :=
  previewConnectionPreflight ;;
  if usesNativeTunnel settings then start_native_mode tunnelName persistDesired
  else start_smart_mode tunnelName settings persistDesired.
End Body.

Fixpoint smartStartLocked (fuel : nat) (tunnelName : gostring) (settings : RoutingSettings) (persistDesired : bool) : M unit :=
  match fuel with
  | O => λ w, (w, Panic)
  | S fuel => start_body (λ n s, smartStartLocked fuel n s false) tunnelName settings persistDesired
  end.

(** One call and one for its predecessor; more never makes a difference. *)
Definition start_fuel : nat := 2.

(** ** The methods of [ManagerService] *)

Definition ERROR_ACCESS_DENIED : goerror := ErrorString "Access is denied.".

(** [s.elevatedToken == 0] *)
Definition require_elevated (elevated : bool) : M unit := io_lift (fail_if (negb elevated) ERROR_ACCESS_DENIED).

Definition SmartStart (elevated : bool) (tunnelName rawSettings : gostring) : M unit :=
  require_elevated elevated ;;
  let! settings := (λ w, (w, ParseSettingsPayload (env_catalog (m_calls w)) (env_now (m_calls w)) rawSettings)) in
  on_error (smartStartLocked start_fuel tunnelName settings true)
    (λ e, requestSmartRecovery "manual start failed" false (500 * Millisecond) ;; io_fail e) (io_ret tt).

(** [errors.Join] of what several calls returned. *)
Definition join_results (rs : list (outcome unit)) : M unit :=
  as_error (join_errors (omap error_of rs)).

Definition SmartStop (elevated : bool) : M unit :=
  require_elevated elevated ;;
  let! desiredErr := attempt clearSmartDesired in
  let! stopErr := attempt smartStopUnlocked in
  markSmartRecoveryHealthy ;;
  let! guardErr := attempt ClearPreviewGuard in
  join_results [desiredErr; stopErr; guardErr].

Definition Start (tunnelName : gostring) : M unit := startNativeUnlocked tunnelName.

Definition Stop (tunnelName : gostring) : M unit :=
  let! before := attempt loadSmartDesired in
  let! smart := gets (smartStateForTunnel tunnelName) in
  let wasSmart := match smart with Some _ => true | None => false end in
  let clearProtection := wasSmart || match before with Ret (Some d) => TunnelName_ d =?s tunnelName | _ => false end in
  let! desiredErr := attempt (clearSmartDesiredForTunnel tunnelName) in
  let! matches := gets (smartStateForTunnel tunnelName) in
  let! smartErr := attempt (match matches with Some _ => smartStopUnlocked | None => io_ret tt end) in
  let! nativeErr := attempt (stopNativeTunnel tunnelName) in
  let! guardErr := attempt (if clearProtection : bool then ClearPreviewGuard else io_ret tt) in
  join_results [desiredErr; smartErr; nativeErr; guardErr].

(** [conf.DeleteName] *)
Definition Delete (elevated : bool) (tunnelName : gostring) : M unit :=
  require_elevated elevated ;;
  Stop tunnelName ;;
  ext_write (λ _ w, w <| m_stored := delete tunnelName (m_stored w) |>).

(** [tunnelConfig.Save(true)] *)
Definition Create (elevated : bool) (config : Config) : M gostring :=
  require_elevated elevated ;;
  ext_write (λ _ w, w <| m_stored := <[Name config := config]> (m_stored w) |>) ;;
  io_ret (Name config).

Definition Tunnels : M (list gostring) := ext_read (λ _ w, Ret (elements (dom (m_stored w) : gset gostring))).

Definition StoredConfig (elevated : bool) (tunnelName : gostring) : M Config :=
  let! c := LoadFromName tunnelName in
  io_ret (if elevated : bool then c else Redact c).

(** ** The supervisor's dependencies *)

Definition smartProcessHealthyFor (tunnelName : gostring) : M bool :=
  let! running := gets (λ w, match m_process w with Some p => EqualFold (ps_tunnelName p) tunnelName | None => false end) in
  if running : bool then
    let! r := attempt ext_check in io_ret (match r with Ret _ => true | _ => false end)
  else io_ret false.

Definition errSmartNetworkUnavailable : goerror := err "no usable physical network is available".

(** [net]: the answer of [physicalSmartNetwork]. *)
Definition recoverSmartDesired (suspended : bool) (net : outcome bool) (force : bool) : M unit :=
  io_lift (fail_if suspended (err "system is suspended")) ;;
  let! state := loadSmartDesired in
  match state with
  | None => io_ret tt
  | Some state =>
      let! online := io_lift net in
      io_lift (fail_if (negb online) errSmartNetworkUnavailable) ;;
      let! skip := (if force then io_ret false else smartProcessHealthyFor (TunnelName_ state)) in
      if skip : bool then io_ret tt
      else recoverWithFallbacks (TunnelName_ state) (DSettings state) (λ name,
             smartStartLocked start_fuel name (DSettings state) false ;;
             if negb (name =?s TunnelName_ state) then saveSmartDesired name (DSettings state) else io_ret tt)
  end.

(** The part of [pauseSmartForSuspend] that holds the lifecycle lock. *)
Definition pauseSmartForSuspend : M unit :=
  markSmartRecoveryHealthy ;;
  let! state := loadSmartDesired in
  match state with None => io_ret tt | Some _ => smartStopUnlocked end.

(** The goroutine that waits for the engine [pid] with [path]. *)
Definition engine_exited (pid : nat) (path : gostring) (waitErr : option goerror) : M unit :=
  modify (λ w, w <| m_engines := m_engines w ∖ {[pid]} |>) ;;
  ignore_error (remove_config path) ;;
  let! process := gets m_process in
  match process with
  | Some p =>
      if (ps_pid p =? pid)%nat then
        modify (λ w, w <| m_process := None |>) ;;
        IPCServerNotifyTunnelChange (ps_tunnelName p) TunnelStopped waitErr ;;
        requestSmartRecovery "engine exited" false (500 * Millisecond)
      else io_ret tt
  | None => io_ret tt
  end.
End Start.
