(* ===== verification/ManagerFacts.v ===== *)
(** * Reasoning about the manager's computations

    [frame]: a computation that leaves the engine, the process record and the
    configuration files alone.  [hoare]: what a computation establishes.
    With them, the invariant of starting and stopping: at most the recorded
    engine runs, and no configuration file stays behind. *)
From S2P Require Import Prelude GoStrings GoStrconv GoJson GoOs AwgValidation Conf SmartRules SmartCatalog SmartUpdate SmartSettings SmartStore SmartConfig Supervisor ManagerNet ManagerTypes ManagerDesired Manager ManagerStart.

Local Open Scope Z_scope.

(** ** Triples *)

Definition hoare {A} (P : mworld → Prop) (m : M A) (Q : outcome A → mworld → Prop) : Prop :=
  ∀ w, P w → Q (snd (m w)) (fst (m w)).

(** [P] holds afterwards, whatever the outcome. *)
Definition keeps {A} (P : mworld → Prop) (m : M A) : Prop := hoare P m (λ _, P).

Lemma keeps_bind {A B} P (m : M A) (k : A → M B) : keeps P m → (∀ a, keeps P (k a)) → keeps P (io_bind m k).
Proof.
  intros Hm Hk w Hw. specialize (Hm w Hw). unfold io_bind. destruct (m w) as [w1 [a| |]]; cbn in *; [by apply Hk|done..].
Qed.

Lemma keeps_attempt {A} P (m : M A) : keeps P m → keeps P (attempt m).
Proof. intros Hm w Hw. specialize (Hm w Hw). unfold attempt. by destruct (m w). Qed.

Lemma keeps_ignore {A} P (m : M A) : keeps P m → keeps P (ignore_error m).
Proof. intros Hm w Hw. specialize (Hm w Hw). unfold ignore_error. by destruct (m w). Qed.

Lemma keeps_deferring {A} P (m : M A) d : keeps P m → keeps P d → keeps P (deferring m d).
Proof.
  intros Hm Hd w Hw. specialize (Hm w Hw). unfold deferring. destruct (m w) as [w1 r]. cbn in Hm.
  specialize (Hd w1 Hm). by destruct (d w1).
Qed.

Lemma keeps_wrap {A} P f (m : M A) : keeps P m → keeps P (wrap_error f m).
Proof. intros Hm w Hw. specialize (Hm w Hw). unfold wrap_error. by destruct (m w). Qed.

Lemma keeps_on_error {A} P (m : M unit) (k : goerror → M A) ok :
  keeps P m → (∀ e, keeps P (k e)) → keeps P ok → keeps P (on_error m k ok).
Proof.
  intros Hm Hk Hok. unfold on_error. apply keeps_bind; [by apply keeps_attempt|]. intros [u|e|]; [done|apply Hk|by intros w].
Qed.

Lemma keeps_id {A} (P : mworld → Prop) (f : mworld → outcome A) : keeps P (λ w, (w, f w)).
Proof. by intros w. Qed.

Lemma keeps_gets {A} P (f : mworld → A) : keeps P (gets f).
Proof. by intros w. Qed.

Lemma keeps_ret {A} P (a : A) : keeps P (io_ret a).
Proof. by intros w. Qed.

Lemma keeps_fail {A} P e : keeps P (@io_fail mworld A e).
Proof. by intros w. Qed.

Lemma keeps_lift {A} P (m : outcome A) : keeps P (io_lift m).
Proof. by intros w. Qed.

(** A [P] that does not look at the number of calls. *)
Class Uncounted (P : mworld → Prop) : Prop := uncounted : ∀ w n, P w → P (w <| m_calls := n |>).

Section Frame.
Context {ENV : ManagerEnv}.

Lemma keeps_ext {A} P `{!Uncounted P} (f : nat → mworld → mworld * outcome A) :
  (∀ n w, P w → P (fst (f n w))) → keeps P (ext f).
Proof.
  intros Hf w Hw. unfold ext. destruct (env_fault _); cbn; [by apply uncounted|]. by apply Hf, uncounted.
Qed.

Lemma keeps_ext_read {A} P `{!Uncounted P} (f : nat → mworld → outcome A) : keeps P (ext_read f).
Proof. by apply keeps_ext. Qed.

Lemma keeps_ext_check P `{!Uncounted P} : keeps P ext_check.
Proof. by apply keeps_ext. Qed.

Lemma keeps_ext_write P `{!Uncounted P} f : (∀ n w, P w → P (f n w)) → keeps P (ext_write f).
Proof. intros Hf. by apply keeps_ext. Qed.
End Frame.

(** [P] depends only on the engine, the process record, the files and their names. *)
Definition core (w : mworld) : option smartProcessState * gset nat * gmap gostring gostring * nat :=
  (m_process w, m_engines w, m_configs w, m_reserved w).

Class OnCore (P : mworld → Prop) : Prop := on_core : ∀ w w', core w = core w' → P w → P w'.

#[export] Instance core_uncounted P : OnCore P → Uncounted P.
Proof. intros H w n. by apply H. Qed.

Definition frame {A} (m : M A) : Prop := ∀ w, core (fst (m w)) = core w.

Lemma frame_keeps {A} P `{!OnCore P} (m : M A) : frame m → keeps P m.
Proof. intros Hm w Hw. eapply on_core; [|exact Hw]. symmetry. apply Hm. Qed.

(** A frame is a family of preserved predicates. *)
Definition core_is (c : option smartProcessState * gset nat * gmap gostring gostring * nat) (w : mworld) : Prop := core w = c.

#[export] Instance core_is_on_core c : OnCore (core_is c).
Proof. intros w w' E H. unfold core_is in *. congruence. Qed.

Lemma frame_alt {A} (m : M A) : frame m ↔ ∀ c, keeps (core_is c) m.
Proof. split; [intros H c w Hw; unfold core_is in *; rewrite H; exact Hw|]. intros H w. by apply (H (core w) w). Qed.

Lemma keeps_join_loop P wrap (f : gostring → M unit) names errs :
  (∀ n, keeps P (f n)) → keeps P (join_loop wrap f names errs).
Proof.
  intros Hf. revert errs. induction names as [|n names IH]; intros errs; [by intros w|].
  cbn [join_loop]. apply keeps_bind; [by apply keeps_attempt|]. intros r. apply IH.
Qed.

Lemma keeps_as_error P e : keeps P (as_error e).
Proof. by intros w. Qed.

Lemma keeps_normalized P (m : M unit) : keeps P m → keeps P (normalized m).
Proof. intros Hm. apply keeps_bind; [by apply keeps_attempt|]. intros r. apply keeps_as_error. Qed.

Create HintDb mgr.

(** Prove that a computation is a frame, or keeps a predicate on the core. *)
Ltac keep_step :=
  match goal with
  | |- keeps _ (io_bind _ _) => apply keeps_bind
  | |- keeps _ (attempt _) => apply keeps_attempt
  | |- keeps _ (ignore_error _) => apply keeps_ignore
  | |- keeps _ (deferring _ _) => apply keeps_deferring
  | |- keeps _ (wrap_error _ _) => apply keeps_wrap
  | |- keeps _ (on_error _ _ _) => apply keeps_on_error
  | |- keeps _ (gets _) => apply keeps_gets
  | |- keeps _ (io_ret _) => apply keeps_ret
  | |- keeps _ (io_fail _) => apply keeps_fail
  | |- keeps _ (io_lift _) => apply keeps_lift
  | |- keeps _ (ext_read _) => apply keeps_ext_read, _
  | |- keeps _ ext_check => apply keeps_ext_check, _
  | |- keeps _ (λ w, (w, _)) => apply keeps_id
  | |- keeps _ (if ?b then _ else _) => destruct b
  | |- keeps _ (match ?x with _ => _ end) => destruct x
  | |- ∀ _, _ => intros ?
  end.
Ltac keeping := repeat keep_step; auto with mgr.
Ltac framing := apply frame_alt; intros ?; keeping.

Section Frames.
Context {RT : GoRuntime} {IDNA : Idna} {ED : Ed25519} {F64 : Float64} {ENV : ManagerEnv}.

Lemma frame_ext_write f : (∀ n w, core (f n w) = core w) → frame (ext_write f).
Proof. intros Hf w. unfold ext_write, ext. destruct (env_fault _); cbn; [done|]. by rewrite Hf. Qed.

Lemma frame_modify f : (∀ w, core (f w) = core w) → frame (modify f).
Proof. intros Hf w. apply Hf. Qed.

Lemma frame_notify name st e : frame (IPCServerNotifyTunnelChange name st e).
Proof. by apply frame_modify. Qed.
Lemma frame_mark : frame markSmartRecoveryHealthy.
Proof. by apply frame_modify. Qed.
Lemma frame_request r f d : frame (requestSmartRecovery r f d).
Proof. by apply frame_modify. Qed.
Lemma frame_notify_stopped st e : frame (notify_stopped st e).
Proof. unfold notify_stopped. destruct st; [|done]. destruct (negb _); [apply frame_notify|done]. Qed.
Lemma frame_set_guard p l : frame (SetPreviewGuard p l).
Proof. by apply frame_ext_write. Qed.
Lemma frame_clear_guard : frame ClearPreviewGuard.
Proof. by apply frame_ext_write. Qed.
Lemma frame_save_desired n s : frame (saveSmartDesired n s).
Proof.
  intros w. unfold saveSmartDesired, ext. destruct (env_fault _); cbn; [done|]. by destruct (normalizeSmartDesired _ _ _).
Qed.
Lemma frame_clear_desired : frame clearSmartDesired.
Proof. by apply frame_ext_write. Qed.
Lemma frame_clear_desired_for n : frame (clearSmartDesiredForTunnel n).
Proof. apply frame_ext_write. intros _ w. destruct (m_desired w); [|done]. by destruct (EqualFold _ _). Qed.

Lemma frame_keeps_hint {A} P `{!OnCore P} (m : M A) : frame m → keeps P m.
Proof. by apply frame_keeps. Qed.

Lemma frame_uninstall n : frame (UninstallTunnel n).
Proof. intros w. unfold UninstallTunnel, ext. destruct (env_fault _); cbn; [done|]. by destruct (_ !! n). Qed.
Lemma frame_wait n : frame (WaitForStop n).
Proof. by apply frame_ext_write. Qed.
Lemma frame_start_service n : frame (start_service n).
Proof. intros w. unfold start_service, ext_write, ext. cbn. by destruct (env_fault _). Qed.

Lemma frame_state n : frame (State n).
Proof. unfold State. framing. Qed.

Lemma frame_query_states names states : frame (query_states names states).
Proof.
  revert states. induction names as [|n names IH]; intros states; [done|]. cbn [query_states]. apply frame_alt. intros c.
  apply keeps_bind; [apply keeps_wrap, frame_keeps, frame_state; apply _|]. intros st. apply frame_keeps, IH. apply _.
Qed.

Lemma frame_native_states : frame nativeTunnelStates.
Proof. unfold nativeTunnelStates. framing. apply frame_keeps, frame_query_states. apply _. Qed.

Lemma frame_install n : frame (InstallTunnel n).
Proof.
  unfold InstallTunnel, previewConnectionPreflight. framing; apply frame_keeps; try apply _; try (by apply frame_ext_write). apply frame_start_service.
Qed.

Lemma frame_stop_natives names : frame (stopNativeTunnels names).
Proof.
  unfold stopNativeTunnels, stopNativeTunnelsLocked. framing; try apply keeps_as_error; apply keeps_join_loop; intros n.
  - apply keeps_normalized, frame_keeps, frame_uninstall. apply _.
  - apply frame_keeps, frame_wait. apply _.
Qed.

Lemma frame_stop_all : frame stopAllNativeTunnels.
Proof.
  unfold stopAllNativeTunnels. framing; apply frame_keeps; try apply _; [apply frame_native_states|apply frame_stop_natives].
Qed.

Lemma frame_execute plan name :
  frame (executeNativeSwitch plan (λ name, normalized (UninstallTunnel name)) WaitForStop (InstallTunnel name)).
Proof.
  unfold executeNativeSwitch. framing; try apply keeps_as_error; [apply keeps_join_loop; intros n..|].
  - apply keeps_normalized, frame_keeps, frame_uninstall. apply _.
  - apply frame_keeps, frame_wait. apply _.
  - apply frame_keeps, frame_install. apply _.
Qed.

Lemma frame_restore_predecessors states names errs : frame (restore_predecessors states names errs).
Proof.
  revert errs. induction names as [|n names IH]; intros errs; [done|]. cbn [restore_predecessors].
  set (b := match _ with Some TunnelStarted | Some TunnelStarting => true | _ => false end). clearbody b.
  destruct (negb b); [apply IH|]. unfold LoadFromName. framing; try (apply frame_keeps; [apply _|]); auto using frame_state, frame_install.
  all: try apply keeps_id.
Qed.

Lemma frame_start_native name : frame (startNativeUnlocked name).
Proof.
  unfold startNativeUnlocked, previewConnectionPreflight, LoadFromName. framing; try (apply frame_keeps; [apply _|]);
    auto using frame_native_states, frame_execute, frame_restore_predecessors, frame_clear_desired, frame_stop_natives.
Qed.

Lemma frame_engine_luid : frame engine_luid.
Proof. unfold engine_luid. framing. Qed.

Lemma frame_final_guard s p : frame (final_guard s p).
Proof. unfold final_guard. framing; apply frame_keeps; try apply _; auto using frame_engine_luid, frame_set_guard, frame_clear_guard. Qed.

Lemma frame_undo s p n prior e : frame (undo_provisional_guard s p n prior e).
Proof.
  unfold undo_provisional_guard. framing; apply frame_keeps; try apply _;
    auto using frame_engine_luid, frame_set_guard, frame_clear_guard.
Qed.
End Frames.

(** ** Specifications with a result *)

(** From [P], a return satisfies [Q]; after a failure [E] holds. *)
Definition spec {A} (P : mworld → Prop) (m : M A) (Q : A → mworld → Prop) (E : mworld → Prop) : Prop :=
  hoare P m (λ r w, match r with Ret a => Q a w | Fail _ => E w | Panic => True end).

Lemma spec_bind {A B} P (m : M A) (k : A → M B) R Q E :
  spec P m R E → (∀ a, spec (R a) (k a) Q E) → spec P (io_bind m k) Q E.
Proof.
  intros Hm Hk w Hw. specialize (Hm w Hw). unfold io_bind. destruct (m w) as [w1 [a| |]]; cbn in *; [|done..].
  exact (Hk a w1 Hm).
Qed.

Lemma spec_weaken {A} (P P' : mworld → Prop) (m : M A) (Q Q' : A → mworld → Prop) (E E' : mworld → Prop) :
  (∀ w, P' w → P w) → (∀ a w, Q a w → Q' a w) → (∀ w, E w → E' w) → spec P m Q E → spec P' m Q' E'.
Proof. intros HP HQ HE H w Hw. specialize (H w (HP w Hw)). destruct (snd (m w)); auto. Qed.

Lemma spec_keeps {A} P (m : M A) : keeps P m → spec P m (λ _, P) P.
Proof. intros H w Hw. specialize (H w Hw). by destruct (snd (m w)). Qed.

Lemma spec_attempt {A} P (m : M A) Q E E' :
  spec P m Q E → spec P (attempt m) (λ r w, match r with Ret a => Q a w | _ => E w end) E'.
Proof. intros H w Hw. specialize (H w Hw). unfold attempt. by destruct (m w) as [w1 [a| |]]. Qed.

Lemma spec_attempt_inv {A} P (m : M A) E : spec P m (λ _, P) P → spec P (attempt m) (λ _, P) E.
Proof. intros H w Hw. specialize (H w Hw). unfold attempt. by destruct (m w) as [w1 [a| |]]. Qed.

Lemma spec_ignore {A} P (m : M A) Q E : spec P m (λ _, Q) Q → spec P (ignore_error m) (λ _, Q) E.
Proof. intros H w Hw. specialize (H w Hw). unfold ignore_error. by destruct (m w) as [w1 [a| |]]. Qed.

Lemma spec_on_error {A} P (m : M unit) (k : goerror → M A) ok R E' Q E :
  spec P m (λ _, R) E' → (∀ e, spec E' (k e) Q E) → spec R ok Q E → spec P (on_error m k ok) Q E.
Proof.
  intros Hm Hk Hok w Hw. specialize (Hm w Hw). unfold on_error, io_bind, attempt.
  destruct (m w) as [w1 [u|e|]]; cbn in *; [by apply Hok|by apply Hk|done].
Qed.

Lemma spec_fail {A} P e Q : @spec A P (io_fail e) Q P.
Proof. by intros w. Qed.

Lemma spec_wrap {A} P f (m : M A) Q E : spec P m Q E → spec P (wrap_error f m) Q E.
Proof. intros H w Hw. specialize (H w Hw). unfold wrap_error. by destruct (m w) as [w1 [a| |]]. Qed.

Lemma spec_deferring {A} P (m : M A) d Q Q' E E' :
  spec P m Q E → (∀ a, hoare (Q a) d (λ _, Q' a)) → hoare E d (λ _, E') → spec P (deferring m d) Q' E'.
Proof.
  intros Hm Hd He w Hw. specialize (Hm w Hw). unfold deferring. destruct (m w) as [w1 [a|e|]]; cbn in *.
  - specialize (Hd a w1 Hm). by destruct (d w1).
  - specialize (He w1 Hm). by destruct (d w1).
  - by destruct (d w1).
Qed.

Lemma keeps_mono {A} (P P' : mworld → Prop) (m : M A) : (∀ w, P' w → P w) → keeps P m → hoare P' m (λ _, P).
Proof. intros HP Hm w Hw. apply Hm, HP, Hw. Qed.

Lemma spec_frame {A} P `{!OnCore P} (m : M A) : frame m → spec P m (λ _, P) P.
Proof. intros H. by apply spec_keeps, frame_keeps. Qed.

Lemma spec_as_error P (o : option goerror) : spec P (as_error o) (λ _ w, P w ∧ o = None) (λ w, P w ∧ o ≠ None).
Proof. intros w Hw. by destruct o. Qed.

(** ** The engine and its file *)

Definition pids (p : option smartProcessState) : gset nat := match p with Some p => {[ps_pid p]} | None => ∅ end.

(** The running engines are the recorded one and [X]; with [N], none is recorded;
    the files are among [D], unless a removal failed. *)
Definition wfn {ENV : ManagerEnv} (N : bool) (X : gset nat) (D : gset gostring) (w : mworld) : Prop :=
  (N = true → m_process w = None) ∧ m_engines w ⊆ X ∪ pids (m_process w)
  ∧ ((∀ n, env_remove_fault n = None) → dom (m_configs w) ⊆ D).
Abbreviation wfx := (wfn false).
Abbreviation wf0 := (wfn true).

#[export] Instance wfn_on_core {ENV : ManagerEnv} N X D : OnCore (wfn N X D).
Proof. intros w w' E. unfold core in E. unfold wfn. by injection E as -> -> -> _. Qed.

(** A computation that never returns normally. *)
Definition never_ret {A} (m : M A) : Prop := ∀ w a, snd (m w) ≠ Ret a.

Lemma never_ret_bind {A B} (m : M A) (k : A → M B) : (∀ a, never_ret (k a)) → never_ret (io_bind m k).
Proof. intros Hk w b. unfold io_bind. destruct (m w) as [w1 [a| |]]; [apply Hk|done..]. Qed.

Lemma never_ret_on_error {A} m (k : goerror → M A) ok : (∀ e, never_ret (k e)) → never_ret ok → never_ret (on_error m k ok).
Proof. intros Hk Hok. apply never_ret_bind. intros [u|e|]; [done|apply Hk|by intros w a]. Qed.

Lemma never_ret_fail {A} e : never_ret (@io_fail mworld A e).
Proof. by intros w a. Qed.

Lemma spec_never {A} P (m : M A) Q : never_ret m → spec P m (λ _, P) P → spec P m Q P.
Proof. intros Hn Hk w Hw. specialize (Hk w Hw). specialize (Hn w). destruct (snd (m w)); [by destruct (Hn a)|done..]. Qed.

Section Engine.
Context {RT : GoRuntime} {IDNA : Idna} {ED : Ed25519} {F64 : Float64} {ENV : ManagerEnv}.

Lemma wfn_weaken N N' X X' D D' w : wfn N X D w → X ⊆ X' → D ⊆ D' → (N' = true → N = true) → wfn N' X' D' w.
Proof.
  intros (H0 & H1 & H2) HX HD HN. split; [by auto|]. split; [set_solver|]. intros Hr. specialize (H2 Hr). set_solver.
Qed.

Lemma wfn_none X D w : wfx X D w → m_process w = None → wf0 X D w.
Proof. intros (_ & H1 & H2) Hn. split; [done|]. split; done. Qed.

Lemma keeps_write_config N X D path f : path ∈ D →
  keeps (wfn N X D) (ext_write (λ n w, w <| m_configs := <[path := f n w]> (m_configs w) |>)).
Proof.
  intros Hp. apply keeps_ext_write; [apply _|]. intros n w (Hn & He & Hd). split; [exact Hn|]. split; [exact He|].
  intros Hr. specialize (Hd Hr). cbn. rewrite dom_insert_L. set_solver.
Qed.

Lemma spec_detach N X D : spec (wfn N X D) detachSmartProcessLocked (λ p, wf0 (X ∪ pids p) D) (wfn N X D).
Proof. intros w (Hn & He & Hd). split; [done|]. split; [cbn; set_solver|exact Hd]. Qed.

Lemma spec_kill N X D pid E : spec (wfn N X D) (kill_and_wait pid) (λ _, wfn N (X ∖ {[pid]}) D) E.
Proof. intros w (Hn & He & Hd). split; [exact Hn|]. split; [cbn; set_solver|exact Hd]. Qed.

Lemma spec_start_engine N X D path : spec (wfn N X D) (start_engine path) (λ pid, wfn N ({[pid]} ∪ X) D) (wfn N X D).
Proof.
  intros w (Hn & He & Hd). unfold start_engine, ext. destruct (env_fault _); [done|].
  split; [exact Hn|]. split; [cbn; set_solver|exact Hd].
Qed.

Lemma spec_wait_ready N X D pid :
  spec (wfn N ({[pid]} ∪ X) D) (wait_ready pid)
    (λ r, match r with None => wfn N ({[pid]} ∪ X) D | Some _ => wfn N X D end) (wfn N X D).
Proof.
  intros w (Hn & He & Hd). unfold wait_ready.
  destruct (env_ready _); [done| |]; (split; [exact Hn|]; split; [cbn; set_solver|exact Hd]).
Qed.

Lemma spec_frame_weaken {A} P `{!OnCore P} (m : M A) E : frame m → (∀ w, P w → E w) → spec P m (λ _, P) E.
Proof. intros Hm HE. eapply spec_weaken; [| | |by apply spec_frame]; auto. Qed.

Lemma remove_wfn N X D path w : wfn N X D w → wfn N X (D ∖ {[path]}) (fst (remove_config path w)).
Proof.
  intros (Hn & He & Hd). unfold remove_config. destruct (env_remove_fault (m_calls w)) eqn:E.
  - split; [exact Hn|]. split; [exact He|]. intros Hr. by rewrite Hr in E.
  - split; [exact Hn|]. split; [exact He|]. intros Hr. specialize (Hd Hr). cbn. rewrite dom_delete_L. set_solver.
Qed.

Lemma ignore_remove_result path w : ignore_error (remove_config path) w = (fst (remove_config path w), Ret tt).
Proof. unfold ignore_error, remove_config. by destruct (env_remove_fault _). Qed.

Lemma spec_ignore_remove N X D path E : spec (wfn N X D) (ignore_error (remove_config path)) (λ _, wfn N X (D ∖ {[path]})) E.
Proof. intros w Hw. rewrite ignore_remove_result. by apply remove_wfn. Qed.

Lemma keeps_ignore_remove N X D path : keeps (wfn N X D) (ignore_error (remove_config path)).
Proof.
  intros w Hw. rewrite ignore_remove_result. eapply wfn_weaken; [by apply remove_wfn|done|set_solver|done].
Qed.

Lemma spec_reserve N X D name :
  spec (wfn N X D) (reserveSmartRuntimeConfig name) (λ path, wfn N X (D ∪ {[path]})) (wfn N X D).
Proof.
  unfold reserveSmartRuntimeConfig.
  eapply spec_bind with (R := λ path, wfn N X (D ∪ {[path]})).
  { intros w (Hn & He & Hd). unfold ext. destruct (env_fault _); [done|]. cbn. destruct (m_configs w !! _); [done|].
    split; [exact Hn|]. split; [exact He|]. intros Hr. specialize (Hd Hr). cbn. rewrite dom_insert_L. set_solver. }
  intros path. eapply spec_on_error with (E' := wfn N X (D ∪ {[path]})).
  - apply spec_frame; [apply _|]. framing.
  - intros e. eapply spec_bind; [apply (spec_ignore_remove _ _ _ _ (wfn N X D))|]. intros ? w Hw. cbn.
    eapply wfn_weaken; [exact Hw|done|set_solver|done].
  - by intros w.
Qed.

Lemma spec_stop_process N X D p :
  spec (wfn N (X ∪ pids p) D) (stopSmartProcessState p) (λ _, wfn N X D) (wfn N X D).
Proof.
  unfold stopSmartProcessState. destruct p as [p|].
  - eapply spec_deferring; [apply (spec_kill _ _ _ _ (wfn N X D))| |].
    + intros u. eapply keeps_mono; [|apply (keeps_ignore_remove N X D (ps_configPath p))].
      intros w H. eapply wfn_weaken; [exact H|cbn; set_solver|done|done].
    + apply (keeps_ignore_remove N X D (ps_configPath p)).
  - intros w Hw. cbn. eapply wfn_weaken; [exact Hw|cbn; set_solver|done|done].
Qed.

Lemma spec_smartStopUnlocked D : spec (wfx ∅ D) smartStopUnlocked (λ _, wf0 ∅ D) (wf0 ∅ D).
Proof.
  unfold smartStopUnlocked. eapply spec_bind with (R := λ p, wf0 (∅ ∪ pids p) D).
  { intros w Hw. apply (spec_detach false ∅ D w Hw). }
  intros p. eapply spec_bind; [apply spec_stop_process|]. intros e.
  eapply spec_bind; [apply spec_frame, frame_notify_stopped; apply _|]. intros ?.
  eapply spec_weaken; [| | |apply (spec_as_error (wf0 ∅ D))]; [done|by intros ? w [? _]|by intros w [? _]].
Qed.

(** ** [smartStartLocked] *)

Lemma never_ret_undo s p n prior e : never_ret (undo_provisional_guard s p n prior e).
Proof. unfold undo_provisional_guard. destruct (_ && _); [apply never_ret_bind; intros|]; apply never_ret_fail. Qed.

Lemma spec_unless_kept {A} P path (m : M A) D Q :
  spec P m Q (wfx ∅ (D ∪ {[path]})) → spec P (unless_kept path m) Q (wfx ∅ D).
Proof.
  intros H w Hw. specialize (H w Hw). unfold unless_kept. destruct (m w) as [w1 [a|e|]]; [done| |].
  - cbn in H. rewrite ignore_remove_result. cbn.
    eapply wfn_weaken; [apply remove_wfn, H|done|set_solver|done].
  - rewrite ignore_remove_result. done.
Qed.

Lemma never_ret_restore start n p e : never_ret (restoreNative start n p e).
Proof.
  unfold restoreNative. destruct (n =?s []).
  - destruct p; [|apply never_ret_fail]. apply never_ret_on_error; intros; apply never_ret_fail.
  - apply never_ret_bind. intros g. apply never_ret_on_error; intros; apply never_ret_fail.
Qed.

Lemma frame_check : frame ext_check.
Proof. framing. Qed.

(** The recursive call is assumed to keep the invariant. *)
Section Body.
Variable start : gostring → RoutingSettings → M unit.
Hypothesis start_inv : ∀ D n s, spec (wfx ∅ D) (start n s) (λ _, wfx ∅ D) (wfx ∅ D).

Lemma spec_restore N D n p e Q : spec (wfn N ∅ D) (restoreNative start n p e) Q (wfx ∅ D).
Proof using start_inv.
  eapply spec_weaken with (P := wfx ∅ D) (Q := Q); [|done|done|].
  { intros w Hw. eapply wfn_weaken; [exact Hw|done|done|done]. }
  apply spec_never; [apply never_ret_restore|]. unfold restoreNative, restore_smart. destruct (n =?s []).
  - destruct p; [|apply spec_fail]. eapply spec_on_error; [apply start_inv|intros; apply spec_fail|apply spec_fail].
  - eapply spec_bind; [apply spec_keeps, keeps_attempt, frame_keeps, frame_clear_guard; apply _|]. intros g.
    eapply spec_on_error; [apply spec_frame, frame_start_native; apply _|intros; apply spec_fail|apply spec_fail].
Qed.

Lemma spec_native_mode D n persist :
  spec (wfx ∅ D) (start_native_mode start n persist) (λ _, wfx ∅ D) (wfx ∅ D).
Proof using start_inv.
  unfold start_native_mode, restore_smart. eapply spec_bind; [apply spec_keeps, keeps_gets|]. intros previous.
  eapply spec_bind with (R := λ _, wfx ∅ D).
  { apply spec_wrap. eapply spec_weaken; [| | |apply spec_smartStopUnlocked]; [done|intros ? w Hw|intros w Hw];
      (eapply wfn_weaken; [exact Hw|done|done|done]). }
  intros ?. eapply spec_on_error; [apply spec_frame, frame_start_native; apply _| |].
  - intros e. destruct previous; [|apply spec_fail].
    eapply spec_bind; [apply spec_attempt_inv, start_inv|]. intros r. apply spec_fail.
  - apply spec_keeps. keeping; apply frame_keeps; try apply _; auto using frame_clear_guard, frame_clear_desired, frame_mark.
    unfold stopNativeTunnel. apply frame_stop_natives.
Qed.

(** A step that reports, then restores the predecessor. *)
Lemma spec_notify_restore N D name st e n p c Q :
  spec (wfn N ∅ D) (IPCServerNotifyTunnelChange name st e ;; restoreNative start n p c) Q (wfx ∅ D).
Proof using start_inv.
  eapply spec_bind; [apply spec_frame_weaken; [apply _|apply frame_notify|]|intros ?; apply spec_restore].
  intros w Hw. eapply wfn_weaken; [exact Hw|done|done|done].
Qed.

Lemma spec_finish D n p state enginePath persist :
  let D' := D ∪ {[ps_configPath state]} in
  spec (wf0 ({[ps_pid state]} ∪ ∅) D') (finish_start (restoreNative start n p) state enginePath persist)
    (λ _, wfx ∅ D) (wfx ∅ D').
Proof using start_inv.
  intros D'. set (P1 := wf0 ({[ps_pid state]} ∪ ∅) D').
  assert (Hstop : ∀ (k : M unit) Q, spec (wf0 ∅ D') k Q (wfx ∅ D') →
    spec P1 (stopSmartProcessState (Some state) ;; k) Q (wfx ∅ D')).
  { intros k Q Hk. eapply spec_bind; [|intros ?; exact Hk].
    eapply spec_weaken; [| | |apply (spec_stop_process true ∅ D' (Some state))]; [|done|].
    - intros w Hw. eapply wfn_weaken; [exact Hw|cbn; set_solver|done|done].
    - intros w Hw. eapply wfn_weaken; [exact Hw|done|done|done]. }
  unfold finish_start. eapply spec_bind; [eapply spec_weaken; [| | |apply (spec_wait_ready true ∅ D')]|].
  { done. } { intros a w Hw. exact Hw. } { intros w Hw. eapply wfn_weaken; [exact Hw|done|done|done]. }
  intros [e|]; cbv beta iota.
  - eapply spec_on_error with (R := λ _, False) (E' := wf0 ∅ D'); [by intros w|intros; apply spec_notify_restore|by intros w].
  - eapply spec_on_error with (R := P1) (E' := wf0 ∅ D'); [by intros w|intros; apply spec_notify_restore|].
    eapply spec_on_error with (E' := P1); [apply spec_frame, frame_final_guard; apply _|intros e; apply Hstop, spec_restore|].
    eapply spec_on_error with (R := P1) (E' := P1).
    { destruct persist; [apply spec_frame, frame_save_desired; apply _|by intros w]. }
    { intros e. apply Hstop, spec_notify_restore. }
    eapply spec_bind with (R := λ _, wfx ∅ D').
    { intros w (Hn & He & Hd). rewrite (Hn eq_refl) in He. split; [done|]. split; [cbn in *; set_solver|exact Hd]. }
    intros ?. eapply spec_bind; [apply spec_frame, frame_mark; apply _|]. intros ?.
    eapply spec_bind with (R := λ _, wfx ∅ D).
    { eapply spec_weaken; [| | |apply (spec_ignore_remove false ∅ D' (ps_configPath state) (wfx ∅ D'))]; [done| |done].
      intros ? w Hw. eapply wfn_weaken; [exact Hw|done|unfold D'; set_solver|done]. }
    intros ?. apply spec_frame_weaken; [apply _|apply frame_notify|].
    intros w Hw. eapply wfn_weaken; [exact Hw|done|unfold D'; set_solver|done].
Qed.

Lemma spec_replace D n p name settings probe path enginePath persist :
  let D' := D ∪ {[path]} in
  spec (wfx ∅ D') (replace_engine (restoreNative start n p) name settings probe path enginePath persist)
    (λ _, wfx ∅ D) (wfx ∅ D').
Proof using start_inv.
  intros D'. assert (Hw0 : ∀ w, wf0 ∅ D' w → wfx ∅ D' w).
  { intros w Hw. eapply wfn_weaken; [exact Hw|done|done|done]. }
  assert (Hcheck : ∀ Q ok, spec (wf0 ∅ D') ok Q (wfx ∅ D') →
    spec (wf0 ∅ D') (on_error ext_check (restoreNative start n p) ok) Q (wfx ∅ D')).
  { intros Q ok Hok. eapply spec_on_error; [apply spec_frame, frame_check; apply _|intros; apply spec_restore|exact Hok]. }
  unfold replace_engine. eapply spec_bind with (R := λ q, wf0 (∅ ∪ pids q) D').
  { intros w Hw. apply (spec_detach false ∅ D' w Hw). }
  intros previousState. eapply spec_bind; [eapply spec_weaken; [| | |apply (spec_stop_process true ∅ D')]; [done|done|exact Hw0]|].
  intros stopErr.
  eapply spec_bind; [apply spec_frame_weaken; [apply _|apply frame_notify_stopped|exact Hw0]|]. intros ?.
  eapply spec_on_error with (R := wf0 ∅ D') (E' := wf0 ∅ D'); [|intros e; apply spec_restore|].
  { eapply spec_weaken; [| | |apply (spec_as_error (wf0 ∅ D'))]; [done|by intros ? w [? _]|by intros w [? _]]. }
  apply Hcheck, Hcheck.
  eapply spec_bind; [apply spec_frame_weaken; [apply _|apply frame_notify|exact Hw0]|]. intros ?.
  eapply spec_bind; [apply spec_attempt, spec_start_engine|]. intros [pid|e|]; cbv beta iota; [| |by intros w].
  - eapply spec_on_error; [apply spec_frame, frame_check; apply _| |].
    + intros e. eapply spec_bind; [apply (spec_kill _ _ _ _ (wfx ∅ D'))|]. intros ?.
      apply (spec_weaken (wf0 ∅ D') _ _ (λ _, wfx ∅ D) _ (wfx ∅ D')); [|done|done|apply spec_notify_restore].
      intros w Hw. eapply wfn_weaken; [exact Hw|set_solver|done|done].
    + apply (spec_finish D n p (mkProcess name settings pid (fst probe) (snd probe) path)).
  - apply spec_notify_restore.
Qed.

Lemma spec_smart_mode D name settings persist :
  spec (wfx ∅ D) (start_smart_mode start name settings persist) (λ _, wfx ∅ D) (wfx ∅ D).
Proof using start_inv.
  unfold start_smart_mode.
  eapply spec_bind; [apply spec_frame; [apply _|]; unfold LoadFromName; framing|]. intros c.
  eapply spec_bind; [apply spec_frame; [apply _|]; unfold engine_config; framing|]. intros configBytes.
  eapply spec_bind; [apply spec_frame; [apply _|]; unfold prepareDiagnosticListener; framing|]. intros probe.
  eapply spec_bind; [apply spec_frame; [apply _|]; framing|]. intros configBytes'.
  eapply spec_bind; [apply spec_frame, frame_check; apply _|]. intros ?.
  eapply spec_bind; [apply spec_reserve|]. intros path. apply spec_unless_kept.
  eapply spec_bind; [apply spec_keeps, keeps_write_config; set_solver|]. intros ?.
  eapply spec_bind; [apply spec_frame; [apply _|]; framing|]. intros enginePath.
  eapply spec_bind; [apply spec_frame; [apply _|]; framing|]. intros ?.
  eapply spec_bind; [apply spec_frame, frame_native_states; apply _|]. intros nativeStates.
  eapply spec_bind; [apply spec_frame; [apply _|]; framing|]. intros priorNative.
  eapply spec_bind; [apply spec_frame; [apply _|]; framing|]. intros priorSmart.
  eapply spec_bind.
  { apply spec_frame; [apply _|]. destruct (protected settings); [|done]. framing. apply frame_keeps, frame_set_guard. apply _. }
  intros ?. eapply spec_on_error; [apply spec_frame, frame_stop_all; apply _| |apply spec_replace].
  intros e. apply spec_never; [apply never_ret_undo|apply spec_frame, frame_undo; apply _].
Qed.
End Body.

Lemma spec_smartStartLocked fuel D name settings persist :
  spec (wfx ∅ D) (smartStartLocked fuel name settings persist) (λ _, wfx ∅ D) (wfx ∅ D).
Proof.
  revert D name settings persist. induction fuel as [|fuel IH]; intros D name settings persist; [by intros w|].
  cbn [smartStartLocked]. unfold start_body. eapply spec_bind; [apply spec_frame, frame_check; apply _|]. intros ?.
  destruct (usesNativeTunnel settings); [apply spec_native_mode|apply spec_smart_mode]; intros; apply IH.
Qed.
End Engine.

(** ** A concrete manager

    Two stored tunnels, of which one runs, an engine that becomes ready, and
    calls that all succeed, for the witnesses about the manager. *)
From S2P Require Import GoNet.

Local Open Scope Z_scope.

#[export] Existing Instance plain_runtime.
#[export] Instance demo_idna : Idna := λ s, Ret s.
#[export] Instance demo_signature : Ed25519 := λ _ _ _, false.
#[export] Instance demo_float : Float64 := λ s, Some s.

Definition demo_password : gostring := "0123456789abcdef0123456789abcdef".

(** [faults n] is the error of the [n]-th call. *)
Definition demo_env (faults : nat → option goerror) : ManagerEnv := {|
  env_fault := faults;
  env_remove_fault := λ _, None;
  env_now := λ n, Z.of_nat n;
  env_catalog := λ _, serviceCatalogState;
  env_ready := λ _, EngineReady;
  env_luid := λ n, 7;
  env_probePort := λ _, 4000;
  env_probePassword := λ _, demo_password;
  env_enginePath := "engine.exe";
  env_configDir := "C:\work" |}.

Definition no_fault (n : nat) : option goerror := None.
(** Only the [k]-th call fails. *)
Definition fault_at (k n : nat) : option goerror := if (n =? k)%nat then Some (ErrorString "Access is denied.") else None.

Definition demo_config (name : gostring) : Config :=
  let i := zeroInterface <| Addresses := [mkIPCidr [x0a; x00; x00; x02] 32] |> in
  let p := zeroPeer <| AllowedIPs := [mkIPCidr [x00; x00; x00; x00] 0] |>
                    <| PeerEndpoint := mkEndpoint "vpn.example.com" 51820 |> in
  mkConfig name i [p].

Definition empty_world : mworld := mkWorld 0 ∅ ∅ ∅ None ∅ ∅ ∅ None None [] 0 [] 0.

(** Nothing runs. *)
Definition idle_world : mworld :=
  empty_world <| m_stored := <["home" := demo_config "home"]> (<["work" := demo_config "work"]> ∅) |>.

(** The native tunnel [work] runs. *)
Definition demo_world : mworld :=
  idle_world <| m_services := <["work" := mkSvc TunnelStarted false]> ∅ |> <| m_tracked := <["work" := TunnelStarted]> ∅ |>.

Definition protected_settings : RoutingSettings :=
  zeroSettings <| Version := 5 |> <| SMode := ModeSelected |> <| Protection := "all" |>.
Definition open_settings : RoutingSettings := zeroSettings <| Version := 5 |> <| SMode := ModeSelected |>.
