(* ===== verification/ManagerRestore.v ===== *)
(** * The recursion of [smartStartLocked]

    Restoring the predecessor calls the function again.  There it finds no
    predecessor, so this is the last call: [start_fuel] is enough. *)
From S2P Require Import Prelude GoStrings GoStrconv GoJson GoOs AwgValidation Conf SmartRules SmartCatalog SmartUpdate SmartSettings SmartStore SmartConfig Supervisor ManagerNet ManagerTypes ManagerDesired Manager ManagerStart ManagerFacts.

Local Open Scope Z_scope.

(** [m] and [m'] are the same on the states of [P]. *)
Definition same_on {A} (P : mworld → Prop) (m m' : M A) : Prop := ∀ w, P w → m w = m' w.

Lemma same_refl {A} P (m : M A) : same_on P m m.
Proof. done. Qed.

Lemma same_bind {A B} P R E (m m' : M A) (k k' : A → M B) :
  same_on P m m' → spec P m R E → (∀ a, same_on (R a) (k a) (k' a)) → same_on P (io_bind m k) (io_bind m' k').
Proof.
  intros Hm Hs Hk w Hw. unfold io_bind. rewrite <- (Hm w Hw). specialize (Hs w Hw).
  destruct (m w) as [w1 [a|e|]]; cbn in Hs; [by apply Hk|done..].
Qed.

Lemma same_on_error {A} P R E m (k k' : goerror → M A) ok ok' :
  spec P m (λ _, R) E → (∀ e, same_on E (k e) (k' e)) → same_on R ok ok' → same_on P (on_error m k ok) (on_error m k' ok').
Proof.
  intros Hs Hk Hok. unfold on_error.
  eapply (same_bind P (λ r w, match r with Ret a => R w | _ => E w end) (λ _, True)); [done|by apply spec_attempt|].
  intros [u|e|]; [exact Hok|apply Hk|done].
Qed.

Lemma same_weaken {A} (P P' : mworld → Prop) (m m' : M A) : (∀ w, P' w → P w) → same_on P m m' → same_on P' m m'.
Proof. intros H Hs w Hw. by apply Hs, H. Qed.

Definition no_process (w : mworld) : Prop := m_process w = None.
#[export] Instance no_process_on_core : OnCore no_process.
Proof. intros w w' E. unfold core in E. unfold no_process. by injection E as -> _ _ _. Qed.

Section Restore.
Context {RT : GoRuntime} {IDNA : Idna} {ED : Ed25519} {F64 : Float64} {ENV : ManagerEnv}.

Lemma no_process_remove path : keeps no_process (remove_config path).
Proof. intros w Hw. unfold remove_config. by destruct (env_remove_fault _). Qed.

Lemma no_process_kill pid : keeps no_process (kill_and_wait pid).
Proof. by intros w. Qed.

Lemma no_process_stop p : keeps no_process (stopSmartProcessState p).
Proof.
  unfold stopSmartProcessState. destruct p; [|apply keeps_ret].
  apply keeps_deferring; [apply no_process_kill|apply keeps_ignore, no_process_remove].
Qed.

Lemma no_process_wait_ready pid : keeps no_process (wait_ready pid).
Proof. intros w Hw. unfold wait_ready. by destruct (env_ready _). Qed.

Lemma no_process_start path : keeps no_process (start_engine path).
Proof. apply keeps_ext; [apply _|done]. Qed.

Lemma no_process_reserve s : keeps no_process (reserveSmartRuntimeConfig s).
Proof.
  unfold reserveSmartRuntimeConfig. apply keeps_bind.
  - apply keeps_ext; [apply _|]. intros n w Hw. by destruct (m_configs w !! _).
  - intros path. keeping; apply no_process_remove.
Qed.

Lemma no_process_write f : keeps no_process (ext_write (λ n w, w <| m_configs := f n w |>)).
Proof. by apply keeps_ext_write; [apply _|]. Qed.

Lemma spec_detach_none : spec (λ _, True) detachSmartProcessLocked (λ _, no_process) no_process.
Proof. by intros w _. Qed.

Lemma spec_stop_none : spec (λ _, True) smartStopUnlocked (λ _, no_process) no_process.
Proof.
  unfold smartStopUnlocked. eapply spec_bind; [apply spec_detach_none|]. intros p.
  eapply spec_bind; [apply spec_keeps, no_process_stop|]. intros e.
  eapply spec_bind; [apply spec_frame, frame_notify_stopped; apply _|]. intros ?. apply spec_keeps, keeps_as_error.
Qed.

Lemma unless_kept_same {A} path (m m' : M A) w : m w = m' w → unless_kept path m w = unless_kept path m' w.
Proof. unfold unless_kept. by intros ->. Qed.

(** Without a predecessor the other call is not there. *)
Lemma restore_no_prior start start' n e : restoreNative start n None e = restoreNative start' n None e.
Proof. done. Qed.

Lemma native_mode_no_process start start' name persist :
  same_on no_process (start_native_mode start name persist) (start_native_mode start' name persist).
Proof.
  intros w Hw. unfold start_native_mode.
  eapply (same_bind no_process (λ p _, p = None) (λ _, True)); [done|by intros w'|intros p|exact Hw].
  intros w' Hp. by rewrite Hp.
Qed.

Lemma smart_mode_no_process start start' name settings persist :
  same_on no_process (start_smart_mode start name settings persist) (start_smart_mode start' name settings persist).
Proof.
  unfold start_smart_mode.
  eapply same_bind; [done|apply spec_frame; [apply _|]; unfold LoadFromName; framing|]. intros c.
  eapply same_bind; [done|apply spec_frame; [apply _|]; unfold engine_config; framing|]. intros configBytes.
  eapply same_bind; [done|apply spec_frame; [apply _|]; unfold prepareDiagnosticListener; framing|]. intros probe.
  eapply same_bind; [done|apply spec_frame; [apply _|]; framing|]. intros configBytes'.
  eapply same_bind; [done|apply spec_frame, frame_check; apply _|]. intros ?.
  eapply same_bind; [done|apply spec_keeps, no_process_reserve|]. intros path.
  intros w Hw. apply unless_kept_same. revert w Hw.
  eapply same_bind; [done|apply spec_keeps, no_process_write|]. intros ?.
  eapply same_bind; [done|apply spec_frame; [apply _|]; framing|]. intros enginePath.
  eapply same_bind; [done|apply spec_frame; [apply _|]; framing|]. intros ?.
  eapply same_bind; [done|apply spec_frame, frame_native_states; apply _|]. intros nativeStates.
  eapply same_bind; [done|apply spec_frame; [apply _|]; framing|]. intros priorNative.
  eapply (same_bind no_process (λ p _, p = None) (λ _, True)); [done|by intros w|]. intros p w Hp. by rewrite Hp.
Qed.

(** Two calls that agree where no engine is recorded. *)
Section Agree.
Variables start start' : gostring → RoutingSettings → M unit.
Hypothesis agree : ∀ n s, same_on no_process (start n s) (start' n s).

Lemma restore_agree n p e : same_on no_process (restoreNative start n p e) (restoreNative start' n p e).
Proof using agree.
  unfold restoreNative, restore_smart. destruct (n =?s []); [|done]. destruct p as [p|]; [|done].
  intros w Hw. unfold on_error, io_bind, attempt. by rewrite (agree _ _ w Hw).
Qed.

Lemma native_mode_agree name persist :
  same_on (λ _, True) (start_native_mode start name persist) (start_native_mode start' name persist).
Proof using agree.
  unfold start_native_mode, restore_smart. eapply (same_bind _ (λ _ _, True) (λ _, True)); [done|by intros w|]. intros previous.
  eapply same_bind; [done|apply spec_wrap, spec_stop_none|]. intros ?.
  eapply same_on_error; [apply spec_frame, frame_start_native; apply _| |done].
  intros e. destruct previous as [p|]; [|done].
  intros w Hw. unfold io_bind, attempt. by rewrite (agree _ _ w Hw).
Qed.

Lemma notify_restore_agree name st e n p c :
  same_on no_process (IPCServerNotifyTunnelChange name st e ;; restoreNative start n p c)
    (IPCServerNotifyTunnelChange name st e ;; restoreNative start' n p c).
Proof using agree. eapply same_bind; [done|apply spec_frame, frame_notify; apply _|]. intros ?. apply restore_agree. Qed.

Lemma finish_agree n p state enginePath persist :
  same_on no_process (finish_start (restoreNative start n p) state enginePath persist)
    (finish_start (restoreNative start' n p) state enginePath persist).
Proof using agree.
  unfold finish_start. eapply same_bind; [done|apply spec_keeps, no_process_wait_ready|]. intros r.
  eapply same_on_error; [apply spec_keeps, keeps_as_error|intros; apply notify_restore_agree|].
  eapply same_on_error; [apply spec_frame, frame_final_guard; apply _| |].
  { intros e. eapply same_bind; [done|apply spec_keeps, no_process_stop|]. intros ?. apply restore_agree. }
  eapply same_on_error with (R := no_process) (E := no_process); [destruct persist; [apply spec_frame, frame_save_desired; apply _|by intros w]| |done].
  intros e. eapply same_bind; [done|apply spec_keeps, no_process_stop|]. intros ?. apply notify_restore_agree.
Qed.

Lemma replace_agree n p name settings probe path enginePath persist :
  same_on (λ _, True) (replace_engine (restoreNative start n p) name settings probe path enginePath persist)
    (replace_engine (restoreNative start' n p) name settings probe path enginePath persist).
Proof using agree.
  unfold replace_engine. eapply same_bind; [done|apply spec_detach_none|]. intros q.
  eapply same_bind; [done|apply spec_keeps, no_process_stop|]. intros stopErr.
  eapply same_bind; [done|apply spec_frame, frame_notify_stopped; apply _|]. intros ?.
  eapply same_on_error; [apply spec_keeps, keeps_as_error|intros; apply restore_agree|].
  do 2 (eapply same_on_error; [apply spec_frame, frame_check; apply _|intros; apply restore_agree|]).
  eapply same_bind; [done|apply spec_frame, frame_notify; apply _|]. intros ?.
  eapply (same_bind _ (λ _, no_process) (λ _, True)); [done|apply spec_attempt_inv, spec_keeps, no_process_start|].
  intros [pid|e|]; [|apply notify_restore_agree|done].
  eapply same_on_error; [apply spec_frame, frame_check; apply _| |apply finish_agree].
  intros e. eapply same_bind; [done|apply spec_keeps, no_process_kill|]. intros ?. apply notify_restore_agree.
Qed.

Lemma smart_mode_agree name settings persist w :
  start_smart_mode start name settings persist w = start_smart_mode start' name settings persist w.
Proof using agree.
  assert (Hb : ∀ {A B} (m : M A) (k k' : A → M B), (∀ a w, k a w = k' a w) → ∀ w, io_bind m k w = io_bind m k' w).
  { intros A B m k k' Hk w1. unfold io_bind. destruct (m w1) as [w2 [a|e|]]; [apply Hk|done..]. }
  unfold start_smart_mode. revert w.
  do 6 (apply Hb; intros ?). intros w. apply unless_kept_same. revert w. do 7 (apply Hb; intros ?). intros w.
  apply (same_on_error (λ _, True) (λ _, True) (λ _, True)); [|done| |done].
  - intros w' _. by destruct (stopAllNativeTunnels w') as [? [ | | ]].
  - apply replace_agree.
Qed.
End Agree.

Lemma body_no_process start start' n s p : same_on no_process (start_body start n s p) (start_body start' n s p).
Proof.
  unfold start_body. eapply same_bind; [done|apply spec_frame, frame_check; apply _|]. intros ?.
  destruct (usesNativeTunnel s); [apply native_mode_no_process|apply smart_mode_no_process].
Qed.

Lemma body_agree start start' n s p w :
  (∀ n s, same_on no_process (start n s) (start' n s)) → start_body start n s p w = start_body start' n s p w.
Proof.
  intros agree. unfold start_body.
  apply (same_bind (λ _, True) (λ _ _, True) (λ _, True)); [done|by intros w' _; destruct (snd _)| |done]. intros ? w' _.
  destruct (usesNativeTunnel s); [by apply native_mode_agree|by apply smart_mode_agree].
Qed.

(** C38: Restoring a predecessor goes one call deep, whatever the call, the
    state and the faults: a third call is never made (the result does not depend
    on what it would do), so the recursion of [smartStartLocked] ends, and any
    number of nested calls of at least one gives the same result. *)
Theorem smartStartLocked_terminates third fuel name settings persist w :
  start_body (λ n s, start_body third n s false) name settings persist w = smartStartLocked start_fuel name settings persist w
  ∧ smartStartLocked (S (S fuel)) name settings persist w = smartStartLocked start_fuel name settings persist w.
Proof. split; (apply body_agree; intros n s; apply body_no_process). Qed.
End Restore.
