(* ===== verification/ManagerSwitch.v ===== *)
(** * Switching between native tunnels

    What [planNativeSwitch] decides, in any order of the map, and what a
    successful [Start] leaves: the smart engine is off and every other known
    tunnel is stopped.  The order in which fallback profiles are tried, event
    queues, and service states. *)
From S2P Require Import Prelude GoStrings GoStrconv GoJson GoOs TunnelName AwgValidation Conf SmartRules SmartCatalog SmartUpdate SmartSettings SmartStore SmartConfig Supervisor ManagerNet ManagerTypes ManagerDesired Manager ManagerStart ManagerFacts.

Local Open Scope Z_scope.

(** ** The plan *)

Definition to_stop (target : gostring) (kv : gostring * TunnelState) : bool :=
  negb (fst kv =?s target) && negb (bool_decide (snd kv = TunnelStopped)).
Definition to_wait (target : gostring) (kv : gostring * TunnelState) : bool :=
  to_stop target kv || ((fst kv =?s target) && bool_decide (snd kv = TunnelStopping)).
Definition keeps_target (target : gostring) (kv : gostring * TunnelState) : bool :=
  (fst kv =?s target) && bool_decide (snd kv = TunnelStarted ∨ snd kv = TunnelStarting ∨ snd kv = TunnelUnknown).

Lemma plan_fold target l plan :
  fold_left (plan_step target) l plan =
    mkPlan (plan_stop plan ++ map fst (List.filter (to_stop target) l))
           (plan_wait plan ++ map fst (List.filter (to_wait target) l))
           (plan_install plan && negb (existsb (keeps_target target) l)).
Proof.
  revert plan. induction l as [|[n st] l IH]; intros plan; cbn [fold_left List.filter existsb map].
  { rewrite !app_nil_r, andb_true_r. by destruct plan. }
  rewrite IH. unfold plan_step. set (f := List.filter (to_stop target) l). set (g := List.filter (to_wait target) l).
  set (h := existsb (keeps_target target) l). clearbody f g h. unfold to_wait, keeps_target, to_stop. cbn [fst snd].
  destruct (n =?s target), st; cbn; rewrite <- ?app_assoc, ?andb_false_r; reflexivity.
Qed.

Lemma in_filter_names {A} (f : gostring * A → bool) (l : list (gostring * A)) n :
  n ∈ map fst (List.filter f l) ↔ ∃ a, (n, a) ∈ l ∧ f (n, a) = true.
Proof.
  rewrite list_elem_of_In, in_map_iff. setoid_rewrite filter_In. setoid_rewrite <- list_elem_of_In. split.
  - intros ([n' a] & E & Hin & Hf). cbn in E. subst. eauto.
  - intros (a & Hin & Hf). by exists (n, a).
Qed.

Section Plan.
Context {RT : GoRuntime}.

Lemma iterate_map_in {A} (m : gmap gostring A) n a : (n, a) ∈ iterate (map_to_list m) ↔ m !! n = Some a.
Proof. rewrite iterate_perm. apply elem_of_map_to_list. Qed.

Lemma sort_in l (n : gostring) : n ∈ sort_Strings l ↔ n ∈ l.
Proof. unfold sort_Strings. by rewrite merge_sort_Permutation. Qed.

Lemma filter_names_nodup {A} (f : gostring * A → bool) (m : gmap gostring A) :
  NoDup (map fst (List.filter f (iterate (map_to_list m)))).
Proof.
  assert (NoDup (map fst (iterate (map_to_list m)))) as Hd.
  { rewrite (Permutation_map fst (iterate_perm _)). apply NoDup_fst_map_to_list. }
  revert Hd. generalize (iterate (map_to_list m)). intros l. induction l as [|kv l IH]; cbn; intros Hd; [constructor|].
  apply NoDup_cons in Hd as [Hn Hd]. destruct (f kv); [|auto]. cbn. apply NoDup_cons. split; [|auto].
  intros Hin. apply Hn. apply list_elem_of_In, in_map_iff in Hin as (kv' & E & Hin). apply filter_In in Hin as [Hin _].
  apply list_elem_of_In, in_map_iff. eauto.
Qed.

(** What the plan holds, in terms of the map alone. *)
Definition plan_for (target : gostring) (states : gmap gostring TunnelState) (plan : nativeSwitchPlan) : Prop :=
  (∀ n, n ∈ plan_stop plan ↔ n ≠ target ∧ ∃ st, states !! n = Some st ∧ st ≠ TunnelStopped)
  ∧ (∀ n, n ∈ plan_wait plan ↔ n ∈ plan_stop plan ∨ (n = target ∧ states !! n = Some TunnelStopping))
  ∧ NoDup (plan_stop plan) ∧ NoDup (plan_wait plan)
  ∧ StronglySorted str_le (plan_stop plan) ∧ StronglySorted str_le (plan_wait plan)
  ∧ plan_install plan = match states !! target with None | Some TunnelStopped | Some TunnelStopping => true | _ => false end.

Lemma plan_install_spec target states :
  negb (existsb (keeps_target target) (iterate (map_to_list states))) =
    match states !! target with None | Some TunnelStopped | Some TunnelStopping => true | _ => false end.
Proof.
  assert (existsb (keeps_target target) (iterate (map_to_list states)) = true ↔
          ∃ st, states !! target = Some st ∧ (st = TunnelStarted ∨ st = TunnelStarting ∨ st = TunnelUnknown)) as H.
  { rewrite existsb_exists. setoid_rewrite <- list_elem_of_In. split.
    - intros ([n st] & Hin & Hk). apply iterate_map_in in Hin. unfold keeps_target in Hk. cbn in Hk.
      apply andb_prop in Hk as [Hn Hk]. apply str_eqb_true in Hn as ->. apply bool_decide_eq_true in Hk. eauto.
    - intros (st & Hl & Hst). exists (target, st). split; [by apply iterate_map_in|]. unfold keeps_target. cbn.
      rewrite str_eqb_refl. by apply bool_decide_eq_true. }
  destruct (existsb _ _); cbn.
  - destruct (proj1 H eq_refl) as (st & -> & [-> | [-> | ->]]); done.
  - destruct (states !! target) as [st|]; [|done]. destruct st; try done; exfalso.
    all: assert (false = true) as E by (apply H; eauto); discriminate.
Qed.

Lemma planNativeSwitch_plan_for target states : plan_for target states (planNativeSwitch target states).
Proof.
  unfold planNativeSwitch. rewrite plan_fold. cbn [plan_stop plan_wait plan_install]. rewrite !app_nil_l, andb_true_l.
  set (l := iterate (map_to_list states)).
  assert (Hstop : ∀ n st, to_stop target (n, st) = true ↔ n ≠ target ∧ st ≠ TunnelStopped).
  { intros n st. unfold to_stop. cbn. rewrite andb_true_iff, !negb_true_iff, bool_decide_eq_false, <- not_true_iff_false, str_eqb_true. done. }
  unfold plan_for. cbn [plan_stop plan_wait plan_install].
  split; [|split; [|split; [|split; [|split; [|split]]]]].
  - intros n. rewrite sort_in, in_filter_names. split.
    + intros (st & Hl & Hs). apply iterate_map_in in Hl. apply Hstop in Hs as [? ?]. eauto.
    + intros (Hn & st & Hl & Hs). exists st. split; [by apply iterate_map_in|by apply Hstop].
  - intros n. rewrite !sort_in, !in_filter_names. split.
    + intros (st & Hl & Hw). unfold to_wait in Hw. apply orb_prop in Hw as [Hw|Hw]; [eauto|right]. cbn in Hw.
      apply andb_prop in Hw as [E Hw]. apply str_eqb_true in E. apply bool_decide_eq_true in Hw. subst.
      by apply iterate_map_in in Hl.
    + intros [(st & Hl & Hs)|[-> Hl]]; [exists st|exists TunnelStopping];
        (split; [first [done|by apply iterate_map_in]|]); unfold to_wait; [by rewrite Hs|].
      apply orb_true_iff. right. cbn. by rewrite str_eqb_refl.
  - unfold sort_Strings. rewrite merge_sort_Permutation. apply filter_names_nodup.
  - unfold sort_Strings. rewrite merge_sort_Permutation. apply filter_names_nodup.
  - apply StronglySorted_merge_sort; apply _.
  - apply StronglySorted_merge_sort; apply _.
  - apply plan_install_spec.
Qed.
End Plan.

(** ** Successful runs, step by step *)

Lemma run_bind_ret {A B} (m : M A) (k : A → M B) w w' b :
  io_bind m k w = (w', Ret b) → ∃ w1 a, m w = (w1, Ret a) ∧ k a w1 = (w', Ret b).
Proof. unfold io_bind. destruct (m w) as [w1 [a|e|]]; [eauto|done..]. Qed.

Lemma attempt_ret {A} (m : M A) w w' r : attempt m w = (w', Ret r) → m w = (w', r) ∧ r ≠ Panic.
Proof. unfold attempt. destruct (m w) as [w1 [a|e|]]; intros H; [| |done]; by simplify_eq. Qed.

Lemma on_error_ret {A} m (k : goerror → M A) ok w w' a :
  on_error m k ok w = (w', Ret a) → (∀ e, never_ret (k e)) → ∃ w1, m w = (w1, Ret tt) ∧ ok w1 = (w', Ret a).
Proof.
  intros H Hk. apply run_bind_ret in H as (w1 & r & Hm & H). apply attempt_ret in Hm as [Hm _]. destruct r as [[]|e|].
  - eauto.
  - destruct (Hk e w1 a). by rewrite H.
  - done.
Qed.

Lemma wrap_ret {A} f (m : M A) w w' a : wrap_error f m w = (w', Ret a) → m w = (w', Ret a).
Proof. unfold wrap_error. destruct (m w) as [w1 [b|e|]]; cbn; intros H; by simplify_eq. Qed.

Lemma spec_ret {A} P (m : M A) Q E w w' a : spec P m Q E → P w → m w = (w', Ret a) → Q a w'.
Proof. intros H Hw Em. specialize (H w Hw). by rewrite Em in H. Qed.

Section Success.
Context {RT : GoRuntime} {IDNA : Idna} {ED : Ed25519} {F64 : Float64} {ENV : ManagerEnv}.

Lemma ext_ret {A} (f : nat → mworld → mworld * outcome A) w w' a :
  ext f w = (w', Ret a) → f (m_calls w) (w <| m_calls := S (m_calls w) |>) = (w', Ret a).
Proof. unfold ext. by destruct (env_fault _). Qed.

Lemma ext_write_ret f w w' u : ext_write f w = (w', Ret u) → w' = f (m_calls w) (w <| m_calls := S (m_calls w) |>).
Proof. intros H. apply ext_ret in H. by simplify_eq. Qed.

Lemma ext_read_ret {A} (f : nat → mworld → outcome A) w w' a :
  ext_read f w = (w', Ret a) → w' = w <| m_calls := S (m_calls w) |> ∧ f (m_calls w) w' = Ret a.
Proof. intros H. apply ext_ret in H. by simplify_eq. Qed.

Lemma ext_check_ret w w' u : ext_check w = (w', Ret u) → w' = w <| m_calls := S (m_calls w) |>.
Proof. intros H. apply ext_ret in H. by simplify_eq. Qed.

(** ** The states of the tunnels *)

(** Only calls were counted since [w0]. *)
Definition only_calls (w0 w : mworld) : Prop := w = w0 <| m_calls := m_calls w |>.

#[local] Instance only_calls_uncounted w0 : Uncounted (only_calls w0).
Proof. intros w n H. unfold only_calls in *. cbn. rewrite H. by destruct w0. Qed.

Lemma only_calls_refl w : only_calls w w.
Proof. unfold only_calls. by destruct w. Qed.

Lemma only_calls_fields w0 w : only_calls w0 w →
  m_services w = m_services w0 ∧ m_tracked w = m_tracked w0 ∧ m_stored w = m_stored w0 ∧ m_process w = m_process w0.
Proof. unfold only_calls. intros ->. by destruct w0. Qed.

Definition known (w : mworld) : gset gostring := dom (m_stored w) ∪ dom (m_tracked w).
Definition service_state (w : mworld) (name : gostring) : TunnelState :=
  match m_services w !! name with Some s => svc_state s | None => TunnelStopped end.
Definition tunnel_state (w : mworld) (name : gostring) : TunnelState :=
  default (service_state w name) (smartStateForTunnel name w).

Lemma state_spec w0 name : spec (only_calls w0) (State name) (λ st w, only_calls w0 w ∧ st = tunnel_state w0 name) (λ _, True).
Proof.
  intros w Hw. pose proof (only_calls_fields _ _ Hw) as (Es & _ & _ & Ep). unfold State, io_bind, gets. cbn.
  unfold tunnel_state, service_state. assert (smartStateForTunnel name w = smartStateForTunnel name w0) as ->.
  { unfold smartStateForTunnel. by rewrite Ep. }
  destruct (smartStateForTunnel name w0) as [st|]; cbn; [done|]. unfold ext_read, ext. destruct (env_fault _); cbn; [done|].
  split; [by apply only_calls_uncounted|]. by rewrite Es.
Qed.

Lemma query_spec w0 names acc :
  spec (only_calls w0) (query_states names acc)
    (λ states w, only_calls w0 w ∧ ∀ n, states !! n = if bool_decide (n ∈ names) then Some (tunnel_state w0 n) else acc !! n) (λ _, True).
Proof.
  revert acc. induction names as [|n names IH]; intros acc; [by intros w|]. cbn [query_states].
  eapply spec_bind; [apply spec_wrap, state_spec|]. intros st w [Hw ->].
  pose proof (IH (<[n := tunnel_state w0 n]> acc) w Hw) as H.
  destruct (snd _); [|done..]. destruct H as [Hk Hs]. split; [done|]. intros n'. rewrite Hs.
  destruct (decide (n = n')) as [<-|Hn].
  - rewrite lookup_insert_eq. rewrite bool_decide_true with (P := n ∈ n :: names) by set_solver. by destruct (bool_decide _).
  - rewrite lookup_insert_ne by done. assert (n' ∈ n :: names ↔ n' ∈ names) as E by set_solver.
    by rewrite (bool_decide_ext _ _ E).
Qed.

Lemma native_states_spec w0 :
  spec (only_calls w0) nativeTunnelStates
    (λ states w, only_calls w0 w ∧ ∀ n, states !! n = if bool_decide (n ∈ known w0) then Some (tunnel_state w0 n) else None) (λ _, True).
Proof.
  intros w Hw. unfold nativeTunnelStates. destruct (io_bind _ _ w) as [w' [states|e|]] eqn:E; [|done..]. cbn.
  apply run_bind_ret in E as (w1 & names & E1 & E). apply ext_read_ret in E1 as [E1 En].
  assert (only_calls w0 w1) as Hw1 by (rewrite E1; by apply only_calls_uncounted).
  pose proof (only_calls_fields _ _ Hw1) as (_ & Et & Est & _). injection En as <-.
  apply run_bind_ret in E as (w2 & tracked & E2 & E). injection E2 as <- <-.
  destruct (spec_ret _ _ _ _ _ _ _ (query_spec w0 _ _) Hw1 E) as [Hk Hs]. split; [done|]. intros n. rewrite Hs, lookup_empty.
  rewrite Et, Est. assert (n ∈ iterate (elements (known w0)) ↔ n ∈ known w0) as En by (by rewrite iterate_perm, elem_of_elements).
  unfold known in *. by rewrite (bool_decide_ext _ _ En).
Qed.

(** ** Stopping *)

(** Only services of [X] changed since [w0], and the engine is the same. *)
Definition svc_frame (X : gset gostring) (w0 w : mworld) : Prop :=
  (∀ n, n ∉ X → m_services w !! n = m_services w0 !! n) ∧ m_process w = m_process w0.
Definition gone (G : gset gostring) (w : mworld) : Prop := ∀ n, n ∈ G → m_services w !! n = None.

#[local] Instance svc_frame_uncounted X w0 : Uncounted (svc_frame X w0).
Proof. by intros w n [??]. Qed.

Lemma only_calls_frame X w0 w : only_calls w0 w → svc_frame X w0 w.
Proof. intros H. destruct (only_calls_fields _ _ H) as (Es & _ & _ & Ep). split; [by rewrite Es|done]. Qed.

Lemma uninstall_frame X w0 n : n ∈ X → keeps (svc_frame X w0) (normalized (UninstallTunnel n)).
Proof.
  intros Hn. apply keeps_normalized, keeps_ext; [apply _|]. intros _ w [Hs Hp]. destruct (m_services w !! n); [|done].
  split; [|done]. intros n' Hn'. cbn. rewrite lookup_insert_ne by set_solver. by apply Hs.
Qed.

Lemma wait_loop_spec X w0 G names errs :
  list_to_set names ⊆ X →
  spec (λ w, svc_frame X w0 w ∧ (errs = [] → gone G w)) (join_loop wait_wrap WaitForStop names errs)
    (λ errs' w, svc_frame X w0 w ∧ (errs' = [] → gone (G ∪ list_to_set names) w)) (λ _, True).
Proof.
  revert G errs. induction names as [|n names IH]; intros G errs HX.
  { intros w [Hw Hg]. cbn. split; [done|]. intros He n Hn. apply Hg; set_solver. }
  cbn [join_loop]. eapply spec_bind with (R := λ r w,
    svc_frame X w0 w ∧ (errs ++ map (wait_wrap n) (error_list r) = [] → gone ({[n]} ∪ G) w)).
  - intros w [[Hs Hp] Hg]. unfold attempt, WaitForStop, ext_write, ext. destruct (env_fault _); cbn.
    + split; [done|]. intros E. by apply app_eq_nil in E as [_ ?].
    + split.
      * split; [|done]. intros n' Hn'. cbn. rewrite lookup_delete_ne by set_solver. by apply Hs.
      * rewrite app_nil_r. intros He n' Hn'. cbn. destruct (decide (n = n')) as [<-|]; [by rewrite lookup_delete_eq|].
        rewrite lookup_delete_ne by done. apply Hg; [done|set_solver].
  - intros r. eapply spec_weaken; [| | |apply (IH ({[n]} ∪ G)); set_solver]; [done| |done].
    intros errs' w [Hf Hg]. split; [done|]. intros He n' Hn'. apply Hg; [done|set_solver].
Qed.

Lemma stop_loop_spec X w0 f names errs :
  (∀ n, n ∈ names → keeps (svc_frame X w0) (f n)) →
  spec (svc_frame X w0) (join_loop stop_wrap f names errs) (λ _, svc_frame X w0) (λ _, True).
Proof.
  revert errs. induction names as [|n names IH]; intros errs Hf; [by intros w|]. cbn [join_loop].
  eapply spec_bind; [apply spec_attempt_inv, spec_keeps, Hf; set_solver|]. intros r. apply IH. set_solver.
Qed.

Lemma as_error_join_ret errs (w : mworld) w' u : as_error (join_errors errs) w = (w', Ret u) → w' = w ∧ errs = [].
Proof. destruct errs; [|done]. intros H. unfold as_error, io_lift in H. cbn in H. by simplify_eq. Qed.

Lemma unique_in names seen n : n ∈ unique_names names seen → n ∈ names.
Proof.
  revert seen. induction names as [|m names IH]; intros seen; cbn; [done|]. destruct (_ || _); [|rewrite elem_of_cons]; intros H.
  - right. eauto.
  - destruct H as [->|H]; [left|right; eauto].
Qed.

Lemma unique_all names seen n : n ∈ names → n ≠ [] → n ∉ seen → n ∈ unique_names names seen.
Proof.
  revert seen. induction names as [|m names IH]; intros seen; cbn; [by intros ?%elem_of_nil|].
  intros Hin Hne Hs. destruct ((m =?s []) || bool_decide (m ∈ seen)) eqn:E.
  - apply IH; [|done|done]. apply elem_of_cons in Hin as [->|?]; [|done]. exfalso. apply orb_prop in E as [E|E].
    + by apply str_eqb_true in E.
    + by apply bool_decide_eq_true in E.
  - apply elem_of_cons. destruct (decide (n = m)) as [->|Hn]; [by left|right]. apply IH; [set_solver|done|set_solver].
Qed.

Lemma stop_natives_ret names w w' u :
  stopNativeTunnels names w = (w', Ret u) →
  svc_frame (list_to_set names) w w' ∧ ∀ n, n ∈ names → n ≠ [] → m_services w' !! n = None.
Proof.
  unfold stopNativeTunnels, stopNativeTunnelsLocked. set (ordered := sort_Strings (unique_names names ∅)). intros H.
  assert (Ho : ∀ n, n ∈ ordered → n ∈ names).
  { intros n Hn. unfold ordered in Hn. rewrite sort_in in Hn. exact (unique_in _ _ _ Hn). }
  apply run_bind_ret in H as (w1 & errs & H1 & H). apply run_bind_ret in H as (w2 & errs2 & H2 & H).
  apply as_error_join_ret in H as [-> ->].
  assert (svc_frame (list_to_set names) w w1) as Hf.
  { refine (spec_ret _ _ _ _ _ _ _ (stop_loop_spec (list_to_set names) w _ _ _ _) _ H1); [|done].
    intros n Hn. apply uninstall_frame. apply Ho in Hn. set_solver. }
  assert (list_to_set ordered ⊆ (list_to_set names : gset gostring)) as HX.
  { intros n Hn. apply elem_of_list_to_set in Hn. apply Ho in Hn. set_solver. }
  destruct (spec_ret _ _ _ _ _ _ _ (wait_loop_spec (list_to_set names) w ∅ _ errs HX) (conj Hf (λ _ n (Hn : n ∈ ∅), False_ind _ (not_elem_of_empty n Hn))) H2)
    as [Hf2 Hg].
  split; [done|]. intros n Hn Hne. apply (Hg eq_refl). apply elem_of_union_r, elem_of_list_to_set. unfold ordered.
  apply sort_in, unique_all; [done|done|set_solver].
Qed.
(** ** Installing *)

Lemma install_ret name w w' u :
  InstallTunnel name w = (w', Ret u) →
  m_services w' !! name = Some (mkSvc TunnelStarting false)
  ∧ (∀ n, n ≠ name → m_services w' !! n = m_services w !! n) ∧ m_process w' = m_process w.
Proof.
  unfold InstallTunnel. intros H.
  apply run_bind_ret in H as (w1 & ? & E1 & H). apply ext_check_ret in E1 as ->.
  apply run_bind_ret in H as (w2 & ? & E2 & H). apply ext_check_ret in E2 as ->.
  apply run_bind_ret in H as (w3 & service & E3 & H). apply ext_read_ret in E3 as [-> _].
  apply run_bind_ret in H as (w4 & ? & E4 & H).
  assert ((∀ n, n ≠ name → m_services w4 !! n = m_services w !! n) ∧ m_process w4 = m_process w) as [Hs Hp].
  { destruct service as [s|]; [|by unfold io_ret in E4; simplify_eq].
    apply run_bind_ret in E4 as (w5 & ? & E5 & E4). unfold io_lift in E5. apply pair_equal_spec in E5 as [<- _].
    apply ext_write_ret in E4 as ->. split; [|done]. intros n Hn. cbn. by rewrite lookup_delete_ne. }
  apply run_bind_ret in H as (w6 & ? & E6 & H). apply ext_write_ret in E6 as ->.
  unfold start_service in H. apply ext_write_ret in H as ->. cbn. split; [by rewrite lookup_insert_eq|]. split; [|done].
  intros n Hn. rewrite !lookup_insert_ne by done. by apply Hs.
Qed.

Lemma execute_ret plan target w w' u :
  executeNativeSwitch plan (λ n, normalized (UninstallTunnel n)) WaitForStop (InstallTunnel target) w = (w', Ret u) →
  m_process w' = m_process w
  ∧ (∀ n, n ∈ plan_wait plan → n ≠ target → m_services w' !! n = None)
  ∧ (∀ n, n ∉ plan_stop plan → n ∉ plan_wait plan → n ≠ target → m_services w' !! n = m_services w !! n)
  ∧ (if plan_install plan then m_services w' !! target = Some (mkSvc TunnelStarting false)
     else target ∉ plan_stop plan → target ∉ plan_wait plan → m_services w' !! target = m_services w !! target).
Proof.
  unfold executeNativeSwitch. intros H. set (X := list_to_set (plan_stop plan ++ plan_wait plan) : gset gostring).
  apply run_bind_ret in H as (w1 & errs & H1 & H). apply run_bind_ret in H as (w2 & errs2 & H2 & H).
  assert (svc_frame X w w1) as Hf.
  { refine (spec_ret _ _ _ _ _ _ _ (stop_loop_spec X w _ _ _ _) _ H1); [|done].
    intros n Hn. apply uninstall_frame. unfold X. set_solver. }
  assert (list_to_set (plan_wait plan) ⊆ X) as HX by (unfold X; set_solver).
  destruct (spec_ret _ _ _ _ _ _ _ (wait_loop_spec X w ∅ _ errs HX) (conj Hf (λ _ n (Hn : n ∈ ∅), False_ind _ (not_elem_of_empty n Hn))) H2)
    as [[Hs Hp] Hg].
  destruct errs2 as [|e errs2]; [specialize (Hg eq_refl)|by apply as_error_join_ret in H as [_ ?]].
  assert (Hw : ∀ n, n ∈ plan_wait plan → m_services w2 !! n = None) by (intros n Hn; apply Hg; set_solver).
  assert (Hk : ∀ n, n ∉ plan_stop plan → n ∉ plan_wait plan → m_services w2 !! n = m_services w !! n).
  { intros n Hn1 Hn2. apply Hs. unfold X. set_solver. }
  cbn [length Nat.ltb Nat.leb orb] in H. destruct (plan_install plan); cbn in H.
  - apply install_ret in H as (Ht & Ho & Hp'). split; [congruence|]. split; [|split; [|done]].
    + intros n Hn Hne. rewrite Ho by done. by apply Hw.
    + intros n Hn1 Hn2 Hne. rewrite Ho by done. by apply Hk.
  - injection H as <-. split; [done|]. split; [by auto|]. split; [by auto|by apply Hk].
Qed.

Lemma start_native_ret target w w' u :
  startNativeUnlocked target w = (w', Ret u) →
  m_process w = None ∧ m_process w' = None ∧ m_desired w' = None
  ∧ (∃ s, m_services w' !! target = Some s ∧ svc_state s ≠ TunnelStopped)
  ∧ ∀ n, n ∈ known w → n ≠ target → service_state w' n = TunnelStopped.
Proof.
  unfold startNativeUnlocked. intros H.
  apply run_bind_ret in H as (w1 & ? & E & H). apply ext_check_ret in E.
  assert (only_calls w w1) as Hw by (subst w1; apply only_calls_uncounted, only_calls_refl). clear E.
  apply run_bind_ret in H as (w2 & ? & E & H). apply ext_read_ret in E as [E _].
  assert (only_calls w w2) as Hw2 by (subst w2; by apply only_calls_uncounted). clear E Hw.
  apply run_bind_ret in H as (w3 & ? & E & H). apply ext_check_ret in E.
  assert (only_calls w w3) as Hw3 by (subst w3; by apply only_calls_uncounted). clear E Hw2.
  apply run_bind_ret in H as (w4 & any & E & H). injection E as <- <-.
  apply run_bind_ret in H as (w5 & ? & E & H). unfold io_lift in E. injection E as <- E.
  assert (m_process w3 = None) as Hnone.
  { unfold smartAnyStarted in E. by destruct (m_process w3). }
  assert (m_process w = None) as Hnone0 by (destruct (only_calls_fields _ _ Hw3) as (_ & _ & _ & <-); done).
  apply run_bind_ret in H as (w6 & states & E6 & H).
  destruct (spec_ret _ _ _ _ _ _ _ (native_states_spec w) Hw3 E6) as [Hw6 Hstates].
  destruct (only_calls_fields _ _ Hw6) as (Es6 & _ & _ & Ep6).
  assert (Hst : ∀ n, tunnel_state w n = service_state w n) by (intros n; unfold tunnel_state, smartStateForTunnel; by rewrite Hnone0).
  destruct (planNativeSwitch_plan_for target states) as (Pstop & Pwait & _ & _ & _ & _ & Pinst).
  apply run_bind_ret in H as (w7 & r & E7 & H). apply attempt_ret in E7 as [E7 _].
  destruct r as [[]|e|]; [|by apply run_bind_ret in H as (? & ? & ? & ?)|done].
  apply execute_ret in E7 as (Ep7 & Hgone & Hkeep & Ht).
  apply on_error_ret in H as (w8 & E8 & H); [|intros e; apply never_ret_bind; intros; apply never_ret_fail].
  apply ext_write_ret in E8. injection H as <-.
  assert (m_services w8 = m_services w7) as Es8 by by rewrite E8.
  split; [done|]. split; [subst w8; cbn; congruence|]. split; [by rewrite E8|]. rewrite Es8. split.
  - destruct (plan_install (planNativeSwitch target states)) eqn:Ei; [by eexists|].
    symmetry in Pinst. rewrite Hstates in Pinst. destruct (bool_decide (target ∈ known w)); [|done].
    rewrite Hst in Pinst. rewrite Ht, Es6.
    + unfold service_state in Pinst. destruct (m_services w !! target) as [s|]; [|done]. exists s. split; [done|]. by intros E'; rewrite E' in Pinst.
    + intros (Hn & _)%Pstop. done.
    + intros [(Hn & _)%Pstop|[_ Hn]]%Pwait; [done|]. rewrite Hstates in Hn. destruct (bool_decide _); [|done].
      rewrite Hst in Hn. injection Hn as Hn. by rewrite Hn in Pinst.
  - intros n Hk Hne. unfold service_state. rewrite Es8. destruct (decide (service_state w n = TunnelStopped)) as [E'|E'].
    + assert (n ∉ plan_stop (planNativeSwitch target states)) as Hn1.
      { intros (_ & st & Hl & Hs)%Pstop. rewrite Hstates in Hl. destruct (bool_decide _); [|done]. injection Hl as <-.
        by rewrite Hst in Hs. }
      rewrite Hkeep; [|done| |done]; [by rewrite Es6|]. intros [?|[? _]]%Pwait; done.
    + rewrite Hgone; [done| |done]. apply Pwait. left. apply Pstop. split; [done|]. exists (service_state w n).
      rewrite Hstates, bool_decide_true by done. by rewrite Hst.
Qed.
End Success.
