(* ===== verification/ManagerGuard.v ===== *)
(** * The guard during a start

    While a protected start replaces nothing, the guard never comes down, and no
    engine is started before it is up. *)
From S2P Require Import Prelude GoStrings GoStrconv GoJson GoOs AwgValidation Conf SmartRules SmartCatalog SmartUpdate SmartSettings SmartStore SmartConfig Supervisor ManagerNet ManagerTypes ManagerDesired Manager ManagerStart ManagerFacts ManagerSwitch.

Local Open Scope Z_scope.

(** A [P] that looks only at the guard and at what the engines got. *)
Class OnGuard (P : mworld → Prop) : Prop :=
  on_guard : ∀ w w', m_guard w = m_guard w' → m_loaded w = m_loaded w' → P w → P w'.

#[export] Instance guard_uncounted P : OnGuard P → Uncounted P.
Proof. intros H w n. by apply H. Qed.

(** Neither is changed. *)
Definition unguarded {A} (m : M A) : Prop :=
  ∀ w, m_guard (fst (m w)) = m_guard w ∧ m_loaded (fst (m w)) = m_loaded w.

Definition guard_is (g : option preview_guard) (l : gmap nat gostring) (w : mworld) : Prop := m_guard w = g ∧ m_loaded w = l.
#[export] Instance guard_is_on_guard g l : OnGuard (guard_is g l).
Proof. intros w w' E1 E2. unfold guard_is. by rewrite E1, E2. Qed.

Lemma unguarded_alt {A} (m : M A) : unguarded m ↔ ∀ g l, keeps (guard_is g l) m.
Proof.
  split; [intros H g l w [<- <-]; apply H|]. intros H w. by apply (H (m_guard w) (m_loaded w) w).
Qed.

Lemma unguarded_keeps {A} P `{!OnGuard P} (m : M A) : unguarded m → keeps P m.
Proof. intros H w Hw. destruct (H w) as [E1 E2]. by apply (on_guard w). Qed.

Lemma spec_unguarded {A} P `{!OnGuard P} (m : M A) : unguarded m → spec P m (λ _, P) P.
Proof. intros H. by apply spec_keeps, unguarded_keeps. Qed.

Ltac unguarding := apply unguarded_alt; intros ? ?; keeping; try (apply unguarded_keeps; [apply _|]).

Section Guard.
Context {RT : GoRuntime} {IDNA : Idna} {ED : Ed25519} {F64 : Float64} {ENV : ManagerEnv}.

Lemma unguarded_ext_write f :
  (∀ n w, m_guard (f n w) = m_guard w ∧ m_loaded (f n w) = m_loaded w) → unguarded (ext_write f).
Proof. intros Hf w. unfold ext_write, ext. destruct (env_fault _); cbn; [done|]. destruct (Hf (m_calls w) (w <| m_calls := S (m_calls w) |>)) as [-> ->]. done. Qed.

Lemma unguarded_state n : unguarded (State n).
Proof. unfold State. unguarding. Qed.

Lemma unguarded_query names states : unguarded (query_states names states).
Proof.
  revert states. induction names as [|n names IH]; intros states; [done|]. cbn [query_states].
  unguarding; [apply unguarded_state|apply IH].
Qed.

Lemma unguarded_native_states : unguarded nativeTunnelStates.
Proof. unfold nativeTunnelStates. unguarding. apply unguarded_query. Qed.

Lemma unguarded_stop_natives names : unguarded (stopNativeTunnels names).
Proof.
  unfold stopNativeTunnels, stopNativeTunnelsLocked. apply unguarded_alt. intros g l.
  apply keeps_bind; [apply keeps_join_loop; intros n; apply keeps_normalized|intros errs; apply keeps_bind;
    [apply keeps_join_loop; intros n|intros; apply keeps_as_error]].
  - apply keeps_ext; [apply _|]. intros _ w Hw. by destruct (m_services w !! n).
  - by apply unguarded_keeps, unguarded_ext_write; [apply _|].
Qed.

Lemma unguarded_stop_all : unguarded stopAllNativeTunnels.
Proof. unfold stopAllNativeTunnels. unguarding; [apply unguarded_native_states|apply unguarded_stop_natives]. Qed.

Lemma unguarded_remove path : unguarded (remove_config path).
Proof. intros w. unfold remove_config. by destruct (env_remove_fault _). Qed.

Lemma unguarded_stop_process p : unguarded (stopSmartProcessState p).
Proof.
  unfold stopSmartProcessState. destruct p; [|done]. unguarding; [done|apply unguarded_remove].
Qed.

Lemma unguarded_notify name st e : unguarded (IPCServerNotifyTunnelChange name st e).
Proof. done. Qed.

Lemma unguarded_notify_stopped p e : unguarded (notify_stopped p e).
Proof. unfold notify_stopped. destruct p; [|done]. by destruct (negb _). Qed.

Lemma unguarded_reserve name : unguarded (reserveSmartRuntimeConfig name).
Proof.
  unfold reserveSmartRuntimeConfig. apply unguarded_alt. intros g l. apply keeps_bind.
  - apply keeps_ext; [apply _|]. intros n w Hw. by destruct (m_configs w !! _).
  - intros path. keeping. apply unguarded_keeps, unguarded_remove. apply _.
Qed.

Lemma unguarded_wait_ready pid : unguarded (wait_ready pid).
Proof. intros w. unfold wait_ready. by destruct (env_ready _). Qed.

Lemma unguarded_save_desired n s : unguarded (Manager.saveSmartDesired n s).
Proof.
  intros w. unfold Manager.saveSmartDesired, ext. destruct (env_fault _); cbn; [done|]. by destruct (normalizeSmartDesired _ _ _).
Qed.

(** ** The guard is up *)

Definition up (w : mworld) : Prop := m_guard w ≠ None.
#[export] Instance up_on_guard : OnGuard up.
Proof. intros w w' E _. unfold up. by rewrite E. Qed.

Lemma spec_set_guard P `{!OnGuard P} p l : Uncounted P → spec P (SetPreviewGuard p l) (λ _, up) P.
Proof.
  intros HU w Hw. unfold SetPreviewGuard, ext_write, ext. destruct (env_fault _); cbn; [by apply uncounted|done].
Qed.

Lemma spec_final_guard settings path : protected settings = true → spec up (final_guard settings path) (λ _, up) up.
Proof.
  intros Hp. unfold final_guard. rewrite Hp. apply spec_wrap. eapply spec_bind; [|intros; apply spec_set_guard; apply _].
  apply spec_unguarded; [apply _|]. unfold engine_luid. unguarding.
Qed.

Lemma up_finish_start state path persist :
  protected (ps_settings state) = true →
  spec up (finish_start io_fail state path persist) (λ _, up) up.
Proof.
  intros Hp. unfold finish_start.
  eapply spec_bind; [apply spec_unguarded, unguarded_wait_ready; apply _|]. intros r.
  assert (Hstop : ∀ (m : M unit), spec up m (λ _, up) up → spec up (stopSmartProcessState (Some state) ;; m) (λ _, up) up).
  { intros m Hm. eapply spec_bind; [apply spec_unguarded, unguarded_stop_process; apply _|]. by intros ?. }
  assert (Hnote : ∀ st e (m : M unit), spec up m (λ _, up) up → spec up (IPCServerNotifyTunnelChange (ps_tunnelName state) st e ;; m) (λ _, up) up).
  { intros st e m Hm. eapply spec_bind; [by apply spec_unguarded, unguarded_notify; apply _|]. by intros ?. }
  eapply spec_on_error; [apply spec_keeps, keeps_as_error|intros; apply Hnote, spec_fail|].
  eapply spec_on_error; [by apply spec_final_guard|intros; apply Hstop, spec_fail|].
  eapply spec_on_error with (R := up) (E' := up); [destruct persist; [apply spec_unguarded, unguarded_save_desired; apply _|by intros w]|intros; apply Hstop, Hnote, spec_fail|].
  apply spec_unguarded; [apply _|]. unguarding; [done|done|apply unguarded_remove|done].
Qed.

Lemma up_replace_engine name settings probe path engine persist :
  protected settings = true →
  spec up (replace_engine io_fail name settings probe path engine persist) (λ _, up) up.
Proof.
  intros Hp. unfold replace_engine.
  assert (Hfail : ∀ e, spec up (@io_fail mworld unit e) (λ _, up) up) by (intros e; apply spec_fail).
  eapply spec_bind; [by apply spec_unguarded; [apply _|]|]. intros q.
  eapply spec_bind; [apply spec_unguarded, unguarded_stop_process; apply _|]. intros stopErr.
  eapply spec_bind; [apply spec_unguarded, unguarded_notify_stopped; apply _|]. intros ?.
  eapply spec_on_error; [apply spec_keeps, keeps_as_error|intros; apply Hfail|].
  do 2 (eapply spec_on_error; [apply spec_unguarded; [apply _|unguarding]|intros; apply Hfail|]).
  eapply spec_bind; [by apply spec_unguarded; [apply _|]|]. intros ?.
  eapply spec_bind with (R := λ _, up).
  { apply spec_attempt_inv, spec_keeps, keeps_ext; [apply _|]. by intros n w Hw. }
  intros [pid|e|]; [| |by intros w].
  - eapply spec_on_error; [apply spec_unguarded; [apply _|unguarding]| |by apply up_finish_start].
    intros e. eapply spec_bind; [by apply spec_unguarded; [apply _|]|]. intros ?.
    eapply spec_bind; [by apply spec_unguarded; [apply _|]|]. intros ?. apply Hfail.
  - eapply spec_bind; [by apply spec_unguarded; [apply _|]|]. intros ?. apply Hfail.
Qed.

(** ** No predecessor *)

(** The state that matters for the predecessors is the one of [w0]. *)
Lemma prior_native_none w states :
  (∀ n st, (n, st) ∈ states → st ≠ TunnelStarted ∧ st ≠ TunnelStarting) → prior_native w states [] = Ret [].
Proof.
  induction states as [|[n st] states IH]; intros H; [done|]. cbn [prior_native].
  destruct (H n st) as [H1 H2]; [by left|]. rewrite !bool_decide_false by done. rewrite andb_false_r.
  apply IH. intros n' st' Hin. apply (H n'). by right.
Qed.

Lemma protected_not_native settings : protected settings = true → usesNativeTunnel settings = false.
Proof.
  unfold protected, usesNativeTunnel. intros H. apply str_eqb_true in H. rewrite H. cbn.
  by rewrite !andb_false_r.
Qed.

(** No tunnel is up and no engine is recorded. *)
Definition quiet (w : mworld) : Prop :=
  m_process w = None ∧ ∀ n, n ∈ known w → service_state w n ≠ TunnelStarted ∧ service_state w n ≠ TunnelStarting.

#[export] Instance quiet_uncounted : Uncounted quiet.
Proof. by intros w n H. Qed.

(** What the state says about [w0] until the guard is set, and in the end. *)
Definition before (w0 w : mworld) : Prop := m_loaded w = m_loaded w0 ∧ (up w0 → up w).
Definition closed (w0 w : mworld) : Prop := before w0 w ∨ up w.
Definition waiting (w0 w : mworld) : Prop := before w0 w ∧ quiet w.

#[export] Instance before_on_guard w0 : OnGuard (before w0).
Proof. intros w w' E1 E2. unfold before, up. by rewrite E1, E2. Qed.
#[export] Instance closed_on_guard w0 : OnGuard (closed w0).
Proof. intros w w' E1 E2. unfold closed, before, up. by rewrite E1, E2. Qed.
#[export] Instance waiting_uncounted w0 : Uncounted (waiting w0).
Proof. intros w n [H1 H2]. split; [by apply uncounted|done]. Qed.

Lemma waiting_closed w0 w : waiting w0 w → closed w0 w.
Proof. intros [H _]. by left. Qed.

Lemma spec_waiting {A} w0 (m : M A) : keeps (waiting w0) m → spec (waiting w0) m (λ _, waiting w0) (closed w0).
Proof.
  intros H. eapply spec_weaken; [| | |by apply spec_keeps]; [done|done|]. apply waiting_closed.
Qed.

Lemma waiting_remove w0 path : keeps (waiting w0) (remove_config path).
Proof. intros w [H1 H2]. unfold remove_config. by destruct (env_remove_fault _). Qed.

Lemma waiting_reserve w0 name : keeps (waiting w0) (reserveSmartRuntimeConfig name).
Proof.
  unfold reserveSmartRuntimeConfig. apply keeps_bind.
  - apply keeps_ext; [apply _|]. intros n w Hw. by destruct (m_configs w !! _).
  - intros path. keeping. apply waiting_remove.
Qed.

(** Nothing active is found. *)
Lemma waiting_native_states w0 :
  spec (waiting w0) nativeTunnelStates
    (λ states w, waiting w0 w ∧ ∀ w', prior_native w' (iterate (map_to_list states)) [] = Ret []) (closed w0).
Proof.
  intros w Hw. pose proof (native_states_spec w w (only_calls_refl w)) as H.
  pose proof (unguarded_native_states w) as [Eg El].
  destruct (nativeTunnelStates w) as [w' [states|e|]]; cbn in *; [|left; by apply (before_on_guard w0 w), Hw|done].
  destruct H as [Hk Hs]. destruct (only_calls_fields _ _ Hk) as (Es & Et & Est & Ep). destruct Hw as [Hb [Hq Hn]].
  split.
  - split; [by apply (before_on_guard w0 w)|]. split; [by rewrite Ep|]. intros n. unfold known, service_state.
    rewrite Es, Et, Est. apply Hn.
  - intros w1. apply prior_native_none. intros n st Hin. apply iterate_map_in in Hin. rewrite Hs in Hin.
    destruct (bool_decide (n ∈ known w)) eqn:E; [|done]. apply bool_decide_eq_true in E. injection Hin as <-.
    unfold tunnel_state, smartStateForTunnel. rewrite Hq. cbn. by apply Hn.
Qed.

Lemma spec_unless_kept_closed {A} w0 P path (m : M A) :
  spec P m (λ _, closed w0) (closed w0) → spec P (unless_kept path m) (λ _, closed w0) (closed w0).
Proof.
  intros H w Hw. specialize (H w Hw). unfold unless_kept. destruct (m w) as [w1 [a|e|]]; [done| |].
  - cbn in H. rewrite ignore_remove_result. cbn. by apply (unguarded_keeps (closed w0) (remove_config path) (unguarded_remove path)).
  - rewrite ignore_remove_result. done.
Qed.

Lemma spec_smart_mode_closed w0 start name settings persist :
  protected settings = true →
  spec (waiting w0) (start_smart_mode start name settings persist) (λ _, closed w0) (closed w0).
Proof.
  intros Hp. unfold start_smart_mode.
  eapply spec_bind; [apply spec_waiting; unfold LoadFromName; keeping|]. intros c.
  eapply spec_bind; [apply spec_waiting; unfold engine_config; keeping|]. intros b.
  eapply spec_bind; [apply spec_waiting; unfold prepareDiagnosticListener; keeping|]. intros probe.
  eapply spec_bind; [apply spec_waiting; keeping|]. intros b'.
  eapply spec_bind; [apply spec_waiting; keeping|]. intros ?.
  eapply spec_bind; [apply spec_waiting, waiting_reserve|]. intros path. apply spec_unless_kept_closed.
  eapply spec_bind; [apply spec_waiting, keeps_ext_write; [apply _|]; by intros n w Hw|]. intros ?.
  eapply spec_bind; [apply spec_waiting; keeping|]. intros engine.
  eapply spec_bind; [apply spec_waiting; keeping|]. intros ?.
  eapply spec_bind; [apply waiting_native_states|]. intros states.
  eapply spec_bind with (R := λ prior w, waiting w0 w ∧ prior = []).
  { intros w [Hw Hprior]. cbn. by rewrite Hprior. }
  intros priorNative. eapply spec_bind with (R := λ prior w, waiting w0 w ∧ priorNative = [] ∧ prior = None).
  { intros w [Hw ->]. cbn. by destruct Hw as [Hb [Hn Hq]]. }
  intros priorSmart. eapply spec_bind with (R := λ _ w, up w ∧ priorNative = [] ∧ priorSmart = None).
  { rewrite Hp. apply spec_wrap. intros w (Hw & -> & ->).
    pose proof (spec_set_guard (before w0) engine 0 _ w (proj1 Hw)) as H. destruct (snd _); [done|by left|done]. }
  assert (spec up (on_error stopAllNativeTunnels (undo_provisional_guard settings engine [] None)
    (replace_engine (restoreNative start [] None) name settings probe path engine persist)) (λ _, up) up) as Hfin.
  { eapply spec_on_error; [apply spec_unguarded, unguarded_stop_all; apply _| |].
    - intros e. unfold undo_provisional_guard. cbn. rewrite andb_false_r. apply spec_fail.
    - by apply (up_replace_engine name settings probe path engine persist). }
  intros ? w (Hup & -> & ->). pose proof (Hfin w Hup) as H. destruct (snd _); [by right|by right|done].
Qed.
End Guard.
