(* ===== verification/ManagerTheorems.v ===== *)
(** * The lifecycle of the smart engine

    [request]: what the manager is asked to do, and the events of the system;
    [manager_step]: one of them, or something that happens to the services
    meanwhile.  The theorems: at most the recorded engine runs and no file with
    a private key stays behind, in every reachable state. *)
From S2P Require Import Prelude GoStrings GoStrconv GoJson GoOs AwgValidation Conf SmartRules SmartCatalog SmartUpdate SmartSettings SmartStore SmartConfig Supervisor ManagerNet ManagerTypes ManagerDesired Manager ManagerStart ManagerFacts ManagerRestore ManagerSwitch ManagerGuard.

Local Open Scope Z_scope.

Inductive request :=
| RSmartStart (elevated : bool) (tunnelName rawSettings : gostring)
| RSmartStop (elevated : bool)
| RStart (tunnelName : gostring)
| RStop (tunnelName : gostring)
| RDelete (elevated : bool) (tunnelName : gostring)
| RCreate (elevated : bool) (config : Config)
| RRecover (suspended : bool) (net : outcome bool) (force : bool)
| RSuspend
| REngineExited (pid : nat) (path : gostring) (waitErr : option goerror).

Section Theorems.
Context {RT : GoRuntime} {IDNA : Idna} {ED : Ed25519} {F64 : Float64} {ENV : ManagerEnv}.

Definition handle (r : request) : M unit :=
  match r with
  | RSmartStart elevated name raw => SmartStart elevated name raw
  | RSmartStop elevated => SmartStop elevated
  | RStart name => Start name
  | RStop name => Stop name
  | RDelete elevated name => Delete elevated name
  | RCreate elevated c => Create elevated c ;; io_ret tt
  | RRecover suspended net force => recoverSmartDesired suspended net force
  | RSuspend => pauseSmartForSuspend
  | REngineExited pid path waitErr => engine_exited pid path waitErr
  end.

(** A request is handled, or the services and the stored tunnels change. *)
Inductive manager_step (w : mworld) : mworld → Prop :=
| step_request r : snd (handle r w) ≠ Panic → manager_step w (fst (handle r w))
| step_outside w' : core w' = core w → manager_step w w'.

Inductive manager_reachable : mworld → Prop :=
| reach_init w : m_process w = None → m_engines w = ∅ → m_configs w = ∅ → manager_reachable w
| reach_step w w' : manager_reachable w → manager_step w w' → manager_reachable w'.

(** ** What every request keeps

    A predicate that starting and stopping the engine and the end of an engine
    keep is kept by every request. *)

Lemma frame_require e : frame (require_elevated e).
Proof. unfold require_elevated. framing. Qed.

Section Kept.
Context (P : mworld → Prop) {HP : OnCore P}.
Hypothesis stop_kept : spec P smartStopUnlocked (λ _, P) P.
Hypothesis start_kept : ∀ name settings persist, spec P (smartStartLocked start_fuel name settings persist) (λ _, P) P.
Hypothesis exited_kept : ∀ pid path waitErr, spec P (engine_exited pid path waitErr) (λ _, P) P.

Lemma kept_join_results rs : spec P (join_results rs) (λ _, P) P.
Proof using Type*. apply spec_keeps, keeps_as_error. Qed.

Lemma kept_frame {A} (m : M A) : frame m → spec P m (λ _, P) P.
Proof using Type*. by apply spec_frame, _. Qed.

Lemma kept_trying {A} (m : M A) : spec P m (λ _, P) P → spec P (attempt m) (λ _, P) P.
Proof using Type*. apply spec_attempt_inv. Qed.

Lemma kept_SmartStart e name raw : spec P (SmartStart e name raw) (λ _, P) P.
Proof using Type*.
  unfold SmartStart. eapply spec_bind; [apply kept_frame, frame_require|]. intros ?.
  eapply spec_bind; [apply kept_frame; framing|]. intros settings.
  eapply spec_on_error; [apply start_kept| |apply kept_frame; framing].
  intros e'. eapply spec_bind; [apply kept_frame, frame_request|]. intros ?. apply spec_fail.
Qed.

Lemma kept_SmartStop e : spec P (SmartStop e) (λ _, P) P.
Proof using Type*.
  unfold SmartStop. eapply spec_bind; [apply kept_frame, frame_require|]. intros ?.
  eapply spec_bind; [apply kept_trying, kept_frame, frame_clear_desired|]. intros r1.
  eapply spec_bind; [apply kept_trying, stop_kept|]. intros r2.
  eapply spec_bind; [apply kept_frame, frame_mark|]. intros ?.
  eapply spec_bind; [apply kept_trying, kept_frame, frame_clear_guard|]. intros r3. apply kept_join_results.
Qed.

Lemma kept_Stop name : spec P (Stop name) (λ _, P) P.
Proof using Type*.
  unfold Stop. eapply spec_bind; [apply kept_trying, kept_frame; unfold loadSmartDesired; framing|]. intros before.
  eapply spec_bind; [apply kept_frame; framing|]. intros smart.
  eapply spec_bind; [apply kept_trying, kept_frame, frame_clear_desired_for|]. intros r1.
  eapply spec_bind; [apply kept_frame; framing|]. intros matches.
  eapply spec_bind; [apply kept_trying; destruct matches; [apply stop_kept|apply kept_frame; framing]|]. intros r2.
  eapply spec_bind; [apply kept_trying, kept_frame, frame_stop_natives|]. intros r3.
  eapply spec_bind; [apply kept_trying|intros r4; apply kept_join_results].
  destruct (_ || _); apply kept_frame; [apply frame_clear_guard|framing].
Qed.

Lemma kept_recover_loop start names seen errs :
  (∀ n, spec P (start n) (λ _, P) P) → spec P (recover_loop start names seen errs) (λ _, P) P.
Proof using Type*.
  intros Hs. revert seen errs. induction names as [|n names IH]; intros seen errs; [apply spec_keeps, keeps_as_error|].
  cbn [recover_loop]. destruct (bool_decide _); [apply IH|].
  eapply spec_bind; [apply kept_trying, Hs|]. intros [u|e|]; [by intros w|apply IH|by intros w].
Qed.

Lemma kept_recover suspended net force : spec P (recoverSmartDesired suspended net force) (λ _, P) P.
Proof using Type*.
  unfold recoverSmartDesired. eapply spec_bind; [apply kept_frame; framing|]. intros ?.
  eapply spec_bind; [apply kept_frame; unfold loadSmartDesired; framing|]. intros [state|]; [|apply kept_frame; framing].
  eapply spec_bind; [apply kept_frame; framing|]. intros online.
  eapply spec_bind; [apply kept_frame; framing|]. intros ?.
  eapply spec_bind; [apply kept_frame; unfold smartProcessHealthyFor; destruct force; framing|]. intros [|]; [apply kept_frame; framing|].
  apply kept_recover_loop. intros n. eapply spec_bind; [apply start_kept|]. intros ?.
  destruct (negb _); apply kept_frame; [apply frame_save_desired|framing].
Qed.

Lemma kept_handle r : spec P (handle r) (λ _, P) P.
Proof using Type*.
  destruct r; cbn [handle].
  - apply kept_SmartStart.
  - apply kept_SmartStop.
  - apply kept_frame, frame_start_native.
  - apply kept_Stop.
  - unfold Delete. eapply spec_bind; [apply kept_frame, frame_require|]. intros ?.
    eapply spec_bind; [apply kept_Stop|]. intros ?. by apply kept_frame, frame_ext_write.
  - unfold Create. apply kept_frame. framing; [apply frame_keeps, frame_require; apply _|].
    apply frame_keeps; [apply _|]. by apply frame_ext_write.
  - apply kept_recover.
  - unfold pauseSmartForSuspend. eapply spec_bind; [apply kept_frame, frame_mark|]. intros ?.
    eapply spec_bind; [apply kept_frame; unfold loadSmartDesired; framing|]. intros [state|]; [apply stop_kept|apply kept_frame; framing].
  - apply exited_kept.
Qed.
End Kept.

(** ** The engines and the files *)

Abbreviation inv := (wfx ∅ ∅).

Lemma inv_stop : spec inv smartStopUnlocked (λ _, inv) inv.
Proof.
  eapply spec_weaken; [| | |apply (spec_smartStopUnlocked ∅)]; [done|intros ? w Hw|intros w Hw];
    (eapply wfn_weaken; [exact Hw|done|done|done]).
Qed.

Lemma inv_frame {A} (m : M A) : frame m → spec inv m (λ _, inv) inv.
Proof. by apply spec_frame, _. Qed.

Lemma inv_engine_exited pid path waitErr : spec inv (engine_exited pid path waitErr) (λ _, inv) inv.
Proof.
  unfold engine_exited.
  eapply spec_bind with (R := λ _ w, inv w ∧ pid ∉ m_engines w).
  { intros w (Hn & He & Hd). cbn. split; [|set_solver]. split; [done|]. split; [cbn; set_solver|exact Hd]. }
  intros ?. eapply spec_bind with (R := λ _ w, inv w ∧ pid ∉ m_engines w).
  { intros w [Hw Hp]. rewrite ignore_remove_result. cbn. split.
    - eapply wfn_weaken; [by apply remove_wfn|done|set_solver|done].
    - unfold remove_config. by destruct (env_remove_fault _). }
  intros ?. eapply spec_bind with (R := λ process w, inv w ∧ (pid ∉ m_engines w) ∧ (m_process w = process)); [by intros w [??]|].
  intros [p|]; [|by intros w [? _]]. destruct (ps_pid p =? pid)%nat eqn:E; [|by intros w [? _]].
  apply Nat.eqb_eq in E. eapply spec_bind with (R := λ _, inv).
  { intros w ((Hn & He & Hd) & Hp & Hm). rewrite Hm in He. cbn in *. split; [done|]. split; [cbn; set_solver|exact Hd]. }
  intros ?. eapply spec_bind; [apply inv_frame, frame_notify|]. intros ?. apply inv_frame, frame_request.
Qed.

Lemma inv_handle r : spec inv (handle r) (λ _, inv) inv.
Proof. apply kept_handle; [apply _|apply inv_stop|intros; apply spec_smartStartLocked|apply inv_engine_exited]. Qed.

(** ** The files of the engines *)

(** The name [path] has been given out. *)
Definition given_out (path : gostring) (w : mworld) : Prop :=
  ∃ stem k, path = runtime_config_path stem k ∧ (k < m_reserved w)%nat.

(** The file of the recorded engine has a name that was given out. *)
Definition filed (w : mworld) : Prop := ∀ p, m_process w = Some p → given_out (ps_configPath p) w.

Definition filed_with (path : gostring) (w : mworld) : Prop := filed w ∧ given_out path w.

(** [P] depends only on the record and the names given out. *)
Class OnRecord (P : mworld → Prop) : Prop :=
  on_record : ∀ w w', m_process w = m_process w' → m_reserved w = m_reserved w' → P w → P w'.

#[local] Instance record_on_core P : OnRecord P → OnCore P.
Proof. intros H w w' E. unfold core in E. injection E as Ep _ _ Er. by apply H. Qed.

#[local] Instance filed_on_record : OnRecord filed.
Proof. intros w w' Ep Er H p Hp. rewrite <- Ep in Hp. destruct (H p Hp) as (s & k & ? & ?). exists s, k. by rewrite <- Er. Qed.

#[local] Instance filed_with_on_record path : OnRecord (filed_with path).
Proof.
  intros w w' Ep Er [H (s & k & Hp & Hk)]. split; [by apply (on_record w)|]. exists s, k. by rewrite <- Er.
Qed.

Section Filed.
Context (P : mworld → Prop) {HP : OnRecord P}.

End Filed.








Section Body.
Variable start : gostring → RoutingSettings → M unit.
Hypothesis start_filed : ∀ n s, spec filed (start n s) (λ _, filed) filed.







End Body.




(** What every request keeps holds in every reachable state. *)
Lemma reachable_kept (P : mworld → Prop) `{!OnCore P} :
  (∀ w, m_process w = None → m_engines w = ∅ → m_configs w = ∅ → P w) →
  (∀ r, spec P (handle r) (λ _, P) P) → ∀ w, manager_reachable w → P w.
Proof.
  intros Hi Hr w. induction 1 as [w Hp He Hc|w w' _ IH Hstep]; [by apply Hi|].
  destruct Hstep as [r Hnp|w' Hc]; [|by apply (on_core w)]. specialize (Hr r w IH). by destruct (snd (handle r w)).
Qed.

Lemma manager_reachable_inv w : manager_reachable w → inv w.
Proof.
  apply reachable_kept; [apply _| |apply inv_handle]. clear w. intros w Hp He Hc. split; [done|]. rewrite He, Hc.
  split; [set_solver|]. intros _. by rewrite dom_empty_L.
Qed.


(** C9: whatever the manager is asked, in whatever order, whatever fails
    outside and whatever happens to the services meanwhile, in every state
    between whole requests: at most the engine that the process record names is
    running, so no second engine is left running and no engine is lost sight of;
    and as long as removing a file works, no configuration file (with its
    private key) is left behind. *)
Theorem one_engine_no_key_file w :
  manager_reachable w →
  m_engines w ⊆ pids (m_process w) ∧ ((∀ n, env_remove_fault n = None) → m_configs w = ∅).
Proof.
  intros (_ & He & Hd)%manager_reachable_inv.
  split; [set_solver|]. intros Hrm. specialize (Hd Hrm). apply dom_empty_inv_L. set_solver.
Qed.

(** ** A successful start *)




















(** C16: A protected start with no predecessor (no tunnel up, no engine) fails
    closed, wherever it fails: a guard that is up stays up, and if an engine was
    started at all, the guard is up in the end, whether the start succeeded or
    not. *)
Theorem protected_start_fails_closed name settings persist w w' r :
  protected settings = true → quiet w →
  smartStartLocked start_fuel name settings persist w = (w', r) → r ≠ Panic →
  m_guard w ≠ None ∨ m_loaded w' ≠ m_loaded w → m_guard w' ≠ None.
Proof.
  intros Hp Hq H Hr Hcase. assert (closed w w') as Hc.
  { unfold start_fuel in H. cbn [smartStartLocked] in H. unfold start_body at 1 in H.
    rewrite (protected_not_native _ Hp) in H.
    match type of H with ?m w = _ => enough (spec (waiting w) m (λ _, closed w) (closed w)) as Hs end.
    { assert (waiting w w) as Hw by (split; [split; [done|by intros ?]|done]). specialize (Hs w Hw).
      rewrite H in Hs. by destruct r. }
    eapply spec_bind; [apply spec_waiting; unfold previewConnectionPreflight; keeping|]. intros ?.
    exact (spec_smart_mode_closed w _ name settings persist Hp). }
  destruct Hc as [[Hl Hu]|Hu]; [|done]. destruct Hcase as [Hg|Hl']; [by apply Hu|by destruct Hl'].
Qed.

(** C30: After a successful [Start] the tunnel that was asked for is not
    stopped, every other known tunnel is, no engine of the smart mode is
    recorded (nor was one before), and nothing is left for the supervisor to
    start again. *)
Theorem native_start_exclusive target w w' :
  Start target w = (w', Ret tt) →
  m_process w = None ∧ m_process w' = None ∧ m_desired w' = None
  ∧ (∃ s, m_services w' !! target = Some s ∧ svc_state s ≠ TunnelStopped)
  ∧ ∀ n, n ∈ known w → n ≠ target → service_state w' n = TunnelStopped.
Proof. apply start_native_ret. Qed.
End Theorems.

(** ** Witnesses and findings *)

Section Demo.
Local Existing Instance plain_runtime.

Lemma one_engine_no_key_file_witness :
  let E := demo_env no_fault in
  let w := fst (handle (RSmartStart true "home" "selected") idle_world) in
  m_engines w ≠ ∅ ∧ m_engines w ⊆ pids (m_process w) ∧ ((∀ n, env_remove_fault n = None) → m_configs w = ∅).
Proof.
  intros E w. split; [intros H; apply (f_equal elements) in H; vm_compute in H; discriminate H|].
  apply one_engine_no_key_file. eapply reach_step; [by apply (reach_init idle_world)|].
  apply step_request. vm_compute. discriminate.
Defined.




(** The engine is attached to its job, and the guard for it fails. *)
Definition demo_failed : mworld * outcome unit :=
  smartStartLocked (ENV := demo_env (fault_at 23)) start_fuel "home" protected_settings true idle_world.

Lemma idle_quiet : quiet idle_world.
Proof.
  split; [reflexivity|]. intros n _. unfold service_state. change (m_services idle_world) with (∅ : gmap gostring svc).
  rewrite lookup_empty. split; discriminate.
Qed.

Lemma protected_start_fails_closed_witness :
  let E := demo_env (fault_at 23) in
  (∃ e, snd demo_failed = Fail e) ∧ m_guard (fst demo_failed) ≠ None.
Proof.
  intros E. split; [eexists; vm_compute; reflexivity|].
  apply (protected_start_fails_closed "home" protected_settings true idle_world (fst demo_failed) (snd demo_failed)).
  - reflexivity.
  - exact idle_quiet.
  - apply surjective_pairing.
  - vm_compute. discriminate.
  - right. intros H. apply (f_equal map_to_list) in H. vm_compute in H. discriminate H.
Defined.

Definition demo_switched : mworld := fst (Start (ENV := demo_env no_fault) "home" demo_world).

Lemma native_start_exclusive_witness :
  let E := demo_env no_fault in
  m_process demo_world = None ∧ m_process demo_switched = None ∧ m_desired demo_switched = None
  ∧ (∃ s, m_services demo_switched !! ("home" : gostring) = Some s ∧ svc_state s ≠ TunnelStopped)
  ∧ ∀ n, n ∈ known demo_world → n ≠ "home" → service_state demo_switched n = TunnelStopped.
Proof. intros E. apply (native_start_exclusive "home" demo_world demo_switched). vm_compute. reflexivity. Defined.

(** A start whose guard cannot be set for the running engine reports to the
    clients that the tunnel is starting and never that it stopped: the engine is
    gone, and the last notification says [TunnelStarting]. *)
Theorem guard_failure_never_reported :
  ∃ e, snd demo_failed = Fail e ∧ m_process (fst demo_failed) = None ∧ m_engines (fst demo_failed) = ∅
  ∧ map (λ n, (note_name n, note_state n)) (m_notes (fst demo_failed)) = [("home" : gostring, TunnelStarting)].
Proof. eexists. split_and!; vm_compute; reflexivity. Qed.
End Demo.
