(* ===== verification/ManagerTypesTheorems.v ===== *)
(** * Decisions of the manager: theorems

    Switching native tunnels, fallback profiles, event queues, tunnel states,
    and the boundary of the desired state's size. *)
From S2P Require Import Prelude GoStrings GoStrconv GoNet GoOs TunnelName AwgValidation SmartRules SmartCatalog SmartSettings ManagerNet ManagerTypes ManagerDesired ManagerSwitch.

Local Open Scope Z_scope.

Section Plan.
Context {RT : GoRuntime}.

(** Whatever the order in which the map is read, [planNativeSwitch] stops
    every other tunnel that is not stopped, waits for those and for the target
    if it is stopping, each once and in the order of their names, and installs
    the target unless it is up, on its way up, or in an unknown state. *)
Theorem planNativeSwitch_exact target states : plan_for target states (planNativeSwitch target states).
Proof. apply planNativeSwitch_plan_for. Qed.

(** ** Fallback profiles *)

(** The names that are tried: the first of each class under [strings.ToLower]. *)
Fixpoint first_of_each (names : list gostring) (seen : gset gostring) : list gostring :=
  match names with
  | [] => []
  | name :: names =>
      if bool_decide (ToLower name ∈ seen) then first_of_each names seen
      else name :: first_of_each names ({[ToLower name]} ∪ seen)
  end.

(** Try [names] in order, until one succeeds. *)
Fixpoint try_each {S} (start : gostring → act S) (names : list gostring) (errs : list goerror) : act S :=
  match names with
  | [] => as_error (join_errors errs)
  | name :: names =>
      let! r := attempt (start name) in
      match r with
      | Fail e => try_each start names (errs ++ [WrapError name e])
      | r => io_lift r
      end
  end.

Lemma first_of_each_in names seen n :
  n ∈ first_of_each names seen → n ∈ names ∧ ToLower n ∉ seen.
Proof.
  revert seen. induction names as [|m names IH]; intros seen; cbn; [by intros ?%elem_of_nil|].
  destruct (bool_decide _) eqn:E; intros H.
  - apply IH in H as [? ?]. split; [by right|done].
  - apply bool_decide_eq_false in E. apply elem_of_cons in H as [->|H]; [split; [by left|done]|].
    apply IH in H as [? ?]. split; [by right|set_solver].
Qed.

Lemma first_of_each_nodup names seen : NoDup (map ToLower (first_of_each names seen)).
Proof.
  revert seen. induction names as [|m names IH]; intros seen; cbn; [constructor|].
  destruct (bool_decide _); [apply IH|]. cbn. apply NoDup_cons. split; [|apply IH].
  intros Hin. apply list_elem_of_In, in_map_iff in Hin as (n & E & Hin). apply list_elem_of_In in Hin.
  apply first_of_each_in in Hin as [_ Hin]. set_solver.
Qed.

Lemma first_of_each_covers names seen n :
  n ∈ names → ToLower n ∈ seen ∨ ∃ m, m ∈ first_of_each names seen ∧ ToLower m = ToLower n.
Proof.
  revert seen. induction names as [|k names IH]; intros seen; cbn; [by intros ?%elem_of_nil|].
  intros Hin. destruct (bool_decide _) eqn:E.
  - apply bool_decide_eq_true in E. apply elem_of_cons in Hin as [->|Hin]; [by left|by apply IH].
  - apply elem_of_cons in Hin as [->|Hin]; [right; exists k; split; [by left|done]|].
    destruct (IH ({[ToLower k]} ∪ seen) Hin) as [H|(m & Hm & Em)].
    + apply elem_of_union in H as [H|H]; [|by left]. apply elem_of_singleton in H. right. exists k. split; [by left|done].
    + right. exists m. split; [by right|done].
Qed.

Lemma recover_loop_tries {S} (start : gostring → act S) names seen errs s :
  recover_loop start names seen errs s = try_each start (first_of_each names seen) errs s.
Proof.
  revert seen errs s. induction names as [|n names IH]; intros seen errs s; cbn; [done|].
  destruct (bool_decide _); [apply IH|]. cbn. unfold io_bind. destruct (attempt (start n) s) as [s1 [[u|e|]|e|]]; [done| |done..].
  apply IH.
Qed.

(** Recovery tries the tunnel itself, then its fallback profiles in their
    order, each at most once up to letter case, and stops at the first that
    starts; only when all have failed it fails, with all the errors.  No profile
    of the list is left out. *)
Theorem recoverWithFallbacks_order {S} primary settings (start : gostring → act S) s :
  let order := first_of_each (primary :: FallbackProfiles settings) ∅ in
  recoverWithFallbacks primary settings start s = try_each start order [] s
  ∧ head order = Some primary ∧ NoDup (map ToLower order)
  ∧ (∀ n, n ∈ order → n = primary ∨ n ∈ FallbackProfiles settings)
  ∧ (∀ n, n ∈ FallbackProfiles settings → ∃ m, m ∈ order ∧ ToLower m = ToLower n).
Proof.
  cbv zeta. split; [apply recover_loop_tries|]. split; [by cbn; rewrite bool_decide_false by set_solver|].
  split; [apply first_of_each_nodup|]. split.
  - intros n Hn. apply first_of_each_in in Hn as [Hn _]. by apply elem_of_cons in Hn.
  - intros n Hn. destruct (first_of_each_covers (primary :: FallbackProfiles settings) ∅ n) as [H|H]; [by right|set_solver|done].
Qed.
End Plan.

(** The state derived from a notification of the service manager is the
    one derived from the service's own status, for every status. *)
Theorem service_states_agree s : notifyStateToTunState (svcStateToNotifyState s) = service_tunnel_state s.
Proof.
  unfold svcStateToNotifyState, service_tunnel_state.
  destruct (Z.eqb_spec s 1); [done|]. destruct (Z.eqb_spec s 2) as [->|]; [done|].
  destruct (Z.eqb_spec s 3) as [->|]; [done|]. destruct (Z.eqb_spec s 4) as [->|]; [done|].
  repeat case_match; reflexivity.
Qed.

(** An event queue keeps the newest events in their order: after queueing
    [event] it holds the last [capacity] of what was there and [event]; nothing
    is lost while there is room. *)
Theorem queueLatestEvent_latest {A} capacity (queue : list A) event :
  (0 < capacity)%nat → (length queue ≤ capacity)%nat →
  let queue' := queueLatestEvent capacity queue event in
  queue' = drop (S (length queue) - capacity) (queue ++ [event]) ∧ (length queue' ≤ capacity)%nat ∧ last queue' = Some event.
Proof.
  intros Hc Hl. cbv zeta. assert (queueLatestEvent capacity queue event = drop (S (length queue) - capacity) (queue ++ [event])) as ->.
  { unfold queueLatestEvent, try_send. destruct (Nat.ltb_spec (length queue) capacity) as [H|H].
    - replace (S (length queue) - capacity)%nat with 0%nat by lia. reflexivity.
    - replace (S (length queue) - capacity)%nat with 1%nat by lia.
      destruct queue as [|x queue]; cbn [length tail] in *; [lia|]. destruct (Nat.ltb_spec (length queue) capacity); [reflexivity|lia]. }
  split; [done|]. rewrite length_drop, length_app. cbn. split; [lia|].
  rewrite drop_app_le by lia. apply last_snoc.
Qed.

Lemma queueLatestEvent_latest_witness :
  let queue' := queueLatestEvent 2 [1; 2] 3 in
  queue' = drop (3 - 2) ([1; 2] ++ [3]) ∧ (length queue' ≤ 2)%nat ∧ last queue' = Some 3.
Proof. apply (queueLatestEvent_latest 2 [1; 2] 3); cbn; lia. Defined.

(** With one tunnel starting and another stopping, the state that all
    clients are told depends on the order in which the runtime walks the map. *)
Theorem global_state_depends_on_order :
  ∃ (RT RT' : GoRuntime) tracked,
    @trackedTunnelsGlobalState RT tracked = TunnelStarting ∧ @trackedTunnelsGlobalState RT' tracked = TunnelStopping.
Proof.
  set (tracked := <["a" : gostring := TunnelStarting]> (<["b" : gostring := TunnelStopping]> ∅) : gmap gostring TunnelState).
  set (backwards := {| rune_lower := @rune_lower plain_runtime; simple_fold := @simple_fold plain_runtime;
    iterate := λ A, @reverse A; iterate_perm := λ A l, reverse_Permutation l |} : GoRuntime).
  assert (∀ l : list TunnelState, l = [TunnelStarting; TunnelStopping] ∨ l = [TunnelStopping; TunnelStarting] →
    l = map snd (map_to_list tracked) → ∃ (RT RT' : GoRuntime) tracked,
    @trackedTunnelsGlobalState RT tracked = TunnelStarting ∧ @trackedTunnelsGlobalState RT' tracked = TunnelStopping) as H.
  { intros l [-> | ->] E; [exists plain_runtime, backwards, tracked|exists backwards, plain_runtime, tracked];
      unfold trackedTunnelsGlobalState; rewrite <- E; done. }
  apply (H (map snd (map_to_list tracked))); [vm_compute; by auto|done].
Qed.

(** A desired state of exactly the size limit is written, with a line end,
    and then refused as too large by every read of that file. *)
Theorem desired_boundary_unreadable data :
  Z.of_nat (length data) = smartDesiredMaxSize →
  desired_write_check data = Ret tt ∧ ∃ e, desired_read_check (desired_file data) = Fail e.
Proof.
  intros H. unfold desired_write_check, desired_read_check, desired_file. rewrite length_app, Nat2Z.inj_add, H. cbn [length].
  split; [by rewrite Z.gtb_ltb, (proj2 (Z.ltb_ge _ _)) by lia|].
  rewrite Z.gtb_ltb, (proj2 (Z.ltb_lt _ _)) by lia. by eexists.
Qed.

Lemma desired_boundary_unreadable_witness :
  let data := repeat x20 (Z.to_nat smartDesiredMaxSize) in
  desired_write_check data = Ret tt ∧ ∃ e, desired_read_check (desired_file data) = Fail e.
Proof.
  intros data. apply (desired_boundary_unreadable data). unfold data. rewrite repeat_length. apply Z2Nat.id.
  unfold smartDesiredMaxSize, MaxSettingsSize. lia.
Defined.
