(* ===== verification/RingLogger.v ===== *)
(** * The ring logger ([client/ringlogger/ringlogger.go])

    A log of 2048 lines in memory shared by several processes: writers take a
    slot from an atomic counter and fill it byte by byte, readers copy the whole
    memory and follow it from a cursor.  [writer_step] is one store of one of the
    writers, [copying] reads one byte of the memory between them, and [polled] is a
    reader that copies again and again. *)
From S2P Require Import Prelude GoStrings GoStrconv AwgValidation.

Local Open Scope Z_scope.

Definition maxLogLineLength : nat := 512.
Definition maxTagLength : nat := 5.
Definition maxLines : nat := 2048.
Definition log_magic : Z := 0xbadbabe.

Record logLine := mkLine { timeNs : Z; line : list byte }.
Record logMem := mkMem { magic : Z; nextIndex : Z; lines : list logLine }.

Definition zeroLine : logLine := mkLine 0 (repeat x00 maxLogLineLength).
Definition zeroMem : logMem := mkMem 0 0 (repeat zeroLine maxLines).

(** ** Opening and closing *)

(** [file] and [mapping] say whether the logger still holds the handle. *)
Record Ringlogger := mkLogger { tag : gostring; file : bool; mapping : bool; log : option logMem; readOnly : bool }.

(** Handles given back to the system, in their order. *)
Inductive released := FileClosed | MappingClosed | ViewUnmapped.

(** [newRingloggerFromMappingHandle]: the memory of a mapped view, cleared when
    it is not a log yet, unless the view is read-only.  [view] is what
    MapViewOfFile gives. *)
Definition newRingloggerFromMappingHandle (view : logMem + goerror) (tag : gostring) (writable : bool)
    : list released * outcome Ringlogger :=
  match view with
  | inr e => ([MappingClosed], Fail e)
  | inl log =>
      if negb (magic log =? log_magic) && negb writable
      then ([ViewUnmapped; MappingClosed], Fail (err "invalid read-only log mapping"))
      else
        let log := if magic log =? log_magic then log else mkMem log_magic 0 (lines zeroMem) in
        ([], Ret (mkLogger tag false true (Some log) (negb writable)))
  end.

(** The answers of the system to [NewRinglogger]. *)
Record mapping_calls := mkCalls {
  open_file : option goerror; truncate_file : option goerror;
  create_mapping : option goerror; map_view : logMem + goerror }.

Definition ERROR_ALREADY_EXISTS : goerror := ErrorString "ERROR_ALREADY_EXISTS".

Definition is_already_exists (e : goerror) : bool :=
  match e with ErrorString s => bool_decide (s = "ERROR_ALREADY_EXISTS"%go) | _ => false end.

Definition finish_new (view : logMem + goerror) (tag : gostring) : list released * outcome Ringlogger :=
  match newRingloggerFromMappingHandle view tag true with
  | (r, Ret rl) => (r, Ret (mkLogger tag true (mapping rl) (log rl) (readOnly rl)))
  | (r, Fail e) => (r ++ [MappingClosed; FileClosed], Fail e)
  | (r, Panic) => (r, Panic)
  end.

Definition NewRinglogger (calls : mapping_calls) (tag : gostring) : list released * outcome Ringlogger :=
  if (maxTagLength <? length tag)%nat then ([], Fail (ErrorString "ERROR_LABEL_TOO_LONG"))
  else
    match open_file calls, truncate_file calls with
    | Some e, _ => ([], Fail e)
    | None, Some e => ([FileClosed], Fail e)
    | None, None =>
        match create_mapping calls with
        | Some e =>
            if is_already_exists e then finish_new (map_view calls) tag else ([FileClosed], Fail e)
        | None => finish_new (map_view calls) tag
        end
    end.

Definition NewRingloggerFromInheritedMappingHandle (handleStr tag : gostring) (view : Z → logMem + goerror)
    : list released * outcome Ringlogger :=
  match ParseUint handleStr 64 with
  | Ret handle => newRingloggerFromMappingHandle (view handle) tag false
  | Fail e => ([], Fail e)
  | Panic => ([], Panic)
  end.

Definition Close (rl : Ringlogger) : list released * Ringlogger :=
  ((if file rl then [FileClosed] else []) ++ (match log rl with Some _ => [ViewUnmapped] | None => [] end)
   ++ (if mapping rl then [MappingClosed] else []),
   mkLogger (tag rl) false false None (readOnly rl)).

(** [ExportInheritableMappingHandle], with the answers of CreateFileMapping and
    SetHandleInformation. *)
Definition ExportInheritableMappingHandle (handle : Z) (create set_info : option goerror) : list released * (Z * option goerror) :=
  match match create with Some e => if is_already_exists e then None else Some e | None => None end with
  | Some e => ([], (handle, Some e))
  | None =>
      match set_info with
      | Some e => ([MappingClosed], (0, Some e))
      | None => ([], (handle, None))
      end
  end.

(** ** Writing *)

(** The text that fits, and the length of the line. *)
Definition fit (tag p : gostring) : gostring * nat :=
  let textLen := (3 + length p + length tag)%nat in
  if (maxLogLineLength - 1 <? textLen)%nat
  then (take (maxLogLineLength - 1 - 3 - length tag) p, (maxLogLineLength - 1)%nat)
  else (p, textLen).

(** [copy(line[at:], s)] *)
Definition copy_stores (at_ : nat) (s : gostring) : list (nat * byte) := zip (seq at_ (length s)) s.

(** The stores into [line.line], in their order. *)
Definition line_stores (tag p : gostring) : list (nat * byte) :=
  let '(p, textLen) := fit tag p in
  map (λ i, (i, x00)) (seq 0 maxLogLineLength)
  ++ [(textLen, x00); (0%nat, x00)]
  ++ copy_stores 1 tag
  ++ [((1 + length tag)%nat, "]"%byte); ((2 + length tag)%nat, " "%byte)]
  ++ copy_stores (3 + length tag) p
  ++ [(0%nat, "["%byte)].

Definition store (c : list byte) (s : nat * byte) : list byte := <[fst s := snd s]> c.

(** The slot of an index. *)
Definition slot (index : Z) : nat := Z.to_nat (index mod Z.of_nat maxLines).

Definition alter_line (i : nat) (f : logLine → logLine) (m : logMem) : logMem :=
  mkMem (magic m) (nextIndex m) (alter f i (lines m)).

Definition set_time (ts : Z) (l : logLine) : logLine := mkLine ts (line l).
Definition set_bytes (f : list byte → list byte) (l : logLine) : logLine := mkLine (timeNs l) (f (line l)).

(** [atomic.AddUint32(&nextIndex, 1) - 1] *)
Definition take_index (m : logMem) : Z * logMem :=
  let new := u32 (nextIndex m + 1) in (u32 (new - 1), mkMem (magic m) new (lines m)).

(** What a writer does with its line. *)
Definition write_line (i : nat) (tag p : gostring) (ts : Z) (m : logMem) : logMem :=
  let m := alter_line i (set_time 0) m in
  let m := alter_line i (set_bytes (λ c, fold_left store (line_stores tag p) c)) m in
  alter_line i (set_time ts) m.

Definition WriteWithTimestamp (p : gostring) (ts : Z) (rl : Ringlogger) : Ringlogger * (Z * option goerror) :=
  if readOnly rl then (rl, (0, Some (ErrorString "short write")))
  else
    let ret := Z.of_nat (length p) in
    let p := TrimSpace p in
    match p, log rl with
    | [], _ => (rl, (ret, None))
    | _, None => (rl, (0, Some (ErrorString "EOF")))
    | _, Some m =>
        let '(index, m) := take_index m in
        (mkLogger (tag rl) (file rl) (mapping rl) (Some (write_line (slot index) (tag rl) p ts m)) (readOnly rl), (ret, None))
    end.

(** ** Reading *)

(** The text of a line up to its first NUL, if there is any. *)
Definition line_text (l : logLine) : option gostring :=
  match IndexByte (line l) x00 with
  | Some (S n) => Some (take (S n) (line l))
  | _ => None
  end.

Definition visible (l : logLine) : option (gostring * Z) :=
  match line_text l with Some s => Some (s, timeNs l) | None => None end.

(** [WriteTo] prints its lines with [out], which gives the number of bytes or
    an error; the lines printed, the byte count and the error. *)
Definition printer := gostring * Z → Z + goerror.

Fixpoint write_to_loop (out : printer) (m : logMem) (n : nat) (l : Z) : list (gostring * Z) * Z * option goerror :=
  match n with
  | O => ([], 0, None)
  | S n =>
      let continue := write_to_loop out m n (l + 1) in
      match lines m !! slot (u32 (nextIndex m + l)) with
      | None => continue
      | Some ln =>
          if timeNs ln =? 0 then continue
          else
            match visible ln with
            | None => continue
            | Some x =>
                match out x with
                | inr e => ([], 0, Some e)
                | inl k => let '(xs, total, e) := continue in (x :: xs, k + total, e)
                end
            end
      end
  end.

Definition WriteTo (out : printer) (rl : Ringlogger) : list (gostring * Z) * Z * option goerror :=
  match log rl with
  | None => ([], 0, Some (ErrorString "EOF"))
  | Some m => write_to_loop out m maxLines 0
  end.

Definition CursorAll : Z := 2 ^ 32 - 1.

Fixpoint follow_loop (m : logMem) (all : bool) (n : nat) (i nextCursor : Z) : list (gostring * Z) * Z :=
  match n with
  | O => ([], nextCursor)
  | S n =>
      if negb all && (slot i =? slot (nextIndex m))%nat then ([], nextCursor)
      else
        match lines m !! slot i with
        | None => ([], nextCursor)
        | Some ln =>
            if timeNs ln =? 0 then (if all then follow_loop m all n (u32 (i + 1)) nextCursor else ([], nextCursor))
            else
              let i' := u32 (i + 1) in
              let '(rest, c) := follow_loop m all n i' (i' mod Z.of_nat maxLines) in
              (match visible ln with Some x => x :: rest | None => rest end, c)
        end
  end.

Definition FollowFromCursor (cursor : Z) (rl : Ringlogger) : list (gostring * Z) * Z :=
  match log rl with
  | None => ([], cursor)
  | Some m =>
      let all := cursor =? CursorAll in
      follow_loop m all maxLines (if all then nextIndex m else cursor) cursor
  end.

(** ** Dumping a log ([dump.go]) *)

(** Printing the lines of one poll: what was printed, and the error that ended it. *)
Fixpoint print_items (out : printer) (items : list (gostring * Z)) : list (gostring * Z) * option goerror :=
  match items with
  | [] => ([], None)
  | x :: items =>
      match out x with
      | inr e => ([], Some e)
      | inl _ => let '(xs, e) := print_items out items in (x :: xs, e)
      end
  end.

Definition is_eof (e : goerror) : bool :=
  match e with ErrEOF => true | ErrorString s => bool_decide (s = "EOF"%go) | _ => false end.

(** The loop of [DumpTo]: [polls] is the log at each poll. *)
Fixpoint dump_loop (out : printer) (polls : list Ringlogger) (cursor : Z) : list (gostring * Z) * option (option goerror) :=
  match polls with
  | [] => ([], None)
  | rl :: polls =>
      let '(items, cursor) := FollowFromCursor cursor rl in
      match print_items out items with
      | (xs, Some e) => (xs, Some (if is_eof e then None else Some e))
      | (xs, None) => let '(ys, e) := dump_loop out polls cursor in (xs ++ ys, e)
      end
  end.

Definition dump_mapped (calls : mapping_calls) (out : printer) (continuous : bool) (polls : list logMem)
    : list released * list (gostring * Z) * option (option goerror) :=
  match newRingloggerFromMappingHandle (map_view calls) "DMP" false with
  | (r, Fail e) => (r ++ [MappingClosed; FileClosed], [], Some (Some e))
  | (r, Panic) => (r, [], None)
  | (r, Ret rl) =>
      if continuous then
        let at_ m := mkLogger (tag rl) (file rl) (mapping rl) (Some m) (readOnly rl) in
        let '(xs, e) := dump_loop out (rl :: map at_ polls) CursorAll in
        (match e with Some _ => r ++ fst (Close rl) ++ [FileClosed] | None => r end, xs, e)
      else
        let '(xs, _, e) := WriteTo out rl in (r ++ fst (Close rl) ++ [FileClosed], xs, Some e)
  end.

(** [DumpTo]: [polls] is the mapped memory at each later poll.  The last
    component is the error returned, or [None] while it is still following. *)
Definition DumpTo (calls : mapping_calls) (out : printer) (continuous : bool) (polls : list logMem)
    : list released * list (gostring * Z) * option (option goerror) :=
  match open_file calls with
  | Some e => ([], [], Some (Some e))
  | None =>
      match create_mapping calls with
      | Some e => if is_already_exists e then dump_mapped calls out continuous polls else ([FileClosed], [], Some (Some e))
      | None => dump_mapped calls out continuous polls
      end
  end.

(** ** The process-wide logger ([global.go]) *)

Definition globalBuffer_size : nat := maxLogLineLength - 1 - maxTagLength - 3.

(** [globalWrite]: the chunks given to [Global.Write] and the bytes kept.  The
    fuel is one more than the bytes, since only the first round can copy none. *)
Fixpoint globalWrite_loop (fuel : nat) (buffer b : list byte) : option (list (list byte) * list byte) :=
  match b, fuel with
  | [], _ => Some ([], buffer)
  | _, O => None
  | _, S fuel =>
      let amountAvailable := (globalBuffer_size - length buffer)%nat in
      let amountToCopy := min (length b) amountAvailable in
      let copied := take amountToCopy b in
      let b := drop amountToCopy b in
      let buffer := buffer ++ copied in
      let foundNl := existsb (λ c, Byte.eqb c "010"%byte) copied in
      if foundNl || (0 <? length b)%nat
      then match globalWrite_loop fuel [] b with
           | Some (chunks, rest) => Some (buffer :: chunks, rest)
           | None => None
           end
      else globalWrite_loop fuel buffer b
  end.

Definition globalWrite (buffer b : list byte) : option (list (list byte) * list byte) :=
  globalWrite_loop (S (length b)) buffer b.

(** ** Writers and a reader at once *)

(** A line of the log: its tag, text and time. *)
Definition entry : Type := gostring * gostring * Z.

(** A writer under way: its slot, what it writes, and how far it is. *)
Inductive phase :=
| Reserved                    (* has its index *)
| Storing (todo : list (nat * byte)).  (* the time is cleared *)
Record writer := mkWriter { w_pos : nat; w_slot : nat; w_tag : gostring; w_text : gostring; w_time : Z; w_phase : phase }.

(** The memory and the writers under way.  [taken] is kept for the proofs only:
    the lines in the order in which their slots were taken, with [w_pos] the place
    of a writer's line in it. *)
Record shared := mkShared { mem : logMem; writers : list writer; taken : list entry }.

(** One store of one writer.  Writers take slots in the order of the counter; a
    slot is taken while nobody else writes to it, which fails only when a writer
    is a whole lap of 2048 lines behind the others, the clash the source warns of. *)
Inductive writer_step : shared → shared → Prop :=
| step_reserve m ws H tag p ts :
    let '(index, m') := take_index m in
    slot index ∉ map w_slot ws → (length tag ≤ maxTagLength)%nat → TrimSpace p ≠ [] →
    writer_step (mkShared m ws H)
      (mkShared m' (ws ++ [mkWriter (length H) (slot index) tag (TrimSpace p) ts Reserved]) (H ++ [(tag, TrimSpace p, ts)]))
| step_clear m ws1 ws2 H q i tag p ts :
    writer_step (mkShared m (ws1 ++ mkWriter q i tag p ts Reserved :: ws2) H)
      (mkShared (alter_line i (set_time 0) m) (ws1 ++ mkWriter q i tag p ts (Storing (line_stores tag p)) :: ws2) H)
| step_store m ws1 ws2 H q i tag p ts s todo :
    writer_step (mkShared m (ws1 ++ mkWriter q i tag p ts (Storing (s :: todo)) :: ws2) H)
      (mkShared (alter_line i (set_bytes (λ c, store c s)) m) (ws1 ++ mkWriter q i tag p ts (Storing todo) :: ws2) H)
| step_publish m ws1 ws2 H q i tag p ts :
    writer_step (mkShared m (ws1 ++ mkWriter q i tag p ts (Storing []) :: ws2) H)
      (mkShared (alter_line i (set_time ts) m) (ws1 ++ ws2) H).

(** The memory of a new log, and what writers make of it. *)
Definition new_shared : shared := mkShared (mkMem log_magic 0 (lines zeroMem)) [] [].
Definition shared_reachable (s : shared) : Prop := rtc writer_step new_shared s.

(** [log := *rl.log]: the copy is no atomic operation.  It reads the memory in the
    order of the addresses, byte by byte, while the writers go on; a time is 64
    bits wide and read at once. *)
Inductive loc := LTime (i : nat) | LByte (i n : nat).

Definition line_at (m : logMem) (i : nat) : logLine := default zeroLine (lines m !! i).

Definition read_loc (l : loc) (m d : logMem) : logMem :=
  match l with
  | LTime i => alter_line i (set_time (timeNs (line_at m i))) d
  | LByte i n => alter_line i (set_bytes (λ c, store c (n, nth n (line (line_at m i)) x00))) d
  end.

Definition line_locs (i : nat) : list loc := LTime i :: map (LByte i) (seq 0 maxLogLineLength).
Definition all_locs : list loc := flat_map line_locs (seq 0 maxLines).

(** Reading the locations [ls] into [d], from the state [s] on. *)
Inductive copying : list loc → logMem → shared → logMem → shared → Prop :=
| copy_end d s : copying [] d s d s
| copy_write ls d s s' d' s'' : writer_step s s' → copying ls d s' d' s'' → copying ls d s d' s''
| copy_read l ls d s d' s' : copying ls (read_loc l (mem s) d) s d' s' → copying (l :: ls) d s d' s'.

(** A copy [d] that is begun at [s], where the magic number and the counter are
    read, and is finished at [s']. *)
Definition copied (s : shared) (d : logMem) (s' : shared) : Prop :=
  copying all_locs (mkMem (magic (mem s)) (nextIndex (mem s)) (lines zeroMem)) s d s'.

(** The first line that is not written yet. *)
Definition first_in_flight (s : shared) : nat := foldr min (length (taken s)) (map w_pos (writers s)).

(** Nobody has taken a slot that was used before without having cleared its time:
    "Race: Before this line executes, we'll display old data after new data." *)
Definition cleared (s : shared) : Prop := ∀ w, w ∈ writers s → w_phase w = Reserved → (w_pos w < maxLines)%nat.

(** The copies a reader makes while the writers run: from [s] to [s'] it polls the
    log once for each of the copies.  It is never lapped: when a copy ends, fewer than
    2048 lines have been taken since the first line that was in flight when the copy
    before it began ([p], and [p'] after the last copy). *)
Inductive polled : nat → shared → list logMem → nat → shared → Prop :=
| polled_end p s : polled p s [] p s
| polled_write p s s' ds p' s'' : writer_step s s' → polled p s' ds p' s'' → polled p s ds p' s''
| polled_copy p s d s' ds p' s'' : copied s d s' → cleared s → (length (taken s') < p + maxLines)%nat →
    polled (first_in_flight s) s' ds p' s'' → polled p s (d :: ds) p' s''.

(** ** The ring logger: theorems

    The ring holds the last 2048 lines, in order and across the wrap-around of
    its 32-bit counter; a reader that copies it while writers store into it is
    shown the lines in order, each once and none of them half-written. *)

Local Open Scope Z_scope.

Ltac mod_lia := Z.to_euclidean_division_equations; lia.

(** ** A written line *)

Definition final_line (tag p : gostring) : list byte :=
  let text := "[" ++ tag ++ "] " ++ fst (fit tag p) in
  text ++ repeat x00 (maxLogLineLength - length text).

Lemma repeat_replicate {A} n (x : A) : repeat x n = replicate n x.
Proof. induction n; cbn; congruence. Qed.

Lemma store_zeros n c : (n ≤ length c)%nat →
  fold_left store (map (λ i, (i, x00)) (seq 0 n)) c = replicate n x00 ++ drop n c.
Proof.
  induction n as [|n IH]; intros Hn; [done|]. rewrite seq_S, map_app, fold_left_app, IH by lia. cbn [map fold_left].
  unfold store. cbn [fst snd Nat.add]. rewrite insert_app_r_alt by (rewrite length_replicate; lia).
  rewrite length_replicate, Nat.sub_diag. rewrite replicate_S_end, <- app_assoc. f_equal.
  destruct (drop n c) as [|x d] eqn:E.
  { apply (f_equal length) in E. rewrite length_drop in E. cbn in E. lia. }
  cbn. f_equal. rewrite <- Nat.add_1_r, <- drop_drop, E. done.
Qed.

Lemma copy_stores_app k s t : copy_stores k (s ++ t) = copy_stores k s ++ copy_stores (k + length s) t.
Proof.
  unfold copy_stores. rewrite length_app, seq_app. apply zip_with_app. by rewrite length_seq.
Qed.

Lemma store_copy a s b : (length s ≤ length b)%nat →
  fold_left store (copy_stores (length a) s) (a ++ b) = a ++ s ++ drop (length s) b.
Proof.
  revert a b. induction s as [|x s IH]; intros a b Hs; [done|]. destruct b as [|y b]; [cbn in Hs; lia|].
  unfold copy_stores. cbn [length seq zip fold_left]. unfold store at 2. cbn [fst snd].
  rewrite insert_app_r_alt by done. rewrite Nat.sub_diag. cbn [list_insert insert].
  change (fold_left store (zip (seq (S (length a)) (length s)) s) (a ++ x :: b) = a ++ x :: s ++ drop (length s) b).
  specialize (IH (a ++ [x]) b). rewrite length_app in IH. cbn in IH. rewrite Nat.add_1_r in IH. unfold copy_stores in IH.
  rewrite <- !app_assoc in IH. cbn in IH. apply IH. cbn in Hs. lia.
Qed.

Lemma fit_length tag p : (length tag ≤ maxTagLength)%nat → (3 + length (fst (fit tag p)) + length tag ≤ 511)%nat.
Proof.
  intros Ht. unfold fit, maxLogLineLength, maxTagLength in *. destruct (Nat.ltb_spec (512 - 1) (3 + length p + length tag)); cbn [fst].
  - rewrite length_take. lia.
  - lia.
Qed.

(** The middle stores write one text. *)
Lemma text_stores tag q :
  copy_stores 1 tag ++ [((1 + length tag)%nat, "]"%byte); ((2 + length tag)%nat, " "%byte)] ++ copy_stores (3 + length tag) q
  = copy_stores (length [x00]) (tag ++ "] " ++ q).
Proof.
  rewrite !copy_stores_app. cbn [length]. do 2 f_equal. f_equal. lia.
Qed.

(** Whatever the line held, the stores leave the tag, the text and zeros. *)
Lemma stores_final tag p c : (length tag ≤ maxTagLength)%nat → length c = maxLogLineLength →
  fold_left store (line_stores tag p) c = final_line tag p.
Proof.
  intros Ht Hc. pose proof (fit_length tag p Ht) as Hf. unfold line_stores, final_line.
  destruct (fit tag p) as [q textLen] eqn:Ef. cbn [fst] in *.
  assert (textLen < 512)%nat as Hlen.
  { unfold fit, maxLogLineLength in Ef. destruct (Nat.ltb_spec (512 - 1) (3 + length p + length tag)); injection Ef as <- <-; lia. }
  rewrite fold_left_app, store_zeros by (rewrite Hc; done). rewrite drop_ge, app_nil_r by (rewrite Hc; done).
  assert (∀ i, (i < 512)%nat → store (replicate maxLogLineLength x00) (i, x00) = replicate maxLogLineLength x00) as Hz.
  { intros i Hi. apply list_insert_id, lookup_replicate_2. exact Hi. }
  rewrite fold_left_app. assert (fold_left store [(textLen, x00); (0%nat, x00)] (replicate maxLogLineLength x00) = replicate maxLogLineLength x00) as ->.
  { cbn [fold_left]. rewrite Hz by done. apply Hz. lia. }
  rewrite (app_assoc [_; _]), (app_assoc (copy_stores 1 tag)), text_stores, fold_left_app.
  change (replicate maxLogLineLength x00) with ([x00] ++ replicate 511 x00).
  rewrite store_copy by (rewrite !length_app, length_replicate; cbn; lia).
  rewrite drop_replicate, repeat_replicate. cbn. f_equal.
Qed.

(** ** The ring represents a history *)

(** An entry of the history in memory. *)
Definition entry_line (e : entry) : logLine := let '(t, p, ts) := e in mkLine ts (final_line t p).

(** What a reader is shown of an entry. *)
Definition shown (e : entry) : gostring * Z := let '(t, p, ts) := e in ("[" ++ t ++ "] " ++ fst (fit t p), ts).

Definition good_entry (e : entry) : Prop :=
  let '(t, p, ts) := e in
  (length t ≤ maxTagLength)%nat ∧ has_byte t x00 = false ∧ has_byte p x00 = false ∧ ts ≠ 0.

Record Represents (H : list entry) (m : logMem) : Prop := {
  rep_length : length (lines m) = maxLines;
  rep_bytes : Forall (λ l, length (line l) = maxLogLineLength) (lines m);
  rep_next : nextIndex m = u32 (Z.of_nat (length H));
  rep_line : ∀ j e, H !! j = Some e → (length H ≤ j + maxLines)%nat →
    lines m !! (j mod maxLines)%nat = Some (entry_line e);
  rep_unused : ∀ i, (length H ≤ i < maxLines)%nat → ∃ l, lines m !! i = Some l ∧ timeNs l = 0 }.

Lemma take_no_byte n s c : has_byte s c = false → has_byte (take n s) c = false.
Proof.
  intros Hs. rewrite <- (take_drop n s) in Hs. rewrite has_byte_app in Hs. by apply orb_false_iff in Hs as [? _].
Qed.

Lemma visible_entry e : good_entry e → visible (entry_line e) = Some (shown e).
Proof.
  destruct e as [[t p] ts]. intros (Ht & Hnt & Hnp & _). pose proof (fit_length t p Ht) as Hf.
  unfold visible, line_text, entry_line, shown, final_line. cbn [line timeNs].
  set (text := ("[" ++ t ++ "] " ++ fst (fit t p))%go).
  assert (has_byte text x00 = false) as Hn.
  { unfold text. rewrite !has_byte_app, Hnt. cbn [orb]. unfold fit. case_if; cbn; [by apply take_no_byte|done]. }
  assert (length text = 3 + length t + length (fst (fit t p)))%nat as Hl.
  { unfold text. cbn. rewrite length_app. cbn. lia. }
  replace (maxLogLineLength - length text)%nat with (S (511 - length text)) by (unfold maxLogLineLength; lia).
  cbn [repeat]. rewrite IndexByte_app by done. rewrite Hl at 1. cbn [Nat.add].
  replace (S (S (S (length t + length (fst (fit t p)))))) with (length text) by lia. by rewrite take_app_length.
Qed.

Lemma u32_lines z : u32 z mod Z.of_nat maxLines = z mod Z.of_nat maxLines.
Proof. apply Z.mod_mod_divide. by exists 2097152. Qed.

Lemma slot_u32 z : 0 ≤ z → slot (u32 z) = (Z.to_nat z mod maxLines)%nat.
Proof. intros Hz. unfold slot. rewrite u32_lines, Z2Nat.inj_mod by (unfold maxLines; lia). by rewrite Nat2Z.id. Qed.

Lemma slot_succ i : slot (u32 (i + 1)) = (S (slot i) mod maxLines)%nat.
Proof.
  unfold slot. rewrite u32_lines. apply Nat2Z.inj. rewrite Nat2Z.inj_mod, Nat2Z.inj_succ, !Z2Nat.id by (unfold maxLines; mod_lia).
  unfold Z.succ. by rewrite Zplus_mod_idemp_l.
Qed.

Lemma slot_lt i : (slot i < maxLines)%nat.
Proof. unfold slot, maxLines. apply Nat2Z.inj_lt. rewrite Z2Nat.id by mod_lia. mod_lia. Qed.

Lemma slot_mod i j : slot i = (j mod maxLines)%nat → slot (u32 (i + 1)) = (S j mod maxLines)%nat.
Proof. intros E. rewrite slot_succ, E, <- (Nat.add_1_r j), <- (Nat.add_1_r (j mod _)). apply Nat.Div0.add_mod_idemp_l. Qed.

(** ** Reading a represented history *)

Lemma follow_new H m : Represents H m → Forall good_entry H → ∀ n k i c,
  (k ≤ length H)%nat → (length H < k + maxLines)%nat → (length H ≤ k + n)%nat → slot i = (k mod maxLines)%nat →
  follow_loop m false n i c
  = (map shown (drop k H), if decide (k = length H) then c else Z.of_nat (length H) mod Z.of_nat maxLines).
Proof.
  intros R G. induction n as [|n IH]; intros k i c Hk Hlap Hn Hi.
  - assert (k = length H) as -> by lia. rewrite drop_ge, decide_True by done. done.
  - cbn [follow_loop negb andb]. rewrite (rep_next _ _ R), slot_u32, Nat2Z.id, Hi by lia.
    destruct (decide (k = length H)) as [->|Hne].
    { rewrite Nat.eqb_refl, drop_ge by done. done. }
    rewrite (proj2 (Nat.eqb_neq _ _)). 2: { unfold maxLines in *. intros E. apply (f_equal Z.of_nat) in E. rewrite !Nat2Z.inj_mod in E. mod_lia. }
    destruct (lookup_lt_is_Some_2 H k) as [e He]; [lia|].
    rewrite (rep_line _ _ R k e He) by lia. pose proof (Forall_lookup_1 _ _ _ _ G He) as Ge.
    rewrite visible_entry by done. destruct e as [[t p] ts]. cbn [entry_line timeNs].
    rewrite (proj2 (Z.eqb_neq _ _)) by apply Ge. rewrite (IH (S k)) by (try apply slot_mod; lia || done).
    rewrite (drop_S _ _ _ He). cbn [map]. f_equal. case_decide as E; [|done].
    rewrite <- E. apply slot_mod in Hi. unfold slot in Hi. rewrite u32_lines in *. apply (f_equal Z.of_nat) in Hi.
    rewrite Z2Nat.id, Nat2Z.inj_mod in Hi by (unfold maxLines; mod_lia). done.
Qed.

(** The slot visited when [n] slots are left holds the [n]-th last entry. *)
Lemma lap_line H m n i : Represents H m → Forall good_entry H →
  (n < maxLines)%nat → slot i = ((length H + (maxLines - S n)) mod maxLines)%nat →
  (∃ e, H !! (length H - S n)%nat = Some e ∧ (n < length H)%nat ∧ good_entry e ∧ lines m !! slot i = Some (entry_line e))
  ∨ (∃ l, lines m !! slot i = Some l ∧ timeNs l = 0 ∧ (length H ≤ n)%nat).
Proof.
  intros R G Hn Hi. destruct (decide (n < length H)%nat) as [Hl|Hl]; [left|right].
  - destruct (lookup_lt_is_Some_2 H (length H - S n)) as [e He]; [lia|]. exists e.
    split_and!; [done|done|by eapply Forall_lookup_1|]. rewrite <- (rep_line _ _ R _ _ He) by lia. f_equal. rewrite Hi.
    replace (length H + (maxLines - S n))%nat with (length H - S n + 1 * maxLines)%nat by lia. apply Nat.Div0.mod_add.
  - destruct (rep_unused _ _ R (length H + (maxLines - S n))%nat) as (l & Hl1 & Hl2); [lia|].
    exists l. split_and!; [|done|lia]. rewrite Hi, Nat.mod_small by lia. done.
Qed.

Lemma lap_next (H : list entry) n i : (S n < maxLines)%nat → slot i = ((length H + (maxLines - S (S n))) mod maxLines)%nat →
  slot (u32 (i + 1)) = ((length H + (maxLines - S n)) mod maxLines)%nat.
Proof. intros Hn Hi. apply slot_mod in Hi. rewrite Hi. f_equal. lia. Qed.

Lemma drop_last_S {A} (H : list A) n e : H !! (length H - S n)%nat = Some e → (n < length H)%nat →
  drop (length H - S n) H = e :: drop (length H - n) H.
Proof. intros He Hn. rewrite (drop_S _ _ _ He). do 2 f_equal. lia. Qed.

Lemma follow_all H m : Represents H m → Forall good_entry H → ∀ n i c,
  (n ≤ maxLines)%nat → (∀ k, n = S k → slot i = ((length H + (maxLines - S k)) mod maxLines)%nat) →
  follow_loop m true n i c
  = (map shown (drop (length H - n) H),
     if decide (n = 0%nat ∨ H = []) then c else Z.of_nat (length H) mod Z.of_nat maxLines).
Proof.
  intros R G. induction n as [|n IH]; intros i c Hn Hi.
  { rewrite Nat.sub_0_r, drop_ge, decide_True by auto. done. }
  assert (∀ k, n = S k → slot (u32 (i + 1)) = ((length H + (maxLines - S k)) mod maxLines)%nat) as Hi'.
  { intros k ->. apply lap_next; [lia|by apply Hi]. }
  cbn [follow_loop negb andb]. destruct (lap_line H m n i R G) as [(e & He & Hl & Ge & ->)|(l & -> & Ht & Hl)]; [lia|by apply Hi| |].
  - rewrite visible_entry by done. destruct e as [[t p] ts]. cbn [entry_line timeNs].
    rewrite (proj2 (Z.eqb_neq _ _)) by apply Ge. rewrite (IH _ _ ltac:(lia) Hi'), (drop_last_S _ _ _ He Hl). cbn [map]. f_equal.
    rewrite (decide_False (P := S n = 0%nat ∨ H = [])) by (intros [?| ->]; [lia|cbn in Hl; lia]).
    case_decide as E; [|done]. destruct E as [->| ->]; [|cbn in Hl; lia].
    specialize (Hi 0%nat eq_refl). apply slot_mod in Hi. unfold slot in Hi. rewrite u32_lines in *. apply (f_equal Z.of_nat) in Hi.
    rewrite Z2Nat.id, Nat2Z.inj_mod in Hi by (unfold maxLines; mod_lia). rewrite Hi.
    replace (Z.of_nat (S (length H + (maxLines - 1)))) with (Z.of_nat (length H) + 1 * Z.of_nat maxLines) by lia. apply Z.mod_add. unfold maxLines; lia.
  - rewrite Ht, (IH _ _ ltac:(lia) Hi'). cbn. replace (length H - n)%nat with 0%nat by lia. replace (length H - S n)%nat with 0%nat by lia.
    f_equal. destruct (decide (H = [])) as [E|E].
    + rewrite !decide_True by auto. done.
    + destruct H; [done|]. cbn in Hl. rewrite !decide_False by (intros [?|?]; [lia|done]). done.
Qed.

Lemma write_all out H m : Represents H m → Forall good_entry H → (∀ x, ∃ k, out x = inl k) → ∀ n l,
  (n ≤ maxLines)%nat → l = Z.of_nat (maxLines - n) →
  ∃ total, write_to_loop out m n l = (map shown (drop (length H - n) H), total, None).
Proof.
  intros R G Hout. induction n as [|n IH]; intros l Hn Hl.
  { exists 0. rewrite Nat.sub_0_r, drop_ge by auto. done. }
  cbn [write_to_loop]. destruct (IH (l + 1)) as [total E]; [lia|lia|]. rewrite E.
  assert (slot (u32 (nextIndex m + l)) = ((length H + (maxLines - S n)) mod maxLines)%nat) as Hs.
  { rewrite (rep_next _ _ R). unfold u32. rewrite Zplus_mod_idemp_l. fold (u32 (Z.of_nat (length H) + l)).
    rewrite slot_u32 by lia. f_equal. lia. }
  destruct (lap_line H m n _ R G ltac:(lia) Hs) as [(e & He & Hle & Ge & ->)|(ln & -> & Ht & Hle)].
  - rewrite visible_entry by done. destruct (Hout (shown e)) as [k ->]. destruct e as [[t p] ts]. cbn [entry_line timeNs].
    rewrite (proj2 (Z.eqb_neq _ _)) by apply Ge. rewrite (drop_last_S _ _ _ He Hle). eauto.
  - rewrite Ht. cbn. replace (length H - S n)%nat with (length H - n)%nat by lia. eauto.
Qed.

(** ** Writing extends the history *)

Lemma write_line_lines i tag p ts m : (length tag ≤ maxTagLength)%nat →
  Forall (λ l, length (line l) = maxLogLineLength) (lines m) → (i < length (lines m))%nat →
  write_line i tag p ts m = mkMem (magic m) (nextIndex m) (<[i := mkLine ts (final_line tag p)]> (lines m)).
Proof.
  intros Ht Hb Hi. destruct (lookup_lt_is_Some_2 (lines m) i Hi) as [l Hl]. pose proof (Forall_lookup_1 _ _ _ _ Hb Hl) as Hll.
  unfold write_line, alter_line. cbn [magic nextIndex lines]. f_equal.
  apply list_eq. intros j. destruct (decide (j = i)) as [->|Hne].
  - rewrite !list_lookup_alter_eq, Hl, list_lookup_insert_eq by done. cbn [fmap option_fmap option_map]. unfold set_time, set_bytes. cbn [timeNs line]. do 2 f_equal. by apply stores_final.
  - by rewrite !list_lookup_alter_ne, list_lookup_insert_ne by done.
Qed.

Lemma final_line_length tag p : (length tag ≤ maxTagLength)%nat → length (final_line tag p) = maxLogLineLength.
Proof.
  intros Ht. pose proof (fit_length tag p Ht) as Hf. unfold final_line. rewrite length_app, repeat_length.
  cbn [length app]. rewrite length_app. cbn [length app]. unfold maxLogLineLength. lia.
Qed.

Lemma mod_lines_inj j n : (n ≤ j + maxLines)%nat → (j < n)%nat → (j mod maxLines = n mod maxLines)%nat → n = (j + maxLines)%nat.
Proof. unfold maxLines. intros H1 H2 E. apply (f_equal Z.of_nat) in E. rewrite !Nat2Z.inj_mod in E. mod_lia. Qed.

(** The counter gives the slots in their order, across its wrap-around. *)
Lemma take_index_slot (H : list entry) m index m' : take_index m = (index, m') → nextIndex m = u32 (Z.of_nat (length H)) →
  slot index = (length H mod maxLines)%nat ∧ lines m' = lines m ∧ nextIndex m' = u32 (Z.of_nat (S (length H))).
Proof.
  unfold take_index. intros [= <- <-] E. cbn [magic nextIndex lines]. rewrite E.
  assert (u32 (u32 (u32 (Z.of_nat (length H)) + 1) - 1) = u32 (Z.of_nat (length H))) as ->.
  { unfold u32. rewrite Zplus_mod_idemp_l, Zminus_mod_idemp_l. f_equal. lia. }
  split; [by rewrite slot_u32, Nat2Z.id by lia|]. split; [done|]. unfold u32. rewrite Zplus_mod_idemp_l. f_equal. lia.
Qed.

Lemma write_represents H m tag p ts index m' : Represents H m → (length tag ≤ maxTagLength)%nat → take_index m = (index, m') →
  Represents (H ++ [(tag, p, ts)]) (write_line (slot index) tag p ts m').
Proof.
  intros R Ht E. destruct (take_index_slot _ _ _ _ E (rep_next _ _ R)) as (Hs & Hlines & Hnext).
  pose proof (slot_lt index) as Hlt. pose proof (rep_length _ _ R) as Hlen.
  rewrite write_line_lines by (rewrite ?Hlines, ?Hlen; first [exact Ht|exact Hlt|apply (rep_bytes _ _ R)]). rewrite Hlines.
  split; cbn [magic nextIndex lines].
  - by rewrite length_insert.
  - apply Forall_insert; [apply (rep_bytes _ _ R)|by apply final_line_length].
  - rewrite Hnext, length_app. do 2 f_equal. cbn [length]. lia.
  - intros j e He Hj. rewrite length_app in Hj. cbn [length] in Hj.
    destruct (decide (j = length H)) as [->|Hne].
    + rewrite lookup_app_r, Nat.sub_diag in He by done. injection He as <-. rewrite Hs, list_lookup_insert_eq; [done|]. rewrite Hlen. apply Nat.mod_upper_bound. done.
    + assert (j < length H)%nat as Hjl. { apply lookup_lt_Some in He. rewrite length_app in He. cbn in He. lia. }
      rewrite lookup_app_l in He by done. rewrite list_lookup_insert_ne; [apply (rep_line _ _ R); [done|lia]|].
      rewrite Hs. intros Ej. symmetry in Ej. apply (mod_lines_inj j) in Ej; lia.
  - intros i Hi. rewrite length_app in Hi. cbn [length] in Hi. rewrite list_lookup_insert_ne; [apply (rep_unused _ _ R); lia|].
    rewrite Hs, Nat.mod_small; lia.
Qed.

Lemma zero_represents : Represents [] (mkMem log_magic 0 (lines zeroMem)).
Proof.
  split; cbn [lines nextIndex zeroMem].
  - apply repeat_length.
  - rewrite repeat_replicate. apply Forall_replicate. cbn [line zeroLine]. apply repeat_length.
  - done.
  - intros j e He. by rewrite lookup_nil in He.
  - intros i [_ Hi]. exists zeroLine. rewrite repeat_replicate. split; [by apply lookup_replicate_2|done].
Qed.

(** ** Whole writes *)

(** The entry a write makes: a blank text makes none. *)
Definition batch_entry (tag : gostring) (x : gostring * Z) : option entry :=
  match TrimSpace (fst x) with [] => None | p => Some (tag, p, snd x) end.

Definition writable_log (rl : Ringlogger) (H : list entry) : Prop :=
  readOnly rl = false ∧ (length (tag rl) ≤ maxTagLength)%nat ∧ has_byte (tag rl) x00 = false ∧
  (∃ m, log rl = Some m ∧ Represents H m) ∧ Forall good_entry H.

Definition good_write (x : gostring * Z) : Prop := has_byte (fst x) x00 = false ∧ snd x ≠ 0.

Lemma write_extends rl H x : writable_log rl H → good_write x →
  writable_log (fst (WriteWithTimestamp (fst x) (snd x) rl)) (H ++ option_list (batch_entry (tag rl) x))
  ∧ tag (fst (WriteWithTimestamp (fst x) (snd x) rl)) = tag rl.
Proof.
  intros (Hr & Ht & Hn & (m & Hm & R) & G) (Hx & Hts). unfold WriteWithTimestamp, batch_entry. rewrite Hr, Hm.
  pose proof (TrimSpace_has_byte _ _ Hx) as Hp. destruct (TrimSpace (fst x)) as [|b p].
  - cbn. rewrite app_nil_r. split; [|done]. split_and!; eauto.
  - destruct (take_index m) as [index m'] eqn:E. cbn [fst tag option_list]. split; [|done].
    split_and!; [done|done|done| |].
    + eexists. split; [done|]. by eapply write_represents.
    + apply Forall_app. split; [done|]. apply Forall_singleton. done.
Qed.

Lemma print_all out items : (∀ x, ∃ k, out x = inl k) → print_items out items = (items, None).
Proof. intros Hout. induction items as [|x items IH]; [done|]. cbn. destruct (Hout x) as [k ->]. by rewrite IH. Qed.

(** The cursor of a reader that has seen the whole history. *)
Definition cursor_at (H : list entry) (cursor : Z) : Prop :=
  match H with [] => cursor = CursorAll | _ => cursor = Z.of_nat (length H) mod Z.of_nat maxLines end.

Lemma cursor_not_all z : (z mod Z.of_nat maxLines =? CursorAll) = false.
Proof. apply Z.eqb_neq. unfold CursorAll, maxLines. mod_lia. Qed.

(** Writing out a log gives the last 2048 lines, whatever the counter has
    wrapped to, and a writer that fails stops it. *)
Theorem WriteTo_last_lines out rl H : writable_log rl H → (∀ x, ∃ k, out x = inl k) →
  ∃ total, WriteTo out rl = (map shown (drop (length H - maxLines) H), total, None).
Proof.
  intros (_ & _ & _ & (m & Hm & R) & G) Hout. unfold WriteTo. rewrite Hm. eapply write_all; [done|done|done|done|].
  by rewrite Nat.sub_diag.
Qed.

Lemma follow_stops m n i c : slot i = slot (nextIndex m) → follow_loop m false n i c = ([], c).
Proof. intros E. destruct n as [|n]; [done|]. cbn [follow_loop negb andb]. by rewrite (proj2 (Nat.eqb_eq _ _)). Qed.

(** A reader that misses exactly 2048 lines is shown none of them. *)
Theorem follow_misses_full_lap rl H new : writable_log rl (H ++ new) → H ≠ [] → length new = maxLines →
  ∀ cursor, cursor_at H cursor → FollowFromCursor cursor rl = ([], cursor).
Proof.
  intros (_ & _ & _ & (m & Hm & R) & G) HH Hn cursor Hc. destruct H as [|e H]; [done|].
  assert (cursor = Z.of_nat (length (e :: H)) mod Z.of_nat maxLines) as -> by exact Hc.
  unfold FollowFromCursor. rewrite Hm, cursor_not_all. apply follow_stops. rewrite (rep_next _ _ R).
  unfold slot. rewrite u32_lines, Z.mod_mod, length_app, Hn, Nat2Z.inj_add by (unfold maxLines; lia).
  f_equal. symmetry. rewrite <- (Z.mul_1_l (Z.of_nat maxLines)) at 1. apply Z.mod_add. unfold maxLines; lia.
Qed.

(** ** What the memory holds while writers run *)

Definition in_flight (s : shared) (j : nat) : Prop := ∃ w, w ∈ writers s ∧ w_pos w = j.

(** The line a writer writes. *)
Definition w_entry (w : writer) : entry := (w_tag w, w_text w, w_time w).

(** A writer's line is one of the last lap; once its time is cleared, the stores
    still to come complete it. *)
Definition writer_ok (m : logMem) (H : list entry) (w : writer) : Prop :=
  H !! w_pos w = Some (w_entry w) ∧ w_slot w = (w_pos w mod maxLines)%nat ∧
  (length H ≤ w_pos w + maxLines)%nat ∧ (length (w_tag w) ≤ maxTagLength)%nat ∧
  match w_phase w with
  | Reserved => (w_pos w < maxLines)%nat → ∃ l, lines m !! w_slot w = Some l ∧ timeNs l = 0
  | Storing todo => ∃ l, lines m !! w_slot w = Some l ∧ timeNs l = 0 ∧ fold_left store todo (line l) = final_line (w_tag w) (w_text w)
  end.

Record shared_ok (s : shared) : Prop := {
  so_length : length (lines (mem s)) = maxLines;
  so_bytes : Forall (λ l, length (line l) = maxLogLineLength) (lines (mem s));
  so_next : nextIndex (mem s) = u32 (Z.of_nat (length (taken s)));
  so_writers : Forall (writer_ok (mem s) (taken s)) (writers s);
  so_slots : NoDup (map w_slot (writers s));
  so_published : ∀ j e, taken s !! j = Some e → (length (taken s) ≤ j + maxLines)%nat → ¬ in_flight s j →
    lines (mem s) !! (j mod maxLines)%nat = Some (entry_line e);
  so_unused : ∀ i, (length (taken s) ≤ i < maxLines)%nat → ∃ l, lines (mem s) !! i = Some l ∧ timeNs l = 0 }.

Lemma lap_slot_inj j q n : (j < n)%nat → (q < n)%nat → (n ≤ j + maxLines)%nat → (n ≤ q + maxLines)%nat →
  (j mod maxLines = q mod maxLines)%nat → j = q.
Proof.
  intros Hj Hq Hlj Hlq E. destruct (lt_eq_lt_dec j q) as [[Hl| ->]|Hl]; [|done|].
  - apply (mod_lines_inj j q) in E; lia.
  - symmetry in E. apply (mod_lines_inj q j) in E; lia.
Qed.

Lemma lap_mod j : ((j + maxLines) mod maxLines = j mod maxLines)%nat.
Proof. rewrite <- (Nat.mul_1_l maxLines) at 1. apply Nat.Div0.mod_add. Qed.

Lemma lines_alter_eq i f m l : lines m !! i = Some l → lines (alter_line i f m) !! i = Some (f l).
Proof. intros Hl. unfold alter_line. cbn [lines]. by rewrite list_lookup_alter_eq, Hl. Qed.

Lemma lines_alter_ne i j f m : j ≠ i → lines (alter_line i f m) !! j = lines m !! j.
Proof. intros Hne. unfold alter_line. cbn [lines]. by rewrite list_lookup_alter_ne. Qed.

Lemma writer_ok_other m H i f w : w_slot w ≠ i → writer_ok m H w → writer_ok (alter_line i f m) H w.
Proof.
  intros Hne (He & Hs & Hl & Ht & Hp). split_and!; [done..|]. destruct (w_phase w); by rewrite lines_alter_ne.
Qed.

Lemma slots_split ws1 ws2 (w : writer) : NoDup (map w_slot (ws1 ++ w :: ws2)) →
  Forall (λ x, w_slot x ≠ w_slot w) (ws1 ++ ws2) ∧ NoDup (map w_slot (ws1 ++ ws2)).
Proof.
  intros Hnd. rewrite <- (Permutation_middle ws1 ws2 w) in Hnd.
  cbn [map] in Hnd. apply NoDup_cons in Hnd as [Hn Hnd]. split; [|done]. apply Forall_forall. intros x Hx E. apply Hn. rewrite <- E. by apply list_elem_of_fmap_2.
Qed.

(** A step of one writer that changes only its line: the other writers, the lines
    already written and the unused slots stay as they were. *)
Lemma line_step m ws1 ws2 H w f ws' :
  shared_ok (mkShared m (ws1 ++ w :: ws2) H) →
  (∀ l, length (line l) = maxLogLineLength → length (line (f l)) = maxLogLineLength) →
  (ws' = [] ∧ (∀ l, lines m !! w_slot w = Some l → f l = entry_line (w_entry w)) ∨
   ∃ w', ws' = [w'] ∧ w_slot w' = w_slot w ∧ w_pos w' = w_pos w ∧ writer_ok (alter_line (w_slot w) f m) H w') →
  shared_ok (mkShared (alter_line (w_slot w) f m) (ws1 ++ ws' ++ ws2) H).
Proof.
  intros [L B X W N P U] Hf Hw'. cbn [mem writers taken] in *. apply slots_split in N as [Hne Hnd].
  rewrite <- Permutation_middle in W. apply Forall_cons in W as [Hw W]. pose proof Hw as (He & Hs & Hlap & Ht & _).
  pose proof (lookup_lt_Some _ _ _ He) as Hq.
  destruct (lookup_lt_is_Some_2 (lines m) (w_slot w)) as [l Hl]; [rewrite L, Hs; by apply Nat.mod_upper_bound|].
  assert (Forall (writer_ok (alter_line (w_slot w) f m) H) (ws1 ++ ws2)) as W'.
  { apply Forall_forall. intros x Hx. apply writer_ok_other; [exact (proj1 (Forall_forall _ _) Hne x Hx)|exact (proj1 (Forall_forall _ _) W x Hx)]. }
  assert (∀ j, ¬ in_flight (mkShared (alter_line (w_slot w) f m) (ws1 ++ ws' ++ ws2) H) j → j ≠ w_pos w → ¬ in_flight (mkShared m (ws1 ++ w :: ws2) H) j) as Hfl.
  { intros j Hj Hjq (x & Hx & Ex). apply Hj. cbn [writers] in Hx. exists x. split; [|done]. cbn [writers].
    rewrite elem_of_app, elem_of_cons in Hx. rewrite !elem_of_app. destruct Hx as [?|[->|?]]; [tauto|congruence|tauto]. }
  split; cbn [mem writers taken].
  - unfold alter_line; cbn [lines]. by rewrite length_alter.
  - unfold alter_line; cbn [lines]. apply Forall_alter; [done|]. intros l' _. apply Hf.
  - exact X.
  - destruct Hw' as [[-> _]|(w' & -> & _ & _ & Hw')]; [exact W'|]. cbn [app]. rewrite <- Permutation_middle. by constructor.
  - destruct Hw' as [[-> _]|(w' & -> & Es & _ & _)]; [exact Hnd|]. cbn [app]. rewrite <- Permutation_middle. cbn [map].
    constructor; [|done]. rewrite Es. intros (x & Ex & Hx)%list_elem_of_fmap. by apply (proj1 (Forall_forall _ _) Hne x Hx).
  - intros j e Hj Hjl Hnf. destruct (decide (j = w_pos w)) as [->|Hjq].
    + rewrite He in Hj. injection Hj as <-. destruct Hw' as [[-> Hpub]|(w' & -> & _ & Eq & _)].
      * rewrite <- Hs, (lines_alter_eq _ _ _ l Hl). f_equal. by apply Hpub.
      * destruct Hnf. exists w'. cbn [writers]. rewrite elem_of_app. cbn [app]. rewrite elem_of_cons. tauto.
    + rewrite lines_alter_ne; [by apply P; auto|]. rewrite Hs. intros E. apply Hjq. eapply lap_slot_inj; [| |exact Hjl|exact Hlap|exact E]; [|done].
      by eapply lookup_lt_Some.
  - intros i Hi. rewrite lines_alter_ne; [by apply U|]. rewrite Hs, Nat.mod_small by lia. lia.
Qed.

Lemma writer_step_ok s s' : writer_step s s' → shared_ok s → shared_ok s'.
Proof.
  destruct 1 as [m ws H tag p ts Hfree Ht Hp | m ws1 ws2 H q i tag p ts | m ws1 ws2 H q i tag p ts x todo | m ws1 ws2 H q i tag p ts]; intros OK.
  - destruct OK as [L B X W N P U]. cbn [mem writers taken] in *.
    destruct (take_index_slot H m _ _ eq_refl X) as (Hs & Hlines & Hnext). split; cbn [mem writers taken]; rewrite ?Hlines; try done.
    + rewrite Hnext, length_app. do 2 f_equal. cbn [length]. lia.
    + apply Forall_app. split.
      * apply Forall_forall. intros w Hw. destruct (proj1 (Forall_forall _ _) W w Hw) as (He & Hsw & Hl & Htw & Hph). pose proof (lookup_lt_Some _ _ _ He).
        unfold writer_ok. rewrite Hlines, length_app, (lookup_app_l H) by done. split_and!; try done. cbn [length].
        destruct (decide (length H = w_pos w + maxLines)%nat) as [El|]; [|lia]. destruct Hfree. apply list_elem_of_fmap. exists w. split; [|done].
        rewrite Hs, El, Hsw, lap_mod. done.
      * apply Forall_singleton. unfold writer_ok. cbn [w_pos w_slot w_tag w_text w_time w_phase]. rewrite Hlines, Hs, length_app.
        split_and!; [by rewrite lookup_app_r, Nat.sub_diag|done|cbn [length]; unfold maxLines; lia|done|].
        intros Hsm. rewrite Nat.mod_small by done. apply U. lia.
    + rewrite map_app. apply NoDup_app. split_and!; [done| |apply NoDup_singleton].
      intros y Hy Ey. apply list_elem_of_singleton in Ey. subst y. by apply Hfree.
    + intros j e He Hj Hnf. rewrite length_app in Hj. cbn [length] in Hj. destruct (decide (j < length H)%nat) as [Hlt|Hge].
      * rewrite lookup_app_l in He by done. apply P; [done|lia|]. intros (w & Hw & Ew). apply Hnf. exists w. cbn [writers]. rewrite elem_of_app. tauto.
      * destruct Hnf. eexists. cbn [writers]. rewrite elem_of_app, list_elem_of_singleton. split; [by right|]. cbn [w_pos].
        apply lookup_lt_Some in He. rewrite length_app in He. cbn in He. lia.
    + intros j Hj. apply U. rewrite length_app in Hj. lia.
  - set (w := mkWriter q i tag p ts Reserved) in *. change i with (w_slot w). apply (line_step m ws1 ws2 H w (set_time 0) [_]); [done|done|]. right.
    eexists. split; [reflexivity|]. split; [done|]. split; [done|].
    destruct OK as [L B X W N P U]. cbn [mem writers taken] in *. rewrite <- Permutation_middle in W. apply Forall_cons in W as [(He & Hs & Hl & Ht & _) _].
    destruct (lookup_lt_is_Some_2 (lines m) (w_slot w)) as [l Hl0]; [rewrite L, Hs; by apply Nat.mod_upper_bound|].
    split_and!; [done..|]. cbn [w_phase w_slot w_tag w_text]. exists (set_time 0 l). split; [by apply (lines_alter_eq i)|]. split; [done|].
    apply stores_final; [done|]. by apply (Forall_lookup_1 _ _ _ _ B Hl0).
  - set (w := mkWriter q i tag p ts (Storing (x :: todo))) in *. change i with (w_slot w). apply (line_step m ws1 ws2 H w (set_bytes (λ c, store c x)) [_]); [done| |].
    { intros l Hl. cbn. unfold store. by rewrite length_insert. }
    right. eexists. split; [reflexivity|]. split; [done|]. split; [done|].
    destruct OK as [L B X W N P U]. cbn [mem writers taken] in *. rewrite <- Permutation_middle in W. apply Forall_cons in W as [(He & Hs & Hl & Ht & l & Hl0 & Hz & Hf) _].
    split_and!; [done..|]. cbn [w_phase w_slot w_tag w_text]. exists (set_bytes (λ c, store c x) l). split; [by apply (lines_alter_eq i)|]. done.
  - set (w := mkWriter q i tag p ts (Storing [])) in *. change i with (w_slot w). apply (line_step m ws1 ws2 H w (set_time ts) []); [done|done|]. left. split; [done|].
    destruct OK as [L B X W N P U]. cbn [mem writers taken] in *. rewrite <- Permutation_middle in W. apply Forall_cons in W as [(He & Hs & Hl & Ht & l & Hl0 & Hz & Hf) _].
    intros l' Hl'. cbn [w_slot] in *. assert (l' = l) as -> by congruence. unfold entry_line, w_entry, set_time. cbn [w_tag w_text w_time]. f_equal. exact Hf.
Qed.

Lemma new_shared_ok : shared_ok new_shared.
Proof.
  destruct zero_represents as [L B X _ U]. split; cbn [mem writers taken new_shared]; try done; constructor.
Qed.

(** A file that is no log yet becomes an empty one. *)
Lemma NewRinglogger_new calls tag0 r rl : NewRinglogger calls tag0 = (r, Ret rl) → (∀ m, map_view calls = inl m → magic m ≠ log_magic) →
  log rl = Some (mem new_shared) ∧ tag rl = tag0 ∧ readOnly rl = false ∧ (length tag0 ≤ maxTagLength)%nat.
Proof.
  intros E Hm. unfold NewRinglogger, finish_new, newRingloggerFromMappingHandle in E. destruct (Nat.ltb_spec maxTagLength (length tag0)); [done|].
  destruct (open_file calls), (truncate_file calls), (create_mapping calls) as [e|]; try done; [destruct (is_already_exists e); [|done]|].
  all: destruct (map_view calls) as [v|]; [|done]; rewrite (proj2 (Z.eqb_neq _ _)) in E by (by apply Hm); injection E as <- <-; done.
Qed.

Lemma steps_ok s s' : rtc writer_step s s' → shared_ok s → shared_ok s'.
Proof. induction 1 as [|s1 s2 s3 Hst _ IH]; [done|]. intros OK. apply IH. by eapply writer_step_ok. Qed.

(** Lines are only ever added, and a writer under way later on was under way
    before, if its line had been taken. *)
Lemma step_back s s' : writer_step s s' → taken s `prefix_of` taken s' ∧
  ∀ w', w' ∈ writers s' → (w_pos w' < length (taken s))%nat →
    ∃ w, w ∈ writers s ∧ w_pos w = w_pos w' ∧ (w_phase w' = Reserved → w_phase w = Reserved).
Proof.
  destruct 1 as [m ws H tag p ts Hfree Ht Hp | m ws1 ws2 H q i tag p ts | m ws1 ws2 H q i tag p ts x todo | m ws1 ws2 H q i tag p ts];
    cbn [writers taken]; (split; [by try apply prefix_app_r|]); intros w' Hw' Hq.
  - apply elem_of_app in Hw' as [Hw'|Hw']; [by exists w'|]. apply list_elem_of_singleton in Hw' as ->. cbn in Hq. lia.
  - apply elem_of_app in Hw' as [Hw'|[->|Hw']%elem_of_cons]; [exists w'| |exists w']; rewrite ?elem_of_app, ?elem_of_cons; [tauto| |tauto].
    eexists. rewrite elem_of_app, elem_of_cons. split; [right; left; reflexivity|]. done.
  - apply elem_of_app in Hw' as [Hw'|[->|Hw']%elem_of_cons]; [exists w'| |exists w']; rewrite ?elem_of_app, ?elem_of_cons; [tauto| |tauto].
    eexists. rewrite elem_of_app, elem_of_cons. split; [right; left; reflexivity|]. done.
  - exists w'. rewrite elem_of_app in *. rewrite elem_of_cons. tauto.
Qed.

Lemma steps_back s s' : rtc writer_step s s' → taken s `prefix_of` taken s' ∧
  ∀ w', w' ∈ writers s' → (w_pos w' < length (taken s))%nat →
    ∃ w, w ∈ writers s ∧ w_pos w = w_pos w' ∧ (w_phase w' = Reserved → w_phase w = Reserved).
Proof.
  induction 1 as [s|s1 s2 s3 Hst Hr [IH1 IH2]]; [split; [done|]; intros w Hw _; by exists w|].
  destruct (step_back _ _ Hst) as [Hp Hb]. split; [by etrans|]. intros w' Hw' Hq.
  destruct (IH2 w' Hw') as (w & Hw & Ew & Hph); [apply prefix_length in Hp; lia|].
  destruct (Hb w Hw) as (w0 & Hw0 & E0 & Hph0); [by rewrite Ew|]. exists w0. split_and!; [done|congruence|auto].
Qed.

Lemma done_stays s s' j : rtc writer_step s s' → (j < length (taken s))%nat → ¬ in_flight s j → ¬ in_flight s' j.
Proof.
  intros Hr Hj Hn (w' & Hw' & Ew). destruct (proj2 (steps_back _ _ Hr) w' Hw') as (w & Hw & E & _); [by rewrite Ew|].
  apply Hn. exists w. split; [done|congruence].
Qed.

(** A finished line is not touched again within a lap. *)
Lemma line_stays s s' j e : rtc writer_step s s' → shared_ok s → taken s !! j = Some e → ¬ in_flight s j →
  (length (taken s') ≤ j + maxLines)%nat → lines (mem s') !! (j mod maxLines)%nat = Some (entry_line e).
Proof.
  intros Hr OK He Hn Hl. apply so_published; [by eapply steps_ok| |done|].
  - by eapply prefix_lookup_Some, steps_back.
  - eapply done_stays; [done|by eapply lookup_lt_Some|done].
Qed.

(** ** What a copy holds *)

Lemma copying_steps ls d s d' s' : copying ls d s d' s' → rtc writer_step s s'.
Proof. induction 1; [done|by eapply rtc_l|done]. Qed.

Lemma copying_head l ls d s d' s' : copying (l :: ls) d s d' s' → ∃ s1, rtc writer_step s s1 ∧ copying ls (read_loc l (mem s1) d) s1 d' s'.
Proof.
  intros Hc. remember (l :: ls) as ks eqn:E. induction Hc as [d s|ks d s s1 d' s' Hst _ IH|k ks d s d' s' Hc _]; [done| |].
  - destruct (IH E) as (s2 & R & Hc). exists s2. split; [by eapply rtc_l|done].
  - injection E as -> ->. by exists s.
Qed.

Lemma copying_app a : ∀ b d s d' s', copying (a ++ b) d s d' s' → ∃ d1 s1, copying a d s d1 s1 ∧ copying b d1 s1 d' s'.
Proof.
  intros b d s d' s' Hc. remember (a ++ b) as ls eqn:E. revert a E. induction Hc as [d s|ls d s s1 d' s' Hst _ IH|l ls d s d' s' Hc IH]; intros a E.
  - symmetry in E. apply app_eq_nil in E as [-> ->]. exists d, s. split; constructor.
  - destruct (IH a E) as (d1 & s2 & Ha & Hb). exists d1, s2. split; [by eapply copy_write|done].
  - destruct a as [|l' a]; [cbn in E; subst b; exists d, s; split; [constructor|by constructor]|]. injection E as <- ->.
    destruct (IH a eq_refl) as (d1 & s2 & Ha & Hb). exists d1, s2. split; [by constructor|done].
Qed.

Definition loc_line (l : loc) : nat := match l with LTime i | LByte i _ => i end.

Lemma copying_frame ls d s d' s' : copying ls d s d' s' →
  nextIndex d' = nextIndex d ∧ ∀ i, Forall (λ l, loc_line l ≠ i) ls → lines d' !! i = lines d !! i.
Proof.
  induction 1 as [d s|ls d s s1 d' s' _ _ IH|l ls d s d' s' _ [IH1 IH2]]; [done|done|]. split; [rewrite IH1; by destruct l|].
  intros i [Hl Hls]%Forall_cons. rewrite IH2 by done. destruct l; cbn [read_loc loc_line] in *; by rewrite lines_alter_ne by congruence.
Qed.

(** The bytes of a line that does not change while they are copied. *)
Lemma copying_bytes i L n : ∀ k d s d' s' ld, copying (map (LByte i) (seq k n)) d s d' s' → lines d !! i = Some ld →
  length (line ld) = (k + n)%nat → length L = (k + n)%nat → take k (line ld) = take k L →
  (∀ sx, rtc writer_step s sx → rtc writer_step sx s' → line (line_at (mem sx) i) = L) →
  lines d' !! i = Some (mkLine (timeNs ld) L).
Proof.
  induction n as [|n IH]; intros k d s d' s' ld Hc Hd Hld HL Hk Hst.
  - destruct (copying_frame _ _ _ _ _ Hc) as [_ Hf]. rewrite (Hf i) by constructor. rewrite Hd. f_equal. destruct ld as [ts b]. cbn in *. f_equal.
    rewrite !take_ge in Hk by lia. done.
  - cbn [seq map] in Hc. remember (LByte i k :: map (LByte i) (seq (S k) n)) as ls eqn:E.
    induction Hc as [d s|ls d s s1 d' s' Hw Hc IHc|l ls d s d' s' Hc IHc]; [done| |].
    + apply IHc; try done. intros sx H1 H2. apply Hst; [by eapply rtc_l|done].
    + injection E as -> ->. pose proof (Hst s (rtc_refl _ _) (copying_steps _ _ _ _ _ Hc)) as Hs.
      assert (take (S k) (<[k := nth k L x00]> (line ld)) = take (S k) L) as Ht.
      { apply list_eq. intros j. destruct (decide (j < S k)%nat) as [Hj|Hj]; [|by rewrite !lookup_take_ge by lia].
        rewrite !lookup_take_lt by done. destruct (decide (j = k)) as [->|Hne].
        - rewrite list_lookup_insert_eq by lia. destruct (lookup_lt_is_Some_2 L k) as [b Hb]; [lia|]. rewrite Hb. f_equal.
          by apply nth_lookup_Some.
        - rewrite list_lookup_insert_ne by done. apply (f_equal (lookup j)) in Hk. by rewrite !lookup_take_lt in Hk by lia. }
      cbn [read_loc] in Hc. rewrite Hs in Hc. specialize (IH (S k) _ _ _ _ _ Hc (lines_alter_eq _ _ _ _ Hd)). cbn [set_bytes line timeNs] in IH.
      apply IH; [unfold store; rewrite length_insert; cbn [fst]; lia|lia|exact Ht|done].
Qed.

Lemma line_locs_other i j : i ≠ j → Forall (λ l, loc_line l ≠ i) (line_locs j).
Proof. intros Hne. unfold line_locs. constructor; [cbn; congruence|]. apply Forall_map, Forall_true. intros n. cbn. congruence. Qed.

(** The locations of one line are read one after the other. *)
Lemma copied_line s d s' i : copied s d s' → (i < maxLines)%nat →
  nextIndex d = nextIndex (mem s) ∧
  ∃ s1 s2 d1, rtc writer_step s s1 ∧ rtc writer_step s1 s2 ∧ rtc writer_step s2 s' ∧
    ∃ ld, lines d1 !! i = Some (mkLine (timeNs (line_at (mem s1) i)) ld) ∧ length ld = maxLogLineLength ∧
    ∃ d2, copying (map (LByte i) (seq 0 maxLogLineLength)) d1 s1 d2 s2 ∧ lines d2 !! i = lines d !! i.
Proof.
  intros Hc Hi. split; [by apply (copying_frame _ _ _ _ _ Hc)|]. unfold copied, all_locs in Hc.
  assert (seq 0 maxLines = seq 0 i ++ i :: seq (S i) (maxLines - S i)) as E.
  { replace maxLines with (i + S (maxLines - S i))%nat at 1 by lia. rewrite seq_app. done. }
  rewrite E, flat_map_app in Hc. cbn [flat_map] in Hc.
  apply copying_app in Hc as (da & sa & Ha & Hc). apply copying_app in Hc as (db & sb & Hm & Hb).
  assert (∀ k n, (i < k ∨ k + n ≤ i)%nat → Forall (λ l, loc_line l ≠ i) (flat_map line_locs (seq k n))) as Hother.
  { intros k n Hkn. apply Forall_flat_map, Forall_forall. intros j [Hj1 Hj2]%elem_of_seq. apply line_locs_other. lia. }
  destruct (copying_frame _ _ _ _ _ Ha) as [_ Hfa]. specialize (Hfa i (Hother 0%nat i ltac:(lia))). cbn [lines] in Hfa.
  destruct (copying_frame _ _ _ _ _ Hb) as [_ Hfb]. specialize (Hfb i (Hother (S i) _ ltac:(lia))).
  assert (lines da !! i = Some zeroLine) as Hda by (rewrite Hfa; unfold zeroMem; cbn [lines]; rewrite repeat_replicate; by apply lookup_replicate_2).
  pose proof (copying_steps _ _ _ _ _ Ha) as Ra. pose proof (copying_steps _ _ _ _ _ Hb) as Rb.
  apply copying_head in Hm as (s1 & R1 & Hm). cbn [read_loc] in Hm. exists s1, sb, (alter_line i (set_time (timeNs (line_at (mem s1) i))) da). split; [by etrans|]. split; [by eapply copying_steps|]. split; [done|].
  exists (line zeroLine). split; [by rewrite (lines_alter_eq _ _ _ _ Hda)|]. split; [apply repeat_length|]. by exists db.
Qed.

Lemma in_flight_dec s j : in_flight s j ∨ ¬ in_flight s j.
Proof.
  destruct (decide (Exists (λ w, w_pos w = j) (writers s))) as [E|E]; [left|right; intros (w & Hw & Ew); apply E]; rewrite Exists_exists in *; [exact E|by exists w].
Qed.

Lemma copying_time i ns d s d' s' l : copying (map (LByte i) ns) d s d' s' → lines d !! i = Some l →
  ∃ l', lines d' !! i = Some l' ∧ timeNs l' = timeNs l.
Proof.
  intros Hc. remember (map (LByte i) ns) as ls eqn:E. revert ns E l.
  induction Hc as [d s|ls d s s1 d' s' _ _ IH|k ls d s d' s' _ IH]; intros ns E l Hl; [by exists l|by eapply IH|].
  destruct ns as [|n ns]; [done|]. injection E as -> ->. destruct (IH ns eq_refl _ (lines_alter_eq _ _ _ _ Hl)) as (l' & Hl' & Ht). by exists l'.
Qed.

(** Each line of the last lap is copied as a whole, or seen to be in flight. *)
Lemma copied_entry s d s' j e : shared_ok s → copied s d s' → cleared s → taken s !! j = Some e → (length (taken s') ≤ j + maxLines)%nat →
  (lines d !! (j mod maxLines)%nat = Some (entry_line e) ∧ ¬ in_flight s' j) ∨
  (in_flight s j ∧ ∃ l, lines d !! (j mod maxLines)%nat = Some l ∧ timeNs l = 0).
Proof.
  intros OK Hc Hcl He Hlap. pose proof (lookup_lt_Some _ _ _ He) as Hj. set (i := (j mod maxLines)%nat).
  assert (i < maxLines)%nat as Hi by (by apply Nat.mod_upper_bound).
  destruct (copied_line _ _ _ i Hc Hi) as (_ & s1 & s2 & d1 & R1 & R2 & R3 & ld & Hd1 & Hld & d2 & Hb & Ed). rewrite <- Ed.
  pose proof (steps_ok _ _ R1 OK) as OK1. pose proof (steps_back _ _ R1) as [Hp1 Hback].
  pose proof (proj1 (steps_back _ _ R2)) as Hp2. pose proof (proj1 (steps_back _ _ R3)) as Hp3. apply prefix_length in Hp2, Hp3.
  assert (taken s1 !! j = Some e) as He1 by by eapply prefix_lookup_Some.
  destruct (in_flight_dec s1 j) as [(w & Hw & Ew)|Hn]; [right|left].
  - destruct (Hback w Hw) as (w0 & Hw0 & E0 & Hph); [by rewrite Ew|]. split; [exists w0; split; [done|congruence]|].
    destruct (copying_time _ _ _ _ _ _ _ Hb Hd1) as (l & Hl & Ht). exists l. split; [exact Hl|]. rewrite Ht. cbn [timeNs].
    pose proof (proj1 (Forall_forall _ _) (so_writers _ OK1) w Hw) as (_ & Hs & _ & _ & Hw').
    assert (∃ l, lines (mem s1) !! i = Some l ∧ timeNs l = 0) as (l1 & Hl1 & Ht1); [|unfold line_at; by rewrite Hl1].
    rewrite Ew in Hs. fold i in Hs. rewrite Hs in Hw'. destruct (w_phase w) eqn:Eph.
    + apply Hw'. rewrite <- E0. by apply Hcl, Hph.
    + destruct Hw' as (l1 & ? & ? & _). by exists l1.
  - assert (∀ sx, rtc writer_step s1 sx → rtc writer_step sx s2 → lines (mem sx) !! i = Some (entry_line e)) as Hst.
    { intros sx Ra Rb. eapply line_stays; [exact Ra|done|done|done|]. pose proof (prefix_length _ _ (proj1 (steps_back _ _ Rb))). lia. }
    split; [|apply (done_stays s1 s2 j) in Hn; [eapply (done_stays s2 s' j); [exact R3| |exact Hn]|exact R2|]; apply prefix_length in Hp1; lia].
    destruct e as [[t p] ts]. pose proof (Hst s1 (rtc_refl _ _) R2) as Hs1. unfold line_at in Hd1. rewrite Hs1 in Hd1. cbn [default timeNs entry_line] in Hd1.
    rewrite (copying_bytes i (final_line t p) maxLogLineLength 0 _ _ _ _ _ Hb Hd1); [done|done| |done|].
    + pose proof (Forall_lookup_1 _ _ _ _ (so_bytes _ OK1) Hs1) as Hbl. exact Hbl.
    + intros sx Ra Rb. unfold line_at. by rewrite (Hst sx Ra Rb).
Qed.

(** ** Following while writers run *)

Lemma follow_copied s d s' : shared_ok s → copied s d s' → cleared s → Forall good_entry (taken s) → ∀ n k i c,
  (k ≤ length (taken s))%nat → (length (taken s') < k + maxLines)%nat → (length (taken s) ≤ k + n)%nat → slot i = (k mod maxLines)%nat →
  ∃ k', (k ≤ k' ≤ length (taken s))%nat ∧ (k' = length (taken s) ∨ in_flight s k') ∧ (∀ j, (k ≤ j < k')%nat → ¬ in_flight s' j) ∧
    follow_loop d false n i c = (map shown (drop k (take k' (taken s))), if decide (k' = k) then c else Z.of_nat k' mod Z.of_nat maxLines).
Proof.
  intros OK Hc Hcl G. assert (nextIndex d = u32 (Z.of_nat (length (taken s)))) as Hnext.
  { rewrite <- (so_next _ OK). apply (copying_frame _ _ _ _ _ Hc). }
  assert (length (taken s) ≤ length (taken s'))%nat as Hmono by (apply prefix_length, steps_back; by eapply copying_steps).
  induction n as [|n IH]; intros k i c Hk Hlap Hn Hi.
  - assert (k = length (taken s)) as -> by lia. exists (length (taken s)). split_and!; [lia|lia|by left|intros j ?; lia|].
    rewrite drop_ge, decide_True by (rewrite ?length_take; lia || done). done.
  - assert (∀ l, ([] : list (gostring * Z), l) = (map shown (drop k (take k (taken s))), if decide (k = k) then l else Z.of_nat k mod Z.of_nat maxLines)) as Hstop.
    { intros l. rewrite drop_ge, decide_True by (rewrite ?length_take; lia || done). done. }
    cbn [follow_loop negb andb]. rewrite Hnext, slot_u32, Nat2Z.id, Hi by lia. destruct (decide (k = length (taken s))) as [->|Hne].
    { rewrite Nat.eqb_refl. eexists. split_and!; [| |by left| |apply Hstop]; [lia..|intros j ?; lia]. }
    rewrite (proj2 (Nat.eqb_neq _ _)). 2: { intros E. apply (mod_lines_inj k) in E; lia. }
    destruct (lookup_lt_is_Some_2 (taken s) k) as [e He]; [lia|].
    destruct (copied_entry s d s' k e OK Hc Hcl He ltac:(lia)) as [[-> Hdone]|(Hfl & l & -> & Ht)].
    + pose proof (Forall_lookup_1 _ _ _ _ G He) as Ge. rewrite visible_entry by done. destruct e as [[t p] ts]. cbn [entry_line timeNs].
      rewrite (proj2 (Z.eqb_neq _ _)) by apply Ge.
      destruct (IH (S k) (u32 (i + 1)) (u32 (i + 1) mod Z.of_nat maxLines)) as (k' & Hk' & Hend & Hfl & ->); [lia|lia|lia|by apply slot_mod|].
      exists k'. split_and!; [lia|lia|done|intros j Hj; destruct (decide (j = k)) as [->|]; [done|apply Hfl; lia]|].
      rewrite (drop_S (take k' _) (t, p, ts) k) by (rewrite lookup_take_lt by lia; exact He). cbn [map]. rewrite (decide_False (P := k' = k)) by lia. f_equal.
      destruct (decide (k' = S k)) as [->|]; [|done]. apply slot_mod in Hi. unfold slot in Hi. apply (f_equal Z.of_nat) in Hi.
      rewrite Z2Nat.id, Nat2Z.inj_mod in Hi by (unfold maxLines; mod_lia). exact Hi.
    + rewrite Ht. exists k. split_and!; [lia|lia|by right|intros j ?; lia|apply Hstop].
Qed.

Lemma first_in_flight_le s k : k = length (taken s) ∨ in_flight s k → (first_in_flight s ≤ k)%nat.
Proof.
  unfold first_in_flight, in_flight. intros [->|(w & Hw & <-)].
  - induction (map w_pos (writers s)) as [|q l IH]; cbn; lia.
  - induction (writers s) as [|w0 ws IH]; [by apply elem_of_nil in Hw|]. apply elem_of_cons in Hw as [->|Hw]; cbn; [lia|]. specialize (IH Hw). lia.
Qed.

(** A logger that reads from the memory [m]. *)
Definition looking_at (rl : Ringlogger) (m : logMem) : Ringlogger := mkLogger (tag rl) (file rl) (mapping rl) (Some m) (readOnly rl).

Lemma FollowFromCursor_at rl m k : FollowFromCursor (Z.of_nat k mod Z.of_nat maxLines) (looking_at rl m)
  = follow_loop m false maxLines (Z.of_nat k mod Z.of_nat maxLines) (Z.of_nat k mod Z.of_nat maxLines).
Proof. unfold FollowFromCursor. cbn [log looking_at]. by rewrite cursor_not_all. Qed.

Lemma slot_cursor k : slot (Z.of_nat k mod Z.of_nat maxLines) = (k mod maxLines)%nat.
Proof. unfold slot. rewrite Z.mod_mod, <- Nat2Z.inj_mod, Nat2Z.id by (unfold maxLines; lia). done. Qed.

Lemma polled_steps p s ds p' s' : polled p s ds p' s' → rtc writer_step s s'.
Proof. induction 1 as [|p s s1 ds p' s' Hst _ IH|p s d s1 ds p' s' Hc _ _ _ IH]; [done|by eapply rtc_l|etrans; [by eapply copying_steps|done]]. Qed.

Lemma drop_take_app {A} (l : list A) i j k : (i ≤ j ≤ k)%nat → drop i (take j l) ++ drop j (take k l) = drop i (take k l).
Proof.
  intros Hij. rewrite <- (take_drop j (take k l)) at 2. rewrite take_take, Nat.min_l by lia.
  destruct (decide (j ≤ length l)%nat) as [Hj|Hj]; [by rewrite drop_app_le by (rewrite length_take; lia)|].
  rewrite (drop_ge (take k l) j) by (rewrite length_take; lia). by rewrite !app_nil_r.
Qed.

Lemma polled_dump out rl p s ds p' s' : polled p s ds p' s' → (∀ x, ∃ k, out x = inl k) → Forall good_entry (taken s') →
  ∀ k, shared_ok s → (p ≤ k ≤ length (taken s))%nat → (∀ j, (j < k)%nat → ¬ in_flight s j) →
  ∃ k', (p' ≤ k' ≤ length (taken s'))%nat ∧ (k ≤ k')%nat ∧ (∀ j, (j < k')%nat → ¬ in_flight s' j) ∧
    dump_loop out (map (looking_at rl) ds) (Z.of_nat k mod Z.of_nat maxLines) = (map shown (drop k (take k' (taken s'))), None).
Proof.
  intros Hpl Hout G. induction Hpl as [p s|p s s1 ds p' s' Hst _ IH|p s d s1 ds p' s' Hc Hcl Hlap Hpl IH]; intros k OK Hk Hdone.
  - exists k. split_and!; [lia|lia|lia|done|]. cbn. rewrite drop_ge by (rewrite length_take; lia). done.
  - pose proof (rtc_once _ _ Hst) as R. pose proof (prefix_length _ _ (proj1 (steps_back _ _ R))).
    destruct (IH G k) as (k' & ?); [by eapply writer_step_ok|lia|intros j Hj; eapply done_stays; [done|lia|auto]|]. by exists k'.
  - pose proof (copying_steps _ _ _ _ _ Hc) as R. pose proof (prefix_length _ _ (proj1 (steps_back _ _ R))) as Hlen.
    assert (taken s `prefix_of` taken s') as [t Et] by (eapply steps_back; etrans; [exact R|by eapply polled_steps]).
    assert (Forall good_entry (taken s)) as Gs by (rewrite Et in G; by apply Forall_app in G as [? _]).
    destruct (follow_copied s d s1 OK Hc Hcl Gs maxLines k _ (Z.of_nat k mod Z.of_nat maxLines) ltac:(lia) ltac:(lia) ltac:(lia) (slot_cursor k))
      as (k1 & Hk1 & Hend & Hfl & Ef).
    cbn [map dump_loop]. rewrite FollowFromCursor_at, Ef, print_all by done.
    replace (if decide (k1 = k) then _ else _) with (Z.of_nat k1 mod Z.of_nat maxLines) by (case_decide; congruence).
    pose proof (first_in_flight_le _ _ Hend) as Hfirst.
    destruct (IH G k1) as (k' & Hk' & Hkk & Hdone' & ->); [by eapply steps_ok|lia| |].
    { intros j Hj. destruct (decide (j < k)%nat); [eapply done_stays; [exact R|lia|auto]|apply Hfl; lia]. }
    exists k'. split_and!; [lia|lia|lia|done|]. f_equal. rewrite <- map_app. f_equal.
    assert (take k1 (taken s) = take k1 (taken s')) as -> by (rewrite Et, take_app_le by lia; done). apply drop_take_app. lia.
Qed.

(** Nobody is in flight: the memory is that of the history. *)
Lemma quiescent_represents s : shared_ok s → writers s = [] → Represents (taken s) (mem s).
Proof.
  intros [L B X W N P U] Hw. split; try done. intros j e He Hl. apply P; [done|done|]. intros (w & Hin & _). rewrite Hw in Hin. by apply elem_of_nil in Hin.
Qed.

(** What a copy leaves to be done is only ever less: nothing happens twice. *)
Definition work_of (w : writer) : nat := match w_phase w with Reserved => S (S (length (line_stores (w_tag w) (w_text w)))) | Storing todo => S (length todo) end.
Definition work (s : shared) : nat := sum_list_with work_of (writers s).

Lemma step_progress s s' : writer_step s s' →
  (length (taken s) < length (taken s'))%nat ∨ (length (taken s) = length (taken s') ∧ work s' < work s)%nat.
Proof.
  destruct 1; cbn [taken]; [left; rewrite length_app; cbn; lia|right..]; (split; [done|]); unfold work; cbn [writers];
    rewrite !sum_list_with_app; cbn [sum_list_with work_of w_phase w_tag w_text length]; lia.
Qed.

Lemma steps_progress s s' : rtc writer_step s s' → s = s' ∨ (length (taken s) < length (taken s'))%nat ∨ (length (taken s) = length (taken s') ∧ work s' < work s)%nat.
Proof.
  induction 1 as [|s1 s2 s3 Hst _ IH]; [by left|right]. pose proof (step_progress _ _ Hst). destruct IH as [<-|IH]; [done|lia].
Qed.

(** A copy during which nobody writes is the memory. *)
Lemma copy_undisturbed s d : shared_ok s → copied s d s → ∀ i, (i < maxLines)%nat → lines d !! i = lines (mem s) !! i.
Proof.
  intros OK Hc i Hi. destruct (copied_line _ _ _ i Hc Hi) as (_ & s1 & s2 & d1 & R1 & R2 & R3 & ld & Hd1 & Hld & d2 & Hb & <-).
  assert (∀ sx, rtc writer_step s sx → rtc writer_step sx s → sx = s) as Hback.
  { intros sx Ra Rb. pose proof (steps_progress _ _ Ra) as [->|?]; [done|]. pose proof (steps_progress _ _ Rb) as [->|?]; [done|lia]. }
  assert (s1 = s) as -> by (apply Hback; [done|by etrans]). destruct (lookup_lt_is_Some_2 (lines (mem s)) i) as [l Hl]; [by rewrite (so_length _ OK)|].
  unfold line_at in Hd1. rewrite Hl in Hd1. cbn [default] in Hd1.
  rewrite Hl, (copying_bytes i (line l) maxLogLineLength 0 _ _ _ _ _ Hb Hd1); [by destruct l|done|exact (Forall_lookup_1 _ _ _ _ (so_bytes _ OK) Hl)|done|].
  intros sx Ra Rb. rewrite (Hback sx Ra) by (by etrans). unfold line_at. by rewrite Hl.
Qed.
Lemma copy_represents s d : shared_ok s → copied s d s → writers s = [] → Represents (taken s) d.
Proof.
  intros OK Hc Hw. pose proof (quiescent_represents s OK Hw) as [L B X P U].
  destruct (copying_frame _ _ _ _ _ Hc) as [En Hf]. assert (lines d = lines (mem s)) as El.
  { apply list_eq. intros i. destruct (decide (i < maxLines)%nat) as [Hi|Hi]; [by apply copy_undisturbed|].
    rewrite (lookup_ge_None_2 (lines (mem s))) by (rewrite L; lia). rewrite Hf.
    - apply lookup_ge_None_2. unfold zeroMem. cbn [lines]. rewrite repeat_length. lia.
    - apply Forall_flat_map, Forall_forall. intros j [_ Hj]%elem_of_seq. apply line_locs_other. lia. }
  split; rewrite ?El; try done. by rewrite En.
Qed.

(** C36: A reader that follows a log while writers of other processes store their
    lines into it byte by byte, and that copies the memory byte by byte, is shown
    the lines in the order in which their slots were taken: whole, each once and
    none before it is finished, from the last 2048 lines at its start on, and at
    least up to the first line that was in flight when the last copy began (blank
    texts make no line, long ones are cut).  This holds while the reader is not
    lapped, no writer falls a whole lap behind, and no writer that has taken a used
    slot has yet to clear its time when a copy begins, the two races the source
    names; when the log has a line and nothing is written during the first copy;
    when a copy reads a line's time before its bytes; for texts and tags without
    NUL, times other than 0 and an output that never fails. *)
Theorem dump_shows_every_line out rl s d ds p' s' :
  shared_reachable s → writers s = [] → taken s ≠ [] → copied s d s → polled (length (taken s)) s ds p' s' →
  Forall good_entry (taken s') → (∀ x, ∃ k, out x = inl k) →
  ∃ k, (p' ≤ k ≤ length (taken s'))%nat ∧ (∀ j, (j < k)%nat → ¬ in_flight s' j) ∧
    dump_loop out (map (looking_at rl) (d :: ds)) CursorAll
    = (map shown (drop (length (taken s) - maxLines) (take k (taken s'))), None).
Proof.
  intros R Hw Hne Hc Hpl G Hout. pose proof (steps_ok _ _ R new_shared_ok) as OK. pose proof (copy_represents s d OK Hc Hw) as Rep.
  assert (taken s `prefix_of` taken s') as [t Et] by by eapply steps_back, polled_steps.
  assert (Forall good_entry (taken s)) as Gs by (rewrite Et in G; by apply Forall_app in G as [? _]).
  destruct (polled_dump out rl _ _ _ _ _ Hpl Hout G (length (taken s)) OK) as (k & Hk & Hkk & Hdone & Ed); [lia| |].
  { intros j _ (w & Hin & _). rewrite Hw in Hin. by apply elem_of_nil in Hin. }
  exists k. split_and!; [lia|lia|done|]. cbn [map dump_loop]. unfold FollowFromCursor. cbn [log looking_at]. rewrite Z.eqb_refl.
  rewrite (follow_all (taken s) d Rep Gs); [|done|].
  2: { intros n Hn. rewrite (rep_next _ _ Rep), slot_u32, Nat2Z.id by lia. f_equal. lia. }
  rewrite decide_False by (intros [?|?]; done). rewrite print_all, Ed by done. f_equal. rewrite <- map_app. f_equal.
  assert (taken s = take (length (taken s)) (taken s')) as E by (rewrite Et, take_app_length; done). rewrite <- (drop_take_app (taken s') (length (taken s) - maxLines) (length (taken s)) k) by lia. by rewrite <- E.
Qed.

(** ** Running a writer *)

Lemma run_stores m ws1 ws2 H q i tag p ts todo :
  rtc writer_step (mkShared m (ws1 ++ mkWriter q i tag p ts (Storing todo) :: ws2) H)
    (mkShared (alter_line i (set_bytes (λ c, fold_left store todo c)) m) (ws1 ++ mkWriter q i tag p ts (Storing []) :: ws2) H).
Proof.
  revert m. induction todo as [|x todo IH]; intros m.
  - replace (alter_line i (set_bytes (λ c, fold_left store [] c)) m) with m; [done|].
    destruct m as [g n ls]. unfold alter_line. cbn. f_equal. symmetry. apply list_alter_id. by intros [].
  - eapply rtc_l; [apply step_store|].
    replace (alter_line i (set_bytes (λ c, fold_left store (x :: todo) c)) m)
      with (alter_line i (set_bytes (λ c, fold_left store todo c)) (alter_line i (set_bytes (λ c, store c x)) m)); [apply IH|].
    unfold alter_line. cbn [lines magic nextIndex]. f_equal. apply list_eq. intros j. destruct (decide (j = i)) as [->|Hne];
    [rewrite !list_lookup_alter_eq; by destruct (_ !! i)|by rewrite !list_lookup_alter_ne].
Qed.

Lemma run_writer m ws1 ws2 H q i tag p ts :
  rtc writer_step (mkShared m (ws1 ++ mkWriter q i tag p ts Reserved :: ws2) H) (mkShared (write_line i tag p ts m) (ws1 ++ ws2) H).
Proof. eapply rtc_l; [apply step_clear|]. etrans; [apply run_stores|]. apply rtc_once, step_publish. Qed.

(** A write that nobody interrupts takes the steps of one writer. *)
Lemma WriteWithTimestamp_runs rl m H p ts : log rl = Some m → readOnly rl = false → (length (tag rl) ≤ maxTagLength)%nat → TrimSpace p ≠ [] →
  ∃ m', log (fst (WriteWithTimestamp p ts rl)) = Some m' ∧
    rtc writer_step (mkShared m [] H) (mkShared m' [] (H ++ [(tag rl, TrimSpace p, ts)])).
Proof.
  intros Hm Hr Ht Hp. unfold WriteWithTimestamp. rewrite Hr, Hm. destruct (TrimSpace p) as [|b q] eqn:Ep; [done|]. rewrite <- Ep in *.
  eexists. split; [reflexivity|]. pose proof (step_reserve m [] H (tag rl) p ts) as S1. cbn beta iota zeta delta [take_index] in S1.
  eapply rtc_l; [apply S1; [by apply not_elem_of_nil|done|done]|]. apply (run_writer _ [] []).
Qed.

Lemma reserve m ws H tag p ts : shared_ok (mkShared m ws H) → (length H mod maxLines)%nat ∉ map w_slot ws → (length tag ≤ maxTagLength)%nat → TrimSpace p ≠ [] →
  ∃ m', writer_step (mkShared m ws H)
    (mkShared m' (ws ++ [mkWriter (length H) (length H mod maxLines) tag (TrimSpace p) ts Reserved]) (H ++ [(tag, TrimSpace p, ts)])).
Proof.
  intros OK Hf Ht Hp. destruct (take_index m) as [index m'] eqn:E. destruct (take_index_slot H m index m' E (so_next _ OK)) as (Hs & _ & _).
  exists m'. pose proof (step_reserve m ws H tag p ts) as S. rewrite E, Hs in S. by apply S.
Qed.

Lemma copy_exists s : ∃ d, copied s d s.
Proof.
  unfold copied. generalize (mkMem (magic (mem s)) (nextIndex (mem s)) (lines zeroMem)). induction all_locs as [|l ls IH]; intros d.
  - exists d. constructor.
  - destruct (IH (read_loc l (mem s) d)) as [d' Hd]. exists d'. by constructor.
Qed.

Lemma polled_run p s s1 ds p' s' : rtc writer_step s s1 → polled p s1 ds p' s' → polled p s ds p' s'.
Proof. induction 1; [done|]. intros Hp. eapply polled_write; [done|auto]. Qed.

(** Two writers after a first line; the second is done before the first. The
    reader polls in between, and once more when both are done. *)
Lemma dump_shows_every_line_witness : ∃ rl d d1 d2,
  dump_loop (λ _, inl 0) (map (looking_at rl) [d; d1; d2]) CursorAll = ([("[MGR] up", 1); ("[TUN] one", 2); ("[MGR] two", 3)], None).
Proof.
  set (e0 := ("MGR", "up", 1) : entry). set (e1 := ("TUN", "one", 2) : entry). set (e2 := ("MGR", "two", 3) : entry).
  assert (∀ s, shared_reachable s → shared_ok s) as Hok by (intros s R; exact (steps_ok _ _ R new_shared_ok)).
  set (rl := mkLogger "MGR" false true None true). exists rl.
  destruct (reserve (mem new_shared) [] [] "MGR" "up" 1 new_shared_ok (not_elem_of_nil _) ltac:(unfold maxTagLength; cbn; lia) ltac:(discriminate)) as [m0 S0].
  destruct (reserve (write_line 0 "MGR" "up" 1 m0) [] [e0] "TUN" "one" 2) as [m1 S1];
    [apply Hok; eapply rtc_l; [exact S0|apply (run_writer m0 [] [] [e0] 0 0 "MGR" "up" 1)]|apply not_elem_of_nil|unfold maxTagLength; cbn; lia|discriminate|].
  set (s := mkShared (write_line 0 "MGR" "up" 1 m0) [] [e0]) in *.
  assert (shared_reachable s) as R by (eapply rtc_l; [exact S0|apply (run_writer m0 [] [] [e0] 0 0 "MGR" "up" 1)]).
  assert (shared_reachable (mkShared m1 [mkWriter 1 1 "TUN" "one" 2 Reserved] [e0; e1])) as R1 by (eapply rtc_r; [exact R|exact S1]).
  destruct (reserve m1 [mkWriter 1 1 "TUN" "one" 2 Reserved] [e0; e1] "MGR" "two" 3 (Hok _ R1)) as [m2 S2];
    [change (2%nat ∉ [1%nat]); intros Hin%list_elem_of_singleton; discriminate Hin|unfold maxTagLength; cbn; lia|discriminate|].
  set (s1 := mkShared (write_line 2 "MGR" "two" 3 m2) [mkWriter 1 1 "TUN" "one" 2 Reserved] [e0; e1; e2]).
  assert (rtc writer_step s s1) as Rs1.
  { eapply rtc_l; [exact S1|]. eapply rtc_l; [exact S2|]. exact (run_writer m2 [mkWriter 1 1 "TUN" "one" 2 Reserved] [] [e0; e1; e2] 2 2 "MGR" "two" 3). }
  set (s2 := mkShared (write_line 1 "TUN" "one" 2 (mem s1)) [] [e0; e1; e2]).
  assert (rtc writer_step s1 s2) as Rs2 by exact (run_writer (mem s1) [] [] [e0; e1; e2] 1 1 "TUN" "one" 2).
  destruct (copy_exists s) as [d Hd], (copy_exists s1) as [d1 Hd1], (copy_exists s2) as [d2 Hd2]. exists d, d1, d2.
  assert (polled 1 s [d1; d2] 3 s2) as Hpl.
  { eapply polled_run; [exact Rs1|]. eapply polled_copy; [exact Hd1| | |].
    - intros w Hw%list_elem_of_singleton _. subst w. cbn [w_pos]. unfold maxLines. lia.
    - cbn [taken s1 length]. unfold maxLines. lia.
    - change (first_in_flight s1) with 1%nat. eapply polled_run; [exact Rs2|]. eapply polled_copy; [exact Hd2| | |apply polled_end].
      + intros w Hw%elem_of_nil. destruct Hw.
      + cbn [taken s2 length]. unfold maxLines. lia. }
  destruct (dump_shows_every_line (λ _, inl 0) rl s d [d1; d2] 3 s2 R eq_refl ltac:(discriminate) Hd Hpl) as (k & Hk & _ & ->).
  - repeat constructor; cbn; unfold maxTagLength; try lia; discriminate.
  - intros x. by exists 0.
  - cbn [taken s2 length] in Hk. assert (k = 3%nat) as -> by lia. reflexivity.
Defined.

(** A reader whose first copy finds a line in flight before a finished one is
    never shown it: its cursor is behind the finished line. *)
Definition line_in_flight : logMem := mkMem log_magic 2 (<[1%nat := entry_line ("MGR", "two", 3)]> (lines zeroMem)).
Theorem first_poll_skips_line_in_flight :
  FollowFromCursor CursorAll (mkLogger "DMP" false true (Some line_in_flight) true) = ([("[MGR] two", 3)], 2) ∧
  FollowFromCursor 2 (mkLogger "DMP" false true (Some (write_line 0 "TUN" "one" 2 line_in_flight)) true) = ([], 2).
Proof. split; vm_compute; reflexivity. Qed.

(** ** The process-wide logger *)

Lemma globalWrite_loop_ok fuel : ∀ buffer b, (length buffer ≤ globalBuffer_size)%nat →
  (length b < fuel)%nat ∨ (length b ≤ fuel)%nat ∧ (length buffer < globalBuffer_size)%nat →
  ∃ chunks rest, globalWrite_loop fuel buffer b = Some (chunks, rest) ∧ concat chunks ++ rest = buffer ++ b ∧
    (length rest ≤ globalBuffer_size)%nat ∧ Forall (λ c, length c ≤ globalBuffer_size)%nat chunks.
Proof.
  induction fuel as [|fuel IH]; intros buffer b Hb Hf; destruct b as [|x b];
    try (exists [], buffer; cbn; rewrite ?app_nil_r; by split_and!).
  { cbn in Hf. lia. }
  cbn [globalWrite_loop]. set (w := x :: b) in *. assert (0 < length w)%nat as Hw by (cbn; lia).
  set (k := min (length w) (globalBuffer_size - length buffer)).
  assert (length (buffer ++ take k w) ≤ globalBuffer_size)%nat as Hlen by (rewrite length_app, length_take; unfold k; lia).
  assert (buffer ++ w = (buffer ++ take k w) ++ drop k w) as -> by (by rewrite <- app_assoc, take_drop).
  destruct (existsb _ _ || _) eqn:E.
  - destruct (IH [] (drop k w)) as (chunks & rest & -> & Ec & Hr & Hcs); [cbn; lia| |].
    { rewrite length_drop. right. unfold k, globalBuffer_size, maxLogLineLength, maxTagLength in *. cbn [length]. lia. }
    exists ((buffer ++ take k w) :: chunks), rest. split; [done|]. cbn [concat]. rewrite <- app_assoc, Ec. by split_and!; [|done|constructor].
  - apply orb_false_iff in E as [_ E]. apply Nat.ltb_ge in E.
    assert (drop k w = []) as -> by (apply length_zero_iff_nil; lia).
    exists [], (buffer ++ take k w). rewrite app_nil_r. by destruct fuel.
Qed.

(** Everything written to the standard streams goes to the log, in order and
    in pieces that fit a line with any tag, or stays in the buffer. *)
Theorem globalWrite_keeps_bytes buffer b : (length buffer ≤ globalBuffer_size)%nat →
  ∃ chunks rest, globalWrite buffer b = Some (chunks, rest) ∧ concat chunks ++ rest = buffer ++ b ∧
    (length rest ≤ globalBuffer_size)%nat ∧
    Forall (λ c, ∀ tag, (length tag ≤ maxTagLength)%nat → fst (fit tag c) = c) chunks.
Proof.
  intros Hb. destruct (globalWrite_loop_ok (S (length b)) buffer b Hb) as (chunks & rest & E & Ec & Hr & Hc); [lia|].
  exists chunks, rest. split_and!; try done. eapply Forall_impl; [exact Hc|]. intros c Hl tag Ht. unfold fit.
  destruct (Nat.ltb_spec (maxLogLineLength - 1) (3 + length c + length tag)) as [Hlt|_]; [|done].
  unfold globalBuffer_size, maxLogLineLength, maxTagLength in *. cbn in Hl. lia.
Qed.

(** When the view cannot be mapped, the mapping handle is closed twice. *)
Theorem NewRinglogger_closes_twice e : ∀ tag, (length tag ≤ maxTagLength)%nat →
  NewRinglogger (mkCalls None None None (inr e)) tag = ([MappingClosed; MappingClosed; FileClosed], Fail e).
Proof. intros tag Ht. unfold NewRinglogger. by rewrite (proj2 (Nat.ltb_ge _ _)). Qed.
