(* ===== verification/GoSort.v ===== *)
(** * [sort.Slice] and [bytes.Compare]

    [sort.Slice] is not stable and its algorithm is not specified, so it is an
    operation of [Class SortSlice]; [SortSliceLaws] is what its documentation
    promises for a strict weak order. *)
From S2P Require Import Prelude GoStrings GoStrconv TunnelName.

Class SortSlice := { sort_Slice : ∀ A : Type, (A → A → bool) → list A → list A }.
Arguments sort_Slice {_ A} less l.

(** [less] comes from a comparison that is total up to the keys it looks at. *)
Record comparison_laws {A} (c : A → A → comparison) : Prop := {
  cl_opp a b : c b a = CompOpp (c a b);
  cl_trans a b d : c a b = Lt → c b d = Lt → c a d = Lt;
  cl_eq a b d : c a b = Eq → c a d = c b d }.

Definition less_of {A} (c : A → A → comparison) (a b : A) : bool := match c a b with Lt => true | _ => false end.

(** No element stands before one that is less. *)
Definition in_order {A} (less : A → A → bool) (a b : A) : Prop := less b a = false.

Class SortSliceLaws `{SortSlice} : Prop := {
  sort_Slice_perm {A} less (l : list A) : sort_Slice less l ≡ₚ l;
  sort_Slice_sorted {A} (c : A → A → comparison) l : comparison_laws c →
    StronglySorted (in_order (less_of c)) (sort_Slice (less_of c) l) }.

(** ** Comparisons *)

Lemma bytes_compare_laws {A} (key : A → list byte) : comparison_laws (λ a b, str_compare (key a) (key b)).
Proof.
  split.
  - intros a b. apply str_compare_antisym.
  - intros a b d. apply str_compare_lt_trans.
  - intros a b d E. apply str_compare_eq in E. by rewrite E.
Qed.

Lemma Z_compare_laws {A} (key : A → Z) : comparison_laws (λ a b, Z.compare (key a) (key b)).
Proof.
  split; intros a b.
  - apply Z.compare_antisym.
  - intros d. rewrite !Z.compare_lt_iff. lia.
  - intros d E. apply Z.compare_eq_iff in E. by rewrite E.
Qed.

(** The first comparison that tells two elements apart decides. *)
Fixpoint lex_compare {A} (cs : list (A → A → comparison)) (a b : A) : comparison :=
  match cs with
  | [] => Eq
  | c :: cs => match c a b with Eq => lex_compare cs a b | r => r end
  end.

Lemma lex_compare_laws {A} (cs : list (A → A → comparison)) : Forall comparison_laws cs → comparison_laws (lex_compare cs).
Proof.
  induction 1 as [|c cs [Ho Ht He] _ IH]; [split; done|]. destruct IH as [Ho' Ht' He']. split; cbn.
  - intros a b. rewrite Ho. destruct (c a b); cbn; [apply Ho'|done|done].
  - intros a b d. destruct (c a b) eqn:E1; [|intros _|done].
    + rewrite (He _ _ d E1). destruct (c b d); [apply Ht'|done|done].
    + destruct (c b d) eqn:E2; [|by rewrite (Ht _ _ _ E1 E2)|done].
      intros _. assert (c d b = Eq) as E3 by (rewrite Ho, E2; done). rewrite (Ho d a), (He _ _ a E3), (Ho a b), E1. done.
  - intros a b d. destruct (c a b) eqn:E1; [|done|done]. intros E2. rewrite (He _ _ d E1). by rewrite (He' _ _ d E2).
Qed.

Lemma lex_compare_eq {A} (cs : list (A → A → comparison)) a b : lex_compare cs a b = Eq ↔ Forall (λ c, c a b = Eq) cs.
Proof.
  induction cs as [|c cs IH]; cbn; [by split|]. rewrite Forall_cons, <- IH. destruct (c a b); naive_solver.
Qed.

(** ** Uniqueness of the result *)

Lemma less_antisym {A} (c : A → A → comparison) a b : comparison_laws c →
  in_order (less_of c) a b → in_order (less_of c) b a → c a b = Eq.
Proof.
  intros [Ho _ _]. unfold in_order, less_of. rewrite (Ho a b). by destruct (c a b).
Qed.

(** Where equal elements are the same, the order of the input does not matter. *)
Lemma sort_Slice_unique `{SortSliceLaws} {A} (c : A → A → comparison) l l' : comparison_laws c →
  (∀ a b, a ∈ l → b ∈ l → c a b = Eq → a = b) → l ≡ₚ l' → sort_Slice (less_of c) l = sort_Slice (less_of c) l'.
Proof.
  intros Hc Hinj Hp. apply (StronglySorted_unique_strong (in_order (less_of c))).
  - intros a b. rewrite !sort_Slice_perm, <- Hp. intros Ha Hb H1 H2. apply Hinj; [done|done|]. by apply less_antisym.
  - by apply sort_Slice_sorted.
  - by apply sort_Slice_sorted.
  - by rewrite !sort_Slice_perm.
Qed.

(** ** A sort on which the laws hold *)

Fixpoint insert_sorted {A} (less : A → A → bool) (x : A) (l : list A) : list A :=
  match l with
  | [] => [x]
  | y :: l => if less y x then y :: insert_sorted less x l else x :: y :: l
  end.

#[local] Instance insertion_sort : SortSlice := {| sort_Slice A less l := foldr (insert_sorted less) [] l |}.

Lemma insert_sorted_perm {A} less (x : A) l : insert_sorted less x l ≡ₚ x :: l.
Proof.
  induction l as [|y l IH]; cbn; [done|]. destruct (less y x); [|done]. rewrite IH. apply Permutation_swap.
Qed.

#[local] Instance insertion_sort_laws : SortSliceLaws.
Proof.
  split.
  - intros A less l. induction l as [|x l IH]; cbn; [done|]. rewrite insert_sorted_perm. by f_equiv.
  - intros A c l Hc. induction l as [|x l IH]; cbn; [constructor|].
    change (foldr (insert_sorted (less_of c)) [] l) with (sort_Slice (less_of c) l) in *.
    generalize dependent (sort_Slice (less_of c) l). intros s Hs. destruct Hc as [Ho Ht He].
    induction Hs as [|y s Hs IH Hy]; cbn; [repeat constructor|]. destruct (less_of c y x) eqn:E.
    + constructor; [done|]. apply Forall_forall. intros z. rewrite insert_sorted_perm. intros [->|Hz]%elem_of_cons.
      * unfold in_order, less_of in *. rewrite Ho. by destruct (c y x).
      * by eapply Forall_forall in Hy.
    + constructor; [by constructor|]. constructor; [done|]. eapply Forall_impl; [exact Hy|]. intros z Hz. cbn in Hz.
      unfold in_order, less_of in *. destruct (c z x) eqn:Ezx; [done| |done].
      destruct (c y x) eqn:Eyx; [|done|].
      * assert (c x y = Eq) as Exy by (rewrite Ho, Eyx; done).
        rewrite (Ho y z), (He _ _ z Eyx), (Ho z x), Ezx in Hz. done.
      * assert (c x y = Lt) as Exy by (rewrite Ho, Eyx; done). by rewrite (Ht _ _ _ Ezx Exy) in Hz.
Qed.
