(* ===== verification/WinIp.v ===== *)
(** * Addresses, routes and DNS of an interface ([core/tunnel/winipcfg])

    Records keep the fields this program reads or writes.  The methods of [LUID]
    are over the calls of iphlpapi.dll, which are the
    operations of [Class IpHelper]; their documented effect on the tables of the
    system is [Class IpHelperLaws]. *)
From S2P Require Import Prelude GoStrings GoStrconv AwgValidation GoEncoding GoNet GoOs.

Local Open Scope Z_scope.

Definition AF_UNSPEC : Z := 0.
Definition AF_INET : Z := 2.
Definition AF_INET6 : Z := 23.

(** A socket address without its port, which is always zero here. *)
Record RawSockaddrInet := mkSockaddr { sa_family : Z; sa_addr : list byte }.

Definition ERROR_INVALID_PARAMETER : goerror := ErrorString "ERROR_INVALID_PARAMETER".
Definition ERROR_OBJECT_ALREADY_EXISTS : goerror := ErrorString "ERROR_OBJECT_ALREADY_EXISTS".
Definition ERROR_PROTOCOL_UNREACHABLE : goerror := ErrorString "ERROR_PROTOCOL_UNREACHABLE".
Definition ERROR_PROC_NOT_FOUND : goerror := ErrorString "ERROR_PROC_NOT_FOUND".

(** [err == e] and [errors.Is(err, e)] for a system error. *)
Definition is_sys (name : gostring) (e : goerror) : bool := match e with ErrorString s => s =?s name | _ => false end.
Fixpoint errors_Is_sys (name : gostring) (e : goerror) : bool :=
  match e with ErrorString s => s =?s name | WrapError _ e => errors_Is_sys name e | _ => false end.

Definition SetIP (ip : IP) : outcome RawSockaddrInet :=
  match To4 ip with
  | Some v4 => Ret (mkSockaddr AF_INET v4)
  | None => match To16 ip with Some v6 => Ret (mkSockaddr AF_INET6 v6) | None => Fail ERROR_INVALID_PARAMETER end
  end.

(** [RawSockaddrInet.IP]; nil for another family. *)
Definition sockaddr_IP (a : RawSockaddrInet) : option IP :=
  if (sa_family a =? AF_INET) || (sa_family a =? AF_INET6) then Some (sa_addr a) else None.

Record IPAddressPrefix := mkPrefix { Prefix : RawSockaddrInet; PrefixLength : Z }.

(** [ones, _ := mask.Size()] *)
Definition mask_ones (mask : option (list byte)) : Z :=
  match mask with Some m => default 0 (simpleMaskLength m) | None => 0 end.

Definition IPNetv : Type := IP * option (list byte).

Definition SetIPNet (n : IPNetv) : outcome IPAddressPrefix :=
  a ← SetIP (fst n); Ret (mkPrefix a (u8 (mask_ones (snd n)))).

Record MibIPInterfaceRow := mkIpIf {
  ipif_Family : Z; ipif_LUID : Z; InterfaceIndex : Z; UseAutomaticMetric : bool;
  RouterDiscoveryBehavior : Z; DadTransmits : Z; SitePrefixLength : Z; ipif_Metric : Z; NLMTU : Z }.

Definition RouterDiscoveryDisabled : Z := 0.
Definition IfOperStatusUp : Z := 1.

Record MibIfRow2 := mkIfRow { if_LUID : Z; OperStatus : Z; if_MTU : Z }.

Record MibUnicastIPAddressRow := mkAddrRow { addr_LUID : Z; Address : RawSockaddrInet; OnLinkPrefixLength : Z }.

Record MibIPforwardRow2 := mkRouteRow {
  route_LUID : Z; route_Index : Z; DestinationPrefix : IPAddressPrefix; NextHop : RawSockaddrInet; route_Metric : Z }.

Record RouteData := mkRouteData { rd_Destination : IPNetv; rd_NextHop : IP; rd_Metric : Z }.

Record IPAdapterAddresses := mkAdapter {
  ad_LUID : Z; ad_OperStatus : Z; ad_FriendlyName : gostring;
  ad_Unicast : list (RawSockaddrInet * Z);  (* address and on-link prefix length *)
  ad_DNSServers : list RawSockaddrInet }.

Record dnsInterfaceSettings := mkDns { dns_Version : Z; dns_Flags : Z; NameServer : list Z; SearchList : list Z }.

Definition disVersion1 : Z := 1.
Definition disFlagsIPv6 : Z := 0x1.
Definition disFlagsNameServer : Z := 0x2.
Definition disFlagsSearchList : Z := 0x4.

Definition GUIDText : Type := gostring.

(** ** The system *)

Class IpHelper (W : Type) := {
  getUnicastIPAddressTable : Z → prog W (list MibUnicastIPAddressRow);
  createUnicastIPAddressEntry : MibUnicastIPAddressRow → prog W unit;
  deleteUnicastIPAddressEntry : MibUnicastIPAddressRow → prog W unit;
  getIPForwardTable2 : Z → prog W (list MibIPforwardRow2);
  getIPForwardEntry2 : MibIPforwardRow2 → prog W MibIPforwardRow2;
  createIPForwardEntry2 : MibIPforwardRow2 → prog W unit;
  deleteIPForwardEntry2 : MibIPforwardRow2 → prog W unit;
  getIPInterfaceEntry : Z → Z → prog W MibIPInterfaceRow;  (* LUID, family *)
  setIPInterfaceEntry : MibIPInterfaceRow → prog W unit;
  getIfEntry2 : Z → prog W MibIfRow2;
  convertInterfaceLUIDToGUID : Z → prog W GUIDText;
  setInterfaceDnsSettings : GUIDText → dnsInterfaceSettings → prog W unit;
  GetAdaptersAddresses : Z → prog W (list IPAdapterAddresses);
  utf16_of : gostring → outcome (list Z);
  (* netsh.exe with its input: its output and how it ended *)
  netsh : gostring → prog W (gostring * option goerror);
  OpenKey : gostring → prog W Z;
  GetStringsValue : Z → gostring → prog W (list gostring);
  SetStringValue : Z → gostring → gostring → prog W unit;
  ForceMTU : Z → prog W unit;  (* of the Wintun device *)
}.

(** The tables of the system, and the DNS settings applied, newest first. *)
Record ip_view := mkView {
  v_addresses : list MibUnicastIPAddressRow;
  v_routes : list MibIPforwardRow2;
  v_dns : list (GUIDText * dnsInterfaceSettings) }.

Definition in_family (family : Z) (a : RawSockaddrInet) : Prop := family = AF_UNSPEC ∨ sa_family a = family.
#[export] Instance in_family_dec family a : Decision (in_family family a).
Proof. unfold in_family. apply _. Defined.

#[export] Instance sockaddr_eq_dec : EqDecision RawSockaddrInet.
Proof. solve_decision. Defined.
#[export] Instance prefix_eq_dec : EqDecision IPAddressPrefix.
Proof. solve_decision. Defined.

(** Entries are identified by interface and address, and by interface,
    destination and next hop. *)
Definition same_address (r r' : MibUnicastIPAddressRow) : Prop := addr_LUID r = addr_LUID r' ∧ Address r = Address r'.
Definition same_route (r r' : MibIPforwardRow2) : Prop :=
  route_LUID r = route_LUID r' ∧ DestinationPrefix r = DestinationPrefix r' ∧ NextHop r = NextHop r'.
#[export] Instance same_address_dec r r' : Decision (same_address r r').
Proof. unfold same_address. apply _. Defined.
#[export] Instance same_route_dec r r' : Decision (same_route r r').
Proof. unfold same_route. apply _. Defined.

(** A call that leaves the tables alone. *)
Definition quiet {W A} (view : W → ip_view) (m : prog W A) : Prop := ∀ w, view (m w).1 = view w.

Class IpHelperLaws (W : Type) `{IpHelper W} (view : W → ip_view) : Prop := {
  address_table_view f : quiet view (getUnicastIPAddressTable f);
  address_table_ok f w w' t : getUnicastIPAddressTable f w = (w', Ret t) →
    t = filter (λ r, in_family f (Address r)) (v_addresses (view w));
  create_address r w w' o : createUnicastIPAddressEntry r w = (w', o) →
    view w' = match o with
              | Ret _ => mkView (v_addresses (view w) ++ [r]) (v_routes (view w)) (v_dns (view w))
              | _ => view w
              end;
  delete_address r w w' o : deleteUnicastIPAddressEntry r w = (w', o) →
    view w' = match o with
              | Ret _ => mkView (filter (λ r', ¬ same_address r r') (v_addresses (view w))) (v_routes (view w)) (v_dns (view w))
              | _ => view w
              end;
  route_table_view f : quiet view (getIPForwardTable2 f);
  route_table_ok f w w' t : getIPForwardTable2 f w = (w', Ret t) →
    t = filter (λ r, in_family f (Prefix (DestinationPrefix r))) (v_routes (view w));
  route_entry_view r : quiet view (getIPForwardEntry2 r);
  create_route r w w' o : createIPForwardEntry2 r w = (w', o) →
    view w' = match o with
              | Ret _ => mkView (v_addresses (view w)) (v_routes (view w) ++ [r]) (v_dns (view w))
              | _ => view w
              end;
  delete_route r w w' o : deleteIPForwardEntry2 r w = (w', o) →
    view w' = match o with
              | Ret _ => mkView (v_addresses (view w)) (filter (λ r', ¬ same_route r r') (v_routes (view w))) (v_dns (view w))
              | _ => view w
              end;
  set_dns g s w w' o : setInterfaceDnsSettings g s w = (w', o) →
    view w' = match o with
              | Ret _ => mkView (v_addresses (view w)) (v_routes (view w)) ((g, s) :: v_dns (view w))
              | _ => view w
              end;
  get_ipif_view l f : quiet view (getIPInterfaceEntry l f);
  set_ipif_view r : quiet view (setIPInterfaceEntry r);
  get_if_view l : quiet view (getIfEntry2 l);
  luid_guid_view l : quiet view (convertInterfaceLUIDToGUID l);
  adapters_view f : quiet view (GetAdaptersAddresses f);
  netsh_view s : quiet view (netsh s);
  open_key_view k : quiet view (OpenKey k);
  get_strings_view k n : quiet view (GetStringsValue k n);
  set_string_view k n s : quiet view (SetStringValue k n s);
  force_mtu_view n : quiet view (ForceMTU n) }.

Section Luid.
Context {W : Type} `{IpHelper W}.

(** [for i := range l { if err := f(l[i]); err != nil { return err } }] *)
Fixpoint each {A} (f : A → prog W unit) (l : list A) : prog W unit :=
  match l with
  | [] => io_ret tt
  | x :: l => f x ;; each f l
  end.

(** [for i := range l { f(l[i]) }], remembering the last error. *)
Fixpoint each_last {A} (f : A → prog W unit) (l : list A) (last : option goerror) : prog W (option goerror) :=
  match l with
  | [] => io_ret last
  | x :: l =>
      let! r := attempt (f x) in
      each_last f l (match r with Fail e => Some e | _ => last end)
  end.

Definition clamp_site_prefix (row : MibIPInterfaceRow) : MibIPInterfaceRow :=
  let n :=
    if ipif_Family row =? AF_INET then if SitePrefixLength row >? 32 then 0 else SitePrefixLength row
    else if ipif_Family row =? AF_INET6 then if SitePrefixLength row >? 128 then 128 else SitePrefixLength row
    else SitePrefixLength row in
  mkIpIf (ipif_Family row) (ipif_LUID row) (InterfaceIndex row) (UseAutomaticMetric row)
    (RouterDiscoveryBehavior row) (DadTransmits row) n (ipif_Metric row) (NLMTU row).

Definition IPInterface (luid family : Z) : prog W MibIPInterfaceRow :=
  let! row := getIPInterfaceEntry luid family in io_ret (clamp_site_prefix row).

Definition LUID_Interface (luid : Z) : prog W MibIfRow2 := getIfEntry2 luid.
Definition LUID_GUID (luid : Z) : prog W GUIDText := convertInterfaceLUIDToGUID luid.

Definition address_row (luid : Z) (address : IPNetv) : prog W MibUnicastIPAddressRow :=
  let! a := io_lift (SetIP (fst address)) in
  io_ret (mkAddrRow luid a (u8 (mask_ones (snd address)))).

Definition AddIPAddress (luid : Z) (address : IPNetv) : prog W unit :=
  let! row := address_row luid address in createUnicastIPAddressEntry row.

Definition AddIPAddresses (luid : Z) (addresses : list IPNetv) : prog W unit := each (AddIPAddress luid) addresses.

Definition DeleteIPAddress (luid : Z) (address : IPNetv) : prog W unit :=
  let! row := address_row luid address in deleteUnicastIPAddressEntry row.

Definition FlushIPAddresses (luid family : Z) : prog W unit :=
  let! t := getUnicastIPAddressTable family in
  each (λ r, ignore_error (deleteUnicastIPAddressEntry r)) (filter (λ r, addr_LUID r = luid) t).

(** The entries of [l] that belong to [family]. *)
Definition wanted_family (family : Z) (ip : IP) : bool :=
  match To4 ip with
  | None => negb (family =? AF_INET)
  | Some _ => negb (family =? AF_INET6)
  end.

Definition SetIPAddresses (luid : Z) (addresses : list IPNetv) : prog W unit :=
  FlushIPAddresses luid AF_UNSPEC ;; AddIPAddresses luid addresses.

Definition SetIPAddressesForFamily (luid family : Z) (addresses : list IPNetv) : prog W unit :=
  FlushIPAddresses luid family ;;
  each (λ a, if wanted_family family (fst a) then AddIPAddress luid a else io_ret tt) addresses.

Definition route_row (luid : Z) (destination : IPNetv) (nextHop : IP) (metric : Z) : prog W MibIPforwardRow2 :=
  let! d := io_lift (SetIPNet destination) in
  let! n := io_lift (SetIP nextHop) in
  io_ret (mkRouteRow luid 0 d n metric).

Definition AddRoute (luid : Z) (destination : IPNetv) (nextHop : IP) (metric : Z) : prog W unit :=
  let! row := route_row luid destination nextHop metric in createIPForwardEntry2 row.

Definition AddRoutes (luid : Z) (routes : list RouteData) : prog W unit :=
  each (λ rd, AddRoute luid (rd_Destination rd) (rd_NextHop rd) (rd_Metric rd)) routes.

Definition DeleteRoute (luid : Z) (destination : IPNetv) (nextHop : IP) : prog W unit :=
  let! row := route_row luid destination nextHop 0 in
  let! row := getIPForwardEntry2 row in
  deleteIPForwardEntry2 row.

Definition FlushRoutes (luid family : Z) : prog W unit :=
  let! t := getIPForwardTable2 family in
  let! last := each_last deleteIPForwardEntry2 (filter (λ r, route_LUID r = luid) t) None in
  match last with Some e => io_fail e | None => io_ret tt end.

Definition SetRoutes (luid : Z) (routes : list RouteData) : prog W unit :=
  FlushRoutes luid AF_UNSPEC ;; AddRoutes luid routes.

Definition SetRoutesForFamily (luid family : Z) (routes : list RouteData) : prog W unit :=
  FlushRoutes luid family ;;
  each (λ rd, if wanted_family family (fst (rd_Destination rd))
              then AddRoute luid (rd_Destination rd) (rd_NextHop rd) (rd_Metric rd) else io_ret tt) routes.

(** ** DNS *)

(** [LUID.DNS] *)
Fixpoint dns_ips (l : list RawSockaddrInet) : outcome (list IP) :=
  match l with
  | [] => Ret []
  | a :: l =>
      match sockaddr_IP a with
      | Some ip => ips ← dns_ips l; Ret (ip :: ips)
      | None => Fail ERROR_INVALID_PARAMETER
      end
  end.

Definition LUID_DNS (luid : Z) : prog W (list IP) :=
  let! addresses := GetAdaptersAddresses AF_UNSPEC in
  io_lift (dns_ips (concat (map ad_DNSServers (filter (λ a, ad_LUID a = luid) addresses)))).

(** The text of a server that belongs to the family. *)
Definition server_text (family : Z) (server : IP) : option gostring :=
  match To4 server with
  | Some v4 => if family =? AF_INET then Some (IP_String v4) else None
  | None =>
      match To16 server with
      | Some v6 => if family =? AF_INET6 then Some (IP_String v6) else None
      | None => None
      end
  end.

(** [bytes.ReplaceAll] for a pattern that is not empty. *)
Fixpoint replace_loop (fuel : nat) (s old new : gostring) : gostring :=
  match fuel with
  | O => s
  | S fuel =>
      match s with
      | [] => []
      | b :: r => if HasPrefix s old then new ++ replace_loop fuel (drop (length old) s) old new else b :: replace_loop fuel r old new
      end
  end.
Definition ReplaceAll (s old new : gostring) : gostring := replace_loop (length s) s old new.

Definition crlf : gostring := ["013"%byte; "010"%byte].
Definition lf : gostring := ["010"%byte].

(** The text of the error is not part of the model; [%v] hides it from [errors.Is]. *)
Definition netsh_error (cleaned : gostring) (e : option goerror) : option goerror :=
  match e with
  | Some _ => Some (ErrorString ("netsh: failed: " ++ cleaned))
  | None => match cleaned with [] => None | _ => Some (ErrorString ("netsh: " ++ cleaned)) end
  end.

Definition runNetsh (cmds : list gostring) : prog W unit :=
  let! r := netsh (Join (cmds ++ ["exit" ++ crlf]) crlf) in
  let '(output, e) := r in
  let cleaned := ReplaceAll output crlf lf in
  let cleaned := ReplaceAll cleaned "netsh>" [] in
  let cleaned := ReplaceAll cleaned "There are no Domain Name Servers (DNS) configured on this computer." [] in
  match netsh_error (TrimSpace cleaned) e with Some e => io_fail e | None => io_ret tt end.

Definition flush_command (family index : Z) : gostring :=
  if family =? AF_INET then
    "interface ipv4 set dnsservers name=" ++ Itoa index ++ " source=static address=none validate=no register=both"
  else
    "interface ipv6 set dnsservers name=" ++ Itoa index ++ " source=static address=none validate=no register=both".

Definition add_command (family index : Z) (server : gostring) : gostring :=
  if family =? AF_INET then
    "interface ipv4 add dnsservers name=" ++ Itoa index ++ " address=" ++ server ++ " validate=no"
  else
    "interface ipv6 add dnsservers name=" ++ Itoa index ++ " address=" ++ server ++ " validate=no".

Definition fallbackSetDNSForFamily (luid family : Z) (dnses : list IP) : prog W unit :=
  let! ipif := IPInterface luid family in
  runNetsh (flush_command family (InterfaceIndex ipif)
            :: map (add_command family (InterfaceIndex ipif)) (omap (server_text family) dnses)).

Definition wrapping {A} (msg : gostring) (m : prog W A) : prog W A := λ w,
  let '(w, r) := m w in (w, map_error (WrapError msg) r).

Definition fallbackSetDNSDomain (luid : Z) (domain : gostring) : prog W unit :=
  let! guid := wrapping "Error converting luid to guid: " (LUID_GUID luid) in
  let! key := wrapping "Error opening adapter-specific TCP/IP network registry key: "
                (OpenKey ("SYSTEM\CurrentControlSet\Services\Tcpip\Parameters\Adapters\" ++ guid)) in
  let! paths := wrapping "Error reading IpConfig registry key: " (GetStringsValue key "IpConfig") in
  match paths with
  | [] => io_fail (ErrorString "No TCP/IP interfaces found on adapter")
  | path :: _ =>
      let! key := wrapping "Unable to open TCP/IP network registry key: "
                    (OpenKey ("SYSTEM\CurrentControlSet\Services\" ++ path)) in
      SetStringValue key "Domain" domain
  end.

Definition SetDNS (luid family : Z) (servers : list IP) (domains : list gostring) : prog W unit :=
  if negb (family =? AF_INET) && negb (family =? AF_INET6) then io_fail ERROR_PROTOCOL_UNREACHABLE
  else
    let filteredServers := omap (server_text family) servers in
    let! servers16 := io_lift (utf16_of (Join filteredServers ",")) in
    let! domains16 := io_lift (utf16_of (Join domains ",")) in
    let! guid := LUID_GUID luid in
    let maybeV6 := if family =? AF_INET6 then disFlagsIPv6 else 0 in
    let settings := mkDns disVersion1 (Z.lor (Z.lor disFlagsNameServer disFlagsSearchList) maybeV6) servers16 domains16 in
    let! r := attempt (setInterfaceDnsSettings guid settings) in
    match r with
    | Fail e =>
        if errors_Is_sys "ERROR_PROC_NOT_FOUND" e then
          fallbackSetDNSForFamily luid family servers ;;
          fallbackSetDNSDomain luid (match domains with d :: _ => d | [] => [] end)
        else io_fail e
    | _ => io_ret tt
    end.

Definition FlushDNS (luid family : Z) : prog W unit := SetDNS luid family [] [].
End Luid.

(** ** A system on which the hypotheses on the IP helper hold

    [plain_ip]: calls that always succeed, on the tables themselves; the
    concrete instance of [Class IpHelper] the witnesses run on. *)

Local Open Scope Z_scope.

#[export] Instance plain_ip : IpHelper ip_view := {|
  getUnicastIPAddressTable f v := (v, Ret (filter (λ r, in_family f (Address r)) (v_addresses v)));
  createUnicastIPAddressEntry r v := (mkView (v_addresses v ++ [r]) (v_routes v) (v_dns v), Ret tt);
  deleteUnicastIPAddressEntry r v := (mkView (filter (λ r', ¬ same_address r r') (v_addresses v)) (v_routes v) (v_dns v), Ret tt);
  getIPForwardTable2 f v := (v, Ret (filter (λ r, in_family f (Prefix (DestinationPrefix r))) (v_routes v)));
  getIPForwardEntry2 r v := (v, Ret r);
  createIPForwardEntry2 r v := (mkView (v_addresses v) (v_routes v ++ [r]) (v_dns v), Ret tt);
  deleteIPForwardEntry2 r v := (mkView (v_addresses v) (filter (λ r', ¬ same_route r r') (v_routes v)) (v_dns v), Ret tt);
  getIPInterfaceEntry l f v := (v, Ret (mkIpIf f l 1 true 0 1 64 5 1500));
  setIPInterfaceEntry r v := (v, Ret tt);
  getIfEntry2 l v := (v, Ret (mkIfRow l IfOperStatusUp 1500));
  convertInterfaceLUIDToGUID l v := (v, Ret (Itoa l));
  setInterfaceDnsSettings g s v := (mkView (v_addresses v) (v_routes v) ((g, s) :: v_dns v), Ret tt);
  GetAdaptersAddresses f v := (v, Ret []);
  utf16_of s := Ret (map bz s);
  netsh s v := (v, Ret ([], None));
  OpenKey k v := (v, Ret 1);
  GetStringsValue k n v := (v, Ret []);
  SetStringValue k n s v := (v, Ret tt);
  ForceMTU n v := (v, Ret tt) |}.

#[export] Instance plain_ip_laws : IpHelperLaws ip_view id.
Proof. split; try by intros; simplify_eq/=. Qed.
