(* ===== verification/AddressConfig.v ===== *)
(** * Addresses, routes and firewall of a tunnel ([core/tunnel/addressconfig.go])

    What the tunnel service gives to its interface for one address family.  The
    device is its LUID. *)
From S2P Require Import Prelude GoStrings GoStrconv AwgValidation GoEncoding GoNet GoOs GoSort TunnelName Conf WinIp Wfp Firewall.

Local Open Scope Z_scope.
Local Open Scope io_scope.

Definition IPv4zero : IP := v4InV6Prefix ++ replicate 4 x00.
Definition IPv6zero : IP := replicate 16 x00.

(** [bytes.Equal] treats a nil slice as an empty one. *)
Definition mask_bytes (m : option (list byte)) : list byte := default [] m.

Section Configure.
Context {W : Type} `{IpHelper W} `{SortSlice}.

(** ** Stale addresses *)

Definition includedInAddresses (addresses : list IPNetv) (a : IPNetv) : bool :=
  existsb (λ addr, (default (fst addr) (To4 (fst addr)) =?s fst a) && (mask_ones (snd addr) =? mask_ones (snd a))) addresses.

Definition adapter_net (x : RawSockaddrInet * Z) : IPNetv :=
  let ip := default [] (sockaddr_IP (fst x)) in
  let bits := 8 * Z.of_nat (length ip) in
  (ip, if (0 <=? snd x) && (snd x <=? bits) then Some (CIDRMask (snd x) bits) else None).

Definition cleanup_adapter (addresses : list IPNetv) (iface : IPAdapterAddresses) : prog W unit :=
  if ad_OperStatus iface =? IfOperStatusUp then io_ret tt
  else each (λ a, if includedInAddresses addresses (adapter_net a)
                  then ignore_error (DeleteIPAddress (ad_LUID iface) (adapter_net a)) else io_ret tt) (ad_Unicast iface).

Definition cleanupAddressesOnDisconnectedInterfaces (family : Z) (addresses : list IPNetv) : prog W unit :=
  match addresses with
  | [] => io_ret tt
  | _ =>
      let! interfaces := attempt (GetAdaptersAddresses family) in
      match interfaces with
      | Ret interfaces => each (cleanup_adapter addresses) interfaces
      | _ => io_ret tt
      end
  end.

(** ** Routes *)

(** The routes of one peer; [MaskSelf] writes into the entries. *)
Definition allowed_route (haveV4 haveV6 : bool) (allowedip : IPCidr) : option RouteData :=
  if ((Bits allowedip =? 32) && negb haveV4) || ((Bits allowedip =? 128) && negb haveV6) then None
  else Some (mkRouteData (IPNet allowedip) (if Bits allowedip =? 32 then IPv4zero else IPv6zero) 0).

Definition is_default (bits : Z) (haveFamily : bool) (allowedip : IPCidr) : bool :=
  (Bits allowedip =? bits) && haveFamily && (Cidr allowedip =? 0).

Record plan := mkPlan { pl_routes : list RouteData; foundDefault4 : bool; foundDefault6 : bool }.

Fixpoint plan_routes (haveV4 haveV6 : bool) (l : list IPCidr) (p : plan) : outcome plan :=
  match l with
  | [] => Ret p
  | a :: l =>
      a' ← MaskSelf a;
      match allowed_route haveV4 haveV6 a' with
      | None => plan_routes haveV4 haveV6 l p
      | Some r =>
          plan_routes haveV4 haveV6 l
            (mkPlan (pl_routes p ++ [r]) (foundDefault4 p || is_default 32 haveV4 a') (foundDefault6 p || is_default 128 haveV6 a'))
      end
  end.

Definition have_family (bits : Z) (conf : Config) : bool := existsb (λ a, Bits a =? bits) (Addresses (Iface conf)).

Definition plan_of (conf : Config) : outcome plan :=
  plan_routes (have_family 32 conf) (have_family 128 conf) (concat (map AllowedIPs (Peers conf))) (mkPlan [] false false).

Definition route_compare : RouteData → RouteData → comparison := lex_compare [
  (λ a b, Z.compare (rd_Metric a) (rd_Metric b));
  (λ a b, str_compare (rd_NextHop a) (rd_NextHop b));
  (λ a b, str_compare (fst (rd_Destination a)) (fst (rd_Destination b)));
  (λ a b, str_compare (mask_bytes (snd (rd_Destination a))) (mask_bytes (snd (rd_Destination b))))].

Definition same_data (a b : RouteData) : bool :=
  (rd_Metric a =? rd_Metric b) && (rd_NextHop a =?s rd_NextHop b)
  && (fst (rd_Destination a) =?s fst (rd_Destination b))
  && (mask_bytes (snd (rd_Destination a)) =?s mask_bytes (snd (rd_Destination b))).

(** The loop over the sorted routes, with the one before. *)
Fixpoint dedup (prev : option RouteData) (routes : list RouteData) : list RouteData :=
  match routes with
  | [] => []
  | r :: routes =>
      let rest := dedup (Some r) routes in
      match prev with
      | Some p => if same_data r p then rest else r :: rest
      | None => r :: rest
      end
  end.

Definition deduplicatedRoutes (routes : list RouteData) : list RouteData :=
  dedup None (sort_Slice (less_of route_compare) routes).

(** ** The interface *)

Definition set_addresses (luid family : Z) (addresses : list IPNetv) : prog W unit :=
  let! r := attempt (SetIPAddressesForFamily luid family addresses) in
  match r with
  | Fail e =>
      if is_sys "ERROR_OBJECT_ALREADY_EXISTS" e then
        cleanupAddressesOnDisconnectedInterfaces family addresses ;;
        SetIPAddressesForFamily luid family addresses
      else io_fail e
  | _ => io_ret tt
  end.

(** The row as it is written back. *)
Definition tuned_ipif (family : Z) (conf : Config) (p : plan) (ipif : MibIPInterfaceRow) : MibIPInterfaceRow :=
  let mtu := if MTU (Iface conf) >? 0 then u32 (MTU (Iface conf)) else NLMTU ipif in
  let fixed := ((family =? AF_INET) && foundDefault4 p) || ((family =? AF_INET6) && foundDefault6 p) in
  let v6 := family =? AF_INET6 in
  mkIpIf (ipif_Family ipif) (ipif_LUID ipif) (InterfaceIndex ipif)
    (if fixed then false else UseAutomaticMetric ipif)
    (if v6 then RouterDiscoveryDisabled else RouterDiscoveryBehavior ipif)
    (if v6 then 0 else DadTransmits ipif) (SitePrefixLength ipif)
    (if fixed then 0 else ipif_Metric ipif) mtu.

Definition set_interface (family : Z) (conf : Config) (luid : Z) (p : plan) : prog W unit :=
  let! ipif := IPInterface luid family in
  (if MTU (Iface conf) >? 0 then ForceMTU (u32 (MTU (Iface conf))) else io_ret tt) ;;
  setIPInterfaceEntry (tuned_ipif family conf p ipif) ;;
  SetDNS luid family (DNS (Iface conf)) (DNSSearch (Iface conf)).

(** [MaskSelf] also clears the host bits of the caller's entries; that is not
    returned, since masking again, for the other family, changes nothing. *)
Definition configureInterface (family : Z) (conf : Config) (luid : Z) : prog W unit :=
  let addresses := map IPNet (Addresses (Iface conf)) in
  let! p := io_lift (plan_of conf) in
  set_addresses luid family addresses ;;
  let routes := deduplicatedRoutes (pl_routes p) in
  (if negb (TableOff (Iface conf)) then SetRoutesForFamily luid family routes else io_ret tt) ;;
  set_interface family conf luid p.
End Configure.

(** ** The firewall *)




(** ** Configuring the interface: theorems

    When [configureInterface] succeeds, the routes of its interface and family
    are exactly those of the allowed IPs, each once, and the addresses are
    there; nothing else of the route table changes. *)
From S2P Require Import TunnelName Parser ParserFacts RoundTrip ConfFacts FirewallFacts FirewallPolicy PlainWindows FirewallTheorems.

Local Open Scope Z_scope.
Local Open Scope io_scope.

Lemma filter_iff_in {A} (P Q : A → Prop) `{∀ x, Decision (P x)} `{∀ x, Decision (Q x)} (l : list A) :
  (∀ x, x ∈ l → P x ↔ Q x) → filter P l = filter Q l.
Proof.
  induction l as [|x l IH]; intros HPQ; [done|]. rewrite !filter_cons, IH by (intros; apply HPQ; by right).
  destruct (decide (P x)) as [HP|HP], (decide (Q x)) as [HQ|HQ]; try done; exfalso; apply HP || apply HQ; by apply HPQ; [left|].
Qed.

Lemma NoDup_omap_inj {A B} (f : A → option B) (l : list A) :
  (∀ x y r, x ∈ l → y ∈ l → f x = Some r → f y = Some r → x = y) → NoDup l → NoDup (omap f l).
Proof.
  intros Hinj Hnd. induction Hnd as [|x l Hx _ IH]; [constructor|]. cbn.
  assert (NoDup (omap f l)) as Hl by (apply IH; intros; eapply Hinj; try done; by right).
  destruct (f x) as [r|] eqn:E; [|done]. constructor; [|done]. rewrite list_elem_of_omap. intros (y & Hy & Ey).
  apply Hx. rewrite (Hinj x y r); [done|by left|by right|done|done].
Qed.

Section Effects.
Context {W : Type} `{IpHelper W} (view : W → ip_view) `{!IpHelperLaws W view}.

(** A property of the tables that a program keeps. *)
Definition stays {A} (P : ip_view → Prop) (m : prog W A) : Prop := ∀ w, P (view w) → P (view (m w).1).

Lemma st_quiet {A} P (m : prog W A) : quiet view m → stays P m.
Proof. intros Hq w. by rewrite Hq. Qed.

Lemma st_bind {A B} P (m : prog W A) (k : A → prog W B) : stays P m → (∀ a, stays P (k a)) → stays P (io_bind m k).
Proof. intros Hm Hk w HP. specialize (Hm w HP). unfold io_bind. destruct (m w) as [w1 [a| |]]; cbn in *; [by apply Hk|done..]. Qed.

Lemma st_attempt {A} P (m : prog W A) : stays P m → stays P (attempt m).
Proof. intros Hm w HP. specialize (Hm w HP). unfold attempt. by destruct (m w). Qed.

Lemma st_ignore {A} P (m : prog W A) : stays P m → stays P (ignore_error m).
Proof. intros Hm w HP. specialize (Hm w HP). unfold ignore_error. by destruct (m w). Qed.

Lemma st_wrapping {A} P msg (m : prog W A) : stays P m → stays P (wrapping msg m).
Proof. intros Hm w HP. specialize (Hm w HP). unfold wrapping. by destruct (m w). Qed.

Lemma st_each {A} P (f : A → prog W unit) l : (∀ x, x ∈ l → stays P (f x)) → stays P (each f l).
Proof.
  intros Hf. induction l as [|x l IH]; cbn; [by intros w|].
  apply st_bind; [apply Hf; by left|]. intros _. apply IH. intros y Hy. apply Hf. by right.
Qed.

Lemma st_each_last {A} P (f : A → prog W unit) l last : (∀ x, stays P (f x)) → stays P (each_last f l last).
Proof. intros Hf. revert last. induction l; intros last; cbn; [by intros w|]. apply st_bind; [by apply st_attempt|done]. Qed.

Lemma st_ret {A} P (a : A) : stays P (io_ret a).
Proof. by intros w. Qed.
Lemma st_fail {A} P e : stays P (io_fail (A := A) e).
Proof. by intros w. Qed.
Lemma st_lift {A} P (m : outcome A) : stays P (io_lift m).
Proof. by intros w. Qed.

#[local] Set Default Proof Using "All".

Lemma st_create_address (P : ip_view → Prop) r :
  (∀ v, P v → P (mkView (v_addresses v ++ [r]) (v_routes v) (v_dns v))) → stays P (createUnicastIPAddressEntry r).
Proof. intros HP w Hw. destruct (createUnicastIPAddressEntry r w) as [w' o] eqn:E. cbn. rewrite (create_address _ _ _ _ E). destruct o; auto. Qed.
Lemma st_delete_address (P : ip_view → Prop) r :
  (∀ v, P v → P (mkView (filter (λ r', ¬ same_address r r') (v_addresses v)) (v_routes v) (v_dns v))) → stays P (deleteUnicastIPAddressEntry r).
Proof. intros HP w Hw. destruct (deleteUnicastIPAddressEntry r w) as [w' o] eqn:E. cbn. rewrite (delete_address _ _ _ _ E). destruct o; auto. Qed.

(** A property of the addresses or of the routes only. *)
Definition of_addresses (P : list MibUnicastIPAddressRow → Prop) (v : ip_view) : Prop := P (v_addresses v).
Definition of_routes (P : list MibIPforwardRow2 → Prop) (v : ip_view) : Prop := P (v_routes v).

Lemma st_create_address_r P r : stays (of_routes P) (createUnicastIPAddressEntry r).
Proof. by apply st_create_address. Qed.
Lemma st_delete_address_r P r : stays (of_routes P) (deleteUnicastIPAddressEntry r).
Proof. by apply st_delete_address. Qed.
Lemma st_create_route P r : stays (of_addresses P) (createIPForwardEntry2 r).
Proof. intros w Hw. destruct (createIPForwardEntry2 r w) as [w' o] eqn:E. cbn. rewrite (create_route _ _ _ _ E). by destruct o. Qed.
Lemma st_delete_route P r : stays (of_addresses P) (deleteIPForwardEntry2 r).
Proof. intros w Hw. destruct (deleteIPForwardEntry2 r w) as [w' o] eqn:E. cbn. rewrite (delete_route _ _ _ _ E). by destruct o. Qed.
Lemma st_dns_r P g s : stays (of_routes P) (setInterfaceDnsSettings g s).
Proof. intros w Hw. destruct (setInterfaceDnsSettings g s w) as [w' o] eqn:E. cbn. rewrite (set_dns _ _ _ _ _ E). by destruct o. Qed.
Lemma st_dns_a P g s : stays (of_addresses P) (setInterfaceDnsSettings g s).
Proof. intros w Hw. destruct (setInterfaceDnsSettings g s w) as [w' o] eqn:E. cbn. rewrite (set_dns _ _ _ _ _ E). by destruct o. Qed.

End Effects.

Create HintDb st.
#[local] Hint Resolve st_ret st_fail st_lift st_create_address_r st_delete_address_r st_create_route st_delete_route st_dns_r st_dns_a : st.
#[local] Hint Resolve st_quiet address_table_view route_table_view route_entry_view get_ipif_view set_ipif_view get_if_view
  luid_guid_view adapters_view netsh_view open_key_view get_strings_view set_string_view force_mtu_view : st.

Ltac st_step :=
  first [ solve [eauto with st] | apply st_each; intros ? _ | apply st_each_last; intros ?
        | apply st_attempt | apply st_ignore | apply st_wrapping | apply st_bind; [|intros ?] | case_match ].
Ltac stays := repeat st_step.

#[local] Set Default Proof Using "All".

Section Operations.
Context {W : Type} `{IpHelper W} (view : W → ip_view) `{!IpHelperLaws W view}.

Lemma st_SetDNS_r P luid family servers domains : stays view (of_routes P) (SetDNS luid family servers domains).
Proof. unfold SetDNS, fallbackSetDNSForFamily, fallbackSetDNSDomain, runNetsh, IPInterface, LUID_GUID. stays. Qed.
Lemma st_SetDNS_a P luid family servers domains : stays view (of_addresses P) (SetDNS luid family servers domains).
Proof. unfold SetDNS, fallbackSetDNSForFamily, fallbackSetDNSDomain, runNetsh, IPInterface, LUID_GUID. stays. Qed.

Lemma st_SetIPAddresses_r P luid family addresses : stays view (of_routes P) (SetIPAddressesForFamily luid family addresses).
Proof. unfold SetIPAddressesForFamily, FlushIPAddresses, AddIPAddress, address_row. stays. Qed.

Lemma st_set_addresses_r P luid family addresses : stays view (of_routes P) (set_addresses luid family addresses).
Proof.
  pose proof (st_SetIPAddresses_r P luid family addresses). unfold set_addresses, cleanupAddressesOnDisconnectedInterfaces,
    cleanup_adapter, DeleteIPAddress, address_row. stays; done.
Qed.

Lemma st_SetRoutes_a P luid family routes : stays view (of_addresses P) (SetRoutesForFamily luid family routes).
Proof. unfold SetRoutesForFamily, FlushRoutes, AddRoute, route_row. stays. Qed.
End Operations.

(** ** The route table after a change *)

Section Routes.
Context {W : Type} `{IpHelper W} (view : W → ip_view) `{!IpHelperLaws W view}.

Definition ours (luid family : Z) (r : MibIPforwardRow2) : Prop :=
  route_LUID r = luid ∧ in_family family (Prefix (DestinationPrefix r)).
#[export] Instance ours_dec luid family r : Decision (ours luid family r).
Proof. unfold ours. apply _. Defined.

Lemma each_last_clean {A} (f : A → prog W unit) l last w w' : each_last f l last w = (w', Ret None) →
  last = None ∧ each f l w = (w', Ret tt).
Proof.
  revert last w. induction l as [|x l IH]; intros last w Hr; cbn in Hr; [by injection Hr as -> ->|].
  prog_inv. unfold attempt in Hr0. destruct (f x w) as [w1 r] eqn:E. destruct r as [[]|e|]; [|..].
  - injection Hr0 as <- <-. apply IH in Hr as [-> Hr]. split; [done|]. cbn. unfold io_bind. by rewrite E.
  - injection Hr0 as <- <-. by apply IH in Hr as [? _].
  - by injection Hr0.
Qed.

Lemma each_delete l : ∀ w w', each deleteIPForwardEntry2 l w = (w', Ret tt) →
  v_routes (view w') = filter (λ r', Forall (λ r, ¬ same_route r r') l) (v_routes (view w)).
Proof.
  induction l as [|r l IH]; intros w w' Hr; cbn in Hr.
  - injection Hr as <-. symmetry. rewrite (filter_iff_in _ (λ _, True)) by (intros; split; constructor). by induction (v_routes (view w)) as [|x t IH]; [|rewrite filter_cons, decide_True, IH by done].
  - prog_inv. rewrite (IH _ _ Hr). rewrite (delete_route _ _ _ _ Hr0). destruct a. cbn [v_routes]. rewrite list_filter_filter.
    apply list_filter_iff. intros r'. rewrite Forall_cons. tauto.
Qed.

Lemma FlushRoutes_ok luid family w w' : FlushRoutes luid family w = (w', Ret tt) →
  v_routes (view w') = filter (λ r, ¬ ours luid family r) (v_routes (view w)).
Proof.
  unfold FlushRoutes. intros Hr. prog_inv. destruct a0 as [e|]; [by unfold io_fail in Hr|]. injection Hr as <-.
  apply each_last_clean in Hr1 as [_ Hr1]. rewrite (each_delete _ _ _ Hr1).
  pose proof (route_table_view (view := view) family w) as Hv. rewrite Hr0 in Hv. cbn in Hv. rewrite Hv.
  rewrite (route_table_ok _ _ _ _ Hr0). apply filter_iff_in. intros r' Hr'. rewrite Forall_forall. split.
  - intros Hn [Ho1 Ho2]. apply (Hn r'); [|by split]. rewrite !list_elem_of_filter. by split_and!.
  - intros Hn r. rewrite !list_elem_of_filter. intros (Hl & Hf & _) (El & Ed & _). apply Hn. split; [congruence|]. by rewrite <- Ed.
Qed.

Lemma each_add {A} (row : A → option MibIPforwardRow2) (f : A → prog W unit) l :
  (∀ x w w', f x w = (w', Ret tt) → v_routes (view w') = v_routes (view w) ++ option_list (row x)) →
  ∀ w w', each f l w = (w', Ret tt) → v_routes (view w') = v_routes (view w) ++ omap row l.
Proof.
  intros Hf. induction l as [|x l IH]; intros w w' Hr; cbn in Hr; [injection Hr as <-; by rewrite app_nil_r|].
  prog_inv. destruct a. rewrite (IH _ _ Hr), (Hf _ _ _ Hr0), <- app_assoc. cbn. by destruct (row x).
Qed.

(** The entry a route makes, when it belongs to the family. *)
Definition data_row (luid family : Z) (rd : RouteData) : option MibIPforwardRow2 :=
  if wanted_family family (fst (rd_Destination rd)) then
    match SetIPNet (rd_Destination rd), SetIP (rd_NextHop rd) with
    | Ret d, Ret n => Some (mkRouteRow luid 0 d n (rd_Metric rd))
    | _, _ => None
    end
  else None.

Lemma SetRoutesForFamily_ok luid family routes w w' : SetRoutesForFamily luid family routes w = (w', Ret tt) →
  v_routes (view w') = filter (λ r, ¬ ours luid family r) (v_routes (view w)) ++ omap (data_row luid family) routes.
Proof.
  unfold SetRoutesForFamily. intros Hr. prog_inv. destruct a. rewrite <- (FlushRoutes_ok _ _ _ _ Hr0).
  revert Hr. apply each_add. intros rd v v' Hv. unfold data_row. destruct (wanted_family family (fst (rd_Destination rd))).
  - unfold AddRoute, route_row in Hv. prog_inv. idtac. repeat match goal with E : SetIP _ = _ |- _ => rewrite E; clear E | E : SetIPNet _ = _ |- _ => rewrite E; clear E end. by rewrite (create_route _ _ _ _ Hv).
  - injection Hv as <-. by rewrite app_nil_r.
Qed.
End Routes.

(** ** The routes of a configuration *)

Definition entry_family (a : IPCidr) : Z := if Bits a =? 32 then AF_INET else AF_INET6.

(** The route an allowed IP asks for. *)
Definition tunnel_route (luid : Z) (a : IPCidr) : MibIPforwardRow2 :=
  mkRouteRow luid 0 (mkPrefix (mkSockaddr (entry_family a) (IPof (masked a))) (Cidr a))
    (mkSockaddr (entry_family a) (replicate (length (IPof a)) x00)) 0.

Definition allowed (conf : Config) : list IPCidr := concat (map AllowedIPs (Peers conf)).

Definition wf_networks (conf : Config) : Prop := Forall wf_cidr (Addresses (Iface conf)) ∧ Forall wf_cidr (allowed conf).

(** The reader leaves no other networks. *)
Lemma parsed_networks `{GoRuntime} text name conf : FromWgQuick text name = Ret conf → wf_networks conf.
Proof.
  intros [_ Hi Hp _ _]%FromWgQuick_accepted. split; [apply Hi|]. unfold allowed. apply Forall_concat, Forall_map.
  eapply Forall_impl; [exact Hp|]. intros p Hw. apply Hw.
Qed.

(** A default route, or one for which the interface has no address, is left out. *)
Definition has_address (conf : Config) (a : IPCidr) : bool := have_family (Bits a) conf.

Definition route_of (a : IPCidr) : RouteData :=
  mkRouteData (IPNet (masked a)) (if Bits a =? 32 then IPv4zero else IPv6zero) 0.

Lemma and_ff b : and_byte b xff = b.
Proof. by_bytes (λ b, Byte.eqb (and_byte b xff) b) b. by destruct (byte_eqb_spec (and_byte b xff) b). Qed.

Lemma and_is_ff b m : and_byte b m = xff → m = xff.
Proof.
  by_bytes (λ b, forallb (λ m, implb (Byte.eqb (and_byte b m) xff) (Byte.eqb m xff)) all_bytes) b.
  rewrite forallb_forall. intros Hall E. specialize (Hall m (all_bytes_complete m)). rewrite E in Hall. cbn in Hall.
  by destruct (byte_eqb_spec m xff).
Qed.

Lemma mask_byte_ff n : mask_byte n = xff → 8 <= n.
Proof.
  unfold mask_byte. intros E. destruct (Z.geb_spec n 8); [lia|]. destruct (Z.leb_spec n 0); [done|].
  assert (n = 1 ∨ n = 2 ∨ n = 3 ∨ n = 4 ∨ n = 5 ∨ n = 6 ∨ n = 7) as Hn by lia.
  exfalso. repeat (destruct Hn as [->|Hn]; [by vm_compute in E|]). subst. by vm_compute in E.
Qed.

Lemma zip_ff l : zip_with and_byte l (replicate (length l) xff) = l.
Proof. induction l as [|b l IH]; cbn; [done|]. by rewrite and_ff, IH. Qed.

Lemma mask_from_ff c n : 8 * Z.of_nat n <= c → mask_from c 0 n = replicate n xff.
Proof.
  intros Hc. unfold mask_from. apply list_eq. intros i. rewrite list_lookup_fmap. destruct (decide (i < n)%nat) as [Hi|Hi].
  - rewrite lookup_seq_lt, lookup_replicate_2 by done. cbn. f_equal. unfold mask_byte. rewrite Z.geb_leb, (proj2 (Z.leb_le _ _)) by lia. done.
  - rewrite lookup_seq_ge by lia. symmetry. apply lookup_replicate_None. lia.
Qed.

(** Masking does not turn an IPv6 network into an IPv4-mapped one. *)
Lemma masked_prefix a : length (IPof a) = 16%nat → take 12 (IPof (masked a)) = v4InV6Prefix → take 12 (IPof a) = v4InV6Prefix.
Proof.
  intros Hl E. unfold masked in E. cbn [IPof] in E. rewrite Hl in E.
  assert (8 * Z.of_nat 12 <= Cidr a) as Hc.
  { assert (zip_with and_byte (IPof a) (mask_from (Cidr a) 0 16) !! 11%nat = Some xff) as Hx.
    { rewrite <- (lookup_take_lt _ 12) by lia. by rewrite E. }
    rewrite lookup_zip_with in Hx. destruct (IPof a !! 11%nat) as [b|]; [|done].
    unfold mask_from in Hx. rewrite list_lookup_fmap, lookup_seq_lt in Hx by lia. cbn -[and_byte mask_byte] in Hx.
    injection Hx as Hx%and_is_ff%mask_byte_ff. lia. }
  rewrite <- E, zip_with_take. assert (take 12 (mask_from (Cidr a) 0 16) = mask_from (Cidr a) 0 12) as ->.
  { done. }
  rewrite mask_from_ff by done. rewrite <- (zip_ff (take 12 (IPof a))) at 1. f_equal. f_equal. rewrite length_take. lia.
Qed.

Lemma masked_To4 a : wf_cidr a → To4 (IPof (masked a)) = if Bits a =? 32 then Some (IPof (masked a)) else None.
Proof.
  unfold Bits. intros [[Hl Hc]|(Hl & H4 & Hc)].
  - rewrite (To4_short (IPof a)) by done. change (32 =? 32) with true. cbv iota. apply To4_short. by rewrite masked_length.
  - rewrite H4. change (128 =? 32) with false. cbv iota. unfold To4 in *. rewrite masked_length. rewrite Hl in *. cbn [Nat.eqb andb] in *.
    destruct (str_eqb_spec (take 12 (IPof (masked a))) v4InV6Prefix) as [E|]; [|done].
    apply (masked_prefix a Hl) in E. by rewrite E, str_eqb_refl in H4.
Qed.

Lemma masked_wf a : wf_cidr a → wf_cidr (masked a).
Proof.
  intros Hw. pose proof (masked_To4 a Hw) as H4. destruct Hw as [[Hl Hc]|(Hl & Ha & Hc)]; [left|right].
  - by rewrite masked_length.
  - rewrite masked_length. split; [done|]. split; [|exact Hc]. unfold Bits in H4. by rewrite Ha in H4.
Qed.

Lemma masked_Bits a : wf_cidr a → Bits (masked a) = Bits a.
Proof. intros Hw. unfold Bits at 1. rewrite masked_To4 by done. unfold Bits. by destruct (To4 (IPof a)). Qed.

Lemma wf_Bits a : wf_cidr a → Bits a = 8 * Z.of_nat (length (IPof a)) ∧ 0 <= Cidr a <= Bits a ∧ (Bits a = 32 ∨ Bits a = 128).
Proof. unfold Bits. intros [[Hl Hc]|(Hl & H4 & Hc)]; [rewrite To4_short, Hl by done|rewrite H4, Hl]; lia. Qed.

Lemma mask_ones_CIDR a : wf_cidr a → mask_ones (snd (IPNet a)) = Cidr a.
Proof.
  intros Hw. pose proof (wf_Bits a Hw) as (_ & Hc & Hb). unfold IPNet. cbn [snd].
  rewrite (proj2 (Z.leb_le 0 (Cidr a))), (proj2 (Z.leb_le (Cidr a) (Bits a))) by lia. cbn [andb mask_ones].
  destruct Hb as [Hb|Hb]; rewrite Hb in *.
  - assert (0 <= Cidr a < 33) as Hx by lia. by_below 33 (λ c, bool_decide (simpleMaskLength (CIDRMask c 32) = Some c)) (Cidr a) Hx. rewrite bool_decide_eq_true. by intros ->.
  - assert (0 <= Cidr a < 129) as Hx by lia. by_below 129 (λ c, bool_decide (simpleMaskLength (CIDRMask c 128) = Some c)) (Cidr a) Hx. rewrite bool_decide_eq_true. by intros ->.
Qed.

Lemma SetIP_masked a : wf_cidr a → SetIP (IPof (masked a)) = Ret (mkSockaddr (entry_family a) (IPof (masked a))).
Proof.
  intros Hw. unfold SetIP, entry_family. rewrite masked_To4 by done. destruct (Bits a =? 32) eqn:E; [done|].
  unfold To16. rewrite masked_length. destruct Hw as [[Hl _]|(Hl & _)]; [|by rewrite Hl].
  unfold Bits in E. by rewrite To4_short in E.
Qed.

Lemma SetIPNet_masked a : wf_cidr a →
  SetIPNet (IPNet (masked a)) = Ret (mkPrefix (mkSockaddr (entry_family a) (IPof (masked a))) (Cidr a)).
Proof.
  intros Hw. pose proof (wf_Bits a Hw) as (_ & Hc & Hb). unfold SetIPNet. change (fst (IPNet (masked a))) with (IPof (masked a)).
  rewrite SetIP_masked, (mask_ones_CIDR _ (masked_wf a Hw)) by done. cbn [mbind outcome_bind]. change (Cidr (masked a)) with (Cidr a).
  unfold u8. rewrite Z.mod_small by lia. done.
Qed.

Lemma data_row_route_of luid family a : family = AF_INET ∨ family = AF_INET6 → wf_cidr a →
  data_row luid family (route_of a) = if entry_family a =? family then Some (tunnel_route luid a) else None.
Proof.
  intros Hf Hw. unfold data_row, route_of, wanted_family, tunnel_route. cbn [rd_Destination rd_NextHop rd_Metric].
  rewrite SetIPNet_masked by done. change (fst (IPNet (masked a))) with (IPof (masked a)). rewrite masked_To4 by done.
  assert ((length (IPof a) = 4%nat ∧ Bits a = 32) ∨ (length (IPof a) = 16%nat ∧ Bits a = 128)) as [[Hl Hb]|[Hl Hb]].
  { unfold Bits. destruct Hw as [[Hl _]|(Hl & Hn & _)]; [left; by rewrite To4_short|right; by rewrite Hn]. }
  all: unfold entry_family; rewrite Hl, Hb; destruct Hf as [-> | ->]; done.
Qed.

Definition keep_route (haveV4 haveV6 : bool) (a : IPCidr) : bool := if Bits a =? 32 then haveV4 else haveV6.

Lemma allowed_route_masked h4 h6 a : wf_cidr a →
  allowed_route h4 h6 (masked a) = if keep_route h4 h6 a then Some (route_of a) else None.
Proof.
  intros Hw. unfold allowed_route, keep_route, route_of. rewrite masked_Bits by done.
  destruct (wf_Bits a Hw) as (_ & _ & [-> | ->]); [by destruct h4|by destruct h6].
Qed.

Lemma plan_routes_wf h4 h6 l : Forall wf_cidr l → ∀ p, ∃ p', plan_routes h4 h6 l p = Ret p' ∧
  pl_routes p' = pl_routes p ++ map route_of (List.filter (keep_route h4 h6) l) ∧
  foundDefault4 p' = foundDefault4 p || existsb (is_default 32 h4) l ∧
  foundDefault6 p' = foundDefault6 p || existsb (is_default 128 h6) l.
Proof.
  induction 1 as [|a l Hw _ IH]; intros p; cbn [plan_routes existsb List.filter]; [exists p; by rewrite app_nil_r, !orb_false_r|].
  rewrite MaskSelf_wf by done. cbn [mbind outcome_bind]. rewrite allowed_route_masked by done.
  assert (∀ b h, is_default b h (masked a) = is_default b h a) as Hd by (intros; unfold is_default; by rewrite masked_Bits by done).
  destruct (keep_route h4 h6 a) eqn:Ek.
  - destruct (IH (mkPlan (pl_routes p ++ [route_of a]) (foundDefault4 p || is_default 32 h4 (masked a)) (foundDefault6 p || is_default 128 h6 (masked a))))
      as (p' & -> & E1 & E2 & E3). exists p'. cbn [pl_routes foundDefault4 foundDefault6] in *. rewrite !Hd in *.
    split_and!; [done|rewrite E1, <- app_assoc; done|rewrite E2, orb_assoc; done|rewrite E3, orb_assoc; done].
  - destruct (IH p) as (p' & -> & E1 & E2 & E3). exists p'. assert (is_default 32 h4 a = false ∧ is_default 128 h6 a = false) as [-> ->]; [|done].
    unfold keep_route, is_default in *. destruct (wf_Bits a Hw) as (_ & _ & [Hb|Hb]); rewrite Hb in *; cbn in Ek |- *; by rewrite Ek.
Qed.

Lemma plan_of_wf conf : wf_networks conf → ∃ p, plan_of conf = Ret p ∧
  pl_routes p = map route_of (List.filter (has_address conf) (allowed conf)).
Proof.
  intros [_ Hw]. destruct (plan_routes_wf (have_family 32 conf) (have_family 128 conf) _ Hw (mkPlan [] false false)) as (p & E & Er & _ & _).
  exists p. split; [exact E|]. rewrite Er. cbn [pl_routes app]. f_equal. apply List.filter_ext_in. intros a Ha.
  apply list_elem_of_In in Ha. eapply Forall_forall in Hw; [|exact Ha]. unfold keep_route, has_address.
  by destruct (wf_Bits a Hw) as (_ & _ & [-> | ->]).
Qed.

(** ** Sorting and dropping duplicates *)

Definition masked_route (rd : RouteData) : Prop := snd (rd_Destination rd) ≠ None.

Lemma route_compare_laws : comparison_laws route_compare.
Proof.
  apply lex_compare_laws. constructor; [apply (Z_compare_laws rd_Metric)|]. constructor; [apply (bytes_compare_laws rd_NextHop)|].
  constructor; [apply (bytes_compare_laws (λ a, fst (rd_Destination a)))|]. constructor; [|constructor].
  apply (bytes_compare_laws (λ a, mask_bytes (snd (rd_Destination a)))).
Qed.

Lemma route_compare_eq a b : masked_route a → masked_route b → route_compare a b = Eq → a = b.
Proof.
  unfold route_compare, masked_route. rewrite lex_compare_eq, !Forall_cons. intros Ha Hb (H1 & H2 & H3 & H4 & _).
  apply Z.compare_eq_iff in H1. apply str_compare_eq in H2, H3, H4. destruct a as [[ip [m|]] n me], b as [[ip' [m'|]] n' me']; cbn in *; congruence.
Qed.

Lemma same_data_eq a b : masked_route a → masked_route b → same_data a b = true ↔ a = b.
Proof.
  unfold same_data, masked_route. rewrite !andb_true_iff, Z.eqb_eq, !str_eqb_true. intros Ha Hb. split; [|by intros ->].
  destruct a as [[ip [m|]] n me], b as [[ip' [m'|]] n' me']; cbn in *; naive_solver.
Qed.

Lemma dedup_subset prev l x : x ∈ dedup prev l → x ∈ l.
Proof.
  revert prev. induction l as [|r l IH]; intros prev; cbn; [done|]. destruct prev as [p|]; [destruct (same_data r p)|].
  - intros Hx. right. by eapply IH.
  - rewrite !elem_of_cons. naive_solver.
  - rewrite !elem_of_cons. naive_solver.
Qed.

(** Nothing is lost: what is left out equals its neighbour. *)
Lemma dedup_complete l : Forall masked_route l → ∀ prev x, (∀ p, prev = Some p → masked_route p) →
  x ∈ l → x ∈ dedup prev l ∨ prev = Some x.
Proof.
  induction 1 as [|r l Hr Hl IH]; intros prev x Hp; [by intros ?%elem_of_nil|].
  assert (∀ q, Some r = Some q → masked_route q) as Hq by (intros q [= <-]; done). cbn [dedup].
  intros [->|Hx]%elem_of_cons; [|destruct (IH (Some r) x Hq Hx) as [Hd|[= ->]]].
  - destruct prev as [p|]; [|left; by left]. destruct (same_data r p) eqn:E; [|left; by left]. right. f_equal. symmetry. apply same_data_eq; auto.
  - left. destruct prev as [p|]; [destruct (same_data r p)|]; [done|by right..].
  - destruct prev as [p|]; [|left; by left]. destruct (same_data x p) eqn:E; [|left; by left]. right. f_equal. symmetry. apply same_data_eq; auto.
Qed.

Lemma dedup_NoDup p l : StronglySorted (in_order (less_of route_compare)) (p :: l) → Forall masked_route (p :: l) →
  NoDup (dedup (Some p) l) ∧ p ∉ dedup (Some p) l.
Proof.
  revert p. induction l as [|r l IH]; intros p Hs Hm; cbn [dedup]; [split; [constructor|by apply not_elem_of_nil]|].
  inversion_clear Hs as [|? ? Hs' Hp]. apply Forall_cons in Hm as [Mp Hm]. apply Forall_cons in Hp as [Hpr Hpl]. pose proof Hm as [Mr Ml]%Forall_cons.
  destruct (IH r Hs' Hm) as [Hn Hr]. destruct (same_data r p) eqn:E.
  - apply same_data_eq in E as <-; done.
  - assert (p ≠ r) as Hne by (intros ->; by rewrite (proj2 (same_data_eq r r Mr Mr)) in E).
    split; [by constructor|]. rewrite not_elem_of_cons. split; [done|]. intros Hd%dedup_subset.
    inversion_clear Hs' as [|? ? _ Hrl]. rewrite Forall_forall in Hrl. apply Hne. apply route_compare_eq; [done..|].
    apply less_antisym; [apply route_compare_laws|done|by apply Hrl].
Qed.

Lemma deduplicatedRoutes_spec `{SortSliceLaws} l : Forall masked_route l →
  NoDup (deduplicatedRoutes l) ∧ ∀ x, x ∈ deduplicatedRoutes l ↔ x ∈ l.
Proof.
  intros Hm. unfold deduplicatedRoutes. pose proof (sort_Slice_sorted route_compare l route_compare_laws) as Hs.
  pose proof (sort_Slice_perm (less_of route_compare) l) as Hp. set (s := sort_Slice _ l) in *.
  assert (Forall masked_route s) as Ms by (by rewrite Hp). split.
  - destruct s as [|p s]; cbn [dedup]; [constructor|]. destruct (dedup_NoDup p s Hs Ms). by constructor.
  - intros x. rewrite <- Hp. split; [apply dedup_subset|]. intros Hx. by destruct (dedup_complete s Ms None x ltac:(done) Hx) as [?|?].
Qed.

Lemma route_of_masked_route a : wf_cidr a → masked_route (route_of a).
Proof.
  intros Hw. unfold masked_route, route_of, IPNet. cbn [rd_Destination snd]. rewrite masked_Bits by done.
  change (Cidr (masked a)) with (Cidr a). destruct (wf_Bits a Hw) as (_ & Hc & _).
  by rewrite (proj2 (Z.leb_le 0 (Cidr a))), (proj2 (Z.leb_le (Cidr a) (Bits a))) by lia.
Qed.

(** Two entries with one route are one and the same network. *)
Lemma tunnel_route_inj luid a b : wf_cidr a → wf_cidr b → tunnel_route luid a = tunnel_route luid b → route_of a = route_of b.
Proof.
  intros Ha Hb E. injection E as Ef Ei Ec _ _. unfold route_of, IPNet. rewrite !masked_Bits by done.
  change (Cidr (masked a)) with (Cidr a). change (Cidr (masked b)) with (Cidr b).
  assert (Bits a = Bits b) as Hbits.
  { unfold entry_family in Ef. destruct (wf_Bits a Ha) as (_ & _ & [Ea|Ea]), (wf_Bits b Hb) as (_ & _ & [Eb|Eb]); rewrite Ea, Eb in *; done. }
  rewrite Hbits, Ec. f_equal. f_equal. exact Ei.
Qed.

(** ** Main theorems *)

Section Configured.
Context {W : Type} `{IpHelper W} (view : W → ip_view) `{!IpHelperLaws W view} `{SortSliceLaws}.

(** The routes the service gives the interface: those of the allowed IPs whose
    family the interface has an address of. *)
Definition wanted_routes (luid family : Z) (conf : Config) (r : MibIPforwardRow2) : Prop :=
  ∃ a, a ∈ allowed conf ∧ has_address conf a = true ∧ entry_family a = family ∧ r = tunnel_route luid a.

Lemma rows_spec luid family conf p : family = AF_INET ∨ family = AF_INET6 → wf_networks conf → plan_of conf = Ret p →
  NoDup (omap (data_row luid family) (deduplicatedRoutes (pl_routes p))) ∧
  ∀ r, r ∈ omap (data_row luid family) (deduplicatedRoutes (pl_routes p)) ↔ wanted_routes luid family conf r.
Proof.
  intros Hf Hw Hp. destruct (plan_of_wf conf Hw) as (p' & Hp' & Er). rewrite Hp in Hp'. injection Hp' as <-. destruct Hw as [_ Hw].
  assert (∀ rd, rd ∈ pl_routes p → ∃ a, a ∈ allowed conf ∧ has_address conf a = true ∧ wf_cidr a ∧ rd = route_of a) as Hrd.
  { intros rd. rewrite Er. intros (a & -> & Ha)%list_elem_of_fmap. apply list_elem_of_In, filter_In in Ha as [Ha Hh]. apply list_elem_of_In in Ha.
    exists a. split_and!; try done. by eapply Forall_forall in Hw. }
  destruct (deduplicatedRoutes_spec (pl_routes p)) as [Hnd Hel].
  { apply Forall_forall. intros rd (a & _ & _ & Ha & ->)%Hrd. by apply route_of_masked_route. }
  split.
  - apply NoDup_omap_inj; [|done]. intros x y r Hx Hy Ex Ey. apply Hel in Hx, Hy.
    destruct (Hrd _ Hx) as (a & _ & _ & Wa & ->), (Hrd _ Hy) as (b & _ & _ & Wb & ->).
    rewrite data_row_route_of in Ex, Ey by done. destruct (_ =? _); [|done]. destruct (_ =? _); [|done].
    apply (tunnel_route_inj luid); [done|done|]. congruence.
  - intros r. rewrite list_elem_of_omap. split.
    + intros (rd & Hin & Hr). apply Hel in Hin. destruct (Hrd _ Hin) as (a & Ha & Hh & Wa & ->).
      rewrite data_row_route_of in Hr by done. destruct (Z.eqb_spec (entry_family a) family); [|done]. injection Hr as <-. by exists a.
    + intros (a & Ha & Hh & Hfa & ->). pose proof Hw as Hw'. rewrite Forall_forall in Hw'. exists (route_of a). split.
      * apply Hel. rewrite Er. apply list_elem_of_fmap_2, list_elem_of_In, filter_In. split; [by apply list_elem_of_In|done].
      * rewrite data_row_route_of by auto. by rewrite Hfa, Z.eqb_refl.
Qed.

(** ** Addresses *)

Definition address_entry (luid : Z) (a : IPCidr) : MibUnicastIPAddressRow :=
  mkAddrRow luid (mkSockaddr (entry_family a) (IPof a)) (Cidr a).

Definition configured (luid family : Z) (conf : Config) (r : MibUnicastIPAddressRow) : Prop :=
  ∃ a, a ∈ Addresses (Iface conf) ∧ entry_family a = family ∧ r = address_entry luid a.

Lemma SetIP_wf a : wf_cidr a → SetIP (IPof a) = Ret (mkSockaddr (entry_family a) (IPof a)).
Proof.
  unfold SetIP, entry_family, Bits, To16. intros [[Hl _]|(Hl & Hn & _)]; [by rewrite To4_short|by rewrite Hn, Hl].
Qed.

Lemma wanted_family_wf family a : family = AF_INET ∨ family = AF_INET6 → wf_cidr a →
  wanted_family family (IPof a) = (entry_family a =? family).
Proof.
  unfold wanted_family, entry_family, Bits. intros Hf [[Hl _]|(_ & Hn & _)]; [rewrite To4_short by done|rewrite Hn]; by destruct Hf as [-> | ->].
Qed.

Lemma address_row_wf luid a (w : W) : wf_cidr a → address_row luid (IPNet a) w = (w, Ret (address_entry luid a)).
Proof.
  intros Hw. unfold address_row. change (fst (IPNet a)) with (IPof a). rewrite SetIP_wf by done. unfold io_bind, io_lift, io_ret, address_entry.
  rewrite mask_ones_CIDR by done. destruct (wf_Bits a Hw) as (_ & Hc & Hb). unfold u8. rewrite Z.mod_small by lia. done.
Qed.

Section Adding.
Context (luid family : Z) (conf : Config) (Hf : family = AF_INET ∨ family = AF_INET6) (Hwf : wf_networks conf).

(** Only configured addresses are added. *)
Definition only_configured (old : list MibUnicastIPAddressRow) : ip_view → Prop :=
  of_addresses (λ l, ∀ r, r ∈ l → r ∈ old ∨ configured luid family conf r).

Lemma only_delete old r : stays view (only_configured old) (deleteUnicastIPAddressEntry r).
Proof.
  apply st_delete_address; [done|]. intros v Hv r'. cbn [v_addresses]. rewrite list_elem_of_filter. intros [_ Hr']. by apply Hv.
Qed.

Lemma only_add old a : a ∈ Addresses (Iface conf) →
  stays view (only_configured old) (if wanted_family family (fst (IPNet a)) then AddIPAddress luid (IPNet a) else io_ret tt).
Proof.
  intros Ha. pose proof Hwf as [Hwa _]. rewrite Forall_forall in Hwa. specialize (Hwa a Ha).
  change (fst (IPNet a)) with (IPof a). rewrite wanted_family_wf by done. destruct (Z.eqb_spec (entry_family a) family) as [Efam|]; [|by intros w].
  unfold AddIPAddress. intros w Hw. unfold io_bind. rewrite address_row_wf by done. revert w Hw.
  apply st_create_address; [done|]. intros v Hv r. cbn [v_addresses]. rewrite elem_of_app, list_elem_of_singleton.
  intros [Hr| ->]; [by apply Hv|]. right. by exists a.
Qed.

Lemma only_SetIPAddresses old : stays view (only_configured old) (SetIPAddressesForFamily luid family (map IPNet (Addresses (Iface conf)))).
Proof.
  unfold SetIPAddressesForFamily, FlushIPAddresses. apply st_bind.
  - apply st_bind; [apply st_quiet, address_table_view|]. intros t. apply st_each. intros r _. apply st_ignore, only_delete.
  - intros _. apply st_each. intros x (a & -> & Ha)%list_elem_of_fmap. by apply only_add.
Qed.

Lemma only_set_addresses old : stays view (only_configured old) (set_addresses luid family (map IPNet (Addresses (Iface conf)))).
Proof.
  pose proof (only_SetIPAddresses old) as Hs. unfold set_addresses, cleanupAddressesOnDisconnectedInterfaces, cleanup_adapter, DeleteIPAddress, address_row.
  pose proof (only_delete old) as Hd. stays; done.
Qed.

Lemma add_one a w w' : wf_cidr a →
  (if wanted_family family (fst (IPNet a)) then AddIPAddress luid (IPNet a) else io_ret tt) w = (w', Ret tt) →
  v_addresses (view w') = v_addresses (view w) ++ (if entry_family a =? family then [address_entry luid a] else []).
Proof.
  intros Hw Hr. change (fst (IPNet a)) with (IPof a) in Hr. rewrite wanted_family_wf in Hr by done. destruct (_ =? _).
  - unfold AddIPAddress, io_bind in Hr. rewrite address_row_wf in Hr by done. by rewrite (create_address _ _ _ _ Hr).
  - injection Hr as <-. by rewrite app_nil_r.
Qed.

Lemma add_all l : Forall wf_cidr l → ∀ w w',
  each (λ a, if wanted_family family (fst a) then AddIPAddress luid a else io_ret tt) (map IPNet l) w = (w', Ret tt) →
  (∀ r, r ∈ v_addresses (view w) → r ∈ v_addresses (view w')) ∧
  ∀ a, a ∈ l → entry_family a = family → address_entry luid a ∈ v_addresses (view w').
Proof.
  induction 1 as [|a l Hw _ IH]; intros w w' Hr; cbn in Hr; [injection Hr as <-; split; [done|by intros a ?%elem_of_nil]|].
  prog_inv. destruct a0. destruct (IH _ _ Hr) as [Hk Ha]. pose proof (add_one a w w0 Hw Hr0) as E. split.
  - intros r Hin. apply Hk. rewrite E. apply elem_of_app. by left.
  - intros b [->|Hb]%elem_of_cons Hfb; [|by apply Ha]. apply Hk. rewrite E, Hfb, Z.eqb_refl. apply elem_of_app. right. by left.
Qed.

Lemma SetIPAddresses_has w w' : SetIPAddressesForFamily luid family (map IPNet (Addresses (Iface conf))) w = (w', Ret tt) →
  ∀ a, a ∈ Addresses (Iface conf) → entry_family a = family → address_entry luid a ∈ v_addresses (view w').
Proof.
  unfold SetIPAddressesForFamily. intros Hr. prog_inv. apply add_all in Hr as [_ Hr]; [exact Hr|apply Hwf].
Qed.

Lemma set_addresses_has w w' : set_addresses luid family (map IPNet (Addresses (Iface conf))) w = (w', Ret tt) →
  ∀ a, a ∈ Addresses (Iface conf) → entry_family a = family → address_entry luid a ∈ v_addresses (view w').
Proof.
  unfold set_addresses. intros Hr. prog_inv. unfold attempt in Hr0. destruct (SetIPAddressesForFamily _ _ _ w) as [w1 o] eqn:E.
  destruct o as [[]|e|]; [| |done]; injection Hr0 as <- <-.
  - injection Hr as <-. by eapply SetIPAddresses_has.
  - destruct (is_sys _ e); [|by unfold io_fail in Hr]. prog_inv. by eapply SetIPAddresses_has.
Qed.
End Adding.

Lemma st_set_interface_r family conf luid p P : stays view (of_routes P) (set_interface family conf luid p).
Proof.
  pose proof (st_SetDNS_r view P luid family (DNS (Iface conf)) (DNSSearch (Iface conf))). unfold set_interface, IPInterface. stays; done.
Qed.

Lemma st_set_interface_a family conf luid p P : stays view (of_addresses P) (set_interface family conf luid p).
Proof.
  pose proof (st_SetDNS_a view P luid family (DNS (Iface conf)) (DNSSearch (Iface conf))). unfold set_interface, IPInterface. stays; done.
Qed.

(** The routes after [SetRoutesForFamily]. *)
Lemma routes_established family conf luid p w2 w3 w :
  family = AF_INET ∨ family = AF_INET6 → wf_networks conf → plan_of conf = Ret p →
  SetRoutesForFamily luid family (deduplicatedRoutes (pl_routes p)) w2 = (w3, Ret tt) → v_routes (view w2) = v_routes (view w) →
  (∀ r, r ∈ v_routes (view w3) ↔ r ∈ v_routes (view w) ∧ ¬ ours luid family r ∨ wanted_routes luid family conf r) ∧
  NoDup (filter (ours luid family) (v_routes (view w3))).
Proof.
  intros Hf Hw Hp Hs Er2. rewrite (SetRoutesForFamily_ok view _ _ _ _ _ Hs), Er2.
  destruct (rows_spec luid family conf p Hf Hw Hp) as [Hnd Hrows]. split.
  - intros r. rewrite elem_of_app, list_elem_of_filter, Hrows. tauto.
  - rewrite filter_app. rewrite list_filter_filter, (filter_iff_in _ (λ _, False)) by (intros; tauto).
    assert (∀ l : list MibIPforwardRow2, filter (λ _, False) l = []) as -> by (intros l; induction l as [|x l IHl]; [done|]; rewrite filter_cons, decide_False by tauto; exact IHl).
    by apply NoDup_filter.
Qed.

(** C11: when [configureInterface] has succeeded for a family, for a
    configuration whose addresses and allowed IPs are networks of four bytes or
    of sixteen that are not IPv4-mapped, with a prefix length in range (the
    reader accepts no other, [parsed_networks]): unless Table is off, the routes
    of the interface in that family are exactly those of the allowed IPs of that
    family, each of them once, provided the interface has an address of the
    family, and none otherwise, and no other route has changed; with Table off no
    route at all has changed; in both cases the configured addresses of the
    family are there, and any other address was there before.  Of Windows it is
    assumed that its tables change as documented ([IpHelperLaws]). *)
Theorem configureInterface_establishes family conf luid w w' :
  family = AF_INET ∨ family = AF_INET6 → wf_networks conf →
  configureInterface family conf luid w = (w', Ret tt) →
  (if TableOff (Iface conf) then v_routes (view w') = v_routes (view w)
   else (∀ r, r ∈ v_routes (view w') ↔ r ∈ v_routes (view w) ∧ ¬ ours luid family r ∨ wanted_routes luid family conf r) ∧
     NoDup (filter (ours luid family) (v_routes (view w')))) ∧
  (∀ a, a ∈ Addresses (Iface conf) → entry_family a = family → address_entry luid a ∈ v_addresses (view w')) ∧
  (∀ r, r ∈ v_addresses (view w') → r ∈ v_addresses (view w) ∨ configured luid family conf r).
Proof.
  intros Hf Hw Hr. unfold configureInterface in Hr.
  apply prog_bind_inv in Hr as (w1 & p & Hp & Hr). unfold io_lift in Hp. apply pair_equal_spec in Hp as [<- Hp].
  apply prog_bind_inv in Hr as (w2 & [] & Ha & Hr). apply prog_bind_inv in Hr as (w3 & [] & Hs & Hr).
  assert (v_routes (view w') = v_routes (view w3)) as Er.
  { pose proof (st_set_interface_r family conf luid p (λ l, l = v_routes (view w3)) w3) as Sr. rewrite Hr in Sr. by apply Sr. }
  assert (v_addresses (view w') = v_addresses (view w2)) as Ea.
  { pose proof (st_set_interface_a family conf luid p (λ l, l = v_addresses (view w2)) w3) as Sa. rewrite Hr in Sa. apply Sa.
    unfold of_addresses. destruct (TableOff (Iface conf)); cbn [negb] in Hs; [by injection Hs as <-|].
    pose proof (st_SetRoutes_a view (λ l, l = v_addresses (view w2)) luid family (deduplicatedRoutes (pl_routes p)) w2) as Hs2. rewrite Hs in Hs2. by apply Hs2. }
  assert (v_routes (view w2) = v_routes (view w)) as Er2.
  { pose proof (st_set_addresses_r view (λ l, l = v_routes (view w)) luid family (map IPNet (Addresses (Iface conf))) w) as Hs2.
    rewrite Ha in Hs2. by apply Hs2. }
  rewrite Er, Ea. split; [|split].
  - destruct (TableOff (Iface conf)); cbn [negb] in Hs; [by injection Hs as <-|]. by apply (routes_established family conf luid p w2 w3 w).
  - by eapply set_addresses_has.
  - intros r Hin. pose proof (only_set_addresses luid family conf Hf Hw (v_addresses (view w)) w) as Ho. rewrite Ha in Ho.
    apply Ho; [|done]. by left.
Qed.
End Configured.

(** ** A configuration to run on *)

Definition net4 (a b c d : byte) (n : Z) : IPCidr := mkIPCidr [a; b; c; d] n.

(** A full tunnel over IPv4, with a network given twice. *)
Definition demo_conf : Config :=
  mkConfig "demo" (zeroInterface <| Addresses := [net4 x0a x00 x00 x02 32] |>)
    [zeroPeer <| AllowedIPs := [net4 x0a x01 x02 x03 8; net4 x00 x00 x00 x00 0; net4 x0a x00 x00 x00 8] |>].

(** The routes of another interface, and an old one of ours. *)
Definition demo_tables : ip_view :=
  mkView [] [tunnel_route 5 (net4 x00 x00 x00 x00 0); tunnel_route 9 (net4 xc0 xa8 x00 x00 16)] [].

Lemma configureInterface_establishes_witness : ∃ w',
  @configureInterface _ _ insertion_sort AF_INET demo_conf 9 demo_tables = (w', Ret tt) ∧
  v_routes w' = [tunnel_route 5 (net4 x00 x00 x00 x00 0); tunnel_route 9 (net4 x00 x00 x00 x00 0); tunnel_route 9 (net4 x0a x00 x00 x00 8)] ∧
  NoDup (filter (ours 9 AF_INET) (v_routes w')).
Proof.
  eexists. split; [vm_compute; reflexivity|]. split; [reflexivity|].
  refine (proj2 (proj1 (@configureInterface_establishes _ _ id _ insertion_sort insertion_sort_laws AF_INET demo_conf 9 demo_tables _ _ _ _)));
    [by left| |vm_compute; reflexivity].
  split; (repeat first [apply Forall_nil_2 | apply Forall_cons_2; [left; split; [reflexivity|cbn; lia]|]]).
Defined.

(** ** From the configuration to the kill switch *)





