(* ===== verification/RouteMonitor.v ===== *)
(** * Following the default route
    ([core/tunnel/defaultroutemonitor.go], [mtumonitor.go] and the callback
    registries of [core/tunnel/winipcfg])

    The tunnel's sockets are bound to the interface of the best default route
    that is not the tunnel itself, and the tunnel's MTU follows that interface.
    Changes come in bursts: a timer collects them. *)
From S2P Require Import Prelude GoStrings GoStrconv AwgValidation GoEncoding GoNet GoOs WinIp.

Local Open Scope Z_scope.
Local Open Scope io_scope.

(** ** Change callbacks

    The three registries (interfaces, routes, unicast addresses) are the same
    code; callbacks are numbered in the order they are made. *)
Record registry := mkRegistry { reg_callbacks : list nat; reg_handle : Z; reg_next : nat }.

Definition empty_registry : registry := mkRegistry [] 0 0.

(** [notify] is the answer of NotifyIpInterfaceChange and its like: a handle or an error. *)
Definition RegisterChangeCallback (notify : outcome Z) (r : registry) : registry * outcome nat :=
  let s := reg_next r in
  let callbacks := s :: reg_callbacks r in
  if reg_handle r =? 0 then
    match notify with
    | Ret h => (mkRegistry callbacks h (S s), Ret s)
    | Fail e => (mkRegistry (filter (λ c, c ≠ s) callbacks) 0 (S s), Fail e)
    | Panic => (r, Panic)
    end
  else (mkRegistry callbacks (reg_handle r) (S s), Ret s).

(** [cancel] is the answer of CancelMibChangeNotify2. *)
Definition UnregisterChangeCallback (cancel : option goerror) (callback : nat) (r : registry) : registry * option goerror :=
  let callbacks := filter (λ c, c ≠ callback) (reg_callbacks r) in
  let removeIt := (length callbacks =? 0)%nat && negb (reg_handle r =? 0) in
  if removeIt then
    match cancel with
    | Some e => (mkRegistry callbacks (reg_handle r) (reg_next r), Some e)
    | None => (mkRegistry callbacks 0 (reg_next r), None)
    end
  else (mkRegistry callbacks (reg_handle r) (reg_next r), None).

(** A change is handed to every callback that is registered. *)
Definition changed (r : registry) : list nat := reg_callbacks r.

(** ** The best default route *)

Record best := mkBest { lowestMetric : Z; best_index : Z; best_luid : Z }.
Definition no_best : best := mkBest (2 ^ 32 - 1) 0 0.

(** What is remembered between runs. *)
Record monitor := mkMonitor { lastLUID : Z; lastIndex : Z; lastMTU : Z }.
Definition new_monitor : monitor := mkMonitor 0 (2 ^ 32 - 1) 0.

Definition minMTU (family : Z) : Z := if family =? AF_INET then 576 else if family =? AF_INET6 then 1280 else 0.

Section Monitor.
Context {W : Type} `{IpHelper W}.
(** [BindSocketToInterface4] and [6] of the engine. *)
Context (bind_socket : Z → Z → bool → prog W unit).

Fixpoint best_route (family ourLUID : Z) (rows : list MibIPforwardRow2) (b : best) : prog W best :=
  match rows with
  | [] => io_ret b
  | r :: rows =>
      if negb (PrefixLength (DestinationPrefix r) =? 0) || (route_LUID r =? ourLUID) then best_route family ourLUID rows b
      else
        let! ifrow := attempt (LUID_Interface (route_LUID r)) in
        match ifrow with
        | Ret ifrow =>
            if negb (OperStatus ifrow =? IfOperStatusUp) then best_route family ourLUID rows b
            else
              let! iface := attempt (IPInterface (route_LUID r) family) in
              match iface with
              | Ret iface =>
                  let metric := u32 (route_Metric r + ipif_Metric iface) in
                  best_route family ourLUID rows
                    (if metric <? lowestMetric b then mkBest metric (route_Index r) (route_LUID r) else b)
              | _ => best_route family ourLUID rows b
              end
        | _ => best_route family ourLUID rows b
        end
  end.

(** A computation on the system that also updates the monitor. *)
Definition on_world {A} (m : prog W A) : prog (W * monitor) A := λ s,
  let '(w, r) := m (fst s) in ((w, snd s), r).
Definition get_monitor : prog (W * monitor) monitor := λ s, (s, Ret (snd s)).
Definition put_monitor (m : monitor) : prog (W * monitor) unit := λ s, ((fst s, m), Ret tt).

Definition findDefaultLUID (family ourLUID : Z) : prog (W * monitor) unit :=
  let! r := on_world (getIPForwardTable2 family) in
  let! b := on_world (best_route family ourLUID r no_best) in
  let! m := get_monitor in
  if (best_luid b =? lastLUID m) && (best_index b =? lastIndex m) then io_ret tt
  else put_monitor (mkMonitor (best_luid b) (best_index b) (lastMTU m)).

Definition bindSocketRoute (family ourLUID : Z) (blackholeWhenLoop : bool) : prog (W * monitor) unit :=
  let! r := on_world (getIPForwardTable2 family) in
  let! b := on_world (best_route family ourLUID r no_best) in
  let! m := get_monitor in
  if (best_luid b =? lastLUID m) && (best_index b =? lastIndex m) then io_ret tt
  else
    let blackhole := blackholeWhenLoop && (best_index b =? 0) in
    (if (family =? AF_INET) || (family =? AF_INET6) then on_world (bind_socket family (best_index b) blackhole) else io_ret tt) ;;
    put_monitor (mkMonitor (best_luid b) (best_index b) (lastMTU m)).

(** The MTU of the tunnel for that of its carrier. *)
Definition tunnel_mtu (family mtu : Z) : Z := let n := u32 (mtu - 80) in if n <? minMTU family then minMTU family else n.

Definition with_mtu (row : MibIPInterfaceRow) (n : Z) : MibIPInterfaceRow :=
  mkIpIf (ipif_Family row) (ipif_LUID row) (InterfaceIndex row) (UseAutomaticMetric row)
    (RouterDiscoveryBehavior row) (DadTransmits row) (SitePrefixLength row) (ipif_Metric row) n.

(** Reading the MTU of the carrier and setting that of the tunnel; [force] also tells the device. *)
Definition follow_mtu (family ourLUID : Z) (force : bool) : prog (W * monitor) unit :=
  let! m := get_monitor in
  let! mtu := (if lastLUID m =? 0 then io_ret 0
               else let! iface := on_world (LUID_Interface (lastLUID m)) in
                    io_ret (if if_MTU iface >? 0 then if_MTU iface else 0)) in
  if (mtu >? 0) && negb (lastMTU m =? mtu) then
    let! iface := on_world (IPInterface ourLUID family) in
    let n := tunnel_mtu family mtu in
    on_world (setIPInterfaceEntry (with_mtu iface n)) ;;
    (if force then on_world (ForceMTU n) else io_ret tt) ;;
    put_monitor (mkMonitor (lastLUID m) (lastIndex m) mtu)
  else io_ret tt.

(** [doIt] of [monitorMTU] and of [monitorDefaultRoutes]. *)
Definition mtu_doIt (family ourLUID : Z) : prog (W * monitor) unit :=
  findDefaultLUID family ourLUID ;; follow_mtu family ourLUID false.

Definition routes_doIt (family ourLUID : Z) (autoMTU blackholeWhenLoop : bool) : prog (W * monitor) unit :=
  bindSocketRoute family ourLUID blackholeWhenLoop ;;
  if autoMTU then follow_mtu family ourLUID true else io_ret tt.
End Monitor.

(** ** Bursts of changes

    Times in milliseconds.  [firing] counts timer callbacks that have been
    started and wait for the lock. *)
Record burst := mkBurst {
  firstBurst : option Z; closed : bool; attempts : Z; burstTimer : option Z; firing : nat }.

Definition new_burst : burst := mkBurst None false 0 None 0.

(** [doIt] has run at [now]; [ok] says whether it succeeded. *)
Definition runAndRetry (now : Z) (ok : bool) (b : burst) : burst :=
  if ok then mkBurst (firstBurst b) (closed b) 0 (burstTimer b) (firing b)
  else
    let a := if attempts b <? 5 then attempts b + 1 else attempts b in
    mkBurst (firstBurst b) (closed b) a (Some (now + 1000 * 2 ^ a)) (firing b).

(** The timer callback once it has the lock; whether [doIt] runs. *)
Definition on_timer_fired (now : Z) (ok : bool) (b : burst) : burst * bool :=
  let b := mkBurst (firstBurst b) (closed b) (attempts b) (burstTimer b) (firing b - 1) in
  if closed b then (b, false)
  else (runAndRetry now ok (mkBurst None (closed b) (attempts b) (burstTimer b) (firing b)), true).

Definition bump (now : Z) (ok : bool) (b : burst) : burst * bool :=
  if closed b then (b, false)
  else
    let b := mkBurst (firstBurst b) (closed b) (attempts b) (Some (now + 150)) (firing b) in
    match firstBurst b with
    | None => (mkBurst (Some now) (closed b) (attempts b) (burstTimer b) (firing b), false)
    | Some first =>
        if now - first >? 2000
        then (runAndRetry now ok (mkBurst None (closed b) (attempts b) None (firing b)), true)
        else (b, false)
    end.

(** [routeMonitorCleanup.close] *)
Definition close_monitor (b : burst) : burst := mkBurst (firstBurst b) true (attempts b) None (firing b).

(** Which notifications count. *)
Definition route_counts (route : option MibIPforwardRow2) : bool :=
  match route with Some r => PrefixLength (DestinationPrefix r) =? 0 | None => false end.
Definition MibParameterNotification : Z := 0.
Definition MibAddInstance : Z := 1.
Definition interface_counts (notificationType : Z) : bool := notificationType =? MibParameterNotification.

(** The monitor with its clock; [changed_at] is the time of the first change
    that no run has seen, [failed] whether the last run failed. *)
Record monitored := mkMonitored { now : Z; state : burst; changed_at : option Z; failed : bool }.

Definition ran (was : option Z) (did : bool) : option Z := if did then None else was.

Inductive monitor_step : monitored → monitored → Prop :=
| ms_time t t' b c f : t <= t' → monitor_step (mkMonitored t b c f) (mkMonitored t' b c f)
| ms_expire t b c f d : burstTimer b = Some d → d <= t →
    monitor_step (mkMonitored t b c f)
      (mkMonitored t (mkBurst (firstBurst b) (closed b) (attempts b) None (S (firing b))) c f)
| ms_fire t b c f ok b' did : (0 < firing b)%nat → on_timer_fired t ok b = (b', did) →
    monitor_step (mkMonitored t b c f) (mkMonitored t b' (ran c did) (if did then negb ok else f))
| ms_change t b c f ok b' did : bump t ok b = (b', did) →
    monitor_step (mkMonitored t b c f)
      (mkMonitored t b' (ran (match c with Some c => Some c | None => Some t end) did) (if did then negb ok else f))
| ms_close t b c f : monitor_step (mkMonitored t b c f) (mkMonitored t (close_monitor b) c f).

Inductive monitor_reachable : monitored → Prop :=
| mr_start t : monitor_reachable (mkMonitored t new_burst None false)
| mr_step m m' : monitor_reachable m → monitor_step m m' → monitor_reachable m'.

(** ** Following the default route: theorems

    Every change of the routes is followed by a run of the monitor within two
    seconds and a fraction, a failed run by another, and a closed monitor never
    runs again; the sockets are bound to the best other default route. *)

Local Open Scope Z_scope.

(** ** Bursts *)

Definition due (limit : Z) (b : burst) : Prop := (∃ d, burstTimer b = Some d ∧ d <= limit) ∨ (0 < firing b)%nat.

Record monitored_ok (m : monitored) : Prop := {
  mo_attempts : 0 <= attempts (state m) <= 5;
  mo_burst : closed (state m) = false → firstBurst (state m) = changed_at m;
  mo_changed c : closed (state m) = false → changed_at m = Some c → c <= now m ∧ due (c + 2150) (state m);
  mo_failed : closed (state m) = false → failed m = true → due (now m + 32000) (state m) }.

Lemma due_le l l' b : l <= l' → due l b → due l' b.
Proof. intros Hl [(d & E & Hd)|Hf]; [left; exists d; split; [done|lia]|by right]. Qed.

Lemma retry_delay a : 0 <= a <= 5 → let a' := if a <? 5 then a + 1 else a in 0 <= a' <= 5 ∧ 1000 * 2 ^ a' <= 32000.
Proof.
  intros Ha a'. assert (0 <= a' <= 5) as Ha' by (unfold a'; destruct (Z.ltb_spec a 5); lia). split; [done|].
  pose proof (Z.pow_le_mono_r 2 a' 5 ltac:(lia) ltac:(lia)). change (2 ^ 5) with 32 in *. lia.
Qed.

Lemma runAndRetry_due now ok b : 0 <= attempts b <= 5 →
  let b' := runAndRetry now ok b in
  0 <= attempts b' <= 5 ∧ firstBurst b' = firstBurst b ∧ closed b' = closed b ∧ (ok = false → due (now + 32000) b').
Proof.
  intros Ha b'. unfold b', runAndRetry. destruct ok; [split_and!; cbn; lia || done|].
  destruct (retry_delay _ Ha) as [Ha' Hd]. cbn zeta in Ha', Hd. split_and!; cbn; try done; try lia.
  intros _. left. eexists. split; [done|]. lia.
Qed.

Lemma monitor_step_ok m m' : monitor_step m m' → monitored_ok m → monitored_ok m'.
Proof.
  destruct 1 as [t t' b c f Ht | t b c f d Et Hd | t b c f ok b' did Hf E | t b c f ok b' did E | t b c f]; intros [A B C F]; cbn in *.
  - split; cbn; [done|done| |].
    + intros x Hc Hx. destruct (C x Hc Hx). split; [lia|done].
    + intros Hc Hx. eapply due_le; [|by apply F]. lia.
  - split; cbn; [done|done| |].
    + intros x Hc Hx. destruct (C x Hc Hx). split; [lia|]. right. cbn. lia.
    + intros Hc Hx. right. cbn. lia.
  - unfold on_timer_fired in E. cbn in E. destruct (closed b) eqn:Ec; injection E as <- <-; cbn.
    + split; cbn; [done|intros; congruence..].
    + destruct (runAndRetry_due t ok (mkBurst None (closed b) (attempts b) (burstTimer b) (firing b - 1)) A) as (A' & B' & C' & D').
      rewrite Ec in *. split; cbn [state changed_at failed now]; [done|by rewrite B'|done|]. intros _ Hok. apply D'. by destruct ok.
  - unfold bump in E. destruct (closed b) eqn:Ec.
    { injection E as <- <-. split; cbn; [done|intros; congruence..]. }
    cbn [firstBurst closed attempts burstTimer firing] in E. rewrite (B eq_refl) in E. destruct c as [c|].
    + destruct (Z.gtb_spec (t - c) 2000) as [Hl|Hl]; injection E as <- <-.
      * destruct (runAndRetry_due t ok (mkBurst None false (attempts b) None (firing b)) A) as (A' & B' & C' & D').
        split; cbn [state changed_at failed now ran]; [done|by rewrite B'|done|]. intros _ Hok. apply D'. by destruct ok.
      * split; cbn; [done|done| |].
        -- intros x _ [= <-]. destruct (C c eq_refl eq_refl). split; [lia|]. left. eexists. split; [done|]. lia.
        -- intros _ _. left. eexists. split; [done|]. lia.
    + injection E as <- <-. split; cbn; [done|done| |].
      * intros x _ [= <-]. split; [lia|]. left. eexists. split; [done|]. lia.
      * intros _ _. left. eexists. split; [done|]. lia.
  - split; cbn; done.
Qed.

Lemma monitor_reachable_ok m : monitor_reachable m → monitored_ok m.
Proof. induction 1 as [t|m m' _ IH St]; [split; cbn; lia || done|by eapply monitor_step_ok]. Qed.

(** C22: While the monitor is open, a change no run has seen has a run due at most
    2150 ms after it, and a failed run has another due within 32 seconds. *)
Theorem monitor_handles_changes m : monitor_reachable m → closed (state m) = false →
  (∀ c, changed_at m = Some c → due (c + 2150) (state m)) ∧ (failed m = true → due (now m + 32000) (state m)).
Proof.
  intros [_ _ C F]%monitor_reachable_ok Hc. split; [intros c Hx; by destruct (C c Hc Hx)|by apply F].
Qed.

Lemma monitor_handles_changes_witness :
  let m := mkMonitored 700 (mkBurst (Some 700) false 1 (Some 850) 0) (Some 700) true in
  monitor_reachable m ∧ (∀ c, changed_at m = Some c → due (c + 2150) (state m)).
Proof.
  assert (monitor_reachable (mkMonitored 700 (mkBurst (Some 700) false 1 (Some 850) 0) (Some 700) true)) as R.
  { refine (mr_step _ _ _ (ms_change 700 (mkBurst None false 1 (Some 2500) 0) None true true _ false eq_refl)).
    refine (mr_step _ _ _ (ms_time 500 700 _ _ _ ltac:(lia))).
    refine (mr_step _ _ _ (ms_fire 500 (mkBurst (Some 0) false 0 None 1) (Some 0) false false _ true ltac:(cbn; lia) eq_refl)).
    refine (mr_step _ _ _ (ms_expire 500 (mkBurst (Some 0) false 0 (Some 150) 0) (Some 0) false 150 eq_refl ltac:(lia))).
    refine (mr_step _ _ _ (ms_time 0 500 _ _ _ ltac:(lia))).
    refine (mr_step _ _ _ (ms_change 0 new_burst None false true _ false eq_refl)). apply mr_start. }
  split; [exact R|]. exact (proj1 (monitor_handles_changes _ R eq_refl)).
Defined.

(** A closed monitor does not touch the sockets again. *)
Lemma closed_never_runs t ok b : closed b = true → snd (on_timer_fired t ok b) = false ∧ snd (bump t ok b) = false.
Proof. intros Hc. unfold on_timer_fired, bump. cbn. by rewrite Hc. Qed.

(** ** The best default route *)

Section Best.
Context {W : Type} `{IpHelper W}.
(** The system answers from fixed tables while the routes are compared. *)
Context (if_info : Z → outcome MibIfRow2) (ip_info : Z → Z → outcome MibIPInterfaceRow).
Context (Hif : ∀ l w, getIfEntry2 l w = (w, if_info l)) (Hip : ∀ l f w, getIPInterfaceEntry l f w = (w, ip_info l f)).
Context (no_panic_if : ∀ l, if_info l ≠ Panic) (no_panic_ip : ∀ l f, ip_info l f ≠ Panic).

(** A default route of another interface that is up, with its metric. *)
Definition route_metric (family ourLUID : Z) (r : MibIPforwardRow2) : option Z :=
  if negb (PrefixLength (DestinationPrefix r) =? 0) || (route_LUID r =? ourLUID) then None
  else match if_info (route_LUID r), ip_info (route_LUID r) family with
       | Ret ifrow, Ret iface => if OperStatus ifrow =? IfOperStatusUp then Some (u32 (route_Metric r + ipif_Metric iface)) else None
       | _, _ => None
       end.

Definition better (family ourLUID : Z) (b : best) (r : MibIPforwardRow2) : best :=
  match route_metric family ourLUID r with
  | Some m => if m <? lowestMetric b then mkBest m (route_Index r) (route_LUID r) else b
  | None => b
  end.

#[local] Set Default Proof Using "All".

Lemma best_route_fold family ourLUID rows : ∀ b (w : W), best_route family ourLUID rows b w = (w, Ret (fold_left (better family ourLUID) rows b)).
Proof.
  induction rows as [|r rows IH]; intros b w; [done|]. cbn [best_route fold_left]. unfold better at 2, route_metric.
  destruct (negb _ || _); [apply IH|]. unfold io_bind, attempt, LUID_Interface. rewrite Hif.
  pose proof (no_panic_if (route_LUID r)) as Hp. destruct (if_info (route_LUID r)) as [ifrow|e|]; [|apply IH|done].
  pose proof (no_panic_ip (route_LUID r) family) as Hq. unfold IPInterface, io_bind, io_ret.
  destruct (OperStatus ifrow =? IfOperStatusUp); cbn [negb].
  - rewrite Hip. destruct (ip_info (route_LUID r) family) as [iface|e|]; [apply IH|apply IH|done].
  - destruct (ip_info (route_LUID r) family); apply IH.
Qed.

(** The chosen route is a candidate of lowest metric; without any, there is none. *)
Lemma best_is_lowest family ourLUID rows : ∀ b0,
  let b := fold_left (better family ourLUID) rows b0 in
  lowestMetric b <= lowestMetric b0 ∧
  (∀ r m, r ∈ rows → route_metric family ourLUID r = Some m → lowestMetric b <= m) ∧
  (b = b0 ∨ ∃ r, r ∈ rows ∧ route_metric family ourLUID r = Some (lowestMetric b) ∧ best_index b = route_Index r ∧ best_luid b = route_LUID r).
Proof.
  induction rows as [|r rows IH]; intros b0; cbn [fold_left]; [split_and!; [lia|by intros ? ? ?%elem_of_nil|by left]|].
  destruct (IH (better family ourLUID b0 r)) as (H1 & H2 & H3). set (b := fold_left _ rows _) in *. cbn zeta in *.
  assert (lowestMetric (better family ourLUID b0 r) <= lowestMetric b0 ∧
          (∀ m, route_metric family ourLUID r = Some m → lowestMetric (better family ourLUID b0 r) <= m)) as [L1 L2].
  { unfold better. destruct (route_metric family ourLUID r) as [m|]; [|split; [lia|done]].
    destruct (Z.ltb_spec m (lowestMetric b0)); cbn; split; try lia; intros ? [= <-]; lia. }
  split_and!.
  - lia.
  - intros r' m [->|Hr]%elem_of_cons Hm; [specialize (L2 _ Hm); lia|by eapply H2].
  - destruct H3 as [->|(r' & Hr & Hx)]; [|right; exists r'; split; [by right|done]].
    unfold better. destruct (route_metric family ourLUID r) as [m|] eqn:Em; [|by left].
    destruct (m <? lowestMetric b0); [right|by left]. exists r. split_and!; [by left|done|done|done].
Qed.

Lemma route_metric_other family ourLUID r m : route_metric family ourLUID r = Some m → route_LUID r ≠ ourLUID ∧ PrefixLength (DestinationPrefix r) = 0.
Proof.
  unfold route_metric. destruct (Z.eqb_spec (PrefixLength (DestinationPrefix r)) 0), (Z.eqb_spec (route_LUID r) ourLUID); cbn; try done.
Qed.


(** What [bindSocketRoute] does when the tables answer: nothing while the best
    route is the one it knows, otherwise it binds the sockets to that route, or
    to nothing, and then, if asked, drops what would loop. *)
Lemma bindSocketRoute_run (bind_socket : Z → Z → bool → prog W unit) family ourLUID blackhole rows (w : W) m :
  getIPForwardTable2 family w = (w, Ret rows) → family = AF_INET ∨ family = AF_INET6 →
  let b := fold_left (better family ourLUID) rows no_best in
  bindSocketRoute bind_socket family ourLUID blackhole (w, m)
  = if (best_luid b =? lastLUID m) && (best_index b =? lastIndex m) then (w, m, Ret tt)
    else match bind_socket family (best_index b) (blackhole && (best_index b =? 0)) w with
         | (w', Ret _) => (w', mkMonitor (best_luid b) (best_index b) (lastMTU m), Ret tt)
         | (w', Fail e) => (w', m, Fail e)
         | (w', Panic) => (w', m, Panic)
         end.
Proof.
  intros Ht Hf b. unfold bindSocketRoute, io_bind, on_world, get_monitor, put_monitor, io_ret. cbn [fst snd].
  rewrite Ht. cbn [fst snd]. rewrite best_route_fold. cbn [fst snd]. fold b. destruct (_ && _); [done|].
  assert ((family =? AF_INET) || (family =? AF_INET6) = true) as -> by (by destruct Hf as [-> | ->]).
  cbn [fst snd]. destruct (bind_socket family (best_index b) _ w) as [w' [[]|e|]]; reflexivity.
Qed.

(** The sockets never follow a route into the tunnel: they are bound to an
    interface that carries another default route of least metric, or to none
    when there is no other. *)
Theorem bindSocketRoute_best (bind_socket : Z → Z → bool → prog W unit) family ourLUID blackhole rows (w w' : W) m m' :
  getIPForwardTable2 family w = (w, Ret rows) → family = AF_INET ∨ family = AF_INET6 →
  bindSocketRoute bind_socket family ourLUID blackhole (w, m) = (w', m', Ret tt) →
  (lastLUID m' = 0 ∧ lastIndex m' = 0 ∧ ∀ r metric, r ∈ rows → route_metric family ourLUID r = Some metric → metric = 2 ^ 32 - 1) ∨
  ∃ r metric, r ∈ rows ∧ route_LUID r ≠ ourLUID ∧ PrefixLength (DestinationPrefix r) = 0 ∧ route_metric family ourLUID r = Some metric ∧
    lastLUID m' = route_LUID r ∧ lastIndex m' = route_Index r ∧
    ∀ r' metric', r' ∈ rows → route_metric family ourLUID r' = Some metric' → metric <= metric'.
Proof.
  intros Ht Hf Hr. rewrite (bindSocketRoute_run bind_socket family ourLUID blackhole rows w m Ht Hf) in Hr. cbn zeta in Hr.
  destruct (best_is_lowest family ourLUID rows no_best) as (_ & Hmin & Hb). set (b := fold_left _ rows no_best) in *.
  assert (lastLUID m' = best_luid b ∧ lastIndex m' = best_index b) as [-> ->].
  { destruct (_ && _) eqn:E; [|destruct (bind_socket _ _ _ w) as [w1 [[]|e|]]; by simplify_eq/=].
    apply andb_true_iff in E as [?%Z.eqb_eq ?%Z.eqb_eq]. by simplify_eq. }
  destruct Hb as [->|(r & Hr' & Hm & -> & ->)]; [left|right].
  - split_and!; [done|done|]. intros r metric Hin Hm. specialize (Hmin r metric Hin Hm). cbn in Hmin.
    assert (0 <= metric < 4294967296); [|lia].
    unfold route_metric in Hm. repeat case_match; simplify_eq; unfold u32; apply Z.mod_pos_bound; lia.
  - destruct (route_metric_other _ _ _ _ Hm). exists r, (lowestMetric b). split_and!; try done. 
Qed.
End Best.

(** Tables with two ways out, and the tunnel's own route. *)
Definition wifi_route : MibIPforwardRow2 := mkRouteRow 7 3 (mkPrefix (mkSockaddr AF_INET [x00; x00; x00; x00]) 0) (mkSockaddr AF_INET [xc0; xa8; x01; x01]) 50.
Definition cable_route : MibIPforwardRow2 := mkRouteRow 8 4 (mkPrefix (mkSockaddr AF_INET [x00; x00; x00; x00]) 0) (mkSockaddr AF_INET [x0a; x00; x00; x01]) 25.
Definition own_route : MibIPforwardRow2 := mkRouteRow 9 5 (mkPrefix (mkSockaddr AF_INET [x00; x00; x00; x00]) 0) (mkSockaddr AF_INET [x00; x00; x00; x00]) 0.

Lemma bindSocketRoute_best_witness :
  let v := mkView [] [own_route; wifi_route; cable_route] [] in
  let if_info l := Ret (mkIfRow l IfOperStatusUp 1500) in
  let ip_info l f := Ret (mkIpIf f l 1 true 0 1 64 5 1500) in
  let m' := mkMonitor 8 4 0 in
  bindSocketRoute (λ _ _ _ v, (v, Ret tt)) AF_INET 9 true (v, new_monitor) = (v, m', Ret tt) ∧
  ((lastLUID m' = 0 ∧ lastIndex m' = 0 ∧ ∀ r metric, r ∈ v_routes v → route_metric if_info ip_info AF_INET 9 r = Some metric → metric = 2 ^ 32 - 1) ∨
   ∃ r metric, r ∈ v_routes v ∧ route_LUID r ≠ 9 ∧ PrefixLength (DestinationPrefix r) = 0 ∧ route_metric if_info ip_info AF_INET 9 r = Some metric ∧
     lastLUID m' = route_LUID r ∧ lastIndex m' = route_Index r ∧
     ∀ r' metric', r' ∈ v_routes v → route_metric if_info ip_info AF_INET 9 r' = Some metric' → metric <= metric').
Proof.
  intros v if_info ip_info m'. assert (bindSocketRoute (λ _ _ _ v, (v, Ret tt)) AF_INET 9 true (v, new_monitor) = (v, m', Ret tt)) as Hr by (vm_compute; reflexivity).
  split; [exact Hr|]. exact (bindSocketRoute_best if_info ip_info (λ l w, eq_refl) (λ l f w, eq_refl) (λ l, ltac:(discriminate)) (λ l f, ltac:(discriminate))
    _ AF_INET 9 true (v_routes v) v v new_monitor m' eq_refl (or_introl eq_refl) Hr).
Defined.

(** The sum of two metrics wraps around: a route that is nearly unusable beats
    one of metric 30. *)
Lemma metric_sum_wraps :
  let bad := mkRouteRow 6 2 (DestinationPrefix wifi_route) (NextHop wifi_route) (2 ^ 32 - 3) in
  let b := fold_left (better (λ l, Ret (mkIfRow l IfOperStatusUp 1500)) (λ l f, Ret (mkIpIf f l 1 true 0 1 64 5 1500)) AF_INET 9)
             [cable_route; bad] no_best in
  best_luid b = 6 ∧ lowestMetric b = 2.
Proof. vm_compute. split; reflexivity. Qed.

(** An MTU below 80 makes the tunnel's MTU wrap around instead of being raised
    to the minimum of the family. *)
Lemma tunnel_mtu_wraps family mtu : 0 < mtu < 80 → tunnel_mtu family mtu = 2 ^ 32 - (80 - mtu).
Proof.
  intros Hm. unfold tunnel_mtu, u32. assert ((mtu - 80) mod 4294967296 = 4294967296 - (80 - mtu)) as ->.
  { symmetry. apply Z.mod_unique with (-1); lia. }
  assert (minMTU family <= 1280) by (unfold minMTU; repeat case_match; lia). rewrite (proj2 (Z.ltb_ge _ _)) by lia. lia.
Qed.

Lemma tunnel_mtu_usual family mtu : 80 <= mtu < 2 ^ 32 → tunnel_mtu family mtu = Z.max (mtu - 80) (minMTU family).
Proof. intros Hm. unfold tunnel_mtu, u32. rewrite Z.mod_small by lia. destruct (Z.ltb_spec (mtu - 80) (minMTU family)); lia. Qed.

(** ** Callback registries *)

Record registry_ok (r : registry) : Prop := {
  ro_nodup : NoDup (reg_callbacks r);
  ro_fresh : Forall (λ c, c < reg_next r)%nat (reg_callbacks r);
  ro_handle : reg_callbacks r ≠ [] → reg_handle r ≠ 0 }.

(** Registering adds exactly one callback and subscribes with the system;
    removing it takes exactly that one away. *)
Lemma register_ok notify r r' o : registry_ok r → notify ≠ Panic → (∀ h, notify = Ret h → h ≠ 0) → RegisterChangeCallback notify r = (r', o) →
  registry_ok r' ∧ reg_callbacks r' = match o with Ret s => s :: reg_callbacks r | _ => reg_callbacks r end.
Proof.
  intros [Hn Hf Hh] Hp Hnz E. unfold RegisterChangeCallback in E.
  assert (reg_next r ∉ reg_callbacks r) as Hnew by (intros Hin; rewrite Forall_forall in Hf; specialize (Hf _ Hin); lia).
  assert (Forall (λ c, c < S (reg_next r))%nat (reg_callbacks r)) as Hf' by (eapply Forall_impl; [exact Hf|]; cbn; lia).
  destruct (Z.eqb_spec (reg_handle r) 0) as [E0|E0]; [destruct notify as [h|e|]; [|..|done]|]; injection E as <- <-; cbn [reg_callbacks].
  - split; [|done]. split; cbn [reg_callbacks reg_next reg_handle]; [by constructor|by constructor; [lia|]|]. intros _. by apply Hnz.
  - assert (filter (λ c, c ≠ reg_next r) (reg_next r :: reg_callbacks r) = reg_callbacks r) as Ef.
    { rewrite filter_cons_False by tauto. clear -Hnew. induction (reg_callbacks r) as [|c l IH]; [done|].
      apply not_elem_of_cons in Hnew as [? ?]. rewrite filter_cons_True by done. by rewrite IH. }
    assert (reg_callbacks r = []) as Enil by (destruct (reg_callbacks r); [done|]; exfalso; by apply Hh).
    rewrite Ef. split; [|done]. split; cbn; [done|done|]. intros Hne. by rewrite Enil in Hne.
  - split; [|done]. split; cbn; [by constructor|by constructor; [lia|]|done].
Qed.

Lemma unregister_ok cancel c r r' o : registry_ok r → UnregisterChangeCallback cancel c r = (r', o) →
  registry_ok r' ∧ reg_callbacks r' = filter (λ d, d ≠ c) (reg_callbacks r).
Proof.
  intros [Hn Hf Hh] E. unfold UnregisterChangeCallback in E. set (l := filter _ _) in *.
  assert (NoDup l) by (by apply NoDup_filter). assert (Forall (λ c, c < reg_next r)%nat l) by (rewrite Forall_forall in Hf |- *; intros d Hd; apply Hf; by apply list_elem_of_filter in Hd as [_ ?]).
  assert (l ≠ [] → reg_handle r ≠ 0) as Hl.
  { intros Hne. apply Hh. intros E0. apply Hne. unfold l. by rewrite E0. }
  destruct (Nat.eqb_spec (length l) 0) as [E0|E0]; cbn in E.
  - apply length_zero_iff_nil in E0. destruct (negb _); [destruct cancel|]; injection E as <- <-; (split; [|done]); split; cbn; try done.
  - injection E as <- <-. split; [|done]. by split.
Qed.
