(* ===== verification/InterfaceWatcher.v ===== *)
(** * Watching the tunnel's interface ([core/tunnel/interfacewatcher.go])

    The interface appears once per address family, before or after the device
    is configured; each time it is set up: the default routes are monitored and
    addresses, routes and DNS are set.  The watcher owns the callbacks of its
    monitors and gives them back when it is destroyed. *)
From S2P Require Import Prelude GoStrings GoStrconv AwgValidation GoEncoding GoNet GoOs GoSort TunnelName Conf WinIp RouteMonitor AddressConfig.

Local Open Scope Z_scope.
Local Open Scope io_scope.

(** ** Default routes of a configuration *)

Record halves := mkHalves { f401 : bool; f41281 : bool; f600001 : bool; f680001 : bool; f400 : bool; f600 : bool }.

Definition v40 : IP := replicate 4 x00.
Definition v60 : IP := replicate 16 x00.
Definition v48 : IP := x80 :: replicate 3 x00.
Definition v68 : IP := x80 :: replicate 15 x00.

Definition note_route (h : halves) (a : IPCidr) : halves :=
  let net c n ip := (Cidr a =? c) && (length (IPof a) =? n)%nat && IP_Equal (IPof a) ip in
  if net 1 16%nat v60 then mkHalves (f401 h) (f41281 h) true (f680001 h) (f400 h) (f600 h)
  else if net 1 16%nat v68 then mkHalves (f401 h) (f41281 h) (f600001 h) true (f400 h) (f600 h)
  else if net 1 4%nat v40 then mkHalves true (f41281 h) (f600001 h) (f680001 h) (f400 h) (f600 h)
  else if net 1 4%nat v48 then mkHalves (f401 h) true (f600001 h) (f680001 h) (f400 h) (f600 h)
  else if net 0 16%nat v60 then mkHalves (f401 h) (f41281 h) (f600001 h) (f680001 h) (f400 h) true
  else if net 0 4%nat v40 then mkHalves (f401 h) (f41281 h) (f600001 h) (f680001 h) true (f600 h)
  else h.

Definition hasDefaultRoute (family : Z) (peers : list Peer) : bool :=
  let h := fold_left note_route (concat (map AllowedIPs peers)) (mkHalves false false false false false false) in
  if family =? AF_INET then f400 h || (f401 h && f41281 h)
  else if family =? AF_INET6 then f600 h || (f600001 h && f680001 h)
  else false.

(** ** The world of the tunnel service *)

Record tunnel_world (W : Type) := mkTW { sys : W; route_reg : registry; iface_reg : registry; monitors : list (monitor * burst) }.
Arguments mkTW {W} _ _ _ _.
Arguments sys {W} _.
Arguments route_reg {W} _.
Arguments iface_reg {W} _.
Arguments monitors {W} _.

(** The answers of the system to subscriptions. *)
Class Notifier := {
  notify_route : nat → outcome Z;
  notify_interface : nat → outcome Z;
  cancel_notify : nat → option goerror;
}.

Inductive callback := CbMonitor (id : nat) | CbRoute (id : nat) | CbInterface (id : nat).

(** [services.Error] values the watcher reports. *)
Inductive watch_error := BindSocketsToDefaultRoutes | SetNetConfig.

Record watcher := mkWatcher {
  iw_errors : list (watch_error * goerror);
  iw_conf : Config;
  iw_tun : option Z;
  interfaceChangeCallback : option nat;
  changeCallbacks4 : list callback;
  changeCallbacks6 : list callback;
  storedEvents : list (Z * Z);
  iw_stuck : bool }.  (* a send to the full error channel holds the lock *)

Definition errors_capacity : nat := 2.

Section Watcher.
Context {W : Type} `{IpHelper W} `{SortSlice} `{Notifier}.
Context (bind_socket : Z → Z → bool → prog W unit).

Local Abbreviation T := (tunnel_world W).

Definition on_sys {A} (m : prog W A) : prog T A := λ t,
  let '(w, r) := m (sys t) in (mkTW w (route_reg t) (iface_reg t) (monitors t), r).

Definition register_route : prog T nat := λ t,
  let '(r, o) := RegisterChangeCallback (notify_route (reg_next (route_reg t))) (route_reg t) in
  (mkTW (sys t) r (iface_reg t) (monitors t), o).
Definition register_interface : prog T nat := λ t,
  let '(r, o) := RegisterChangeCallback (notify_interface (reg_next (iface_reg t))) (iface_reg t) in
  (mkTW (sys t) (route_reg t) r (monitors t), o).

(** [Unregister] of the three kinds of callback; errors are dropped. *)
Definition Unregister (c : callback) (t : T) : T :=
  match c with
  | CbMonitor id =>
      mkTW (sys t) (route_reg t) (iface_reg t) (alter (λ m, (fst m, close_monitor (snd m))) id (monitors t))
  | CbRoute id => mkTW (sys t) (fst (UnregisterChangeCallback (cancel_notify id) id (route_reg t))) (iface_reg t) (monitors t)
  | CbInterface id => mkTW (sys t) (route_reg t) (fst (UnregisterChangeCallback (cancel_notify id) id (iface_reg t))) (monitors t)
  end.
Definition unregister_all (cs : list callback) (t : T) : T := fold_left (λ t c, Unregister c t) cs t.

(** The first run of [doIt], with a fresh monitor. *)
Definition first_run (family luid : Z) (autoMTU blackhole : bool) : prog T monitor := λ t,
  let '(w, m, r) := routes_doIt bind_socket family luid autoMTU blackhole (sys t, new_monitor) in
  (mkTW w (route_reg t) (iface_reg t) (monitors t), match r with Ret _ => Ret m | Fail e => Fail e | Panic => Panic end).

Definition add_monitor (m : monitor) : prog T nat := λ t,
  (mkTW (sys t) (route_reg t) (iface_reg t) (monitors t ++ [(m, new_burst)]), Ret (length (monitors t))).

(** Run [undo] on the world and fail. *)
Definition undo_and_fail {A} (undo : list callback) (e : goerror) : prog T A := λ t, (unregister_all undo t, Fail e).

Definition monitorDefaultRoutes (family luid : Z) (autoMTU blackhole : bool) : prog T (list callback) :=
  let! m := first_run family luid autoMTU blackhole in
  let! cleanup := add_monitor m in
  let! cbr := attempt register_route in
  match cbr with
  | Ret cbr =>
      let! cbi := attempt register_interface in
      match cbi with
      | Ret cbi => io_ret [CbMonitor cleanup; CbRoute cbr; CbInterface cbi]
      | Fail e => undo_and_fail [CbMonitor cleanup; CbRoute cbr] e
      | Panic => io_lift Panic
      end
  | Fail e => undo_and_fail [CbMonitor cleanup] e
  | Panic => io_lift Panic
  end.

(** ** The watcher *)

Local Abbreviation S := (T * watcher)%type.

Definition set_callbacks (family : Z) (cs : list callback) (iw : watcher) : watcher :=
  mkWatcher (iw_errors iw) (iw_conf iw) (iw_tun iw) (interfaceChangeCallback iw)
    (if family =? AF_INET then cs else changeCallbacks4 iw) (if family =? AF_INET then changeCallbacks6 iw else cs)
    (storedEvents iw) (iw_stuck iw).

Definition callbacks_of (family : Z) (iw : watcher) : list callback :=
  if family =? AF_INET then changeCallbacks4 iw else changeCallbacks6 iw.

(** [iw.errors <- e], on a channel of capacity two. *)
Definition send_error (e : watch_error * goerror) (iw : watcher) : watcher :=
  if (length (iw_errors iw) <? errors_capacity)%nat
  then mkWatcher (iw_errors iw ++ [e]) (iw_conf iw) (iw_tun iw) (interfaceChangeCallback iw)
         (changeCallbacks4 iw) (changeCallbacks6 iw) (storedEvents iw) (iw_stuck iw)
  else mkWatcher (iw_errors iw) (iw_conf iw) (iw_tun iw) (interfaceChangeCallback iw)
         (changeCallbacks4 iw) (changeCallbacks6 iw) (storedEvents iw) true.

Definition setup (family : Z) (s : S) : S :=
  let '(t, iw) := s in
  match iw_tun iw with
  | None => s
  | Some luid =>
      if negb (family =? AF_INET) && negb (family =? AF_INET6) then s
      else
        let t := unregister_all (callbacks_of family iw) t in
        match monitorDefaultRoutes family luid (MTU (Iface (iw_conf iw)) =? 0) (hasDefaultRoute family (Peers (iw_conf iw))) t with
        | (t, Ret cs) =>
            let iw := set_callbacks family cs iw in
            match on_sys (configureInterface family (iw_conf iw) luid) t with
            | (t, Fail e) => (t, send_error (SetNetConfig, e) iw)
            | (t, _) => (t, iw)
            end
        | (t, Fail e) => (t, send_error (BindSocketsToDefaultRoutes, e) (set_callbacks family [] iw))
        | (t, Panic) => (t, set_callbacks family [] iw)
        end
  end.

Definition watchInterface (t : T) (conf : Config) : T * outcome watcher :=
  match register_interface t with
  | (t, Ret c) => (t, Ret (mkWatcher [] conf None (Some c) [] [] [] false))
  | (t, Fail e) => (t, Fail e)
  | (t, Panic) => (t, Panic)
  end.

(** The callback of [watchInterface]; while a send is stuck the lock is held and
    nothing happens. *)
Definition interface_event (notificationType luid family : Z) (s : S) : S :=
  let '(t, iw) := s in
  if iw_stuck iw || negb (notificationType =? MibAddInstance) then s
  else
    match iw_tun iw with
    | None =>
        (t, mkWatcher (iw_errors iw) (iw_conf iw) None (interfaceChangeCallback iw) (changeCallbacks4 iw) (changeCallbacks6 iw)
              (storedEvents iw ++ [(luid, family)]) (iw_stuck iw))
    | Some ours => if luid =? ours then setup family s else s
    end.

Fixpoint replay (luid : Z) (events : list (Z * Z)) (s : S) : S :=
  match events with
  | [] => s
  | e :: events =>
      if iw_stuck (snd s) then s
      else replay luid events (if fst e =? luid then setup (snd e) s else s)
  end.

Definition clear_events (iw : watcher) : watcher :=
  mkWatcher (iw_errors iw) (iw_conf iw) (iw_tun iw) (interfaceChangeCallback iw)
    (changeCallbacks4 iw) (changeCallbacks6 iw) (if iw_stuck iw then storedEvents iw else []) (iw_stuck iw).

Definition Configure (conf : Config) (luid : Z) (s : S) : S :=
  let '(t, iw) := s in
  if iw_stuck iw then s else
  let iw := mkWatcher (iw_errors iw) conf (Some luid) (interfaceChangeCallback iw)
              (changeCallbacks4 iw) (changeCallbacks6 iw) (storedEvents iw) (iw_stuck iw) in
  let '(t, iw) := replay luid (storedEvents iw) (t, iw) in (t, clear_events iw).

(** ** Destroying the watcher

    The callbacks are copied under the lock, given back without it, and then the
    copies are taken out of the watcher under the lock again. *)
(** [firewall.DisableFirewall], which closes the session of Firewall.v. *)
Context (disable_firewall : prog W unit).

Record snapshot := mkSnapshot { sn4 : list callback; sn6 : list callback; sn_interface : option nat; sn_tun : option Z }.

Definition destroy_begin (iw : watcher) : snapshot :=
  mkSnapshot (changeCallbacks4 iw) (changeCallbacks6 iw) (interfaceChangeCallback iw) (iw_tun iw).

Definition destroy_unregister (sn : snapshot) (t : T) : T :=
  let t := match sn_interface sn with Some c => Unregister (CbInterface c) t | None => t end in
  unregister_all (sn6 sn) (unregister_all (sn4 sn) t).

Definition flush_all (luid : Z) : prog W unit :=
  ignore_error (FlushRoutes luid AF_INET) ;; ignore_error (FlushIPAddresses luid AF_INET) ;; ignore_error (FlushDNS luid AF_INET) ;;
  ignore_error (FlushRoutes luid AF_INET6) ;; ignore_error (FlushIPAddresses luid AF_INET6) ;; ignore_error (FlushDNS luid AF_INET6).

Definition destroy_end (sn : snapshot) (s : S) : S :=
  let '(t, iw) := s in
  if iw_stuck iw then s else
  let t := fst (on_sys (ignore_error disable_firewall) t) in
  let iw := mkWatcher (iw_errors iw) (iw_conf iw) (iw_tun iw)
              (if bool_decide (sn_interface sn = interfaceChangeCallback iw) then None else interfaceChangeCallback iw)
              (drop (length (sn4 sn)) (changeCallbacks4 iw)) (drop (length (sn6 sn)) (changeCallbacks6 iw))
              (storedEvents iw) (iw_stuck iw) in
  match sn_tun sn with
  | Some luid => if bool_decide (iw_tun iw = Some luid) then (fst (on_sys (flush_all luid) t), iw) else (t, iw)
  | None => (t, iw)
  end.

(** [Destroy] with what other callbacks do in between; like them it waits for
    ever when the lock is stuck. *)
Definition destroy_with (between : S → S) (s : S) : S :=
  if iw_stuck (snd s) then s else
  let sn := destroy_begin (snd s) in
  let '(t, iw) := between s in
  destroy_end sn (destroy_unregister sn t, iw).

Definition Destroy (s : S) : S := destroy_with (λ s, s) s.
End Watcher.

(** ** Watching the tunnel's interface: theorems

    The watcher owns exactly the callbacks it lists, gives all of them back when
    it is destroyed, and sets the interface up once per appearance, whether it
    appeared before the device was configured or after. *)
From S2P Require Import AddressConfig.

Local Open Scope Z_scope.

#[export] Instance callback_eq_dec : EqDecision callback.
Proof. solve_decision. Defined.

Lemma filter_notin_nil {A} `{EqDecision A} (l : list A) : filter (λ x, x ∉ []) l = l.
Proof. induction l as [|x l IH]; [done|]. rewrite filter_cons_True by apply not_elem_of_nil. by rewrite IH. Qed.

(** ** Ownership *)

Section Ownership.
Context {W : Type} `{IpHelper W} `{SortSlice} `{Notifier}.
(** The callbacks in force are those of [cs]. *)
Record owned (t : tunnel_world W) (cs : list callback) : Prop := {
  ow_nodup : NoDup cs;
  ow_route_ok : registry_ok (route_reg t);
  ow_iface_ok : registry_ok (iface_reg t);
  ow_route i : i ∈ reg_callbacks (route_reg t) ↔ CbRoute i ∈ cs;
  ow_iface i : i ∈ reg_callbacks (iface_reg t) ↔ CbInterface i ∈ cs;
  ow_monitor i : CbMonitor i ∈ cs → (i < length (monitors t))%nat;
  ow_open i m b : monitors t !! i = Some (m, b) → closed b = false → CbMonitor i ∈ cs }.

#[local] Set Default Proof Using "Type".

Lemma owned_ext t cs cs' : owned t cs → cs ≡ₚ cs' → owned t cs'.
Proof.
  intros [A B C D E F G] Hp. split; try done; setoid_rewrite <- Hp; done.
Qed.

Lemma owned_sys t cs w : owned t cs → owned (mkTW w (route_reg t) (iface_reg t) (monitors t)) cs.
Proof. by intros []; split. Qed.

Lemma elem_filter_ne (c d : callback) (cs : list callback) : d ∈ filter (λ x, x ≠ c) cs ↔ d ∈ cs ∧ d ≠ c.
Proof. rewrite list_elem_of_filter. tauto. Qed.

Lemma Unregister_owned c t cs : owned t cs → owned (Unregister c t) (filter (λ x, x ≠ c) cs).
Proof.
  intros [A B C D E F G]. destruct c as [id|id|id]; cbn [Unregister].
  - split; cbn [route_reg iface_reg monitors sys]; try done; [by apply NoDup_filter|..].
    + intros i. rewrite elem_filter_ne, D. naive_solver.
    + intros i. rewrite elem_filter_ne, E. naive_solver.
    + intros i. rewrite elem_filter_ne, length_alter. intros [Hi _]. by apply F.
    + intros i m b Hl Hc. rewrite elem_filter_ne. destruct (decide (i = id)) as [->|Hne].
      * rewrite list_lookup_alter_eq in Hl. destruct (monitors t !! id) as [[m0 b0]|]; [|done]. cbn in Hl. by simplify_eq.
      * rewrite list_lookup_alter_ne in Hl by done. split; [by eapply G|]. congruence.
  - destruct (UnregisterChangeCallback (cancel_notify id) id (route_reg t)) as [r o] eqn:Er.
    destruct (unregister_ok _ _ _ _ _ B Er) as [Hok Hcs]. split; cbn [route_reg iface_reg monitors sys fst]; try done; [by apply NoDup_filter|..].
    + intros i. rewrite elem_filter_ne, Hcs, list_elem_of_filter, D. naive_solver.
    + intros i. rewrite elem_filter_ne, E. naive_solver.
    + intros i. rewrite elem_filter_ne. intros [Hi _]. by apply F.
    + intros i m b Hl Hc. rewrite elem_filter_ne. split; [by eapply G|done].
  - destruct (UnregisterChangeCallback (cancel_notify id) id (iface_reg t)) as [r o] eqn:Er.
    destruct (unregister_ok _ _ _ _ _ C Er) as [Hok Hcs]. split; cbn [route_reg iface_reg monitors sys fst]; try done; [by apply NoDup_filter|..].
    + intros i. rewrite elem_filter_ne, D. naive_solver.
    + intros i. rewrite elem_filter_ne, Hcs, list_elem_of_filter, E. naive_solver.
    + intros i. rewrite elem_filter_ne. intros [Hi _]. by apply F.
    + intros i m b Hl Hc. rewrite elem_filter_ne. split; [by eapply G|done].
Qed.

Lemma unregister_all_owned l : ∀ t cs, owned t cs → owned (unregister_all l t) (filter (λ x, x ∉ l) cs).
Proof.
  induction l as [|c l IH]; intros t cs Ho; cbn [unregister_all fold_left].
  - by rewrite filter_notin_nil.
  - apply Unregister_owned with (c := c) in Ho. eapply owned_ext; [by apply IH|]. rewrite list_filter_filter.
    by rewrite (list_filter_iff _ (λ x, x ∉ c :: l)) by (intros x; rewrite not_elem_of_cons; tauto).
Qed.
Context (bind_socket : Z → Z → bool → prog W unit) (disable_firewall : prog W unit).
(** The system gives nonzero handles. *)
Context (Hroute : ∀ n, notify_route n ≠ Panic ∧ ∀ h, notify_route n = Ret h → h ≠ 0).
Context (Hiface : ∀ n, notify_interface n ≠ Panic ∧ ∀ h, notify_interface n = Ret h → h ≠ 0).

#[local] Set Default Proof Using "All".

Lemma register_route_owned t cs t' o : owned t cs → register_route t = (t', o) →
  match o with Ret i => owned t' (CbRoute i :: cs) | Fail _ => owned t' cs | Panic => False end
  ∧ iface_reg t' = iface_reg t ∧ monitors t' = monitors t.
Proof.
  intros [A B C D E F G]. unfold register_route. destruct (Hroute (reg_next (route_reg t))) as [Hp Hh].
  destruct (RegisterChangeCallback _ _) as [r o'] eqn:Er. intros [= <- <-].
  destruct (register_ok _ _ _ _ B Hp Hh Er) as [Hok Hcs]. split; [|done].
  destruct o' as [i|e|].
  - assert (CbRoute i ∉ cs) as Hnew.
    { rewrite <- D. pose proof (ro_nodup _ Hok) as Hn. rewrite Hcs in Hn. by apply NoDup_cons in Hn as [? _]. }
    split; cbn [route_reg iface_reg monitors]; try done; [by constructor|..].
    + intros j. rewrite Hcs, !elem_of_cons, D. naive_solver.
    + intros j. rewrite elem_of_cons, E. naive_solver.
    + intros j. rewrite elem_of_cons. naive_solver.
    + intros j m b Hl Hc. right. by eapply G.
  - split; cbn [route_reg iface_reg monitors]; try done. intros j. by rewrite Hcs, D.
  - unfold RegisterChangeCallback in Er. destruct (reg_handle (route_reg t) =? 0); [|done]. by destruct (notify_route _).
Qed.

Lemma register_interface_owned t cs t' o : owned t cs → register_interface t = (t', o) →
  match o with Ret i => owned t' (CbInterface i :: cs) | Fail _ => owned t' cs | Panic => False end.
Proof.
  intros [A B C D E F G]. unfold register_interface. destruct (Hiface (reg_next (iface_reg t))) as [Hp Hh].
  destruct (RegisterChangeCallback _ _) as [r o'] eqn:Er. intros [= <- <-].
  destruct (register_ok _ _ _ _ C Hp Hh Er) as [Hok Hcs]. destruct o' as [i|e|].
  - assert (CbInterface i ∉ cs) as Hnew.
    { rewrite <- E. pose proof (ro_nodup _ Hok) as Hn. rewrite Hcs in Hn. by apply NoDup_cons in Hn as [? _]. }
    split; cbn [route_reg iface_reg monitors]; try done; [by constructor|..].
    + intros j. rewrite elem_of_cons, D. naive_solver.
    + intros j. rewrite Hcs, !elem_of_cons, E. naive_solver.
    + intros j. rewrite elem_of_cons. naive_solver.
    + intros j m b Hl Hc. right. by eapply G.
  - split; cbn [route_reg iface_reg monitors]; try done. intros j. by rewrite Hcs, E.
  - unfold RegisterChangeCallback in Er. destruct (reg_handle (iface_reg t) =? 0); [|done]. by destruct (notify_interface _).
Qed.

Lemma add_monitor_owned t cs m : owned t cs →
  owned (mkTW (sys t) (route_reg t) (iface_reg t) (monitors t ++ [(m, new_burst)])) (CbMonitor (length (monitors t)) :: cs).
Proof.
  intros [A B C D E F G]. assert (CbMonitor (length (monitors t)) ∉ cs) as Hnew by (intros Hin%F; lia).
  split; cbn [route_reg iface_reg monitors]; try done; [by constructor|..].
  - intros j. rewrite elem_of_cons, D. naive_solver.
  - intros j. rewrite elem_of_cons, E. naive_solver.
  - intros j. rewrite elem_of_cons, length_app. cbn. intros [[= ->]|Hin%F]; lia.
  - intros j m' b Hl Hc. apply lookup_app_Some in Hl as [Hl|[Hl1 Hl2]]; [right; by eapply G|].
    apply lookup_lt_Some in Hl2. cbn in Hl2. assert (j = length (monitors t)) as -> by lia. left.
Qed.

Lemma filter_fresh (c : callback) cs : c ∉ cs → filter (λ x, x ∉ [c]) (c :: cs) = cs.
Proof.
  intros Hc. rewrite filter_cons_False by (intros Hn; apply Hn; by left). apply filter_all, Forall_forall.
  intros x Hx ->%list_elem_of_singleton. done.
Qed.

(** Either the three callbacks are in force, or none of them is. *)
Lemma monitorDefaultRoutes_owned family luid autoMTU blackhole t cs t' o : owned t cs →
  monitorDefaultRoutes bind_socket family luid autoMTU blackhole t = (t', o) →
  match o with Ret l => owned t' (l ++ cs) | _ => owned t' cs end.
Proof.
  intros Ho. unfold monitorDefaultRoutes, io_bind at 1. unfold first_run.
  destruct (routes_doIt _ _ _ _ _ _) as [[w m] [[]|e|]]; [|intros [= <- <-]; by apply owned_sys..].
  apply (owned_sys _ _ w) in Ho. set (t1 := mkTW w _ _ _) in *. unfold io_bind, add_monitor, attempt.
  pose proof (add_monitor_owned _ _ m Ho) as Hm. set (t2 := mkTW _ _ _ (monitors t1 ++ _)) in *. set (id := length (monitors t1)) in *.
  destruct (register_route t2) as [t3 o3] eqn:E3. destruct (register_route_owned _ _ _ _ Hm E3) as (H3 & _). destruct o3 as [cbr|e|]; [| |done].
  - destruct (register_interface t3) as [t4 o4] eqn:E4. pose proof (register_interface_owned _ _ _ _ H3 E4) as H4. destruct o4 as [cbi|e|]; [| |done].
    + intros [= <- <-]. eapply owned_ext; [exact H4|]. exact (Permutation_app_tail cs (Permutation_rev [CbInterface cbi; CbRoute cbr; CbMonitor id])).
    + intros [= <- <-]. apply (unregister_all_owned [CbMonitor id; CbRoute cbr]) in H4. eapply owned_ext; [exact H4|].
      pose proof (ow_nodup _ _ H3) as Hn. apply NoDup_cons in Hn as [Hn1 [Hn2 _]%NoDup_cons]. rewrite not_elem_of_cons in Hn1.
      rewrite !filter_cons_False by (rewrite not_elem_of_cons; set_solver). rewrite filter_all; [done|]. apply Forall_forall.
      intros x Hx. rewrite !not_elem_of_cons. destruct Hn1 as [_ Hn1]. split_and!; [by intros ->|by intros ->|apply not_elem_of_nil].
  - intros [= <- <-]. apply (unregister_all_owned [CbMonitor id]) in H3. rewrite filter_fresh in H3; [done|].
    pose proof (ow_nodup _ _ Hm) as Hn. by apply NoDup_cons in Hn as [? _].
Qed.

(** ** The invariant of the watcher *)

Definition all_callbacks (iw : watcher) : list callback :=
  option_list (CbInterface <$> interfaceChangeCallback iw) ++ changeCallbacks4 iw ++ changeCallbacks6 iw.

Definition watcher_ok (s : tunnel_world W * watcher) : Prop := owned (fst s) (all_callbacks (snd s)).

Lemma filter_drop_middle (a b c : list callback) : NoDup (a ++ b ++ c) → filter (λ x, x ∉ b) (a ++ b ++ c) = a ++ c.
Proof.
  rewrite !NoDup_app. intros (_ & Ha & _ & Hb & _). rewrite !filter_app. f_equal; [|].
  - apply filter_all, Forall_forall. intros x Hx Hxb. apply (Ha x Hx). apply elem_of_app. by left.
  - rewrite (filter_none _ b), (filter_all _ c); [done| |]; apply Forall_forall; intros x Hx.
    + intros Hxb. by apply (Hb x Hxb).
    + intros Hn. by apply Hn.
Qed.

Lemma send_error_callbacks e iw : all_callbacks (send_error e iw) = all_callbacks iw.
Proof. unfold send_error. by destruct (_ <? _)%nat. Qed.

Lemma set_callbacks_split family iw : ∃ a c, ∀ l, all_callbacks (set_callbacks family l iw) = a ++ l ++ c ∧
  (l = callbacks_of family iw → all_callbacks (set_callbacks family l iw) = all_callbacks iw).
Proof.
  unfold all_callbacks, set_callbacks, callbacks_of. cbn. destruct (family =? AF_INET).
  - exists (option_list (CbInterface <$> interfaceChangeCallback iw)), (changeCallbacks6 iw). intros l. split; [done|]. by intros ->.
  - exists (option_list (CbInterface <$> interfaceChangeCallback iw) ++ changeCallbacks4 iw), []. intros l. rewrite app_nil_r, <- app_assoc. split; [done|]. by intros ->.
Qed.

Lemma setup_ok family s : watcher_ok s → watcher_ok (setup bind_socket family s).
Proof.
  destruct s as [t iw]. unfold watcher_ok. cbn [fst snd]. intros Ho. unfold setup. destruct (iw_tun iw) as [luid|]; [|exact Ho].
  destruct (_ && _); [exact Ho|]. destruct (set_callbacks_split family iw) as (a & c & Hsplit).
  destruct (Hsplit (callbacks_of family iw)) as [Hold Hsame]. specialize (Hsame eq_refl). rewrite <- Hsame, Hold in Ho.
  pose proof (unregister_all_owned (callbacks_of family iw) _ _ Ho) as Hu. rewrite filter_drop_middle in Hu by apply Ho.
  set (t1 := unregister_all _ t) in *. destruct (monitorDefaultRoutes _ _ _ _ _ t1) as [t2 o] eqn:Em.
  pose proof (monitorDefaultRoutes_owned _ _ _ _ _ _ _ _ Hu Em) as Hm. destruct o as [cs|e|].
  - assert (owned t2 (all_callbacks (set_callbacks family cs iw))) as H2.
    { rewrite (proj1 (Hsplit cs)). eapply owned_ext; [exact Hm|]. by rewrite (Permutation_app_comm cs), <- app_assoc, (Permutation_app_comm c). }
    unfold on_sys. destruct (configureInterface _ _ _ (sys t2)) as [w [[]|e|]]; cbn [fst snd]; rewrite ?send_error_callbacks; by apply owned_sys.
  - cbn [fst snd]. rewrite send_error_callbacks, (proj1 (Hsplit [])). exact Hm.
  - cbn [fst snd]. rewrite (proj1 (Hsplit [])). exact Hm.
Qed.

Lemma interface_event_ok ty luid family s : watcher_ok s → watcher_ok (interface_event bind_socket ty luid family s).
Proof.
  intros Ho. pose proof (setup_ok family s Ho) as Hs. destruct s as [t iw]. unfold interface_event. destruct (_ || _); [done|].
  destruct (iw_tun iw); [destruct (_ =? _); [exact Hs|exact Ho]|exact Ho].
Qed.

Lemma replay_ok luid events : ∀ s, watcher_ok s → watcher_ok (replay bind_socket luid events s).
Proof.
  induction events as [|e events IH]; intros s Ho; cbn [replay]; [exact Ho|]. destruct (iw_stuck (snd s)); [exact Ho|]. apply IH.
  destruct (_ =? _); [by apply setup_ok|exact Ho].
Qed.

Lemma Configure_ok conf luid s : watcher_ok s → watcher_ok (Configure bind_socket conf luid s).
Proof.
  destruct s as [t iw]. intros Ho. unfold Configure. destruct (iw_stuck iw); [exact Ho|].
  set (iw1 := mkWatcher _ conf _ _ _ _ _ _). assert (watcher_ok (t, iw1)) as Ho1 by exact Ho.
  apply (replay_ok luid (storedEvents iw)) in Ho1. by destruct (replay _ _ _ _) as [t2 iw2].
Qed.

(** What can happen to a watcher. *)
Inductive watch_op := Event (ty luid family : Z) | DoConfigure (conf : Config) (luid : Z).
Definition watch_run (op : watch_op) (s : tunnel_world W * watcher) : tunnel_world W * watcher :=
  match op with Event ty luid family => interface_event bind_socket ty luid family s | DoConfigure conf luid => Configure bind_socket conf luid s end.
Definition fresh_world (w : W) : tunnel_world W := mkTW w empty_registry empty_registry [].

Lemma fresh_owned w : owned (fresh_world w) [].
Proof.
  assert (registry_ok empty_registry) as Hr by (split; cbn; [constructor|constructor|done]).
  split; cbn; [constructor|exact Hr|exact Hr| | | |].
  - intros i. split; by intros ?%elem_of_nil.
  - intros i. split; by intros ?%elem_of_nil.
  - by intros i ?%elem_of_nil.
  - intros i m b Hl. by rewrite lookup_nil in Hl.
Qed.

Lemma watch_runs_ok ops : ∀ s, watcher_ok s → watcher_ok (fold_left (λ s op, watch_run op s) ops s).
Proof.
  induction ops as [|op ops IH]; intros s Ho; cbn [fold_left]; [done|]. apply IH. destruct op; [by apply interface_event_ok|by apply Configure_ok].
Qed.

Lemma on_sys_owned {A} (m : prog W A) t cs : owned t cs → owned (fst (on_sys m t)) cs.
Proof. intros Ho. unfold on_sys. destruct (m (sys t)) as [w r]. by apply owned_sys. Qed.

(** C17: Whatever the watcher has been through, [Destroy] on its own leaves no
    callback registered and no monitor open, unless a send to the error channel
    holds the lock. *)
Theorem Destroy_releases_all w conf t0 iw0 ops :
  watchInterface (fresh_world w) conf = (t0, Ret iw0) →
  iw_stuck (snd (fold_left (λ s op, watch_run op s) ops (t0, iw0))) = false →
  let t := fst (Destroy disable_firewall (fold_left (λ s op, watch_run op s) ops (t0, iw0))) in
  reg_callbacks (route_reg t) = [] ∧ reg_callbacks (iface_reg t) = [] ∧ Forall (λ m, closed (snd m) = true) (monitors t).
Proof.
  intros Hw. assert (watcher_ok (t0, iw0)) as Ho.
  { unfold watchInterface in Hw. destruct (register_interface (fresh_world w)) as [t o] eqn:Er.
    pose proof (register_interface_owned _ _ _ _ (fresh_owned w) Er) as Ho. destruct o as [c|e|]; [|done|done]. by injection Hw as <- <-. }
  apply (watch_runs_ok ops) in Ho. destruct (fold_left _ ops _) as [t iw]. unfold watcher_ok in Ho. cbn [fst snd] in Ho.
  intros Hs t'. cbn [snd] in Hs. assert (owned t' []) as [_ _ _ D E _ G].
  { assert (owned (destroy_unregister (destroy_begin iw) t) []) as Hd.
    { unfold destroy_unregister, destroy_begin. cbn [sn4 sn6 sn_interface]. unfold all_callbacks in Ho.
      assert (owned (match interfaceChangeCallback iw with Some c => Unregister (CbInterface c) t | None => t end) (changeCallbacks4 iw ++ changeCallbacks6 iw)) as U1.
      { destruct (interfaceChangeCallback iw) as [c|]; [|exact Ho]. cbn in Ho. pose proof (ow_nodup _ _ Ho) as Hn. apply NoDup_cons in Hn as [Hn _].
        apply (Unregister_owned (CbInterface c)) in Ho. rewrite filter_cons_False in Ho by tauto. rewrite filter_all in Ho; [done|].
        apply Forall_forall. by intros x Hx ->. }
      pose proof (unregister_all_owned (changeCallbacks4 iw) _ _ U1) as U2.
      change (changeCallbacks4 iw ++ changeCallbacks6 iw) with ([] ++ changeCallbacks4 iw ++ changeCallbacks6 iw) in U2. rewrite filter_drop_middle in U2 by apply U1.
      pose proof (unregister_all_owned (changeCallbacks6 iw) _ _ U2) as U3. cbn [app] in U3. rewrite filter_none in U3; [done|].
      apply Forall_forall. intros x Hx Hn. by apply Hn. }
    apply (on_sys_owned (ignore_error disable_firewall)) in Hd.
    unfold t', Destroy, destroy_with, destroy_end. cbn [snd]. rewrite Hs. destruct (sn_tun _) as [luid|]; [|exact Hd].
    destruct (bool_decide _); [|exact Hd]. by apply on_sys_owned. }
  split_and!.
  - destruct (reg_callbacks (route_reg t')) as [|i l]; [done|]. exfalso. apply (elem_of_nil (CbRoute i)), D. left.
  - destruct (reg_callbacks (iface_reg t')) as [|i l]; [done|]. exfalso. apply (elem_of_nil (CbInterface i)), E. left.
  - apply Forall_forall. intros [m b] [i Hi]%list_elem_of_lookup. cbn. destruct (closed b) eqn:Ec; [done|]. exfalso. by eapply elem_of_nil, G.
Qed.
End Ownership.

(** ** Every appearance is set up once *)

Section Appearances.
Context {W : Type} `{IpHelper W} `{SortSlice} `{Notifier}.
Context (bind_socket : Z → Z → bool → prog W unit).

Definition with_events (ev : list (Z * Z)) (iw : watcher) : watcher :=
  mkWatcher (iw_errors iw) (iw_conf iw) (iw_tun iw) (interfaceChangeCallback iw) (changeCallbacks4 iw) (changeCallbacks6 iw) ev (iw_stuck iw).

Lemma send_error_events ev e iw : send_error e (with_events ev iw) = with_events ev (send_error e iw).
Proof. unfold send_error. cbn [iw_errors with_events]. by destruct (_ <? _)%nat. Qed.

Lemma setup_events ev family t iw :
  setup bind_socket family (t, with_events ev iw) = let '(t', iw') := setup bind_socket family (t, iw) in (t', with_events ev iw').
Proof.
  unfold setup. cbn [iw_tun with_events]. destruct (iw_tun iw) as [luid|]; [|done]. destruct (_ && _); [done|].
  change (callbacks_of family (with_events ev iw)) with (callbacks_of family iw).
  change (set_callbacks family ?l (with_events ev iw)) with (with_events ev (set_callbacks family l iw)).
  cbn [iw_conf with_events set_callbacks]. destruct (monitorDefaultRoutes _ _ _ _ _ _) as [t2 [cs|e|]]; [|cbn zeta|done].
  - change (set_callbacks family cs (with_events ev iw)) with (with_events ev (set_callbacks family cs iw)). cbn zeta.
    unfold on_sys. destruct (configureInterface _ _ _ (sys t2)) as [w [[]|e|]]; try done. by rewrite send_error_events.
  - change (set_callbacks family [] (with_events ev iw)) with (with_events ev (set_callbacks family [] iw)). by rewrite send_error_events.
Qed.

Lemma setup_stuck family s : iw_stuck (snd s) = true → iw_stuck (snd (setup bind_socket family s)) = true.
Proof.
  destruct s as [t iw]. cbn [snd]. intros Hs. unfold setup. destruct (iw_tun iw); [|done]. destruct (_ && _); [done|].
  destruct (monitorDefaultRoutes _ _ _ _ _ _) as [t2 [cs|e|]]; [|unfold send_error; by destruct (_ <? _)%nat|done].
  unfold on_sys. destruct (configureInterface _ _ _ (sys t2)) as [w [[]|e|]]; try done. unfold send_error. by destruct (_ <? _)%nat.
Qed.

Lemma setup_tun family s : iw_tun (snd (setup bind_socket family s)) = iw_tun (snd s) ∧ storedEvents (snd (setup bind_socket family s)) = storedEvents (snd s).
Proof.
  destruct s as [t iw]. unfold setup. destruct (iw_tun iw) eqn:E; cbn [snd]; [|done]. destruct (_ && _); [done|].
  destruct (monitorDefaultRoutes _ _ _ _ _ _) as [t2 [cs|e|]]; [|unfold send_error; by destruct (_ <? _)%nat|done].
  unfold on_sys. destruct (configureInterface _ _ _ (sys t2)) as [w [[]|e|]]; try done. unfold send_error. by destruct (_ <? _)%nat.
Qed.

(** An event of the system: kind, interface, family. *)
Definition iface_event : Type := Z * Z * Z.
Definition deliver (s : tunnel_world W * watcher) (e : iface_event) : tunnel_world W * watcher :=
  let '(ty, luid, family) := e in interface_event bind_socket ty luid family s.

(** The appearances of the tunnel's interface among the events. *)
Definition appearances (luid : Z) (events : list iface_event) : list Z :=
  omap (λ e, let '(ty, l, family) := e in if (ty =? MibAddInstance) && (l =? luid) then Some family else None) events.

Definition setups (families : list Z) (s : tunnel_world W * watcher) := fold_left (λ s f, setup bind_socket f s) families s.

(** Events that come before the device is configured are kept, in order. *)
Lemma events_stored events : ∀ t iw, iw_tun iw = None → iw_stuck iw = false →
  fold_left deliver events (t, iw)
  = (t, with_events (storedEvents iw ++ omap (λ e : iface_event, let '(ty, l, family) := e in if ty =? MibAddInstance then Some (l, family) else None) events) iw).
Proof.
  induction events as [|[[ty l] family] events IH]; intros t iw Ht Hs; cbn [fold_left omap list_omap].
  - rewrite app_nil_r. by destruct iw.
  - unfold deliver at 2, interface_event. rewrite Hs, Ht. cbn [orb]. destruct (ty =? MibAddInstance); cbn [negb].
    + rewrite IH by done. cbn. f_equal. unfold with_events. cbn. by rewrite Ht, Hs, <- app_assoc.
    + by apply IH.
Qed.

Lemma setups_stuck fs : ∀ s, iw_stuck (snd s) = true → iw_stuck (snd (setups fs s)) = true.
Proof. induction fs as [|f fs IH]; intros s Hs; [done|]. apply IH. by apply setup_stuck. Qed.

Lemma replay_setups luid events : ∀ s, iw_stuck (snd (replay bind_socket luid events s)) = false →
  replay bind_socket luid events s = setups (omap (λ e, if fst e =? luid then Some (snd e) else None) events) s.
Proof.
  induction events as [|e events IH]; intros s Hs; cbn [replay omap list_omap] in *; [done|].
  destruct (iw_stuck (snd s)) eqn:E; [congruence|]. rewrite IH by done. by destruct (fst e =? luid).
Qed.

Lemma events_setups luid events : ∀ s, iw_tun (snd s) = Some luid → iw_stuck (snd (fold_left deliver events s)) = false →
  fold_left deliver events s = setups (appearances luid events) s.
Proof.
  induction events as [|[[ty l] family] events IH]; intros s Ht Hs; [done|]. cbn [fold_left appearances omap list_omap] in *.
  assert (iw_stuck (snd s) = false) as Hs0.
  { destruct (iw_stuck (snd s)) eqn:E; [|done]. exfalso. assert (∀ evs, fold_left deliver evs s = s) as Hst.
    { clear -E. induction evs as [|[[ty l] f] evs IH]; [done|]. cbn [fold_left]. unfold deliver at 2, interface_event. destruct s as [t iw]. cbn in E. by rewrite E. }
    assert (deliver s (ty, l, family) = s) as Hd by (exact (Hst [(ty, l, family)])). rewrite Hd, Hst in Hs. congruence. }
  assert (deliver s (ty, l, family) = if (ty =? MibAddInstance) && (l =? luid) then setup bind_socket family s else s) as Hd.
  { unfold deliver, interface_event. destruct s as [t iw]. cbn in Ht, Hs0. rewrite Ht, Hs0. cbn [orb].
    destruct (ty =? MibAddInstance); cbn [negb andb]; [|done]. by destruct (l =? luid). }
  rewrite Hd in *. destruct (_ && _).
  - rewrite IH; [done| |done]. by rewrite (proj1 (setup_tun family s)).
  - by apply IH.
Qed.

Lemma setups_events ev fs : ∀ t iw,
  setups fs (t, with_events ev iw) = let '(t', iw') := setups fs (t, iw) in (t', with_events ev iw').
Proof.
  induction fs as [|f fs IH]; intros t iw; [done|]. cbn [setups fold_left]. rewrite setup_events.
  destruct (setup bind_socket f (t, iw)) as [t' iw']. apply IH.
Qed.

Lemma setups_keep fs : ∀ s, storedEvents (snd (setups fs s)) = storedEvents (snd s) ∧ iw_tun (snd (setups fs s)) = iw_tun (snd s).
Proof.
  induction fs as [|f fs IH]; intros s; [done|]. cbn [setups fold_left]. destruct (IH (setup bind_socket f s)) as [E1 E2].
  destruct (setup_tun f s) as [E3 E4]. unfold setups in *. by rewrite E1, E2.
Qed.

Lemma deliver_stuck events s : iw_stuck (snd s) = true → fold_left deliver events s = s.
Proof.
  intros Hs. induction events as [|[[ty l] f] events IH]; [done|]. cbn [fold_left]. unfold deliver at 2, interface_event.
  destruct s as [t iw]. cbn in Hs. by rewrite Hs.
Qed.

(** The watcher once its device is known. *)
Definition configured (conf : Config) (luid : Z) (iw : watcher) : watcher :=
  mkWatcher (iw_errors iw) conf (Some luid) (interfaceChangeCallback iw) (changeCallbacks4 iw) (changeCallbacks6 iw) [] false.

Lemma Configure_setups conf luid t iw ev : iw_stuck iw = false →
  let families := omap (λ e : Z * Z, if fst e =? luid then Some (snd e) else None) ev in
  let s := Configure bind_socket conf luid (t, with_events ev iw) in
  iw_stuck (snd s) = false → s = setups families (t, configured conf luid iw).
Proof.
  intros Hs families. unfold Configure. cbn [with_events iw_stuck storedEvents]. rewrite Hs.
  change (mkWatcher _ conf (Some luid) _ _ _ ev false) with (with_events ev (configured conf luid iw)).
  destruct (replay bind_socket luid ev _) as [t' iw'] eqn:Er. cbn. intros Hs'.
  assert (iw_stuck (snd (replay bind_socket luid ev (t, with_events ev (configured conf luid iw)))) = false) as Hr by by rewrite Er.
  apply replay_setups in Hr. rewrite Er in Hr. fold families in Hr. rewrite setups_events in Hr.
  destruct (setups_keep families (t, configured conf luid iw)) as [Hk _].
  destruct (setups families _) as [t2 iw2]. cbn in Hk. injection Hr as -> ->. unfold clear_events. cbn in Hs' |- *. rewrite Hs'.
  destruct iw2. cbn in *. by subst.
Qed.

Lemma appearances_app luid e1 e2 : appearances luid (e1 ++ e2) = appearances luid e1 ++ appearances luid e2.
Proof. apply omap_app. Qed.

Lemma stored_appearances luid events :
  omap (λ e : Z * Z, if fst e =? luid then Some (snd e) else None)
    (omap (λ e : iface_event, let '(ty, l, family) := e in if ty =? MibAddInstance then Some (l, family) else None) events)
  = appearances luid events.
Proof.
  induction events as [|[[ty l] f] events IH]; [done|]. cbn in IH |- *. destruct (ty =? MibAddInstance); cbn; [|done].
  destruct (l =? luid); by rewrite IH.
Qed.

(** However the appearances of the interface fall before and after [Configure],
    the watcher does what one set-up per appearance does, in their order: none is
    lost, repeated or taken for another interface. *)
Theorem interface_set_up_once t iw conf luid before after :
  iw_tun iw = None → iw_stuck iw = false → storedEvents iw = [] →
  let s := fold_left deliver after (Configure bind_socket conf luid (fold_left deliver before (t, iw))) in
  iw_stuck (snd s) = false → s = setups (appearances luid (before ++ after)) (t, configured conf luid iw).
Proof.
  intros Ht Hs He. rewrite events_stored, He, app_nil_l by done. set (ev := omap _ before). intros s Hf.
  assert (iw_stuck (snd (Configure bind_socket conf luid (t, with_events ev iw))) = false) as Hc.
  { apply not_true_is_false. intros E. unfold s in Hf. rewrite deliver_stuck in Hf; [congruence|exact E]. }
  apply Configure_setups in Hc; [|done]. unfold ev in Hc at 2. rewrite stored_appearances in Hc.
  unfold s in Hf |- *. rewrite appearances_app. unfold setups at 1. rewrite fold_left_app. fold (setups (appearances luid before)).
  rewrite Hc in Hf |- *. apply events_setups; [|done].
  exact (proj2 (setups_keep (appearances luid before) (t, configured conf luid iw))).
Qed.
End Appearances.

(** ** Default routes *)

Definition is_net (c : Z) (ip : IP) (a : IPCidr) : Prop := Cidr a = c ∧ IPof a = ip.
#[export] Instance is_net_dec c ip a : Decision (is_net c ip a).
Proof. unfold is_net. apply _. Defined.

Lemma IP_Equal_same_length (a b : IP) : length a = length b → length b = 4%nat ∨ length b = 16%nat → IP_Equal a b = bool_decide (a = b).
Proof.
  intros Hl Hb. apply eq_true_iff_eq. unfold IP_Equal, To16. rewrite Hl, bool_decide_eq_true.
  destruct Hb as [-> | ->]; cbn [Nat.eqb default]; [|apply str_eqb_true].
  rewrite str_eqb_true. split; [apply app_inv_head|by intros ->].
Qed.

Lemma net_test c n ip a : length ip = n → n = 4%nat ∨ n = 16%nat →
  (Cidr a =? c) && (length (IPof a) =? n)%nat && IP_Equal (IPof a) ip = bool_decide (is_net c ip a).
Proof.
  intros Hl Hn. apply eq_true_iff_eq. rewrite bool_decide_eq_true, !andb_true_iff, Z.eqb_eq, Nat.eqb_eq. subst n. unfold is_net. split.
  - intros [[-> E] He]. rewrite IP_Equal_same_length, bool_decide_eq_true in He by done. done.
  - intros [-> ->]. split_and!; try done. rewrite IP_Equal_same_length by done. by rewrite bool_decide_eq_true.
Qed.

Lemma note_route_fields h a :
  f401 (note_route h a) = f401 h || bool_decide (is_net 1 v40 a) ∧ f41281 (note_route h a) = f41281 h || bool_decide (is_net 1 v48 a) ∧
  f600001 (note_route h a) = f600001 h || bool_decide (is_net 1 v60 a) ∧ f680001 (note_route h a) = f680001 h || bool_decide (is_net 1 v68 a) ∧
  f400 (note_route h a) = f400 h || bool_decide (is_net 0 v40 a) ∧ f600 (note_route h a) = f600 h || bool_decide (is_net 0 v60 a).
Proof.
  unfold note_route. rewrite !net_test by (try reflexivity; tauto). unfold is_net.
  repeat case_bool_decide; cbn; rewrite ?orb_false_r, ?orb_true_r; try done; exfalso; destruct_and!; try (by intuition congruence);
    match goal with E : IPof a = _, F : IPof a = _ |- _ => rewrite E in F; discriminate F end.
Qed.

Lemma found_spec (get : halves → bool) c ip routes : (∀ h a, get (note_route h a) = get h || bool_decide (is_net c ip a)) →
  ∀ h, get (fold_left note_route routes h) = true ↔ get h = true ∨ ∃ a, a ∈ routes ∧ is_net c ip a.
Proof.
  intros Hg. induction routes as [|a routes IH]; intros h; cbn [fold_left].
  - split; [by left|]. intros [?|(a & Ha & _)]; [done|]. by apply elem_of_nil in Ha.
  - rewrite IH, Hg, orb_true_iff, bool_decide_eq_true. split.
    + intros [[?|Hn]|(x & Hx & Hn)]; [by left| |]; right; [exists a; split; [left|done]|exists x; split; [by right|done]].
    + intros [?|(x & Hx & Hn)]; [tauto|]. apply elem_of_cons in Hx as [->|Hx]; [tauto|]. right. by exists x.
Qed.

(** The tunnel takes the default route of a family when the peers allow all of
    it, or its two halves. *)
Theorem hasDefaultRoute_spec family peers :
  let allowed c ip := ∃ a, a ∈ concat (map AllowedIPs peers) ∧ is_net c ip a in
  hasDefaultRoute family peers = true ↔
    (family = AF_INET ∧ (allowed 0 v40 ∨ allowed 1 v40 ∧ allowed 1 v48)) ∨
    (family = AF_INET6 ∧ (allowed 0 v60 ∨ allowed 1 v60 ∧ allowed 1 v68)).
Proof.
  intros allowed. unfold hasDefaultRoute. set (routes := concat _).
  assert (∀ get c ip, (∀ h a, get (note_route h a) = get h || bool_decide (is_net c ip a)) → get (mkHalves false false false false false false) = false →
    get (fold_left note_route routes (mkHalves false false false false false false)) = true ↔ allowed c ip) as Hf.
  { intros get c ip Hg H0. rewrite (found_spec get c ip) by done. rewrite H0. unfold allowed, routes. naive_solver. }
  destruct (Z.eqb_spec family AF_INET) as [->|H4]; [|destruct (Z.eqb_spec family AF_INET6) as [->|H6]].
  - rewrite orb_true_iff, andb_true_iff, (Hf f400 0 v40), (Hf f401 1 v40), (Hf f41281 1 v48) by (try done; intros; apply note_route_fields).
    split; [intros Ha; left; by split|]. intros [[_ Ha]|[Hx _]]; [done|by vm_compute in Hx].
  - rewrite orb_true_iff, andb_true_iff, (Hf f600 0 v60), (Hf f600001 1 v60), (Hf f680001 1 v68) by (try done; intros; apply note_route_fields).
    split; [intros Ha; right; by split|]. intros [[Hx _]|[_ Ha]]; [by vm_compute in Hx|done].
  - split; [done|]. intros [[? _]|[? _]]; done.
Qed.

(** ** On a concrete system *)

#[local] Instance plain_notifier : Notifier := {|
  notify_route n := Ret 1;
  notify_interface n := Ret 2;
  cancel_notify n := None |}.

Definition bound : Z → Z → bool → prog ip_view unit := λ _ _ _ v, (v, Ret tt).
Definition not_bound : Z → Z → bool → prog ip_view unit := λ _ _ _ v, (v, Fail (ErrorString "no such interface")).
Definition off : prog ip_view unit := io_ret tt.

(** The interface of the tunnel, 9, appears before and after the device is known. *)
Definition demo_ops : list watch_op :=
  [Event MibAddInstance 9 AF_INET; Event MibAddInstance 5 AF_INET; DoConfigure demo_conf 9; Event MibAddInstance 9 AF_INET6].
Definition demo_watcher : watcher := mkWatcher [] demo_conf None (Some 0%nat) [] [] [] false.

#[local] Existing Instance insertion_sort.

Lemma Destroy_releases_all_witness :
  let s := fold_left (λ s op, watch_run bound op s) demo_ops (fst (register_interface (fresh_world demo_tables)), demo_watcher) in
  length (reg_callbacks (route_reg (fst s))) = 2%nat ∧ length (reg_callbacks (iface_reg (fst s))) = 3%nat ∧ length (monitors (fst s)) = 2%nat ∧
  let t := fst (Destroy off s) in
  reg_callbacks (route_reg t) = [] ∧ reg_callbacks (iface_reg t) = [] ∧ Forall (λ m, closed (snd m) = true) (monitors t).
Proof.
  split_and!; [vm_compute; reflexivity..|].
  assert (∀ n, notify_route n ≠ Panic ∧ ∀ h, notify_route n = Ret h → h ≠ 0) as Hr by (intros n; cbn; split; congruence).
  assert (∀ n, notify_interface n ≠ Panic ∧ ∀ h, notify_interface n = Ret h → h ≠ 0) as Hi by (intros n; cbn; split; congruence).
  apply (Destroy_releases_all bound off Hr Hi demo_tables demo_conf); vm_compute; reflexivity.
Defined.

Lemma interface_set_up_once_witness :
  let before := [(MibAddInstance, 9, AF_INET); (MibAddInstance, 5, AF_INET)] in
  let after := [(MibAddInstance, 9, AF_INET6); (MibAddInstance + 1, 9, AF_INET)] in
  let t := fst (register_interface (fresh_world demo_tables)) in
  fold_left (deliver bound) after (Configure bound demo_conf 9 (fold_left (deliver bound) before (t, demo_watcher)))
  = setups bound [AF_INET; AF_INET6] (t, configured demo_conf 9 demo_watcher).
Proof.
  intros before after t. apply (interface_set_up_once bound t demo_watcher demo_conf 9 before after); vm_compute; reflexivity.
Defined.

(** ** What goes wrong *)

(** The interface reappears while the watcher is being destroyed: the callbacks
    of the new set-up are taken for the old ones, and stay registered while the
    watcher lists none of them. *)
Theorem destroy_race_leaks :
  let s := fold_left (λ s op, watch_run bound op s) [DoConfigure demo_conf 9; Event MibAddInstance 9 AF_INET]
             (fst (register_interface (fresh_world demo_tables)), demo_watcher) in
  let '(t, iw) := destroy_with off (interface_event bound MibAddInstance 9 AF_INET) s in
  changeCallbacks4 iw = [] ∧ changeCallbacks6 iw = [] ∧ interfaceChangeCallback iw = None ∧
  length (reg_callbacks (route_reg t)) = 1%nat ∧ length (reg_callbacks (iface_reg t)) = 1%nat ∧ Exists (λ m, closed (snd m) = false) (monitors t).
Proof. vm_compute. split_and!; try reflexivity. right. left. reflexivity. Qed.

(** A third failure before the first is read fills the error channel: the lock
    is never given back and later appearances are ignored. *)
Theorem third_error_blocks :
  let s := fold_left (λ s op, watch_run not_bound op s)
             [DoConfigure demo_conf 9; Event MibAddInstance 9 AF_INET; Event MibAddInstance 9 AF_INET6; Event MibAddInstance 9 AF_INET]
             (fst (register_interface (fresh_world (mkView [] [wifi_route] []))), demo_watcher) in
  iw_stuck (snd s) = true ∧ length (iw_errors (snd s)) = errors_capacity ∧
  ∀ events, fold_left (deliver bound) events s = s ∧ Destroy off s = s.
Proof.
  intros s. assert (iw_stuck (snd s) = true) as Hs by (vm_compute; reflexivity). split_and!; [done|vm_compute; reflexivity|].
  intros events. split; [by apply deliver_stuck|]. unfold Destroy, destroy_with. by rewrite Hs.
Qed.
