(* ===== verification/Services.v ===== *)
(** * Service errors and names ([core/services])

    The error a service stops with is a Windows error or a number of the
    service's own; the manager reads it back from the status of the service. *)
From S2P Require Import Prelude GoStrings GoStrconv TunnelName.

Local Open Scope Z_scope.

(** A Go error: a [syscall.Errno], a [services.Error], one wrapped in the text of
    a [services.Error] or in another text, or any other. *)
Inductive svc_err :=
| Sys (errno : Z)
| ServiceErr (code : Z)
| Combined (code : Z) (inner : svc_err)
| Wrapped (text : gostring) (inner : svc_err)
| OtherErr (e : goerror).

#[export] Instance svc_err_inhabited : Inhabited svc_err := populate (Sys 0).

(** ** Numbers of the tunnel service ([core/services/errors.go]) *)

Definition ErrorSuccess : Z := 0.
Definition ErrorRingloggerOpen : Z := 1.
Definition ErrorLoadConfiguration : Z := 2.
Definition ErrorCreateWintun : Z := 3.
Definition ErrorUAPIListen : Z := 4.
Definition ErrorDNSLookup : Z := 5.
Definition ErrorFirewall : Z := 6.
Definition ErrorDeviceSetConfig : Z := 7.
Definition ErrorBindSocketsToDefaultRoutes : Z := 8.
Definition ErrorSetNetConfig : Z := 9.
Definition ErrorDetermineExecutablePath : Z := 10.
Definition ErrorTrackTunnels : Z := 11.
Definition ErrorEnumerateSessions : Z := 12.
Definition ErrorDropPrivileges : Z := 13.
Definition ErrorRunScript : Z := 14.
Definition ErrorWin32 : Z := 15.

Definition Error_texts : list gostring := [
  "No error"; "Unable to open log file"; "Unable to load configuration from path"; "Unable to create Wintun interface";
  "Unable to listen on named pipe"; "Unable to resolve one or more DNS hostname endpoints"; "Unable to enable firewall rules";
  "Unable to set device configuration"; "Unable to bind sockets to default route";
  "Unable to set interface addresses, routes, dns, and/or interface settings"; "Unable to determine path of running executable";
  "Unable to track existing tunnels"; "Unable to enumerate current sessions"; "Unable to drop privileges";
  "An error occurred while running a configuration script command"; "An internal Windows error has occurred"].

(** [Error.Error], by number. *)
Definition Error_Error (e : Z) : gostring := default "An unknown error has occurred" (Error_texts !! Z.to_nat e).

Definition DetermineErrorCode (err : option svc_err) (serviceError : Z) : bool * Z :=
  match err with
  | Some (Sys n) => (false, n mod 2 ^ 32)
  | _ => if negb (serviceError =? ErrorSuccess) then (true, serviceError) else (false, 0)
  end.

Definition CombineErrors (err : option svc_err) (serviceError : Z) : option svc_err :=
  if negb (serviceError =? ErrorSuccess) then
    match err with Some e => Some (Combined serviceError e) | None => Some (ServiceErr serviceError) end
  else err.

(** ** Names ([core/services/names.go]) *)

Section Names.
Context `{GoRuntime}.

Definition ServiceNameOfTunnel (tunnelName : gostring) : outcome gostring :=
  if negb (TunnelNameIsValid tunnelName) then Fail (ErrorString "Tunnel name is not valid")
  else Ret ("PinusAWGPreviewTunnel$" ++ tunnelName).

Definition PipePathOfTunnel (tunnelName : gostring) : outcome gostring :=
  if negb (TunnelNameIsValid tunnelName) then Fail (ErrorString "Tunnel name is not valid")
  else Ret ("\\.\pipe\ProtectedPrefix\Administrators\PinusAWGPreview\" ++ tunnelName).

(** Names keep tunnels apart. *)
Lemma ServiceNameOfTunnel_inj a b s : ServiceNameOfTunnel a = Ret s → ServiceNameOfTunnel b = Ret s → a = b.
Proof.
  unfold ServiceNameOfTunnel. destruct (TunnelNameIsValid a), (TunnelNameIsValid b); try done. cbn [negb].
  intros Ha Hb. rewrite <- Hb in Ha. assert ("PinusAWGPreviewTunnel$" ++ a = "PinusAWGPreviewTunnel$" ++ b) as E by congruence. by apply app_inv_head in E.
Qed.

Lemma PipePathOfTunnel_inj a b s : PipePathOfTunnel a = Ret s → PipePathOfTunnel b = Ret s → a = b.
Proof.
  unfold PipePathOfTunnel. destruct (TunnelNameIsValid a), (TunnelNameIsValid b); try done. cbn [negb].
  intros Ha Hb. rewrite <- Hb in Ha.
  assert ("\\.\pipe\ProtectedPrefix\Administrators\PinusAWGPreview\" ++ a = "\\.\pipe\ProtectedPrefix\Administrators\PinusAWGPreview\" ++ b) as E by congruence.
  by apply app_inv_head in E.
Qed.

End Names.
