(* ===== verification/DeterministicGuid.v ===== *)
(** * The adapter's GUID ([core/tunnel/deterministicguid.go])

    The GUID of the tunnel's network adapter is a hash of the tunnel's name,
    its public key and its peers, so that Windows recognises the network the
    next time.  Peers and allowed networks are sorted in place first: their
    order in the file does not matter, and the configuration the tunnel runs
    with afterwards is the sorted one.

    BLAKE2s, the NFC normal form and [Key.Public] are operations of [Class
    GuidHost]. *)
From S2P Require Import Prelude GoStrings GoStrconv AwgValidation GoEncoding GoNet GoSort TunnelName Conf ParserFacts.

Local Open Scope Z_scope.

Class GuidHost := {
  blake2s_Sum : list byte → list byte;
  norm_NFC : gostring → list byte;
  Public : Key → Key;
}.

(** NFC does not change ASCII text (UAX #15); keys have 32 bytes. *)
Class GuidHostLaws `{GuidHost} : Prop := {
  norm_NFC_ascii s : forallb (λ b, bz b <? 128) s = true → norm_NFC s = s;
  Public_length k : length k = KeyLength → length (Public k) = KeyLength;
}.

Definition deterministicGUIDLabel : gostring := "Deterministic WireGuard Windows GUID v1 jason@zx2c4.com".
Definition fixedGUIDLabel : gostring := "Fixed WireGuard Windows GUID v1 jason@zx2c4.com".

Definition LittleEndian_PutUint32 (v : Z) : list byte := [zb v; zb (v / 2 ^ 8); zb (v / 2 ^ 16); zb (v / 2 ^ 24)].

Section Guid.
Context `{SortSlice} `{GuidHost}.

Definition b2Number (i : Z) : outcome (list byte) :=
  if i >? 2 ^ 32 - 1 then Panic else Ret (LittleEndian_PutUint32 i).

Definition b2String (s : gostring) : outcome (list byte) :=
  let bytes := norm_NFC s in
  n ← b2Number (Z.of_nat (length bytes)); Ret (n ++ bytes).

Definition peer_compare (a b : Peer) : comparison := str_compare (PublicKey a) (PublicKey b).

Definition cidr_compare : IPCidr → IPCidr → comparison := lex_compare [
  (λ a b, Z.compare (Bits a) (Bits b));
  (λ a b, Z.compare (Cidr a) (Cidr b));
  (λ a b, str_compare (IPof a) (IPof b))].

Definition sorted_cidrs (l : list IPCidr) : list IPCidr := sort_Slice (less_of cidr_compare) l.

(** What the two sorts leave in the configuration. *)
Definition sort_config (c : Config) : Config :=
  c <| Peers := map (λ p, p <| AllowedIPs := sorted_cidrs (AllowedIPs p) |>) (sort_Slice (less_of peer_compare) (Peers c)) |>.

Definition b2Peer (peer : Peer) : outcome (list byte) :=
  n ← b2Number (Z.of_nat (length (AllowedIPs peer)));
  ips ← mapM_outcome (λ a, b2String (IPCidr_String a)) (sorted_cidrs (AllowedIPs peer));
  Ret (PublicKey peer ++ n ++ concat ips).

(** Everything written to the hash. *)
Definition guid_input (UseFixedGUIDInsteadOfDeterministic : bool) (c : Config) : outcome (list byte) :=
  let label := if UseFixedGUIDInsteadOfDeterministic then fixedGUIDLabel else deterministicGUIDLabel in
  name ← b2String (Name c);
  if UseFixedGUIDInsteadOfDeterministic then Ret (label ++ name)
  else
    n ← b2Number (Z.of_nat (length (Peers c)));
    peers ← mapM_outcome b2Peer (sort_Slice (less_of peer_compare) (Peers c));
    Ret (label ++ name ++ Public (PrivateKey (Iface c)) ++ n ++ concat peers).

(** The first 16 bytes of the sum are read as the GUID. *)
Definition deterministicGUID (UseFixed : bool) (c : Config) : Config * outcome (list byte) :=
  (if UseFixed then c else sort_config c, input ← guid_input UseFixed c; Ret (take 16 (blake2s_Sum input))).
End Guid.

(** ** The input of the hash can be read back *)

Lemma PutUint32_inj a b : 0 <= a < 2 ^ 32 → 0 <= b < 2 ^ 32 → LittleEndian_PutUint32 a = LittleEndian_PutUint32 b → a = b.
Proof.
  intros Ha Hb [= E0 E1 E2 E3].
  assert (∀ x y, zb x = zb y → x mod 256 = y mod 256) as Hz by (intros x y E; apply (f_equal bz) in E; by rewrite !bz_zb in E).
  apply Hz in E0, E1, E2, E3. change (2 ^ 8) with 256 in *. change (2 ^ 16) with 65536 in *. change (2 ^ 24) with 16777216 in *.
  assert (∀ x, 0 <= x < 2 ^ 32 → x = x mod 256 + 256 * ((x / 256) mod 256) + 65536 * ((x / 65536) mod 256) + 16777216 * ((x / 16777216) mod 256)) as Hx.
  { intros x Hx. change 65536 with (256 * 256). change 16777216 with (256 * 256 * 256). rewrite <- !Z.div_div by lia.
    set (q1 := x / 256). set (q2 := q1 / 256). set (q3 := q2 / 256).
    pose proof (Z.div_mod x 256 ltac:(lia)). pose proof (Z.div_mod q1 256 ltac:(lia)). pose proof (Z.div_mod q2 256 ltac:(lia)).
    rewrite (Z.mod_small q3) by (unfold q3, q2, q1; rewrite !Z.div_div by lia; split; [apply Z.div_pos|apply Z.div_lt_upper_bound]; lia).
    fold q1 in H. fold q2 in H0. fold q3 in H1. clearbody q1 q2 q3.
    generalize dependent (x mod 256). generalize dependent (q1 mod 256). generalize dependent (q2 mod 256). intros. lia. }
  rewrite (Hx a), (Hx b) by done. by rewrite E0, E1, E2, E3.
Qed.

Section Injective.
Context `{SortSlice} `{GuidHost}.

(** A writer whose output tells where it ends. *)
Definition self_delimiting {A B} (key : A → B) (w : A → outcome (list byte)) (ok : A → Prop) : Prop :=
  ∀ a b x y r s, ok a → ok b → w a = Ret x → w b = Ret y → x ++ r = y ++ s → key a = key b ∧ r = s.

Lemma b2Number_delimits : self_delimiting id b2Number (λ i, 0 <= i).
Proof.
  intros a b x y r s Ha Hb. cbn in Ha, Hb. unfold b2Number. destruct (Z.gtb_spec a (2 ^ 32 - 1)), (Z.gtb_spec b (2 ^ 32 - 1)); try done.
  intros [= <-] [= <-] E. apply app_inj_1 in E as [E ->]; [|done]. split; [|done]. unfold id. apply PutUint32_inj; [lia|lia|done].
Qed.

Lemma b2String_delimits : self_delimiting norm_NFC b2String (λ _, True).
Proof.
  intros a b x y r s _ _ Ha Hb E. unfold b2String in *. apply bind_ret in Ha as (na & Hna & [= <-]). apply bind_ret in Hb as (nb & Hnb & [= <-]).
  rewrite <- !app_assoc in E. destruct (b2Number_delimits _ _ _ _ _ _ (Zle_0_nat _) (Zle_0_nat _) Hna Hnb E) as [El E'].
  apply Nat2Z.inj in El. by apply app_inj_1 in E' as [-> ->].
Qed.

Lemma mapM_delimits {A B} (key : A → B) w ok : self_delimiting key w ok → ∀ l l' xs ys r s,
  Forall ok l → Forall ok l' → length l = length l' → mapM_outcome w l = Ret xs → mapM_outcome w l' = Ret ys →
  concat xs ++ r = concat ys ++ s → map key l = map key l' ∧ r = s.
Proof.
  intros Hw l. induction l as [|a l IH]; intros [|b l'] xs ys r s Hl Hl' Hlen Hx Hy E; try done.
  - injection Hx as <-. injection Hy as <-. done.
  - apply Forall_cons in Hl as [Ha Hl]. apply Forall_cons in Hl' as [Hb Hl'].
    apply bind_ret in Hx as (x & Hx & Hxs). apply bind_ret in Hxs as (xs' & Hxs & [= <-]).
    apply bind_ret in Hy as (y & Hy & Hys). apply bind_ret in Hys as (ys' & Hys & [= <-]).
    cbn [concat] in E. rewrite <- !app_assoc in E. destruct (Hw _ _ _ _ _ _ Ha Hb Hx Hy E) as [Hk E'].
    injection Hlen as Hlen. destruct (IH _ _ _ _ _ Hl Hl' Hlen Hxs Hys E') as [Hm ->]. cbn. by rewrite Hk, Hm.
Qed.

(** ** Which configurations have the same GUID *)

Context `{!SortSliceLaws} `{!GuidHostLaws}.
#[local] Set Default Proof Using "All".

Lemma peer_compare_laws : comparison_laws peer_compare.
Proof. apply (bytes_compare_laws PublicKey). Qed.

Lemma cidr_compare_laws : comparison_laws cidr_compare.
Proof.
  apply lex_compare_laws. constructor; [apply (Z_compare_laws Bits)|]. constructor; [apply (Z_compare_laws Cidr)|].
  constructor; [apply (bytes_compare_laws IPof)|constructor].
Qed.

Lemma cidr_compare_eq a b : cidr_compare a b = Eq → a = b.
Proof.
  unfold cidr_compare. rewrite lex_compare_eq. rewrite !Forall_cons. intros (_ & Hc & Hi & _).
  apply Z.compare_eq_iff in Hc. apply str_compare_eq in Hi. destruct a, b. cbn in *. by subst.
Qed.

Lemma sorted_cidrs_perm l l' : l ≡ₚ l' → sorted_cidrs l = sorted_cidrs l'.
Proof. intros Hp. apply sort_Slice_unique; [apply cidr_compare_laws| |done]. intros a b _ _. apply cidr_compare_eq. Qed.

Lemma sorted_cidrs_inv l l' : sorted_cidrs l = sorted_cidrs l' ↔ l ≡ₚ l'.
Proof.
  split; [|apply sorted_cidrs_perm]. intros E. unfold sorted_cidrs in E.
  by rewrite <- (sort_Slice_perm (less_of cidr_compare) l), E, sort_Slice_perm.
Qed.

(** What the reader leaves: keys of 32 bytes and networks of one of the two
    families.  Nothing keeps two peers from having the same public key. *)
Record wf_tunnel (c : Config) : Prop := {
  wt_key : length (PrivateKey (Iface c)) = KeyLength;
  wt_peers : Forall (λ p, length (PublicKey p) = KeyLength ∧ Forall wf_cidr (AllowedIPs p)) (Peers c) }.

Definition distinct_peers (c : Config) : Prop := NoDup (map PublicKey (Peers c)).

Lemma cidr_string_ascii a : wf_cidr a → norm_NFC (IPCidr_String a) = IPCidr_String a.
Proof.
  intros Ha. apply norm_NFC_ascii. assert (forallb token_char (IPCidr_String a) = true) as Ht.
  { apply IPCidr_String_token. destruct Ha as [[_ ?]|(_ & _ & ?)]; lia. }
  rewrite forallb_forall in *. intros b Hb. apply Ht in Hb. destruct b; try done; vm_compute in Hb; discriminate Hb.
Qed.

Lemma cidr_strings_inj l : ∀ l', Forall wf_cidr l → Forall wf_cidr l' →
  map (λ a, norm_NFC (IPCidr_String a)) l = map (λ a, norm_NFC (IPCidr_String a)) l' → l = l'.
Proof.
  induction l as [|a l IH]; intros [|b l'] Hl Hl' E; try done. injection E as E1 E2.
  apply Forall_cons in Hl as [Ha Hl]. apply Forall_cons in Hl' as [Hb Hl']. rewrite !cidr_string_ascii in E1 by done.
  assert (Ret a = Ret b) as [= ->] by (rewrite <- (parseIPCidr_String a), <- (parseIPCidr_String b), E1 by done; done).
  f_equal. by apply IH.
Qed.

Definition peer_key (p : Peer) : Key * list IPCidr := (PublicKey p, sorted_cidrs (AllowedIPs p)).

Lemma b2Peer_delimits : self_delimiting peer_key b2Peer (λ p, length (PublicKey p) = KeyLength ∧ Forall wf_cidr (AllowedIPs p)).
Proof.
  intros p q x y r s [Hp Hpa] [Hq Hqa] Hx Hy E. unfold b2Peer in *.
  apply bind_ret in Hx as (n & Hn & Hx). apply bind_ret in Hx as (ips & Hips & [= <-]).
  apply bind_ret in Hy as (m & Hm & Hy). apply bind_ret in Hy as (jps & Hjps & [= <-]).
  rewrite <- !app_assoc in E. apply app_inj_1 in E as [Ek E]; [|by rewrite Hp, Hq].
  destruct (b2Number_delimits _ _ _ _ _ _ (Zle_0_nat _) (Zle_0_nat _) Hn Hm E) as [El E']. unfold id in El. apply Nat2Z.inj in El.
  assert (length (sorted_cidrs (AllowedIPs p)) = length (sorted_cidrs (AllowedIPs q))) as Hlen.
  { unfold sorted_cidrs. by rewrite !(Permutation_length (sort_Slice_perm _ _)). }
  assert (∀ l, Forall wf_cidr l → Forall wf_cidr (sorted_cidrs l)) as Hs.
  { intros l Hl. unfold sorted_cidrs. by rewrite sort_Slice_perm. }
  destruct (mapM_delimits (λ a, norm_NFC (IPCidr_String a)) (λ a, b2String (IPCidr_String a)) (λ _, True)
    ltac:(intros a b x y r' s' _ _; exact (b2String_delimits _ _ _ _ _ _ I I)) _ _ _ _ _ _ (Forall_true _ _ (λ _, I)) (Forall_true _ _ (λ _, I)) Hlen Hips Hjps E') as [Em ->].
  split; [|done]. unfold peer_key. f_equal; [done|]. apply cidr_strings_inj; auto.
Qed.

(** The peers are the same but for their order and that of their networks. *)
Definition same_peers (ps qs : list Peer) : Prop :=
  ∃ qs', qs ≡ₚ qs' ∧ Forall2 (λ p q, PublicKey p = PublicKey q ∧ AllowedIPs p ≡ₚ AllowedIPs q) ps qs'.

Lemma same_peers_keys ps qs : same_peers ps qs ↔ map peer_key ps ≡ₚ map peer_key qs.
Proof.
  split.
  - intros (qs' & Hp & Hf). rewrite Hp. assert (map peer_key ps = map peer_key qs') as ->; [|done]. clear Hp.
    induction Hf as [|p q ps qs' [Ek Ea] _ IH]; [done|]. cbn. unfold peer_key at 1 3. by rewrite Ek, (sorted_cidrs_perm _ _ Ea), IH.
  - intros (qs' & E & Hp)%Permutation_map_inv. exists qs'. split; [done|]. clear Hp. revert qs' E.
    induction ps as [|p ps IH]; intros [|q qs'] E; try done. injection E as E1 E2 E3. constructor; [|by apply IH].
    split; [done|]. by apply sorted_cidrs_inv.
Qed.

Lemma sorted_peer_keys ps :
  StronglySorted (λ a b : Key * list IPCidr, str_compare (fst b) (fst a) ≠ Lt) (map peer_key (sort_Slice (less_of peer_compare) ps)).
Proof.
  pose proof (sort_Slice_sorted peer_compare ps peer_compare_laws) as Hs.
  induction Hs as [|p l Hs IH Hp]; cbn; constructor; [done|]. apply Forall_map. eapply Forall_impl; [exact Hp|].
  intros q. unfold in_order, less_of, peer_compare, peer_key. cbn. by destruct (str_compare _ _).
Qed.

Lemma same_peers_sorted ps qs : NoDup (map PublicKey ps) → same_peers ps qs →
  map peer_key (sort_Slice (less_of peer_compare) ps) = map peer_key (sort_Slice (less_of peer_compare) qs).
Proof.
  intros Hn Hsame%same_peers_keys.
  assert (map peer_key (sort_Slice (less_of peer_compare) ps) ≡ₚ map peer_key (sort_Slice (less_of peer_compare) qs)) as Hp by by rewrite !sort_Slice_perm.
  assert (NoDup (map fst (map peer_key (sort_Slice (less_of peer_compare) ps)))) as Hnd by (rewrite sort_Slice_perm, map_map; exact Hn).
  eapply StronglySorted_unique_strong; [|by apply sorted_peer_keys|by apply sorted_peer_keys|done].
  intros a b Ha Hb Hab Hba. rewrite <- Hp in Hb. cbn beta in Hab, Hba.
  assert (fst a = fst b) as Ef.
  { rewrite (str_compare_antisym (fst a) (fst b)) in Hab. destruct (str_compare (fst a) (fst b)) eqn:Ec; cbn in *; [by apply str_compare_eq|done|done]. }
  apply list_elem_of_lookup in Ha as [i Hi], Hb as [j Hj].
  assert (i = j) as ->; [|congruence]. eapply NoDup_lookup; [exact Hnd| |]; rewrite list_lookup_fmap; [by rewrite Hi|]. by rewrite Hj, Ef.
Qed.

(** The hash reads a peer through its key and its networks. *)
Lemma b2Peers_by_key l : ∀ l', map peer_key l = map peer_key l' → mapM_outcome b2Peer l = mapM_outcome b2Peer l'.
Proof.
  induction l as [|p l IH]; intros [|q l'] E; try done. injection E as E1 E2 E3. cbn. rewrite (IH _ E3). unfold b2Peer. rewrite E1, E2.
  assert (length (AllowedIPs p) = length (AllowedIPs q)) as -> by by apply Permutation_length, sorted_cidrs_inv. done.
Qed.
End Injective.

Lemma Ret_inj {A} (a b : A) : Ret a = Ret b → a = b.
Proof. congruence. Qed.

Section Identity.
Context `{SortSlice} `{GuidHost} `{!SortSliceLaws} `{!GuidHostLaws}.
#[local] Set Default Proof Using "All".

(** C31: Two tunnels as the reader leaves them give the hash the same input only when
    they have the same name (up to normal form), the same public key and the same
    peers with the same allowed networks; and they do give the same input then,
    in whatever order the peers and networks are written, on the condition that no
    two peers of the tunnel share a public key (which the reader does not check:
    the order of two such peers shows in the input). *)
Theorem guid_identifies c c' x y : wf_tunnel c → wf_tunnel c' →
  guid_input false c = Ret x → guid_input false c' = Ret y →
  let same := norm_NFC (Name c) = norm_NFC (Name c') ∧ Public (PrivateKey (Iface c)) = Public (PrivateKey (Iface c')) ∧
    same_peers (Peers c) (Peers c') in
  (x = y → same) ∧ (distinct_peers c → same → x = y).
Proof.
  intros [Hk Hp] [Hk' Hp'] Hx Hy same. unfold same, distinct_peers. clear same. unfold guid_input in *.
  apply bind_ret in Hx as (nm & Hnm & Hx). apply bind_ret in Hx as (n & Hn & Hx). apply bind_ret in Hx as (ps & Hps & Hx). apply Ret_inj in Hx as <-.
  apply bind_ret in Hy as (nm' & Hnm' & Hy). apply bind_ret in Hy as (n' & Hn' & Hy). apply bind_ret in Hy as (ps' & Hps' & Hy). apply Ret_inj in Hy as <-.
  assert (Forall (λ p, length (PublicKey p) = KeyLength ∧ Forall wf_cidr (AllowedIPs p)) (sort_Slice (less_of peer_compare) (Peers c))) as Hs by by rewrite sort_Slice_perm.
  assert (Forall (λ p, length (PublicKey p) = KeyLength ∧ Forall wf_cidr (AllowedIPs p)) (sort_Slice (less_of peer_compare) (Peers c'))) as Hs' by by rewrite sort_Slice_perm.
  split.
  - intros E. apply app_inv_head in E. destruct (b2String_delimits _ _ _ _ _ _ I I Hnm Hnm' E) as [En E1]. split; [done|].
    apply app_inj_1 in E1 as [Ek E2]; [|by rewrite !Public_length]. split; [done|].
    destruct (b2Number_delimits _ _ _ _ _ _ (Zle_0_nat _) (Zle_0_nat _) Hn Hn' E2) as [El E3]. unfold id in El. apply Nat2Z.inj in El.
    apply same_peers_keys. rewrite <- (sort_Slice_perm (less_of peer_compare) (Peers c)), <- (sort_Slice_perm (less_of peer_compare) (Peers c')).
    rewrite <- (app_nil_r (concat ps)), <- (app_nil_r (concat ps')) in E3.
    assert (length (sort_Slice (less_of peer_compare) (Peers c)) = length (sort_Slice (less_of peer_compare) (Peers c'))) as Hl
      by by rewrite !(Permutation_length (sort_Slice_perm _ _)).
    destruct (mapM_delimits peer_key b2Peer _ b2Peer_delimits _ _ _ _ _ _ Hs Hs' Hl Hps Hps' E3) as [-> _]. done.
  - intros Hd (En & Ek & Hsame). pose proof (same_peers_sorted _ _ Hd Hsame) as Eq. apply b2Peers_by_key in Eq. rewrite Hps, Hps' in Eq. injection Eq as ->.
    assert (length (Peers c) = length (Peers c')) as El.
    { apply same_peers_keys in Hsame. apply Permutation_length in Hsame. by rewrite !length_map in Hsame. }
    unfold b2String in Hnm, Hnm'. rewrite En in Hnm. rewrite Hnm in Hnm'. injection Hnm' as <-. rewrite El, Hn' in Hn. injection Hn as <-. by rewrite Ek.
Qed.

(** Hashing a configuration twice, as the retries of the adapter's creation do,
    gives the same GUID. *)
Lemma sort_config_same c : distinct_peers c → guid_input false (sort_config c) = guid_input false c.
Proof.
  intros Hd. unfold guid_input, sort_config. cbn.
  assert (same_peers (Peers c) (map (λ p, p <| AllowedIPs := sorted_cidrs (AllowedIPs p) |>) (sort_Slice (less_of peer_compare) (Peers c)))) as Hsame.
  { apply same_peers_keys. rewrite map_map. rewrite <- (sort_Slice_perm (less_of peer_compare) (Peers c)) at 1.
    assert (∀ l, map (λ p, peer_key (p <| AllowedIPs := sorted_cidrs (AllowedIPs p) |>)) l = map peer_key l) as ->; [|done].
    intros l. apply map_ext. intros p. unfold peer_key. cbn. f_equal. apply sorted_cidrs_perm. apply sort_Slice_perm. }
  rewrite <- (b2Peers_by_key _ _ (same_peers_sorted _ _ Hd Hsame)). rewrite length_map, (Permutation_length (sort_Slice_perm _ _)). done.
Qed.
End Identity.

(** ** On concrete tunnels *)

#[local] Instance plain_guid : GuidHost := {| blake2s_Sum x := x; norm_NFC s := s; Public k := k |}.
#[local] Instance plain_guid_laws : GuidHostLaws.
Proof. by split. Qed.

Definition guid_peer (key : byte) (ips : list IPCidr) : Peer := zeroPeer <| PublicKey := replicate 32 key |> <| AllowedIPs := ips |>.
Definition guid_conf (peers : list Peer) : Config := mkConfig "office" zeroInterface peers.
Definition lan : IPCidr := mkIPCidr [xc0; xa8; x00; x00] 16.
Definition host : IPCidr := mkIPCidr [x0a; x00; x00; x05] 32.

#[local] Existing Instances insertion_sort insertion_sort_laws.

Lemma guid_identifies_witness :
  let c := guid_conf [guid_peer x02 [host; lan]; guid_peer x01 []] in
  let c' := guid_conf [guid_peer x01 []; guid_peer x02 [lan; host]] in
  ∃ x y, guid_input false c = Ret x ∧ guid_input false c' = Ret y ∧ same_peers (Peers c) (Peers c') ∧ x = y.
Proof.
  intros c c'. eexists _, _. split; [vm_compute; reflexivity|]. split; [vm_compute; reflexivity|].
  assert (∀ l, l = [lan; host] ∨ l = [host; lan] ∨ l = [] → Forall wf_cidr l) as Hl.
  { assert (wf_cidr lan ∧ wf_cidr host) as [Ha Hb] by (split; left; split; [reflexivity|cbn; lia|reflexivity|cbn; lia]).
    intros l [-> | [-> | ->]]; rewrite ?Forall_cons, Forall_nil; tauto. }
  assert (wf_tunnel c ∧ wf_tunnel c') as [Hc Hc'].
  { split; (split; [reflexivity|cbn; rewrite !Forall_cons, Forall_nil; split_and!; try reflexivity; try exact I; apply Hl; cbn; tauto]). }
  assert (distinct_peers c) as Hd.
  { unfold distinct_peers. cbn. rewrite !NoDup_cons, !elem_of_cons, !elem_of_nil. split_and!; [intros [Hx|[]]; discriminate Hx|tauto|constructor]. }
  assert (same_peers (Peers c) (Peers c')) as Hs.
  { refine (proj2 (proj2 (proj1 (guid_identifies c c' _ _ Hc Hc' _ _) _))); [vm_compute; reflexivity|vm_compute; reflexivity|exact eq_refl]. }
  split; [exact Hs|]. refine (proj2 (guid_identifies c c' _ _ Hc Hc' _ _) Hd (conj eq_refl (conj eq_refl Hs))); vm_compute; reflexivity.
Defined.

(** Two peers with one key are hashed in the order in which they are written. *)
Example same_key_order_shows :
  guid_input false (guid_conf [guid_peer x01 [host]; guid_peer x01 [lan]]) ≠ guid_input false (guid_conf [guid_peer x01 [lan]; guid_peer x01 [host]]).
Proof. vm_compute. discriminate. Qed.
