(* ===== verification/Resolver.v ===== *)
(** * Host name resolution ([core/conf/dnsresolver_windows.go])

    A name is looked up again every four seconds while the failure looks
    temporary.  The system's answers to the successive lookups are those of
    [Class Resolver]. *)
From S2P Require Import Prelude GoStrings GoStrconv AwgValidation GoEncoding GoNet GoOs WinIp.

Local Open Scope Z_scope.

Record AddrinfoW := mkAddrinfo { ai_Family : Z; ai_Addr : list byte; ai_Scope_id : Z }.

(** The arguments of type [nat] number the lookups of a name. *)
Class Resolver := {
  rs_since_boot : Z;
  rs_utf16 : gostring → option goerror;
  GetAddrInfoW : nat → gostring → outcome (list AddrinfoW);
  internetGetConnectedState : nat → bool;
}.

Definition WSAHOST_NOT_FOUND : goerror := ErrorString "WSAHOST_NOT_FOUND".
Definition WSATRY_AGAIN : goerror := ErrorString "WSATRY_AGAIN".

(** The loop over the addresses found, with the IPv6 address seen before. *)
Fixpoint pick_address (result : list AddrinfoW) (ipv6 : gostring) : outcome gostring :=
  match result with
  | [] => if negb (length ipv6 =? 0)%nat then Ret ipv6 else Fail WSAHOST_NOT_FOUND
  | a :: result =>
      if ai_Family a =? AF_INET then Ret (IP_String (ai_Addr a))
      else if ai_Family a =? AF_INET6 then
        if negb (length ipv6 =? 0)%nat then pick_address result ipv6
        else pick_address result
               (IP_String (ai_Addr a) ++ (if negb (ai_Scope_id a =? 0) then "%" ++ Itoa (ai_Scope_id a) else []))
      else pick_address result ipv6
  end.

Section Resolve.
Context `{Resolver}.

Definition resolveHostnameOnce (attempt : nat) (name : gostring) : outcome gostring :=
  match rs_utf16 name with
  | Some e => Fail e
  | None =>
      result ← GetAddrInfoW attempt name;
      match result with [] => Fail WSAHOST_NOT_FOUND | _ => pick_address result [] end
  end.

Definition systemJustBooted : bool := rs_since_boot <=? 4 * (60 * 10 ^ 9).
Definition maxTries : nat := if systemJustBooted then 40 else 10.

(** The failure of this attempt is worth another one. *)
Definition temporary (attempt : nat) (e : goerror) : bool :=
  is_sys "WSATRY_AGAIN" e || (is_sys "WSAHOST_NOT_FOUND" e && systemJustBooted && negb (internetGetConnectedState attempt)).

(** Attempts [i], [i]+1, ..., [tries] of them: how many were made, and the result. *)
Fixpoint resolve_from (tries i : nat) (name : gostring) (last : outcome gostring) : nat * outcome gostring :=
  match tries with
  | O => (i, last)
  | S tries =>
      match resolveHostnameOnce i name with
      | Fail e => if temporary i e then resolve_from tries (S i) name (Fail e) else (S i, Fail e)
      | r => (S i, r)
      end
  end.

Definition resolveHostname (name : gostring) : nat * outcome gostring := resolve_from maxTries 0 name (Ret []).

(** ** The address chosen *)

Definition family_of (f : Z) (a : AddrinfoW) : Prop := ai_Family a = f.
#[local] Instance family_of_dec f a : Decision (family_of f a).
Proof. unfold family_of. apply _. Defined.

Definition text_of (a : AddrinfoW) : gostring :=
  IP_String (ai_Addr a)
  ++ (if (ai_Family a =? AF_INET6) && negb (ai_Scope_id a =? 0) then "%" ++ Itoa (ai_Scope_id a) else []).

(** Of the addresses found, the first IPv4 one, or else the first IPv6 one. *)
Definition chosen (result : list AddrinfoW) : option AddrinfoW :=
  match filter (family_of AF_INET) result, filter (family_of AF_INET6) result with
  | a :: _, _ => Some a
  | [], a :: _ => Some a
  | [], [] => None
  end.

Lemma pick_address_seen result ipv6 : ipv6 ≠ [] →
  pick_address result ipv6 = Ret (match filter (family_of AF_INET) result with a :: _ => IP_String (ai_Addr a) | [] => ipv6 end).
Proof.
  intros Hne. assert ((length ipv6 =? 0)%nat = false) as Hl by by destruct ipv6.
  induction result as [|a result IH]; cbn [pick_address]; [by rewrite Hl|]. rewrite filter_cons. unfold family_of at 1.
  destruct (Z.eqb_spec (ai_Family a) AF_INET) as [E|E]; [by rewrite decide_True|]. rewrite decide_False by done.
  rewrite Hl. cbn. by destruct (ai_Family a =? AF_INET6).
Qed.

Lemma pick_address_chosen result : Forall (λ a, IP_String (ai_Addr a) ≠ []) result →
  pick_address result [] = match chosen result with Some a => Ret (text_of a) | None => Fail WSAHOST_NOT_FOUND end.
Proof.
  unfold chosen. induction 1 as [|a result Ha _ IH]; [done|]. cbn [pick_address]. rewrite !filter_cons. unfold family_of at 1 3. unfold text_of in *.
  destruct (Z.eqb_spec (ai_Family a) AF_INET) as [E|E].
  - rewrite decide_True by done. rewrite E. cbn. by rewrite app_nil_r.
  - rewrite (decide_False (P := ai_Family a = AF_INET)) by done. cbn [length Nat.eqb negb].
    destruct (Z.eqb_spec (ai_Family a) AF_INET6) as [E6|E6].
    + rewrite decide_True by done. rewrite pick_address_seen by (destruct (IP_String (ai_Addr a)); done).
      destruct (filter (family_of AF_INET) result) as [|b l] eqn:Ef; [by rewrite E6|].
      assert (b ∈ filter (family_of AF_INET) result) as Hb by (rewrite Ef; left). apply list_elem_of_filter in Hb as [Hb _].
      unfold family_of in Hb. rewrite Hb. cbn. by rewrite app_nil_r.
    + rewrite decide_False by done. exact IH.
Qed.

(** ** The attempts *)

(** [n] is the first attempt that settles the name, or the last allowed. *)
Theorem resolveHostname_settles name n r : resolveHostname name = (n, r) →
  (0 < n <= maxTries)%nat ∧ r = resolveHostnameOnce (n - 1) name ∧
  (∀ i, (i < n - 1)%nat → ∃ e, resolveHostnameOnce i name = Fail e ∧ temporary i e = true) ∧
  ((n < maxTries)%nat → ∀ e, r = Fail e → temporary (n - 1) e = false).
Proof.
  unfold resolveHostname.
  assert (∀ tries i last, (0 < tries)%nat → resolve_from tries i name last = (n, r) →
    (i < n <= i + tries)%nat ∧ r = resolveHostnameOnce (n - 1) name ∧
    (∀ j, (i <= j < n - 1)%nat → ∃ e, resolveHostnameOnce j name = Fail e ∧ temporary j e = true) ∧
    ((n < i + tries)%nat → ∀ e, r = Fail e → temporary (n - 1) e = false)) as Hgen.
  { induction tries as [|tries IH]; intros i last Hl; [lia|]. cbn [resolve_from].
    assert (∀ r', resolveHostnameOnce i name = r' → (∀ e, r' = Fail e → temporary i e = false) → (S i, r') = (n, r) →
      (i < n <= i + S tries)%nat ∧ r = resolveHostnameOnce (n - 1) name ∧
      (∀ j, (i <= j < n - 1)%nat → ∃ e, resolveHostnameOnce j name = Fail e ∧ temporary j e = true) ∧
      ((n < i + S tries)%nat → ∀ e, r = Fail e → temporary (n - 1) e = false)) as Hend.
    { intros r' Hr Ht [= <- <-]. rewrite Nat.sub_succ, Nat.sub_0_r. split_and!; [lia|lia|done|intros; lia|intros _; exact Ht]. }
    destruct (resolveHostnameOnce i name) as [s|e|] eqn:Er; [by apply Hend| |by apply Hend].
    destruct (temporary i e) eqn:Et; [|apply Hend; [done|by intros ? [= <-]]].
    destruct tries as [|tries].
    - cbn. intros [= <- <-]. rewrite Nat.sub_succ, Nat.sub_0_r. split_and!; [lia|lia|done|intros; lia|lia].
    - intros Hr. apply IH in Hr as (Hn & Hr & Hj & Ht); [|lia]. split_and!; [lia|lia|done| |].
      + intros j Hjn. destruct (decide (j = i)) as [->|]; [eauto|]. apply Hj. lia.
      + intros Hlt. apply Ht. lia. }
  intros Hr. apply Hgen in Hr as (Hn & Hr & Hj & Ht); [|unfold maxTries; destruct systemJustBooted; lia].
  split_and!; [lia|lia|done| |].
  - intros i Hi. apply Hj. lia.
  - intros Hlt. apply Ht. lia.
Qed.
End Resolve.
