(* ===== verification/TunnelService.v ===== *)
(** * The tunnel service ([core/tunnel/service.go], [scriptrunner.go],
    [ipcpermissions.go])

    [Execute] brings a tunnel up step by step, runs until it is told to stop and
    takes everything down again.  What it does to the outside is recorded in a
    trace; the answers it gets are those of [Class TunnelHost], which may depend
    on everything done so far.  The steps themselves are the other components:
    the reader, the firewall, the watcher, the engine. *)
From S2P Require Import Prelude GoStrings GoStrconv AwgValidation GoEncoding GoNet GoPath GoSort TunnelName Conf Writer Services DeterministicGuid.

Local Open Scope Z_scope.

(** ** What the service does *)

Inductive hook := PreUp_hook | PostUp_hook | PreDown_hook | PostDown_hook.

Inductive action :=
| SendStatus (state accepts : Z)
| InitGlobalLogger
| LoadFromPath (path : gostring)
| CopyConfigOwner (path : gostring)
| WatchInterface
| ResolveNames (config : Config)
| Sleep (ns : Z)
| CreateTUN (name : gostring) (guid : outcome (list byte))
| StartProcess (h : hook) (comspec cmdline : gostring) (env : gostring)
| EnableFirewall (config : Config)
| DropAllPrivileges
| NewDevice
| Listen (pipe : gostring)
| IpcSet (uapi : gostring)
| DeviceUp
| ConfigureWatcher (config : Config)
| AcceptUAPI
| DestroyWatcher
| CloseListener
| CloseDevice.

(** An action and whether it succeeded. *)
Definition trace : Type := list (action * bool).

Class TunnelHost := {
  h_logger : trace → option svc_err;
  h_load : trace → svc_err + Config;
  h_owner : trace → option svc_err;
  h_scm_locked : trace → bool;
  h_watch : trace → option svc_err;
  h_resolveHostname : trace → gostring → outcome gostring;
  h_errno : goerror → option Z;  (* the type switch on syscall.Errno *)
  h_create : trace → option svc_err;
  h_since_boot : trace → Z;
  h_firewall : trace → option svc_err;
  h_privileges : trace → option svc_err;
  h_listen : trace → option svc_err;
  h_ipcset : trace → option svc_err;
  (* scripts *)
  h_AdminBool : trace → gostring → bool;
  h_comspec : trace → gostring;
  h_system_directory : trace → svc_err + gostring;
  h_devnull : trace → option svc_err;
  h_pipe : trace → option svc_err;
  h_start : trace → option svc_err;
  h_wait : trace → svc_err + Z;
}.

(** Computations that extend the trace. *)
Definition run (A : Type) : Type := trace → trace * A.
Definition run_ret {A} (a : A) : run A := λ t, (t, a).
Definition run_bind {A B} (m : run A) (k : A → run B) : run B := λ t, let '(t, a) := m t in k a t.
Declare Scope run_scope.
Delimit Scope run_scope with run.
Notation "'let*' x := m 'in' k" := (run_bind m (λ x, k)) (at level 10, x binder, m at level 100, k at level 200) : run_scope.
Notation "m ;;; k" := (run_bind m (λ _, k)) (at level 100, right associativity) : run_scope.
Local Open Scope run_scope.

Definition do_ (a : action) : run unit := λ t, (t ++ [(a, true)], tt).
Definition look {A} (f : trace → A) : run A := λ t, (t, f t).
Definition try_ (a : action) (f : trace → option svc_err) : run (option svc_err) := λ t,
  let r := f t in (t ++ [(a, match r with None => true | Some _ => false end)], r).
Definition try_get {A} (a : action) (f : trace → svc_err + A) : run (svc_err + A) := λ t,
  let r := f t in (t ++ [(a, match r with inr _ => true | inl _ => false end)], r).

Section Service.
Context `{GoRuntime} `{SortSlice} `{GuidHost} `{TunnelHost}.
Context (UseFixedGUIDInsteadOfDeterministic : bool).

(** ** Scripts *)

Definition ERROR_GENERIC_COMMAND_FAILED : Z := 14109.

(** The output of the command is logged as it comes; the handles are closed on
    every path. *)
Definition runScriptCommand (h : hook) (command interfaceName : gostring) : run (option svc_err) :=
  if (length command =? 0)%nat then run_ret None
  else
    let* allowed := look (λ t, h_AdminBool t "DangerousScriptExecution") in
    if negb allowed then run_ret None
    else
      let* env := look h_comspec in
      let* comspec := (if (length env =? 0)%nat then look h_system_directory else run_ret (inr env)) in
      match comspec with
      | inl e => run_ret (Some e)
      | inr dir =>
          let comspec := if (length env =? 0)%nat then filepath_Join [dir; "cmd.exe"] else dir in
          let* devNull := look h_devnull in
          match devNull with
          | Some e => run_ret (Some e)
          | None =>
              let* pipe := look h_pipe in
              match pipe with
              | Some e => run_ret (Some e)
              | None =>
                  let* started := try_ (StartProcess h comspec ("cmd /c " ++ command) ("AMNEZIAWG_TUNNEL_NAME=" ++ interfaceName)) h_start in
                  match started with
                  | Some e => run_ret (Some e)
                  | None =>
                      let* state := look h_wait in
                      match state with
                      | inl e => run_ret (Some e)
                      | inr code => run_ret (if code =? 0 then None else Some (Sys ERROR_GENERIC_COMMAND_FAILED))
                      end
                  end
              end
          end
      end.

(** ** Starting *)

(** The variables the deferred function sees. *)
Record locals := mkLocals {
  l_config : option Config;
  l_watcher : bool;
  l_uapi : bool;
  l_dev : bool;
  l_err : option svc_err;
  l_serviceError : Z }.

Definition failed (l : locals) (serviceError : Z) (e : svc_err) : locals :=
  mkLocals (l_config l) (l_watcher l) (l_uapi l) (l_dev l) (Some e) serviceError.

(** [if err != nil { serviceError = se; return }]. *)
Definition or_return {A} (m : run (svc_err + A)) (l : locals) (se : Z) (k : A → run (option locals)) : run (option locals) :=
  let* r := m in match r with inl e => run_ret (Some (failed l se e)) | inr a => k a end.
Definition or_return_ (m : run (option svc_err)) (l : locals) (se : Z) (k : run (option locals)) : run (option locals) :=
  let* r := m in match r with Some e => run_ret (Some (failed l se e)) | None => k end.

Definition SERVICE_STOPPED : Z := 1.
Definition StartPending : Z := 2.
Definition StopPending : Z := 3.
Definition Running : Z := 4.
Definition AcceptStop : Z := 1.
Definition AcceptShutdown : Z := 4.

Definition minute : Z := 60 * 10 ^ 9.

(** The tries to create the adapter: [more] are left after this one. *)
Fixpoint create_tun (more : nat) (retry : bool) (config : Config) : run (Config * option svc_err) :=
  (if retry then do_ (Sleep (10 ^ 9)) else run_ret tt) ;;;
  let '(config, guid) := deterministicGUID UseFixedGUIDInsteadOfDeterministic config in
  let* err := try_ (CreateTUN (Name config) guid) h_create in
  match err with
  | None => run_ret (config, None)
  | Some _ =>
      let* since := look h_since_boot in
      if since >? 4 * minute then run_ret (config, err)
      else match more with O => run_ret (config, err) | S more => create_tun more true config end
  end.

(** What the main loop waits for. *)
Inductive select_event := Control (cmd : Z) (status : Z) | DeviceClosed | WatcherError (se : Z) (e : svc_err).

Definition cmd_Stop : Z := 1.
Definition cmd_Interrogate : Z := 4.
Definition cmd_Shutdown : Z := 5.

(** [None]: still running when the events end. *)
Fixpoint main_loop (l : locals) (events : list select_event) : run (option locals) :=
  match events with
  | [] => run_ret None
  | Control cmd status :: events =>
      if (cmd =? cmd_Stop) || (cmd =? cmd_Shutdown) then run_ret (Some l)
      else if cmd =? cmd_Interrogate then do_ (SendStatus status 0) ;;; main_loop l events
      else main_loop l events
  | DeviceClosed :: _ => run_ret (Some l)
  | WatcherError se e :: _ => run_ret (Some (failed l se e))
  end.

Definition svc_err_of (e : goerror) : svc_err := match h_errno e with Some n => Sys n | None => OtherErr e end.

(** [config.ToUAPI()], which resolves the names of the endpoints; it does not panic. *)
Definition to_uapi (config : Config) (t : trace) : svc_err + gostring :=
  match ToUAPI (h_resolveHostname t) config with
  | Ret uapi => inr uapi
  | Fail e => inl (svc_err_of e)
  | Panic => inl (OtherErr (ErrorString "panic"))
  end.

Definition no_locals : locals := mkLocals None false false false None ErrorSuccess.

(** From the adapter on. *)
Definition bring_up (config : Config) (uapiConf : gostring) (events : list select_event) : run (option locals) :=
  let l := mkLocals (Some config) true false false None ErrorSuccess in
  or_return_ (runScriptCommand PreUp_hook (PreUp (Iface config)) (Name config)) l ErrorRunScript (
  or_return_ (try_ (EnableFirewall config) h_firewall) l ErrorFirewall (
  or_return_ (try_ DropAllPrivileges h_privileges) l ErrorDropPrivileges (
  do_ NewDevice ;;;
  let l := mkLocals (Some config) true false true None ErrorSuccess in
  match PipePathOfTunnel (Name config) with
  | Fail e => run_ret (Some (failed l ErrorUAPIListen (OtherErr e)))
  | Panic => run_ret None
  | Ret pipeName =>
      or_return_ (try_ (Listen pipeName) h_listen) l ErrorUAPIListen (
      let l := mkLocals (Some config) true true true None ErrorSuccess in
      or_return_ (try_ (IpcSet uapiConf) h_ipcset) l ErrorDeviceSetConfig (
      do_ DeviceUp ;;;
      do_ (ConfigureWatcher config) ;;;
      do_ AcceptUAPI ;;;
      or_return_ (runScriptCommand PostUp_hook (PostUp (Iface config)) (Name config)) l ErrorRunScript (
      do_ (SendStatus Running (Z.lor AcceptStop AcceptShutdown)) ;;;
      main_loop l events)))
  end))).

Definition body (path : gostring) (events : list select_event) : run (option locals) :=
  do_ (SendStatus StartPending 0) ;;;
  or_return_ (try_ InitGlobalLogger h_logger) no_locals ErrorRingloggerOpen (
  or_return (try_get (LoadFromPath path) h_load) no_locals ErrorLoadConfiguration (λ config,
  let config := DeduplicateNetworkEntries config in
  let l := mkLocals (Some config) false false false None ErrorSuccess in
  or_return_ (try_ (CopyConfigOwner path) h_owner) l ErrorLoadConfiguration (
  let* locked := look h_scm_locked in
  (if locked then do_ (SendStatus Running 0) else run_ret tt) ;;;
  or_return_ (try_ WatchInterface h_watch) l ErrorSetNetConfig (
  let l := mkLocals (Some config) true false false None ErrorSuccess in
  or_return (try_get (ResolveNames config) (to_uapi config)) l ErrorDNSLookup (λ uapiConf,
  let* created := create_tun 4 false config in
  let '(config, err) := created in
  match err with
  | Some e => run_ret (Some (failed (mkLocals (Some config) true false false None ErrorSuccess) ErrorCreateWintun e))
  | None => bring_up config uapiConf events
  end))))).

(** ** Stopping *)

Definition when (b : bool) (m : run unit) : run unit := if b then m else run_ret tt.

(** A script of the way down, run while nothing has failed. *)
Definition down_script (h : hook) (command : Interface → gostring) (logErr : option svc_err) (l : locals) : run (option svc_err) :=
  match logErr, l_dev l, l_config l with
  | None, true, Some config => runScriptCommand h (command (Iface config)) (Name config)
  | _, _, _ => run_ret logErr
  end.

(** The deferred function; the watchdog that ends a stuck process is left out. *)
Definition cleanup (l : locals) : run (bool * Z) :=
  let code := DetermineErrorCode (l_err l) (l_serviceError l) in
  let logErr := CombineErrors (l_err l) (l_serviceError l) in
  do_ (SendStatus StopPending 0) ;;;
  let* logErr := down_script PreDown_hook PreDown logErr l in
  when (l_watcher l) (do_ DestroyWatcher) ;;;
  when (l_uapi l) (do_ CloseListener) ;;;
  when (l_dev l) (do_ CloseDevice) ;;;
  down_script PostDown_hook PostDown logErr l ;;;
  run_ret code.

Definition Execute (path : gostring) (events : list select_event) : trace * option (bool * Z) :=
  match body path events [] with
  | (t, Some l) => let '(t, code) := cleanup l t in (t, Some code)
  | (t, None) => (t, None)
  end.
End Service.

(** ** The tunnel service: theorems

    The abstract service [res]: what is held, what is in force, and which
    actions are allowed when.  Every run of [Execute] is a run of it that ends
    with everything given back, and the code the service stops with names the
    step that failed. *)

Local Open Scope Z_scope.

(** ** The abstract service *)

Record res := mkRes {
  watching : bool;       (* the interface watcher is registered *)
  adapter : bool;        (* the Wintun adapter exists *)
  firewall_on : bool;    (* the firewall rules are in force *)
  privileged : bool;     (* the process still has its privileges *)
  device : bool;         (* the engine holds the adapter *)
  listening : bool;      (* the UAPI pipe is open *)
  keys_set : bool;       (* the engine has its configuration *)
  up : bool;             (* packets flow *)
  last_failed : option action }.

Definition idle : res := mkRes false false false true false false false false None.

Definition failed_at (a : action) (r : res) : res :=
  mkRes (watching r) (adapter r) (firewall_on r) (privileged r) (device r) (listening r) (keys_set r) (up r) (Some a).
Definition clear_failed (r : res) : res :=
  mkRes (watching r) (adapter r) (firewall_on r) (privileged r) (device r) (listening r) (keys_set r) (up r) None.

(** When an action is allowed: the firewall is set up before the engine exists
    and with privileges, the engine only without them, packets flow only behind
    the firewall and with the tunnel's keys, and nothing is given back twice. *)
Definition allowed_now (a : action) (r : res) : bool :=
  match a with
  | WatchInterface => negb (watching r) && negb (device r)
  | CreateTUN _ _ => watching r && negb (adapter r) && privileged r
  | StartProcess PreUp_hook _ _ _ => adapter r && negb (firewall_on r) && privileged r && negb (device r)
  | StartProcess PostUp_hook _ _ _ => up r && firewall_on r
  | StartProcess PreDown_hook _ _ _ => up r && firewall_on r && watching r
  | StartProcess PostDown_hook _ _ _ => negb (device r) && negb (watching r) && negb (firewall_on r)
  | EnableFirewall _ => adapter r && watching r && privileged r && negb (device r)
  | DropAllPrivileges => firewall_on r && negb (device r)
  | NewDevice => adapter r && firewall_on r && negb (privileged r) && negb (device r)
  | Listen _ => device r && negb (listening r) && negb (privileged r)
  | IpcSet _ => device r && listening r
  | DeviceUp => device r && firewall_on r && negb (privileged r) && keys_set r && negb (up r)
  | ConfigureWatcher _ => up r && watching r
  | AcceptUAPI => up r && listening r
  | DestroyWatcher => watching r
  | CloseListener => listening r && negb (watching r)
  | CloseDevice => device r && negb (watching r) && negb (listening r)
  | _ => true
  end.

(** What a successful action changes. *)
Definition effect (a : action) (r : res) : res :=
  match a with
  | WatchInterface => mkRes true (adapter r) (firewall_on r) (privileged r) (device r) (listening r) (keys_set r) (up r) None
  | CreateTUN _ _ => mkRes (watching r) true (firewall_on r) (privileged r) (device r) (listening r) (keys_set r) (up r) None
  | EnableFirewall _ => mkRes (watching r) (adapter r) true (privileged r) (device r) (listening r) (keys_set r) (up r) None
  | DropAllPrivileges => mkRes (watching r) (adapter r) (firewall_on r) false (device r) (listening r) (keys_set r) (up r) None
  | NewDevice => mkRes (watching r) (adapter r) (firewall_on r) (privileged r) true (listening r) (keys_set r) (up r) None
  | Listen _ => mkRes (watching r) (adapter r) (firewall_on r) (privileged r) (device r) true (keys_set r) (up r) None
  | IpcSet _ => mkRes (watching r) (adapter r) (firewall_on r) (privileged r) (device r) (listening r) true (up r) None
  | DeviceUp => mkRes (watching r) (adapter r) (firewall_on r) (privileged r) (device r) (listening r) (keys_set r) true None
  | DestroyWatcher => mkRes false (adapter r) false (privileged r) (device r) (listening r) (keys_set r) (up r) None
  | CloseListener => mkRes (watching r) (adapter r) (firewall_on r) (privileged r) (device r) false (keys_set r) (up r) None
  | CloseDevice => mkRes (watching r) false (firewall_on r) (privileged r) false (listening r) (keys_set r) false None
  | _ => clear_failed r
  end.

Definition res_step (r : res) (e : action * bool) : option res :=
  if allowed_now (fst e) r then Some (if snd e then effect (fst e) r else failed_at (fst e) r) else None.

Definition accepts_from (r : res) (t : trace) : option res := foldl (λ r e, r ≫= λ r, res_step r e) (Some r) t.

Lemma accepts_app t : ∀ r u, accepts_from r (t ++ u) = accepts_from r t ≫= λ r, accepts_from r u.
Proof.
  intros r u. unfold accepts_from. rewrite foldl_app. destruct (foldl _ (Some r) t) as [r'|]; [done|]. cbn.
  induction u as [|e u IH]; [done|]. exact IH.
Qed.

(** ** Reasoning about runs *)

(** From a state where [P] holds, [m] is accepted and leaves [Q]. *)
Definition triple {A} (P : res → Prop) (m : run A) (Q : A → res → Prop) : Prop :=
  ∀ t r, accepts_from idle t = Some r → P r → let '(t', a) := m t in ∃ r', accepts_from idle t' = Some r' ∧ Q a r'.

Lemma triple_bind {A B} P (m : run A) Q (k : A → run B) R : triple P m Q → (∀ a, triple (Q a) (k a) R) → triple P (run_bind m k) R.
Proof.
  intros Hm Hk t r Ht Hp. unfold run_bind. specialize (Hm t r Ht Hp). destruct (m t) as [t' a]. destruct Hm as (r' & Ht' & Hq).
  exact (Hk a t' r' Ht' Hq).
Qed.

Lemma triple_weaken {A} (P P' : res → Prop) (m : run A) (Q Q' : A → res → Prop) : triple P' m Q' → (∀ r, P r → P' r) → (∀ a r, Q' a r → Q a r) → triple P m Q.
Proof.
  intros Hm Hp Hq t r Ht Hr. specialize (Hm t r Ht (Hp _ Hr)). destruct (m t) as [t' a]. destruct Hm as (r' & Ht' & Ha). eauto.
Qed.

Lemma triple_ret {A} (a : A) (P : A → res → Prop) : triple (P a) (run_ret a) P.
Proof. intros t r Ht Hr. cbn. eauto. Qed.

Lemma triple_look {A} (f : trace → A) P : triple P (look f) (λ _, P).
Proof. intros t r Ht Hr. cbn. eauto. Qed.

Lemma triple_do a (P : res → Prop) (Q : unit → res → Prop) : (∀ r, P r → allowed_now a r = true ∧ Q tt (effect a r)) → triple P (do_ a) Q.
Proof.
  intros Ha t r Ht Hr. destruct (Ha r Hr) as [Hal Hq]. cbn. rewrite accepts_app, Ht. cbn. unfold accepts_from, res_step. cbn. rewrite Hal. eauto.
Qed.

Lemma triple_try a f (P : res → Prop) (Q : option svc_err → res → Prop) :
  (∀ r, P r → allowed_now a r = true ∧ Q None (effect a r) ∧ ∀ e, Q (Some e) (failed_at a r)) → triple P (try_ a f) Q.
Proof.
  intros Ha t r Ht Hr. destruct (Ha r Hr) as (Hal & Hq & Hf). unfold try_. rewrite accepts_app, Ht. cbn. unfold accepts_from, res_step. cbn. rewrite Hal.
  destruct (f t); eauto.
Qed.

Lemma triple_try_get {A} a (f : trace → svc_err + A) (P : res → Prop) (Q : svc_err + A → res → Prop) :
  (∀ r, P r → allowed_now a r = true ∧ (∀ x, Q (inr x) (effect a r)) ∧ ∀ e, Q (inl e) (failed_at a r)) → triple P (try_get a f) Q.
Proof.
  intros Ha t r Ht Hr. destruct (Ha r Hr) as (Hal & Hq & Hf). unfold try_get. rewrite accepts_app, Ht. cbn. unfold accepts_from, res_step. cbn. rewrite Hal.
  destruct (f t); eauto.
Qed.

Lemma triple_or_return_ m l se k (P Mid : res → Prop) (Q : option locals → res → Prop) :
  triple P m (λ o r, match o with None => Mid r | Some e => Q (Some (failed l se e)) r end) → triple Mid k Q → triple P (or_return_ m l se k) Q.
Proof.
  intros Hm Hk. eapply triple_bind; [exact Hm|]. intros [e|]; [apply (triple_ret _ (λ o r, Q o r))|exact Hk].
Qed.

Lemma triple_or_return {A} (m : run (svc_err + A)) l se k (P : res → Prop) (Mid : A → res → Prop) (Q : option locals → res → Prop) :
  triple P m (λ o r, match o with inr a => Mid a r | inl e => Q (Some (failed l se e)) r end) → (∀ a, triple (Mid a) (k a) Q) →
  triple P (or_return m l se k) Q.
Proof.
  intros Hm Hk. eapply triple_bind; [exact Hm|]. intros [e|a]; [apply (triple_ret _ (λ o r, Q o r))|apply Hk].
Qed.

(** At [r0], whatever failed last. *)
Definition at_ (r0 r : res) : Prop := clear_failed r = r0.

Lemma at_allowed a r0 r : at_ r0 r → allowed_now a r = allowed_now a r0.
Proof. intros <-. by destruct a. Qed.

Lemma at_effect a r0 r : at_ r0 r → at_ (clear_failed (effect a r0)) (effect a r).
Proof. intros <-. destruct a; done. Qed.

Lemma at_failed a r0 r : at_ r0 r → at_ r0 (failed_at a r).
Proof. by intros <-. Qed.

Ltac at_inv H :=
  match type of H with at_ _ ?r => destruct r; unfold at_, clear_failed in H; injection H as; subst; cbn end.

Section Runs.
Context `{GoRuntime} `{SortSlice} `{GuidHost} `{TunnelHost}.
Context (fixed : bool).
#[local] Set Default Proof Using "Type".

Lemma do_at a r0 : allowed_now a r0 = true → triple (at_ r0) (do_ a) (λ _, at_ (clear_failed (effect a r0))).
Proof. intros Ha. apply triple_do. intros r Hr. rewrite (at_allowed _ _ _ Hr). split; [done|]. by apply at_effect. Qed.

Lemma script_at h command name r0 : (∀ a b c, allowed_now (StartProcess h a b c) r0 = true) →
  triple (at_ r0) (runScriptCommand h command name) (λ _, at_ r0).
Proof.
  intros Ha. unfold runScriptCommand. destruct (_ =? _)%nat; [apply (triple_ret _ (λ _, at_ r0))|].
  assert (∀ o : option svc_err, triple (at_ r0) (run_ret o) (λ _, at_ r0)) as Hret by (intros o; apply (triple_ret _ (λ _, at_ r0))).
  eapply triple_bind; [apply triple_look|]. intros allowed. cbn beta. destruct (negb allowed); [done|].
  eapply triple_bind; [apply triple_look|]. intros env. cbn beta.
  eapply triple_bind; [instantiate (1 := λ _, at_ r0); destruct (_ =? _)%nat; [apply triple_look|apply (triple_ret _ (λ _, at_ r0))]|].
  intros [e|dir]; [done|]. cbn zeta. eapply triple_bind; [apply triple_look|]. intros [e|]; [done|]. cbn beta.
  eapply triple_bind; [apply triple_look|]. intros [e|]; [done|]. cbn beta.
  eapply triple_bind; [apply (triple_try _ _ _ (λ _, at_ r0))|].
  - intros r Hr. rewrite (at_allowed _ _ _ Hr). split_and!; [apply Ha|exact Hr|intros e; by apply at_failed].
  - intros [e|]; [done|]. eapply triple_bind; [apply triple_look|]. intros [e|code]; done.
Qed.

Definition after_adapter (r1 : res) (x : Config * option svc_err) (r : res) : Prop :=
  match snd x with
  | None => at_ (clear_failed (effect (CreateTUN [] Panic) r1)) r
  | Some _ => at_ r1 r
  end.

Lemma create_tun_at r1 more : (∀ n g, allowed_now (CreateTUN n g) r1 = true) → ∀ retry config,
  triple (at_ r1) (create_tun fixed more retry config) (after_adapter r1).
Proof.
  intros Ha. induction more as [|more IH]; intros retry config; cbn [create_tun].
  all: eapply triple_bind; [instantiate (1 := λ _, at_ r1); destruct retry; [|apply (triple_ret _ (λ _, at_ r1))];
         apply triple_do; intros r Hr; split; [done|]; by rewrite <- Hr|].
  all: intros ?; cbn beta; destruct (deterministicGUID fixed config) as [config' guid].
  all: eapply triple_bind; [apply (triple_try _ _ _ (λ o, after_adapter r1 (config', o)))|].
  1, 3: intros r Hr; rewrite (at_allowed _ _ _ Hr); split_and!; [apply Ha|by rewrite <- Hr|intros e; by apply at_failed].
  all: intros [e|]; [|apply (triple_ret _ (λ x, after_adapter r1 x))].
  all: eapply triple_bind; [apply triple_look|]; intros since; cbn beta; destruct (_ >? _); try (apply (triple_ret _ (λ x, after_adapter r1 x))).
  apply IH.
Qed.

(** ** Starting *)

(** The stages of the way up. *)
Definition watching_only : res := mkRes true false false true false false false false None.
Definition with_adapter : res := mkRes true true false true false false false false None.
Definition behind_firewall : res := mkRes true true true true false false false false None.
Definition unprivileged : res := mkRes true true true false false false false false None.
Definition with_device : res := mkRes true true true false true false false false None.
Definition with_pipe : res := mkRes true true true false true true false false None.
Definition with_keys : res := mkRes true true true false true true true false None.
Definition running : res := mkRes true true true false true true true true None.

(** What is held when the way up ends, as the deferred function sees it; only
    from the main loop does it end without an error. *)
Definition ended (o : option locals) (r : res) : Prop :=
  match o with
  | None => at_ running r
  | Some l =>
      watching r = l_watcher l ∧ listening r = l_uapi l ∧ device r = l_dev l ∧
      (firewall_on r = true → watching r = true) ∧ (up r = true → device r = true) ∧ (device r = false → up r = false) ∧
      match l_err l with
      | None => l_serviceError l = ErrorSuccess ∧ at_ running r
      | Some _ => True
      end
  end.

(** A step that failed at [r0] ends the start. *)
Lemma ended_failed l se e a r0 r : at_ r0 r → watching r0 = l_watcher l → listening r0 = l_uapi l → device r0 = l_dev l →
  (firewall_on r0 = true → watching r0 = true) → up r0 = false →
  ended (Some (failed l se e)) (failed_at a r).
Proof.
  intros <- Hw Hl Hd Hf Hu. cbn in *. split_and!; try done. by rewrite Hu.
Qed.

Lemma try_stage a f l se r0 r1 : allowed_now a r0 = true → clear_failed (effect a r0) = r1 → watching r0 = l_watcher l → listening r0 = l_uapi l →
  device r0 = l_dev l → (firewall_on r0 = true → watching r0 = true) → up r0 = false →
  triple (at_ r0) (try_ a f) (λ o r, match o with None => at_ r1 r | Some e => ended (Some (failed l se e)) r end).
Proof.
  intros Ha He Hw Hl Hd Hf Hu. apply triple_try. intros r Hr. rewrite (at_allowed _ _ _ Hr). split_and!; [done| |].
  - rewrite <- He. by apply at_effect.
  - intros e. by eapply ended_failed.
Qed.

Lemma try_get_stage {A} a (f : trace → svc_err + A) l se r0 r1 : allowed_now a r0 = true → clear_failed (effect a r0) = r1 → watching r0 = l_watcher l →
  listening r0 = l_uapi l → device r0 = l_dev l → (firewall_on r0 = true → watching r0 = true) → up r0 = false →
  triple (at_ r0) (try_get a f) (λ o r, match o with inr _ => at_ r1 r | inl e => ended (Some (failed l se e)) r end).
Proof.
  intros Ha He Hw Hl Hd Hf Hu. apply triple_try_get. intros r Hr. rewrite (at_allowed _ _ _ Hr). split_and!; [done| |].
  - intros x. rewrite <- He. by apply at_effect.
  - intros e. by eapply ended_failed.
Qed.

Lemma main_loop_at config events :
  triple (at_ running) (main_loop (mkLocals (Some config) true true true None ErrorSuccess) events) ended.
Proof.
  induction events as [|ev events IH]; cbn [main_loop]; [exact (triple_ret None ended)|].
  assert (triple (at_ running) (run_ret (Some (mkLocals (Some config) true true true None ErrorSuccess))) ended) as Hstop.
  { eapply triple_weaken; [apply (triple_ret _ ended)| |done]. intros r Hr. at_inv Hr. split_and!; done. }
  destruct ev as [cmd status| |se e]; [|exact Hstop|].
  - destruct (_ || _); [exact Hstop|]. destruct (_ =? _); [|exact IH]. eapply triple_bind; [by apply do_at|]. intros ?. exact IH.
  - eapply triple_weaken; [apply (triple_ret _ ended)| |done]. intros r Hr. at_inv Hr. by split_and!.
Qed.

Lemma script_stage h command name l r0 : (∀ a b c, allowed_now (StartProcess h a b c) r0 = true) → watching r0 = l_watcher l → listening r0 = l_uapi l →
  device r0 = l_dev l → (firewall_on r0 = true → watching r0 = true) → (up r0 = true → device r0 = true) →
  triple (at_ r0) (runScriptCommand h command name) (λ o r, match o with None => at_ r0 r | Some e => ended (Some (failed l ErrorRunScript e)) r end).
Proof.
  intros Ha Hw Hl Hd Hf Hu. eapply triple_weaken; [by apply script_at|done|]. intros [e|] r Hr; [|done]. rewrite <- Hr in *. cbn in *.
  split_and!; try done. destruct (up r); [|done]. intros Hdev. by rewrite Hu in Hdev.
Qed.

Lemma PipePath_cases name : PipePathOfTunnel name = Fail (ErrorString "Tunnel name is not valid") ∧ TunnelNameIsValid name = false
  ∨ ∃ p, PipePathOfTunnel name = Ret p.
Proof. unfold PipePathOfTunnel. destruct (TunnelNameIsValid name); [right|left]; eauto. Qed.

Ltac stage := first [eapply try_stage | eapply try_get_stage]; reflexivity || done.

Lemma bring_up_at events config uapi : triple (at_ with_adapter) (bring_up config uapi events) ended.
Proof.
  unfold bring_up. eapply triple_or_return_; [by eapply script_stage|].
  eapply triple_or_return_; [instantiate (1 := at_ behind_firewall); stage|].
  eapply triple_or_return_; [instantiate (1 := at_ unprivileged); stage|].
  eapply triple_bind; [by apply do_at|]. intros ?. change (clear_failed (effect NewDevice unprivileged)) with with_device. cbn beta zeta.
  destruct (PipePath_cases (Name config)) as [[-> Hv]|[pipe ->]].
  { eapply triple_weaken; [apply (triple_ret _ ended)| |done]. intros r Hr. at_inv Hr. by split_and!. }
  eapply triple_or_return_; [instantiate (1 := at_ with_pipe); stage|].
  eapply triple_or_return_; [instantiate (1 := at_ with_keys); stage|].
  eapply triple_bind; [by apply do_at|]. intros ?. change (clear_failed (effect DeviceUp with_keys)) with running.
  eapply triple_bind; [by apply do_at|]. intros ?. change (clear_failed (effect (ConfigureWatcher config) running)) with running.
  eapply triple_bind; [by apply do_at|]. intros ?. change (clear_failed (effect AcceptUAPI running)) with running.
  eapply triple_or_return_; [by eapply script_stage|].
  eapply triple_bind; [by apply do_at|]. intros ?. by apply main_loop_at.
Qed.

Lemma body_at path events : triple (at_ idle) (body fixed path events) ended.
Proof.
  unfold body. eapply triple_bind; [by apply do_at|]. intros ?. change (clear_failed (effect (SendStatus StartPending 0) idle)) with idle.
  eapply triple_or_return_; [instantiate (1 := at_ idle); stage|].
  eapply triple_or_return; [instantiate (1 := λ _, at_ idle); stage|]. intros config0. cbn beta zeta.
  generalize (DeduplicateNetworkEntries config0). intros config.
  eapply triple_or_return_; [instantiate (1 := at_ idle); stage|]. eapply triple_bind; [apply triple_look|]. intros locked. cbn beta.
  eapply triple_bind; [instantiate (1 := λ _, at_ idle); destruct locked; [by apply (do_at (SendStatus Running 0) idle)|exact (triple_ret tt (λ _, at_ idle))]|].
  intros ?. cbn beta. eapply triple_or_return_; [instantiate (1 := at_ watching_only); stage|].
  eapply triple_or_return; [instantiate (1 := λ _, at_ watching_only); stage|]. intros uapi. cbn beta zeta.
  eapply triple_bind; [by apply create_tun_at|]. intros [config' [e|]].
  - eapply triple_weaken; [exact (triple_ret (Some (failed (mkLocals (Some config') true false false None ErrorSuccess) ErrorCreateWintun e)) ended)| |done].
    intros r Hr. cbn in Hr. at_inv Hr. by split_and!.
  - eapply triple_weaken; [apply bring_up_at|done|done].
Qed.

(** ** Stopping *)

Definition released (r : res) : Prop :=
  watching r = false ∧ firewall_on r = false ∧ device r = false ∧ listening r = false ∧ up r = false.

Lemma when_at b a r0 : (b = true → allowed_now a r0 = true) →
  triple (at_ r0) (when b (do_ a)) (λ _, at_ (if b then clear_failed (effect a r0) else r0)).
Proof. intros Ha. destruct b; [by apply do_at, Ha|exact (triple_ret tt (λ _, at_ r0))]. Qed.

Lemma down_script_at h command logErr l r0 :
  (logErr = None → l_dev l = true → ∀ a b c, allowed_now (StartProcess h a b c) r0 = true) →
  triple (at_ r0) (down_script h command logErr l) (λ _, at_ r0).
Proof.
  intros Ha. unfold down_script. destruct logErr as [e|], (l_dev l), (l_config l); try apply (triple_ret _ (λ _, at_ r0)).
  apply script_at. by apply Ha.
Qed.

Lemma CombineErrors_none err se : CombineErrors err se = None → err = None.
Proof. unfold CombineErrors. by destruct (negb _), err. Qed.

(** Where everything is given back. *)
Definition taken_down (r : res) : res := mkRes false (adapter r && negb (device r)) false (privileged r) false false (keys_set r) false None.

Lemma cleanup_at l r0 : ended (Some l) r0 →
  triple (at_ (clear_failed r0)) (cleanup l) (λ code r, code = DetermineErrorCode (l_err l) (l_serviceError l) ∧ at_ (taken_down r0) r).
Proof.
  intros (Hw & Hl & Hd & Hf & Hu & Hu' & He). unfold cleanup.
  eapply triple_bind; [by apply do_at|]. intros ?. change (clear_failed (effect (SendStatus StopPending 0) (clear_failed r0))) with (clear_failed r0).
  eapply triple_bind; [apply down_script_at|].
  { intros Hn%CombineErrors_none _ x y z. rewrite Hn in He. destruct He as [_ He]. unfold at_ in He. by rewrite He. }
  intros logErr. cbn beta. eapply triple_bind; [apply when_at; cbn; congruence|]. intros ?.
  set (r1 := if l_watcher l then _ else _). assert (r1 = mkRes false (adapter r0) false (privileged r0) (device r0) (listening r0) (keys_set r0) (up r0) None) as ->.
  { unfold r1. rewrite <- Hw. destruct r0 as [[] x1 [] x2 x3 x4 x5 x6 x7]; cbn in *; try done. by discriminate Hf. }
  eapply triple_bind; [apply when_at; cbn; rewrite Hl; by intros ->|]. intros ?.
  set (r2 := if l_uapi l then _ else _). assert (r2 = mkRes false (adapter r0) false (privileged r0) (device r0) false (keys_set r0) (up r0) None) as ->.
  { unfold r2. rewrite <- Hl. cbn. by destruct (listening r0). }
  eapply triple_bind; [apply when_at; cbn; rewrite Hd; by intros ->|]. intros ?.
  set (r3 := if l_dev l then _ else _). assert (r3 = taken_down r0) as ->.
  { unfold r3, taken_down. rewrite <- Hd. cbn. destruct (device r0); cbn; [by rewrite andb_false_r|]. by rewrite Hu', andb_true_r. }
  eapply triple_bind; [by apply down_script_at|]. intros ?. cbn beta.
  eapply triple_weaken; [exact (triple_ret (DetermineErrorCode (l_err l) (l_serviceError l)) (λ code r, code = DetermineErrorCode (l_err l) (l_serviceError l) ∧ at_ (taken_down r0) r))| |done].
  done.
Qed.

(** C5: Every run follows the abstract service.  While it has not returned the
    tunnel is up behind the firewall and without privileges; when it returns
    the callbacks, the pipe and the engine are given back and the firewall is
    off, wherever it stopped. *)
Theorem Execute_refines path events :
  let '(t, code) := Execute fixed path events in
  ∃ r, accepts_from idle t = Some r ∧
    match code with
    | None => at_ running r
    | Some _ => released r
    end.
Proof.
  unfold Execute. pose proof (body_at path events [] idle eq_refl eq_refl) as Hb. destruct (body fixed path events []) as [t [l|]].
  - destruct Hb as (r & Ht & Hr). pose proof (cleanup_at l r Hr t r Ht eq_refl) as Hc. destruct (cleanup l t) as [t' code].
    destruct Hc as (r' & Ht' & _ & Hat). exists r'. split; [done|]. by at_inv Hat.
  - done.
Qed.

(** ** What the service stops with *)

(** The number the service stops with when a step fails. *)
Definition stage_error (a : action) : Z :=
  match a with
  | InitGlobalLogger => ErrorRingloggerOpen
  | LoadFromPath _ | CopyConfigOwner _ => ErrorLoadConfiguration
  | WatchInterface => ErrorSetNetConfig
  | ResolveNames _ => ErrorDNSLookup
  | CreateTUN _ _ => ErrorCreateWintun
  | StartProcess _ _ _ _ => ErrorRunScript
  | EnableFirewall _ => ErrorFirewall
  | DropAllPrivileges => ErrorDropPrivileges
  | Listen _ => ErrorUAPIListen
  | IpcSet _ => ErrorDeviceSetConfig
  | _ => ErrorSuccess
  end.

Lemma run_extends_cleanup l t : ∃ u, fst (cleanup l t) = t ++ u.
Proof.
  assert (∀ h c n t, ∃ u, fst (runScriptCommand h c n t) = t ++ u) as Hsc.
  { intros h c n t0. unfold runScriptCommand, run_bind, look, run_ret, try_. repeat case_match; cbn in *; simplify_eq; first [by exists []; rewrite app_nil_r|by eexists]. }
  assert (∀ h c o t, ∃ u, fst (down_script h c o l t) = t ++ u) as Hd.
  { intros h c o t0. unfold down_script. destruct o, (l_dev l), (l_config l); try (exists []; cbn; by rewrite app_nil_r). apply Hsc. }
  assert (∀ b a t, ∃ u, fst (when b (do_ a) t) = t ++ u) as Hw.
  { intros [] a t0; [by eexists|exists []; cbn; by rewrite app_nil_r]. }
  unfold cleanup, run_bind. cbn [do_]. repeat match goal with
  | |- context [down_script ?h ?c ?o l ?t] => let u := fresh "u" in destruct (Hd h c o t) as [u Hu]; destruct (down_script h c o l t) as [? ?]; cbn [fst] in Hu; subst
  | |- context [when ?b (do_ ?a) ?t] => let u := fresh "u" in destruct (Hw b a t) as [u Hu]; destruct (when b (do_ a) t) as [? ?]; cbn [fst] in Hu; subst
  end. cbn. rewrite <- !app_assoc. by eexists.
Qed.

(** What the host answered to a step, when that is an error. *)
Definition left_error {A} (x : svc_err + A) : option svc_err := match x with inl e => Some e | inr _ => None end.

Definition answer (a : action) (t : trace) : option svc_err :=
  match a with
  | InitGlobalLogger => h_logger t
  | LoadFromPath _ => left_error (h_load t)
  | CopyConfigOwner _ => h_owner t
  | WatchInterface => h_watch t
  | ResolveNames config => left_error (to_uapi config t)
  | CreateTUN _ _ => h_create t
  | EnableFirewall _ => h_firewall t
  | DropAllPrivileges => h_privileges t
  | Listen _ => h_listen t
  | IpcSet _ => h_ipcset t
  | _ => None
  end.

(** The event that ends the main loop. *)
Fixpoint deciding (events : list select_event) : option select_event :=
  match events with
  | [] => None
  | Control cmd status :: events =>
      if (cmd =? cmd_Stop) || (cmd =? cmd_Shutdown) then Some (Control cmd status) else deciding events
  | event :: _ => Some event
  end.

(** How the way up and the main loop ended, with the actions so far, the error
    and its number: told to stop, the device closed, an error the watcher
    reported (all three with the tunnel up); the last action is a step that
    failed with the answer of the host; a script failed; or the name of the
    tunnel has no pipe. *)
Inductive ending (events : list select_event) (t : trace) : option svc_err → Z → Prop :=
| end_told cmd status : (DeviceUp, true) ∈ t → deciding events = Some (Control cmd status) → ending events t None ErrorSuccess
| end_closed : (DeviceUp, true) ∈ t → deciding events = Some DeviceClosed → ending events t None ErrorSuccess
| end_watcher se e : (DeviceUp, true) ∈ t → deciding events = Some (WatcherError se e) → ending events t (Some e) se
| end_step a e t0 : t = t0 ++ [(a, false)] → answer a t0 = Some e → ending events t (Some e) (stage_error a)
| end_script h command config t0 e :
    (h = PreUp_hook ∧ command = PreUp (Iface config)) ∨ (h = PostUp_hook ∧ command = PostUp (Iface config)) →
    runScriptCommand h command (Name config) t0 = (t, Some e) → ending events t (Some e) ErrorRunScript
| end_pipe name e : PipePathOfTunnel name = Fail e → ending events t (Some (OtherErr e)) ErrorUAPIListen.

(** From the actions [t], [m] runs to a result with [Q]. *)
Definition ends {A} (m : run A) (t : trace) (Q : trace → A → Prop) : Prop := let '(t', a) := m t in Q t' a.

Definition explained (events : list select_event) (t : trace) (o : option locals) : Prop :=
  match o with Some l => ending events t (l_err l) (l_serviceError l) | None => True end.

Lemma ends_bind {A B} (m : run A) (k : A → run B) t Q : ends m t (λ t' a, ends (k a) t' Q) → ends (run_bind m k) t Q.
Proof. unfold ends, run_bind. by destruct (m t) as [t' a]. Qed.

Lemma ends_step events a f l se k t : (∀ t, f t = answer a t) → se = stage_error a →
  (f t = None → ends k (t ++ [(a, true)]) (explained events)) → ends (or_return_ (try_ a f) l se k) t (explained events).
Proof.
  intros Hf -> Hk. unfold or_return_. apply ends_bind. unfold ends at 1, try_. destruct (f t) eqn:E; [|by apply Hk].
  by apply (end_step _ _ a s t); [|rewrite <- Hf].
Qed.

Lemma ends_step_get {A} events a (f : trace → svc_err + A) l se k t : (∀ t, left_error (f t) = answer a t) → se = stage_error a →
  (∀ x, ends (k x) (t ++ [(a, true)]) (explained events)) → ends (or_return (try_get a f) l se k) t (explained events).
Proof.
  intros Hf -> Hk. unfold or_return. apply ends_bind. unfold ends at 1, try_get. destruct (f t) as [e|x] eqn:E; [|apply Hk].
  apply (end_step _ _ a e t); [done|]. by rewrite <- Hf, E.
Qed.

Lemma runScript_extends h c n t : ∃ u, fst (runScriptCommand h c n t) = t ++ u.
Proof.
  unfold runScriptCommand, run_bind, look, run_ret, try_. repeat case_match; cbn in *; simplify_eq; first [by exists []; rewrite app_nil_r|by eexists].
Qed.

Lemma ends_script events h command config l k t :
  (h = PreUp_hook ∧ command = PreUp (Iface config)) ∨ (h = PostUp_hook ∧ command = PostUp (Iface config)) →
  (∀ u, ends k (t ++ u) (explained events)) →
  ends (or_return_ (runScriptCommand h command (Name config)) l ErrorRunScript k) t (explained events).
Proof.
  intros Hh Hk. unfold or_return_. apply ends_bind. unfold ends at 1. destruct (runScript_extends h command (Name config) t) as [u Hu].
  destruct (runScriptCommand _ _ _ t) as [t' [e|]] eqn:E; cbn in Hu; subst t'; [|apply Hk]. by eapply end_script.
Qed.

Lemma ends_do {A} a (k : run A) t Q : ends k (t ++ [(a, true)]) Q → ends (do_ a ;;; k) t Q.
Proof. done. Qed.

Lemma main_loop_ends events l : l_err l = None → l_serviceError l = ErrorSuccess → ∀ all, deciding events = deciding all →
  ∀ t, (DeviceUp, true) ∈ t → ends (main_loop l events) t (explained all).
Proof.
  intros He Hs all. induction events as [|ev events IH]; intros Hd t Ht; cbn [main_loop]; [done|].
  destruct ev as [cmd status| |se e]; cbn [deciding] in Hd.
  - destruct (_ || _).
    + cbn. rewrite He, Hs. by eapply end_told.
    + destruct (cmd =? cmd_Interrogate); [apply ends_do|]; apply IH; try done. apply elem_of_app. by left.
  - cbn. rewrite He, Hs. by apply end_closed.
  - by apply end_watcher.
Qed.

Lemma create_tun_ends more : ∀ retry config t, ends (create_tun fixed more retry config) t (λ t' x,
  ∀ e, snd x = Some e → ∃ t0 n g, t' = t0 ++ [(CreateTUN n g, false)] ∧ h_create t0 = Some e).
Proof.
  induction more as [|more IH]; intros retry config t; cbn [create_tun]; apply ends_bind.
  all: assert (∀ (k : run (Config * option svc_err)) Q, (∀ t', ends k t' Q) → ends (if retry then do_ (Sleep (10 ^ 9)) else run_ret tt) t (λ t' _, ends k t' Q)) as Hs
    by (intros k Q Hk; destruct retry; apply Hk).
  all: apply Hs; clear Hs; intros t'; destruct (deterministicGUID fixed config) as [config' guid]; apply ends_bind; unfold ends at 1, try_.
  all: destruct (h_create t') as [e|] eqn:E; [|by intros e].
  all: apply ends_bind; unfold ends at 1, look; destruct (_ >? _); try (cbn; intros e' [= <-]; eauto 10).
  apply IH.
Qed.

Lemma bring_up_ends events config uapi t : ends (bring_up config uapi events) t (explained events).
Proof.
  unfold bring_up. apply ends_script; [by left|]. intros u1. apply ends_step; [done..|]. intros _. apply ends_step; [done..|]. intros _.
  apply ends_do. destruct (PipePathOfTunnel (Name config)) as [pipe|e|] eqn:Ep; [|by eapply end_pipe|done].
  apply ends_step; [done..|]. intros _. apply ends_step; [done..|]. intros _. do 3 apply ends_do.
  apply ends_script; [by right|]. intros u2. apply ends_do. apply main_loop_ends; [done..|].
  rewrite !elem_of_app, !list_elem_of_singleton. tauto.
Qed.

Lemma body_ends path events t : ends (body fixed path events) t (explained events).
Proof.
  unfold body. apply ends_do, ends_step; [done..|]. intros _. apply ends_step_get; [done..|]. intros config0. cbn zeta.
  apply ends_step; [done..|]. intros _. apply ends_bind. unfold ends at 1, look. apply ends_bind.
  assert (∀ (k : run (option locals)) b t, (∀ t', ends k t' (explained events)) →
    ends (if b : bool then do_ (SendStatus Running 0) else run_ret tt) t (λ t' _, ends k t' (explained events))) as Hs by (intros k [] t0 Hk; apply Hk).
  apply Hs. intros t'. apply ends_step; [done..|]. intros _. apply ends_step_get; [done..|]. intros uapi. apply ends_bind.
  match goal with |- ends ?m ?t _ => pose proof (create_tun_ends 4 false (DeduplicateNetworkEntries config0) t) as Hc end.
  unfold ends in Hc |- * at 1. destruct (create_tun _ _ _ _ _) as [t1 [config' [e|]]]; [|apply bring_up_ends].
  destruct (Hc e eq_refl) as (t0 & n & g & -> & He). by apply (end_step _ _ (CreateTUN n g) e t0).
Qed.

(** When the service has stopped: how it ended, before it took everything down,
    and the code that makes. *)
Lemma Execute_ending path events t code : Execute fixed path events = (t, Some code) →
  ∃ t1 u e se, t = t1 ++ u ∧ ending events t1 e se ∧ code = DetermineErrorCode e se.
Proof.
  unfold Execute. pose proof (body_ends path events []) as Hb. unfold ends in Hb. pose proof (body_at path events [] idle eq_refl eq_refl) as Hr.
  destruct (body fixed path events []) as [t0 [l|]]; [|done]. destruct Hr as (r & Ht & Hr). pose proof (cleanup_at l r Hr t0 r Ht eq_refl) as Hc.
  destruct (run_extends_cleanup l t0) as [u Hu]. destruct (cleanup l t0) as [t' code']. cbn in Hu. subst t'. destruct Hc as (r' & _ & -> & _).
  intros [= <- <-]. exists t0, u, (l_err l), (l_serviceError l). by split_and!.
Qed.

(** Only the watcher could report an error without a number. *)
Lemma ending_number events t e se : ending events t (Some e) se → se ≠ ErrorSuccess ∨ deciding events = Some (WatcherError se e).
Proof.
  inversion_clear 1 as [| |? ? ? Hd|a e' t0 _ Ha|h command config t0 e' _ _|name e' _]; [by right|left..]; try done.
  by destruct a.
Qed.
End Runs.

(** ** A concrete service *)

#[local] Existing Instance plain_runtime.
#[local] Instance service_guid : GuidHost := {| blake2s_Sum x := x; norm_NFC s := s; Public k := k |}.
#[local] Existing Instance insertion_sort.

Definition service_conf : Config := mkConfig "office" zeroInterface [].

(** Everything succeeds but the firewall, as far as [works] says. *)
#[local] Instance service_host (works : bool) : TunnelHost := {|
  h_logger _ := None; h_load _ := inr service_conf; h_owner _ := None; h_scm_locked _ := false; h_watch _ := None;
  h_resolveHostname _ _ := Ret []; h_errno _ := None;
  h_create t := if (length t <? 8)%nat then Some (Sys 1167) else None;
  h_since_boot _ := 10 ^ 9; h_firewall _ := if works then None else Some (OtherErr ErrEOF);
  h_privileges _ := None; h_listen _ := None; h_ipcset _ := None;
  h_AdminBool _ _ := false; h_comspec _ := []; h_system_directory _ := inr []; h_devnull _ := None; h_pipe _ := None; h_start _ := None; h_wait _ := inr 0 |}.

(** The adapter is created at the second try; the tunnel stops when told to. *)
Example service_runs : snd (@Execute _ _ _ (service_host true) false "C:\office.conf" [Control cmd_Interrogate Running; Control cmd_Stop 0]) = Some (false, 0).
Proof. vm_compute. reflexivity. Qed.

(** A firewall that cannot be set up. *)
Example firewall_fails : snd (@Execute _ _ _ (service_host false) false "C:\office.conf" []) = Some (true, ErrorFirewall).
Proof. vm_compute. reflexivity. Qed.

(** The adapter is the engine's to close: a start that fails between the two
    leaves it to the end of the process. *)
Theorem adapter_outlives_failed_start :
  ∃ r, accepts_from idle (fst (@Execute _ _ _ (service_host false) false "C:\office.conf" [])) = Some r ∧ released r ∧ adapter r = true.
Proof. eexists. split; [vm_compute; reflexivity|]. by repeat split. Qed.
