(* ===== verification/SmartImport.v ===== *)
(** * Importing a profile by link ([client/smart/import_link.go])

    A link names a server and a one-time token; the profile is fetched once with
    the token in a header.  The server's answer is the argument. *)
From S2P Require Import Prelude GoStrings GoStrconv GoEncoding GoNet GoUrl GoPath GoOs GoJson AwgValidation TunnelName Conf Parser RoundTrip ConfTheorems SmartRules SmartCatalog SmartSettings SmartUpdate.

Local Open Scope Z_scope.

(** ** [base64.RawURLEncoding] *)

Definition url_char (v : Z) : byte := if v =? 62 then x2d else if v =? 63 then x5f else b64_char v.
Definition url_val (b : byte) : option Z :=
  if Byte.eqb b x2d then Some 62
  else if Byte.eqb b x5f then Some 63
  else if Byte.eqb b x2b || Byte.eqb b x2f then None
  else b64_val b.

Definition url_sextet (val shift : Z) : byte := url_char (val / 2 ^ shift mod 64).

Fixpoint RawURL_EncodeToString (s : list byte) : gostring :=
  match s with
  | [] => []
  | [a] => let v := pack3 a x00 x00 in [url_sextet v 18; url_sextet v 12]
  | [a; b] => let v := pack3 a b x00 in [url_sextet v 18; url_sextet v 12; url_sextet v 6]
  | a :: b :: c :: s =>
      let v := pack3 a b c in
      url_sextet v 18 :: url_sextet v 12 :: url_sextet v 6 :: url_sextet v 0 :: RawURL_EncodeToString s
  end.

(** Line breaks are skipped; a rest of two or three characters is one or two
    bytes, whose spare bits are not looked at. *)
Fixpoint RawURL_decode (s : list byte) (dbuf : list Z) : option (list byte) :=
  match s with
  | [] =>
      match dbuf with
      | [] => Some []
      | [v0; v1] => Some [byte_at (pack4 v0 v1 0 0) 16]
      | [v0; v1; v2] => let val := pack4 v0 v1 v2 0 in Some [byte_at val 16; byte_at val 8]
      | _ => None
      end
  | c :: s =>
      match url_val c with
      | Some v =>
          match dbuf with
          | [v0; v1; v2] =>
              let val := pack4 v0 v1 v2 v in
              r ← RawURL_decode s []; Some (byte_at val 16 :: byte_at val 8 :: byte_at val 0 :: r)
          | _ => RawURL_decode s (dbuf ++ [v])
          end
      | None => if is_newline c then RawURL_decode s dbuf else None
      end
  end.
Definition RawURL_DecodeString (s : gostring) : option (list byte) := RawURL_decode s [].

(** ** Links *)

Record ImportLink := mkLink { Issuer : gostring; claimURL : gostring; token : gostring }.

Definition max_link : Z := 2048.
Definition token_prefix : gostring := "token=".

Section Links.
Context {RT : GoRuntime}.

Definition good_url (u : URL) : bool :=
  (Scheme u =?s "https") && negb (Hostname u =?s []) && negb (User u) && ((URLPort u =?s []) || (URLPort u =?s "443"))
  && (RawQuery u =?s []) && (Path u =?s "/pinus/import") && (RawPath u =?s []).

Definition ParseImportLink (raw : gostring) : outcome ImportLink :=
  if Z.of_nat (length raw) >? max_link then Fail (err "ссылка слишком длинная")
  else
    match url_Parse (TrimSpace raw) with
    | Some u =>
        if negb (good_url u) then Fail (err "нужна HTTPS-ссылка Pinus вида https://сервер/pinus/import#token=…")
        else
          let tok := TrimPrefix (Fragment u) token_prefix in
          match RawURL_DecodeString tok with
          | Some decoded =>
              if negb (HasPrefix (Fragment u) token_prefix) || negb (length decoded =? 32)%nat || negb (RawURL_EncodeToString decoded =?s tok)
              then Fail (err "некорректный одноразовый токен")
              else let issuer := "https://" ++ URLHost u in Ret (mkLink issuer (issuer ++ "/api/pinus/import") tok)
          | None => Fail (err "некорректный одноразовый токен")
          end
    | None => Fail (err "нужна HTTPS-ссылка Pinus вида https://сервер/pinus/import#token=…")
    end.
End Links.

(** ** The answer of the server *)

Record importPayload := mkImport { imp_Version : Z; imp_Name : gostring; imp_Config : gostring }.
Definition eta_import (p : importPayload) : importPayload := mkImport (imp_Version p) (imp_Name p) (imp_Config p).
#[export] Instance set_imp_Version : Setter imp_Version := ltac:(derive_setter eta_import imp_Version).
#[export] Instance set_imp_Name : Setter imp_Name := ltac:(derive_setter eta_import imp_Name).
#[export] Instance set_imp_Config : Setter imp_Config := ltac:(derive_setter eta_import imp_Config).

(** The request that is sent. *)
Record request := mkRequest { req_method : gostring; req_url : gostring; req_headers : list (gostring * gostring) }.

Definition import_limit : Z := 2 * 1024 * 1024.

Section Claim.
Context {RT : GoRuntime}.

Definition import_request (link : ImportLink) : request :=
  mkRequest "POST" (claimURL link) [("Authorization", "Bearer " ++ token link); ("Accept", "application/json")].

Definition dec_import : decoder importPayload := dec_struct true [
  ("version", in_field imp_Version dec_int); ("name", in_field imp_Name dec_string); ("config", in_field imp_Config dec_string)].

Definition has_scripts (i : Interface) : bool :=
  negb (PreUp i =?s []) || negb (PostUp i =?s []) || negb (PreDown i =?s []) || negb (PostDown i =?s []).

(** [answer] is what the server gives for the request, with the body as far as
    the limited reader reads it. *)
Definition claimImportLink (link : ImportLink) (answer : request → http_result) : outcome Config :=
  if (claimURL link =?s []) || (token link =?s []) then Fail (err "некорректная ссылка импорта")
  else
    match answer (import_request link) with
    | RequestError _ => Fail (err "не удалось создать запрос импорта")
    | DoError _ => Fail (err "не удалось получить профиль по HTTPS; соединение или сертификат не прошли проверку")
    | Response code data readErr _ =>
        if negb (code =? StatusOK) then Fail (err "сервер не выдал профиль: ссылка могла истечь или уже использована")
        else if bool_decide (readErr ≠ None) || (Z.of_nat (length data) >? import_limit)
        then Fail (err "не удалось прочитать ответ импорта или он слишком большой")
        else
          match decode_stream data with
          | None => Fail (err "неверный формат ответа импорта")
          | Some (t, rest) =>
              match dec_import data t (mkImport 0 [] []) with
              | Ret payload =>
                  if negb (skip_ws rest =?s []) || negb (imp_Version payload =? 1)
                     || (Z.of_nat (length (imp_Config payload)) >? 1024 * 1024) || negb (TunnelNameIsValid (imp_Name payload))
                  then Fail (err "неподдерживаемый ответ импорта")
                  else
                    match FromWgQuick (imp_Config payload) (imp_Name payload) with
                    | Ret config =>
                        if has_scripts (Iface config)
                        then Fail (err "импорт по ссылке не разрешает команды PreUp/PostUp/PreDown/PostDown")
                        else Ret config
                    | Fail _ => Fail (err "сервер выдал некорректный AWG-профиль")
                    | Panic => Panic
                    end
              | Fail _ => Fail (err "неверный формат ответа импорта")
              | Panic => Panic
              end
          end
    end.
End Claim.

(** ** Tokens *)

Definition url_alphabet (b : byte) : bool := in_range 65 90 b || in_range 97 122 b || in_range 48 57 b || Byte.eqb b x2d || Byte.eqb b x5f.

Lemma url_char_alphabet v : 0 <= v < 64 → url_alphabet (url_char v) = true.
Proof. intros Hv. by_below 64 (λ v, url_alphabet (url_char v)) v Hv. done. Qed.

Lemma url_sextet_alphabet val shift : url_alphabet (url_sextet val shift) = true.
Proof. apply url_char_alphabet. apply Z.mod_pos_bound. lia. Qed.

Lemma three_ind (P : list byte → Prop) : P [] → (∀ a, P [a]) → (∀ a b, P [a; b]) → (∀ a b c s, P s → P (a :: b :: c :: s)) → ∀ s, P s.
Proof.
  intros H0 H1 H2 H3. assert (∀ n s, (length s <= n)%nat → P s) as Hn; [|intros s; by apply (Hn (length s))].
  induction n as [|n IH]; intros [|a [|b [|c s]]] Hl; try done; cbn in Hl; try lia. apply H3, IH. lia.
Qed.

Lemma RawURL_alphabet s : forallb url_alphabet (RawURL_EncodeToString s) = true.
Proof. induction s using three_ind; cbn [RawURL_EncodeToString forallb]; by rewrite ?url_sextet_alphabet, ?IHs. Qed.

Lemma RawURL_length s : Z.of_nat (length (RawURL_EncodeToString s)) = (4 * Z.of_nat (length s) + 2) / 3.
Proof.
  induction s as [|a|a b|a b c s IH] using three_ind; try reflexivity. cbn [RawURL_EncodeToString length]. rewrite !Nat2Z.inj_succ, IH.
  replace (4 * Z.succ (Z.succ (Z.succ (Z.of_nat (length s)))) + 2) with (4 * Z.of_nat (length s) + 2 + 4 * 3) by lia. rewrite Z.div_add by lia. lia.
Qed.

Section Safe.
Context {RT : GoRuntime}.

(** The address the profile is fetched from is made of the link's host alone: it
    is always HTTPS on the usual port, and the token, 43 characters that cannot
    end a header line, is no part of it. *)
Theorem import_link_parsed raw link : ParseImportLink raw = Ret link →
  ∃ u secret, url_Parse (TrimSpace raw) = Some u ∧ Scheme u = "https" ∧ User u = false ∧ Hostname u ≠ [] ∧ (URLPort u = [] ∨ URLPort u = "443") ∧
    claimURL link = "https://" ++ URLHost u ++ "/api/pinus/import" ∧ Issuer link = "https://" ++ URLHost u ∧
    length secret = 32%nat ∧ token link = RawURL_EncodeToString secret ∧
    forallb url_alphabet (token link) = true ∧ length (token link) = 43%nat ∧ Fragment u = token_prefix ++ token link.
Proof.
  unfold ParseImportLink. destruct (_ >? _); [done|]. destruct (url_Parse _) as [u|] eqn:Eu; [|done]. destruct (good_url u) eqn:Eg; [|done]. cbn [negb].
  destruct (RawURL_DecodeString _) as [k|] eqn:Ek; [|done]. destruct (HasPrefix (Fragment u) token_prefix) eqn:Ep; [|done]. cbn [negb orb].
  destruct (Nat.eqb_spec (length k) 32) as [Hk|]; [|done]. cbn [negb orb]. destruct (str_eqb_spec (RawURL_EncodeToString k) (TrimPrefix (Fragment u) token_prefix)) as [Et|]; [|done].
  cbn [negb]. intros [= <-]. unfold good_url in Eg. rewrite !andb_true_iff, orb_true_iff, !negb_true_iff, !str_eqb_true, !str_eqb_false in Eg.
  destruct Eg as ((((((Hs & Hh) & Hu) & Hp) & Hq) & Hpa) & Hr). exists u, k. cbn [claimURL Issuer token]. split_and!; try done.
  - rewrite <- Et. apply RawURL_alphabet.
  - rewrite <- Et. pose proof (RawURL_length k) as Hl. rewrite Hk in Hl. change ((4 * Z.of_nat 32 + 2) / 3) with 43 in Hl. lia.
  - unfold TrimPrefix. rewrite Ep. apply HasPrefix_spec in Ep as [t ->]. by rewrite drop_app_length.
Qed.

Lemma import_link_parts raw link : ParseImportLink raw = Ret link →
  claimURL link ≠ [] ∧ forallb url_alphabet (token link) = true ∧ length (token link) = 43%nat.
Proof. intros (u & secret & _ & _ & _ & _ & _ & -> & _ & _ & _ & Ha & Hl & _)%import_link_parsed. by split_and!. Qed.

(** The texts an import can fail with. *)
Definition link_errors : list goerror := map err [
  "ссылка слишком длинная"; "нужна HTTPS-ссылка Pinus вида https://сервер/pinus/import#token=…"; "некорректный одноразовый токен"].
Definition claim_errors : list goerror := map err [
  "некорректная ссылка импорта"; "не удалось создать запрос импорта";
  "не удалось получить профиль по HTTPS; соединение или сертификат не прошли проверку";
  "сервер не выдал профиль: ссылка могла истечь или уже использована";
  "не удалось прочитать ответ импорта или он слишком большой"; "неверный формат ответа импорта"; "неподдерживаемый ответ импорта";
  "сервер выдал некорректный AWG-профиль"; "импорт по ссылке не разрешает команды PreUp/PostUp/PreDown/PostDown"].

Lemma ParseImportLink_errors raw e : ParseImportLink raw = Fail e → e ∈ link_errors.
Proof. unfold ParseImportLink. intros He. repeat (case_match; try done); injection He as <-; unfold link_errors; cbn [map]; set_solver. Qed.

Lemma claimImportLink_errors link answer e : claimImportLink link answer = Fail e → e ∈ claim_errors.
Proof. unfold claimImportLink. intros He. repeat (case_match; try done); injection He as <-; unfold claim_errors; cbn [map]; set_solver. Qed.

(** [n] characters of an alphabet in a row. *)
Fixpoint has_run (A : byte → bool) (n : nat) (s : gostring) : bool :=
  (n <=? length s)%nat && forallb A (take n s) || match s with [] => false | _ :: s => has_run A n s end.

Lemma Contains_run A s p : Contains s p = true → forallb A p = true → has_run A (length p) s = true.
Proof.
  intros Hc Hp. induction s as [|b s IH]; cbn [Contains has_run] in *; apply orb_true_iff in Hc as [Hc|Hc]; try done.
  1,2: apply HasPrefix_spec in Hc as [t ->]; rewrite take_app_length, Hp, length_app, (proj2 (Nat.leb_le _ _)) by lia; done.
  rewrite IH by done. apply orb_true_r.
Qed.

Lemma errors_hide_token link answer e token : length token = 43%nat → forallb url_alphabet token = true →
  claimImportLink link answer = Fail e → ∃ text, e = ErrorString text ∧ Contains text token = false.
Proof.
  intros Hl Ha He%claimImportLink_errors. assert (Forall (λ e, ∃ text, e = ErrorString text ∧ has_run url_alphabet 43 text = false) claim_errors) as Hall.
  { unfold claim_errors. cbn [map]. repeat (apply Forall_cons; split; [eexists; split; [reflexivity|vm_compute; reflexivity]|]). constructor. }
  eapply Forall_forall in Hall as (text & -> & Hr); [|exact He]. exists text. split; [done|].
  apply not_true_iff_false. intros Hc. apply (Contains_run url_alphabet) in Hc; [|done]. rewrite Hl in Hc. congruence.
Qed.

(** C25: A link is read or refused with one of three fixed texts.  For every link that
    is read, a claim that succeeds gives a well-formed profile without scripts,
    from a complete answer of at most 2 MiB; one that fails does so with one of
    nine fixed texts, and the text does not contain the token; and success,
    failure and text depend on the server's answer alone, so any other usable
    link that gets the same answer ends the same. *)
Theorem claimed_profile_safe raw :
  (∀ e, ParseImportLink raw = Fail e → e ∈ link_errors) ∧
  ∀ link answer, ParseImportLink raw = Ret link →
    (∀ c, claimImportLink link answer = Ret c →
      accepted (Name c) c ∧ has_scripts (Iface c) = false ∧
      ∃ data closeErr, answer (import_request link) = Response StatusOK data None closeErr ∧ Z.of_nat (length data) <= import_limit) ∧
    (∀ e, claimImportLink link answer = Fail e →
      e ∈ claim_errors ∧ ∃ text, e = ErrorString text ∧ Contains text (token link) = false) ∧
    (∀ link' answer', claimURL link' ≠ [] → token link' ≠ [] → answer' (import_request link') = answer (import_request link) →
      claimImportLink link' answer' = claimImportLink link answer).
Proof.
  split; [apply ParseImportLink_errors|]. intros link answer Hlink. destruct (import_link_parts raw link Hlink) as (Hurl & Ha & Hl). split_and!.
  - intros c Hc. unfold claimImportLink in Hc. repeat (case_match; try done). injection Hc as <-. split_and!; [|done|].
    + match goal with E : FromWgQuick _ _ = Ret _ |- _ => apply FromWgQuick_accepted in E as [[En Hn] Hi Hp Hk Haw] end. by split; rewrite ?En.
    + match goal with E : negb (_ =? _) = false |- _ => apply negb_false_iff, Z.eqb_eq in E; subst end.
      match goal with E : bool_decide _ || _ = false |- _ => apply orb_false_iff in E as [E1%bool_decide_eq_false E2] end.
      eexists _, _. split; [|rewrite Z.gtb_ltb in E2; apply Z.ltb_ge in E2; exact E2]. do 2 f_equal. destruct readErr; [|done]. by destruct E1.
  - intros e He. split; [by eapply claimImportLink_errors|by eapply errors_hide_token].
  - intros link' answer' Hu Ht Ean. unfold claimImportLink. rewrite Ean. apply str_eqb_false in Hu, Ht. rewrite Hu, Ht.
    rewrite (proj2 (str_eqb_false _ _) Hurl), (proj2 (str_eqb_false (token link) [])); [done|]. intros E. by rewrite E in Hl.
Qed.
End Safe.

(** ** A link and an answer *)

#[local] Existing Instance plain_runtime.

Definition demo_link : ImportLink := mkLink "https://vpn.example:443" "https://vpn.example:443/api/pinus/import" (replicate 43 x41).
Definition demo_raw : gostring := " https://vpn.example:443/pinus/import#token=" ++ replicate 43 x41.

Lemma import_link_parsed_witness : ParseImportLink demo_raw = Ret demo_link ∧
  ∃ u secret, url_Parse (TrimSpace demo_raw) = Some u ∧ Scheme u = "https" ∧ User u = false ∧ Hostname u ≠ [] ∧ (URLPort u = [] ∨ URLPort u = "443") ∧
    claimURL demo_link = "https://" ++ URLHost u ++ "/api/pinus/import" ∧ Issuer demo_link = "https://" ++ URLHost u ∧
    length secret = 32%nat ∧ token demo_link = RawURL_EncodeToString secret ∧
    forallb url_alphabet (token demo_link) = true ∧ length (token demo_link) = 43%nat ∧ Fragment u = token_prefix ++ token demo_link.
Proof.
  assert (ParseImportLink demo_raw = Ret demo_link) as Hp by (vm_compute; reflexivity). split; [exact Hp|]. exact (import_link_parsed _ _ Hp).
Defined.

(** An answer with a profile; quotes are written as bytes. *)
Definition demo_answer : gostring :=
  Marshal (JObj [("version", JNum "1"); ("name", JStr "home");
    ("config", JStr (Join ["[Interface]"; "PrivateKey = " ++ sample_key; "[Peer]"; "PublicKey = " ++ sample_key] [x0a]))]).
Definition demo_imported : Config :=
  match claimImportLink demo_link (λ _, Response 200 demo_answer None None) with Ret c => c | _ => mkConfig [] zeroInterface [] end.

Definition demo_refusal : goerror := err "сервер не выдал профиль: ссылка могла истечь или уже использована".

Lemma claimed_profile_safe_witness :
  (Name demo_imported = "home" ∧ length (Peers demo_imported) = 1%nat ∧ accepted (Name demo_imported) demo_imported ∧
   has_scripts (Iface demo_imported) = false) ∧
  (claimImportLink demo_link (λ _, Response 403 [] None None) = Fail demo_refusal ∧
   ∃ text, demo_refusal = ErrorString text ∧ Contains text (token demo_link) = false).
Proof.
  assert (ParseImportLink demo_raw = Ret demo_link) as Hp by (vm_compute; reflexivity). split.
  - split; [vm_compute; reflexivity|]. split; [vm_compute; reflexivity|].
    assert (claimImportLink demo_link (λ _, Response 200 demo_answer None None) = Ret demo_imported) as Hc by (vm_compute; reflexivity).
    destruct (proj1 (proj2 (claimed_profile_safe demo_raw) _ _ Hp) _ Hc) as (Ha & Hs & _). split; assumption.
  - assert (claimImportLink demo_link (λ _, Response 403 [] None None) = Fail demo_refusal) as Hf by (vm_compute; reflexivity).
    split; [exact Hf|]. exact (proj2 (proj1 (proj2 (proj2 (claimed_profile_safe demo_raw) _ _ Hp)) _ Hf)).
Defined.
