(* ===== verification/SmartBackup.v ===== *)
(** * Encrypted backups ([client/smart/backup.go])

    Profiles and their settings as one JSON text, encrypted under a password:
    magic, salt, nonce, then AES-GCM with these as additional data.  The
    cryptography and the random source are [Class BackupCrypto]. *)
From S2P Require Import Prelude GoStrings GoStrconv GoEncoding GoNet GoPath GoOs GoTime GoJson JsonFacts AwgValidation TunnelName Conf Parser SmartRules SmartCatalog SmartSettings SmartUpdate SmartStore.

Local Open Scope Z_scope.

Class BackupCrypto := {
  rand_Read : nat → outcome gostring;                         (* n random bytes *)
  scrypt_Key : gostring → gostring → outcome gostring;        (* password, salt *)
  gcm_Seal : gostring → gostring → gostring → gostring → gostring;          (* key, nonce, plaintext, additional data *)
  gcm_Open : gostring → gostring → gostring → gostring → option gostring;
}.

(** AES-256-GCM opens what it sealed, under the same key, nonce and additional
    data, and its output is 16 bytes longer than its input. *)
Class BackupCryptoLaws `{BackupCrypto} : Prop := {
  rand_length n s : rand_Read n = Ret s → length s = n;
  gcm_opens key nonce plain ad : gcm_Open key nonce (gcm_Seal key nonce plain ad) ad = Some plain;
  gcm_length key nonce plain ad : length (gcm_Seal key nonce plain ad) = (length plain + 16)%nat }.

Definition backupLimit : Z := 16 * 1024 * 1024.
Definition backupMagic : gostring := "PINUS-BACKUP" ++ [x01].

Record BackupProfile := mkProfile { bp_Name : gostring; bp_Config : gostring; bp_Settings : RoutingSettings }.
Record Backup := mkBackup { b_Version : Z; b_CreatedAt : Z; b_Profiles : option (list BackupProfile) }.

Definition eta_profile (p : BackupProfile) : BackupProfile := mkProfile (bp_Name p) (bp_Config p) (bp_Settings p).
#[export] Instance set_bp_Name : Setter bp_Name := ltac:(derive_setter eta_profile bp_Name).
#[export] Instance set_bp_Config : Setter bp_Config := ltac:(derive_setter eta_profile bp_Config).
#[export] Instance set_bp_Settings : Setter bp_Settings := ltac:(derive_setter eta_profile bp_Settings).
Definition eta_backup (b : Backup) : Backup := mkBackup (b_Version b) (b_CreatedAt b) (b_Profiles b).
#[export] Instance set_b_Version : Setter b_Version := ltac:(derive_setter eta_backup b_Version).
#[export] Instance set_b_CreatedAt : Setter b_CreatedAt := ltac:(derive_setter eta_backup b_CreatedAt).
#[export] Instance set_b_Profiles : Setter b_Profiles := ltac:(derive_setter eta_backup b_Profiles).

Definition profiles (b : Backup) : list BackupProfile := default [] (b_Profiles b).
Definition zeroBackup : Backup := mkBackup 0 0 None.

Definition json_of_profile (p : BackupProfile) : json :=
  JObj [("Name", JStr (bp_Name p)); ("Config", JStr (bp_Config p)); ("Settings", json_of_settings (bp_Settings p))].
Definition json_of_backup (b : Backup) : json := JObj [
  ("Version", JInt (b_Version b)); ("CreatedAt", JStr (FormatRFC3339Nano (b_CreatedAt b)));
  ("Profiles", match b_Profiles b with Some l => JArr (map json_of_profile l) | None => JNull end)].

Section Backups.
Context {RT : GoRuntime} {IDNA : Idna} {ED : Ed25519} `{BackupCrypto}.
(** The text decoders of [FromWgQuickWithUnknownEncoding], the catalog and the clock. *)
Context (decoders : list (gostring → option gostring)) (cat : catalog_state) (now : Z).

Fixpoint validate_profiles (l : list BackupProfile) (seen : gset gostring) : outcome unit :=
  match l with
  | [] => Ret tt
  | p :: l =>
      _ ← fail_if (negb (TunnelNameIsValid (bp_Name p)) || bool_decide (bp_Name p ∈ seen)) (err "некорректное или повторяющееся имя профиля");
      let seen := {[bp_Name p]} ∪ seen in
      _ ← fail_if (Z.of_nat (length (bp_Config p)) >? 1024 * 1024) (err "профиль превышает 1 МБ");
      _ ← map_error (WrapError (bp_Name p)) (FromWgQuickWithUnknownEncoding decoders (bp_Config p) (bp_Name p));
      _ ← map_error (WrapError (bp_Name p)) (Normalized cat now (bp_Settings p));
      validate_profiles l seen
  end.

Definition validateBackup (backup : Backup) : outcome unit :=
  _ ← fail_if (negb (b_Version backup =? 1) || (length (profiles backup) =? 0)%nat || (100 <? length (profiles backup))%nat)
        (err "некорректная версия или количество профилей");
  validate_profiles (profiles backup) ∅.

Definition EncryptBackup (backup : Backup) (password : gostring) : outcome gostring :=
  _ ← fail_if (length (runes password) <? 12)%nat (err "для резервной копии нужен пароль не короче 12 символов");
  _ ← validateBackup backup;
  let plain := Marshal (json_of_backup backup) in
  _ ← fail_if (Z.of_nat (length plain) >? backupLimit) (err "резервная копия превышает 16 МБ");
  salt ← rand_Read 16;
  key ← scrypt_Key password salt;
  nonce ← rand_Read 12;
  let header := backupMagic ++ salt ++ nonce in
  Ret (header ++ gcm_Seal key nonce plain header).

Definition dec_profile : decoder BackupProfile := dec_struct true [
  ("Name", in_field bp_Name dec_string); ("Config", in_field bp_Config dec_string); ("Settings", in_field bp_Settings (dec_settings true))].
Definition dec_backup : decoder Backup := dec_struct true [
  ("Version", in_field b_Version dec_int); ("CreatedAt", in_field b_CreatedAt dec_time);
  ("Profiles", in_field b_Profiles (dec_slice dec_profile (mkProfile [] [] zeroSettings)))].

Definition headerLen : nat := length backupMagic + 16 + 12.

(** What is done with the decrypted text. *)
Definition read_backup (plain : gostring) : outcome Backup :=
  backup ← map_error (λ _, err "некорректное содержимое резервной копии") (decodeStrictJSON dec_backup plain zeroBackup);
  _ ← validateBackup backup;
  Ret backup.

Definition DecryptBackup (data password : gostring) : outcome Backup :=
  _ ← fail_if ((length data <? headerLen + 16)%nat || (Z.of_nat (length data) >? backupLimit + Z.of_nat headerLen + 16)
               || negb (HasPrefix data backupMagic)) (err "неподдерживаемый или повреждённый архив Pinus");
  let salt := take 16 (drop (length backupMagic) data) in
  let nonce := take 12 (drop (length backupMagic + 16) data) in
  key ← scrypt_Key password salt;
  plain ← or_fail (gcm_Open key nonce (drop headerLen data) (take headerLen data)) (err "неверный пароль или повреждённый архив");
  read_backup plain.

(** ** What a backup guarantees *)

Record valid_backup (b : Backup) : Prop := {
  vb_version : b_Version b = 1;
  vb_count : (1 <= length (profiles b) <= 100)%nat;
  vb_names : NoDup (map bp_Name (profiles b));
  vb_profiles : Forall (λ p, TunnelNameIsValid (bp_Name p) = true ∧ Z.of_nat (length (bp_Config p)) <= 1024 * 1024 ∧
      is_ret (FromWgQuickWithUnknownEncoding decoders (bp_Config p) (bp_Name p)) = true ∧ is_ret (Normalized cat now (bp_Settings p)) = true) (profiles b) }.

Lemma validate_profiles_spec l : ∀ seen, validate_profiles l seen = Ret tt →
  NoDup (map bp_Name l) ∧ (∀ p, p ∈ l → bp_Name p ∉ seen) ∧
  Forall (λ p, TunnelNameIsValid (bp_Name p) = true ∧ Z.of_nat (length (bp_Config p)) <= 1024 * 1024 ∧
    is_ret (FromWgQuickWithUnknownEncoding decoders (bp_Config p) (bp_Name p)) = true ∧ is_ret (Normalized cat now (bp_Settings p)) = true) l.
Proof.
  induction l as [|p l IH]; intros seen; cbn [validate_profiles]; [intros _; split_and!; [constructor|by intros p ?%elem_of_nil|constructor]|].
  intros Hv. apply bind_ret in Hv as ([] & Hn%fail_if_ret & Hv). apply orb_false_iff in Hn as [Hn%negb_false_iff Hseen%bool_decide_eq_false].
  apply bind_ret in Hv as ([] & Hs%fail_if_ret & Hv). apply bind_ret in Hv as (c & Hc%map_error_ret & Hv). apply bind_ret in Hv as (n & Hset%map_error_ret & Hv).
  destruct (IH _ Hv) as (Hnd & Hns & Hf). rewrite Z.gtb_ltb in Hs. apply Z.ltb_ge in Hs. split_and!.
  - cbn. constructor; [|done]. intros (q & Hq & Hin)%list_elem_of_fmap. apply (Hns q Hin). rewrite <- Hq. set_solver.
  - intros q [->|Hq]%elem_of_cons; [done|]. pose proof (Hns q Hq). set_solver.
  - constructor; [|done]. by rewrite Hc, Hset.
Qed.

Lemma validateBackup_spec b : validateBackup b = Ret tt → valid_backup b.
Proof.
  unfold validateBackup. intros Hv. apply bind_ret in Hv as ([] & Hg%fail_if_ret & Hv). rewrite !orb_false_iff in Hg.
  destruct Hg as [[Hver%negb_false_iff%Z.eqb_eq H0%Nat.eqb_neq] H100%Nat.ltb_ge]. destruct (validate_profiles_spec _ _ Hv) as (Hn & _ & Hf).
  split; try done. lia.
Qed.

Context `{!BackupCryptoLaws}.

(** C24: Opening a backup with its password gives back exactly the text that was
    sealed: it is within the limits, and its parts are found where they were put. *)
Theorem backup_opens b password data : EncryptBackup b password = Ret data →
  valid_backup b ∧ DecryptBackup data password = read_backup (Marshal (json_of_backup b)).
Proof using All.
  unfold EncryptBackup. intros He. apply bind_ret in He as ([] & _ & He). apply bind_ret in He as ([] & Hv & He). split; [by apply validateBackup_spec|].
  apply bind_ret in He as ([] & Hl%fail_if_ret & He). apply bind_ret in He as (salt & Hsalt & He). apply bind_ret in He as (key & Hkey & He).
  apply bind_ret in He as (nonce & Hnonce & He). set (plain := Marshal (json_of_backup b)) in *. set (header := backupMagic ++ salt ++ nonce) in *.
  apply rand_length in Hsalt, Hnonce. assert (length header = headerLen) as Hh.
  { unfold header, headerLen. rewrite !length_app, Hsalt, Hnonce. lia. }
  assert (data = header ++ gcm_Seal key nonce plain header) as -> by congruence. clear He. unfold DecryptBackup.
  rewrite length_app, gcm_length, Hh. rewrite Z.gtb_ltb in Hl. apply Z.ltb_ge in Hl.
  assert (HasPrefix (header ++ gcm_Seal key nonce plain header) backupMagic = true) as Hp.
  { apply HasPrefix_spec. unfold header. rewrite <- app_assoc. eauto. }
  assert (((headerLen + (length plain + 16) <? headerLen + 16)%nat || (Z.of_nat (headerLen + (length plain + 16)) >? backupLimit + Z.of_nat headerLen + 16)
    || negb (HasPrefix (header ++ gcm_Seal key nonce plain header) backupMagic)) = false) as ->.
  { rewrite Hp, Z.gtb_ltb. rewrite (proj2 (Nat.ltb_ge _ _)) by lia. rewrite (proj2 (Z.ltb_ge _ _)) by lia. done. }
  cbn [fail_if mbind outcome_bind]. rewrite <- Hh. rewrite drop_app_length, take_app_length.
  assert (take 16 (drop (length backupMagic) (header ++ gcm_Seal key nonce plain header)) = salt) as ->.
  { unfold header. rewrite <- !app_assoc, drop_app_length. rewrite <- Hsalt. apply take_app_length. }
  assert (take 12 (drop (length backupMagic + 16) (header ++ gcm_Seal key nonce plain header)) = nonce) as ->.
  { unfold header. rewrite <- drop_drop, <- !app_assoc, drop_app_length. rewrite <- Hsalt, drop_app_length. rewrite <- Hnonce. apply take_app_length. }
  rewrite Hkey. cbn [mbind outcome_bind]. rewrite gcm_opens. done.
Qed.

(** Whatever is opened is a valid backup. *)
Theorem opened_backup_valid data password b : DecryptBackup data password = Ret b → valid_backup b.
Proof using Type.
  unfold DecryptBackup, read_backup. intros Hd. apply bind_ret in Hd as ([] & _ & Hd). apply bind_ret in Hd as (key & _ & Hd).
  apply bind_ret in Hd as (plain & _ & Hd). apply bind_ret in Hd as (b' & _ & Hd). apply bind_ret in Hd as ([] & Hv & [= <-]). by apply validateBackup_spec.
Qed.
End Backups.

(** ** A concrete backup *)

#[local] Existing Instance plain_runtime.
#[local] Instance backup_idna : Idna := λ s, Ret s.
#[local] Instance backup_ed : Ed25519 := λ _ _ _, false.
#[local] Instance toy_crypto : BackupCrypto := {|
  rand_Read n := Ret (replicate n x07); scrypt_Key password salt := Ret password;
  gcm_Seal key nonce plain ad := plain ++ replicate 16 x00;
  gcm_Open key nonce data ad := Some (take (length data - 16) data) |}.
#[local] Instance toy_crypto_laws : BackupCryptoLaws.
Proof.
  split; cbn.
  - intros n s [= <-]. apply length_replicate.
  - intros _ _ plain _. rewrite length_app. f_equal. cbn [length]. replace (length plain + 16 - 16)%nat with (length plain) by lia. apply take_app_length.
  - intros. by rewrite length_app.
Qed.

Definition backup_key : gostring := "yAnz5TF+lXXJte14tji3zlMNq+hd2rYUIgJBgB3fBmk=".
Definition backup_of (script : gostring) : Backup :=
  mkBackup 1 0 (Some [mkProfile "home" (Join ["[Interface]"; "PrivateKey = " ++ backup_key; "PostUp = echo " ++ script] [x0a])
    (zeroSettings <| Version := 5 |> <| SMode := ModeSelected |> <| SelectedApps := Some [] |>)]).
Definition backup_password : gostring := "correct horse battery".

Definition sealed (b : Backup) : gostring := match EncryptBackup [] serviceCatalogState 0 b backup_password with Ret d => d | _ => [] end.

Lemma backup_opens_witness : EncryptBackup [] serviceCatalogState 0 (backup_of "up") backup_password = Ret (sealed (backup_of "up")) ∧
  valid_backup [] serviceCatalogState 0 (backup_of "up") ∧
  DecryptBackup [] serviceCatalogState 0 (sealed (backup_of "up")) backup_password = Ret (backup_of "up").
Proof.
  assert (EncryptBackup [] serviceCatalogState 0 (backup_of "up") backup_password = Ret (sealed (backup_of "up"))) as He by (vm_compute; reflexivity).
  split; [exact He|]. destruct (backup_opens [] serviceCatalogState 0 _ _ _ He) as [Hv Hd]. split; [exact Hv|]. rewrite Hd. vm_compute. reflexivity.
Defined.

Lemma opened_backup_valid_witness : valid_backup [] serviceCatalogState 0 (backup_of "up").
Proof. apply (opened_backup_valid [] serviceCatalogState 0 (sealed (backup_of "up")) backup_password). vm_compute. reflexivity. Defined.

(** A profile that is not UTF-8 comes back changed. *)
Theorem backup_mangles_bytes :
  valid_backup [] serviceCatalogState 0 (backup_of [xe9]) ∧
  DecryptBackup [] serviceCatalogState 0 (sealed (backup_of [xe9])) backup_password = Ret (backup_of [xef; xbf; xbd]).
Proof. split; [apply validateBackup_spec; vm_compute; reflexivity|vm_compute; reflexivity]. Qed.
