(* ===== verification/ConfStore.v ===== *)
(** * The store of encrypted configurations ([core/conf]: store.go,
    filewriter_windows.go, migration_windows.go, path_windows.go)

    One file per tunnel in a protected directory, encrypted with DPAPI under the
    tunnel's name; a plain file that appears there is encrypted and removed.
    Disks and faults are those of GoOs.v. *)
From S2P Require Import Prelude GoStrings GoStrconv GoEncoding GoNet GoPath GoOs AwgValidation TunnelName Conf Parser Writer WinIp.

Local Open Scope Z_scope.

(** [conf/dpapi]: encryption under a label, with the key of the user. *)
Class Dpapi := {
  dpapi_Encrypt : gostring → gostring → outcome gostring;
  dpapi_Decrypt : gostring → gostring → outcome gostring;
}.

(** What was encrypted under a label can be decrypted under it. *)
Class DpapiLaws `{Dpapi} : Prop := {
  dpapi_reads data label enc : dpapi_Encrypt data label = Ret enc → dpapi_Decrypt enc label = Ret data }.

Definition configFileSuffix : gostring := ".conf.dpapi".
Definition configFileUnencryptedSuffix : gostring := ".conf".

(** ** The data directory ([path_windows.go]) *)

Definition protectedDataDirectorySDDL : gostring := "D:PAI(A;OICI;FA;;;SY)(A;OICI;FA;;;BA)".

(** The answers of the system for the directory; a [nat] numbers the tries. *)
Class DirectoryHost := {
  dh_ProgramFiles : outcome gostring;
  dh_create_root : option goerror;
  dh_create_data : nat → option goerror;
  dh_open_data : nat → option goerror;
  dh_attributes : outcome Z;
  dh_final_path : outcome gostring;
  dh_protect : gostring → option goerror;       (* SetKernelObjectSecurity *)
  dh_mkdir : gostring → option goerror;
}.

Definition FILE_ATTRIBUTE_DIRECTORY : Z := 0x10.
Definition FILE_ATTRIBUTE_REPARSE_POINT : Z := 0x400.

Record dir_state := mkDirs { cachedRootDir : gostring; cachedConfigFileDir : gostring }.

Section Directory.
Context {RT : GoRuntime} `{DirectoryHost}.

(** The loop over creation and opening, [tries] times at most; it goes on only
    when the directory disappears in between. *)
Fixpoint open_data (tries n : nat) : outcome unit :=
  match tries with
  | O => Panic
  | S tries =>
      match dh_create_data n with
      | Some e => if is_sys "ERROR_ALREADY_EXISTS" e then
                    match dh_open_data n with
                    | Some e => if is_sys "ERROR_FILE_NOT_FOUND" e then open_data tries (S n) else Fail e
                    | None => Ret tt
                    end
                  else Fail e
      | None => match dh_open_data n with
                | Some e => if is_sys "ERROR_FILE_NOT_FOUND" e then open_data tries (S n) else Fail e
                | None => Ret tt
                end
      end
  end.

Definition RootDirectory (tries : nat) (create : bool) (d : dir_state) : dir_state * outcome gostring :=
  match cachedRootDir d with
  | (_ :: _) as c => (d, Ret c)
  | [] =>
      match dh_ProgramFiles with
      | Ret pf =>
          let root := filepath_Join [pf; "Pinus Smart AWG Preview"] in
          let data := filepath_Join [root; "Data"] in
          if negb create then (d, Ret data)
          else
            match (_ ← match dh_create_root with Some e => if is_sys "ERROR_ALREADY_EXISTS" e then Ret tt else Fail e | None => Ret tt end;
                   _ ← open_data tries 0;
                   attributes ← dh_attributes;
                   _ ← fail_if (Z.land attributes FILE_ATTRIBUTE_DIRECTORY =? 0) (ErrorString "Data directory is actually a file");
                   _ ← fail_if (negb (Z.land attributes FILE_ATTRIBUTE_REPARSE_POINT =? 0)) (ErrorString "Data directory is reparse point");
                   final ← dh_final_path;
                   _ ← fail_if (negb (EqualFold ("\\?\" ++ data) final)) (ErrorString "Data directory jumped to unexpected location");
                   no_error (dh_protect protectedDataDirectorySDDL)) with
            | Ret _ => (mkDirs data (cachedConfigFileDir d), Ret data)
            | Fail e => (d, Fail e)
            | Panic => (d, Panic)
            end
      | Fail e => (d, Fail e)
      | Panic => (d, Panic)
      end
  end.

Definition tunnelConfigurationsDirectory (tries : nat) (d : dir_state) : dir_state * outcome gostring :=
  match cachedConfigFileDir d with
  | (_ :: _) as c => (d, Ret c)
  | [] =>
      match RootDirectory tries true d with
      | (d, Ret root) =>
          let c := filepath_Join [root; "Configurations"] in
          match dh_mkdir c with
          | Some e => if is_sys "ERROR_ALREADY_EXISTS" e then (mkDirs (cachedRootDir d) c, Ret c) else (d, Fail e)
          | None => (mkDirs (cachedRootDir d) c, Ret c)
          end
      | (d, Fail e) => (d, Fail e)
      | (d, Panic) => (d, Panic)
      end
  end.

(** The directory is used only when it is a real directory, in its place, and
    was just given the protected access list. *)
Theorem RootDirectory_checked tries d data : cachedRootDir d = [] → snd (RootDirectory tries true d) = Ret data →
  ∃ pf attributes final, dh_ProgramFiles = Ret pf ∧ data = filepath_Join [filepath_Join [pf; "Pinus Smart AWG Preview"]; "Data"] ∧
    dh_attributes = Ret attributes ∧ Z.land attributes FILE_ATTRIBUTE_DIRECTORY ≠ 0 ∧ Z.land attributes FILE_ATTRIBUTE_REPARSE_POINT = 0 ∧
    dh_final_path = Ret final ∧ EqualFold ("\\?\" ++ data) final = true ∧ dh_protect protectedDataDirectorySDDL = None ∧
    cachedRootDir (fst (RootDirectory tries true d)) = data.
Proof.
  intros Hd. unfold RootDirectory. rewrite Hd. destruct dh_ProgramFiles as [pf|e|]; [|done|done]. cbn [negb].
  destruct (_ ← match dh_create_root with Some e => _ | None => _ end; _) as [u|e|] eqn:Er; [|done|done]. intros [= <-].
  apply bind_ret in Er as ([] & _ & Er). apply bind_ret in Er as ([] & _ & Er). apply bind_ret in Er as (attributes & Ha & Er).
  apply bind_ret in Er as ([] & Hdir%fail_if_ret%Z.eqb_neq & Er). apply bind_ret in Er as ([] & Hrp%fail_if_ret%negb_false_iff%Z.eqb_eq & Er).
  apply bind_ret in Er as (final & Hf & Er). apply bind_ret in Er as ([] & He%fail_if_ret%negb_false_iff & Er).
  exists pf, attributes, final. split_and!; try done. destruct (dh_protect _); [done|done].
Qed.
End Directory.

(** ** Files ([filewriter_windows.go]) *)

Class StoreHost := {
  random_name : nat → gostring;                 (* randomFileName, in the working directory *)
  st_utf16 : gostring → option goerror;         (* a name with a NUL is refused *)
  path_fits : gostring → bool;                  (* at most MAX_PATH units *)
  st_ReadDir : gostring → files_t → list gostring;
  st_regular : gostring → bool;
  st_readable : gostring → bool;
  st_decoders : list (gostring → option gostring);
  config_dir : outcome gostring;                (* tunnelConfigurationsDirectory *)
}.

Section Files.
Context {FT : Faults} `{StoreHost}.

Definition CreateAlways (path : gostring) : IO unit := call (λ fs, (<[path := []]> fs, Ret tt)) unchanged.

Definition RenameTo (a b : gostring) (replace : bool) : IO unit :=
  call (λ fs, match fs !! a with
              | Some d => match fs !! b, replace with
                          | Some _, false => (fs, Fail (ErrorString "ERROR_ALREADY_EXISTS"))
                          | _, _ => (<[b := d]> (delete a fs), Ret tt)
                          end
              | None => (fs, Fail ErrNotExist)
              end) unchanged.

Definition writeLockedDownFile (destination : gostring) (overwrite : bool) (contents : gostring) : IO unit := λ s,
  match st_utf16 destination with
  | Some e => (s, Fail e)
  | None =>
      let tmp := random_name (calls s) in
      (CreateAlways tmp ;;
       let! r := attempt (WriteFileHandle tmp contents) in
       match r with
       | Fail e => ignore_error (Remove tmp) ;; io_fail e
       | Panic => io_lift Panic
       | Ret _ =>
           if negb (path_fits destination) then ignore_error (Remove tmp) ;; io_fail (ErrorString "ERROR_BUFFER_OVERFLOW")
           else
             let! r := attempt (RenameTo tmp destination overwrite) in
             match r with
             | Fail e => ignore_error (Remove tmp) ;; io_fail e
             | r => io_lift r
             end
       end) s
  end.
End Files.

(** ** The store ([store.go]) *)

Section Store.
Context {RT : GoRuntime} {FT : Faults} `{StoreHost} `{Dpapi}.

Definition has_name_suffix (name suffix : gostring) : bool := (length suffix <? length name)%nat && HasSuffix name suffix.
Definition trim_suffix (s suffix : gostring) : gostring := if HasSuffix s suffix then take (length s - length suffix) s else s.

Definition NameFromPath (path : gostring) : outcome gostring :=
  let name := Base path in
  if negb (has_name_suffix name configFileSuffix || has_name_suffix name configFileUnencryptedSuffix)
  then Fail (ErrorString "Path must end in either .conf.dpapi or .conf")
  else
    let name := if HasSuffix path configFileSuffix then trim_suffix name configFileSuffix else trim_suffix name configFileUnencryptedSuffix in
    if negb (TunnelNameIsValid name) then Fail (ErrorString "Tunnel name is not valid") else Ret name.

Definition PathIsEncrypted (path : gostring) : bool := HasSuffix (Base path) configFileSuffix.

Definition config_path (dir name : gostring) : gostring := filepath_Join [dir; name ++ configFileSuffix].

Definition LoadFromPath (path : gostring) : IO Config :=
  let! name := io_lift (NameFromPath path) in
  let! bytes := ReadFile path in
  let! bytes := (if HasSuffix path configFileSuffix then io_lift (dpapi_Decrypt bytes name) else io_ret bytes) in
  io_lift (FromWgQuickWithUnknownEncoding st_decoders bytes name).

Definition LoadFromName (name : gostring) : IO Config :=
  let! configFileDir := io_lift config_dir in LoadFromPath (config_path configFileDir name).

Definition Save (overwrite : bool) (config : Config) : IO unit :=
  if negb (TunnelNameIsValid (Name config)) then io_fail (ErrorString "Tunnel name is not valid")
  else
    let! configFileDir := io_lift config_dir in
    let! bytes := io_lift (dpapi_Encrypt (ToWgQuick config) (Name config)) in
    writeLockedDownFile (config_path configFileDir (Name config)) overwrite bytes.

Definition Config_Path (config : Config) : outcome gostring :=
  if negb (TunnelNameIsValid (Name config)) then Fail (ErrorString "Tunnel name is not valid")
  else dir ← config_dir; Ret (config_path dir (Name config)).

Definition DeleteName (name : gostring) : IO unit :=
  if negb (TunnelNameIsValid name) then io_fail (ErrorString "Tunnel name is not valid")
  else let! configFileDir := io_lift config_dir in Remove (config_path configFileDir name).

Definition ReadDir (dir : gostring) : IO (list gostring) := call (λ fs, (fs, Ret (st_ReadDir dir fs))) unchanged.

Definition ListConfigNames : IO (list gostring) :=
  let! configFileDir := io_lift config_dir in
  let! files := ReadDir configFileDir in
  io_ret (List.filter TunnelNameIsValid
    (map (λ file, trim_suffix (Base file) configFileSuffix)
      (List.filter (λ file, has_name_suffix (Base file) configFileSuffix && st_regular file && st_readable file) files))).

(** ** Plain files ([migration_windows.go]) *)

(** What became of a file: left alone, in use by another process, moved into the
    store, or an error that is logged. *)
Inductive migration := Ignored | InUse | Migrated (name oldPath newPath : gostring) | MigrationFailed (e : goerror).

(** [os.OpenFile] with O_RDWR and [io.ReadAll]. *)
Definition OpenRDWR (path : gostring) : IO gostring :=
  call (λ fs, (fs, or_fail (fs !! path) ErrNotExist)) unchanged.

Definition migrate_file (dir file : gostring) : IO migration :=
  let path := filepath_Join [dir; file] in
  let name := Base file in
  if negb (has_name_suffix name configFileUnencryptedSuffix && st_regular file && st_readable file) then io_ret Ignored
  else
    let! opened := attempt (OpenRDWR path) in
    match opened with
    | Fail e => io_ret (if is_sys "ERROR_SHARING_VIOLATION" e then InUse else MigrationFailed e)
    | Panic => io_lift Panic
    | Ret bytes =>
        let! r := attempt (
          let! config := io_lift (FromWgQuickWithUnknownEncoding st_decoders bytes (trim_suffix name configFileUnencryptedSuffix)) in
          Save false config ;;
          Remove path ;;
          let! newPath := io_lift (Config_Path config) in
          io_ret (Name config, newPath)) in
        match r with
        | Ret (name, newPath) => io_ret (Migrated name path newPath)
        | Fail e => io_ret (MigrationFailed e)
        | Panic => io_lift Panic
        end
    end.

(** The loop, with whether a retry was scheduled; at base 0 a file in use is an
    error. *)
Fixpoint migrate_files (dir : gostring) (sharingBase : Z) (files : list gostring) (ignoreSharing : bool) : IO (list migration * bool) :=
  match files with
  | [] => io_ret ([], ignoreSharing)
  | file :: files =>
      let! m := migrate_file dir file in
      let retry := match m with InUse => negb ignoreSharing && (sharingBase >? 0) | _ => false end in
      let! rest := migrate_files dir sharingBase files (ignoreSharing || retry) in
      io_ret (m :: fst rest, snd rest)
  end.

(** The callbacks of the run and, when files were in use, the delay of the next
    run in nanoseconds and its base. *)
Definition migrateUnencryptedConfigs (sharingBase : Z) : IO (list (gostring * gostring * gostring) * option (Z * Z)) :=
  let! dir := attempt (io_lift config_dir) in
  match dir with
  | Ret dir =>
      let! files := attempt (ReadDir dir) in
      match files with
      | Ret files =>
          let! r := migrate_files dir sharingBase files false in
          let moved := omap (λ m, match m with Migrated n o p => Some (n, o, p) | _ => None end) (fst r) in
          io_ret (moved, if snd r : bool then Some (10 ^ 9 / (sharingBase * sharingBase), sharingBase - 1) else None)
      | _ => io_ret ([], None)
      end
  | _ => io_ret ([], None)
  end.
End Store.

(** ** The store: theorems

    What is saved is loaded back; moving a plain file into the store never loses
    the profile, whatever call fails and wherever the process is killed; no
    stored profile is overwritten by it. *)
From S2P Require Import RoundTrip ConfTheorems SmartRules SmartCatalog SmartSettings SmartUpdate SmartStore SmartStoreFacts.

Local Open Scope Z_scope.

Section Files.
Context {FT : Faults} `{StoreHost}.
#[local] Set Default Proof Using "Type".

Lemma keeps_always (P : files_t → Prop) path : (∀ fs, P fs → P (<[path := []]> fs)) → keeps P (CreateAlways path).
Proof. intros Hp. by apply keeps_call. Qed.

Lemma keeps_rename_to p v a b r : a ≠ p → b ≠ p → keeps (holds p v) (RenameTo a b r).
Proof.
  intros Ha Hb. apply keeps_call; [|done]. intros fs Hf. destruct (fs !! a); [|done]. cbn. destruct (fs !! b), r; try done; by apply holds_insert, holds_delete.
Qed.

(** Another file is left alone. *)
Lemma keeps_writeLocked p v destination overwrite contents : destination ≠ p → (∀ n, random_name n ≠ p) →
  keeps (holds p v) (writeLockedDownFile destination overwrite contents).
Proof.
  intros Hd Hr s Hs. unfold writeLockedDownFile. destruct (st_utf16 destination); [by apply went_through_refl|]. set (tmp := random_name (calls s)). assert (tmp ≠ p) as Ht by apply Hr.
  assert (keeps (holds p v) (ignore_error (Remove tmp))) as Hrm by by apply io_keeps_ignore, keeps_remove.
  apply io_keeps_bind; [apply keeps_always; intros fs; apply holds_insert, Ht| |done]. intros _ _ _.
  apply io_keeps_bind; [by apply io_keeps_attempt, keeps_write|]. intros _ [[]|e|] _; [| |apply keeps_pure].
  - destruct (negb _); [apply io_keeps_bind; [done|]; intros; apply io_keeps_fail|].
    apply io_keeps_bind; [by apply io_keeps_attempt, keeps_rename_to|]. intros _ [[]|e|] _; [apply keeps_pure| |apply keeps_pure].
    apply io_keeps_bind; [done|]. intros. apply io_keeps_fail.
  - apply io_keeps_bind; [done|]. intros. apply io_keeps_fail.
Qed.

(** A stored file is not overwritten. *)
Lemma keeps_writeLocked_existing destination old contents : (∀ n, random_name n ≠ destination) →
  keeps (holds destination (Some old)) (writeLockedDownFile destination false contents).
Proof.
  intros Hr s Hs. unfold writeLockedDownFile. destruct (st_utf16 destination); [by apply went_through_refl|]. set (tmp := random_name (calls s)). assert (tmp ≠ destination) as Ht by apply Hr.
  assert (keeps (holds destination (Some old)) (ignore_error (Remove tmp))) as Hrm by by apply io_keeps_ignore, keeps_remove.
  apply io_keeps_bind; [apply keeps_always; intros fs; apply holds_insert, Ht| |done]. intros _ _ _.
  apply io_keeps_bind; [by apply io_keeps_attempt, keeps_write|]. intros _ [[]|e|] _; [| |apply keeps_pure].
  - destruct (negb _); [apply io_keeps_bind; [done|]; intros; apply io_keeps_fail|].
    apply io_keeps_bind; [apply io_keeps_attempt, keeps_call; [|done]; intros fs Hf; destruct (fs !! tmp); [|done]; unfold holds in Hf |- *; by rewrite Hf|].
    intros _ [[]|e|] _; [apply keeps_pure| |apply keeps_pure]. apply io_keeps_bind; [done|]. intros. apply io_keeps_fail.
  - apply io_keeps_bind; [done|]. intros. apply io_keeps_fail.
Qed.

Lemma attempt_snd {A} (m : IO A) s r : snd (attempt m s) = Ret r → snd (m s) = r ∧ fst (attempt m s) = fst (m s).
Proof. unfold attempt. destruct (m s) as [s' [a|e|]]; cbn; intros [= <-]; done. Qed.

(** A write that succeeds is complete. *)
Lemma writeLocked_ret destination overwrite contents s : (∀ n, random_name n ≠ destination) →
  snd (writeLockedDownFile destination overwrite contents s) = Ret tt →
  files (fst (writeLockedDownFile destination overwrite contents s)) !! destination = Some contents.
Proof.
  intros Hr. unfold writeLockedDownFile. destruct (st_utf16 destination); [done|]. set (tmp := random_name (calls s)). intros Hw.
  apply io_bind_ret in Hw as ([] & _ & Hw & ->). apply io_bind_ret in Hw as (r & Hr1 & Hw & ->). apply attempt_snd in Hr1 as [Hr1 Hf1]. rewrite Hf1 in Hw |- *.
  destruct r as [[]|e|]; [| |done].
  - apply call_ret in Hr1 as [Hfiles _]. fold (WriteFileHandle tmp contents) in Hfiles. set (s2 := fst (WriteFileHandle tmp contents _)) in *.
    destruct (negb _); [apply io_bind_ret in Hw as (? & _ & Hw & _); done|]. apply io_bind_ret in Hw as (r & Hr2 & Hw & ->). apply attempt_snd in Hr2 as [Hr2 Hf2].
    rewrite Hf2 in Hw |- *. destruct r as [[]|e|]; [|apply io_bind_ret in Hw as (? & _ & Hw & _); done|done].
    apply call_ret in Hr2 as [Hf3 Hr3]. cbn [io_lift fst]. fold (RenameTo tmp destination overwrite) in Hf3. rewrite Hf3. clear Hf3.
    assert (files s2 !! tmp = Some contents) as Ht by (rewrite Hfiles; cbn; unfold files_t in *; by rewrite lookup_insert_eq). rewrite Ht in Hr3 |- *.
    destruct (files s2 !! destination) eqn:Ed, overwrite; cbn in Hr3 |- *; try done; unfold files_t in *; by rewrite lookup_insert_eq.
  - apply io_bind_ret in Hw as (? & _ & Hw & _). done.
Qed.
End Files.

Section Store.
Context {RT : GoRuntime} {FT : Faults} `{StoreHost} `{Dpapi}.
#[local] Set Default Proof Using "Type".

Lemma try_decoders_name decoders s name : ∀ e c, try_decoders decoders s name e = Ret c → Name c = name.
Proof.
  induction decoders as [|d decoders IH]; intros e c; cbn [try_decoders]; [done|]. destruct (d s) as [t|]; [|apply IH].
  destruct (FromWgQuick t name) as [c'|e'|] eqn:Ef; [|apply IH|done]. intros [= <-]. by destruct (FromWgQuick_accepted _ _ _ Ef) as [[Hn _] _ _ _ _].
Qed.

Lemma try_decoders_text decoders s name : ∀ e c, try_decoders decoders s name e = Ret c → ∃ t, FromWgQuick t name = Ret c.
Proof.
  induction decoders as [|d decoders IH]; intros e c; cbn [try_decoders]; [done|]. destruct (d s) as [t|]; [|apply IH].
  destruct (FromWgQuick t name) as [c'|e'|] eqn:Ef; [|apply IH|done]. intros [= <-]. by exists t.
Qed.

(** Whatever the encoding, the profile is read from some text. *)
Lemma UnknownEncoding_text decoders s name c : FromWgQuickWithUnknownEncoding decoders s name = Ret c → ∃ t, FromWgQuick t name = Ret c.
Proof.
  unfold FromWgQuickWithUnknownEncoding. destruct (FromWgQuick s name) as [c'|e|] eqn:Ef; [|apply try_decoders_text|done].
  intros [= <-]. by exists s.
Qed.

Lemma UnknownEncoding_name decoders s name c : FromWgQuickWithUnknownEncoding decoders s name = Ret c → Name c = name.
Proof.
  unfold FromWgQuickWithUnknownEncoding. destruct (FromWgQuick s name) as [c'|e|] eqn:Ef; [|apply try_decoders_name|done].
  intros [= <-]. by destruct (FromWgQuick_accepted _ _ _ Ef) as [[Hn _] _ _ _ _].
Qed.

Lemma keeps_Save p v overwrite c dir : config_dir = Ret dir → config_path dir (Name c) ≠ p → (∀ n, random_name n ≠ p) → keeps (holds p v) (Save overwrite c).
Proof.
  intros Hdir Hp Hr. unfold Save. destruct (negb _); [apply io_keeps_fail|]. apply io_keeps_bind; [apply keeps_pure|]. intros s d Hd. cbn in Hd. rewrite Hdir in Hd.
  injection Hd as <-. apply io_keeps_bind; [apply keeps_pure|]. intros _ bytes _. by apply keeps_writeLocked.
Qed.

Lemma Save_ret overwrite c dir s : config_dir = Ret dir → (∀ n, random_name n ≠ config_path dir (Name c)) → snd (Save overwrite c s) = Ret tt →
  ∃ enc, dpapi_Encrypt (ToWgQuick c) (Name c) = Ret enc ∧ files (fst (Save overwrite c s)) !! config_path dir (Name c) = Some enc.
Proof.
  intros Hdir Hr. unfold Save. destruct (negb _); [done|]. intros Hs. apply io_bind_ret in Hs as (d & Hd & Hs & ->). cbn [io_lift fst snd] in Hd, Hs |- *. rewrite Hdir in Hd. injection Hd as <-.
  apply io_bind_ret in Hs as (enc & He & Hs & ->). cbn [io_lift fst snd] in He, Hs |- *. exists enc. split; [done|]. by apply writeLocked_ret.
Qed.

Context `{!DpapiLaws}.

(** A configuration that was read and saved is loaded back as it was. *)
Theorem saved_profile_loads overwrite text name c dir s s' : config_dir = Ret dir → (∀ n, random_name n ≠ config_path dir name) →
  NameFromPath (config_path dir name) = Ret name → HasSuffix (config_path dir name) configFileSuffix = true →
  FromWgQuick text name = Ret c → Forall (λ p, endpoint_printable (PeerEndpoint p) = true) (Peers c) →
  Save overwrite c s = (s', Ret tt) → (∀ k, (calls s' ≤ k)%nat → fault k = None) →
  snd (LoadFromName name s') = Ret (normalize c) ∧ files (fst (LoadFromName name s')) = files s'.
Proof using All.
  intros Hdir Hr Hn Hsuf Hc Hp Hs Hf. destruct (FromWgQuick_accepted _ _ _ Hc) as [[Hname _] _ _ _ _].
  destruct (Save_ret overwrite c dir s Hdir) as (enc & He & Hfile); [by rewrite Hname|by rewrite Hs|]. rewrite Hs, Hname in Hfile. cbn in Hfile.
  unfold LoadFromName, LoadFromPath, io_bind, io_lift, ReadFile, call. rewrite Hdir, Hn. rewrite (Hf (calls s')) by lia. rewrite Hfile. cbn [or_fail]. rewrite Hsuf.
  rewrite Hname in He. rewrite (dpapi_reads _ _ _ He). unfold FromWgQuickWithUnknownEncoding. rewrite (written_config_reads _ _ _ Hc Hp). done.
Qed.

(** ** Moving plain files into the store *)

(** On these files, the store gives [c] for the tunnel, when nothing fails. *)
Definition store_gives (name : gostring) (c : Config) (fs : files_t) : Prop :=
  snd (LoadFromName (FT := no_faults) name (mkIO fs 0 [])) = Ret c.

(** The plain file is there, or the profile it holds can be loaded from the store. *)
Definition profile_kept (path name text : gostring) (fs : files_t) : Prop :=
  fs !! path = Some text ∨
  ∃ c, FromWgQuickWithUnknownEncoding st_decoders text name = Ret c ∧ store_gives name (normalize c) fs.

(** The file that [Save] writes is one the store gives the profile from. *)
Lemma saved_gives dir text name c enc fs : config_dir = Ret dir →
  NameFromPath (config_path dir name) = Ret name → HasSuffix (config_path dir name) configFileSuffix = true →
  FromWgQuickWithUnknownEncoding st_decoders text name = Ret c → Forall (λ p, endpoint_printable (PeerEndpoint p) = true) (Peers c) →
  dpapi_Encrypt (ToWgQuick c) name = Ret enc → fs !! config_path dir name = Some enc → store_gives name (normalize c) fs.
Proof using All.
  intros Hdir Hn Hsuf [t Hc]%UnknownEncoding_text Hp He Hf.
  unfold store_gives, LoadFromName, LoadFromPath, io_bind, io_lift, ReadFile, call. rewrite Hdir, Hn. cbn [fault no_faults files].
  rewrite Hf. cbn [or_fail]. rewrite Hsuf, (dpapi_reads _ _ _ He). unfold FromWgQuickWithUnknownEncoding.
  by rewrite (written_config_reads _ _ _ Hc Hp).
Qed.

Lemma OpenRDWR_text path text s bytes : files s !! path = Some text → snd (OpenRDWR path s) = Ret bytes → bytes = text ∧ files (fst (OpenRDWR path s)) = files s.
Proof. intros Hp. unfold OpenRDWR, call. destruct (fault (calls s)); cbn; [done|]. rewrite Hp. cbn. intros [= <-]. done. Qed.

(** C12: while [migrate_file] moves a plain file into the store, whatever call
    fails and wherever the process is killed between two calls, the profile is
    not lost: the plain file is still there, unchanged, or [LoadFromName] gives
    the profile back from the store (normalised: [normalize]); and a profile the
    store already has for the name is left as it is.  Conditions: the endpoints
    of the profile can be printed so that they read again (the others are lost,
    theorem [migration_loses_unprintable]); the random names of the temporary
    files are not those of the two files; the path of the store's file gives the
    tunnel's name; what DPAPI encrypted it decrypts.  A finished write is taken
    to survive, as it does when only the process dies: the code does not flush
    the file before the plain one is removed, so a power failure is not covered. *)
Theorem migration_never_loses dir file text s : let path := filepath_Join [dir; file] in let name := trim_suffix (Base file) configFileUnencryptedSuffix in
  let dest := config_path dir name in
  config_dir = Ret dir → NameFromPath dest = Ret name → HasSuffix dest configFileSuffix = true →
  (∀ n, random_name n ≠ path) → (∀ n, random_name n ≠ dest) → dest ≠ path → files s !! path = Some text →
  (∀ c, FromWgQuickWithUnknownEncoding st_decoders text name = Ret c → Forall (λ p, endpoint_printable (PeerEndpoint p) = true) (Peers c)) →
  let s' := fst (migrate_file dir file s) in
  went_through (profile_kept path name text) s s' ∧ ∀ old, files s !! dest = Some old → went_through (holds dest (Some old)) s s'.
Proof using All.
  intros path name dest Hdir Hnm Hsuf Hr1 Hr2 Hne Hp Hprint. unfold migrate_file. fold path name. cbn zeta.
  assert (∀ fs, holds path (Some text) fs → profile_kept path name text fs) as Himp by (intros fs Hf; by left).
  destruct (negb _).
  { split; [apply went_through_refl; by left|]. intros old Ho. by apply went_through_refl. }
  assert (∀ P s0, P (files s0) → went_through P s0 (fst (OpenRDWR path s0))) as Hopen by (intros P s0 Hs0; by apply keeps_call).
  split.
  - apply went_bind; [apply went_attempt, Hopen; by left|]. intros opened Ho. apply attempt_snd in Ho as [Ho Hfo]. rewrite Hfo. set (s1 := fst (OpenRDWR path s)) in *.
    destruct opened as [bytes|e|]; [|apply went_through_refl; eapply went_end, Hopen; by left..].
    destruct (OpenRDWR_text _ _ _ _ Hp Ho) as [-> Hs1]. fold s1 in Hs1. assert (holds path (Some text) (files s1)) as Hp1 by by rewrite Hs1.
    match goal with |- context [attempt ?m] => set (inner := m) end.
    assert (went_through (profile_kept path name text) s1 (fst (inner s1))) as Hw.
    { apply went_bind; [by apply went_through_refl, Himp|]. intros c Hc. cbn in Hc |- *. pose proof (UnknownEncoding_name _ _ _ _ Hc) as Hname.
      assert (went_through (holds path (Some text)) s1 (fst (Save false c s1))) as Hsave.
      { apply (keeps_Save path (Some text) false c dir); try done. by rewrite Hname. }
      apply went_bind; [by eapply went_through_mono|]. intros [] Hs. destruct (Save_ret false c dir s1 Hdir) as (enc & He & Hf); [by rewrite Hname|done|]. rewrite Hname in He, Hf.
      set (s2 := fst (Save false c s1)) in *. assert (∀ fs, holds dest (Some enc) fs → profile_kept path name text fs) as Himp2 by (intros fs Hfs; right; exists c; split; [done|]; by eapply saved_gives; [..|apply He|]; auto).
      assert (went_through (holds dest (Some enc)) s2 (fst (Remove path s2))) as Hrm by by apply keeps_remove.
      apply went_bind; [by eapply went_through_mono|]. intros [] _.
      apply went_bind; [apply went_through_refl, Himp2; by eapply went_end|]. intros newPath _. apply went_through_refl, Himp2. by eapply went_end. }
    apply went_bind; [by apply went_attempt|]. intros r Hr. apply attempt_snd in Hr as [_ Hfr]. rewrite Hfr.
    destruct r as [[n p]|e|]; apply went_through_refl; by eapply went_end.
  - intros old Hold. assert (keeps (holds dest (Some old)) (OpenRDWR path)) as Ko by by apply keeps_call.
    assert (keeps (holds dest (Some old)) (Remove path)) as Kr by by apply keeps_remove.
    revert s Hp Hold. enough (keeps (holds dest (Some old)) (
      let! opened := attempt (OpenRDWR path) in
      match opened with
      | Fail e => io_ret (if is_sys "ERROR_SHARING_VIOLATION" e then InUse else MigrationFailed e)
      | Panic => io_lift Panic
      | Ret bytes =>
          let! r := attempt (
            let! config := io_lift (FromWgQuickWithUnknownEncoding st_decoders bytes name) in
            Save false config ;; Remove path ;;
            let! newPath := io_lift (Config_Path config) in io_ret (Name config, newPath)) in
          match r with
          | Ret (name, newPath) => io_ret (Migrated name path newPath)
          | Fail e => io_ret (MigrationFailed e)
          | Panic => io_lift Panic
          end
      end)) as Hk by (intros s _ Hold; exact (Hk s Hold)).
    apply io_keeps_bind; [by apply io_keeps_attempt|]. intros _ [bytes|e|] _; [|apply io_keeps_ret|apply keeps_pure].
    apply io_keeps_bind; [apply io_keeps_attempt|intros _ [[n p]|e|] _; [apply io_keeps_ret|apply io_keeps_ret|apply keeps_pure]].
    apply io_keeps_bind; [apply keeps_pure|]. intros s c Hc. cbn in Hc. pose proof (UnknownEncoding_name _ _ _ _ Hc) as Hname.
    apply io_keeps_bind; [|intros; apply io_keeps_bind; [done|]; intros; apply io_keeps_bind; [apply keeps_pure|]; intros; apply io_keeps_ret].
    unfold Save. destruct (negb _); [apply io_keeps_fail|]. apply io_keeps_bind; [apply keeps_pure|]. intros s' d Hd. cbn in Hd. rewrite Hdir in Hd. injection Hd as <-.
    apply io_keeps_bind; [apply keeps_pure|]. intros _ enc _. rewrite Hname. by apply keeps_writeLocked_existing.
Qed.
End Store.

(** ** A concrete store *)

#[local] Existing Instance plain_runtime.
#[local] Existing Instance no_faults.
#[local] Instance toy_dpapi : Dpapi := {| dpapi_Encrypt data label := Ret (label ++ data); dpapi_Decrypt data label := Ret (drop (length label) data) |}.
#[local] Instance toy_dpapi_laws : DpapiLaws.
Proof. split. intros data label enc [= <-]. cbn. by rewrite drop_app_length. Qed.
#[local] Instance toy_store : StoreHost := {|
  random_name n := Itoa (Z.of_nat n) ++ ".tmp"; st_utf16 _ := None; path_fits _ := true; st_ReadDir _ _ := [];
  st_regular _ := true; st_readable _ := true; st_decoders := []; config_dir := Ret "C:\Data\Configurations" |}.

Lemma tmp_not_conf (s : gostring) n : last s = Some "f"%byte ∨ last s = Some "i"%byte → random_name n ≠ s.
Proof. intros Hs <-. cbn in Hs. rewrite last_app in Hs. cbn in Hs. by destruct Hs. Qed.

Definition plain_disk (endpoint : gostring) : io := mkIO {["C:\Data\Configurations\home.conf" := sample_text endpoint]} 0 [].
Definition migrated_disk (endpoint : gostring) : io := fst (migrate_file "C:\Data\Configurations" "home.conf" (plain_disk endpoint)).
Definition saved_store : io := fst (Save false (sample_conf "example.org:51820") (mkIO ∅ 0 [])).

Lemma sample_saves : Save false (sample_conf "example.org:51820") (mkIO ∅ 0 []) = (saved_store, Ret tt).
Proof.
  assert (snd (Save false (sample_conf "example.org:51820") (mkIO ∅ 0 [])) = Ret tt) as Hr by (vm_compute; reflexivity).
  unfold saved_store. rewrite <- Hr. apply surjective_pairing.
Qed.

Lemma saved_profile_loads_witness :
  snd (LoadFromName "home" saved_store) = Ret (normalize (sample_conf "example.org:51820")) ∧ files (fst (LoadFromName "home" saved_store)) = files saved_store.
Proof.
  apply (saved_profile_loads false (sample_text "example.org:51820") "home" (sample_conf "example.org:51820") "C:\Data\Configurations" (mkIO ∅ 0 [])).
  - reflexivity.
  - intros n. apply tmp_not_conf. right. vm_compute. reflexivity.
  - vm_compute. reflexivity.
  - vm_compute. reflexivity.
  - vm_compute. reflexivity.
  - apply List.Forall_forall, forallb_forall. vm_compute. reflexivity.
  - exact sample_saves.
  - intros k _. reflexivity.
Defined.

Lemma migration_never_loses_witness :
  went_through (profile_kept "C:\Data\Configurations\home.conf" "home" (sample_text "example.org:51820"))
    (plain_disk "example.org:51820") (migrated_disk "example.org:51820") ∧
  files (migrated_disk "example.org:51820") !! ("C:\Data\Configurations\home.conf" : gostring) = None.
Proof.
  split; [|vm_compute; reflexivity].
  assert (E : FromWgQuickWithUnknownEncoding st_decoders (sample_text "example.org:51820") "home" = Ret (sample_conf "example.org:51820")) by (vm_compute; reflexivity).
  assert (Hinj : ∀ A (a b : A), Ret a = Ret b → a = b) by (by intros A a b [= ->]).
  apply (migration_never_loses "C:\Data\Configurations" "home.conf" (sample_text "example.org:51820") (plain_disk "example.org:51820")).
  - reflexivity.
  - vm_compute. reflexivity.
  - vm_compute. reflexivity.
  - intros n. apply tmp_not_conf. left. vm_compute. reflexivity.
  - intros n. apply tmp_not_conf. right. vm_compute. reflexivity.
  - vm_compute. discriminate.
  - vm_compute. reflexivity.
  - intros c Hc. change (FromWgQuickWithUnknownEncoding st_decoders (sample_text "example.org:51820") "home" = Ret c) in Hc.
    rewrite <- (Hinj _ _ _ (eq_trans (eq_sym E) Hc)). apply List.Forall_forall, forallb_forall. vm_compute. reflexivity.
Defined.

(** ** What goes wrong *)

(** A plain profile whose endpoint reads but cannot be printed so that it reads
    again is moved into the store and removed, and the store cannot give it back. *)
Theorem migration_loses_unprintable :
  is_ret (FromWgQuick (sample_text "::80") "home") = true ∧
  files (migrated_disk "::80") !! ("C:\Data\Configurations\home.conf" : gostring) = None ∧
  is_ret (snd (LoadFromName "home" (migrated_disk "::80"))) = false.
Proof. split_and!; vm_compute; reflexivity. Qed.
