(* ===== verification/SmartPending.v ===== *)
(** * Profiles waiting for the manager ([client/smart/pending_profile.go])

    An edited profile the manager could not take yet is kept, encrypted for the
    user, in a file of its own.  DPAPI is [Class Dpapi] of ConfStore.v. *)
From S2P Require Import Prelude GoStrings GoStrconv GoEncoding GoNet GoPath GoOs GoJson JsonFacts AwgValidation TunnelName Conf Parser Writer RoundTrip ConfTheorems SmartRules SmartCatalog SmartSettings SmartUpdate SmartStore SmartStoreFacts SmartStoreTheorems ConfStore.

Local Open Scope Z_scope.

Record pendingProfile := mkPending { pending_Name : gostring; pending_Config : gostring }.
Definition eta_pending (p : pendingProfile) : pendingProfile := mkPending (pending_Name p) (pending_Config p).
#[export] Instance set_pending_Name : Setter pending_Name := ltac:(derive_setter eta_pending pending_Name).
#[export] Instance set_pending_Config : Setter pending_Config := ltac:(derive_setter eta_pending pending_Config).

Definition json_of_pending (p : pendingProfile) : json := JObj [("Name", JStr (pending_Name p)); ("Config", JStr (pending_Config p))].

Section Pending.
Context {RT : GoRuntime} {IDNA : Idna} {ED : Ed25519} {FT : Faults} {PT : Paths} `{Dpapi}.

Definition pendingProfilePath (name : gostring) : gostring :=
  filepath_Join [UserSettingsDir; SafeTunnelFileStem name ++ ".pending.dpapi"].

Definition pending_label (original : gostring) : gostring := "PinusPreview.Pending:" ++ original.

(** [None] is a nil configuration. *)
Definition SavePendingProfile (original : gostring) (config : option Config) : IO unit :=
  match config with
  | Some config =>
      if negb (TunnelNameIsValid original) || negb (TunnelNameIsValid (Name config)) then io_fail (err "некорректный профиль")
      else
        let raw := Marshal (json_of_pending (mkPending (Name config) (ToWgQuick config))) in
        let! encrypted := io_lift (dpapi_Encrypt raw (pending_label original)) in
        writeAtomic (pendingProfilePath original) encrypted
  | None => io_fail (err "некорректный профиль")
  end.

Definition dec_pending : decoder pendingProfile := dec_struct false [
  ("Name", in_field pending_Name dec_string); ("Config", in_field pending_Config dec_string)].

Definition pending_limit : Z := 2 * 1024 * 1024.

Definition LoadPendingProfile (original : gostring) : IO (option Config) :=
  let! r := attempt (ReadFile (pendingProfilePath original)) in
  match r with
  | Fail e => if is_not_exist e then io_ret None else io_fail e
  | Panic => io_lift Panic
  | Ret encrypted =>
      if Z.of_nat (length encrypted) >? pending_limit then io_fail (err "отложенный профиль слишком велик")
      else
        let! raw := io_lift (dpapi_Decrypt encrypted (pending_label original)) in
        let! pending := io_lift (Unmarshal dec_pending raw (mkPending [] [])) in
        let! config := io_lift (FromWgQuick (pending_Config pending) (pending_Name pending)) in
        io_ret (Some config)
  end.

Definition DeletePendingProfile (name : gostring) : IO unit :=
  let! r := attempt (Remove (pendingProfilePath name)) in
  match r with
  | Fail e => if is_not_exist e then io_ret tt else io_fail e
  | r => io_lift r
  end.

(** ** The text of a profile reads back *)

Lemma pending_reads p : ValidString (pending_Name p) = true → ValidString (pending_Config p) = true →
  Unmarshal dec_pending (Marshal (json_of_pending p)) (mkPending [] []) = Ret p.
Proof.
  intros Hn Hc. assert (wf_json (json_of_pending p)) as Hw by (cbn; tauto).
  destruct (decode_tree_Marshal (json_of_pending p) Hw ltac:(vm_compute; discriminate)) as (t & Ht & Hr).
  unfold Unmarshal. rewrite Ht. cbn [or_fail mbind outcome_bind]. inversion Hr as [| | | | |? ms Hms]; subst.
  inversion Hms as [|? [[k1 raw1] t1] ? ms1 H1 Hms1]; subst. inversion Hms1 as [|? [[k2 raw2] t2] ? ms2 H2 Hms2]; subst. inversion Hms2; subst.
  cbn in H1, H2. destruct H1 as [<- H1], H2 as [<- H2]. inversion H1; subst. inversion H2; subst. by destruct p.
Qed.

Lemma is_ascii_valid (s : gostring) : forallb is_ascii s = true → ValidString s = true.
Proof.
  unfold ValidString. induction s as [|b s IH]; [done|]. cbn [forallb]. intros [Hb Hs]%andb_true_iff. cbn [utf8_valid]. unfold utf8_width.
  destruct b; try discriminate Hb; by apply IH.
Qed.

(** ** Saving and loading *)

Context (temp_digits : ∀ n, Forall (λ b, is_digit b = true) (temp_suffix n)).

Lemma ends_not_temp p dir prefix n b : last p = Some b → is_digit b = false → b ≠ "-"%byte →
  dir ++ "\" ++ (prefix ++ "-") ++ temp_suffix n ≠ p.
Proof using temp_digits.
  intros Hl Hd Hb <-. destruct (last_app_cons (dir ++ "\" ++ prefix) "-"%byte (temp_suffix n)) as (y & Hy & Hin).
  rewrite <- !app_assoc in Hl, Hy. cbn [app] in Hl, Hy. rewrite Hl in Hy. injection Hy as <-. destruct Hin as [->|Hin]; [done|].
  pose proof (proj1 (Forall_forall _ _) (temp_digits n) _ Hin) as Hx. cbn in Hx. congruence.
Qed.

(** Saving replaces the file in one step: after a crash it holds the old profile
    or the new one. *)
Lemma SavePending_replaces original config enc s : last (pendingProfilePath original) = Some "i"%byte →
  TunnelNameIsValid original = true → TunnelNameIsValid (Name config) = true →
  dpapi_Encrypt (Marshal (json_of_pending (mkPending (Name config) (ToWgQuick config)))) (pending_label original) = Ret enc →
  replaces (pendingProfilePath original) enc (SavePendingProfile original (Some config)) s.
Proof using temp_digits.
  intros Hl Ho Hn He. unfold SavePendingProfile. rewrite Ho, Hn. cbn [negb orb]. unfold replaces, io_bind, io_lift. rewrite He.
  apply writeAtomic_replaces. intros n. by eapply (ends_not_temp _ _ ".pinus-write").
Qed.

Context `{!DpapiLaws}.

(** A profile that was saved is loaded back as it was, as the reader leaves it. *)
Theorem pending_profile_survives original text name c s s' :
  last (pendingProfilePath original) = Some "i"%byte →
  FromWgQuick text name = Ret c → Forall (λ p, endpoint_printable (PeerEndpoint p) = true) (Peers c) →
  ValidString name = true → ValidString (ToWgQuick c) = true →
  SavePendingProfile original (Some c) s = (s', Ret tt) →
  (∀ enc, files s' !! pendingProfilePath original = Some enc → Z.of_nat (length enc) <= pending_limit) →
  (∀ k, (calls s' ≤ k)%nat → fault k = None) →
  snd (LoadPendingProfile original s') = Ret (Some (normalize c)) ∧ files (fst (LoadPendingProfile original s')) = files s'.
Proof using All.
  intros Hl Hc Hp Hvn Hvc Hs Hsize Hf. assert (Name c = name) as Hname.
  { destruct (FromWgQuick_accepted _ _ _ Hc) as [[Hn _] _ _ _ _]. done. }
  assert (∃ enc, dpapi_Encrypt (Marshal (json_of_pending (mkPending (Name c) (ToWgQuick c)))) (pending_label original) = Ret enc
    ∧ TunnelNameIsValid original = true ∧ TunnelNameIsValid (Name c) = true) as (enc & He & Ho & Hn).
  { unfold SavePendingProfile in Hs. destruct (TunnelNameIsValid original), (TunnelNameIsValid (Name c)); try done. cbn [negb orb] in Hs.
    unfold io_bind, io_lift in Hs. destruct (dpapi_Encrypt _ _) as [enc| |]; [eauto|done|done]. }
  destruct (SavePending_replaces original c enc s Hl Ho Hn He) as [_ Hr]. rewrite Hs in Hr. cbn in Hr.
  unfold LoadPendingProfile, io_bind, attempt, ReadFile, call. rewrite (Hf (calls s')) by lia. rewrite Hr. cbn -[pending_label pendingProfilePath pending_limit dec_pending].
  specialize (Hsize enc Hr). rewrite Z.gtb_ltb, (proj2 (Z.ltb_ge _ _)) by done. unfold io_lift. rewrite (dpapi_reads _ _ _ He).
  rewrite pending_reads by (cbn [pending_Name pending_Config]; by rewrite ?Hname). cbn [pending_Name pending_Config]. rewrite Hname, (written_config_reads _ _ _ Hc Hp). done.
Qed.
End Pending.

(** ** On a concrete disk *)

#[local] Existing Instance plain_runtime.
#[local] Existing Instance no_faults.
#[local] Instance here : Paths := {| UserConfigDir := Ret "C:\Users\u\AppData\Roaming"; TempDir := "C:\Temp" |}.
#[local] Instance same_idna : Idna := λ s, Ret s.
#[local] Instance no_signature : Ed25519 := λ _ _ _, false.
#[local] Instance plain_dpapi : Dpapi := {| dpapi_Encrypt data label := Ret (label ++ data); dpapi_Decrypt data label := Ret (drop (length label) data) |}.
#[local] Instance plain_dpapi_laws : DpapiLaws.
Proof. split. intros data label enc [= <-]. cbn. by rewrite drop_app_length. Qed.

Definition short_text : gostring := Join ["[Interface]"; "PrivateKey = " ++ sample_key; "[Peer]"; "PublicKey = " ++ sample_key; "AllowedIPs = 10.0.0.0/8"] [x0a].
Definition short_config : Config := match FromWgQuick short_text "home" with Ret c => c | _ => mkConfig [] zeroInterface [] end.
Definition saved_disk : io := fst (SavePendingProfile "home" (Some short_config) (mkIO ∅ 0 [])).

Lemma short_saves : SavePendingProfile "home" (Some short_config) (mkIO ∅ 0 []) = (saved_disk, Ret tt).
Proof.
  assert (snd (SavePendingProfile "home" (Some short_config) (mkIO ∅ 0 [])) = Ret tt) as Hr by (vm_compute; reflexivity).
  unfold saved_disk. rewrite <- Hr. apply surjective_pairing.
Qed.

Lemma pending_profile_survives_witness :
  snd (LoadPendingProfile "home" saved_disk) = Ret (Some (normalize short_config)) ∧ files (fst (LoadPendingProfile "home" saved_disk)) = files saved_disk.
Proof.
  refine (pending_profile_survives demo_digits "home" short_text "home" short_config (mkIO ∅ 0 []) saved_disk _ _ _ _ _ _ _ _).
  - vm_compute. reflexivity.
  - vm_compute. reflexivity.
  - apply List.Forall_forall, forallb_forall. vm_compute. reflexivity.
  - vm_compute. reflexivity.
  - vm_compute. reflexivity.
  - exact short_saves.
  - intros enc Hf. vm_compute in Hf. injection Hf as <-. vm_compute. discriminate.
  - done.
Defined.

(** A script that is not UTF-8 is not the same after a round trip: JSON has no
    way to write it. *)
Definition latin_text : gostring := Join ["[Interface]"; "PrivateKey = " ++ sample_key; "PostUp = echo " ++ [xe9]; "[Peer]"; "PublicKey = " ++ sample_key] [x0a].
Definition latin_config : Config := match FromWgQuick latin_text "home" with Ret c => c | _ => mkConfig [] zeroInterface [] end.

Theorem pending_profile_mangled :
  PostUp (Iface latin_config) = "echo " ++ [xe9] ∧
  let s := fst (SavePendingProfile "home" (Some latin_config) (mkIO ∅ 0 [])) in
  match snd (LoadPendingProfile "home" s) with Ret (Some c) => PostUp (Iface c) = "echo " ++ [xef; xbf; xbd] | _ => False end.
Proof. vm_compute. split; reflexivity. Qed.
