(* ===== verification/TunnelTracker.v ===== *)
(** * Following the tunnel services ([client/manager/tunneltracker.go])

    The manager follows each tunnel service until it stops, announces every
    change of its state, and passes on the error it stopped with.  The answers
    of the service control manager are those of [Class TrackedService]; the
    numbers count the calls made so far. *)
From S2P Require Import Prelude GoStrings GoStrconv GoNet GoOs TunnelName AwgValidation SmartRules SmartCatalog SmartSettings ManagerNet ManagerTypes Services.

Local Open Scope Z_scope.

Definition ERROR_PROC_NOT_FOUND : Z := 127.
Definition ERROR_SERVICE_SPECIFIC_ERROR : Z := 1066.
Definition ERROR_SERVICE_MARKED_FOR_DELETE : Z := 1072.
Definition ERROR_SERVICE_NEVER_STARTED : Z := 1077.
Definition SERVICE_DISABLED : Z := 4.
Definition svc_Stopped : Z := 1.
Definition svc_Stop : Z := 1.

Record service_status := mkStatus { ss_State : Z; Win32ExitCode : Z; ServiceSpecificExitCode : Z }.

(** What happens to a subscription: changes the system reports (0 when it gives
    no state), or on Windows 7 the results of waiting for one. *)
Inductive legacy_event :=
| SleptOut
| StatusChanged (state : Z)
| MarkedForDelete (state : Z)
| ClientLagging
| NotifyFailed (e : svc_err).

Class TrackedService := {
  sv_Query : nat → svc_err + service_status;
  sv_Config : nat → option svc_err * Z;  (* the error and the start type *)
  sv_Subscribe : option svc_err;
  sv_changes : list Z;
  sv_legacy : list legacy_event;
}.

Definition note : Type := gostring * TunnelState * option svc_err.

Record tracker := mkTracker {
  trackedTunnels : gmap gostring TunnelState;
  notes : list note;           (* IPCServerNotifyTunnelChange *)
  deletes : nat;               (* service.Delete *)
  controls : list Z;           (* service.Control *)
  calls_made : nat }.

Inductive tracked_result := Finished | Waiting | TrackFailed (e : svc_err).

Section Tracker.
Context `{TrackedService}.
Context (tunnelName : gostring).

Definition query (s : tracker) : tracker * (svc_err + service_status) :=
  (mkTracker (trackedTunnels s) (notes s) (deletes s) (controls s) (S (calls_made s)), sv_Query (calls_made s)).

Definition service_Delete (s : tracker) : tracker :=
  mkTracker (trackedTunnels s) (notes s) (S (deletes s)) (controls s) (calls_made s).

(** [trackedTunnels[tunnelName] = state] and the notification. *)
Definition announce (state : TunnelState) (err : option svc_err) (s : tracker) : tracker :=
  mkTracker (<[tunnelName := state]> (trackedTunnels s)) (notes s ++ [(tunnelName, state, err)]) (deletes s) (controls s) (calls_made s).

Definition is_errno (n : Z) (e : option svc_err) : bool := match e with Some (Sys m) => m =? n | _ => false end.

Definition checkForDisabled (s : tracker) : tracker * bool :=
  let '(err, startType) := sv_Config (calls_made s) in
  let s := mkTracker (trackedTunnels s) (notes s) (deletes s) (controls s) (S (calls_made s)) in
  if is_errno ERROR_SERVICE_MARKED_FOR_DELETE err || (bool_decide (err ≠ None) && (startType =? SERVICE_DISABLED))
  then (announce TunnelStopped None (service_Delete s), true)
  else (s, false).

(** The error a stopped service left. *)
Definition tunnelError (status : svc_err + service_status) : option svc_err :=
  match status with
  | inl _ => None
  | inr st =>
      if Win32ExitCode st =? ERROR_SERVICE_SPECIFIC_ERROR then
        if negb (ServiceSpecificExitCode st =? ErrorSuccess) then Some (ServiceErr (ServiceSpecificExitCode st)) else None
      else if (Win32ExitCode st =? 0) || (Win32ExitCode st =? ERROR_SERVICE_NEVER_STARTED) then None
      else Some (Sys (Win32ExitCode st))
  end.

(** The callback of [trackTunnelService], with [lastState]. *)
Definition callback (status : Z) (x : tracker * TunnelState) : (tracker * TunnelState) * bool :=
  let '(s, lastState) := x in
  let state := notifyStateToTunState status in
  let '(s, err) :=
    if bool_decide (state = TunnelStopped) then
      let '(s, st) := query s in
      (match tunnelError st with Some _ => service_Delete s | None => s end, tunnelError st)
    else (s, None) in
  let '(s, lastState) := if bool_decide (state ≠ lastState) then (announce state err s, state) else (s, lastState) in
  if bool_decide (state = TunnelUnknown) then
    let '(s, disabled) := checkForDisabled s in
    if disabled then ((s, lastState), true) else ((s, lastState), bool_decide (state = TunnelStopped))
  else ((s, lastState), bool_decide (state = TunnelStopped)).

(** The notification of a subscription. *)
Definition on_change (notification : Z) (x : tracker * TunnelState) : (tracker * TunnelState) * bool :=
  if notification =? 0 then
    let '(s, st) := query (fst x) in
    callback (match st with inr st => svcStateToNotifyState (ss_State st) | inl _ => notification end) (s, snd x)
  else callback notification x.

Fixpoint wait_changes (changes : list Z) (x : tracker * TunnelState) : (tracker * TunnelState) * tracked_result :=
  match changes with
  | [] => (x, Waiting)
  | n :: changes => let '(x, stop) := on_change n x in if stop then (x, Finished) else wait_changes changes x
  end.

Fixpoint wait_legacy (events : list legacy_event) (x : tracker * TunnelState) : (tracker * TunnelState) * tracked_result :=
  match events with
  | [] => (x, Waiting)
  | ev :: events =>
      match ev with
      | SleptOut => let '(x, stop) := callback 0 x in if stop then (x, Finished) else wait_legacy events x
      | StatusChanged state =>
          let '(x, stop) := callback (svcStateToNotifyState state) x in if stop then (x, Finished) else wait_legacy events x
      | MarkedForDelete state =>
          let '(x, stop) := callback SERVICE_NOTIFY_DELETED x in
          if stop then (x, Finished)
          else let '(x, stop) := callback (svcStateToNotifyState state) x in if stop then (x, Finished) else wait_legacy events x
      | ClientLagging => wait_legacy events x
      | NotifyFailed e => (x, TrackFailed e)
      end
  end.

Definition trackService (x : tracker * TunnelState) : (tracker * TunnelState) * tracked_result :=
  match sv_Subscribe with
  | None =>
      let '(s, st) := query (fst x) in
      let x := (s, snd x) in
      match st with
      | inr st =>
          let '(x, stop) := callback (svcStateToNotifyState (ss_State st)) x in
          if stop then (x, Finished) else wait_changes sv_changes x
      | inl _ => wait_changes sv_changes x
      end
  | Some e => if is_errno ERROR_PROC_NOT_FOUND (Some e) then wait_legacy sv_legacy x else (x, TrackFailed e)
  end.

(** The wait for the service to leave the stopped state, at most 20 queries. *)
Fixpoint wait_started (tries : nat) (s : tracker) : tracker :=
  match tries with
  | O => s
  | S tries =>
      let '(s, st) := query s in
      match st with
      | inr st => if ss_State st =? svc_Stopped then wait_started tries s else s
      | inl _ => s
      end
  end.

(** The deferred removal. *)
Definition untrack (s : tracker) : tracker :=
  mkTracker (delete tunnelName (trackedTunnels s)) (notes s) (deletes s) (controls s) (calls_made s).

(** [None]: still following. *)
Definition trackTunnelService (s : tracker) : tracker * option unit :=
  match trackedTunnels s !! tunnelName with
  | Some _ => (s, Some tt)
  | None =>
      let s := mkTracker (<[tunnelName := TunnelUnknown]> (trackedTunnels s)) (notes s) (deletes s) (controls s) (calls_made s) in
      let s := wait_started 20 s in
      let '(s, disabled) := checkForDisabled s in
      if disabled then (untrack s, Some tt)
      else
        match trackService (s, TunnelUnknown) with
        | ((s, _), Finished) => (untrack s, Some tt)
        | ((s, _), Waiting) => (s, None)
        | ((s, _), TrackFailed e) =>
            let '(s, disabled) := checkForDisabled s in
            if disabled then (untrack s, Some tt)
            else
              let s := announce TunnelStopped (Some (Wrapped "Unable to continue monitoring service, so stopping: " e)) s in
              (untrack (mkTracker (trackedTunnels s) (notes s) (deletes s) (controls s ++ [svc_Stop]) (calls_made s)), Some tt)
        end
  end.
End Tracker.

(** ** Tunnels to follow *)

Section Existing.
Context `{GoRuntime}.

(** The tunnels [trackExistingTunnels] starts to follow: those of the stored
    configurations that are not followed and whose service can be opened. *)
Definition trackExistingTunnels (tracked : gmap gostring TunnelState) (names : list gostring) (opens : gostring → bool) : list gostring :=
  List.filter (λ name,
    match tracked !! name with
    | Some _ => false
    | None => match ServiceNameOfTunnel name with Ret serviceName => opens serviceName | _ => false end
    end) names.
End Existing.

(** ** Following the tunnel services: theorems

    A tunnel that is followed to its end is announced as stopped exactly once,
    after its other states; the error of the tunnel service reaches the
    manager's clients unchanged. *)
From S2P Require Import GoEncoding GoNet GoPath GoSort Conf Writer DeterministicGuid TunnelService.

Local Open Scope Z_scope.

Definition note_state (n : note) : TunnelState := snd (fst n).

(** Each state differs from the one before. *)
Fixpoint no_repeat (last : TunnelState) (l : list TunnelState) : Prop :=
  match l with [] => True | s :: l => s ≠ last ∧ no_repeat s l end.

Lemma last_default {A} (l : list A) : ∀ x d d', List.last (x :: l) d = List.last (x :: l) d'.
Proof. induction l as [|y l IH]; intros x d d'; [done|]. apply IH. Qed.

Lemma no_repeat_snoc l : ∀ a b, no_repeat a l → List.last l a ≠ b → no_repeat a (l ++ [b]).
Proof.
  induction l as [|s l IH]; intros a b Hl Hb; cbn; [by split|]. destruct Hl as [Hs Hl]. split; [done|]. apply IH; [done|].
  destruct l as [|s' l]; [exact Hb|]. by rewrite (last_default l s' s a).
Qed.

Section Announced.
Context `{TrackedService}.
Context (tunnelName : gostring) (before : tracker).

(** What was announced so far; the tunnel has not stopped. *)
Record following (x : tracker * TunnelState) (new : list note) : Prop := {
  fo_notes : notes (fst x) = notes before ++ new;
  fo_name : Forall (λ n : note, fst (fst n) = tunnelName ∧ note_state n ≠ TunnelStopped) new;
  fo_chain : no_repeat TunnelUnknown (map note_state new);
  fo_last : snd x = List.last (map note_state new) TunnelUnknown;
  fo_others : delete tunnelName (trackedTunnels (fst x)) = delete tunnelName (trackedTunnels before) }.

(** The tunnel was announced as stopped, once and last. *)
Definition stopped (s : tracker) : Prop :=
  delete tunnelName (trackedTunnels s) = delete tunnelName (trackedTunnels before) ∧
  ∃ new err, notes s = notes before ++ new ++ [(tunnelName, TunnelStopped, err)] ∧
    Forall (λ n : note, fst (fst n) = tunnelName ∧ note_state n ≠ TunnelStopped) new ∧
    no_repeat TunnelUnknown (map note_state new ++ [TunnelStopped]).

#[local] Set Default Proof Using "Type".

Lemma last_not_stopped (new : list note) : Forall (λ n : note, fst (fst n) = tunnelName ∧ note_state n ≠ TunnelStopped) new →
  List.last (map note_state new) TunnelUnknown ≠ TunnelStopped.
Proof.
  induction new as [|n new IH] using rev_ind; intros Hn; [done|]. rewrite map_app. cbn. rewrite List.last_last.
  apply Forall_app in Hn as [_ Hn]. apply Forall_cons in Hn as [[_ Hn] _]. done.
Qed.

(** The state only matters through what is announced and tracked. *)
Lemma following_same s s' last new : following (s, last) new → notes s' = notes s → trackedTunnels s' = trackedTunnels s → following (s', last) new.
Proof. intros [A B C D E] Hn Ht. split; cbn in *; congruence || done. Qed.

Lemma announce_stopped s last new err : following (s, last) new → stopped (announce tunnelName TunnelStopped err s).
Proof.
  intros [A B C D E]. cbn in *. split; cbn.
  - by rewrite delete_insert_eq.
  - exists new, err. rewrite A, <- app_assoc. split_and!; try done. apply no_repeat_snoc; [done|]. by apply last_not_stopped.
Qed.

Lemma announce_follows s last new state err : following (s, last) new → state ≠ last → state ≠ TunnelStopped →
  following (announce tunnelName state err s, state) (new ++ [(tunnelName, state, err)]).
Proof.
  intros [A B C D E] Hs Hst. cbn in *. split; cbn.
  - by rewrite A, <- app_assoc.
  - apply Forall_app. split; [done|]. by constructor.
  - rewrite map_app. apply no_repeat_snoc; [done|]. rewrite <- D. by apply not_eq_sym.
  - rewrite map_app. cbn. by rewrite List.last_last.
  - by rewrite delete_insert_eq.
Qed.

Lemma check_follows s last new s' b : following (s, last) new → checkForDisabled tunnelName s = (s', b) →
  if b then stopped s' else following (s', last) new.
Proof.
  intros Hf. unfold checkForDisabled. destruct (sv_Config _) as [err ty]. destruct (_ || _); intros [= <- <-].
  - eapply announce_stopped. eapply following_same; [exact Hf|done|done].
  - eapply following_same; [exact Hf|done|done].
Qed.

Lemma callback_follows status x new x' b : following x new → callback tunnelName status x = (x', b) →
  if b then stopped (fst x') else ∃ new', following x' new'.
Proof.
  destruct x as [s last]. intros Hf. unfold callback. set (state := notifyStateToTunState status).
  assert (last ≠ TunnelStopped) as Hl by (rewrite (fo_last _ _ Hf : last = _); by apply last_not_stopped, Hf).
  destruct (decide (state = TunnelStopped)) as [Es|Es].
  - rewrite Es. rewrite (bool_decide_true (TunnelStopped = TunnelStopped)) by done. cbn [query].
    rewrite (bool_decide_true (TunnelStopped ≠ last)) by done. rewrite (bool_decide_false (TunnelStopped = TunnelUnknown)) by done.
    intros [= <- <-]. eapply announce_stopped. destruct (tunnelError _); (eapply following_same; [exact Hf|done|done]).
  - rewrite (bool_decide_false (state = TunnelStopped)) by done. destruct (decide (state = last)) as [El|El].
    + rewrite (bool_decide_false (state ≠ last)) by tauto. case_bool_decide.
      * destruct (checkForDisabled tunnelName s) as [s1 d] eqn:Ec. pose proof (check_follows _ _ _ _ _ Hf Ec) as Hc. destruct d; intros [= <- <-]; [done|eauto].
      * intros [= <- <-]. eauto.
    + rewrite (bool_decide_true (state ≠ last)) by done. pose proof (announce_follows _ _ _ _ None Hf El Es) as Ha. case_bool_decide.
      * destruct (checkForDisabled tunnelName _) as [s1 d] eqn:Ec. pose proof (check_follows _ _ _ _ _ Ha Ec) as Hc. destruct d; intros [= <- <-]; [done|eauto].
      * intros [= <- <-]. eauto.
Qed.

Lemma on_change_follows n x new x' b : following x new → on_change tunnelName n x = (x', b) →
  if b then stopped (fst x') else ∃ new', following x' new'.
Proof.
  intros Hf. unfold on_change. destruct (n =? 0); [|by eapply callback_follows]. destruct x as [s last]. cbn [query fst snd].
  apply callback_follows with (new := new). eapply following_same; [exact Hf|done|done].
Qed.

(** What a wait leaves. *)
Definition followed (r : (tracker * TunnelState) * tracked_result) : Prop :=
  match snd r with Finished => stopped (fst (fst r)) | _ => ∃ new, following (fst r) new end.

Lemma wait_changes_follows changes : ∀ x new, following x new → followed (wait_changes tunnelName changes x).
Proof.
  induction changes as [|n changes IH]; intros x new Hf; cbn [wait_changes]; [by exists new|].
  destruct (on_change tunnelName n x) as [x' b] eqn:Ec. pose proof (on_change_follows _ _ _ _ _ Hf Ec) as Hc. destruct b; [exact Hc|].
  destruct Hc as [new' Hc]. by eapply IH.
Qed.

Lemma wait_legacy_follows events : ∀ x new, following x new → followed (wait_legacy tunnelName events x).
Proof.
  induction events as [|ev events IH]; intros x new Hf; cbn [wait_legacy]; [by exists new|].
  assert (∀ status, followed (let '(x', stop) := callback tunnelName status x in if stop then (x', Finished) else wait_legacy tunnelName events x')) as Hone.
  { intros status. destruct (callback tunnelName status x) as [x' b] eqn:Ec. pose proof (callback_follows _ _ _ _ _ Hf Ec) as Hc.
    destruct b; [exact Hc|]. destruct Hc as [new' Hc]. by eapply IH. }
  destruct ev as [|state|state| |e]; [apply Hone|apply Hone| |by eapply IH|by exists new].
  destruct (callback tunnelName SERVICE_NOTIFY_DELETED x) as [x1 b1] eqn:E1. pose proof (callback_follows _ _ _ _ _ Hf E1) as H1.
  destruct b1; [exact H1|]. destruct H1 as [new1 H1]. destruct (callback tunnelName _ x1) as [x2 b2] eqn:E2.
  pose proof (callback_follows _ _ _ _ _ H1 E2) as H2. destruct b2; [exact H2|]. destruct H2 as [new2 H2]. by eapply IH.
Qed.

Lemma trackService_follows x new : following x new → followed (trackService tunnelName x).
Proof.
  intros Hf. unfold trackService. destruct sv_Subscribe as [e|]; [destruct (is_errno _ _); [by eapply wait_legacy_follows|by exists new]|].
  destruct x as [s last]. cbn [query fst snd]. match goal with |- context [callback tunnelName _ (?s0, last)] => set (s1 := s0) end.
  assert (following (s1, last) new) as H1 by (eapply following_same; [exact Hf|done|done]).
  destruct (sv_Query _) as [e|st]; [by eapply wait_changes_follows|]. destruct (callback tunnelName _ (s1, last)) as [x' b] eqn:Ec.
  pose proof (callback_follows _ _ _ _ _ H1 Ec) as Hc. destruct b; [exact Hc|]. destruct Hc as [new' Hc]. by eapply wait_changes_follows.
Qed.

Lemma wait_started_same tries : ∀ s, notes (wait_started tries s) = notes s ∧ trackedTunnels (wait_started tries s) = trackedTunnels s.
Proof.
  induction tries as [|tries IH]; intros s; [done|]. cbn [wait_started query]. destruct (sv_Query _) as [e|st]; [done|]. destruct (_ =? _); [|done]. match goal with |- context [wait_started tries ?s'] => exact (IH s') end.
Qed.

Lemma untracked s : trackedTunnels before !! tunnelName = None → stopped s →
  trackedTunnels (untrack tunnelName s) = trackedTunnels before ∧ stopped (untrack tunnelName s).
Proof.
  intros Hb [Hd Hn]. split; [|split; [|exact Hn]]; cbn.
  - rewrite Hd. by apply delete_id.
  - by rewrite delete_delete_eq.
Qed.
End Announced.

Section Tracking.
Context `{TrackedService}.

(** Following a tunnel that was not followed: when it ends the tunnel is no
    longer tracked and the others are as before; the clients heard each change
    of its state once, and that it stopped exactly once, last. *)
Theorem tracking_announces name s s' : trackedTunnels s !! name = None → trackTunnelService name s = (s', Some tt) →
  trackedTunnels s' = trackedTunnels s ∧ stopped name s s'.
Proof.
  intros Hb. unfold trackTunnelService. rewrite Hb. set (s1 := mkTracker _ _ _ _ _). destruct (wait_started_same 20 s1) as [Hn Ht].
  assert (following name s (wait_started 20 s1, TunnelUnknown) []) as Hf.
  { split; cbn [fst snd map]; [by rewrite Hn, app_nil_r|constructor|done|done|]. rewrite Ht. cbn. by rewrite delete_insert_eq. }
  destruct (checkForDisabled name _) as [s2 d] eqn:Ec. pose proof (check_follows _ _ _ _ _ _ _ Hf Ec) as Hc. destruct d.
  { intros [= <-]. by apply untracked. }
  pose proof (trackService_follows _ _ _ _ Hc) as Hs. destruct (trackService name (s2, TunnelUnknown)) as [[s3 last] [| |e]]; [| done |].
  - intros [= <-]. by apply untracked.
  - destruct Hs as [new Hs]. destruct (checkForDisabled name s3) as [s4 d] eqn:E4. pose proof (check_follows _ _ _ _ _ _ _ Hs E4) as H4. destruct d.
    + intros [= <-]. by apply untracked.
    + intros [= <-]. apply untracked; [done|]. pose proof (announce_stopped _ _ _ _ _ (Some (Wrapped "Unable to continue monitoring service, so stopping: " e)) H4) as Ha. exact Ha.
Qed.
End Tracking.

(** ** From the service to the manager *)

Section Reported.
Context `{GoRuntime} `{SortSlice} `{GuidHost} `{TunnelHost}.
(** What [golang.org/x/sys/windows/svc] reports to Windows for the code a
    handler returns: a service-specific code goes with ERROR_SERVICE_SPECIFIC_ERROR. *)
Context (reported : bool * Z → service_status).
Context (reported_specific : ∀ c, Win32ExitCode (reported (true, c)) = ERROR_SERVICE_SPECIFIC_ERROR ∧ ServiceSpecificExitCode (reported (true, c)) = c).
Context (reported_plain : ∀ c, Win32ExitCode (reported (false, c)) = c).
#[local] Set Default Proof Using "All".

(** A Windows error of 32 bits that does not say that a service did not fail, was
    never started or failed with a number of its own. *)
Definition plain_errno (n : Z) : Prop := 0 < n < 2 ^ 32 ∧ n ≠ ERROR_SERVICE_SPECIFIC_ERROR ∧ n ≠ ERROR_SERVICE_NEVER_STARTED.

(** The error can be told by a number: a Windows error is a plain one, and what
    the watcher reports has a number. *)
Definition tellable (events : list select_event) (e : option svc_err) : Prop :=
  (∀ n, e = Some (Sys n) → plain_errno n) ∧ ∀ x, deciding events ≠ Some (WatcherError ErrorSuccess x).

(** What the manager shows for it: a Windows error as it is, another one by the
    number of its step. *)
Definition shown (e : option svc_err) (se : Z) : option svc_err :=
  match e with None => None | Some (Sys n) => Some (Sys n) | Some _ => Some (ServiceErr se) end.

(** C18: When a tunnel service has stopped, then it ended in one of the ways of
    [ending]: with the tunnel up, told to stop, with the device closed, or with
    what the watcher reported; or by a step whose failure is its last action,
    with exactly the error the host answered to it and the number of that step;
    or by the error of the PreUp or PostUp script; or because the name has no
    pipe.  And the manager reads from the stopped service: no error in the first
    two cases, and otherwise that very error, itself if it is a Windows error
    and else as the number of the step, provided the error is [tellable] (a
    Windows error between 1 and 2^32-1 other than 1066 and 1077; a watcher's
    error has a number).  So it reads no error only from a tunnel that was up and
    was told to stop, or whose device closed.  Of the service package it is
    assumed that it reports a specific code with ERROR_SERVICE_SPECIFIC_ERROR and
    any other code as it is. *)
Theorem failure_reaches_manager fixed path events t code : Execute fixed path events = (t, Some code) →
  ∃ t1 u e se, t = t1 ++ u ∧ ending events t1 e se ∧
    (tellable events e → tunnelError (inr (reported code)) = shown e se).
Proof.
  intros Hx. assert (∃ t1 u e se, t = t1 ++ u ∧ ending events t1 e se ∧ code = DetermineErrorCode e se) as (t1 & u & e & se & Ht & He & ->)
    by by eapply Execute_ending.
  exists t1, u, e, se. split; [done|]. split; [done|]. intros [Hn Hw]. unfold tunnelError.
  assert (∀ x, e = Some x → se ≠ ErrorSuccess) as Hse.
  { intros x ->. destruct (ending_number _ _ _ _ He) as [|Hd]; [done|]. intros ->. by destruct (Hw x). }
  destruct e as [x|]; [specialize (Hse x eq_refl)|].
  - assert ((∃ n, x = Sys n) ∨ ∀ n, x ≠ Sys n) as [[n ->]|Hx'] by (destruct x; eauto).
    + destruct (Hn n eq_refl) as (Hr & Hn1 & Hn2). cbn. rewrite Z.mod_small by lia. rewrite reported_plain.
      by rewrite (proj2 (Z.eqb_neq _ _) Hn1), (proj2 (Z.eqb_neq n 0)), (proj2 (Z.eqb_neq _ _) Hn2) by lia.
    + assert (DetermineErrorCode (Some x) se = (true, se) ∧ shown (Some x) se = Some (ServiceErr se)) as [-> ->].
      { unfold DetermineErrorCode. rewrite (proj2 (Z.eqb_neq _ _) Hse). destruct x as [n| | | |]; try done. by destruct (Hx' n). }
      destruct (reported_specific se) as [-> ->]. cbn. by rewrite (proj2 (Z.eqb_neq _ _) Hse).
  - assert (se = ErrorSuccess) as -> by by inversion He. cbn. by rewrite reported_plain.
Qed.
End Reported.

(** ** Concrete services *)

Definition windows_status (code : bool * Z) : service_status :=
  if fst code then mkStatus svc_Stopped ERROR_SERVICE_SPECIFIC_ERROR (snd code) else mkStatus svc_Stopped (snd code) 0.

#[local] Existing Instances plain_runtime insertion_sort service_guid.

(** The firewall could not be set up: the manager shows the number of that step. *)
Lemma failure_reaches_manager_witness : ∃ t,
  @Execute _ _ _ (service_host false) false "C:\office.conf" [] = (t, Some (true, ErrorFirewall)) ∧
  tunnelError (inr (windows_status (true, ErrorFirewall))) = Some (ServiceErr ErrorFirewall) ∧
  ∃ t1 u e se, t = t1 ++ u ∧ @ending _ (service_host false) [] t1 e se ∧
    (tellable [] e → tunnelError (inr (windows_status (true, ErrorFirewall))) = shown e se).
Proof.
  exists (fst (@Execute _ _ _ (service_host false) false "C:\office.conf" [])).
  assert (@Execute _ _ _ (service_host false) false "C:\office.conf" [] = (fst (@Execute _ _ _ (service_host false) false "C:\office.conf" []), Some (true, ErrorFirewall))) as Hx
    by (vm_compute; reflexivity).
  split; [exact Hx|]. split; [reflexivity|].
  exact (@failure_reaches_manager _ _ _ (service_host false) windows_status (λ c, conj eq_refl eq_refl) (λ c, eq_refl) _ _ _ _ _ Hx).
Defined.

(** A service that starts and then stops with an error of its own. *)
#[local] Instance failing_service : TrackedService := {|
  sv_Query n := inr (if (n <? 3)%nat then mkStatus 2 0 0 else mkStatus 1 ERROR_SERVICE_SPECIFIC_ERROR ErrorFirewall);
  sv_Config _ := (None, 3); sv_Subscribe := None;
  sv_changes := [SERVICE_NOTIFY_START_PENDING; SERVICE_NOTIFY_RUNNING; SERVICE_NOTIFY_STOP_PENDING; SERVICE_NOTIFY_STOPPED]; sv_legacy := [] |}.

Definition no_tunnels : tracker := mkTracker ∅ [] 0 [] 0.

Lemma tracking_announces_witness :
  let s' := fst (trackTunnelService "office" no_tunnels) in
  notes s' = [("office", TunnelStarting, None); ("office", TunnelStarted, None); ("office", TunnelStopping, None);
              ("office", TunnelStopped, Some (ServiceErr ErrorFirewall))] ∧
  trackedTunnels s' = trackedTunnels no_tunnels ∧ stopped "office" no_tunnels s'.
Proof.
  split; [vm_compute; reflexivity|]. apply (tracking_announces "office" no_tunnels); vm_compute; reflexivity.
Defined.

(** ** What goes wrong *)

(** A disabled service is looked for only when its configuration could not be
    read, so that one whose configuration says it is disabled is not found. *)
Theorem disabled_service_missed (sv : TrackedService) name s :
  sv_Config (calls_made s) = (None, SERVICE_DISABLED) → snd (checkForDisabled name s) = false.
Proof. intros E. unfold checkForDisabled. by rewrite E. Qed.
