(* ===== verification/Updater.v ===== *)
(** * The updater ([client/updater], [client/manager/updatestate.go])

    A signed list of installers is fetched; a newer one is downloaded, checked
    against the hash in the list and against its Authenticode signature, and
    only then run.  The network, the hash and the system are [Class UpdateHost]. *)
From S2P Require Import Prelude GoStrings GoStrconv GoEncoding GoNet GoOs GoTime GoJson AwgValidation TunnelName SmartRules SmartCatalog.

Local Open Scope Z_scope.

Definition releasePublicKeyBase64 : gostring := "RWRNqGKtBXftKTKPpBPGDMe8jHLnFQ0EdRy8Wg0apV6vTDFLAODD83G4".
Definition msiSuffix : gostring := ".msi".

(** ** Versions ([versions.go]) *)

Section Versions.
Context (Number : gostring).  (* version.Number *)

(** One part of a version; 0 past its end. *)
Definition version_part (parts : list gostring) (i : nat) : outcome Z :=
  match parts !! i with
  | Some [] => Fail (ErrorString "Empty version part")
  | Some p => map_error (λ _, ErrorString "Invalid version integer part") (ParseUint p 16)
  | None => Ret 0
  end.

Fixpoint compare_parts (fuel i : nat) (candidate ours : list gostring) : outcome bool :=
  match fuel with
  | O => Ret false
  | S fuel =>
      cP ← version_part candidate i;
      oP ← version_part ours i;
      if cP =? oP then compare_parts fuel (S i) candidate ours else Ret (cP >? oP)
  end.

Definition versionNewerThanUs (candidate : gostring) : outcome bool :=
  let candidateParts := Split candidate x2e in
  let ourParts := Split Number x2e in
  compare_parts (Nat.max (length candidateParts) (length ourParts)) 0 candidateParts ourParts.
End Versions.

(** ** The signed list ([signify.go]) *)

Definition fileList : Type := gmap gostring gostring.

(** [bytes.SplitN(input, "\n", 3)], when there are three parts. *)
Definition split3 (input : gostring) : option (gostring * gostring * gostring) :=
  match Cut input x0a with
  | Some (a, rest) => match Cut rest x0a with Some (b, c) => Some (a, b, c) | None => None end
  | None => None
  end.

(** [strings.Cut(line, "  ")]. *)
Fixpoint cut_spaces (s : list byte) : option (gostring * gostring) :=
  match s with
  | x20 :: ((x20 :: rest) as s') => Some ([], rest)
  | b :: s => '(l, r) ← cut_spaces s; Some (b :: l, r)
  | [] => None
  end.

Definition Size256 : nat := 32.

Fixpoint read_hashes (lines : list gostring) (acc : fileList) : outcome fileList :=
  match lines with
  | [] => Ret acc
  | [[]] => Ret acc
  | line :: lines =>
      '(first, second) ← or_fail (cut_spaces line) (ErrorString "File hash line has too few components");
      maybeHash ← map_error (λ _, ErrorString "File hash is invalid base64 or incorrect number of bytes") (hex_DecodeString first);
      _ ← fail_if (negb (length maybeHash =? Size256)%nat) (ErrorString "File hash is invalid base64 or incorrect number of bytes");
      read_hashes lines (<[second := maybeHash]> acc)
  end.

Section List.
Context {ED : Ed25519}.

Definition readFileList (input : gostring) : outcome fileList :=
  publicKeyBytes ← map_error (λ _, ErrorString "Invalid public key") (b64_DecodeString releasePublicKeyBase64);
  _ ← fail_if (negb (length publicKeyBytes =? 42)%nat || negb (HasPrefix publicKeyBytes "Ed")) (ErrorString "Invalid public key");
  '(comment, signature, body) ← or_fail (split3 input) (ErrorString "Signature input has too few lines");
  _ ← fail_if (negb (HasPrefix comment "untrusted comment: ")) (ErrorString "Signature input is missing untrusted comment");
  signatureBytes ← map_error (λ _, ErrorString "Signature input is not valid base64") (b64_DecodeString signature);
  _ ← fail_if (negb (length signatureBytes =? 74)%nat || negb (take 10 signatureBytes =?s take 10 publicKeyBytes))
        (ErrorString "Signature input bytes are incorrect length, type, or keyid");
  _ ← fail_if (negb (ed25519_Verify (drop 10 publicKeyBytes) body (drop 10 signatureBytes))) (ErrorString "Signature is invalid");
  files ← read_hashes (Split body x0a) ∅;
  _ ← fail_if (bool_decide (files = ∅)) (ErrorString "No file hashes found in signed input");
  Ret files.
End List.

Definition UpdateFound : Type := gostring * gostring.  (* name, hash *)

Section Candidate.
Context {RT : GoRuntime} (Number Arch : gostring).

Definition msiArchPrefix : gostring := "wireguard-" ++ Arch ++ "-".

Definition TrimSuffix (s suffix : gostring) : gostring :=
  if HasSuffix s suffix then take (length s - length suffix) s else s.

Fixpoint find_candidate (l : list (gostring * gostring)) : outcome (option UpdateFound) :=
  match l with
  | [] => Ret None
  | (name, hash) :: l =>
      if HasPrefix name msiArchPrefix && HasSuffix name msiSuffix then
        let version := TrimSuffix (TrimPrefix name msiArchPrefix) msiSuffix in
        if (128 <? length version)%nat then Fail (ErrorString "Version length is too long")
        else
          newer ← versionNewerThanUs Number version;
          if newer : bool then Ret (Some (name, hash)) else find_candidate l
      else find_candidate l
  end.

(** The order of the map is the runtime's. *)
Definition findCandidate (candidates : fileList) : outcome (option UpdateFound) := find_candidate (iterate (map_to_list candidates)).
End Candidate.

(** ** Fetching and running ([downloader.go]) *)

Class UpdateHost := {
  up_official : bool;                           (* version.IsRunningOfficialVersion *)
  up_session : option goerror;
  up_connect : option goerror;
  up_get_list : option goerror;
  up_read_list : outcome gostring;              (* io.ReadAll of at most 512 KiB + 1 *)
  up_temp : option goerror;
  up_get_msi : gostring → option goerror;
  up_hasher : option goerror;
  up_copy : gostring → gostring * option goerror;  (* what io.Copy wrote, of at most 100 MiB *)
  up_blake2b : gostring → gostring;
  up_authenticode : gostring → bool;            (* WinVerifyTrustEx on the file *)
  up_runMsi : gostring → option goerror;
  up_DoAsSystem : option goerror;               (* an error before the function runs *)
}.

(** What the caller is told; the messages that count bytes or name the
    temporary file are left out. *)
Inductive progress := Activity (s : gostring) | ErrorProgress (e : goerror) | Complete.

Record ustate := mkUS {
  updateInProgress : bool;
  sent : list progress;
  sessions : Z;              (* open WinHTTP sessions *)
  connections : Z;           (* open connections *)
  temp_files : list gostring;
  installed : list gostring }.   (* the installers that were run *)

Section Download.
Context {RT : GoRuntime} {ED : Ed25519} `{UpdateHost} (Number Arch : gostring).

Definition say (p : progress) (s : ustate) : ustate :=
  mkUS (updateInProgress s) (sent s ++ [p]) (sessions s) (connections s) (temp_files s) (installed s).
Definition add_handles (ds dc : Z) (s : ustate) : ustate :=
  mkUS (updateInProgress s) (sent s) (sessions s + ds) (connections s + dc) (temp_files s) (installed s).
Definition set_busy (b : bool) (s : ustate) : ustate :=
  mkUS b (sent s) (sessions s) (connections s) (temp_files s) (installed s).

Definition list_limit : Z := 512 * 1024.

(** The deferred functions look at the variable [err], which a returned literal
    error does not set: see the list that is too long. *)
Definition checkForUpdate (keepSession : bool) (s : ustate) : ustate * outcome (option UpdateFound) :=
  if negb up_official then (s, Fail (ErrorString "Build is not official, so updates are disabled"))
  else
    match up_session with
    | Some e => (s, Fail e)
    | None =>
        let s := add_handles 1 0 s in
        match up_connect with
        | Some e => (add_handles (-1) 0 s, Fail e)
        | None =>
            let s := add_handles 0 1 s in
            let closed := add_handles (-1) (-1) s in
            match up_get_list with
            | Some e => (closed, Fail e)
            | None =>
                match up_read_list with
                | Fail e => (closed, Fail e)
                | Panic => (closed, Panic)
                | Ret list =>
                    if Z.of_nat (length list) >? list_limit
                    then (if keepSession then s else closed, Fail (ErrorString "update metadata too large"))
                    else
                      match (files ← readFileList list; findCandidate Number Arch files) with
                      | Ret found => (if keepSession then s else closed, Ret found)
                      | Fail e => (closed, Fail e)
                      | Panic => (closed, Panic)
                      end
                end
            end
        end
    end.

Definition CheckForUpdate (s : ustate) : ustate * outcome (option UpdateFound) := checkForUpdate false s.

(** From the temporary file on; the file is deleted at the end. *)
Definition fetch_and_run (name hash : gostring) (s : ustate) : ustate :=
  let s := say (Activity "Downloading update") s in
  match up_get_msi name with
  | Some e => say (ErrorProgress e) s
  | None =>
      match up_hasher with
      | Some e => say (ErrorProgress e) s
      | None =>
          let '(data, copyErr) := up_copy name in
          let s := mkUS (updateInProgress s) (sent s) (sessions s) (connections s)
                     (data :: tail (temp_files s)) (installed s) in
          match copyErr with
          | Some e => say (ErrorProgress e) s
          | None =>
              if negb (up_blake2b data =?s hash) then say (ErrorProgress (ErrorString "The downloaded update has the wrong hash")) s
              else
                let s := say (Activity "Verifying authenticode signature") s in
                if negb (up_authenticode data)
                then say (ErrorProgress (ErrorString "The downloaded update does not have an authentic authenticode signature")) s
                else
                  let s := say (Activity "Installing update") s in
                  let s := mkUS (updateInProgress s) (sent s) (sessions s) (connections s) (temp_files s) (installed s ++ [data]) in
                  match up_runMsi data with
                  | Some e => say (ErrorProgress e) s
                  | None => say Complete s
                  end
          end
      end
  end.

Definition doIt (s : ustate) : ustate :=
  let s := say (Activity "Checking for update") s in
  let '(s, r) := checkForUpdate true s in
  set_busy false (
    match r with
    | Fail e => say (ErrorProgress e) s
    | Panic => s
    | Ret None => add_handles (-1) (-1) (say (ErrorProgress (ErrorString "No update was found")) s)
    | Ret (Some (name, hash)) =>
        let s := say (Activity "Creating temporary file") s in
        match up_temp with
        | Some e => add_handles (-1) (-1) (say (ErrorProgress e) s)
        | None =>
            let s := mkUS (updateInProgress s) (sent s) (sessions s) (connections s) ([] :: temp_files s) (installed s) in
            let s := fetch_and_run name hash s in
            let s := mkUS (updateInProgress s) (sent s) (sessions s) (connections s) (tail (temp_files s)) (installed s) in
            add_handles (-1) (-1) s
        end
    end).

Definition DownloadVerifyAndExecute (userToken : Z) (s : ustate) : ustate :=
  let s := say (Activity "Initializing") s in
  if updateInProgress s then say (ErrorProgress (ErrorString "An update is already in progress")) s
  else
    let s := set_busy true s in
    if userToken =? 0 then match up_DoAsSystem with Some e => say (ErrorProgress e) s | None => doIt s end
    else doIt s.
End Download.

(** ** Looking for updates in the background ([updatestate.go]) *)

(** One round of [checkForUpdates]: whether the clients are told, how long to
    sleep (a range, in nanoseconds), and the two flags. *)
Record check_state := mkCheck { noError : bool; didNotify : bool }.

Definition check_round (r : outcome (option UpdateFound)) (st : check_state) : check_state * bool * option (Z * Z) :=
  let err := match r with Ret _ => false | _ => true end in
  let found := match r with Ret (Some _) => true | _ => false end in
  if found && negb (didNotify st) then (mkCheck (noError st) true, true, None)
  else if err && negb (didNotify st) then
    if noError st then (mkCheck false (didNotify st), false, Some (4 * Minute, 6 * Minute))
    else (st, false, Some (25 * Minute, 30 * Minute))
  else (st, false, Some (Hour - 3 * Minute, Hour + 3 * Minute)).

(** ** The updater: theorems

    Which version is newer, what an installer must have passed before it is run,
    and what an update leaves behind. *)

Local Open Scope Z_scope.

(** ** Versions *)

(** The value of a version part; past its end a version goes on with zeros. *)
Definition part_at (v : list Z) (i : nat) : Z := nth i v 0.

(** [c] is newer than [o]: greater at the first part where they differ. *)
Definition newer (c o : list Z) : Prop := ∃ i, part_at c i > part_at o i ∧ ∀ j, (j < i)%nat → part_at c j = part_at o j.

(** The numbers of a version text. *)
Definition numbers (s : gostring) (v : list Z) : Prop := Forall2 (λ p n, ParseUint p 16 = Ret n ∧ p ≠ []) (Split s x2e) v.

Lemma version_part_at parts v i : Forall2 (λ p n, ParseUint p 16 = Ret n ∧ p ≠ []) parts v → version_part parts i = Ret (part_at v i).
Proof.
  intros Hf. unfold version_part, part_at. revert i. induction Hf as [|p n parts v [Hp Hne] Hf IH]; intros i; [by destruct i|].
  destruct i as [|i]; cbn; [|apply IH]. destruct p; [done|]. by rewrite Hp.
Qed.

Lemma compare_parts_spec candidate ours c o :
  Forall2 (λ p n, ParseUint p 16 = Ret n ∧ p ≠ []) candidate c → Forall2 (λ p n, ParseUint p 16 = Ret n ∧ p ≠ []) ours o →
  ∀ fuel i, (∀ k, (i + fuel ≤ k)%nat → part_at c k = part_at o k) → (∀ j, (j < i)%nat → part_at c j = part_at o j) →
  ∃ b, compare_parts fuel i candidate ours = Ret b ∧ (b = true ↔ newer c o).
Proof.
  intros Hc Ho. induction fuel as [|fuel IH]; intros i Hend Hpre; cbn [compare_parts].
  - exists false. split; [done|]. split; [done|]. intros (k & Hk & _). exfalso. destruct (decide (k < i)%nat) as [Hlt|Hge].
    + rewrite (Hpre k Hlt) in Hk. lia.
    + rewrite (Hend k) in Hk by lia. lia.
  - rewrite (version_part_at _ _ _ Hc), (version_part_at _ _ _ Ho). cbn [mbind outcome_bind]. destruct (Z.eqb_spec (part_at c i) (part_at o i)) as [E|E].
    + apply IH; [intros k Hk; apply Hend; lia|]. intros j Hj. destruct (decide (j = i)) as [->|]; [done|]. apply Hpre. lia.
    + eexists. split; [done|]. rewrite Z.gtb_lt. split.
      * intros Hlt. exists i. split; [lia|done].
      * intros (k & Hk & Hj). destruct (decide (k < i)%nat) as [Hlt|Hge]; [rewrite (Hpre k Hlt) in Hk; lia|].
        destruct (decide (k = i)) as [->|]; [lia|]. exfalso. apply E, Hj. lia.
Qed.

(** Versions are compared part by part as numbers, missing parts being zero. *)
Theorem versionNewerThanUs_spec Number candidate c o : numbers candidate c → numbers Number o →
  ∃ b, versionNewerThanUs Number candidate = Ret b ∧ (b = true ↔ newer c o).
Proof.
  intros Hc Ho. unfold versionNewerThanUs. apply (compare_parts_spec _ _ _ _ Hc Ho); [|lia].
  pose proof (Forall2_length _ _ _ Hc). pose proof (Forall2_length _ _ _ Ho). intros k Hk. unfold part_at. by rewrite !nth_overflow by lia.
Qed.

(** ** What is run *)

Section Signed.
Context {RT : GoRuntime} {ED : Ed25519} `{UpdateHost} (Number Arch : gostring).
#[local] Set Default Proof Using "Type".

(** The release key in the program. *)
Definition release_key : gostring := match b64_DecodeString releasePublicKeyBase64 with Ret k => drop 10 k | _ => [] end.

(** A list is what it is only with a signature of the release key over it. *)
Lemma readFileList_signed input files : readFileList input = Ret files →
  ∃ comment signature body sig, split3 input = Some (comment, signature, body) ∧ b64_DecodeString signature = Ret sig ∧
    ed25519_Verify release_key body (drop 10 sig) = true ∧ read_hashes (Split body x0a) ∅ = Ret files.
Proof.
  unfold readFileList, release_key. intros Hr. apply bind_ret in Hr as (k & Hk%map_error_ret & Hr). rewrite Hk. apply bind_ret in Hr as ([] & _ & Hr).
  apply bind_ret in Hr as ([[comment signature] body] & Hs%or_fail_ret & Hr). apply bind_ret in Hr as ([] & _ & Hr).
  apply bind_ret in Hr as (sig & Hsig%map_error_ret & Hr). apply bind_ret in Hr as ([] & _ & Hr). apply bind_ret in Hr as ([] & Hv%fail_if_ret%negb_false_iff & Hr).
  apply bind_ret in Hr as (fs & Hfs & Hr). apply bind_ret in Hr as ([] & _ & [= <-]). eauto 8.
Qed.

(** The version between the prefix, which ends in a dash, and the suffix. *)
Lemma trim_version p0 rest : let name := (p0 ++ "-") ++ rest in HasSuffix name msiSuffix = true →
  TrimPrefix name (p0 ++ "-") = rest ∧ rest = TrimSuffix rest msiSuffix ++ msiSuffix.
Proof.
  intros name Hs. split.
  { unfold TrimPrefix, name. rewrite (proj2 (HasPrefix_spec _ _)) by eauto. apply drop_app_length. }
  unfold HasSuffix in Hs. apply HasPrefix_spec in Hs as [t Ht]. unfold name in Ht. rewrite !rev_app_distr in Ht. cbn in Ht.
  destruct (rev rest) as [|a [|b [|c [|d r]]]] eqn:Er; try (cbn in Ht; discriminate Ht).
  injection Ht as -> -> -> -> _. assert (rest = rev r ++ msiSuffix) as ->.
  { rewrite <- (rev_involutive rest), Er. cbn. by rewrite <- !app_assoc. }
  unfold TrimSuffix, HasSuffix. rewrite rev_app_distr. rewrite (proj2 (HasPrefix_spec _ _)) by eauto.
  rewrite length_app. replace (length (rev r) + length msiSuffix - length msiSuffix)%nat with (length (rev r)) by lia. by rewrite take_app_length.
Qed.

Lemma find_candidate_found l name hash : find_candidate Number Arch l = Ret (Some (name, hash)) →
  (name, hash) ∈ l ∧ ∃ version, name = msiArchPrefix Arch ++ version ++ msiSuffix ∧ versionNewerThanUs Number version = Ret true.
Proof.
  induction l as [|[n h] l IH]; cbn [find_candidate]; [done|]. destruct (HasPrefix n (msiArchPrefix Arch)) eqn:Ep; cbn [andb].
  - destruct (HasSuffix n msiSuffix) eqn:Es.
    + destruct (128 <? _)%nat; [done|]. intros Hr. apply bind_ret in Hr as (b & Hb & Hr). destruct b.
      * injection Hr as -> ->. split; [left|]. eexists. split; [|exact Hb].
        apply HasPrefix_spec in Ep as [rest ->]. unfold msiArchPrefix in *. rewrite app_assoc in Es |- *. destruct (trim_version _ _ Es) as [Et Er]. by rewrite Et, <- Er.
      * destruct (IH Hr) as [Hin Hv]. split; [by right|done].
    + intros Hr. destruct (IH Hr) as [Hin Hv]. split; [by right|done].
  - intros Hr. destruct (IH Hr) as [Hin Hv]. split; [by right|done].
Qed.

(** An installer the updater vouches for: in a list signed by the release key,
    for this architecture, of a newer version, with the hash of the list and an
    Authenticode signature. *)
Definition vouched (data : gostring) : Prop :=
  up_official = true ∧
  ∃ list comment signature body sig files name version,
    up_read_list = Ret list ∧ split3 list = Some (comment, signature, body) ∧ b64_DecodeString signature = Ret sig ∧
    ed25519_Verify release_key body (drop 10 sig) = true ∧ read_hashes (Split body x0a) ∅ = Ret files ∧
    name = msiArchPrefix Arch ++ version ++ msiSuffix ∧ versionNewerThanUs Number version = Ret true ∧
    files !! name = Some (up_blake2b data) ∧ fst (up_copy name) = data ∧ up_authenticode data = true.

(** What the list said. *)
Lemma checkForUpdate_found keep s s' name hash : checkForUpdate Number Arch keep s = (s', Ret (Some (name, hash))) →
  up_official = true ∧ ∃ list files, up_read_list = Ret list ∧ readFileList list = Ret files ∧ files !! name = Some hash ∧
    ∃ version, name = msiArchPrefix Arch ++ version ++ msiSuffix ∧ versionNewerThanUs Number version = Ret true.
Proof.
  unfold checkForUpdate. destruct up_official; [|done]. cbn [negb]. destruct up_session; [done|]. destruct up_connect; [done|]. destruct up_get_list; [done|].
  destruct up_read_list as [list|e|]; [|done|done]. destruct (_ >? _); [done|].
  destruct (files ← readFileList list; findCandidate Number Arch files) as [found|e|] eqn:Ef; [|done|done]. intros [= _ ->].
  apply bind_ret in Ef as (files & Hfiles & Hfound). apply find_candidate_found in Hfound as [Hin Hv]. rewrite iterate_perm in Hin.
  apply elem_of_map_to_list in Hin. split; [done|]. by exists list, files.
Qed.

Lemma checkForUpdate_effects keep s : let s' := fst (checkForUpdate Number Arch keep s) in
  installed s' = installed s ∧ temp_files s' = temp_files s ∧ updateInProgress s' = updateInProgress s.
Proof. unfold checkForUpdate. repeat case_match; done. Qed.

Lemma fetch_installs name hash s : installed (fetch_and_run name hash s) = installed s ∨
  installed (fetch_and_run name hash s) = installed s ++ [fst (up_copy name)] ∧ up_blake2b (fst (up_copy name)) = hash ∧ up_authenticode (fst (up_copy name)) = true.
Proof.
  unfold fetch_and_run. destruct (up_get_msi name); [by left|]. destruct up_hasher; [by left|]. destruct (up_copy name) as [data copyErr]. destruct copyErr; [by left|].
  cbn [fst]. destruct (str_eqb_spec (up_blake2b data) hash) as [Eh|]; [|by left]. destruct (up_authenticode data) eqn:Ea; [|by left].
  right. cbn [negb]. destruct (up_runMsi data); done.
Qed.

(** At most one installer is run, and it is vouched for. *)
Definition runs_vouched (before after : list gostring) : Prop := after = before ∨ ∃ data, after = before ++ [data] ∧ vouched data.

Lemma doIt_installs s : runs_vouched (installed s) (installed (doIt Number Arch s)).
Proof.
  unfold doIt. set (s0 := say _ s). pose proof (checkForUpdate_effects true s0) as (Hi & _). destruct (checkForUpdate Number Arch true s0) as [s1 r] eqn:Ec. cbn in Hi.
  destruct r as [[[name hash]|]|e|]; cbn; [|by left..].
  destruct (checkForUpdate_found _ _ _ _ _ Ec) as (Ho & list & files & Hl & Hf & Hn & version & Hv & Hnew).
  destruct up_temp; cbn; [by left|]. set (s2 := mkUS _ _ _ _ ([] :: _) _).
  destruct (fetch_installs name hash s2) as [E|(E & Eh & Ea)]; rewrite E; cbn; rewrite Hi; [by left|]. right. eexists. split; [done|].
  destruct (readFileList_signed _ _ Hf) as (comment & signature & body & sig & H1 & H2 & H3 & H4).
  subst hash. split; [done|]. by exists list, comment, signature, body, sig, files, name, version.
Qed.

(** C13: no installer is run that the release key did not sign for: an update
    either runs nothing or runs exactly one installer, once; that one is in a
    list signed by the release key, of a newer version, with the hash of the list
    and an Authenticode signature.  While an update is in progress another one runs nothing. *)
Theorem only_vouched_installers_run userToken s :
  runs_vouched (installed s) (installed (DownloadVerifyAndExecute Number Arch userToken s))
  ∧ (updateInProgress s = true → installed (DownloadVerifyAndExecute Number Arch userToken s) = installed s).
Proof.
  unfold DownloadVerifyAndExecute. cbn [say updateInProgress]. destruct (updateInProgress s); [split; [by left|done]|].
  split; [|done]. set (s1 := set_busy true _).
  destruct (userToken =? 0); [destruct up_DoAsSystem; [by left|]|]; apply (doIt_installs s1).
Qed.

(** ** What an update leaves behind *)

Lemma fetch_keeps name hash s : let s' := fetch_and_run name hash s in
  sessions s' = sessions s ∧ connections s' = connections s ∧ tail (temp_files s') = tail (temp_files s).
Proof. unfold fetch_and_run. repeat case_match; done. Qed.

(** An update closes what it opened, deletes its file and lets the next one
    start, provided the list is not too long. *)
Theorem update_cleans_up s : (∀ list, up_read_list = Ret list → Z.of_nat (length list) <= list_limit) →
  let s' := doIt Number Arch s in
  sessions s' = sessions s ∧ connections s' = connections s ∧ temp_files s' = temp_files s ∧ updateInProgress s' = false.
Proof.
  intros Hl. unfold doIt. set (s0 := say _ s). change (sessions s) with (sessions s0). change (connections s) with (connections s0). change (temp_files s) with (temp_files s0).
  pose proof (checkForUpdate_effects true s0) as (_ & Ht & _).
  assert (match snd (checkForUpdate Number Arch true s0) with
          | Ret _ => sessions (fst (checkForUpdate Number Arch true s0)) = sessions s0 + 1 ∧ connections (fst (checkForUpdate Number Arch true s0)) = connections s0 + 1
          | _ => sessions (fst (checkForUpdate Number Arch true s0)) = sessions s0 ∧ connections (fst (checkForUpdate Number Arch true s0)) = connections s0 end) as Hh.
  { unfold checkForUpdate, add_handles. destruct up_official; [|done]. destruct up_session; [done|].
    destruct up_connect; [cbn [negb fst snd sessions connections]; lia|]. destruct up_get_list; [cbn [negb fst snd sessions connections]; lia|].
    destruct up_read_list as [list|e|]; [|cbn [negb fst snd sessions connections]; lia..]. rewrite Z.gtb_ltb, (proj2 (Z.ltb_ge _ _)) by by apply Hl. destruct (_ ≫= _); cbn [negb fst snd sessions connections]; lia. }
  destruct (checkForUpdate Number Arch true s0) as [s1 r]. cbn in Hh, Ht. destruct r as [[[name hash]|]|e|]; cbn.
  - destruct up_temp; cbn; [by split_and!; [lia|lia|done|done]|]. set (s2 := mkUS _ _ _ _ ([] :: _) _).
    destruct (fetch_keeps name hash s2) as (E1 & E2 & E3). rewrite E1, E2, E3. cbn. split_and!; [lia|lia|done|done].
  - split_and!; [lia|lia|done|done].
  - split_and!; [lia|lia|done|done].
  - split_and!; [lia|lia|done|done].
Qed.

(** A list that is too long leaves the session and the connection open: the
    error that is returned is not the one the deferred functions look at. *)
Theorem long_list_leaks s list : up_official = true → up_session = None → up_connect = None → up_get_list = None →
  up_read_list = Ret list → Z.of_nat (length list) > list_limit →
  let s' := doIt Number Arch s in sessions s' = sessions s + 1 ∧ connections s' = connections s + 1.
Proof.
  intros Ho Hs Hc Hg Hr Hl. unfold doIt, checkForUpdate. rewrite Ho, Hs, Hc, Hg, Hr. cbn [negb].
  rewrite Z.gtb_ltb, (proj2 (Z.ltb_lt _ _)) by lia. cbn. lia.
Qed.

(** When the system account cannot be used, no update can be started again. *)
Theorem failed_elevation_blocks s e : updateInProgress s = false → up_DoAsSystem = Some e →
  let s' := DownloadVerifyAndExecute Number Arch 0 s in
  updateInProgress s' = true ∧ ∀ userToken, installed (DownloadVerifyAndExecute Number Arch userToken s') = installed s.
Proof.
  intros Hb He. unfold DownloadVerifyAndExecute. cbn. rewrite Hb. cbn. rewrite He. cbn. done.
Qed.
End Signed.

(** ** Looking for updates *)

Fixpoint times_told (results : list (outcome (option UpdateFound))) (st : check_state) : nat :=
  match results with
  | [] => 0
  | r :: results => let '(st', told, _) := check_round r st in (if told then 1 else 0) + times_told results st'
  end.

(** The clients are told at most once. *)
Theorem told_once results : ∀ st, (times_told results st <= if didNotify st then 0 else 1)%nat.
Proof.
  induction results as [|r results IH]; intros st; cbn [times_told]; [lia|]. destruct st as [n d], r as [[x|]|e|], n, d; unfold check_round; cbn [negb andb noError didNotify].
  all: match goal with IH : ∀ st, _ |- context [times_told _ ?st] => specialize (IH st); cbn in IH; lia end.
Qed.

(** ** A concrete update *)

#[local] Existing Instance plain_runtime.
#[local] Instance all_signed : Ed25519 := λ _ _ _, true.

Definition demo_list : gostring :=
  Join ["untrusted comment: releases";
        b64_EncodeToString (match b64_DecodeString releasePublicKeyBase64 with Ret k => take 10 k | _ => [] end ++ replicate 64 x00);
        concat (replicate 32 "01") ++ "  wireguard-amd64-9.1.msi"; []] [x0a].

#[local] Instance demo_update : UpdateHost := {|
  up_official := true; up_session := None; up_connect := None; up_get_list := None; up_read_list := Ret demo_list; up_temp := None;
  up_get_msi _ := None; up_hasher := None; up_copy _ := ("installer", None); up_blake2b _ := replicate 32 x01; up_authenticode _ := true;
  up_runMsi _ := None; up_DoAsSystem := None |}.

Definition no_update : ustate := mkUS false [] 0 0 [] [].

Lemma only_vouched_installers_run_witness :
  installed (DownloadVerifyAndExecute "9.0.5" "amd64" 0 no_update) = ["installer"] ∧ vouched "9.0.5" "amd64" "installer".
Proof.
  assert (installed (DownloadVerifyAndExecute "9.0.5" "amd64" 0 no_update) = ["installer"]) as Hi by (vm_compute; reflexivity).
  split; [exact Hi|]. destruct (only_vouched_installers_run "9.0.5" "amd64" 0 no_update) as [[Hx|(d & Hx & Hd)] _]; rewrite Hi in Hx; [done|].
  injection Hx as <-. exact Hd.
Defined.

Lemma update_cleans_up_witness : let s' := doIt "9.0.5" "amd64" no_update in
  last (sent s') = Some Complete ∧ sessions s' = 0 ∧ connections s' = 0 ∧ temp_files s' = [] ∧ updateInProgress s' = false.
Proof.
  split; [vm_compute; reflexivity|]. apply (update_cleans_up "9.0.5" "amd64" no_update). intros list [= <-]. vm_compute. discriminate.
Defined.

Lemma versionNewerThanUs_spec_witness : ∃ b, versionNewerThanUs "9.0.5" "9.1" = Ret b ∧ (b = true ↔ newer [9; 1] [9; 0; 5]).
Proof.
  apply versionNewerThanUs_spec; repeat constructor; try reflexivity; discriminate.
Defined.
