(* ===== verification/Install.v ===== *)
(** * Installing the program ([client/manager/install.go], [client/smart/smart.go])

    Before the service control manager starts anything with privileges, the
    engine, the driver library and the program are checked and copied out of the
    download folder into a directory only administrators can write.  Then the
    services: the manager and the tunnels, and their removal. *)
From S2P Require Import Prelude GoStrings GoStrconv GoEncoding GoPath GoSha256 GoOs AwgValidation SmartRules SmartCatalog SmartUpdate SmartSettings SmartStore SmartStoreFacts WinIp TunnelName Services.

Local Open Scope Z_scope.

(** Values the release builder sets at link time. *)
Class Release := {
  EngineSHA256 : gostring;
  wintunDLLSHA256 : gostring;
  Number : gostring;             (* version.Number *)
}.

Class InstallHost := {
  Getenv : gostring → gostring;
  Executable : outcome gostring;           (* os.Executable *)
  Abs : gostring → outcome gostring;       (* filepath.Abs *)
  ih_RootDirectory : outcome gostring;     (* conf.RootDirectory(true), of ConfStore.v *)
  rename_tries : nat;                      (* further tries to rename within five seconds *)
}.

(** ** Files *)

Section Files.
Context {RT : GoRuntime} {FT : Faults} `{Release} `{InstallHost}.

(** [fmt.Sprintf("%X", d)]. *)
Definition format_X (d : list byte) : gostring :=
  map (λ b, if in_range 97 102 b then zb (bz b - 32) else b) (hex_EncodeToString d).

Definition verifyPinnedFile (path expectedSHA256 displayName : gostring) : IO unit :=
  let! data := ReadFile path in
  let actual := format_X (Sum256 data) in
  if negb (actual =?s expectedSHA256)
  then io_fail (ErrorString (displayName ++ " integrity check failed: got " ++ actual)) else io_ret tt.

Definition verifyWintunDLL (path : gostring) : IO unit := verifyPinnedFile path wintunDLLSHA256 "wintun.dll".

(** The same code, in smart.go. *)
Definition VerifyEngine (path : gostring) : IO unit := verifyPinnedFile path EngineSHA256 "amnezia-box.exe".

Definition Stat (path : gostring) : IO unit :=
  call (λ fs, (fs, match fs !! path with Some _ => Ret tt | None => Fail ErrNotExist end)) unchanged.

Definition engine_missing : goerror := ErrorString "amnezia-box.exe not found near amneziawg.exe and PINUS_SMART_ENGINE is not set".

Fixpoint find_engine (candidates : list gostring) : IO gostring :=
  match candidates with
  | [] => io_fail engine_missing
  | candidate :: candidates =>
      let! found := attempt (Stat candidate) in
      match found with
      | Ret _ => VerifyEngine candidate ;; io_ret candidate
      | _ => find_engine candidates
      end
  end.

Definition FindEnginePath : IO gostring :=
  match Getenv "PINUS_SMART_ENGINE" with
  | (_ :: _) as env => VerifyEngine env ;; io_ret env
  | [] =>
      match Executable with
      | Ret exe =>
          let dir := Dir exe in
          find_engine [filepath_Join [dir; "amnezia-box.exe"];
                       filepath_Join [Dir dir; "engine"; "amnezia-box.exe"];
                       filepath_Join [Dir (Dir dir); "engine"; "amnezia-box.exe"]]
      | _ => io_fail engine_missing
      end
  end.

(** [io.Copy] and [Sync], then [Close] in any case. *)
Definition copy_and_close (source temporary : gostring) : IO unit :=
  let! r := attempt (let! data := ReadFile source in WriteFileHandle temporary data ;; Sync temporary) in
  let! c := attempt (Close temporary) in
  io_lift (_ ← r; c).

(** The loop that renames until it works or five seconds are over. *)
Fixpoint rename_retry (tries : nat) (a b : gostring) : IO unit :=
  let! r := attempt (Rename a b) in
  match r, tries with
  | Fail e, O => io_fail e
  | Fail _, S tries => rename_retry tries a b
  | r, _ => io_lift r
  end.

Definition copyFileAtomic (source destination : gostring) : IO unit :=
  Stat source ;;  (* os.Open *)
  Stat source ;;  (* input.Stat *)
  let! temporary := CreateTemp (Dir destination) ".pinus-install-" in
  deferring (copy_and_close source temporary ;; ignore_error (Chmod temporary) ;; rename_retry rename_tries temporary destination)
    (ignore_error (Remove temporary)).

Definition installBundlePaths : outcome (gostring * gostring * gostring) :=
  exe ← Executable;
  exe ← Abs exe;
  let bundleDirectory := Dir exe in
  Ret (exe, filepath_Join [bundleDirectory; "amnezia-box.exe"], filepath_Join [bundleDirectory; "wintun.dll"]).

Definition wrap {A} (msg : gostring) (m : IO A) : IO A := λ s, let '(s, r) := m s in (s, map_error (WrapError msg) r).

Definition VerifyInstallBundle : IO unit :=
  let! paths := io_lift installBundlePaths in
  let '(_, engineSource, wintunSource) := paths in
  wrap "verify bundled engine before install: " (VerifyEngine engineSource) ;;
  wrap "verify bundled Wintun before install: " (verifyWintunDLL wintunSource).

Definition secureInstallDirectory (dataDirectory : gostring) : gostring := filepath_Join [Dir dataDirectory; "Versions"; Number].

(** [if !strings.EqualFold(source, destination) { copy }]. *)
Definition copy_unless_same (source destination msg : gostring) : IO unit :=
  if negb (EqualFold source destination) then wrap msg (copyFileAtomic source destination) else io_ret tt.

Definition StageSecureInstall : IO gostring :=
  let! paths := io_lift installBundlePaths in
  let '(currentExecutable, engineSource, wintunSource) := paths in
  wrap "verify bundled engine before install: " (VerifyEngine engineSource) ;;
  wrap "verify bundled Wintun before install: " (verifyWintunDLL wintunSource) ;;
  let! dataDirectory := io_lift ih_RootDirectory in
  let installDirectory := secureInstallDirectory dataDirectory in
  MkdirAll installDirectory ;;
  let installedExecutable := filepath_Join [installDirectory; "PinusSmartAWG.exe"] in
  let installedEngine := filepath_Join [installDirectory; "amnezia-box.exe"] in
  let installedWintun := filepath_Join [installDirectory; "wintun.dll"] in
  copy_unless_same engineSource installedEngine "install amnezia-box.exe: " ;;
  wrap "verify installed engine: " (VerifyEngine installedEngine) ;;
  copy_unless_same wintunSource installedWintun "install wintun.dll: " ;;
  wrap "verify installed Wintun: " (verifyWintunDLL installedWintun) ;;
  copy_unless_same currentExecutable installedExecutable "install PinusSmartAWG.exe: " ;;
  io_ret installedExecutable.

(** ** Checked files *)

Definition pinned (hash : gostring) (path : gostring) (s : io) : Prop :=
  ∃ data, files s !! path = Some data ∧ format_X (Sum256 data) = hash.

Lemma ReadFile_ret path s data : snd (ReadFile path s) = Ret data → files s !! path = Some data ∧ files (fst (ReadFile path s)) = files s.
Proof. intros Hr. apply call_ret in Hr as [Hf Hd]. split; [|exact Hf]. cbn in Hd. by destruct (files s !! path); [injection Hd as ->|]. Qed.

Lemma verify_ret path hash name s : snd (verifyPinnedFile path hash name s) = Ret tt →
  pinned hash path s ∧ files (fst (verifyPinnedFile path hash name s)) = files s.
Proof.
  unfold verifyPinnedFile. intros Hr. apply io_bind_ret in Hr as (data & Hd & Hr & ->). apply ReadFile_ret in Hd as [Hd Hf].
  destruct (str_eqb_spec (format_X (Sum256 data)) hash) as [E|]; [|done]. cbn [negb fst io_ret]. rewrite Hf. split; [|done]. by exists data.
Qed.

Lemma keeps_verify P path hash name : keeps P (verifyPinnedFile path hash name).
Proof. apply io_keeps_bind; [apply keeps_ReadFile|]. intros s data _. cbn zeta. destruct (negb _); [apply io_keeps_fail|apply io_keeps_ret]. Qed.

Lemma keeps_Stat P path : keeps P (Stat path).
Proof. by apply keeps_call. Qed.

Lemma verified_after path hash name s : snd (verifyPinnedFile path hash name s) = Ret tt → pinned hash path (fst (verifyPinnedFile path hash name s)).
Proof. intros Hv. apply verify_ret in Hv as [(data & Hd & He) Hf]. exists data. by rewrite Hf. Qed.

Lemma verified_then path s path' : snd ((VerifyEngine path ;; io_ret path) s) = Ret path' →
  pinned EngineSHA256 path' (fst ((VerifyEngine path ;; io_ret path) s)).
Proof. intros Hr. apply io_bind_ret in Hr as ([] & Hv & [= <-] & ->). by apply verified_after in Hv. Qed.

Lemma find_engine_ret l s path : snd (find_engine l s) = Ret path → pinned EngineSHA256 path (fst (find_engine l s)).
Proof.
  revert s. induction l as [|c l IH]; intros s Hr; [done|]. cbn [find_engine] in *. apply io_bind_ret in Hr as (found & _ & Hr & ->).
  destruct found as [[]|e|]; [|by apply IH..]. by apply verified_then.
Qed.

(** The engine that is run has the hash of the release. *)
Theorem FindEnginePath_verified s path : snd (FindEnginePath s) = Ret path → pinned EngineSHA256 path (fst (FindEnginePath s)).
Proof.
  unfold FindEnginePath. destruct (Getenv _) as [|b env]; cbv zeta.
  - destruct Executable; [apply find_engine_ret|done|done].
  - apply verified_then.
Qed.

(** ** Copies *)

Section Copies.
(** [os.CreateTemp] replaces the star by decimal digits. *)
Context (temp_digits : ∀ n, Forall (λ b, is_digit b = true) (temp_suffix n)).
#[local] Set Default Proof Using "temp_digits".

(** A path that is not one of the temporary files. *)
Definition ends_in_letter (p : gostring) : Prop := ∃ b, last p = Some b ∧ is_digit b = false ∧ b ≠ "-"%byte.

Lemma letter_not_temp dir n p : ends_in_letter p → dir ++ "\" ++ ".pinus-install-" ++ temp_suffix n ≠ p.
Proof.
  intros (b & Hl & Hd & Hb) <-. destruct (last_app_cons (dir ++ "\" ++ ".pinus-install") "-"%byte (temp_suffix n)) as (y & Hy & Hin).
  rewrite <- !app_assoc in Hy. cbn [app] in Hl, Hy. rewrite Hl in Hy. injection Hy as <-. destruct Hin as [->|Hin]; [done|].
  pose proof (proj1 (Forall_forall _ _) (temp_digits n) _ Hin) as Hx. cbn in Hx. congruence.
Qed.

Lemma io_keeps_wrap {A} P msg (m : IO A) : keeps P m → keeps P (wrap msg m).
Proof using Type. intros Hm s Hs. specialize (Hm s Hs). unfold wrap. by destruct (m s). Qed.

Lemma io_wrap_ret {A} msg (m : IO A) s a : snd (wrap msg m s) = Ret a → snd (m s) = Ret a ∧ fst (wrap msg m s) = fst (m s).
Proof using Type. unfold wrap. destruct (m s) as [s1 r]. cbn. by destruct r. Qed.

Lemma keeps_copy_and_close p v source temporary : temporary ≠ p → keeps (holds p v) (copy_and_close source temporary).
Proof.
  intros Hne. destruct (keeps_nop (holds p v) temporary) as (_ & Hs & Hc & _).
  apply io_keeps_bind; [apply io_keeps_attempt, io_keeps_bind; [apply keeps_ReadFile|]|].
  - intros _ data _. apply io_keeps_bind; [by apply keeps_write|]. done.
  - intros _ r _. apply io_keeps_bind; [by apply io_keeps_attempt|]. intros. apply keeps_pure.
Qed.

Lemma keeps_rename_retry p v tries a b : a ≠ p → b ≠ p → keeps (holds p v) (rename_retry tries a b).
Proof.
  intros Ha Hb. induction tries as [|tries IH]; cbn [rename_retry];
    (apply io_keeps_bind; [by apply io_keeps_attempt, keeps_rename|]; intros _ [u|e|] _; try apply keeps_pure; done || apply io_keeps_fail).
Qed.

Lemma keeps_copyFileAtomic p v source destination : destination ≠ p → ends_in_letter p → keeps (holds p v) (copyFileAtomic source destination).
Proof.
  intros Hd Hp. do 2 (apply io_keeps_bind; [apply keeps_Stat|]; intros _ _ _).
  apply io_keeps_bind; [apply keeps_create; intros n; by apply letter_not_temp|]. intros s temporary Ht. apply CreateTemp_ret in Ht.
  assert (temporary ≠ p) as Hne by (rewrite Ht; by apply letter_not_temp).
  apply io_keeps_deferring; [|by apply io_keeps_ignore, keeps_remove]. apply io_keeps_bind; [by apply keeps_copy_and_close|]. intros _ _ _.
  apply io_keeps_bind; [apply io_keeps_ignore; by destruct (keeps_nop (holds p v) temporary) as (_ & _ & _ & ?)|]. intros _ _ _.
  by apply keeps_rename_retry.
Qed.

(** The rename, when the temporary file is whole: it happens or changes nothing. *)
Lemma rename_retry_cases tries a b data s : a ≠ b → files s !! a = Some data →
  replaces b data (rename_retry tries a b) s.
Proof using Type.
  intros Hne. revert s. induction tries as [|tries IH]; intros s Ha; cbn [rename_retry]; unfold replaces, io_bind, attempt.
  all: destruct (rename_cases a b s) as [(d & Hd & Hr & Hf & Hp)|([e Hr] & Hf & Hp)]; destruct (Rename a b s) as [s1 r]; cbn in Hr, Hf, Hp; subst r; cbn.
  1,3: rewrite Ha in Hd; injection Hd as <-; assert (files s1 !! b = Some data) as Hb by (rewrite Hf; unfold files_t in *; by rewrite lookup_insert_eq);
       (split; [|done]); exists [files s]; rewrite Hp; repeat split; [repeat constructor; by left|by right].
  - split; [|by rewrite Hf]. exists [files s]. rewrite Hp. repeat split; [repeat constructor; by left|left; by rewrite Hf].
  - destruct (IH s1) as [Hw Hx]; [by rewrite Hf|]. rewrite Hf in Hw, Hx. split; [|exact Hx].
    eapply went_through_trans; [|exact Hw]. exists [files s]. rewrite Hp. repeat split; [repeat constructor; by left|left; by rewrite Hf].
Qed.

Lemma copy_and_close_ret source temporary data s : source ≠ temporary → files s !! source = Some data →
  snd (copy_and_close source temporary s) = Ret tt → files (fst (copy_and_close source temporary s)) !! temporary = Some data.
Proof using Type.
  intros Hne Hs. unfold copy_and_close, attempt, io_bind, ReadFile, WriteFileHandle, Sync, Close, call, io_lift, unchanged.
  destruct (fault (calls s)); cbn; [by destruct (fault _)|]. rewrite Hs. cbn. destruct (fault (S _)); cbn; [by destruct (fault _)|].
  destruct (fault (S (S _))); cbn; [by destruct (fault _)|]. destruct (fault (S (S (S _)))); cbn; [done|]. intros _. unfold files_t. by rewrite lookup_insert_eq.
Qed.

Lemma replaces_deferring {A} p data (m : IO A) d s : replaces p data m s → (∀ v, keeps (holds p v) d) → replaces p data (deferring m d) s.
Proof using Type.
  intros [Hw Hr] Hd. unfold replaces, deferring. destruct (m s) as [s1 r]. cbn in Hw, Hr. pose proof (Hd (files s1 !! p) s1 eq_refl) as Hk.
  destruct (d s1) as [s2 r2]. cbn in Hk |- *. assert (files s2 !! p = files s1 !! p) as E by (by destruct Hk as (? & ? & ? & ?)).
  assert (old_or_new p (files s !! p) data (files s1)) as Ho by (by destruct Hw as (? & ? & ? & ?)).
  split; [|rewrite E; exact Hr]. eapply went_through_trans; [exact Hw|]. eapply went_through_mono; [|exact Hk].
  intros fs Hfs. unfold old_or_new, holds in *. by rewrite Hfs.
Qed.

Lemma keeps_then {A} P (m : IO A) s : keeps P m → P (files s) → P (files (fst (m s))).
Proof using Type. intros Hm Hs. by destruct (Hm s Hs) as (? & ? & ? & ?). Qed.

Lemma copyFileAtomic_replaces source destination data s : ends_in_letter source → ends_in_letter destination →
  files s !! source = Some data → replaces destination data (copyFileAtomic source destination) s.
Proof.
  intros Hls Hld Hs. unfold copyFileAtomic.
  apply replaces_bind; [apply keeps_Stat|]. intros _ _. set (s1 := fst (Stat source s)).
  assert (files s1 !! source = Some data) as H1 by (by apply (keeps_then (holds source (Some data))), Hs; apply keeps_Stat).
  apply replaces_bind; [apply keeps_Stat|]. intros _ _. set (s2 := fst (Stat source s1)).
  assert (files s2 !! source = Some data) as H2 by (by apply (keeps_then (holds source (Some data))), H1; apply keeps_Stat).
  apply replaces_bind; [apply keeps_create; intros n; by apply letter_not_temp|]. intros temporary Ht. set (s3 := fst (CreateTemp _ _ s2)).
  assert (files s3 !! source = Some data) as H3.
  { apply (keeps_then (holds source (Some data))), H2. apply keeps_create. intros n. by apply letter_not_temp. }
  apply CreateTemp_ret in Ht. assert (temporary ≠ destination ∧ temporary ≠ source) as [Hn1 Hn2] by (rewrite Ht; split; by apply letter_not_temp).
  apply replaces_deferring; [|intros v; by apply io_keeps_ignore, keeps_remove].
  apply replaces_bind; [by apply keeps_copy_and_close|]. intros [] Hc.
  assert (files (fst (copy_and_close source temporary s3)) !! temporary = Some data) as H4 by (by apply copy_and_close_ret). set (s4 := fst (copy_and_close _ _ _)) in *.
  assert (∀ P, keeps P (ignore_error (Chmod temporary))) as Hch by (intros P; apply io_keeps_ignore; by destruct (keeps_nop P temporary) as (_ & _ & _ & ?)).
  apply replaces_bind; [apply Hch|]. intros _ _. apply rename_retry_cases; [done|]. by apply (keeps_then (holds temporary (Some data))), H4; apply Hch.
Qed.

(** ** The staged installation *)

(** The directory is written as [filepath.Clean] leaves it. *)
Definition clean_dir (dir : gostring) : Prop :=
  ∀ f, f ∈ ["PinusSmartAWG.exe"; "amnezia-box.exe"; "wintun.dll"] → filepath_Join [dir; f] = dir ++ "\" ++ f.

Lemma copy_unless_ret source destination msg s : snd (copy_unless_same source destination msg s) = Ret tt →
  EqualFold source destination = true ∧ fst (copy_unless_same source destination msg s) = s
  ∨ EqualFold source destination = false ∧ snd (copyFileAtomic source destination s) = Ret tt
    ∧ fst (copy_unless_same source destination msg s) = fst (copyFileAtomic source destination s).
Proof using Type.
  unfold copy_unless_same. destruct (EqualFold source destination); cbn; [by left|]. intros Hr. apply io_wrap_ret in Hr as [Hr Hf]. by right.
Qed.

Lemma keeps_copy_unless p v source destination msg : destination ≠ p → ends_in_letter p → keeps (holds p v) (copy_unless_same source destination msg).
Proof. intros Hd Hp. unfold copy_unless_same. destruct (negb _); [|apply io_keeps_ret]. by apply io_keeps_wrap, keeps_copyFileAtomic. Qed.

Section Stage.
Context (current engineSource wintunSource dataDirectory : gostring).
Context (Hbundle : installBundlePaths = Ret (current, engineSource, wintunSource)).
Context (Hroot : ih_RootDirectory = Ret dataDirectory).
Context (Hclean : clean_dir (secureInstallDirectory dataDirectory)).
#[local] Set Default Proof Using "All".

Definition installed (f : gostring) : gostring := secureInstallDirectory dataDirectory ++ "\" ++ f.

Lemma installed_letter f b : last f = Some b → is_digit b = false → b ≠ "-"%byte → ends_in_letter (installed f).
Proof using Type.
  intros Hl Hd Hb. exists b. split; [|done]. unfold installed. rewrite last_app. destruct (last ("\" ++ f)) as [x|] eqn:E; rewrite last_app, Hl in E; congruence.
Qed.
Lemma exe_letter : ends_in_letter (installed "PinusSmartAWG.exe").
Proof using Type. by apply (installed_letter _ "e"%byte). Qed.
Lemma engine_letter : ends_in_letter (installed "amnezia-box.exe").
Proof using Type. by apply (installed_letter _ "e"%byte). Qed.
Lemma wintun_letter : ends_in_letter (installed "wintun.dll").
Proof using Type. by apply (installed_letter _ "l"%byte). Qed.
Lemma installed_ne f g : f ≠ g → installed f ≠ installed g.
Proof using Type. intros Hne E. unfold installed in E. apply app_inv_head in E. cbn in E. congruence. Qed.

(** The steps after the checks of the bundle. *)
Definition stage_files : IO gostring :=
  copy_unless_same engineSource (installed "amnezia-box.exe") "install amnezia-box.exe: " ;;
  wrap "verify installed engine: " (VerifyEngine (installed "amnezia-box.exe")) ;;
  copy_unless_same wintunSource (installed "wintun.dll") "install wintun.dll: " ;;
  wrap "verify installed Wintun: " (verifyWintunDLL (installed "wintun.dll")) ;;
  copy_unless_same current (installed "PinusSmartAWG.exe") "install PinusSmartAWG.exe: " ;;
  io_ret (installed "PinusSmartAWG.exe").

Definition check_bundle : IO unit :=
  wrap "verify bundled engine before install: " (VerifyEngine engineSource) ;;
  wrap "verify bundled Wintun before install: " (verifyWintunDLL wintunSource) ;;
  MkdirAll (secureInstallDirectory dataDirectory).

Lemma stage_unfold s : StageSecureInstall s = (check_bundle ;; stage_files) s.
Proof.
  unfold StageSecureInstall, check_bundle, stage_files, io_bind, io_lift. rewrite Hbundle. cbv beta iota zeta. rewrite Hroot. cbv beta iota zeta.
  destruct (wrap _ (VerifyEngine _) s) as [s1 [[]|e|]]; [|done|done]. destruct (wrap _ (verifyWintunDLL _) s1) as [s2 [[]|e|]]; [|done|done]. 
  pose proof (Hclean "PinusSmartAWG.exe" ltac:(set_solver)) as H1. pose proof (Hclean "amnezia-box.exe" ltac:(set_solver)) as H2.
  pose proof (Hclean "wintun.dll" ltac:(set_solver)) as H3. unfold gostring in *. rewrite H1, H2, H3. done.
Qed.

Lemma keeps_check P : keeps P check_bundle.
Proof using Type.
  do 2 (apply io_keeps_bind; [apply io_keeps_wrap, keeps_verify|]; intros _ _ _). apply keeps_nop.
Qed.

(** C14: Installing succeeds only with the files of the release: the engine and the
    driver library in the protected directory have the pinned hashes, and the
    program there is the running one. *)
Theorem StageSecureInstall_verified s s' exe : ends_in_letter current →
  current ≠ installed "amnezia-box.exe" → current ≠ installed "wintun.dll" → StageSecureInstall s = (s', Ret exe) →
  exe = installed "PinusSmartAWG.exe" ∧ pinned EngineSHA256 (installed "amnezia-box.exe") s' ∧ pinned wintunDLLSHA256 (installed "wintun.dll") s'
  ∧ (EqualFold current exe = false → files s' !! exe = files s !! current).
Proof.
  intros Hl Hn1 Hn2 Hr. rewrite stage_unfold in Hr. assert (snd ((check_bundle ;; stage_files) s) = Ret exe) as Hs by by rewrite Hr.
  assert (s' = fst ((check_bundle ;; stage_files) s)) as -> by by rewrite Hr. clear Hr.
  apply io_bind_ret in Hs as ([] & Hc & Hs & ->). set (s1 := fst (check_bundle s)) in *.
  assert (files s1 !! current = files s !! current) as H1 by by apply (keeps_then (holds current (files s !! current))); [apply keeps_check|].
  unfold stage_files in *. apply io_bind_ret in Hs as ([] & _ & Hs & ->). set (s2 := fst (copy_unless_same engineSource _ _ s1)) in *.
  assert (files s2 !! current = files s !! current) as H2 by by apply (keeps_then (holds current (files s !! current))); [apply keeps_copy_unless|].
  apply io_bind_ret in Hs as ([] & He & Hs & ->). apply io_wrap_ret in He as [He Hf3]. rewrite Hf3 in *. pose proof (verified_after _ _ _ _ He) as P3.
  apply verify_ret in He as [_ He]. set (s3 := fst (VerifyEngine _ s2)) in *. change (files s3 = files s2) in He.
  apply io_bind_ret in Hs as ([] & _ & Hs & ->). set (s4 := fst (copy_unless_same wintunSource _ _ s3)) in *.
  assert (files s4 !! current = files s !! current) as H4.
  { apply (keeps_then (holds current (files s !! current))); [by apply keeps_copy_unless|]. unfold holds. by rewrite He. }
  assert (pinned EngineSHA256 (installed "amnezia-box.exe") s4) as P4.
  { destruct P3 as (d & Hd & Hh). exists d. split; [|done]. apply (keeps_then (holds (installed "amnezia-box.exe") (Some d))), Hd. apply keeps_copy_unless; [by apply installed_ne|apply engine_letter]. }
  apply io_bind_ret in Hs as ([] & Hw & Hs & ->). apply io_wrap_ret in Hw as [Hw Hf5]. rewrite Hf5 in *. pose proof (verified_after _ _ _ _ Hw) as P5.
  apply verify_ret in Hw as [_ Hw]. set (s5 := fst (verifyWintunDLL _ s4)) in *. change (files s5 = files s4) in Hw.
  apply io_bind_ret in Hs as ([] & Hx & [= <-] & ->). cbn [fst io_ret].
  assert (∀ f d, f ≠ "PinusSmartAWG.exe" → ends_in_letter (installed f) → files s5 !! installed f = Some d →
    files (fst (copy_unless_same current (installed "PinusSmartAWG.exe") "install PinusSmartAWG.exe: " s5)) !! installed f = Some d) as Hkeep.
  { intros f d Hne Hlf Hd. apply (keeps_then (holds (installed f) (Some d))), Hd. apply keeps_copy_unless; [|done]. by apply not_eq_sym, installed_ne. }
  split_and!; [done| | |].
  - destruct P4 as (d & Hd & Hh). exists d. split; [|done]. apply Hkeep; [done|apply engine_letter|by rewrite Hw].
  - destruct P5 as (d & Hd & Hh). exists d. split; [|done]. apply Hkeep; [done|apply wintun_letter|done].
  - intros Hfold. apply copy_unless_ret in Hx as [[E _]|(_ & Hx & ->)]; [congruence|].
    assert (∃ d, files s5 !! current = Some d) as [d Hd].
    { unfold copyFileAtomic in Hx. apply io_bind_ret in Hx as ([] & Hst & _ & _). apply call_ret in Hst as [_ Hst]. cbn in Hst. destruct (files s5 !! current); [eauto|done]. }
    destruct (copyFileAtomic_replaces current (installed "PinusSmartAWG.exe") d s5 Hl exe_letter Hd) as [_ Hfin]. rewrite Hx in Hfin. rewrite Hfin, <- H4, <- Hd, Hw. done.
Qed.

(** What [p] holds satisfies [R]. *)
Definition at_path (p : gostring) (R : option gostring → Prop) (fs : files_t) : Prop := R (fs !! p).

Lemma keeps_at {A} p R (m : IO A) : (∀ v, keeps (holds p v) m) → keeps (at_path p R) m.
Proof using Type.
  intros Hm s Hs. eapply went_through_mono; [|apply (Hm (files s !! p)); done]. intros fs Hfs. unfold at_path, holds in *. by rewrite Hfs.
Qed.

Lemma copy_missing source destination s : files s !! source = None → copyFileAtomic source destination s = (fst (Stat source s), snd (Stat source s)).
Proof using Type.
  intros Hn. unfold copyFileAtomic. unfold io_bind at 1. assert (snd (Stat source s) ≠ Ret tt) as Hs.
  { intros Hs. apply call_ret in Hs as [_ Hs]. cbn in Hs. by rewrite Hn in Hs. }
  destruct (Stat source s) as [s1 [[]|e|]]; done.
Qed.

(** A copy leaves the destination as it was or makes it the whole source, at
    every moment. *)
Lemma copy_unless_went source destination msg s R : ends_in_letter source → ends_in_letter destination →
  R (files s !! destination) → R (files s !! source) → went_through (at_path destination R) s (fst (copy_unless_same source destination msg s)).
Proof using temp_digits.
  intros Hs Hd Ho Hn. unfold copy_unless_same. destruct (negb _); [|by apply went_through_refl].
  assert (went_through (at_path destination R) s (fst (copyFileAtomic source destination s))) as Hw; [|unfold wrap; by destruct (copyFileAtomic source destination s)].
  destruct (files s !! source) as [data|] eqn:E.
  - destruct (copyFileAtomic_replaces source destination data s Hs Hd E) as [Hw _]. eapply went_through_mono; [|exact Hw].
    intros fs [Hf|Hf]; unfold at_path; by rewrite Hf.
  - rewrite copy_missing by done. by apply keeps_Stat.
Qed.

Lemma went_skip {A B} p q R (m : IO A) (k : A → IO B) s : keeps (at_path p R) m → keeps (at_path q R) m → R (files s !! p) → R (files s !! q) →
  (∀ a s1, R (files s1 !! p) → R (files s1 !! q) → went_through (at_path p R) s1 (fst (k a s1))) → went_through (at_path p R) s (fst (io_bind m k s)).
Proof using Type.
  intros Hp Hq Rp Rq Hk. apply went_bind; [by apply Hp|]. intros a _. apply Hk; [by apply (keeps_then (at_path p R))|by apply (keeps_then (at_path q R))].
Qed.

Lemma went_then {A B} P (m : IO A) (k : A → IO B) s : went_through P s (fst (m s)) → (∀ a, keeps P (k a)) → went_through P s (fst (io_bind m k s)).
Proof using Type. intros Hm Hk. apply went_bind; [done|]. intros a _. apply Hk. by eapply went_end. Qed.

Lemma keeps_stage_check P msg path hash name : keeps P (wrap msg (verifyPinnedFile path hash name)).
Proof using Type. apply io_keeps_wrap, keeps_verify. Qed.

Lemma keeps_stage_copy p R source f msg : installed f ≠ p → ends_in_letter p → keeps (at_path p R) (copy_unless_same source (installed f) msg).
Proof using temp_digits. intros Hne Hp. apply keeps_at. intros v. by apply keeps_copy_unless. Qed.

(** Whatever call fails and wherever the machine stops, every file of the
    installation is what it was before or the whole file of the bundle. *)
Theorem StageSecureInstall_atomic s : ends_in_letter engineSource → ends_in_letter wintunSource → ends_in_letter current →
  wintunSource ≠ installed "amnezia-box.exe" → current ≠ installed "amnezia-box.exe" → current ≠ installed "wintun.dll" →
  Forall (λ '(source, f), went_through (at_path (installed f) (λ v, v = files s !! installed f ∨ v = files s !! source)) s (fst (StageSecureInstall s)))
    [(engineSource, "amnezia-box.exe"); (wintunSource, "wintun.dll"); (current, "PinusSmartAWG.exe")].
Proof.
  intros L1 L2 L3 N1 N2 N3. rewrite stage_unfold. pose proof engine_letter as E1. pose proof wintun_letter as E2. pose proof exe_letter as E3.
  assert (installed "amnezia-box.exe" ≠ installed "wintun.dll" ∧ installed "amnezia-box.exe" ≠ installed "PinusSmartAWG.exe"
          ∧ installed "wintun.dll" ≠ installed "PinusSmartAWG.exe") as (D1 & D2 & D3) by (split_and!; by apply installed_ne).
  apply Forall_cons; split; [|apply Forall_cons; split; [|apply Forall_cons; split; [|by apply Forall_nil]]];
    [apply (went_skip _ engineSource)|apply (went_skip _ wintunSource)|apply (went_skip _ current)];
    try apply keeps_check; try (by left); try (by right); intros [] s1 Rp Rq; unfold stage_files.
  - apply went_then; [by apply copy_unless_went|]. intros _. apply io_keeps_bind; [apply keeps_stage_check|]. intros _ _ _.
    apply io_keeps_bind; [by apply keeps_stage_copy|]. intros _ _ _. apply io_keeps_bind; [apply keeps_stage_check|]. intros _ _ _.
    apply io_keeps_bind; [by apply keeps_stage_copy|]. intros _ _ _. apply io_keeps_ret.
  - apply (went_skip _ wintunSource); [by apply keeps_stage_copy|by apply keeps_stage_copy|done|done|]. intros _ s2 Rp2 Rq2.
    apply (went_skip _ wintunSource); [apply keeps_stage_check|apply keeps_stage_check|done|done|]. intros _ s3 Rp3 Rq3.
    apply went_then; [by apply copy_unless_went|]. intros _. apply io_keeps_bind; [apply keeps_stage_check|]. intros _ _ _.
    apply io_keeps_bind; [by apply keeps_stage_copy|]. intros _ _ _. apply io_keeps_ret.
  - do 2 (apply (went_skip _ current); [by apply keeps_stage_copy|by apply keeps_stage_copy|done|done|]; clear Rp Rq; intros _ ? Rp Rq;
          apply (went_skip _ current); [apply keeps_stage_check|apply keeps_stage_check|done|done|]; clear Rp Rq; intros _ ? Rp Rq).
    apply went_then; [by apply copy_unless_went|]. intros _. apply io_keeps_ret.
Qed.
End Stage.
End Copies.
End Files.

(** ** Services

    The service control manager is a parameter.  Its view: the services that are
    installed and not marked for deletion, and the number of open handles. *)

Record service := mkService {
  sc_Args : list gostring;               (* the executable and its arguments *)
  sc_StartType : Z;
  sc_Dependencies : list gostring;
  sc_DisplayName : gostring;
  sc_Recovery : list (Z * Z) * Z;        (* actions with their delays, and the reset period *)
  sc_NonCrash : bool }.

Class ServiceManager (W : Type) := {
  mgr_Connect : prog W unit;
  OpenService : gostring → prog W unit;
  CreateService : gostring → service → prog W unit;
  service_Query : gostring → prog W Z;
  service_Stop : gostring → prog W unit;        (* service.Control(svc.Stop) *)
  service_Delete : gostring → prog W unit;
  service_Close : gostring → prog W unit;
  service_Start : gostring → prog W unit;
  SetRecoveryActions : gostring → list (Z * Z) → Z → prog W unit;
  SetRecoveryActionsOnNonCrashFailures : gostring → bool → prog W unit;
  ListServices : prog W (list gostring);
  StatFile : gostring → prog W bool;            (* os.Stat: is it a directory? *)
  ReadVersions : gostring → prog W (list (gostring * bool));  (* os.ReadDir: name, is it a directory? *)
  RemoveAll : gostring → prog W unit;
}.

Definition managerServiceName : gostring := "PinusAWGPreviewManager".
Definition tunnelPrefix : gostring := "PinusAWGPreviewTunnel$".
Definition StartAutomatic : Z := 2.
Definition ServiceRestart : Z := 1.
Definition svc_Stopped : Z := 1.
Definition svc_StartPending : Z := 2.
Definition svc_StopPending : Z := 3.

Definition managerRecoveryResetSeconds : Z := 24 * 60 * 60.
Definition managerRecoveryActions : list (Z * Z) :=
  [(ServiceRestart, 2 * 10 ^ 9); (ServiceRestart, 5 * 10 ^ 9); (ServiceRestart, 15 * 10 ^ 9)].

Definition ErrManagerAlreadyRunning : goerror := ErrorString "Manager already installed and running".

(** [errors.Join], nested joins flattened: nil when every error is. *)
Definition join_errors (es : list (option goerror)) : outcome unit :=
  match omap id es with [] => Ret tt | es => Fail (JoinError es) end.

Section Services.
Context {RT : GoRuntime} {W : Type} `{ServiceManager W}.

(** The error of a call as a value. *)
Definition error_of {A} (m : prog W A) : prog W (option goerror) :=
  let! r := attempt m in io_ret (match r with Fail e => Some e | _ => None end).

Definition does_not_exist (e : goerror) : bool := is_sys "ERROR_SERVICE_DOES_NOT_EXIST" e.
Definition marked_for_delete (e : goerror) : bool := is_sys "ERROR_SERVICE_MARKED_FOR_DELETE" e.

(** The wait of [StopManagerForUpgrade]; [tries] is how often it can ask within
    twenty seconds. *)
Fixpoint wait_stopped (tries : nat) (name : gostring) : prog W unit :=
  match tries with
  | O => io_fail (ErrorString "timed out waiting for the previous Pinus Smart AWG service to stop")
  | S tries =>
      let! st := attempt (service_Query name) in
      match st with
      | Ret st => if st =? svc_Stopped then io_ret tt else wait_stopped tries name
      | Fail e => if does_not_exist e then io_ret tt else io_fail e
      | Panic => io_lift Panic
      end
  end.

Definition StopManagerForUpgrade (tries : nat) : prog W unit :=
  mgr_Connect ;;
  let! opened := error_of (OpenService managerServiceName) in
  match opened with
  | Some e => if does_not_exist e then io_ret tt else io_fail e
  | None =>
      deferring (
        let! status := service_Query managerServiceName in
        if status =? svc_Stopped then io_ret tt
        else
          (if negb (status =? svc_StopPending) then
             let! e := error_of (service_Stop managerServiceName) in
             match e with
             | Some e => if is_sys "ERROR_SERVICE_NOT_ACTIVE" e then io_ret tt else io_fail e
             | None => io_ret tt
             end
           else io_ret tt) ;;
          wait_stopped tries managerServiceName)
        (ignore_error (service_Close managerServiceName))
  end.

(** The loop that waits until a deleted service cannot be opened any more. *)
Fixpoint wait_gone (tries : nat) (name : gostring) : prog W unit :=
  match tries with
  | O => io_fail (ErrorString "timed out waiting for deleted tunnel service")
  | S tries =>
      let! opened := error_of (OpenService name) in
      match opened with
      | Some _ => io_ret tt
      | None => ignore_error (service_Close name) ;; wait_gone tries name
      end
  end.

Definition manager_service (path : gostring) : service :=
  mkService [path; "/managerservice"] StartAutomatic ["Nsi"; "TcpIp"] "Pinus Smart AWG Manager" ([], 0) false.

(** Creation, with the service removed again when it cannot be configured. *)
Definition create_manager (path : gostring) : prog W unit :=
  let name := managerServiceName in
  CreateService name (manager_service path) ;;
  let undo e msg := ignore_error (service_Delete name) ;; ignore_error (service_Close name) ;; io_fail (WrapError msg e) in
  let! e := error_of (SetRecoveryActions name managerRecoveryActions managerRecoveryResetSeconds) in
  match e with
  | Some e => undo e "configure manager recovery actions: "
  | None =>
      let! e := error_of (SetRecoveryActionsOnNonCrashFailures name true) in
      match e with
      | Some e => undo e "configure manager non-crash recovery: "
      | None =>
          let! e := error_of (service_Start name) in
          match e with
          | Some e => ignore_error (service_Close name) ;; io_fail e
          | None => service_Close name
          end
      end
  end.

Definition InstallManagerFrom (abs : outcome gostring) (tries : nat) : prog W unit :=
  mgr_Connect ;;
  let! path := io_lift abs in
  let! directory := StatFile path in
  if directory : bool then io_fail (ErrorString ("manager executable is a directory: " ++ path))
  else
    let name := managerServiceName in
    let! opened := error_of (OpenService name) in
    match opened with
    | Some _ => create_manager path
    | None =>
        let! status := attempt (service_Query name) in
        match status with
        | Fail e => ignore_error (service_Close name) ;; io_fail e
        | Panic => io_lift Panic
        | Ret status =>
            if negb (status =? svc_Stopped) then
              ignore_error (service_Close name) ;;
              if status =? svc_StartPending then io_ret tt else io_fail ErrManagerAlreadyRunning
            else
              let! e := error_of (service_Delete name) in
              ignore_error (service_Close name) ;;
              match e with
              | Some e => io_fail e
              | None => wait_gone tries name ;; create_manager path
              end
        end
    end.

(** [clearSmartDesired] and [firewall.ClearPreviewGuard], of other components. *)
Context (clearSmartDesired ClearPreviewGuard : prog W unit).

Definition clear_desired : prog W (list (option goerror)) :=
  let! a := error_of clearSmartDesired in let! b := error_of ClearPreviewGuard in io_ret [a; b].

Definition UninstallManager : prog W unit :=
  let! desiredErr := clear_desired in
  let! e := error_of (mgr_Connect ;; OpenService managerServiceName) in
  match e with
  | Some e => io_lift (join_errors (desiredErr ++ [Some e]))
  | None =>
      ignore_error (service_Stop managerServiceName) ;;
      let! e := error_of (service_Delete managerServiceName) in
      let! e2 := error_of (service_Close managerServiceName) in
      io_lift (join_errors (desiredErr ++ [match e with Some e => Some e | None => e2 end]))
  end.






Definition UninstallTunnel (tunnelName : gostring) : prog W unit :=
  mgr_Connect ;;
  let! serviceName := io_lift (ServiceNameOfTunnel tunnelName) in
  OpenService serviceName ;;
  ignore_error (service_Stop serviceName) ;;
  let! e := error_of (service_Delete serviceName) in
  let! e2 := error_of (service_Close serviceName) in
  match e with
  | Some e => if marked_for_delete e then io_lift (no_error e2) else io_fail e
  | None => io_lift (no_error e2)
  end.
End Services.

(** ** What the services become *)

Record scm_view := mkScm { scm_services : gmap gostring service; scm_handles : Z; scm_removed : list gostring }.

Definition with_services (v : scm_view) (m : gmap gostring service) : scm_view := mkScm m (scm_handles v) (scm_removed v).
Definition with_handles (v : scm_view) (d : Z) : scm_view := mkScm (scm_services v) (scm_handles v + d) (scm_removed v).
Definition with_recovery (r : list (Z * Z) * Z) (s : service) : service :=
  mkService (sc_Args s) (sc_StartType s) (sc_Dependencies s) (sc_DisplayName s) r (sc_NonCrash s).
Definition with_noncrash (b : bool) (s : service) : service :=
  mkService (sc_Args s) (sc_StartType s) (sc_Dependencies s) (sc_DisplayName s) (sc_Recovery s) b.

(** The effect of a call that succeeds; one that fails changes nothing. *)
Definition on_success {A} (o : outcome A) (v v' : scm_view) : scm_view := match o with Ret _ => v' | _ => v end.

Class ServiceLaws (W : Type) `{ServiceManager W} (view : W → scm_view) : Prop := {
  scm_connect w w' o : mgr_Connect w = (w', o) → view w' = view w;
  scm_open n w w' o : OpenService n w = (w', o) → view w' = on_success o (view w) (with_handles (view w) 1)
    ∧ ∀ e, o = Fail e → does_not_exist e = true → scm_services (view w) !! n = None;
  scm_create n s w w' o : CreateService n s w = (w', o) →
    view w' = on_success o (view w) (with_handles (with_services (view w) (<[n := s]> (scm_services (view w)))) 1);
  scm_query n w w' o : service_Query n w = (w', o) → view w' = view w;
  scm_stop n w w' o : service_Stop n w = (w', o) → view w' = view w;
  scm_delete n w w' o : service_Delete n w = (w', o) →
    view w' = on_success o (view w) (with_services (view w) (delete n (scm_services (view w))))
    ∧ ∀ e, o = Fail e → marked_for_delete e = true → scm_services (view w) !! n = None;
  scm_close n w w' o : service_Close n w = (w', o) → view w' = on_success o (view w) (with_handles (view w) (-1));
  scm_start n w w' o : service_Start n w = (w', o) → view w' = view w;
  scm_recovery n a r w w' o : SetRecoveryActions n a r w = (w', o) →
    view w' = on_success o (view w) (with_services (view w) (alter (with_recovery (a, r)) n (scm_services (view w))));
  scm_noncrash n b w w' o : SetRecoveryActionsOnNonCrashFailures n b w = (w', o) →
    view w' = on_success o (view w) (with_services (view w) (alter (with_noncrash b) n (scm_services (view w))));
  scm_list w w' o : ListServices w = (w', o) → view w' = view w
    ∧ ∀ names, o = Ret names → ∀ n, is_Some (scm_services (view w) !! n) → n ∈ names;
  scm_stat p w w' o : StatFile p w = (w', o) → view w' = view w;
  scm_versions p w w' o : ReadVersions p w = (w', o) → view w' = view w;
  scm_remove p w w' o : RemoveAll p w = (w', o) → view w' = mkScm (scm_services (view w)) (scm_handles (view w)) (p :: scm_removed (view w)) }.

Section Laws.
Context {RT : GoRuntime} {W : Type} `{ServiceManager W} (view : W → scm_view) `{!ServiceLaws W view}.
#[local] Set Default Proof Using "Type*".

(** [m] leaves [P] true of the view. *)
Definition pres {A} (P : scm_view → Prop) (m : prog W A) : Prop := ∀ w, P (view w) → P (view (m w).1).

Lemma pres_bind {A B} P (m : prog W A) (k : A → prog W B) : pres P m → (∀ a, pres P (k a)) → pres P (io_bind m k).
Proof. intros Hm Hk w HP. specialize (Hm w HP). unfold io_bind. destruct (m w) as [w1 [a| |]]; cbn in *; [by apply Hk|done..]. Qed.
Lemma pres_ret {A} P (a : A) : pres P (io_ret a).
Proof. by intros w. Qed.
Lemma pres_fail {A} P e : pres P (@io_fail W A e).
Proof. by intros w. Qed.
Lemma pres_attempt {A} P (m : prog W A) : pres P m → pres P (attempt m).
Proof. intros Hm w HP. specialize (Hm w HP). unfold attempt. by destruct (m w). Qed.
Lemma pres_ignore {A} P (m : prog W A) : pres P m → pres P (ignore_error m).
Proof. intros Hm w HP. specialize (Hm w HP). unfold ignore_error. by destruct (m w). Qed.
Lemma pres_error_of {A} P (m : prog W A) : pres P m → pres P (error_of m).
Proof. intros Hm. apply pres_bind; [by apply pres_attempt|]. intros r. apply pres_ret. Qed.

(** Predicates on the services alone. *)
Definition of_services (P : gmap gostring service → Prop) (v : scm_view) : Prop := P (scm_services v).

Ltac quiet_call law := let w := fresh "w" in let HP := fresh "HP" in let E := fresh "E" in let o := fresh "o" in
  intros w HP; match goal with |- context [(?m w).1] => destruct (m w) as [? o] eqn:E end; cbn; apply law in E; match type of E with _ ∧ _ => destruct E as [E _] | _ => idtac end; rewrite E; first [exact HP|destruct o; exact HP].

Lemma pres_query P n : pres P (service_Query n).
Proof. quiet_call scm_query. Qed.
Lemma pres_start P n : pres P (service_Start n).
Proof. quiet_call scm_start. Qed.
Lemma pres_stat P p : pres P (StatFile p).
Proof. quiet_call scm_stat. Qed.
Lemma pres_open P n : pres (of_services P) (OpenService n).
Proof. quiet_call scm_open. Qed.
Lemma pres_close P n : pres (of_services P) (service_Close n).
Proof. quiet_call scm_close. Qed.



Lemma error_of_inv {A} (m : prog W A) w w' r : error_of m w = (w', r) →
  (∃ o, m w = (w', o) ∧ o ≠ Panic ∧ r = Ret (match o with Fail e => Some e | _ => None end)) ∨ r = Panic.
Proof. unfold error_of, io_bind, attempt. destruct (m w) as [w1 [a|e|]]; intros [= <- <-]; eauto 6. Qed.







(** ** Removing everything *)



Section Uninstall.
Context (clearSmartDesired ClearPreviewGuard : prog W unit).
Context (desired_quiet : ∀ P, pres (of_services P) clearSmartDesired) (guard_quiet : ∀ P, pres (of_services P) ClearPreviewGuard).
#[local] Set Default Proof Using "All".



End Uninstall.

(** ** Installing the manager *)

Definition configured_manager (path : gostring) : service :=
  with_noncrash true (with_recovery (managerRecoveryActions, managerRecoveryResetSeconds) (manager_service path)).

Lemma pres_gone P tries n : pres (of_services P) (wait_gone tries n).
Proof.
  induction tries as [|tries IH]; cbn [wait_gone]; [apply pres_fail|]. apply pres_bind; [apply pres_error_of, pres_open|]. intros [e|]; [apply pres_ret|].
  apply pres_bind; [apply pres_ignore, pres_close|]. intros _. exact IH.
Qed.

Lemma create_manager_ret path w w' : create_manager path w = (w', Ret tt) →
  scm_services (view w') = <[managerServiceName := configured_manager path]> (scm_services (view w)).
Proof.
  unfold create_manager. intros Hr. apply prog_bind_inv in Hr as (w1 & [] & Hc & Hr). apply scm_create in Hc. cbn in Hc.
  apply prog_bind_inv in Hr as (w2 & e & He & Hr). destruct e as [e|]; [by prog_inv|]. apply error_of_inv in He as [(o & He & Hp0 & [= Eo])|[=]].
  destruct o as [[]|e|]; [|done|done]. apply scm_recovery in He. cbn in He.
  apply prog_bind_inv in Hr as (w3 & e & Hn & Hr). destruct e as [e|]; [by prog_inv|]. apply error_of_inv in Hn as [(o & Hn & Hp & [= Eo2])|[=]].
  destruct o as [[]|e|]; [|done|done]. apply scm_noncrash in Hn. cbn in Hn.
  apply prog_bind_inv in Hr as (w4 & e & Hs & Hr). destruct e as [e|]; [by prog_inv|]. apply error_of_inv in Hs as [(o & Hs & _ & _)|[=]]. apply scm_start in Hs.
  apply scm_close in Hr. cbn in Hr. rewrite Hr. cbn. rewrite Hs, Hn. cbn. rewrite He. cbn. rewrite Hc. cbn. by rewrite !alter_insert_eq.
Qed.

(** When the installation reports success, the manager is installed to start by
    itself from the given path with its recovery actions, and no other service
    is changed; or somebody else is just starting it and nothing is changed. *)
Theorem InstallManagerFrom_installs path tries w w' : InstallManagerFrom (Ret path) tries w = (w', Ret tt) →
  scm_services (view w') = scm_services (view w) ∨
  scm_services (view w') = <[managerServiceName := configured_manager path]> (scm_services (view w)).
Proof.
  unfold InstallManagerFrom. intros Hr. apply prog_bind_inv in Hr as (w1 & [] & H1 & Hr). apply scm_connect in H1.
  apply prog_bind_inv in Hr as (w2 & p & H2 & Hr). unfold io_lift in H2. injection H2 as <- <-. apply prog_bind_inv in Hr as (w3 & d & H3 & Hr). apply scm_stat in H3.
  destruct d; [done|]. apply prog_bind_inv in Hr as (w4 & opened & H4 & Hr).
  assert (scm_services (view w4) = scm_services (view w)) as E4.
  { apply (f_equal fst) in H4. cbn in H4. rewrite <- H4. apply (pres_error_of (of_services (λ m, m = scm_services (view w)))); [apply pres_open|]. unfold of_services. by rewrite H3, H1. }
  destruct opened as [e|]; [right; rewrite <- E4; by apply create_manager_ret|].
  apply prog_bind_inv in Hr as (w5 & status & H5 & Hr). assert (view w5 = view w4) as E5.
  { unfold attempt in H5. destruct (service_Query managerServiceName w4) as [w5' o] eqn:Eq. apply scm_query in Eq. destruct o; congruence. }
  destruct status as [status|e|]; [| |done]. 2: { by prog_inv. }
  destruct (negb (status =? svc_Stopped)).
  - apply prog_bind_inv in Hr as (w6 & [] & H6 & Hr). left. destruct (status =? svc_StartPending); [|done]. unfold io_ret in Hr. injection Hr as <-.
    apply (f_equal fst) in H6. cbn in H6. rewrite <- H6, <- E4. apply (pres_ignore (of_services (λ m, m = scm_services (view w4)))); [apply pres_close|]. unfold of_services. by rewrite E5.
  - apply prog_bind_inv in Hr as (w6 & e & H6 & Hr). apply prog_bind_inv in Hr as (w7 & [] & H7 & Hr). destruct e as [e|]; [done|].
    apply prog_bind_inv in Hr as (w8 & [] & H8 & Hr). apply create_manager_ret in Hr. right. rewrite Hr.
    apply error_of_inv in H6 as [(o & H6 & Hp & [= Eo])|[=]]. destruct o as [[]|e|]; [|done|done]. apply scm_delete in H6 as [H6 _]. cbn in H6.
    assert (scm_services (view w8) = delete managerServiceName (scm_services (view w))) as ->; [|by rewrite insert_delete_eq].
    apply (f_equal fst) in H8. cbn in H8. rewrite <- H8. apply (pres_gone (λ m, m = _)). unfold of_services. apply (f_equal fst) in H7. cbn in H7. rewrite <- H7.
    apply (pres_ignore (of_services (λ m, m = _))); [apply pres_close|]. unfold of_services. rewrite H6. cbn. by rewrite E5, E4.
Qed.
End Laws.

(** ** A concrete installation *)

#[local] Existing Instance plain_runtime.
#[local] Existing Instance no_faults.

#[local] Instance demo_release : Release :=
  {| EngineSHA256 := format_X (Sum256 "engine"); wintunDLLSHA256 := format_X (Sum256 "driver"); Number := "1.2.0" |}.
#[local] Instance demo_install : InstallHost := {|
  Getenv _ := []; Executable := Ret "D:\load\setup.exe"; Abs p := Ret p; ih_RootDirectory := Ret "C:\Pinus\Data"; rename_tries := 3 |}.

Definition demo_disk : io := mkIO
  {[("D:\load\amnezia-box.exe" : gostring) := ("engine" : gostring); ("D:\load\wintun.dll" : gostring) := ("driver" : gostring);
    ("D:\load\setup.exe" : gostring) := ("program" : gostring); ("C:\Pinus\Versions\1.2.0\wintun.dll" : gostring) := ("older" : gostring)]} 0 [].

Lemma install_digits k : Forall (λ b, is_digit b = true) (temp_suffix k).
Proof.
  pose proof (Itoa_digits (Z.of_nat k) ltac:(lia)) as H. apply Forall_forall. intros b Hb. apply (proj1 (forallb_forall _ _) H). by apply list_elem_of_In.
Qed.

Lemma demo_clean : clean_dir (secureInstallDirectory "C:\Pinus\Data").
Proof. intros f Hf. repeat (apply elem_of_cons in Hf as [->|Hf]; [vm_compute; reflexivity|]). inversion Hf. Qed.

Lemma demo_bundle : installBundlePaths = Ret ("D:\load\setup.exe" : gostring, "D:\load\amnezia-box.exe" : gostring, "D:\load\wintun.dll" : gostring).
Proof. vm_compute. reflexivity. Qed.

Definition staged_disk : io := fst (StageSecureInstall demo_disk).

Lemma demo_stages : StageSecureInstall demo_disk = (staged_disk, Ret "C:\Pinus\Versions\1.2.0\PinusSmartAWG.exe").
Proof.
  assert (snd (StageSecureInstall demo_disk) = Ret ("C:\Pinus\Versions\1.2.0\PinusSmartAWG.exe" : gostring)) as Hr by (vm_compute; reflexivity).
  unfold staged_disk. destruct (StageSecureInstall demo_disk) as [d r]. cbn in Hr |- *. by rewrite Hr.
Qed.

Lemma demo_letters : ends_in_letter "D:\load\setup.exe" ∧ ends_in_letter "D:\load\amnezia-box.exe" ∧ ends_in_letter "D:\load\wintun.dll".
Proof. split_and!; [exists "e"%byte|exists "e"%byte|exists "l"%byte]; done. Qed.

Lemma demo_outside f : f ∈ [("amnezia-box.exe" : gostring); ("wintun.dll" : gostring)] → ("D:\load\setup.exe" : gostring) ≠ installed "C:\Pinus\Data" f ∧ ("D:\load\wintun.dll" : gostring) ≠ installed "C:\Pinus\Data" f.
Proof. intros Hf. repeat (apply elem_of_cons in Hf as [->|Hf]; [split; vm_compute; discriminate|]). inversion Hf. Qed.

Lemma StageSecureInstall_verified_witness :
  pinned EngineSHA256 (installed "C:\Pinus\Data" "amnezia-box.exe") staged_disk ∧
  files staged_disk !! ("C:\Pinus\Versions\1.2.0\PinusSmartAWG.exe" : gostring) = Some ("program" : gostring).
Proof.
  destruct demo_letters as (L1 & _ & _). destruct (demo_outside "amnezia-box.exe" ltac:(left)) as [N1 _]. destruct (demo_outside "wintun.dll" ltac:(right; left)) as [N2 _].
  pose proof (StageSecureInstall_verified install_digits _ _ _ _ demo_bundle eq_refl demo_clean _ _ _ L1 N1 N2 demo_stages) as (_ & He & _ & Hx).
  split; [exact He|]. rewrite Hx by (vm_compute; reflexivity). reflexivity.
Defined.

Lemma StageSecureInstall_atomic_witness :
  went_through (at_path (installed "C:\Pinus\Data" "wintun.dll") (λ v, v = files demo_disk !! installed "C:\Pinus\Data" "wintun.dll" ∨ v = files demo_disk !! ("D:\load\wintun.dll" : gostring)))
    demo_disk (fst (StageSecureInstall demo_disk)).
Proof.
  destruct demo_letters as (L1 & L2 & L3). destruct (demo_outside "amnezia-box.exe" ltac:(left)) as [N1 N3]. destruct (demo_outside "wintun.dll" ltac:(right; left)) as [N2 _].
  pose proof (StageSecureInstall_atomic install_digits _ _ _ _ demo_bundle eq_refl demo_clean demo_disk L2 L3 L1 N3 N1 N2) as Ha.
  apply Forall_cons in Ha as [_ Ha]. apply Forall_cons in Ha as [Ha _]. exact Ha.
Defined.

(** *** A service control manager *)

#[local] Instance plain_scm : ServiceManager scm_view := {|
  mgr_Connect v := (v, Ret tt);
  OpenService n v := match scm_services v !! n with
    | Some _ => (with_handles v 1, Ret tt) | None => (v, Fail (ErrorString "ERROR_SERVICE_DOES_NOT_EXIST")) end;
  CreateService n s v := (with_handles (with_services v (<[n := s]> (scm_services v))) 1, Ret tt);
  service_Query n v := (v, Ret svc_Stopped);
  service_Stop n v := (v, Ret tt);
  service_Delete n v := (with_services v (delete n (scm_services v)), Ret tt);
  service_Close n v := (with_handles v (-1), Ret tt);
  service_Start n v := (v, Ret tt);
  SetRecoveryActions n a r v := (with_services v (alter (with_recovery (a, r)) n (scm_services v)), Ret tt);
  SetRecoveryActionsOnNonCrashFailures n b v := (with_services v (alter (with_noncrash b) n (scm_services v)), Ret tt);
  ListServices v := (v, Ret (map fst (map_to_list (scm_services v))));
  StatFile p v := (v, Ret false);
  ReadVersions p v := (v, Ret [("1.1.0" : gostring, true); ("1.2.0" : gostring, true)]);
  RemoveAll p v := (mkScm (scm_services v) (scm_handles v) (p :: scm_removed v), Ret tt) |}.

#[local] Instance plain_scm_laws : ServiceLaws scm_view id.
Proof.
  split; cbn; try (by intros; simplify_eq).
  - intros n w w' o. destruct (scm_services w !! n) eqn:E; intros [= <- <-]; split; done.
  - intros w w' o [= <- <-]. split; [done|]. intros names [= <-] n [s Hs]. apply list_elem_of_fmap. exists (n, s). split; [done|]. by apply elem_of_map_to_list.
Qed.

Definition demo_scm : scm_view := mkScm
  {[("Spooler" : gostring) := manager_service "C:\spool.exe"; managerServiceName := manager_service "C:\old.exe"; tunnelPrefix ++ "office" := manager_service "C:\old.exe"]} 0 [].


Lemma InstallManagerFrom_installs_witness : ∃ w', InstallManagerFrom (Ret ("C:\new.exe" : gostring)) 5 demo_scm = (w', Ret tt) ∧
  (scm_services w' = scm_services demo_scm ∨ scm_services w' = <[managerServiceName := configured_manager "C:\new.exe"]> (scm_services demo_scm)).
Proof.
  eexists. split; [|apply (InstallManagerFrom_installs id "C:\new.exe" 5 demo_scm)]; vm_compute; reflexivity.
Defined.
