(* ===== verification/PowerEvents.v ===== *)
(** * Suspend and resume ([client/manager/power_events.go])

    A suspend pauses the smart mode in a goroutine of its own, a resume asks for
    recovery at once.  The goroutine may run late, when the system has been
    resumed or suspended again; a generation number tells it so.  All of it runs
    under one lock, so that a handler or a goroutine is one step. *)
From S2P Require Import Prelude GoStrings GoStrconv.

Local Open Scope Z_scope.

Definition pbtAPMSuspend : Z := 0x4.
Definition pbtAPMResumeSuspend : Z := 0x7.
Definition pbtAPMResumeAuto : Z := 0x12.

(** What the smart mode was told: [pauseSmartForSuspend], [resumeSmartAfterSuspend]. *)
Inductive told := Paused | Resumed.

Record power := mkPower {
  powerGeneration : Z;
  smartSystemSuspended : bool;
  queued : list Z;          (* the goroutines that have not run, by their generation *)
  smart_told : list told }.

Definition next_generation (p : power) : Z := u64 (powerGeneration p + 1).

Definition handleSmartPowerEvent (eventType : Z) (p : power) : power * bool :=
  if eventType =? pbtAPMSuspend then
    let generation := next_generation p in
    (mkPower generation true (queued p ++ [generation]) (smart_told p), true)
  else if (eventType =? pbtAPMResumeSuspend) || (eventType =? pbtAPMResumeAuto) then
    (mkPower (next_generation p) false (queued p) (smart_told p ++ [Resumed]), true)
  else (p, false).

(** A goroutine gets the lock; [pause] sets the flag again. *)
Definition run_pause (generation : Z) (p : power) : power :=
  if negb (generation =? powerGeneration p) then p
  else mkPower (powerGeneration p) true (queued p) (smart_told p ++ [Paused]).

Definition take_queued (before after : list Z) (p : power) : power :=
  mkPower (powerGeneration p) (smartSystemSuspended p) (before ++ after) (smart_told p).

(** The power events so far, and a state they can lead to. *)
Inductive power_run : list Z → power → Prop :=
| pr_start : power_run [] (mkPower 0 false [] [])
| pr_event events p e : power_run events p → (handleSmartPowerEvent e p).2 = true →
    power_run (events ++ [e]) (handleSmartPowerEvent e p).1
| pr_pause events p before g after : power_run events p → queued p = before ++ g :: after →
    power_run events (run_pause g (take_queued before after p)).

Definition is_suspend (events : list Z) : bool := match last events with Some e => e =? pbtAPMSuspend | None => false end.

(** The smart mode was told last what the last event asks for; a pause may
    still be queued. *)
Record power_ok (events : list Z) (p : power) : Prop := {
  po_generation : powerGeneration p = Z.of_nat (length events);
  po_flag : smartSystemSuspended p = is_suspend events;
  po_nodup : NoDup (queued p);
  po_queued : Forall (λ g, 0 < g <= powerGeneration p) (queued p);
  po_resumed : is_suspend events = false → events ≠ [] → powerGeneration p ∉ queued p ∧ last (smart_told p) = Some Resumed;
  po_suspended : is_suspend events = true → powerGeneration p ∈ queued p ∨ last (smart_told p) = Some Paused }.

Lemma is_suspend_snoc events e : is_suspend (events ++ [e]) = (e =? pbtAPMSuspend).
Proof. unfold is_suspend. by rewrite last_snoc. Qed.

Lemma power_event_ok events p e : Z.of_nat (length events) + 1 < 2 ^ 64 → power_ok events p → (handleSmartPowerEvent e p).2 = true →
  power_ok (events ++ [e]) (handleSmartPowerEvent e p).1.
Proof.
  intros Hl [Hg Hf Hn Hq Hr Hs]. assert (next_generation p = powerGeneration p + 1) as Hng by (unfold next_generation, u64, two64; rewrite Hg, Z.mod_small; lia).
  assert (Forall (λ g, 0 < g <= powerGeneration p + 1) (queued p)) as Hq' by (eapply Forall_impl; [exact Hq|cbn; lia]).
  assert (powerGeneration p + 1 ∉ queued p) as Hnew by (intros Hin; pose proof (proj1 (Forall_forall _ _) Hq _ Hin); cbn in *; lia).
  unfold handleSmartPowerEvent. rewrite Hng. destruct (e =? pbtAPMSuspend) eqn:Ee; [|destruct (_ || _); [|done]]; intros _; split; cbn; rewrite ?is_suspend_snoc, ?Ee, ?length_app; cbn; try done; try lia.
  - apply NoDup_app. split_and!; [done| |apply NoDup_singleton]. intros x Hx ->%list_elem_of_singleton. done.
  - apply Forall_app. split; [done|]. repeat constructor; lia.
  - intros _. left. apply elem_of_app. right. by left.
  - intros _ _. split; [done|]. apply last_snoc.
Qed.

Lemma power_pause_ok events p before g after : power_ok events p → queued p = before ++ g :: after →
  power_ok events (run_pause g (take_queued before after p)).
Proof.
  intros [Hg Hf Hn Hq Hr Hs] E. rewrite E in *. assert (∀ x, x ∈ before ++ after → x ∈ before ++ g :: after) as Hsub by set_solver.
  assert (NoDup (before ++ after)) as Hn' by (apply NoDup_app in Hn as (? & ? & [? ?]%NoDup_cons); apply NoDup_app; set_solver).
  assert (Forall (λ g, 0 < g <= powerGeneration p) (before ++ after)) as Hq'.
  { apply Forall_forall. intros x Hx. apply (proj1 (Forall_forall _ _) Hq). by apply Hsub. }
  unfold run_pause. cbn. destruct (Z.eqb_spec g (powerGeneration p)) as [->|Hne]; cbn; split; cbn; try done.
  - destruct (is_suspend events) eqn:Es; [done|]. destruct (decide (events = [])) as [->|Hne].
    + pose proof (proj1 (Forall_forall _ _) Hq (powerGeneration p) ltac:(set_solver)) as H. cbn in H, Hg. lia.
    + destruct (Hr eq_refl Hne) as [Hr' _]. set_solver.
  - intros Es Hne. destruct (Hr Es Hne) as [Hr' _]. set_solver.
  - intros _. right. apply last_snoc.
  - intros Es Hne'. destruct (Hr Es Hne') as [Hr' Hl]. split; [set_solver|done].
  - intros Es. destruct (Hs Es) as [Hin|]; [left; set_solver|by right].
Qed.

(** However late the pauses run: after a resume the smart mode is not suspended
    and was told to resume last; after a suspend it is suspended, and when no
    pause is left to run it was told to pause last. *)
Theorem last_power_event_wins events p : power_run events p → Z.of_nat (length events) < 2 ^ 64 → events ≠ [] →
  smartSystemSuspended p = is_suspend events ∧
  (is_suspend events = false → last (smart_told p) = Some Resumed) ∧
  (is_suspend events = true → queued p = [] → last (smart_told p) = Some Paused).
Proof.
  intros Hrun Hl Hne. assert (power_ok events p) as [Hg Hf Hn Hq Hr Hs].
  { clear Hne. induction Hrun as [|events p e Hrun IH He|events p before g after Hrun IH Hq].
    - split; cbn; try done. constructor.
    - rewrite length_app in Hl. cbn in Hl. apply power_event_ok; [lia|apply IH; lia|done].
    - apply power_pause_ok; [by apply IH|done]. }
  split_and!; [done|intros Es; by destruct (Hr Es Hne)|]. intros Es Hq0. destruct (Hs Es) as [Hin|]; [|done]. rewrite Hq0 in Hin. by inversion Hin.
Qed.

(** Suspend, resume, and only then the pause of the suspend. *)
Lemma last_power_event_wins_witness :
  ∃ p, power_run [pbtAPMSuspend; pbtAPMResumeAuto] p ∧ queued p = [] ∧ smartSystemSuspended p = false ∧ last (smart_told p) = Some Resumed.
Proof.
  pose proof (pr_event _ _ pbtAPMResumeAuto (pr_event _ _ pbtAPMSuspend pr_start eq_refl) eq_refl) as R1. cbn in R1.
  pose proof (pr_pause _ _ [] 1 [] R1 eq_refl) as R2. cbn in R2. eexists. split; [exact R2|]. split; [reflexivity|].
  destruct (last_power_event_wins _ _ R2 ltac:(cbn; lia) ltac:(discriminate)) as (Hf & Hr & _). split; [exact Hf|]. apply Hr. reflexivity.
Defined.
