(* ===== verification/Ipc.v ===== *)
(** * The manager's pipes ([client/manager]: ipc_server.go, ipc_client.go, notifications.go, connection_report.go)

    The window talks to the manager over three pipes: requests, replies and
    events.  Everything on them is written by an encoder and read by a decoder
    of [encoding/gob].  Here: what [gob] does that the code relies on, the
    server's loop over an interface of the manager's methods, the methods of the
    client, and the loop that hands the manager's events to the callbacks. *)
From S2P Require Import Prelude GoStrings GoStrconv GoOs AwgValidation Conf SmartRules SmartCatalog SmartSettings ManagerTypes.

Local Open Scope Z_scope.

(** ** [encoding/gob]

    A stream is a sequence of messages.  Values of the basic types are sent as
    they are.  Before the first value of any other type an encoder sends the
    definitions of the types it consists of, each once; a decoder refuses a
    definition that it has already seen, a value of a type it was not told, and
    a value of another type than it was asked for. *)

Record Tunnel := mkTunnel { TName : gostring }.

Record ConnectionSnapshot := mkSnapshot { SName : gostring; SSettings : RoutingSettings; SEngine : gostring }.

Inductive gob_type := TInt | TUint | TBool | TString | TConfig | TTunnel | TTunnels | TSnapshot.
#[export] Instance gob_type_eq_dec : EqDecision gob_type.
Proof. solve_decision. Defined.

(** The definitions that a value of the type needs.  A struct is meant with the
    structs it contains, which no other type here shares. *)
Definition type_defs (t : gob_type) : list gob_type :=
  match t with
  | TInt | TUint | TBool | TString => []
  | TConfig | TTunnel | TSnapshot => [t]
  | TTunnels => [TTunnels; TTunnel]
  end.

Inductive gob_value :=
| VInt (n : Z) | VUint (n : Z) | VBool (b : bool) | VString (s : gostring)
| VConfig (c : Config) | VTunnel (t : Tunnel) | VTunnels (l : list Tunnel) | VSnapshot (s : ConnectionSnapshot).

Inductive gob_message := TypeDef (t : gob_type) | Value (v : gob_value).

(** A Go type as [gob] sees it: [gob_from] gives what is in a zero variable of the
    type after a value was read into it, [gob_norm] what is left of a value on the way. *)
Record gob (A : Type) := mkGob {
  gob_ty : gob_type;
  gob_to : A → gob_value;
  gob_from : gob_value → option A;
  gob_norm : A → A;
  gob_ok : A → Prop;
  gob_law : ∀ a, gob_ok a → gob_from (gob_to a) = Some (gob_norm a) }.
Arguments mkGob {A} _ _ _ _ _ _.
Arguments gob_ty {A} _.
Arguments gob_to {A} _ _.
Arguments gob_from {A} _ _.
Arguments gob_norm {A} _ _.
Arguments gob_ok {A} _ _.
Arguments gob_law {A} _ _ _.

Definition g_int : gob Z := mkGob TInt VInt (λ v, match v with VInt n => Some n | _ => None end) id (λ _, True) (λ _ _, eq_refl).
Definition g_bool : gob bool := mkGob TBool VBool (λ v, match v with VBool b => Some b | _ => None end) id (λ _, True) (λ _ _, eq_refl).
Definition g_string : gob gostring :=
  mkGob TString VString (λ v, match v with VString s => Some s | _ => None end) id (λ _, True) (λ _ _, eq_refl).
Definition g_Config : gob Config :=
  mkGob TConfig VConfig (λ v, match v with VConfig c => Some c | _ => None end) id (λ _, True) (λ _ _, eq_refl).
Definition g_Tunnel : gob Tunnel :=
  mkGob TTunnel VTunnel (λ v, match v with VTunnel t => Some t | _ => None end) id (λ _, True) (λ _ _, eq_refl).
Definition g_Tunnels : gob (list Tunnel) :=
  mkGob TTunnels VTunnels (λ v, match v with VTunnels l => Some l | _ => None end) id (λ _, True) (λ _ _, eq_refl).

(** An unsigned number is refused when it does not fit the variable. *)
Definition uint_from (bits : Z) (v : gob_value) : option Z :=
  match v with VUint n => if n <? 2 ^ bits then Some n else None | _ => None end.

Lemma uint_law bits n : n < 2 ^ bits → uint_from bits (VUint n) = Some (id n).
Proof. intros H. unfold uint_from. apply Z.ltb_lt in H. by rewrite H. Qed.

Definition g_uint (bits : Z) : gob Z := mkGob TUint VUint (uint_from bits) id (λ n, n < 2 ^ bits) (uint_law bits).

(** A slice of length zero is not sent, so that it arrives as a nil slice.
    [SelectedApps] is the only slice whose nil differs from the empty one. *)
Definition sent_settings (s : RoutingSettings) : RoutingSettings :=
  s <| SelectedApps := match SelectedApps s with Some [] => None | apps => apps end |>.
Definition sent_snapshot (s : ConnectionSnapshot) : ConnectionSnapshot := mkSnapshot (SName s) (sent_settings (SSettings s)) (SEngine s).

Definition g_Snapshot : gob ConnectionSnapshot :=
  mkGob TSnapshot VSnapshot (λ v, match v with VSnapshot s => Some (sent_snapshot s) | _ => None end) sent_snapshot (λ _, True) (λ _ _, eq_refl).

(** One end of a connection: what arrived, what was written, the definitions
    that its encoder sent and its decoder saw, and whether writing fails. *)
Record gob_end := mkEnd {
  e_in : list gob_message; e_out : list gob_message;
  e_sent : list gob_type; e_known : list gob_type; e_broken : bool }.

Definition fresh_end : gob_end := mkEnd [] [] [] [] false.

Definition new_defs (sent : list gob_type) (t : gob_type) : list gob_type := filter (λ d, d ∉ sent) (type_defs t).

(** What [Encode] writes. *)
Definition gob_frame {A} (g : gob A) (sent : list gob_type) (a : A) : list gob_message :=
  map TypeDef (new_defs sent (gob_ty g)) ++ [Value (gob_to g a)].

Definition ErrClosedPipe : goerror := ErrorString "The pipe is being closed.".

Definition Encode {A} (g : gob A) (a : A) : prog gob_end unit := λ e,
  if e_broken e then (e, Fail ErrClosedPipe)
  else (mkEnd (e_in e) (e_out e ++ gob_frame g (e_sent e) a) (e_sent e ++ new_defs (e_sent e) (gob_ty g)) (e_known e) false, Ret tt).

(** The definitions at the front of the stream, up to a value. *)
Fixpoint read_defs (known : list gob_type) (msgs : list gob_message) : list gob_type * list gob_message * outcome gob_value :=
  match msgs with
  | [] => (known, [], Fail ErrEOF)
  | TypeDef t :: msgs => if decide (t ∈ known) then (known, msgs, Fail (err "gob: duplicate type received")) else read_defs (known ++ [t]) msgs
  | Value v :: msgs => (known, msgs, Ret v)
  end.

Definition known_type (known : list gob_type) (t : gob_type) : bool := bool_decide (Forall (λ d, d ∈ known) (type_defs t)).

Definition Decode {A} (g : gob A) : prog gob_end A := λ e,
  let '(known, rest, r) := read_defs (e_known e) (e_in e) in
  (mkEnd rest (e_out e) (e_sent e) known (e_broken e),
   v ← r;
   _ ← fail_if (negb (known_type known (gob_ty g))) (err "gob: unknown type id or corrupted data");
   or_fail (gob_from g v) (err "gob: decoding into local type of another kind")).

(** ** Numbers of the protocol *)

Definition StoredConfigMethodType : Z := 0.
Definition RuntimeConfigMethodType : Z := 1.
Definition StartMethodType : Z := 2.
Definition StopMethodType : Z := 3.
Definition WaitForStopMethodType : Z := 4.
Definition DeleteMethodType : Z := 5.
Definition StateMethodType : Z := 6.
Definition GlobalStateMethodType : Z := 7.
Definition CreateMethodType : Z := 8.
Definition TunnelsMethodType : Z := 9.
Definition QuitMethodType : Z := 10.
Definition UpdateStateMethodType : Z := 11.
Definition UpdateMethodType : Z := 12.
Definition SmartStartMethodType : Z := 13.
Definition SmartStopMethodType : Z := 14.
Definition ConnectionSnapshotMethodType : Z := 15.
Definition ProbeConnectionMethodType : Z := 16.

(** [TunnelState] is an [int] on the wire. *)
Definition state_code (s : TunnelState) : Z :=
  match s with TunnelUnknown => 0 | TunnelStarted => 1 | TunnelStopped => 2 | TunnelStarting => 3 | TunnelStopping => 4 end.

(** The text of an error; [errors.New] gives back its argument. *)
Class ErrorText := {
  Error : goerror → gostring;
  Error_New : ∀ s, Error (ErrorString s) = s }.

(** ** The server *)

(** The methods of [ManagerService], on a state [W]. *)
Class ManagerService (W : Type) := {
  s_StoredConfig : gostring → prog W Config;
  s_RuntimeConfig : gostring → prog W Config;
  s_Start : gostring → prog W unit;
  s_Stop : gostring → prog W unit;
  s_WaitForStop : gostring → prog W unit;
  s_Delete : gostring → prog W unit;
  s_State : gostring → prog W TunnelState;
  s_GlobalState : W → TunnelState;
  s_Create : Config → prog W Tunnel;
  s_Tunnels : prog W (list Tunnel);
  s_Quit : bool → prog W bool;
  s_UpdateState : W → Z;
  s_Update : W → W;
  s_SmartStart : gostring → gostring → prog W unit;
  s_SmartStop : prog W unit;
  s_ConnectionSnapshot : prog W ConnectionSnapshot;
  s_ProbeConnection : prog W gostring }.

Section Pipes.
Context {ET : ErrorText}.

Definition errToString (e : option goerror) : gostring := match e with None => [] | Some e => Error e end.

(** [errors.New] of a text that arrived, nil when it is empty. *)
Definition error_from (text : gostring) : outcome unit := match text with [] => Ret tt | _ => Fail (ErrorString text) end.

Section Server.
Context {W : Type} {MS : ManagerService W}.

(** The state of a call of [ServeConn]. *)
Definition served : Type := W * gob_end.

Definition on_end {A} (m : prog gob_end A) : prog served A := λ s, let '(e, r) := m (snd s) in ((fst s, e), r).
Definition on_world {A} (m : prog W A) : prog served A := λ s, let '(w, r) := m (fst s) in ((w, snd s), r).

(** A method without a result other than its error. *)
Definition reply_error (m : prog W unit) : prog served unit :=
  let! r := attempt (on_world m) in
  on_end (Encode g_string (errToString (error_of r))).

(** A method with a result, [zero] in case of an error. *)
Definition reply {A} (g : gob A) (zero : A) (m : prog W A) : prog served unit :=
  let! r := attempt (on_world m) in
  on_end (Encode g (match r with Ret a => a | _ => zero end)) ;;
  on_end (Encode g_string (errToString (error_of r))).

(** A method that cannot fail. *)
Definition reply_value {A} (g : gob A) (f : W → A) : prog served unit := λ s, on_end (Encode g (f (fst s))) s.

Definition zeroConfig : Config := mkConfig [] zeroInterface [].
Definition zero_snapshot : ConnectionSnapshot := mkSnapshot [] zeroSettings [].

Definition with_name (k : gostring → prog served unit) : prog served unit :=
  let! tunnelName := on_end (Decode g_string) in k tunnelName.

(** [return] from the loop. *)
Definition serve_return : prog served unit := io_fail ErrEOF.

(** The cases of the switch; an error stands for [return]. *)
Definition serve_method (methodType : Z) : prog served unit :=
  if methodType =? StoredConfigMethodType then with_name (λ tunnelName, reply g_Config zeroConfig (s_StoredConfig tunnelName))
  else if methodType =? RuntimeConfigMethodType then with_name (λ tunnelName, reply g_Config zeroConfig (s_RuntimeConfig tunnelName))
  else if methodType =? StartMethodType then with_name (λ tunnelName, reply_error (s_Start tunnelName))
  else if methodType =? StopMethodType then with_name (λ tunnelName, reply_error (s_Stop tunnelName))
  else if methodType =? WaitForStopMethodType then with_name (λ tunnelName, reply_error (s_WaitForStop tunnelName))
  else if methodType =? DeleteMethodType then with_name (λ tunnelName, reply_error (s_Delete tunnelName))
  else if methodType =? StateMethodType then
    with_name (λ tunnelName, reply g_int 0 (let! state := s_State tunnelName in io_ret (state_code state)))
  else if methodType =? GlobalStateMethodType then reply_value g_int (λ w, state_code (s_GlobalState w))
  else if methodType =? CreateMethodType then
    let! config := on_end (Decode g_Config) in reply g_Tunnel (mkTunnel []) (s_Create config)
  else if methodType =? TunnelsMethodType then reply g_Tunnels [] s_Tunnels
  else if methodType =? QuitMethodType then
    let! stopTunnelsOnQuit := on_end (Decode g_bool) in reply g_bool false (s_Quit stopTunnelsOnQuit)
  else if methodType =? UpdateStateMethodType then reply_value (g_uint 32) s_UpdateState
  else if methodType =? UpdateMethodType then (λ s, ((s_Update (fst s), snd s), Ret tt))
  else if methodType =? SmartStartMethodType then
    with_name (λ tunnelName, let! mode := on_end (Decode g_string) in reply_error (s_SmartStart tunnelName mode))
  else if methodType =? ConnectionSnapshotMethodType then reply g_Snapshot zero_snapshot s_ConnectionSnapshot
  else if methodType =? ProbeConnectionMethodType then reply g_string [] s_ProbeConnection
  else if methodType =? SmartStopMethodType then reply_error s_SmartStop
  else serve_return.

(** One turn of the loop of [ServeConn]. *)
Definition serve_one : prog served unit :=
  let! methodType := on_end (Decode g_int) in serve_method methodType.

(** The loop until it returns, or waits for a request that has not arrived:
    [true] when it is still serving. *)
Fixpoint serve_loop (fuel : nat) : prog served bool := λ s,
  match fuel with
  | O => (s, Panic)
  | S fuel =>
      match e_in (snd s) with
      | [] => (s, Ret true)
      | _ => match serve_one s with
             | (s, Ret _) => serve_loop fuel s
             | (s, Fail _) => (s, Ret false)
             | (s, Panic) => (s, Panic)
             end
      end
  end.

(** Every turn reads a message. *)
Definition serve_pending : prog served bool := λ s, serve_loop (S (length (e_in (snd s)))) s.

(** ** The client

    A client and the server it is connected to.  Reading from an empty pipe
    waits, so that the server does what it was asked; a pipe whose writer is
    gone ends. *)
Record session := mkSession { ss_world : W; ss_client : gob_end; ss_server : gob_end; ss_serving : bool }.

Definition deliver (from to : gob_end) : gob_end * gob_end :=
  (mkEnd (e_in from) [] (e_sent from) (e_known from) (e_broken from),
   mkEnd (e_in to ++ e_out from) (e_out to) (e_sent to) (e_known to) (e_broken to)).

Definition run_server : prog session unit := λ ss,
  if ss_serving ss then
    let '(client, server) := deliver (ss_client ss) (ss_server ss) in
    match serve_pending (ss_world ss, server) with
    | ((w, server), Ret serving) =>
        let '(server, client) := deliver server client in
        (mkSession w (mkEnd (e_in client) (e_out client) (e_sent client) (e_known client) (negb serving)) server serving, Ret tt)
    | ((w, server), _) => (mkSession w client server false, Panic)
    end
  else (ss, Ret tt).

Definition on_client {A} (m : prog gob_end A) : prog session A := λ ss,
  let '(e, r) := m (ss_client ss) in (mkSession (ss_world ss) e (ss_server ss) (ss_serving ss), r).

Definition rpcEncode {A} (g : gob A) (a : A) : prog session unit := on_client (Encode g a).
Definition rpcDecode {A} (g : gob A) : prog session A := λ ss,
  match e_in (ss_client ss) with
  | [] => (run_server ;; on_client (Decode g)) ss
  | _ => on_client (Decode g) ss
  end.

Definition rpcDecodeError : prog session unit :=
  let! str := rpcDecode g_string in io_lift (error_from str).

(** [result, err]: the value is dropped when there is an error. *)
Definition rpc_result {A} (g : gob A) : prog session A :=
  let! a := rpcDecode g in rpcDecodeError ;; io_ret a.

Definition c_StoredConfig (t : Tunnel) : prog session Config :=
  rpcEncode g_int StoredConfigMethodType ;; rpcEncode g_string (TName t) ;; rpc_result g_Config.

Definition c_RuntimeConfig (t : Tunnel) : prog session Config :=
  rpcEncode g_int RuntimeConfigMethodType ;; rpcEncode g_string (TName t) ;; rpc_result g_Config.

Definition c_Start (t : Tunnel) : prog session unit :=
  rpcEncode g_int StartMethodType ;; rpcEncode g_string (TName t) ;; rpcDecodeError.

Definition c_Stop (t : Tunnel) : prog session unit :=
  rpcEncode g_int StopMethodType ;; rpcEncode g_string (TName t) ;; rpcDecodeError.

Definition c_WaitForStop (t : Tunnel) : prog session unit :=
  rpcEncode g_int WaitForStopMethodType ;; rpcEncode g_string (TName t) ;; rpcDecodeError.

Definition c_Delete (t : Tunnel) : prog session unit :=
  rpcEncode g_int DeleteMethodType ;; rpcEncode g_string (TName t) ;; rpcDecodeError.

Definition c_State (t : Tunnel) : prog session Z :=
  rpcEncode g_int StateMethodType ;; rpcEncode g_string (TName t) ;; rpc_result g_int.

(** The old state, and what starting or stopping returned; the old state is
    [TunnelUnknown] when it could not be asked for. *)
Definition c_Toggle (t : Tunnel) : prog session (Z * option goerror) :=
  let! r := attempt (c_State t) in
  match r with
  | Ret oldState =>
      let! e := attempt (if oldState =? state_code TunnelStarted then c_Stop t
                         else if oldState =? state_code TunnelStopped then c_Start t else io_ret tt) in
      io_ret (oldState, error_of e)
  | Fail e => io_ret (state_code TunnelUnknown, Some e)
  | Panic => io_lift Panic
  end.

Definition IPCClientGlobalState : prog session Z := rpcEncode g_int GlobalStateMethodType ;; rpcDecode g_int.

Definition IPCClientNewTunnel (conf : Config) : prog session Tunnel :=
  rpcEncode g_int CreateMethodType ;; rpcEncode g_Config conf ;; rpc_result g_Tunnel.

Definition IPCClientTunnels : prog session (list Tunnel) := rpcEncode g_int TunnelsMethodType ;; rpc_result g_Tunnels.

Definition IPCClientQuit (stopTunnelsOnQuit : bool) : prog session bool :=
  rpcEncode g_int QuitMethodType ;; rpcEncode g_bool stopTunnelsOnQuit ;; rpc_result g_bool.

Definition IPCClientUpdateState : prog session Z := rpcEncode g_int UpdateStateMethodType ;; rpcDecode (g_uint 32).

Definition IPCClientUpdate : prog session unit := rpcEncode g_int UpdateMethodType.

Definition IPCClientSmartStart (tunnelName mode : gostring) : prog session unit :=
  rpcEncode g_int SmartStartMethodType ;; rpcEncode g_string tunnelName ;; rpcEncode g_string mode ;; rpcDecodeError.

Definition IPCClientSmartStop : prog session unit := rpcEncode g_int SmartStopMethodType ;; rpcDecodeError.

Definition IPCClientConnectionSnapshot : prog session ConnectionSnapshot :=
  rpcEncode g_int ConnectionSnapshotMethodType ;; rpc_result g_Snapshot.

Definition IPCClientProbeConnection : prog session gostring :=
  rpcEncode g_int ProbeConnectionMethodType ;; rpc_result g_string.
End Server.

(** ** Events *)

Definition TunnelChangeNotificationType : Z := 0.
Definition TunnelsChangeNotificationType : Z := 1.
Definition ManagerStoppingNotificationType : Z := 2.
Definition UpdateFoundNotificationType : Z := 3.
Definition UpdateProgressNotificationType : Z := 4.

(** [updater.DownloadProgress] *)
Record DownloadProgress := mkProgress {
  Activity : gostring; BytesDownloaded : Z; BytesTotal : Z; PError : option goerror; Complete : bool }.

(** The calls of [notifyAll]. *)
Inductive notice :=
| TunnelChange (name : gostring) (state globalState : TunnelState) (e : option goerror)
| TunnelsChange
| ManagerStopping
| UpdateFound (state : Z)
| UpdateProgress (dp : DownloadProgress).

Definition adminOnly (n : notice) : bool := match n with UpdateProgress _ => true | _ => false end.

(** What [notifyAll] encodes, with an encoder of its own. *)
Definition encode_notice (n : notice) : prog gob_end unit :=
  match n with
  | TunnelChange name state globalState e =>
      Encode g_int TunnelChangeNotificationType ;; Encode g_string name ;; Encode g_int (state_code state) ;;
      Encode g_int (state_code globalState) ;; Encode g_string (errToString e)
  | TunnelsChange => Encode g_int TunnelsChangeNotificationType
  | ManagerStopping => Encode g_int ManagerStoppingNotificationType
  | UpdateFound state => Encode g_int UpdateFoundNotificationType ;; Encode (g_uint 32) state
  | UpdateProgress dp =>
      Encode g_int UpdateProgressNotificationType ;; Encode g_string (Activity dp) ;; Encode (g_uint 64) (BytesDownloaded dp) ;;
      Encode (g_uint 64) (BytesTotal dp) ;; Encode g_string (errToString (PError dp)) ;; Encode g_bool (Complete dp)
  end.

(** The bytes that [notifyAll] queues. *)
Definition event_frame (n : notice) : list gob_message := e_out (fst (encode_notice n fresh_end)).

(** A [ManagerService] as far as its events go: [c_events] is false when
    [events] is nil, [c_pumping] while [pumpEvents] runs, [c_wire] what it wrote. *)
Record conn := mkConn {
  c_elevated : bool; c_registered : bool; c_events : bool; c_done : bool; c_pumping : bool;
  c_queue : list (list gob_message); c_wire : list gob_message }.

(** [IPCServerListen], when the goroutines have started. *)
Definition IPCServerListen (elevated : bool) : conn := mkConn elevated true true false true [] [].

(** When [ServeConn] has returned. *)
Definition listen_end (c : conn) : conn :=
  mkConn (c_elevated c) false false true (c_pumping c) (c_queue c) (c_wire c).

(** What [Quit] does to the connection it came over. *)
Definition quit_conn (c : conn) : conn :=
  mkConn (c_elevated c) false false (c_done c) (c_pumping c) (c_queue c) (c_wire c).

(** One connection of the loop of [notifyAll]. *)
Definition notify_conn (n : notice) (c : conn) : conn :=
  if negb (c_registered c) then c
  else if negb (c_elevated c) && adminOnly n then c
  else mkConn (c_elevated c) (c_registered c) (c_events c) (c_done c) (c_pumping c)
         (queueLatestEvent eventQueue_capacity (c_queue c) (event_frame n)) (c_wire c).

(** [managerServices]: the connections by their number. *)
Definition notifyAll (n : notice) (conns : gmap nat conn) : gmap nat conn := notify_conn n <$> conns.

Definition pump_stop (c : conn) : conn :=
  mkConn (c_elevated c) (c_registered c) (c_events c) (c_done c) false (c_queue c) (c_wire c).

(** [pumpEvents] got [event], with [queue] behind it; [short]: how much was
    written when the write failed. *)
Definition pump_event (event : list gob_message) (queue : list (list gob_message)) (short : option nat) (c : conn) : conn :=
  let c := mkConn (c_elevated c) (c_registered c) (c_events c) (c_done c) (c_pumping c) queue (c_wire c) in
  if negb (c_events c) then pump_stop c
  else match short with
       | None => mkConn (c_elevated c) (c_registered c) (c_events c) (c_done c) (c_pumping c) queue (c_wire c ++ event)
       | Some n => pump_stop (mkConn (c_elevated c) (c_registered c) (c_events c) (c_done c) (c_pumping c) queue (c_wire c ++ take n event))
       end.

(** The life of a connection, and the notices of the manager meanwhile. *)
Inductive conn_run : list notice → conn → Prop :=
| cr_listen elevated : conn_run [] (IPCServerListen elevated)
| cr_notify ns c n : conn_run ns c → conn_run (ns ++ [n]) (notify_conn n c)
| cr_pump ns c event queue short : conn_run ns c → c_pumping c = true → c_queue c = event :: queue →
    match short with Some n => (n < length event)%nat | None => True end → conn_run ns (pump_event event queue short c)
| cr_pump_done ns c : conn_run ns c → c_done c = true → conn_run ns (pump_stop c)
| cr_quit ns c : conn_run ns c → conn_run ns (quit_conn c)
| cr_end ns c : conn_run ns c → conn_run ns (listen_end c).

(** ** The client's loop over events *)

(** What a callback is called with. *)
Inductive callback_call :=
| CallTunnelChange (t : Tunnel) (state globalState : Z) (e : option goerror)
| CallTunnelsChange
| CallManagerStopping
| CallUpdateFound (state : Z)
| CallUpdateProgress (dp : DownloadProgress).

(** The cases of the switch; an error stands for [continue]. *)
Definition tunnel_change_event : prog gob_end (list callback_call) :=
  let! tunnel := Decode g_string in
  io_lift (fail_if (tunnel =?s []) ErrEOF) ;;
  let! state := Decode g_int in
  let! globalState := Decode g_int in
  let! errStr := Decode g_string in
  io_lift (fail_if (state =? state_code TunnelUnknown) ErrEOF) ;;
  io_ret [CallTunnelChange (mkTunnel tunnel) state globalState (error_of (error_from errStr))].

Definition update_found_event : prog gob_end (list callback_call) :=
  let! state := Decode (g_uint 32) in io_ret [CallUpdateFound state].

Definition update_progress_event : prog gob_end (list callback_call) :=
  let! activity := Decode g_string in
  let! downloaded := Decode (g_uint 64) in
  let! total := Decode (g_uint 64) in
  let! errStr := Decode g_string in
  let! complete := Decode g_bool in
  io_ret [CallUpdateProgress (mkProgress activity downloaded total (error_of (error_from errStr)) complete)].

Definition event_body (notificationType : Z) : prog gob_end (list callback_call) :=
  if notificationType =? TunnelChangeNotificationType then tunnel_change_event
  else if notificationType =? TunnelsChangeNotificationType then io_ret [CallTunnelsChange]
  else if notificationType =? ManagerStoppingNotificationType then io_ret [CallManagerStopping]
  else if notificationType =? UpdateFoundNotificationType then update_found_event
  else if notificationType =? UpdateProgressNotificationType then update_progress_event
  else io_ret [].

(** The calls of the loop on what arrives. *)
Fixpoint event_loop (fuel : nat) (e : gob_end) : list callback_call :=
  match fuel with
  | O => []
  | S fuel =>
      match Decode g_int e with
      | (e, Ret notificationType) =>
          let '(e, r) := event_body notificationType e in
          match r with Ret calls => calls | _ => [] end ++ event_loop fuel e
      | _ => []
      end
  end.

(** A turn reads a message or ends the loop. *)
Definition InitializeIPCClient_events (wire : list gob_message) : list callback_call :=
  event_loop (S (length wire)) (mkEnd wire [] [] [] false).
End Pipes.

(** ** Callbacks *)

Inductive callback_kind := KTunnelChange | KTunnelsChange | KManagerStopping | KUpdateFound | KUpdateProgress.
#[export] Instance callback_kind_eq_dec : EqDecision callback_kind.
Proof. solve_decision. Defined.

(** The five maps of callbacks, as one: a callback is known by its address. *)
Definition callback_map : Type := gmap nat callback_kind.

Definition call_kind (c : callback_call) : callback_kind :=
  match c with
  | CallTunnelChange _ _ _ _ => KTunnelChange
  | CallTunnelsChange => KTunnelsChange
  | CallManagerStopping => KManagerStopping
  | CallUpdateFound _ => KUpdateFound
  | CallUpdateProgress _ => KUpdateProgress
  end.

Definition IPCClientRegister (k : callback_kind) (m : callback_map) : nat * callback_map :=
  let cb := fresh (dom m) in (cb, <[cb := k]> m).

Definition Unregister (cb : nat) (m : callback_map) : callback_map := delete cb m.

Section Callbacks.
Context {RT : GoRuntime}.

Definition snapshotCallbacks (k : callback_kind) (m : callback_map) : list nat :=
  map fst (iterate (map_to_list (filter (λ kv, snd kv = k) m))).

(** The calls in the order they are made. *)
Definition dispatch (m : callback_map) (calls : list callback_call) : list (nat * callback_call) :=
  calls ≫= λ c, map (λ cb, (cb, c)) (snapshotCallbacks (call_kind c) m).
End Callbacks.

(** ** What is read is what was written *)

Lemma read_defs_fresh known defs v rest : NoDup (known ++ defs) →
  read_defs known (map TypeDef defs ++ Value v :: rest) = (known ++ defs, rest, Ret v).
Proof.
  revert known. induction defs as [|t defs IH]; intros known Hn; cbn [map app read_defs]; [by rewrite app_nil_r|].
  rewrite decide_False by (apply NoDup_app in Hn as (_ & Hn & _); intros Ht; by apply (Hn t Ht); left).
  rewrite IH by (by rewrite <- app_assoc). by rewrite <- app_assoc.
Qed.

Lemma type_defs_nodup t : NoDup (type_defs t).
Proof. destruct t; cbn; repeat constructor; set_solver. Qed.

Lemma new_defs_nodup sent t : NoDup sent → NoDup (sent ++ new_defs sent t).
Proof.
  intros Hs. apply NoDup_app. split_and!; [done| |by apply NoDup_filter, type_defs_nodup].
  intros x Hx [Hn _]%list_elem_of_filter. done.
Qed.

Lemma known_after sent t : known_type (sent ++ new_defs sent t) t = true.
Proof.
  apply bool_decide_eq_true, Forall_forall. intros d Hd. apply elem_of_app. destruct (decide (d ∈ sent)); [by left|right].
  by apply list_elem_of_filter.
Qed.

(** A decoder that saw the definitions that the encoder sent reads back the value. *)
Lemma Decode_frame {A} (g : gob A) a sent rest out s b : NoDup sent → gob_ok g a →
  Decode g (mkEnd (gob_frame g sent a ++ rest) out s sent b) = (mkEnd rest out s (sent ++ new_defs sent (gob_ty g)) b, Ret (gob_norm g a)).
Proof.
  intros Hn Hok. unfold Decode, gob_frame. cbn [e_in e_known e_out e_sent e_broken]. rewrite <- app_assoc. cbn [app].
  rewrite read_defs_fresh by (by apply new_defs_nodup). cbn. by rewrite known_after, (gob_law g a Hok).
Qed.

Lemma Encode_open {A} (g : gob A) a i out sent known :
  Encode g a (mkEnd i out sent known false) = (mkEnd i (out ++ gob_frame g sent a) (sent ++ new_defs sent (gob_ty g)) known false, Ret tt).
Proof. done. Qed.

(** ** The client sees what the server's methods return *)

Section Refinement.
Context {ET : ErrorText} {W : Type} {MS : ManagerService W}.

(** What the client makes of a result: an error is its text, and an error
    without a text is none. *)
Definition seen {A} (g : gob A) (zero : A) (r : outcome A) : outcome A :=
  match r with
  | Ret a => Ret (gob_norm g a)
  | Fail e => match Error e with [] => Ret (gob_norm g zero) | text => Fail (ErrorString text) end
  | Panic => Panic
  end.

Definition seen_error (r : outcome unit) : outcome unit := match r with Fail e => error_from (Error e) | _ => r end.

(** [IPCClientUpdate] does not wait: the abstract state is the manager's and
    the number of such requests that are still on their way. *)
Definition abstract : Type := W * nat.
Definition do_updates (n : nat) (w : W) : W := Nat.iter n s_Update w.

(** A method called directly, after the requests before it. *)
Definition direct {A B} (m : prog W A) (see : outcome A → outcome B) : prog abstract B := λ st,
  let '(w, r) := m (do_updates (snd st) (fst st)) in ((w, O), see r).

Definition update_request : gob_message := Value (VInt UpdateMethodType).

(** The two ends agree on the definitions that were sent, and nothing is on
    its way but requests to update. *)
Definition linked (ss : session) (st : abstract) : Prop :=
  ∃ to from, NoDup to ∧ NoDup from ∧
    ss = mkSession (fst st) (mkEnd [] (replicate (snd st) update_request) to from false) (mkEnd [] [] from to false) true.

(** [c] on [ss] has the result of the abstract [m] on [st]. *)
Definition matches {A} (c : prog session A) (m : prog abstract A) (ss : session) (st : abstract) : Prop :=
  snd (c ss) = snd (m st) ∧ (snd (c ss) ≠ Panic → linked (fst (c ss)) (fst (m st))).

(** The client method [c] does what the abstract [m] does. *)
Definition simulates {A} (c : prog session A) (m : prog abstract A) : Prop := ∀ ss st, linked ss st → matches c m ss st.

Lemma frame_basic {A} (g : gob A) sent a : type_defs (gob_ty g) = [] → gob_frame g sent a = [Value (gob_to g a)].
Proof. intros H. unfold gob_frame, new_defs. by rewrite H. Qed.

Lemma new_defs_basic sent t : type_defs t = [] → new_defs sent t = [].
Proof. intros H. unfold new_defs. by rewrite H. Qed.

(** ** A turn of the server *)

Lemma serve_one_cons k rest w o s kn b :
  serve_one (w, mkEnd (Value (VInt k) :: rest) o s kn b) = serve_method k (w, mkEnd rest o s kn b).
Proof. done. Qed.

Lemma with_name_cons k name rest (w : W) o s kn b :
  with_name k (w, mkEnd (Value (VString name) :: rest) o s kn b) = k name (w, mkEnd rest o s kn b).
Proof. done. Qed.

Lemma serve_updates n f w rest o s kn :
  serve_loop (n + f) (w, mkEnd (replicate n update_request ++ rest) o s kn false) = serve_loop f (do_updates n w, mkEnd rest o s kn false).
Proof.
  revert w. induction n as [|n IH]; intros w; [done|]. unfold do_updates. rewrite Nat.iter_succ_r.
  cbn [Nat.add replicate app serve_loop e_in snd]. unfold update_request at 1. rewrite serve_one_cons. apply IH.
Qed.

(** The server's answer to the requests that were written. *)
Lemma run_server_request n w req out from from' to to' to1 from1 w' : req ≠ [] →
  serve_one (do_updates n w, mkEnd req [] from to false) = ((w', mkEnd [] out from' to' false), Ret tt) →
  run_server (mkSession w (mkEnd [] (replicate n update_request ++ req) to1 from1 false) (mkEnd [] [] from to false) true) =
  (mkSession w' (mkEnd out [] to1 from1 false) (mkEnd [] [] from' to' false) true, Ret tt).
Proof.
  intros Hr Hs. unfold run_server, serve_pending. cbn -[serve_loop]. rewrite length_app, length_replicate.
  rewrite <- Nat.add_succ_r, serve_updates. destruct req as [|x req]; [done|]. cbn [length serve_loop e_in snd]. rewrite Hs. done.
Qed.

Lemma run_server_panic n w req s' from to to1 from1 : req ≠ [] →
  serve_one (do_updates n w, mkEnd req [] from to false) = (s', Panic) →
  snd (run_server (mkSession w (mkEnd [] (replicate n update_request ++ req) to1 from1 false) (mkEnd [] [] from to false) true)) = Panic.
Proof.
  intros Hr Hs. unfold run_server, serve_pending. cbn -[serve_loop]. rewrite length_app, length_replicate.
  rewrite <- Nat.add_succ_r, serve_updates. destruct req as [|x req]; [done|]. cbn [length serve_loop e_in snd]. rewrite Hs. by destruct s'.
Qed.

Definition result_text {A} (r : outcome A) : gostring := errToString (error_of r).

Lemma reply_open {A} (g : gob A) zero (m : prog W A) w from to : snd (m w) ≠ Panic →
  reply g zero m (w, mkEnd [] [] from to false) =
  ((fst (m w), mkEnd [] (gob_frame g from (match snd (m w) with Ret a => a | _ => zero end) ++ [Value (VString (result_text (snd (m w))))])
     (from ++ new_defs from (gob_ty g)) to false), Ret tt).
Proof.
  intros Hp. unfold reply, io_bind, attempt, on_world. cbn [fst snd]. destruct (m w) as [w' [a|e|]]; [..|done]; unfold on_end; cbn [fst snd]; rewrite !Encode_open;
    cbn [fst snd]; rewrite ?Encode_open; by rewrite (frame_basic g_string), (new_defs_basic _ (gob_ty g_string)), app_nil_r.
Qed.

Lemma reply_panic {A} (g : gob A) zero (m : prog W A) w e : snd (m w) = Panic → snd (reply g zero m (w, e)) = Panic.
Proof. unfold reply, io_bind, attempt, on_world. cbn [fst snd]. by destruct (m w) as [w' [a|e'|]]. Qed.

Lemma reply_error_open (m : prog W unit) w from to : snd (m w) ≠ Panic →
  reply_error m (w, mkEnd [] [] from to false) = ((fst (m w), mkEnd [] [Value (VString (result_text (snd (m w))))] from to false), Ret tt).
Proof.
  intros Hp. unfold reply_error, io_bind, attempt, on_world. cbn [fst snd]. destruct (m w) as [w' [a|e|]]; [..|done]; unfold on_end; cbn [fst snd]; rewrite !Encode_open;
    cbn [fst snd]; rewrite ?Encode_open; by rewrite (frame_basic g_string), (new_defs_basic _ (gob_ty g_string)), app_nil_r.
Qed.

Lemma reply_error_panic (m : prog W unit) w e : snd (m w) = Panic → snd (reply_error m (w, e)) = Panic.
Proof. unfold reply_error, io_bind, attempt, on_world. cbn [fst snd]. by destruct (m w) as [w' [a|e'|]]. Qed.

(** ** A call of the client *)

(** The request of a client has been written. *)
Definition asked (w : W) (n : nat) (req : list gob_message) (from to to' : list gob_type) : session :=
  mkSession w (mkEnd [] (replicate n update_request ++ req) to' from false) (mkEnd [] [] from to false) true.

Lemma panic_or {A} (r : outcome A) : {r = Panic} + {r ≠ Panic}.
Proof. destruct r; [by right..|by left]. Qed.

Lemma snd_eta {A B} (p : A * B) b : snd p = b → p = (fst p, b).
Proof. destruct p. by intros <-. Qed.

Lemma Decode_text text out s known b : Decode g_string (mkEnd [Value (VString text)] out s known b) = (mkEnd [] out s known b, Ret text).
Proof. done. Qed.

Lemma result_seen {A} (g : gob A) zero (r : outcome A) : r ≠ Panic →
  match error_from (result_text r) with Ret _ => Ret (gob_norm g (match r with Ret a => a | _ => zero end)) | Fail e => Fail e | Panic => Panic end
  = seen g zero r.
Proof. destruct r as [a|e|]; [done| |done]. cbn. by destruct (Error e). Qed.

Lemma result_seen_error (r : outcome unit) : r ≠ Panic → error_from (result_text r) = seen_error r.
Proof. by destruct r as [[]|e|]. Qed.

Lemma on_client_ok {A} (m : prog gob_end A) (w : W) c c' s b r : m c = (c', r) → on_client m (mkSession w c s b) = (mkSession w c' s b, r).
Proof. intros H. unfold on_client. cbn. by rewrite H. Qed.

Lemma rpcDecode_in {A} (g : gob A) (w : W) c s b : e_in c ≠ [] → rpcDecode g (mkSession w c s b) = on_client (Decode g) (mkSession w c s b).
Proof. intros H. unfold rpcDecode. cbn. by destruct (e_in c). Qed.

Lemma rpcDecode_wait {A} (g : gob A) ss ss' : e_in (ss_client ss) = [] → run_server ss = (ss', Ret tt) →
  rpcDecode g ss = on_client (Decode g) ss'.
Proof. intros H E. unfold rpcDecode. rewrite H. unfold io_bind. by rewrite E. Qed.

Lemma rpcDecode_panic {A} (g : gob A) ss : e_in (ss_client ss) = [] → snd (run_server ss) = Panic → snd (rpcDecode g ss) = Panic.
Proof. intros H E. unfold rpcDecode. rewrite H. unfold io_bind. by rewrite (snd_eta _ _ E). Qed.

Lemma linked_intro w n to from : NoDup to → NoDup from →
  linked (mkSession w (mkEnd [] (replicate n update_request) to from false) (mkEnd [] [] from to false) true) (w, n).
Proof. by exists to, from. Qed.

Lemma linked_empty (w : W) to from : NoDup to → NoDup from → linked (mkSession w (mkEnd [] [] to from false) (mkEnd [] [] from to false) true) (w, O).
Proof. by exists to, from. Qed.

Lemma bind_panic {S A B} (m : prog S A) (k : A → prog S B) s : snd (m s) = Panic → snd (io_bind m k s) = Panic.
Proof. intros H. unfold io_bind. by rewrite (snd_eta _ _ H). Qed.

Lemma matches_intro {A} (c : prog session A) (m : prog abstract A) ss st ss' r :
  c ss = (ss', r) → r = snd (m st) → linked ss' (fst (m st)) → matches c m ss st.
Proof. intros H -> Hl. unfold matches. by rewrite H. Qed.

Lemma matches_panic {A} (c : prog session A) (m : prog abstract A) ss st : snd (c ss) = Panic → snd (m st) = Panic → matches c m ss st.
Proof. intros H1 H2. split; [by rewrite H1|]. by rewrite H1. Qed.

Lemma direct_panic {A B} (m : prog W A) (see : outcome A → outcome B) st : see Panic = Panic → snd (m (do_updates (snd st) (fst st))) = Panic →
  snd (direct m see st) = Panic.
Proof. intros Hs H. unfold direct. by rewrite (snd_eta _ _ H). Qed.

Lemma rpc_result_asked {A} (g : gob A) zero (m : prog W A) w n req from to to' :
  req ≠ [] → NoDup from → NoDup to' → (∀ a, gob_ok g a) →
  (∀ w1, serve_one (w1, mkEnd req [] from to false) = reply g zero m (w1, mkEnd [] [] from to' false)) →
  matches (rpc_result g) (direct m (seen g zero)) (asked w n req from to to') (w, n).
Proof.
  intros Hr Hf Ht Hok Hs. specialize (Hs (do_updates n w)). destruct (panic_or (snd (m (do_updates n w)))) as [Hp|Hp].
  { apply matches_panic; [|by apply direct_panic]. apply bind_panic, rpcDecode_panic; [done|]. eapply run_server_panic; [done|].
    rewrite Hs. apply snd_eta. by apply reply_panic. }
  rewrite (reply_open _ _ _ _ _ _ Hp) in Hs. pose proof (run_server_request n w _ _ _ _ _ _ to' from _ Hr Hs) as Hrun.
  destruct (m (do_updates n w)) as [w' r] eqn:Em. cbn [fst snd] in *.
  eapply matches_intro; [|unfold direct; cbn [fst snd]; rewrite Em; exact (result_seen g zero r Hp)
                        |unfold direct; cbn [fst snd]; rewrite Em; apply linked_empty; [exact Ht|by apply (new_defs_nodup from (gob_ty g))]].
  unfold rpc_result, rpcDecodeError, io_bind, io_lift, io_ret. rewrite (rpcDecode_wait g (asked w n req from to to') _ eq_refl Hrun).
  erewrite on_client_ok by (by apply Decode_frame). rewrite rpcDecode_in by done. erewrite on_client_ok by apply Decode_text.
  cbv beta iota. destruct (error_from (result_text r)) as [[]|e|]; reflexivity.
Qed.

Lemma rpc_error_asked (m : prog W unit) w n req from to to' : req ≠ [] → NoDup from → NoDup to' →
  (∀ w1, serve_one (w1, mkEnd req [] from to false) = reply_error m (w1, mkEnd [] [] from to' false)) →
  matches rpcDecodeError (direct m seen_error) (asked w n req from to to') (w, n).
Proof.
  intros Hr Hf Ht Hs. specialize (Hs (do_updates n w)). destruct (panic_or (snd (m (do_updates n w)))) as [Hp|Hp].
  { apply matches_panic; [|by apply direct_panic]. apply bind_panic, rpcDecode_panic; [done|]. eapply run_server_panic; [done|].
    rewrite Hs. apply snd_eta. by apply reply_error_panic. }
  rewrite (reply_error_open _ _ _ _ Hp) in Hs. pose proof (run_server_request n w _ _ _ _ _ _ to' from _ Hr Hs) as Hrun.
  destruct (m (do_updates n w)) as [w' r] eqn:Em. cbn [fst snd] in *.
  eapply matches_intro; [|unfold direct; cbn [fst snd]; rewrite Em; exact (result_seen_error r Hp)
                        |unfold direct; cbn [fst snd]; rewrite Em; by apply (linked_empty w' to' from)].
  unfold rpcDecodeError, io_bind, io_lift. rewrite (rpcDecode_wait g_string (asked w n req from to to') _ eq_refl Hrun).
  by erewrite on_client_ok by apply Decode_text.
Qed.

Definition seen_value {A} (g : gob A) (a : A) : outcome A := Ret (gob_norm g a).

(** A method that only looks at the state. *)
Definition look {A} (f : W → A) : prog W A := λ w, (w, Ret (f w)).

Lemma rpc_value_asked {A} (g : gob A) zero (f : W → A) w n req from to to' : req ≠ [] → NoDup from → NoDup to' →
  (∀ w, gob_ok g (f w)) →
  (∀ w1, serve_one (w1, mkEnd req [] from to false) = reply_value g f (w1, mkEnd [] [] from to' false)) →
  matches (rpcDecode g) (direct (look f) (seen g zero)) (asked w n req from to to') (w, n).
Proof.
  intros Hr Hf Ht Hok Hs. specialize (Hs (do_updates n w)). pose proof (run_server_request n w _ _ _ _ _ _ to' from _ Hr Hs) as Hrun.
  eapply matches_intro; [|reflexivity|apply linked_empty; [exact Ht|by apply (new_defs_nodup from (gob_ty g))]].
  rewrite (rpcDecode_wait g (asked w n req from to to') _ eq_refl Hrun). cbn [fst snd app].
  rewrite <- (app_nil_r (gob_frame _ _ _)). by erewrite on_client_ok by (by apply Decode_frame).
Qed.

(** Writing a request, one value at a time. *)
Lemma simulates_send {A B} (g : gob A) (a : A) (c : prog session B) (m : prog abstract B) w n req from to to' :
  matches c m (asked w n (req ++ gob_frame g to' a) from to (to' ++ new_defs to' (gob_ty g))) (w, n) →
  matches (rpcEncode g a ;; c) m (asked w n req from to to') (w, n).
Proof.
  intros H. unfold matches, io_bind, rpcEncode. unfold asked at 1 2 3. erewrite on_client_ok by apply Encode_open. cbn [fst snd].
  rewrite <- app_assoc. exact H.
Qed.

Lemma simulates_start {A} (c : prog session A) (m : prog abstract A) :
  (∀ w n from to, NoDup from → NoDup to → matches c m (asked w n [] from to to) (w, n)) → simulates c m.
Proof.
  intros H ss [w n] (to & from & Ht & Hf & ->). specialize (H w n from to Hf Ht). unfold asked in H. rewrite app_nil_r in H. exact H.
Qed.

Lemma simulates_bind {A B} (c : prog session A) (m : prog abstract A) (kc : A → prog session B) (km : A → prog abstract B) :
  simulates c m → (∀ a, simulates (kc a) (km a)) → simulates (io_bind c kc) (io_bind m km).
Proof.
  intros Hc Hk ss st Hl. destruct (Hc ss st Hl) as [Hr Hl']. unfold matches, io_bind.
  destruct (c ss) as [ss' r], (m st) as [st' r']. cbn [fst snd] in *. subst r'. destruct r as [a|e|]; [apply Hk; by apply Hl'|..]; (split; [reflexivity|]); intros H; [by apply Hl'|by contradiction H].
Qed.

Lemma simulates_attempt {A} (c : prog session A) (m : prog abstract A) : simulates c m → simulates (attempt c) (attempt m).
Proof.
  intros Hc ss st Hl. destruct (Hc ss st Hl) as [Hr Hl']. unfold matches, attempt.
  destruct (c ss) as [ss' r], (m st) as [st' r']. cbn [fst snd] in *. subst r'. destruct r as [a|e|]; (split; [reflexivity|]); intros H; [by apply Hl'..|by contradiction H].
Qed.

Lemma simulates_lift {A} (r : outcome A) : simulates (io_lift r) (io_lift r).
Proof. intros ss st Hl. split; [done|]. by intros _. Qed.

Lemma simulates_ret {A} (a : A) : simulates (io_ret a) (io_ret a).
Proof. apply (simulates_lift (Ret a)). Qed.

(** A request without types to define leaves the definitions as they are. *)
Lemma send_basic {A B} (g : gob A) (a : A) (c : prog session B) (m : prog abstract B) w n req from to :
  type_defs (gob_ty g) = [] → matches c m (asked w n (req ++ [Value (gob_to g a)]) from to to) (w, n) →
  matches (rpcEncode g a ;; c) m (asked w n req from to to) (w, n).
Proof. intros Ht H. apply simulates_send. by rewrite (frame_basic g), (new_defs_basic _ _ Ht), app_nil_r. Qed.

(** The methods, called directly. *)
Definition d_StoredConfig (t : Tunnel) : prog abstract Config := direct (s_StoredConfig (TName t)) (seen g_Config zeroConfig).
Definition d_RuntimeConfig (t : Tunnel) : prog abstract Config := direct (s_RuntimeConfig (TName t)) (seen g_Config zeroConfig).
Definition d_Start (t : Tunnel) : prog abstract unit := direct (s_Start (TName t)) seen_error.
Definition d_Stop (t : Tunnel) : prog abstract unit := direct (s_Stop (TName t)) seen_error.
Definition d_WaitForStop (t : Tunnel) : prog abstract unit := direct (s_WaitForStop (TName t)) seen_error.
Definition d_Delete (t : Tunnel) : prog abstract unit := direct (s_Delete (TName t)) seen_error.
Definition d_State (t : Tunnel) : prog abstract Z :=
  direct (let! state := s_State (TName t) in io_ret (state_code state)) (seen g_int 0).
Definition d_Toggle (t : Tunnel) : prog abstract (Z * option goerror) :=
  let! r := attempt (d_State t) in
  match r with
  | Ret oldState =>
      let! e := attempt (if oldState =? state_code TunnelStarted then d_Stop t
                         else if oldState =? state_code TunnelStopped then d_Start t else io_ret tt) in
      io_ret (oldState, error_of e)
  | Fail e => io_ret (state_code TunnelUnknown, Some e)
  | Panic => io_lift Panic
  end.

Ltac send := repeat first [apply send_basic; [reflexivity|cbn [app gob_to]]].
Ltac call_result := apply simulates_start; intros w n from to Hf Ht; send; apply rpc_result_asked; [done|done|done|done|]; intros w1; reflexivity.
Ltac call_error := apply simulates_start; intros w n from to Hf Ht; send; apply rpc_error_asked; [done|done|done|]; intros w1; reflexivity.

Lemma sim_StoredConfig t : simulates (c_StoredConfig t) (d_StoredConfig t).
Proof. call_result. Qed.
Lemma sim_RuntimeConfig t : simulates (c_RuntimeConfig t) (d_RuntimeConfig t).
Proof. call_result. Qed.
Lemma sim_Start t : simulates (c_Start t) (d_Start t).
Proof. call_error. Qed.
Lemma sim_Stop t : simulates (c_Stop t) (d_Stop t).
Proof. call_error. Qed.
Lemma sim_State t : simulates (c_State t) (d_State t).
Proof. call_result. Qed.

Lemma sim_Toggle t : simulates (c_Toggle t) (d_Toggle t).
Proof.
  apply simulates_bind; [apply simulates_attempt, sim_State|]. intros [old|e|]; [|apply simulates_ret|apply simulates_lift].
  apply simulates_bind; [|intros r; apply simulates_ret]. apply simulates_attempt.
  destruct (_ =? _); [apply sim_Stop|]. destruct (_ =? _); [apply sim_Start|apply simulates_ret].
Qed.

Lemma sim_Create c : simulates (IPCClientNewTunnel c) (direct (s_Create c) (seen g_Tunnel (mkTunnel []))).
Proof.
  apply simulates_start. intros w n from to Hf Ht. apply send_basic; [done|]. cbn [app gob_to]. apply simulates_send.
  apply rpc_result_asked; [done|done|by apply new_defs_nodup|done|]. intros w1. cbn [app]. rewrite serve_one_cons.
  change (serve_method CreateMethodType) with (let! config := on_end (Decode g_Config) in reply g_Tunnel (mkTunnel []) (s_Create config)).
  unfold io_bind at 1, on_end. cbn [fst snd]. rewrite <- (app_nil_r (gob_frame _ _ _)), Decode_frame by done. reflexivity.
Qed.

(** ** Whole conversations *)

Inductive call :=
| CStoredConfig (t : Tunnel) | CRuntimeConfig (t : Tunnel) | CStart (t : Tunnel) | CStop (t : Tunnel) | CToggle (t : Tunnel)
| CWaitForStop (t : Tunnel) | CDelete (t : Tunnel) | CState (t : Tunnel) | CGlobalState | CNewTunnel (c : Config) | CTunnels
| CQuit (stopTunnelsOnQuit : bool) | CUpdateState | CUpdate | CSmartStart (tunnelName mode : gostring) | CSmartStop
| CConnectionSnapshot | CProbeConnection.

Inductive answer :=
| AConfig (r : outcome Config) | AError (r : outcome unit) | AState (r : outcome Z) | AToggle (r : outcome (Z * option goerror))
| ATunnel (r : outcome Tunnel) | ATunnels (r : outcome (list Tunnel)) | AQuit (r : outcome bool) | ASnapshot (r : outcome ConnectionSnapshot)
| AText (r : outcome gostring).

Definition answering {S A} (f : outcome A → answer) (m : prog S A) : prog S answer := let! r := attempt m in io_ret (f r).

Definition client_call (c : call) : prog session answer :=
  match c with
  | CStoredConfig t => answering AConfig (c_StoredConfig t)
  | CRuntimeConfig t => answering AConfig (c_RuntimeConfig t)
  | CStart t => answering AError (c_Start t)
  | CStop t => answering AError (c_Stop t)
  | CToggle t => answering AToggle (c_Toggle t)
  | CWaitForStop t => answering AError (c_WaitForStop t)
  | CDelete t => answering AError (c_Delete t)
  | CState t => answering AState (c_State t)
  | CGlobalState => answering AState IPCClientGlobalState
  | CNewTunnel c => answering ATunnel (IPCClientNewTunnel c)
  | CTunnels => answering ATunnels IPCClientTunnels
  | CQuit b => answering AQuit (IPCClientQuit b)
  | CUpdateState => answering AState IPCClientUpdateState
  | CUpdate => answering AError IPCClientUpdate
  | CSmartStart n m => answering AError (IPCClientSmartStart n m)
  | CSmartStop => answering AError IPCClientSmartStop
  | CConnectionSnapshot => answering ASnapshot IPCClientConnectionSnapshot
  | CProbeConnection => answering AText IPCClientProbeConnection
  end.

(** The same calls on the manager itself. *)
Definition direct_call (c : call) : prog abstract answer :=
  match c with
  | CStoredConfig t => answering AConfig (d_StoredConfig t)
  | CRuntimeConfig t => answering AConfig (d_RuntimeConfig t)
  | CStart t => answering AError (d_Start t)
  | CStop t => answering AError (d_Stop t)
  | CToggle t => answering AToggle (d_Toggle t)
  | CWaitForStop t => answering AError (d_WaitForStop t)
  | CDelete t => answering AError (d_Delete t)
  | CState t => answering AState (d_State t)
  | CGlobalState => answering AState (direct (look (λ w, state_code (s_GlobalState w))) (seen g_int 0))
  | CNewTunnel c => answering ATunnel (direct (s_Create c) (seen g_Tunnel (mkTunnel [])))
  | CTunnels => answering ATunnels (direct s_Tunnels (seen g_Tunnels []))
  | CQuit b => answering AQuit (direct (s_Quit b) (seen g_bool false))
  | CUpdateState => answering AState (direct (look s_UpdateState) (seen (g_uint 32) 0))
  | CUpdate => answering AError (λ st, ((fst st, S (snd st)), Ret tt))
  | CSmartStart n m => answering AError (direct (s_SmartStart n m) seen_error)
  | CSmartStop => answering AError (direct s_SmartStop seen_error)
  | CConnectionSnapshot => answering ASnapshot (direct s_ConnectionSnapshot (seen g_Snapshot zero_snapshot))
  | CProbeConnection => answering AText (direct s_ProbeConnection (seen g_string []))
  end.

Fixpoint conversation {S} (f : call → prog S answer) (calls : list call) : prog S (list answer) :=
  match calls with
  | [] => io_ret []
  | c :: calls => let! a := f c in let! rest := conversation f calls in io_ret (a :: rest)
  end.

Lemma sim_answering {A} (f : outcome A → answer) (c : prog session A) (m : prog abstract A) : simulates c m → simulates (answering f c) (answering f m).
Proof. intros H. apply simulates_bind; [by apply simulates_attempt|]. intros r. apply simulates_ret. Qed.

Lemma sim_Update : simulates IPCClientUpdate (λ st, ((fst st, S (snd st)), Ret tt)).
Proof.
  intros ss [w n] (to & from & Ht & Hf & ->). eapply matches_intro; [|reflexivity|exact (linked_intro w (S n) to from Ht Hf)].
  unfold IPCClientUpdate, rpcEncode. erewrite on_client_ok by apply Encode_open.
  rewrite (frame_basic g_int), (new_defs_basic _ (gob_ty g_int)), app_nil_r by done. by rewrite replicate_S_end.
Qed.

Lemma client_call_simulates c : (∀ w, s_UpdateState w < 2 ^ 32) → simulates (client_call c) (direct_call c).
Proof.
  intros Hu. destruct c; cbn [client_call direct_call]; apply sim_answering;
    auto using sim_StoredConfig, sim_RuntimeConfig, sim_Start, sim_Stop, sim_Toggle, sim_State, sim_Create, sim_Update;
    try (by call_error); try (by call_result);
    apply simulates_start; intros w n from to Hf Ht; send; apply rpc_value_asked; done.
Qed.

Lemma conversation_simulates calls : (∀ w, s_UpdateState w < 2 ^ 32) → simulates (conversation client_call calls) (conversation direct_call calls).
Proof.
  intros Hu. induction calls as [|c calls IH]; cbn [conversation]; [apply simulates_ret|].
  apply simulates_bind; [by apply client_call_simulates|]. intros a. apply simulates_bind; [done|]. intros rest. apply simulates_ret.
Qed.

(** C6: Whatever the window calls in whatever order: over the pipes it gets the
    answers that the manager's methods give when they are called one after the
    other, and the manager is left in the same state.  An error arrives as its
    text, and one whose text is empty as success. *)
Theorem ipc_refines_direct_calls calls w : (∀ w, s_UpdateState w < 2 ^ 32) →
  let over_pipes := conversation client_call calls (mkSession w fresh_end fresh_end true) in
  let directly := conversation direct_call calls (w, O) in
  snd over_pipes = snd directly ∧ (snd over_pipes ≠ Panic → ss_world (fst over_pipes) = fst (fst directly)).
Proof.
  intros Hu. destruct (conversation_simulates calls Hu (mkSession w fresh_end fresh_end true) (w, O)) as [Hr Hl].
  { apply linked_empty; constructor. }
  split; [done|]. intros Hp. by destruct (Hl Hp) as (to & from & _ & _ & ->).
Qed.

(** ** The server's loop ends *)

Definition consumes {A} (m : prog (served (W:=W)) A) : Prop := ∀ s, (length (e_in (snd (fst (m s)))) <= length (e_in (snd s)))%nat.

Lemma read_defs_shorter known msgs : (length (snd (fst (read_defs known msgs))) <= length msgs)%nat ∧
  (msgs ≠ [] → (length (snd (fst (read_defs known msgs))) < length msgs)%nat).
Proof.
  revert known. induction msgs as [|[t|v] msgs IH]; intros known; cbn; [done| |by split; intros; lia].
  case_decide; cbn; [split; intros; lia|]. destruct (IH (known ++ [t])) as [Hs _]. split; intros; lia.
Qed.

Lemma Decode_in {A} (g : gob A) e : e_in (fst (Decode g e)) = snd (fst (read_defs (e_known e) (e_in e))).
Proof. unfold Decode. by destruct (read_defs _ _) as [[known rest] r]. Qed.

Lemma consumes_Decode {A} (g : gob A) : consumes (on_end (W:=W) (Decode g)).
Proof.
  intros [w e]. pose proof (Decode_in g e) as H. unfold on_end. cbn [fst snd]. destruct (Decode g e) as [e' r]. cbn in *. rewrite H. apply read_defs_shorter.
Qed.

Lemma consumes_Encode {A} (g : gob A) a : consumes (on_end (W:=W) (Encode g a)).
Proof. intros [w e]. unfold on_end, Encode. cbn [fst snd]. by destruct (e_broken e). Qed.

Lemma consumes_world {A} (m : prog W A) : consumes (on_world m).
Proof. intros [w e]. unfold on_world. cbn [fst snd]. by destruct (m w). Qed.

Lemma consumes_bind {A B} (m : prog (served (W:=W)) A) (k : A → prog (served (W:=W)) B) : consumes m → (∀ a, consumes (k a)) → consumes (io_bind m k).
Proof.
  intros Hm Hk s. specialize (Hm s). unfold io_bind. destruct (m s) as [s' [a|e|]]; cbn [fst] in *; [|done..]. etrans; [apply Hk|done].
Qed.

Lemma consumes_attempt {A} (m : prog (served (W:=W)) A) : consumes m → consumes (attempt m).
Proof. intros Hm s. specialize (Hm s). unfold attempt. by destruct (m s). Qed.

Lemma consumes_reply {A} (g : gob A) zero (m : prog W A) : consumes (reply g zero m).
Proof.
  apply consumes_bind; [apply consumes_attempt, consumes_world|]. intros r. apply consumes_bind; [apply consumes_Encode|]. intros _. apply consumes_Encode.
Qed.

Lemma consumes_reply_error (m : prog W unit) : consumes (reply_error m).
Proof. apply consumes_bind; [apply consumes_attempt, consumes_world|]. intros r. apply consumes_Encode. Qed.

Lemma consumes_reply_value {A} (g : gob A) (f : W → A) : consumes (reply_value g f).
Proof. intros s. apply consumes_Encode. Qed.

Lemma consumes_with_name (k : gostring → prog (served (W:=W)) unit) : (∀ n, consumes (k n)) → consumes (with_name k).
Proof. intros Hk. by apply consumes_bind; [apply consumes_Decode|]. Qed.

Lemma consumes_method k : consumes (serve_method k).
Proof.
  unfold serve_method. repeat (destruct (k =? _));
    try (apply consumes_with_name; intros name); try (apply consumes_bind; [apply consumes_Decode|]; intros ?);
    auto using consumes_reply, consumes_reply_error, consumes_reply_value; by intros [w e].
Qed.

Lemma serve_one_shorter s : e_in (snd s) ≠ [] → (length (e_in (snd (fst (serve_one s)))) < length (e_in (snd s)))%nat.
Proof.
  intros Hne. destruct s as [w e]. cbn [snd] in *. unfold serve_one, io_bind, on_end at 1. cbn [fst snd].
  pose proof (Decode_in g_int e) as Hd. destruct (Decode g_int e) as [e' r] eqn:Ed. cbn [fst] in Hd.
  assert (length (e_in e') < length (e_in e))%nat as Hlt by (rewrite Hd; by apply read_defs_shorter).
  destruct r as [k| |]; [|done..]. eapply Nat.le_lt_trans; [apply consumes_method|done].
Qed.

(** More turns than there are messages never make a difference. *)
Theorem serve_loop_fuel s fuel : (length (e_in (snd s)) < fuel)%nat → serve_loop fuel s = serve_pending s.
Proof.
  enough (∀ n f1 f2 s, (length (e_in (snd s)) <= n)%nat → (length (e_in (snd s)) < f1)%nat → (length (e_in (snd s)) < f2)%nat → serve_loop f1 s = serve_loop f2 s) as H.
  { intros Hf. unfold serve_pending. apply (H (length (e_in (snd s)))); lia. }
  clear. induction n as [|n IH]; intros f1 f2 s Hn H1 H2; (destruct f1 as [|f1], f2 as [|f2]; [lia..|]); cbn [serve_loop];
    destruct (e_in (snd s)) as [|x l] eqn:E; try done; cbn [length] in *; [lia|].
  pose proof (serve_one_shorter s) as Hs. rewrite E in Hs. specialize (Hs ltac:(done)). cbn [length] in Hs.
  destruct (serve_one s) as [s' [u|e|]]; [|done..]. cbn [fst] in Hs. apply IH; lia.
Qed.
End Refinement.

(** ** The window hears what the manager says *)

Section Events.
Context {ET : ErrorText}.

(** Tunnels have names, and numbers fit their types. *)
Definition notice_ok (n : notice) : Prop :=
  match n with
  | TunnelChange name _ _ _ => name ≠ []
  | UpdateFound state => state < 2 ^ 32
  | UpdateProgress dp => BytesDownloaded dp < 2 ^ 64 ∧ BytesTotal dp < 2 ^ 64
  | TunnelsChange | ManagerStopping => True
  end.

(** An error that crossed the pipe. *)
Definition crossed (e : option goerror) : option goerror := error_of (error_from (errToString e)).

(** The callback that a notice leads to: a tunnel in an unknown state is not reported. *)
Definition heard (n : notice) : list callback_call :=
  match n with
  | TunnelChange _ TunnelUnknown _ _ => []
  | TunnelChange name state globalState e => [CallTunnelChange (mkTunnel name) (state_code state) (state_code globalState) (crossed e)]
  | TunnelsChange => [CallTunnelsChange]
  | ManagerStopping => [CallManagerStopping]
  | UpdateFound state => [CallUpdateFound state]
  | UpdateProgress dp => [CallUpdateProgress (mkProgress (Activity dp) (BytesDownloaded dp) (BytesTotal dp) (crossed (PError dp)) (Complete dp))]
  end.

Definition arriving (msgs : list gob_message) : gob_end := mkEnd msgs [] [] [] false.

Lemma Decode_int n rest : Decode g_int (arriving (Value (VInt n) :: rest)) = (arriving rest, Ret n).
Proof. done. Qed.
Lemma Decode_string s rest : Decode g_string (arriving (Value (VString s) :: rest)) = (arriving rest, Ret s).
Proof. done. Qed.
Lemma Decode_bool b rest : Decode g_bool (arriving (Value (VBool b) :: rest)) = (arriving rest, Ret b).
Proof. done. Qed.
Lemma Decode_uint bits n rest : n < 2 ^ bits → Decode (g_uint bits) (arriving (Value (VUint n) :: rest)) = (arriving rest, Ret n).
Proof. intros H. unfold Decode. cbn -[Z.pow]. by rewrite (proj2 (Z.ltb_lt _ _) H). Qed.
Lemma Decode_nothing {A} (g : gob A) : Decode g (arriving []) = (arriving [], Fail ErrEOF).
Proof. done. Qed.

Lemma name_empty (name : gostring) : name ≠ [] → (name =?s []) = false.
Proof. by destruct name. Qed.

Lemma event_loop_cons k rest fuel :
  event_loop (S fuel) (arriving (Value (VInt k) :: rest)) =
  (let '(e, r) := event_body k (arriving rest) in match r with Ret calls => calls | _ => [] end ++ event_loop fuel e).
Proof. reflexivity. Qed.

Lemma frame_TunnelChange name state global e : event_frame (TunnelChange name state global e) =
  [Value (VInt TunnelChangeNotificationType); Value (VString name); Value (VInt (state_code state));
   Value (VInt (state_code global)); Value (VString (errToString e))].
Proof. reflexivity. Qed.

Lemma frame_UpdateProgress act dl total e complete : event_frame (UpdateProgress (mkProgress act dl total e complete)) =
  [Value (VInt UpdateProgressNotificationType); Value (VString act); Value (VUint dl); Value (VUint total);
   Value (VString (errToString e)); Value (VBool complete)].
Proof. reflexivity. Qed.

Lemma event_loop_end fuel : event_loop fuel (arriving []) = [].
Proof. by destruct fuel. Qed.

(** A frame leads to its callback. *)
Lemma event_turn n rest fuel : notice_ok n →
  event_loop (S fuel) (arriving (event_frame n ++ rest)) = heard n ++ event_loop fuel (arriving rest).
Proof.
  intros Hn. destruct n as [name state global e| | |state|[act dl total e complete]]; cbn in Hn.
  - rewrite frame_TunnelChange. cbn [app]. rewrite event_loop_cons. change (event_body _) with tunnel_change_event.
    unfold tunnel_change_event, io_bind, io_lift, io_ret. rewrite Decode_string, (name_empty _ Hn). cbn [fail_if].
    rewrite !Decode_int, Decode_string. by destruct state.
  - reflexivity.
  - reflexivity.
  - change (event_frame _) with [Value (VInt UpdateFoundNotificationType); Value (VUint state)]. cbn [app]. rewrite event_loop_cons.
    change (event_body _) with update_found_event. unfold update_found_event, io_bind, io_ret. by rewrite Decode_uint.
  - destruct Hn as [Hd Ht]. rewrite frame_UpdateProgress. cbn [app]. rewrite event_loop_cons. change (event_body _) with update_progress_event.
    unfold update_progress_event, io_bind, io_ret. by rewrite Decode_string, !Decode_uint, Decode_string, Decode_bool.
Qed.

(** A frame that is cut off leads to none. *)
Lemma event_cut n k fuel : notice_ok n → (k < length (event_frame n))%nat → event_loop fuel (arriving (take k (event_frame n))) = [].
Proof.
  intros Hn Hk. destruct fuel as [|fuel]; [done|]. destruct k as [|k]; [reflexivity|].
  destruct n as [name state global e| | |state|[act dl total e complete]]; cbn in Hn.
  - rewrite frame_TunnelChange in *. cbn [take]. rewrite event_loop_cons. change (event_body _) with tunnel_change_event.
    unfold tunnel_change_event, io_bind, io_lift, io_ret. cbn [length] in Hk. do 4 (destruct k as [|k]; [cbn [take];
      repeat first [rewrite Decode_string|rewrite Decode_int|rewrite Decode_nothing|rewrite (name_empty _ Hn)|progress cbn [fail_if]]; apply event_loop_end|]). lia.
  - cbn in Hk. lia.
  - cbn in Hk. lia.
  - cbn in Hk. destruct k as [|k]; [apply event_loop_end|lia].
  - destruct Hn as [Hd Ht]. rewrite frame_UpdateProgress in *. cbn [take]. rewrite event_loop_cons. change (event_body _) with update_progress_event.
    unfold update_progress_event, io_bind, io_ret. cbn [length] in Hk. do 5 (destruct k as [|k]; [cbn [take];
      repeat first [rewrite Decode_string|rewrite Decode_uint by done|rewrite Decode_bool|rewrite Decode_nothing]; apply event_loop_end|]). lia.
Qed.

Lemma event_frames ns tail fuel : Forall notice_ok ns → (length ns <= fuel)%nat →
  event_loop fuel (arriving (concat (map event_frame ns) ++ tail)) = concat (map heard ns) ++ event_loop (fuel - length ns) (arriving tail).
Proof.
  revert fuel. induction ns as [|n ns IH]; intros fuel Hok Hf; [by rewrite Nat.sub_0_r|]. inversion_clear Hok as [|? ? Hn Hns].
  destruct fuel as [|fuel]; cbn [length] in Hf; [lia|]. cbn [map concat]. rewrite <- !app_assoc, event_turn by done. cbn [length Nat.sub].
  by rewrite IH by (done || lia).
Qed.

Lemma event_frame_nonempty n : (0 < length (event_frame n))%nat.
Proof. destruct n; cbn; lia. Qed.

Lemma frames_length ns : (length ns <= length (concat (map event_frame ns)))%nat.
Proof. induction ns as [|n ns IH]; [done|]. cbn [map concat length]. rewrite length_app. pose proof (event_frame_nonempty n). lia. Qed.

(** ** The life of a connection *)

Definition allowed (elevated : bool) (n : notice) : Prop := elevated = true ∨ adminOnly n = false.
#[local] Instance allowed_dec elevated n : Decision (allowed elevated n).
Proof. unfold allowed. apply _. Defined.

Lemma queue_sublist (pend : list notice) n :
  ∃ pend', queueLatestEvent eventQueue_capacity (map event_frame pend) (event_frame n) = map event_frame pend' ∧
           sublist pend' (pend ++ [n]).
Proof.
  unfold queueLatestEvent, try_send. destruct (_ <? _)%nat.
  { exists (pend ++ [n]). by rewrite map_app. }
  assert (sublist (tail pend) pend) as Hs by (destruct pend; [done|cbn; by apply sublist_cons]).
  replace (tail (map event_frame pend)) with (map event_frame (tail pend)) by (by destruct pend). destruct (_ <? _)%nat; cbn [default].
  - exists (tail pend ++ [n]). rewrite map_app. split; [done|]. by apply sublist_app.
  - exists (tail pend). split; [done|]. etrans; [done|]. by apply sublist_inserts_r.
Qed.

Lemma sublist_in {A} (x : A) l k : sublist l k → x ∈ l → x ∈ k.
Proof. intros Hs Hx. eapply elem_of_submseteq; [exact Hx|by apply sublist_submseteq]. Qed.

Lemma notice_sent (elevated : bool) got ns (n : notice) : sublist got (filter (allowed elevated) ns) → n ∈ got → n ∈ ns.
Proof. intros Hs Hn. by apply (sublist_in n) in Hs as [_ H]%list_elem_of_filter. Qed.

(** What was written are the frames of some of the notices, in their order,
    and the queue has frames of later ones; after a failed write, a part of a
    frame is at the end. *)
Definition conn_inv (ns : list notice) (c : conn) : Prop :=
  ∃ got pend cut,
    c_wire c = concat (map event_frame got) ++ cut ∧ c_queue c = map event_frame pend ∧
    sublist (got ++ pend) (filter (allowed (c_elevated c)) ns) ∧
    (cut = [] ∨ c_pumping c = false ∧ ∃ n k, n ∈ ns ∧ (k < length (event_frame n))%nat ∧ cut = take k (event_frame n)).

Lemma conn_inv_notify ns c n : conn_inv ns c → conn_inv (ns ++ [n]) (notify_conn n c).
Proof.
  intros (got & pend & cut & Hw & Hq & Hs & Hc). assert (cut = [] ∨ c_pumping c = false ∧ ∃ n' k, n' ∈ ns ++ [n] ∧ (k < length (event_frame n'))%nat ∧ cut = take k (event_frame n')) as Hc'.
  { destruct Hc as [|(Hp & n' & k & Hin & H)]; [by left|]. right. split; [done|]. exists n', k. split; [set_solver|done]. }
  assert (sublist (got ++ pend) (filter (allowed (c_elevated c)) (ns ++ [n]))) as Hs'.
  { rewrite filter_app. etrans; [done|]. by apply sublist_inserts_r. }
  unfold notify_conn. destruct (negb (c_registered c)); [by exists got, pend, cut|].
  destruct (negb (c_elevated c) && adminOnly n) eqn:Ea; [by exists got, pend, cut|].
  destruct (queue_sublist pend n) as (pend' & Hq' & Hsub). exists got, pend', cut. split; [done|]. cbn. rewrite Hq, Hq'. split; [done|]. split; [|done].
  rewrite filter_app, (filter_cons_True _ n []); [|unfold allowed; destruct (c_elevated c), (adminOnly n); by auto].
  etrans; [by apply sublist_app, Hsub|]. rewrite app_assoc. by apply sublist_app.
Qed.

Lemma conn_inv_pump ns c event queue short : conn_inv ns c → c_pumping c = true → c_queue c = event :: queue →
  match short with Some n => (n < length event)%nat | None => True end → conn_inv ns (pump_event event queue short c).
Proof.
  intros (got & pend & cut & Hw & Hq & Hs & Hc) Hp E Hk. destruct Hc as [->|[Hp' _]]; [|congruence]. rewrite app_nil_r in Hw.
  rewrite Hq in E. destruct pend as [|n pend]; [done|]. cbn in E. injection E as <- <-.
  assert (n ∈ ns) as Hin by (eapply notice_sent; [exact Hs|set_solver]).
  assert (sublist (got ++ pend) (filter (allowed (c_elevated c)) ns)) as Hs' by (etrans; [|exact Hs]; by apply sublist_app, sublist_cons).
  unfold pump_event. cbn. destruct (negb (c_events c)); [exists got, pend, []; cbn; rewrite app_nil_r; by auto|]. destruct short as [k|]; cbn.
  - exists got, pend, (take k (event_frame n)). cbn. rewrite Hw. split_and!; [done..|]. right. split; [done|]. by exists n, k.
  - exists (got ++ [n]), pend, []. cbn. rewrite Hw, map_app, concat_app. cbn. rewrite !app_nil_r, <- app_assoc. by auto.
Qed.

Lemma conn_inv_same ns c c' : conn_inv ns c → c_wire c' = c_wire c → c_queue c' = c_queue c → c_elevated c' = c_elevated c →
  (c_pumping c = false → c_pumping c' = false) → conn_inv ns c'.
Proof.
  intros (got & pend & cut & Hw & Hq & Hs & Hc) E1 E2 E3 E4. exists got, pend, cut. rewrite E1, E2, E3. split_and!; [done..|].
  destruct Hc as [|[Hp Hc]]; [by left|right; by auto].
Qed.

Lemma conn_run_inv ns c : conn_run ns c → conn_inv ns c.
Proof.
  induction 1 as [elevated|ns c n Hr IH|ns c event queue short Hr IH Hp Hq Hk|ns c Hr IH Hd|ns c Hr IH|ns c Hr IH];
    [by exists [], [], []; auto|by apply conn_inv_notify|by apply conn_inv_pump|by apply (conn_inv_same ns c)..].
Qed.

(** C19: The window gets some of the manager's notices, in the order they were made
    and each once, and nothing else: what a full queue drops or a broken pipe
    cuts off does not garble the rest.  A window without administrator rights
    gets no progress of an update. *)
Theorem events_in_order ns c : conn_run ns c → Forall notice_ok ns →
  ∃ got, sublist got (filter (allowed (c_elevated c)) ns) ∧ InitializeIPCClient_events (c_wire c) = concat (map heard got).
Proof.
  intros Hr Hok. destruct (conn_run_inv ns c Hr) as (got & pend & cut & Hw & Hq & Hs & Hc).
  assert (sublist got (filter (allowed (c_elevated c)) ns)) as Hg by (etrans; [|exact Hs]; by apply sublist_inserts_r).
  exists got. split; [done|]. unfold InitializeIPCClient_events. fold (arriving (c_wire c)). rewrite Hw.
  assert (Forall notice_ok got) as Hokg.
  { apply Forall_forall. intros n Hn. eapply (proj1 (Forall_forall _ _) Hok), notice_sent; done. }
  rewrite event_frames; [|done|rewrite length_app; pose proof (frames_length got); lia].
  destruct Hc as [->|(_ & n & k & Hn & Hk & ->)]; [by rewrite event_loop_end, app_nil_r|].
  rewrite event_cut; [by rewrite app_nil_r| |done]. by apply (proj1 (Forall_forall _ _) Hok).
Qed.

(** The loop skips a change of a tunnel without a name and not the rest of its
    frame: the states that follow are taken for notices, here that the manager
    is stopping, and the text at the end for a number, which ends the loop. *)
Theorem event_without_name e ns :
  InitializeIPCClient_events (event_frame (TunnelChange [] TunnelStopped TunnelStopped e) ++ concat (map event_frame ns)) =
  [CallManagerStopping; CallManagerStopping].
Proof. reflexivity. Qed.

(** ** Callbacks *)

Section Dispatch.
Context {RT : GoRuntime}.

Lemma snapshot_perm k m : snapshotCallbacks k m ≡ₚ map fst (map_to_list (filter (λ kv, snd kv = k) m)).
Proof. unfold snapshotCallbacks. by rewrite iterate_perm. Qed.

Lemma snapshot_in k m cb : cb ∈ snapshotCallbacks k m ↔ m !! cb = Some k.
Proof.
  rewrite (snapshot_perm k m), list_elem_of_fmap. split.
  - intros ([cb' k'] & -> & Hin%elem_of_map_to_list%map_lookup_filter_Some). cbn in *. destruct Hin as [Hl <-]. done.
  - intros Hl. exists (cb, k). split; [done|]. apply elem_of_map_to_list, map_lookup_filter_Some. done.
Qed.

Lemma snapshot_nodup k m : NoDup (snapshotCallbacks k m).
Proof. rewrite (snapshot_perm k m). apply NoDup_fst_map_to_list. Qed.

Lemma filter_eq_nodup {A} `{EqDecision A} (x : A) l : NoDup l → filter (λ y, y = x) l = if decide (x ∈ l) then [x] else [].
Proof.
  induction 1 as [|y l Hy Hl IH]; [done|]. rewrite filter_cons, IH. repeat case_decide; subst; set_solver.
Qed.

Definition calls_of (cb : nat) (log : list (nat * callback_call)) : list callback_call := map snd (filter (λ p, fst p = cb) log).

(** Every registered callback is called for each event of its kind, once and in order,
    and one that is not registered is not called. *)
Theorem callbacks_called m calls cb :
  calls_of cb (dispatch m calls) = filter (λ c, m !! cb = Some (call_kind c)) calls.
Proof.
  induction calls as [|c calls IH]; [done|]. unfold calls_of, dispatch in *. cbn [mbind list_bind]. rewrite filter_app, map_app, IH.
  assert (map snd (filter (λ p, fst p = cb) (map (λ cb, (cb, c)) (snapshotCallbacks (call_kind c) m))) =
          if decide (m !! cb = Some (call_kind c)) then [c] else []) as ->; [|rewrite filter_cons; by case_decide].
  assert (∀ l : list nat, map snd (filter (λ p, fst p = cb) (map (λ cb, (cb, c)) l)) = map (λ _, c) (filter (λ x, x = cb) l)) as ->.
  { intros l. induction l as [|x l IHl]; [done|]. cbn [map]. rewrite !filter_cons. cbn [fst]. case_decide; cbn [map]; by rewrite IHl. }
  rewrite (filter_eq_nodup cb) by apply snapshot_nodup. repeat case_decide; try done; by rewrite snapshot_in in *.
Qed.
End Dispatch.
End Events.

(** ** What every conversation keeps

    A predicate on the manager's state that every method keeps, and one on the
    configurations that the methods hand out, hold whatever arrives. *)

(** [P] holds afterwards, whatever the outcome. *)
Definition keeps_always {W A} (P : W → Prop) (m : prog W A) : Prop := ∀ w, P w → P (fst (m w)).

Section Invariants.
Context {ET : ErrorText} {W : Type} {MS : ManagerService W}.
(** [crash]: whether a method that panics may leave anything behind. *)
Variables (crash : Prop) (P : W → Prop) (C : Config → Prop).

Definition method_keeps {A} (m : prog W A) : Prop := ∀ w, P w → (crash ∧ snd (m w) = Panic) ∨ P (fst (m w)).

Lemma keeps_always_method {A} (m : prog W A) : keeps_always P m → method_keeps m.
Proof. intros H w Hw. right. by apply H. Qed.

Definition method_gives (m : prog W Config) : Prop := ∀ w c, P w → snd (m w) = Ret c → C c.

Record service_keeps : Prop := {
  k_StoredConfig : ∀ name, method_keeps (s_StoredConfig name) ∧ method_gives (s_StoredConfig name);
  k_RuntimeConfig : ∀ name, method_keeps (s_RuntimeConfig name) ∧ method_gives (s_RuntimeConfig name);
  k_Start : ∀ name, method_keeps (s_Start name);
  k_Stop : ∀ name, method_keeps (s_Stop name);
  k_WaitForStop : ∀ name, method_keeps (s_WaitForStop name);
  k_Delete : ∀ name, method_keeps (s_Delete name);
  k_State : ∀ name, method_keeps (s_State name);
  k_Create : ∀ c, method_keeps (s_Create c);
  k_Tunnels : method_keeps s_Tunnels;
  k_Quit : ∀ b, method_keeps (s_Quit b);
  k_Update : ∀ w, P w → P (s_Update w);
  k_SmartStart : ∀ name mode, method_keeps (s_SmartStart name mode);
  k_SmartStop : method_keeps s_SmartStop;
  k_Snapshot : method_keeps s_ConnectionSnapshot;
  k_Probe : method_keeps s_ProbeConnection;
  k_zero : C zeroConfig }.

(** The configurations among the messages. *)
Definition configs_ok (msgs : list gob_message) : Prop := ∀ c, Value (VConfig c) ∈ msgs → C c.

Definition good (s : served (W:=W)) : Prop := P (fst s) ∧ configs_ok (e_out (snd s)).
Definition stays_good {A} (m : prog (served (W:=W)) A) : Prop := ∀ s, good s → (crash ∧ snd (m s) = Panic) ∨ good (fst (m s)).

Lemma good_always {A} (m : prog (served (W:=W)) A) : keeps_always good m → stays_good m.
Proof. intros H s Hs. right. by apply H. Qed.

Lemma good_bind {A B} (m : prog (served (W:=W)) A) (k : A → prog (served (W:=W)) B) :
  stays_good m → (∀ a, stays_good (k a)) → stays_good (io_bind m k).
Proof.
  intros Hm Hk s Hs. unfold io_bind. destruct (Hm s Hs) as [[Hc Hp]|Hg]; destruct (m s) as [s' [a|e|]]; cbn [fst snd] in *; try done;
    [by left|by apply Hk|by right..].
Qed.

Lemma good_Decode {A} (g : gob A) : stays_good (on_end (Decode g)).
Proof. apply good_always. intros [w e] Hs. unfold on_end, Decode. cbn [fst snd]. by destruct (read_defs _ _) as [[known rest] r]. Qed.

Lemma good_Encode {A} (g : gob A) a : (∀ c, gob_to g a = VConfig c → C c) → stays_good (on_end (Encode g a)).
Proof.
  intros Hc. apply good_always. intros [w e] [Hw He]. unfold on_end, Encode. cbn [fst snd] in *. destruct (e_broken e); [done|]. split; [done|]. cbn.
  intros c [Hin|Hin]%elem_of_app; [by apply He|]. unfold gob_frame in Hin. apply elem_of_app in Hin as [Hin|Hin].
  - apply list_elem_of_fmap in Hin as (t & ? & _). done.
  - apply list_elem_of_singleton in Hin. injection Hin as Hc1. by apply Hc.
Qed.

Lemma good_attempt_world {A B} (m : prog W A) (k : outcome A → prog (served (W:=W)) B) :
  method_keeps m → (∀ w r, P w → r = snd (m w) → stays_good (k r)) → stays_good (let! r := attempt (on_world m) in k r).
Proof.
  intros Hm Hk [w e] [Hw He]. unfold io_bind, attempt, on_world. cbn [fst snd] in *. specialize (Hk w _ Hw eq_refl).
  destruct (Hm w Hw) as [[Hc Hp]|Hg]; destruct (m w) as [w' [a|err|]]; cbn [fst snd] in *; try done;
    [by left|by apply Hk; split..|right; by split].
Qed.

Lemma good_reply_error m : method_keeps m → stays_good (reply_error m).
Proof. intros Hm. apply good_attempt_world; [done|]. intros w r _ _. by apply good_Encode. Qed.

Lemma good_reply {A} (g : gob A) zero m : method_keeps m → (∀ a c, gob_to g a ≠ VConfig c) → stays_good (reply g zero m).
Proof.
  intros Hm Hg. apply good_attempt_world; [done|]. intros w r _ _. apply good_bind; [|intros _; by apply good_Encode].
  apply good_Encode. intros c Hc. by apply Hg in Hc.
Qed.

Lemma good_reply_config m : C zeroConfig → method_keeps m ∧ method_gives m → stays_good (reply g_Config zeroConfig m).
Proof.
  intros Hz [Hm Hg]. apply good_attempt_world; [done|]. intros w r Hw Hr. apply good_bind; [|intros _; by apply good_Encode].
  apply good_Encode. intros c [= Hc]. subst r. destruct (snd (m w)) as [c'| |] eqn:E; subst; [by apply (Hg w)|done..].
Qed.

Lemma good_reply_value {A} (g : gob A) f : (∀ a c, gob_to g a ≠ VConfig c) → stays_good (reply_value g f).
Proof. intros Hg s Hs. apply good_Encode; [|done]. intros c Hc. by apply Hg in Hc. Qed.

Lemma method_keeps_map {A B} (m : prog W A) (f : A → B) : method_keeps m → method_keeps (let! a := m in io_ret (f a)).
Proof.
  intros Hm w Hw. unfold io_bind. destruct (Hm w Hw) as [[Hc Hp]|Hg]; destruct (m w) as [w' [a|e|]]; cbn [fst snd] in *; try done; [by left|by right..].
Qed.

Lemma good_method k : service_keeps → stays_good (serve_method k).
Proof.
  intros K. unfold serve_method.
  repeat match goal with
  | |- context [(k =? ?x)] => destruct (k =? x)
  end; try (apply good_bind; [apply good_Decode|]; intros ?); try (apply good_bind; [apply good_Decode|]; intros ?);
    first [apply good_reply_config; [apply K|apply K] | apply good_reply_error, K | apply good_reply_value; by intros ? ?
          |apply good_reply; [first [apply K|apply method_keeps_map, K]|by intros ? ?]|idtac].
  - apply good_always. intros [w e] [Hw He]. split; [by apply K|done].
  - apply good_always. by intros s.
Qed.

Lemma serve_keeps : service_keeps → stays_good serve_pending.
Proof.
  intros K s. unfold serve_pending. generalize (S (length (e_in (snd s)))) as fuel. intros fuel. revert s.
  induction fuel as [|fuel IH]; intros s Hs; [by right|]. cbn [serve_loop]. destruct (e_in (snd s)); [by right|].
  assert (stays_good serve_one) as H1 by (apply good_bind; [apply good_Decode|]; intros k; by apply good_method).
  destruct (H1 s Hs) as [[Hc Hp]|Hg]; destruct (serve_one s) as [s' [u|e|]]; cbn [fst snd] in *; try done; [by left|by apply IH|by right..].
Qed.
End Invariants.

(** ** Examples *)

Section Demo.
(** The text of the errors that the source makes itself. *)
Definition demo_text : ErrorText :=
  {| Error := λ e, match e with ErrorString s => s | WrapError m _ => m | _ => "error" end; Error_New := λ _, eq_refl |}.
#[local] Existing Instance demo_text.

(** A manager that keeps a list of tunnels and nothing else. *)
Definition demo_missing : goerror := err "no such tunnel".
Definition demo_tunnels : ManagerService (list Tunnel) := {|
  s_StoredConfig := λ name, io_ret (mkConfig name zeroInterface []);
  s_RuntimeConfig := λ _, io_fail demo_missing;
  s_Start := λ _, io_ret tt;
  s_Stop := λ _, io_ret tt;
  s_WaitForStop := λ _, io_ret tt;
  s_Delete := λ name l, if existsb (λ t, TName t =?s name) l then (List.filter (λ t, negb (TName t =?s name)) l, Ret tt) else (l, Fail demo_missing);
  s_State := λ _, io_ret TunnelStopped;
  s_GlobalState := λ _, TunnelStopped;
  s_Create := λ c l, (mkTunnel (Name c) :: l, Ret (mkTunnel (Name c)));
  s_Tunnels := λ l, (l, Ret l);
  s_Quit := λ _, io_ret false;
  s_UpdateState := λ _, 2;
  s_Update := λ l, mkTunnel "updated" :: l;
  s_SmartStart := λ _ _, io_fail demo_missing;
  s_SmartStop := io_ret tt;
  s_ConnectionSnapshot := io_ret zero_snapshot;
  s_ProbeConnection := io_fail demo_missing |}.

(** The window makes two tunnels, asks for an update, deletes a tunnel twice and
    asks for the list: the update came first, and the second deletion failed. *)
Lemma ipc_refines_direct_calls_witness :
  let MS := demo_tunnels in
  let calls := [CNewTunnel (mkConfig "home" zeroInterface []); CNewTunnel (mkConfig "work" zeroInterface []); CUpdate; CUpdateState;
                CDelete (mkTunnel "home"); CDelete (mkTunnel "home"); CConnectionSnapshot; CTunnels] in
  ∃ answers, snd (conversation client_call calls (mkSession [] fresh_end fresh_end true)) = Ret answers ∧
             snd (conversation direct_call calls ([], O)) = Ret answers ∧
             answers !! 5%nat = Some (AError (Fail (ErrorString "no such tunnel"))) ∧
             last answers = Some (ATunnels (Ret [mkTunnel "updated"; mkTunnel "work"])).
Proof.
  intros MS calls. destruct (ipc_refines_direct_calls calls []) as [H _]; [intros w; reflexivity|].
  rewrite H. vm_compute. eexists. split; [reflexivity|]. split; [reflexivity|]. split; reflexivity.
Defined.

(** Two notices, of which the pump has written the first. *)
Lemma events_in_order_witness :
  let ns := [TunnelChange "home" TunnelStarted TunnelStarted None; ManagerStopping] in
  ∃ c, conn_run ns c ∧ InitializeIPCClient_events (c_wire c) = [CallTunnelChange (mkTunnel "home") 1 1 None] ∧
       ∃ got, sublist got (filter (allowed (c_elevated c)) ns) ∧ InitializeIPCClient_events (c_wire c) = concat (map heard got).
Proof.
  intros ns. pose proof (cr_notify _ _ ManagerStopping (cr_notify _ _ (TunnelChange "home" TunnelStarted TunnelStarted None) (cr_listen false))) as R.
  pose proof (cr_pump _ _ _ _ None R eq_refl eq_refl I) as R1. eexists. split; [exact R1|]. split; [reflexivity|].
  apply (events_in_order _ _ R1). repeat constructor. discriminate.
Defined.
End Demo.
