(* ===== verification/IpcManager.v ===== *)
(** * The manager behind the pipes ([client/manager]: ipc_server.go, ipc_uapi.go, connection_report.go)

    [ManagerService] as the pipes see it: the methods that are modelled
    elsewhere, those that are only reachable from here ([RuntimeConfig], [Quit],
    [Update], [ConnectionSnapshot], [ProbeConnection]), the connections that are
    notified, and what a client without administrator rights can do with all of it. *)
From S2P Require Import Prelude GoStrings GoStrconv GoEncoding GoPath GoJson GoTime GoSha256 GoOs AwgValidation TunnelName Conf ConfFacts Parser UapiParser ParserSafety SmartRules SmartCatalog SmartUpdate SmartSettings SmartStore SmartConfig Supervisor Services ManagerNet ManagerTypes ManagerDesired Manager ManagerStart ManagerFacts ManagerTheorems Ipc.

Local Open Scope Z_scope.

Inductive UpdateState := UpdateStateUnknown | UpdateStateFoundUpdate | UpdateStateUpdatesDisabledUnofficialBuild.
Definition update_code (s : UpdateState) : Z :=
  match s with UpdateStateUnknown => 0 | UpdateStateFoundUpdate => 1 | UpdateStateUpdatesDisabledUnofficialBuild => 2 end.

(** [i_pipes]: the pipes to tunnel services, with whether their mutex is held;
    [i_quits]: what was sent to [quitManagersChan]. *)
Record iworld := mkIWorld {
  i_m : mworld;
  i_conns : gmap nat conn;
  i_haveQuit : bool;
  i_quits : nat;
  i_updateState : UpdateState;
  i_pipes : gmap gostring bool }.

Definition eta_iworld (w : iworld) : iworld :=
  mkIWorld (i_m w) (i_conns w) (i_haveQuit w) (i_quits w) (i_updateState w) (i_pipes w).
#[export] Instance set_i_m : Setter i_m := ltac:(derive_setter eta_iworld i_m).
#[export] Instance set_i_conns : Setter i_conns := ltac:(derive_setter eta_iworld i_conns).
#[export] Instance set_i_haveQuit : Setter i_haveQuit := ltac:(derive_setter eta_iworld i_haveQuit).
#[export] Instance set_i_quits : Setter i_quits := ltac:(derive_setter eta_iworld i_quits).
#[export] Instance set_i_updateState : Setter i_updateState := ltac:(derive_setter eta_iworld i_updateState).
#[export] Instance set_i_pipes : Setter i_pipes := ltac:(derive_setter eta_iworld i_pipes).

(** What the outside answers to the [n]-th call: the device on its pipe, the
    sites that are probed (status and body), how long that took, and what
    happens to the manager while it waits. *)
Class ProbeEnv := {
  uapi_reply : nat → gostring;
  https_reply : nat → gostring → outcome (Z * gostring);
  elapsed : nat → gostring;
  local_time : Z → gostring;
  meanwhile : nat → mworld → mworld }.

Definition IM (A : Type) : Type := prog iworld A.

Section Service.
Context {RT : GoRuntime} {IDNA : Idna} {ED : Ed25519} {F64 : Float64} {ENV : ManagerEnv} {PE : ProbeEnv} {ET : ErrorText}.

Definition note_notice (n : notification) : notice := TunnelChange (note_name n) (note_state n) (note_global n) (note_error n).

(** A computation of the manager; what it notifies goes to the connections. *)
Definition lift {A} (m : M A) : IM A := λ w,
  let '(mw, r) := m (i_m w) in
  let news := drop (length (m_notes (i_m w))) (m_notes mw) in
  (w <| i_m := mw |> <| i_conns := fold_left (λ conns n, notifyAll (note_notice n) conns) news (i_conns w) |>, r).

Definition imodify (f : iworld → iworld) : IM unit := λ w, (f w, Ret tt).

(** ** Pipes to tunnel services *)

Definition ERROR_NO_DATA : goerror := ErrorString "The pipe is being closed.".

(** A mutex that is already held is waited for: [Panic] stands for ever. *)
Definition lock_pipe (tunnelName : gostring) : IM unit := λ w,
  match i_pipes w !! tunnelName with
  | Some false => (w <| i_pipes := <[tunnelName := true]> (i_pipes w) |>, Ret tt)
  | Some true => (w, Panic)
  | None => (w, Ret tt)
  end.
Definition unlock_pipe (tunnelName : gostring) : IM unit := imodify (λ w,
  match i_pipes w !! tunnelName with Some _ => w <| i_pipes := <[tunnelName := false]> (i_pipes w) |> | None => w end).

Definition connectTunnelServicePipe (tunnelName : gostring) : IM unit := λ w,
  match i_pipes w !! tunnelName with
  | Some _ => lock_pipe tunnelName w
  | None =>
      (let! _ := io_lift (PipePathOfTunnel tunnelName) in
       lift ext_check ;; (* the identity of the system *)
       lift ext_check ;; (* DialTimeout *)
       imodify (λ w, w <| i_pipes := <[tunnelName := true]> (i_pipes w) |>)) w
  end.

Definition disconnectTunnelServicePipe (tunnelName : gostring) : IM unit := λ w,
  match i_pipes w !! tunnelName with
  | None => (w, Ret tt)
  | Some _ => (lock_pipe tunnelName ;; imodify (λ w, w <| i_pipes := delete tunnelName (i_pipes w) |>)) w
  end.

(** [pipe.Write("get=1\n\n")] *)
Definition pipe_get : IM unit := lift ext_check.

(** [s.elevatedToken == 0] *)
Definition redact_unless (elevated : bool) (c : Config) : Config := if elevated then c else Redact c.

(** The request, on a new pipe when the old one turns out to be closed. *)
Definition request_config (tunnelName : gostring) : IM unit :=
  let! r := attempt pipe_get in
  let! r := match r with
            | Fail e =>
                if same_errno e ERROR_NO_DATA then
                  unlock_pipe tunnelName ;;
                  disconnectTunnelServicePipe tunnelName ;;
                  connectTunnelServicePipe tunnelName ;;
                  attempt pipe_get
                else io_ret r
            | _ => io_ret r
            end in
  match r with
  | Ret _ => io_ret tt
  | Fail e => unlock_pipe tunnelName ;; disconnectTunnelServicePipe tunnelName ;; io_fail e
  | Panic => io_lift Panic
  end.

Definition RuntimeConfig (elevated : bool) (tunnelName : gostring) : IM Config :=
  let! storedConfig := lift (LoadFromName tunnelName) in
  connectTunnelServicePipe tunnelName ;;
  request_config tunnelName ;;
  let! r := attempt (let! reply := lift (ext_read (λ n _, Ret (uapi_reply n))) in io_lift (FromUAPI reply storedConfig)) in
  unlock_pipe tunnelName ;;
  match r with
  | Ret (conf, _) => io_ret (redact_unless elevated conf)
  | Fail e => io_fail e
  | Panic => io_lift Panic
  end.

(** ** Quitting and updating *)

(** The names are ignored one by one. *)
Fixpoint uninstall_all (names : list gostring) : IM unit :=
  match names with
  | [] => io_ret tt
  | name :: names => ignore_error (lift (UninstallTunnel name)) ;; uninstall_all names
  end.

Definition quit_steps (id : nat) (stopTunnelsOnQuit : bool) : IM bool :=
  let! names := (if stopTunnelsOnQuit then lift Tunnels else io_ret []) in
  imodify (λ w, w <| i_conns := alter quit_conn id (i_conns w) |>) ;;
  (if stopTunnelsOnQuit then ignore_error (lift smartStopUnlocked) ;; uninstall_all names else io_ret tt) ;;
  imodify (λ w, w <| i_quits := S (i_quits w) |>) ;;
  io_ret false.

(** The deferred function gives the right to quit back after an error. *)
Definition Quit (id : nat) (elevated stopTunnelsOnQuit : bool) : IM bool :=
  if negb elevated then io_fail ERROR_ACCESS_DENIED else λ w,
  if i_haveQuit w then (w, Ret true)
  else match quit_steps id stopTunnelsOnQuit (w <| i_haveQuit := true |>) with
       | (w, Fail e) => (w <| i_haveQuit := false |>, Fail e)
       | (w, r) => (w, r)
       end.

Definition update_refusal : DownloadProgress :=
  mkProgress [] 0 0 (Some (err "Pinus Preview обновляется отдельным проверенным пакетом")) false.

Definition Update (elevated : bool) (w : iworld) : iworld :=
  if negb elevated then w else w <| i_conns := notifyAll (UpdateProgress update_refusal) (i_conns w) |>.

(** ** Reports *)

(** The first of the tunnels that is started, as the runtime walks them. *)
Definition started_native (states : gmap gostring TunnelState) : option gostring :=
  fst <$> List.find (λ kv, bool_decide (snd kv = TunnelStarted)) (iterate (map_to_list states)).

Definition snapshot_m : M ConnectionSnapshot :=
  let! process := gets m_process in
  match process with
  | Some state => io_ret (mkSnapshot (ps_tunnelName state) (ps_settings state) "smart")
  | None =>
      let! states := nativeTunnelStates in
      match started_native states with
      | Some name => λ w, (w, Ret (mkSnapshot name (DefaultSettings (env_catalog (m_calls w))) "native"))
      | None => io_ret zero_snapshot
      end
  end.

Definition probeHTTP (n : nat) (url : gostring) : outcome gostring :=
  '(status, data) ← https_reply n url;
  _ ← fail_if (negb (status =? 200)) (err ("HTTP " ++ Itoa status));
  _ ← fail_if (16 * 1024 <? Z.of_nat (length data)) (err "слишком большой ответ");
  traceIP data.

Definition probes : list (gostring * gostring) :=
  [("IPv4" : gostring, "https://1.1.1.1/cdn-cgi/trace" : gostring);
   ("IPv6" : gostring, "https://[2606:4700:4700::1111]/cdn-cgi/trace" : gostring);
   ("DNS + HTTPS" : gostring, "https://www.cloudflare.com/cdn-cgi/trace" : gostring)].

Fixpoint probe_lines (l : list (gostring * gostring)) : M gostring :=
  match l with
  | [] => io_ret []
  | (name, url) :: l => λ w,
      let n := m_calls w in
      let line := match probeHTTP n url with
                  | Ret ip => name ++ ": выход " ++ ip ++ ", " ++ elapsed n
                  | Fail e => name ++ ": не подтверждено (" ++ Error e ++ ")"
                  | Panic => []
                  end in
      (let! rest := probe_lines l in io_ret (line ++ [x0a] ++ rest)) (meanwhile n (w <| m_calls := S n |>))
  end.

Fixpoint peer_lines (i : Z) (peers : list Peer) : gostring :=
  match peers with
  | [] => []
  | peer :: peers =>
      let handshake := if negb (LastHandshakeTime peer =? 0) then local_time (LastHandshakeTime peer) else "ещё не было" in
      "Пир " ++ Itoa (i + 1) ++ ": handshake " ++ handshake ++ ", принято " ++ Itoa (RxBytes peer) ++ " B, отправлено " ++ Itoa (TxBytes peer)
        ++ " B" ++ [x0a] ++ peer_lines (i + 1) peers
  end.

Definition probe_smart (snapshot : ConnectionSnapshot) : M gostring :=
  let! state := gets m_process in
  match state with
  | Some state =>
      if negb (ps_tunnelName state =?s SName snapshot) then io_fail (err "подключение изменилось")
      else
        ext_check ;; (* proxy.SOCKS5 *)
        let! lines := probe_lines probes in
        let! now := gets m_process in
        let same := match now with Some p => (ps_pid p =? ps_pid state)%nat | None => false end in
        io_ret ("HTTPS через AWG-выход smart-движка (TLS проверяется):" ++ [x0a] ++ lines
          ++ (if same then [] else "Подключение сменилось во время проверки. Повторите проверку." ++ [x0a])
          ++ "Проверен принудительный AWG-выход. Эти запросы не проверяют маршрут каждого приложения, браузерный DoH/WebRTC и прямые исключения.")
  | None => io_fail (err "подключение изменилось")
  end.

Definition ProbeConnection (elevated : bool) : IM gostring :=
  if negb elevated then io_fail ERROR_ACCESS_DENIED
  else
    let! snapshot := lift snapshot_m in
    if SName snapshot =?s [] then io_ret ("VPN не подключён. Сетевой запрос не выполнялся." : gostring)
    else if SEngine snapshot =?s "native" then
      let! config := RuntimeConfig elevated (SName snapshot) in
      io_ret ("Native AWG: данные работающего туннеля" ++ [x0a] ++ peer_lines 0 (Peers config)
        ++ "Счётчики и handshake не доказывают доступность сайта или отсутствие утечек. Активная HTTPS-проверка здесь доступна для smart-режима.")
    else lift (probe_smart snapshot).

(** ** The methods *)

(** [IPCServerListen] with the connection number [id]. *)
Definition manager_service (id : nat) (elevated : bool) : ManagerService iworld := {|
  s_StoredConfig := λ name, lift (StoredConfig elevated name);
  s_RuntimeConfig := RuntimeConfig elevated;
  s_Start := λ name, lift (Start name);
  s_Stop := λ name, lift (Stop name);
  s_WaitForStop := λ name, lift (WaitForStop name);
  s_Delete := λ name, lift (Delete elevated name);
  s_State := λ name, lift (State name);
  s_GlobalState := λ w, if smartAnyStarted (i_m w) then TunnelStarted else trackedTunnelsGlobalState (m_tracked (i_m w));
  s_Create := λ c, let! name := lift (Create elevated c) in io_ret (mkTunnel name);
  s_Tunnels := let! names := lift Tunnels in io_ret (map mkTunnel names);
  s_Quit := Quit id elevated;
  s_UpdateState := λ w, update_code (i_updateState w);
  s_Update := Update elevated;
  s_SmartStart := λ name mode, lift (SmartStart elevated name mode);
  s_SmartStop := lift (SmartStop elevated);
  s_ConnectionSnapshot := lift snapshot_m;
  s_ProbeConnection := ProbeConnection elevated |}.
End Service.

(** ** A client without administrator rights *)

Section Unelevated.
Context {RT : GoRuntime} {IDNA : Idna} {ED : Ed25519} {F64 : Float64} {ENV : ManagerEnv} {PE : ProbeEnv} {ET : ErrorText}.

(** The stored configurations are [stored], and no engine runs that is not in [engines]. *)
Definition calm (stored : gmap gostring Config) (engines : gset nat) (w : mworld) : Prop := m_stored w = stored ∧ m_engines w ⊆ engines.

#[local] Instance calm_uncounted st en : Uncounted (calm st en).
Proof. by intros w n. Qed.

Section Calm.
Variables (st : gmap gostring Config) (en : gset nat).

Lemma calm_modify f : (∀ w, m_stored (f w) = m_stored w ∧ m_engines (f w) = m_engines w) → keeps (calm st en) (modify f).
Proof. intros Hf w [Hs He]. destruct (Hf w) as [E1 E2]. split; cbn; [by rewrite E1|by rewrite E2]. Qed.

Lemma calm_write f : (∀ n w, m_stored (f n w) = m_stored w ∧ m_engines (f n w) = m_engines w) → keeps (calm st en) (ext_write f).
Proof.
  intros Hf. apply keeps_ext_write; [apply _|]. intros n w [Hs He]. destruct (Hf n w) as [E1 E2]. split; [by rewrite E1|by rewrite E2].
Qed.

Lemma calm_wait n : keeps (calm st en) (WaitForStop n).
Proof. by apply calm_write. Qed.
Lemma calm_uninstall n : keeps (calm st en) (UninstallTunnel n).
Proof. apply keeps_ext; [apply _|]. intros m w Hw. by destruct (m_services w !! n). Qed.
Lemma calm_state n : keeps (calm st en) (State n).
Proof. unfold State. keeping. Qed.
Lemma calm_load n : keeps (calm st en) (LoadFromName n).
Proof. apply keeps_ext_read, _. Qed.
Lemma calm_start_service n : keeps (calm st en) (start_service n).
Proof. intros w Hw. unfold start_service. apply calm_write; [done|]. by destruct (m_tracked w !! n). Qed.
Lemma calm_install n : keeps (calm st en) (InstallTunnel n).
Proof. unfold InstallTunnel, previewConnectionPreflight. keeping; first [by apply calm_write|apply calm_start_service]. Qed.
Lemma calm_stop_natives names : keeps (calm st en) (stopNativeTunnels names).
Proof.
  unfold stopNativeTunnels, stopNativeTunnelsLocked. keeping; try apply keeps_as_error; apply keeps_join_loop; intros n;
    [apply keeps_normalized, calm_uninstall|apply calm_wait].
Qed.
Lemma calm_query names states : keeps (calm st en) (query_states names states).
Proof.
  revert states. induction names as [|n names IH]; intros states; [by intros w|]. cbn [query_states]. apply keeps_bind; [apply keeps_wrap, calm_state|]. done.
Qed.
Lemma calm_native_states : keeps (calm st en) nativeTunnelStates.
Proof. unfold nativeTunnelStates. keeping. apply calm_query. Qed.
Lemma calm_execute plan name :
  keeps (calm st en) (executeNativeSwitch plan (λ name, normalized (UninstallTunnel name)) WaitForStop (InstallTunnel name)).
Proof.
  unfold executeNativeSwitch. keeping; try apply keeps_as_error; [apply keeps_join_loop; intros n..|].
  - apply keeps_normalized, calm_uninstall.
  - apply calm_wait.
  - apply calm_install.
Qed.
Lemma calm_restore states names errs : keeps (calm st en) (restore_predecessors states names errs).
Proof.
  revert errs. induction names as [|n names IH]; intros errs; [by intros w|]. cbn [restore_predecessors].
  set (b := match _ with Some TunnelStarted | Some TunnelStarting => true | _ => false end). clearbody b.
  destruct (negb b); [apply IH|]. keeping; auto using calm_state, calm_load, calm_install.
Qed.
Lemma calm_clear_desired : keeps (calm st en) clearSmartDesired.
Proof. by apply calm_write. Qed.
Lemma calm_start name : keeps (calm st en) (Start name).
Proof.
  unfold Start, startNativeUnlocked, previewConnectionPreflight. keeping;
    auto using calm_load, calm_native_states, calm_execute, calm_restore, calm_clear_desired, calm_stop_natives.
Qed.
Lemma calm_notify name s e : keeps (calm st en) (IPCServerNotifyTunnelChange name s e).
Proof. by apply calm_modify. Qed.
Lemma calm_remove p : keeps (calm st en) (remove_config p).
Proof. intros w Hw. unfold remove_config. by destruct (env_remove_fault _). Qed.
Lemma calm_kill p : keeps (calm st en) (kill_and_wait p).
Proof. intros w [Hs He]. split; cbn; [done|set_solver]. Qed.
Lemma calm_stop_smart : keeps (calm st en) smartStopUnlocked.
Proof.
  unfold smartStopUnlocked. apply keeps_bind; [by intros w|]. intros s. unfold stopSmartProcessState, notify_stopped.
  keeping; auto using calm_kill, calm_remove, calm_notify; apply keeps_as_error.
Qed.
Lemma calm_stop name : keeps (calm st en) (Stop name).
Proof.
  unfold Stop, stopNativeTunnel, ClearPreviewGuard, clearSmartDesiredForTunnel, loadSmartDesired, join_results.
  keeping; auto using calm_stop_smart, calm_stop_natives; try apply keeps_as_error; try (by apply calm_write).
  apply calm_write. intros n w. destruct (m_desired w); [|done]. by destruct (EqualFold _ _).
Qed.
Lemma calm_snapshot : keeps (calm st en) snapshot_m.
Proof. unfold snapshot_m. keeping. apply calm_native_states. Qed.
End Calm.

(** ** Lifting to the connections *)

(** [Q] of the manager, and nobody has quit meanwhile. *)
Definition unquit (Q : mworld → Prop) (q : bool) (n : nat) (w : iworld) : Prop := Q (i_m w) ∧ i_haveQuit w = q ∧ i_quits w = n.

Section Lift.
Variables (Q : mworld → Prop) (q : bool) (n : nat).
Abbreviation kept m := (keeps_always (unquit Q q n) m).

Lemma kept_lift {A} (m : M A) : keeps Q m → kept (lift m).
Proof. intros Hm w (Hw & Hq & Hn). specialize (Hm _ Hw). unfold lift. destruct (m (i_m w)) as [mw r]. by split_and!. Qed.

Lemma kept_bind {A B} (m : IM A) (k : A → IM B) : kept m → (∀ a, kept (k a)) → kept (io_bind m k).
Proof. intros Hm Hk w Hw. specialize (Hm w Hw). unfold io_bind. destruct (m w) as [w' [a|e|]]; [by apply Hk|done..]. Qed.

Lemma kept_attempt {A} (m : IM A) : kept m → kept (attempt m).
Proof. intros Hm w Hw. specialize (Hm w Hw). unfold attempt. by destruct (m w). Qed.

Lemma kept_out {A} (r : outcome A) : kept (io_lift r).
Proof. by intros w. Qed.

Lemma kept_pipes f : kept (imodify (λ w, w <| i_pipes := f w |>)).
Proof. by intros w. Qed.

Lemma kept_lock name : kept (lock_pipe name).
Proof. intros w Hw. unfold lock_pipe. by destruct (i_pipes w !! name) as [[]|]. Qed.

Lemma kept_unlock name : kept (unlock_pipe name).
Proof. intros w Hw. unfold unlock_pipe, imodify. cbn. by destruct (i_pipes w !! name). Qed.

Context `{!Uncounted Q}.

Lemma kept_connect name : kept (connectTunnelServicePipe name).
Proof using Type*.
  intros w Hw. unfold connectTunnelServicePipe. destruct (i_pipes w !! name); [by apply kept_lock|].
  apply kept_bind; [apply kept_out| |done]. intros _. do 2 (apply kept_bind; [by apply kept_lift, keeps_ext_check|]; intros _). apply kept_pipes.
Qed.

Lemma kept_disconnect name : kept (disconnectTunnelServicePipe name).
Proof using Type*.
  intros w Hw. unfold disconnectTunnelServicePipe. destruct (i_pipes w !! name); [|done].
  apply kept_bind; [apply kept_lock| |done]. intros _. apply kept_pipes.
Qed.

Lemma kept_get : kept pipe_get.
Proof using Type*. by apply kept_lift, keeps_ext_check. Qed.

Lemma kept_request name : kept (request_config name).
Proof using Type*.
  apply kept_bind; [apply kept_attempt, kept_get|]. intros r. apply kept_bind.
  - destruct r as [|e|]; [apply (kept_out (Ret _))| |apply (kept_out (Ret _))]. destruct (same_errno _ _); [|apply (kept_out (Ret _))].
    apply kept_bind; [apply kept_unlock|]. intros _. apply kept_bind; [apply kept_disconnect|]. intros _.
    apply kept_bind; [apply kept_connect|]. intros _. apply kept_attempt, kept_get.
  - intros [|e|]; [apply (kept_out (Ret _))| |apply kept_out]. apply kept_bind; [apply kept_unlock|]. intros _.
    apply kept_bind; [apply kept_disconnect|]. intros _. apply (kept_out (Fail _)).
Qed.

Lemma kept_runtime elevated name : keeps Q (LoadFromName name) → kept (RuntimeConfig elevated name).
Proof using Type*.
  intros Hl. apply kept_bind; [by apply kept_lift|]. intros c. apply kept_bind; [apply kept_connect|]. intros _.
  apply kept_bind; [apply kept_request|]. intros _. apply kept_bind.
  { apply kept_attempt, kept_bind; [by apply kept_lift, keeps_ext_read|]. intros reply. apply kept_out. }
  intros r. apply kept_bind; [apply kept_unlock|]. intros _. destruct r as [[conf x]|e|]; apply (kept_out (_ : outcome Config)).
Qed.
End Lift.

(** No key is in the configuration. *)
Definition redacted (c : Config) : Prop :=
  PrivateKey (Iface c) = zeroKey ∧ HeaderProtectionKey (Iface c) = zeroKey ∧
  Forall (λ p, PublicKey p = zeroKey ∧ PresharedKey p = zeroKey) (Peers c).

Lemma Redact_redacted c : redacted (Redact c).
Proof. split_and!; [done..|]. cbn. induction (Peers c); cbn; by constructor. Qed.

Lemma StoredConfig_redacts name w c : snd (lift (StoredConfig false name) w) = Ret c → redacted c.
Proof.
  unfold lift, StoredConfig, io_bind. destruct (LoadFromName name (i_m w)) as [mw [c'| |]]; cbn; [|done..].
  intros [= <-]. apply Redact_redacted.
Qed.

Lemma RuntimeConfig_redacts name w c : snd (RuntimeConfig false name w) = Ret c → redacted c.
Proof.
  intros H. apply snd_eta in H. unfold RuntimeConfig in H. prog_inv.
  match type of H with match ?r with _ => _ end _ = _ => destruct r as [[conf x]|e|] end; [|by unfold io_fail in H|by unfold io_lift in H].
  unfold io_ret in H. injection H as _ <-. apply Redact_redacted.
Qed.

Lemma unelevated_service id st en q n : service_keeps (MS := manager_service id false) False (unquit (calm st en) q n) redacted.
Proof.
  split; cbn [manager_service s_StoredConfig s_RuntimeConfig s_Start s_Stop s_WaitForStop s_Delete s_State s_Create s_Tunnels s_Quit s_Update s_SmartStart s_SmartStop s_ConnectionSnapshot s_ProbeConnection];
    intros; try (split; [|intros w c _; apply StoredConfig_redacts || apply RuntimeConfig_redacts]); try apply keeps_always_method;
    try (apply kept_lift; auto using calm_start, calm_stop, calm_wait, calm_state, calm_snapshot; by intros w); try done.
  - apply kept_lift, keeps_bind; [apply calm_load|intros c; apply keeps_ret].
  - apply kept_runtime; [apply _|apply calm_load].
  - apply kept_bind; [apply kept_lift; by intros w|]. intros name. apply (kept_out _ _ _ (Ret _)).
  - apply kept_bind; [apply kept_lift, keeps_ext_read, _|]. intros names. apply (kept_out _ _ _ (Ret _)).
  - by intros w.
  - by intros w.
Qed.

(** C7: Whatever a client without administrator rights sends, in whatever order
    and however malformed: the stored configurations stay as they are, no engine
    is started, nobody quits, and no configuration that it gets has a key. *)
Theorem unelevated_harmless id w e : configs_ok redacted (e_out e) →
  let '((w', e'), _) := serve_pending (MS := manager_service id false) (w, e) in
  m_stored (i_m w') = m_stored (i_m w) ∧ m_engines (i_m w') ⊆ m_engines (i_m w) ∧
  i_haveQuit w' = i_haveQuit w ∧ i_quits w' = i_quits w ∧ configs_ok redacted (e_out e').
Proof.
  intros He. pose proof (serve_keeps _ _ _ (unelevated_service id (m_stored (i_m w)) (m_engines (i_m w)) (i_haveQuit w) (i_quits w)) (w, e)) as H.
  destruct (serve_pending (w, e)) as [[w' e'] r]. destruct H as [[[] _]|[((Hs & Hen) & Hq & Hn) Hc]]; [by split; [split_and!|]|]. by split_and!.
Qed.

(** ** Quitting once, and free pipes *)

(** Nothing is sent to [quitManagersChan] that its one place does not hold, and
    no mutex of a pipe stays locked. *)
Definition tidy (w : iworld) : Prop :=
  (i_quits w <= if i_haveQuit w then 1 else 0)%nat ∧ ∀ name, i_pipes w !! name ≠ Some true.

Abbreviation tidies m := (keeps_always tidy m).

Lemma tidy_lift {A} (m : M A) : tidies (lift m).
Proof. intros w Hw. unfold lift. by destruct (m (i_m w)). Qed.

Lemma tidy_bind {A B} (m : IM A) (k : A → IM B) : tidies m → (∀ a, tidies (k a)) → tidies (io_bind m k).
Proof. intros Hm Hk w Hw. specialize (Hm w Hw). unfold io_bind. destruct (m w) as [w' [a|e|]]; [by apply Hk|done..]. Qed.

(** What quitting may still do once it has the right to. *)
Definition quitting (n : nat) (w : iworld) : Prop := i_haveQuit w = true ∧ i_quits w = n ∧ ∀ name, i_pipes w !! name ≠ Some true.

Lemma quitting_lift {A} n (m : M A) : keeps_always (quitting n) (lift m).
Proof. intros w Hw. unfold lift. by destruct (m (i_m w)). Qed.

Lemma quitting_ignore {A} n (m : M A) : keeps_always (quitting n) (ignore_error (lift m)).
Proof. intros w Hw. pose proof (quitting_lift n m w Hw) as H. unfold ignore_error. by destruct (lift m w). Qed.

Lemma quitting_uninstall n names : keeps_always (quitting n) (uninstall_all names).
Proof.
  induction names as [|name names IH]; [by intros w|]. cbn [uninstall_all]. intros w Hw. pose proof (quitting_ignore n (UninstallTunnel name) w Hw) as H.
  unfold io_bind. destruct (ignore_error _ w) as [w' [u|e|]]; [by apply IH|done..].
Qed.

Lemma quitting_middle n (b : bool) names :
  keeps_always (quitting n) (if b then ignore_error (lift smartStopUnlocked) ;; uninstall_all names else io_ret tt).
Proof.
  destruct b; [|by intros w]. intros w Hw. pose proof (quitting_ignore n smartStopUnlocked w Hw) as H.
  unfold io_bind. destruct (ignore_error _ w) as [w' [u|e|]]; [by apply quitting_uninstall|done..].
Qed.

(** The result of a step that may be the last. *)
Definition quit_result {A} (n : nat) (wr : iworld * outcome A) : Prop :=
  match snd wr with Ret _ => quitting n (fst wr) | _ => quitting 0 (fst wr) end.

Lemma quit_bind {A B} n (m : IM A) (k : A → IM B) w : keeps_always (quitting 0) m → quitting 0 w →
  (∀ a w, quitting 0 w → quit_result n (k a w)) → quit_result n (io_bind m k w).
Proof. intros Hm Hw Hk. specialize (Hm w Hw). unfold io_bind. destruct (m w) as [w' [a|e|]]; [by apply Hk|done..]. Qed.

Lemma quit_steps_once id b w : quitting 0 w → quit_result 1 (quit_steps id b w).
Proof.
  intros Hw. apply quit_bind; [destruct b; [apply quitting_lift|by intros w']|done|]. clear w Hw. intros names w Hw.
  apply quit_bind; [by intros w'|done|]. clear w Hw. intros _ w Hw. apply quit_bind; [apply quitting_middle|done|].
  clear w Hw. intros _ w (Hq & Hn & Hp). split_and!; [done| |done]. cbn in *. by rewrite Hn.
Qed.

Lemma tidy_quit id elevated b : tidies (Quit id elevated b).
Proof.
  intros w [Hq Hp]. unfold Quit. destruct elevated; [|done]. cbn [negb].
  assert (tidy w) as Ht by done. destruct (i_haveQuit w) eqn:Eh; [exact Ht|].
  pose proof (quit_steps_once id b (w <| i_haveQuit := true |>)) as H. destruct (quit_steps id b _) as [w' r].
  assert (quitting 0 (w <| i_haveQuit := true |>)) as H0 by (split_and!; [done|cbn; lia|done]). specialize (H H0).
  destruct r as [a|e|]; destruct H as (Hh & Hn & Hp'); cbn [fst snd] in *; split; cbn; rewrite ?Hh, ?Hn; done || lia.
Qed.

(** ** Pipes: every lock is released *)

(** From [P], [m] returns with [Q] or fails with [E]; it does not block. *)
Definition ipc_triple {A} (P : iworld → Prop) (m : IM A) (Q : A → iworld → Prop) (E : iworld → Prop) : Prop :=
  ∀ w, P w → match m w with (w', Ret a) => Q a w' | (w', Fail _) => E w' | (_, Panic) => False end.

Lemma ipc_triple_bind {A B} P (m : IM A) R (k : A → IM B) Q E : ipc_triple P m R E → (∀ a, ipc_triple (R a) (k a) Q E) → ipc_triple P (io_bind m k) Q E.
Proof. intros Hm Hk w Hw. specialize (Hm w Hw). unfold io_bind. destruct (m w) as [w' [a|e|]]; [by apply Hk|done..]. Qed.

Lemma ipc_triple_attempt {A} P (m : IM A) Q E E' : ipc_triple P m Q E →
  ipc_triple P (attempt m) (λ r w, match r with Ret a => Q a w | Fail _ => E w | Panic => False end) E'.
Proof. intros Hm w Hw. specialize (Hm w Hw). unfold attempt. by destruct (m w) as [w' [a|e|]]. Qed.

Definition free (w : iworld) : Prop := ∀ name, i_pipes w !! name ≠ Some true.
Definition held (name : gostring) (w : iworld) : Prop := i_pipes w !! name = Some true ∧ ∀ n, n ≠ name → i_pipes w !! n ≠ Some true.

(** A property of the pipes is not changed by a call of the manager. *)
Lemma ipc_triple_lift {A} (P : gmap gostring bool → Prop) (m : M A) : (∀ w, snd (m w) ≠ Panic) →
  ipc_triple (λ w, P (i_pipes w)) (lift m) (λ _ w, P (i_pipes w)) (λ w, P (i_pipes w)).
Proof. intros Hm w Hw. specialize (Hm (i_m w)). unfold lift. by destruct (m (i_m w)) as [mw [a|e|]]. Qed.

Lemma ext_no_panic {A} (f : nat → mworld → mworld * outcome A) w : (∀ n w, snd (f n w) ≠ Panic) → snd (ext f w) ≠ Panic.
Proof. intros Hf. unfold ext. by destruct (env_fault _). Qed.

Lemma load_no_panic name w : snd (LoadFromName name w) ≠ Panic.
Proof. apply ext_no_panic. intros n w'. cbn. by destruct (m_stored w' !! name). Qed.

Lemma held_unlock name E : ipc_triple (held name) (unlock_pipe name) (λ _ w, free w) E.
Proof.
  intros w [Hn Ho]. unfold unlock_pipe, imodify. rewrite Hn. intros n. cbn. destruct (decide (n = name)) as [->|Hne];
    [by rewrite lookup_insert_eq|rewrite lookup_insert_ne by done; by apply Ho].
Qed.

Lemma free_connect name : ipc_triple free (connectTunnelServicePipe name) (λ _, held name) free.
Proof.
  assert (∀ w, free w → held name (w <| i_pipes := <[name := true]> (i_pipes w) |>)) as Hheld.
  { intros w Hw. split; cbn; [by rewrite lookup_insert_eq|]. intros n Hn. rewrite lookup_insert_ne by done. apply Hw. }
  intros w Hw. unfold connectTunnelServicePipe, lock_pipe. destruct (i_pipes w !! name) as [[]|] eqn:E; [by apply (Hw name)|by apply Hheld|].
  eapply (ipc_triple_bind free _ (λ _, free)); [| |done].
  { intros w1 H1. unfold io_lift, PipePathOfTunnel. by destruct (negb _). }
  intros _. do 2 (eapply (ipc_triple_bind free _ (λ _, free)); [by apply (ipc_triple_lift (λ p, ∀ n, p !! n ≠ Some true)); intros w1; apply ext_no_panic|]; intros _).
  intros w1 H1. by apply Hheld.
Qed.

Lemma free_disconnect name E : ipc_triple free (disconnectTunnelServicePipe name) (λ _, free) E.
Proof.
  intros w Hw. unfold disconnectTunnelServicePipe, lock_pipe, io_bind, imodify. destruct (i_pipes w !! name) as [[]|] eqn:E1; [by apply (Hw name)| |done].
  intros n. cbn. destruct (decide (n = name)) as [->|Hne]; [by rewrite lookup_delete_eq|].
  rewrite lookup_delete_ne, lookup_insert_ne by done. apply Hw.
Qed.

Lemma held_call {A} name (m : M A) : (∀ w, snd (m w) ≠ Panic) → ipc_triple (held name) (lift m) (λ _, held name) (held name).
Proof. apply (ipc_triple_lift (λ p, p !! name = Some true ∧ ∀ n, n ≠ name → p !! n ≠ Some true)). Qed.

Lemma ipc_triple_out {A} (r : outcome A) P Q E : (∀ w, P w → match r with Ret a => Q a w | Fail _ => E w | Panic => False end) → ipc_triple P (io_lift r) Q E.
Proof. intros H w Hw. specialize (H w Hw). unfold io_lift. by destruct r. Qed.

Definition after (name : gostring) {A} (r : outcome A) (w : iworld) : Prop := match r with Panic => False | _ => held name w end.

Lemma held_get name E : ipc_triple (held name) (attempt pipe_get) (after name) E.
Proof.
  intros w Hw. pose proof (ipc_triple_attempt _ _ _ _ E (held_call name ext_check ltac:(intros w1; by apply ext_no_panic)) w Hw) as H.
  unfold pipe_get. by destruct (attempt (lift ext_check) w) as [w' [[a|e|]|e|]].
Qed.

Lemma held_request name : ipc_triple (held name) (request_config name) (λ _, held name) free.
Proof.
  eapply ipc_triple_bind; [apply held_get|]. intros r. eapply (ipc_triple_bind _ _ (after name)).
  - destruct r as [u|e|]; [by apply (ipc_triple_out (Ret (Ret u)))| |intros w Hw; exact (False_ind _ Hw)]. destruct (same_errno _ _); [|by apply (ipc_triple_out (Ret (Fail e)))].
    eapply ipc_triple_bind; [apply held_unlock|]. intros ?. eapply ipc_triple_bind; [apply free_disconnect|]. intros ?.
    eapply ipc_triple_bind; [apply free_connect|]. intros ?. apply held_get.
  - intros [u|e|]; [by apply (ipc_triple_out (Ret tt))| |intros w Hw; exact (False_ind _ Hw)].
    eapply ipc_triple_bind; [apply held_unlock|]. intros ?. eapply ipc_triple_bind; [apply free_disconnect|]. intros ?. by apply (ipc_triple_out (Fail e)).
Qed.

(** With all pipes free, [RuntimeConfig] comes back, and they are free again. *)
Lemma free_runtime elevated name : ipc_triple free (RuntimeConfig elevated name) (λ _, free) free.
Proof.
  eapply ipc_triple_bind; [apply (ipc_triple_lift (λ p, ∀ n, p !! n ≠ Some true)), load_no_panic|]. intros c.
  eapply ipc_triple_bind; [apply free_connect|]. intros ?. eapply ipc_triple_bind; [apply held_request|]. intros ?.
  eapply (ipc_triple_bind _ _ (after name)).
  - assert (ipc_triple (held name) (let! reply := lift (ext_read (λ n _, Ret (uapi_reply n))) in io_lift (FromUAPI reply c)) (λ _, held name) (held name)) as H.
    { eapply ipc_triple_bind; [apply held_call; intros w; by apply ext_no_panic|]. intros reply. apply ipc_triple_out. intros w Hw.
      pose proof (FromUAPI_safe reply c) as Hs. by destruct (FromUAPI reply c). }
    intros w Hw. pose proof (ipc_triple_attempt _ _ _ _ free H w Hw) as H'. by destruct (attempt _ w) as [w' [[x|x|]|x|]].
  - intros r. eapply (ipc_triple_bind _ _ (λ _ w, free w ∧ r ≠ Panic)).
    + intros w Hw. destruct r; [..|done]; by pose proof (held_unlock name free w Hw).
    + intros ? w [Hw Hr]. by destruct r as [[conf x]|e|].
Qed.

(** Reading a tunnel's configuration never waits for its own lock, and gives
    the locks back, whether it succeeds or not. *)
Lemma RuntimeConfig_free elevated name w : (∀ n, i_pipes w !! n ≠ Some true) →
  snd (RuntimeConfig elevated name w) ≠ Panic ∧ ∀ n, i_pipes (fst (RuntimeConfig elevated name w)) !! n ≠ Some true.
Proof. intros Hw. pose proof (free_runtime elevated name w Hw) as H. by destruct (RuntimeConfig elevated name w) as [w' [a|e|]]. Qed.

Lemma tidy_runtime elevated name : tidies (RuntimeConfig elevated name).
Proof.
  intros w [Hq Hp]. split.
  - assert (Uncounted (λ _ : mworld, True)) as Hu by done.
    destruct (kept_runtime (λ _, True) (i_haveQuit w) (i_quits w) elevated name ltac:(by intros w') w) as (_ & -> & ->); [by split_and!|done].
  - by apply RuntimeConfig_free.
Qed.

Lemma tidy_probe elevated : tidies (ProbeConnection elevated).
Proof.
  unfold ProbeConnection. destruct elevated; [|by intros w]. cbn [negb]. apply tidy_bind; [apply tidy_lift|]. intros snapshot.
  destruct (_ =?s _); [by intros w|]. destruct (_ =?s _); [|apply tidy_lift]. apply tidy_bind; [apply tidy_runtime|]. by intros c w.
Qed.

Lemma tidy_service id elevated : service_keeps (MS := manager_service id elevated) False tidy (λ _, True).
Proof.
  split; cbn [manager_service s_StoredConfig s_RuntimeConfig s_Start s_Stop s_WaitForStop s_Delete s_State s_Create s_Tunnels s_Quit s_Update s_SmartStart s_SmartStop s_ConnectionSnapshot s_ProbeConnection];
    intros; try (split; [|by intros ? ?]); try apply keeps_always_method; auto using tidy_lift, tidy_runtime, tidy_quit, tidy_probe.
  - apply tidy_bind; [apply tidy_lift|]. by intros name w.
  - apply tidy_bind; [apply tidy_lift|]. by intros names w.
  - unfold Update. by destruct (negb elevated).
Qed.

(** The manager as connections are served, one after the other in any order. *)
Inductive served_run : iworld → Prop :=
| sr_start w : i_haveQuit w = false → i_quits w = O → i_pipes w = ∅ → served_run w
| sr_serve w id elevated e : served_run w → served_run (fst (fst (serve_pending (MS := manager_service id elevated) (w, e))))
| sr_outside w mw : served_run w → served_run (w <| i_m := mw |>).

(** C32: Whatever the clients send: the manager quits at most once, so that sending to
    the channel of quits never blocks, and no pipe to a tunnel service stays locked. *)
Theorem served_tidy w : served_run w → (i_quits w <= 1)%nat ∧ (i_quits w = 1%nat → i_haveQuit w = true) ∧ ∀ name, i_pipes w !! name ≠ Some true.
Proof.
  intros Hr. assert (tidy w) as [Hq Hp].
  { induction Hr as [w Hh Hn Hp|w id elevated e Hr IH|w mw Hr IH]; [|by destruct (serve_keeps _ _ _ (tidy_service id elevated) (w, e)) as [[[] _]|[H _]]; [split|]|done].
    split; [by rewrite Hn; lia|]. intros name. rewrite Hp. by rewrite lookup_empty. }
  destruct (i_haveQuit w); split_and!; try done; lia.
Qed.
(** ** One engine, whatever the clients send *)

(** The invariant of the manager after a method that did not panic. *)
Abbreviation inv := (wfx ∅ ∅).
Abbreviation one_engine := (λ w, inv (i_m w)).
Abbreviation engine_kept m := (method_keeps True one_engine m).

Lemma engine_lift {A} (m : M A) : spec inv m (λ _, inv) inv → engine_kept (lift m).
Proof.
  intros Hm w Hw. specialize (Hm _ Hw). unfold lift. destruct (m (i_m w)) as [mw [a|e|]]; cbn in *; [by right..|by left].
Qed.

Lemma engine_bind {A B} (m : IM A) (k : A → IM B) : engine_kept m → (∀ a, engine_kept (k a)) → engine_kept (io_bind m k).
Proof.
  intros Hm Hk w Hw. unfold io_bind. destruct (Hm w Hw) as [[_ Hp]|Hg]; destruct (m w) as [w' [a|e|]]; cbn [fst snd] in *; try done;
    [by left|by apply Hk|by right..].
Qed.

Lemma engine_frame {A} (m : M A) : frame m → engine_kept (lift m).
Proof. intros Hm. by apply engine_lift, inv_frame. Qed.

Lemma engine_ignore {A} (m : M A) : spec inv m (λ _, inv) inv → engine_kept (ignore_error (lift m)).
Proof.
  intros Hm w Hw. unfold ignore_error. destruct (engine_lift m Hm w Hw) as [[_ Hp]|Hg]; destruct (lift m w) as [w' [a|e|]]; cbn [fst snd] in *; try done;
    [by left|by right..].
Qed.

Lemma engine_uninstall names : engine_kept (uninstall_all names).
Proof.
  induction names as [|name names IH]; [by right|]. cbn [uninstall_all]. apply engine_bind; [apply engine_ignore, inv_frame, frame_uninstall|done].
Qed.

Lemma engine_quit id elevated b : engine_kept (Quit id elevated b).
Proof.
  unfold Quit. destruct elevated; [|by right]. cbn [negb]. intros w Hw. destruct (i_haveQuit w); [by right|].
  assert (engine_kept (quit_steps id b)) as H.
  { apply engine_bind; [destruct b; [apply engine_frame; unfold Tunnels; framing|by right]|]. intros names. apply engine_bind; [by right|]. intros _.
    apply engine_bind; [|intros _; apply engine_bind; by right]. destruct b; [|by right]. apply engine_bind; [apply engine_ignore, inv_stop|].
    intros _. apply engine_uninstall. }
  match goal with |- context [quit_steps id b ?w0] => specialize (H w0 Hw); destruct (quit_steps id b w0) as [w' [a|e|]] end;
    destruct H as [[_ Hp]|Hg]; cbn [fst snd] in *; try done;
    [by right|by right|by left|by right].
Qed.

Context (meanwhile_steps : ∀ n w, rtc manager_step w (meanwhile n w)).

Lemma inv_steps w w' : rtc manager_step w w' → inv w → inv w'.
Proof.
  induction 1 as [|w w1 w2 Hs _ IH]; [done|]. intros Hw. apply IH. destruct Hs as [r Hnp|w' Hc]; [|by apply (on_core w)].
  pose proof (inv_handle r w Hw) as H. by destruct (snd (handle r w)).
Qed.

Lemma inv_probe_lines l : spec inv (probe_lines l) (λ _, inv) inv.
Proof using Type*.
  induction l as [|[name url] l IH]; [by intros w|]. intros w Hw. cbn [probe_lines].
  eapply (spec_bind inv _ _ (λ _, inv) (λ _, inv) inv); [exact IH|intros rest w' Hw'; exact Hw'|].
  eapply inv_steps; [apply meanwhile_steps|]. by apply (on_core w).
Qed.

Lemma frame_snapshot : frame snapshot_m.
Proof. unfold snapshot_m. framing. apply frame_keeps, frame_native_states. apply _. Qed.

Lemma engine_runtime elevated name : engine_kept (RuntimeConfig elevated name).
Proof.
  intros w Hw. right. apply (kept_runtime inv (i_haveQuit w) (i_quits w)); [|by split_and!].
  unfold LoadFromName. apply keeps_ext_read, _.
Qed.

Lemma engine_probe elevated : engine_kept (ProbeConnection elevated).
Proof using Type*.
  unfold ProbeConnection. destruct elevated; [|by right]. cbn [negb]. apply engine_bind; [apply engine_frame, frame_snapshot|]. intros snapshot.
  destruct (_ =?s _); [by right|]. destruct (_ =?s _); [apply engine_bind; [apply engine_runtime|by right]|]. apply engine_lift. unfold probe_smart.
  eapply spec_bind; [apply inv_frame; framing|]. intros [state|]; [|apply spec_fail]. destruct (negb _); [apply spec_fail|].
  eapply spec_bind; [apply inv_frame; framing|]. intros ?. eapply spec_bind; [apply inv_probe_lines|]. intros lines. apply inv_frame. framing.
Qed.

Lemma engine_service id elevated : service_keeps (MS := manager_service id elevated) True one_engine (λ _, True).
Proof using Type*.
  split; cbn [manager_service s_StoredConfig s_RuntimeConfig s_Start s_Stop s_WaitForStop s_Delete s_State s_Create s_Tunnels s_Quit s_Update s_SmartStart s_SmartStop s_ConnectionSnapshot s_ProbeConnection];
    intros; try (split; [|by intros ? ?]); auto using engine_runtime, engine_quit, engine_probe.
  - apply engine_frame. unfold StoredConfig, LoadFromName. framing.
  - apply engine_lift. apply (inv_handle (RStart _)).
  - apply engine_lift. apply (inv_handle (RStop _)).
  - apply engine_frame, frame_wait.
  - apply engine_lift. apply (inv_handle (RDelete _ _)).
  - apply engine_frame, frame_state.
  - apply engine_bind; [apply engine_frame; unfold Create; framing; [apply frame_keeps, frame_require; apply _|apply frame_keeps; [apply _|]; by apply frame_ext_write]|by right].
  - apply engine_bind; [apply engine_frame; unfold Tunnels; framing|by right].
  - unfold Update. by destruct (negb elevated).
  - apply engine_lift. apply (inv_handle (RSmartStart _ _ _)).
  - apply engine_lift. apply (inv_handle (RSmartStop _)).
  - apply engine_frame, frame_snapshot.
Qed.

(** The manager with its clients: it starts with nothing running, serves what
    arrives on any connection, and meanwhile handles what does not come over a
    pipe (an engine that exited, a suspend, a recovery). *)
Inductive clients_run : iworld → Prop :=
| clients_start w : m_process (i_m w) = None → m_engines (i_m w) = ∅ → m_configs (i_m w) = ∅ → clients_run w
| clients_serve w id elevated e : clients_run w → snd (serve_pending (MS := manager_service id elevated) (w, e)) ≠ Panic →
    clients_run (fst (fst (serve_pending (MS := manager_service id elevated) (w, e))))
| clients_step w mw : clients_run w → manager_step (i_m w) mw → clients_run (w <| i_m := mw |>).

(** C10: whatever bytes the clients send, on however many connections, in every
    state between whole requests: at most the engine that the process record
    names is running, and as long as removing a file works no configuration file
    with its private key is left behind. *)
Theorem clients_one_engine w : clients_run w →
  m_engines (i_m w) ⊆ pids (m_process (i_m w)) ∧ ((∀ n, env_remove_fault n = None) → m_configs (i_m w) = ∅).
Proof using Type*.
  intros Hr. assert (inv (i_m w)) as (_ & He & Hd).
  { induction Hr as [w Hp He Hc|w id elevated e _ IH Hnp|w mw _ IH Hs].
    - split; [done|]. rewrite He, Hc. split; [set_solver|]. intros _. rewrite dom_empty_L. done.
    - destruct (serve_keeps _ _ _ (engine_service id elevated) (w, e)) as [[_ Hp]|[H _]]; [by split|by rewrite Hp in Hnp|done].
    - by apply (inv_steps (i_m w)); [apply rtc_once|]. }
  split; [set_solver|]. intros Hrm. specialize (Hd Hrm). apply dom_empty_inv_L. set_solver.
Qed.
End Unelevated.

(** ** Examples *)

Section Demo.
#[local] Existing Instance plain_runtime.
#[local] Instance demo_probes : ProbeEnv :=
  {| uapi_reply := λ _, "listen_port=51820" ++ [x0a; x0a]; https_reply := λ _ _, Fail ErrEOF; elapsed := λ _, []; local_time := λ _, [];
     meanwhile := λ _ w, w |}.
#[local] Existing Instance demo_text.

Definition demo_keyed : Config := let c := demo_config "home" in c <| Iface := Iface c <| PrivateKey := replicate KeyLength x01 |> |>.
Definition demo_manager : iworld :=
  mkIWorld (demo_world <| m_stored := <["home" : gostring := demo_keyed]> (m_stored demo_world) |>) (<[1%nat := IPCServerListen false]> ∅) false 0
    UpdateStateUnknown ∅.

(** Requests for a configuration, to delete it, and to quit. *)
Definition demo_requests : gob_end :=
  mkEnd [Value (VInt StoredConfigMethodType); Value (VString "home"); Value (VInt DeleteMethodType); Value (VString "home");
         Value (VInt QuitMethodType); Value (VBool true)] [] [] [] false.

(** The client gets the configuration without its key and is refused the rest. *)
Lemma unelevated_harmless_witness :
  let E := demo_env no_fault in
  let s := serve_pending (MS := manager_service 1 false) (demo_manager, demo_requests) in
  snd s = Ret true ∧ length (e_out (snd (fst s))) = 6%nat ∧ m_stored (i_m (fst (fst s))) = m_stored (i_m demo_manager) ∧
  i_quits (fst (fst s)) = 0%nat ∧ configs_ok redacted (e_out (snd (fst s))).
Proof.
  intros E s. pose proof (unelevated_harmless 1 demo_manager demo_requests ltac:(intros c Hc; by inversion Hc)) as H. fold s in H.
  split; [vm_compute; reflexivity|]. split; [vm_compute; reflexivity|]. destruct s as [[w e] r]. destruct H as (Hs & _ & _ & Hn & Hc).
  split; [exact Hs|]. split; [exact Hn|exact Hc].
Defined.

(** A client quits, and another one asks for a running configuration. *)
Lemma served_tidy_witness :
  let E := demo_env no_fault in
  ∃ w, served_run w ∧ i_quits w = 1%nat ∧ i_haveQuit w = true ∧ i_pipes w !! ("home" : gostring) = Some false.
Proof.
  intros E. pose proof (sr_start demo_manager eq_refl eq_refl eq_refl) as R0.
  pose proof (sr_serve _ 1 true (mkEnd [Value (VInt QuitMethodType); Value (VBool false)] [] [] [] false) R0) as R1.
  pose proof (sr_serve _ 2 false (mkEnd [Value (VInt RuntimeConfigMethodType); Value (VString "home")] [] [] [] false) R1) as R2.
  destruct (served_tidy _ R2) as (_ & Hq & _). eexists. split; [exact R2|]. split; [vm_compute; reflexivity|].
  split; [apply Hq; vm_compute; reflexivity|vm_compute; reflexivity].
Defined.


(** A client starts the smart mode over its pipe: one engine runs. *)
Definition demo_idle : iworld := mkIWorld idle_world ∅ false 0 UpdateStateUnknown ∅.
Definition demo_start : gob_end :=
  mkEnd [Value (VInt SmartStartMethodType); Value (VString "home"); Value (VString "selected")] [] [] [] false.

Lemma clients_one_engine_witness :
  let E := demo_env no_fault in
  let w := fst (fst (serve_pending (MS := manager_service 1 true) (demo_idle, demo_start))) in
  m_engines (i_m w) ≠ ∅ ∧ m_engines (i_m w) ⊆ pids (m_process (i_m w)) ∧ ((∀ n, env_remove_fault n = None) → m_configs (i_m w) = ∅).
Proof.
  intros E w. split; [intros H; apply (f_equal elements) in H; vm_compute in H; discriminate H|].
  apply clients_one_engine; [intros n mw; apply rtc_refl|]. apply clients_serve; [by apply clients_start|]. vm_compute. discriminate.
Defined.
End Demo.
